(* ===== verification/_CoqProject ===== *)
-Q . S2P
Prelude.v
Pmm.v
Ring.v
Sync.v
Pipe.v
IpcMsg.v
IpcSem.v
FrameSource.v
Kheap.v
Vmm.v
Route.v
FileDesc.v
Flock.v
Security.v
Path.v
Unicode.v
Slip.v
RbTree.v
Shm.v
SoftDiv.v
Slab.v
CString.v
CStdlib.v
Tcp.v
TcpSend.v
TcpRecv.v
TcpTable.v
FaultM.v
Dll.v
Sched.v
SchedExt.v
SchedQueue.v
SchedCfs.v
SchedInv.v
SchedRefine.v
SchedList.v
SchedFair.v
SchedMain.v
SchedDefects.v
Sha256.v
BlockCache.v
Signal.v
RamFs.v
Futex.v
