(* ===== verification/Prelude.v ===== *)
(** * FunsOS / FunsCore: a verification development

    FunsOS is a 32-bit x86 kernel in C with its drivers, file systems, network stack,
    user interface and applications.  This library models the parts of it that carry
    the kernel's own logic and proves what they promise to the rest.

    ** The program and its models

    The parts call each other downwards: shared memory and the kernel heap take
    frames from the page allocator and map them through the page tables; message
    queues, pipes and semaphore sets are built on mutexes and semaphores; the path
    resolver is what the file operations and the permission checks start from.

    - Prelude.v (this file): C integers at their width, C arrays, the loop
      [for (i = lo; i < hi; i++)] as [range lo hi], and the lemmas and tactics the
      components share.
    - Pmm.v, [Module Pmm]: src/kernel/pmm.c.  A bitmap with a bit for each 4 KiB
      frame, and the counters.  [page_used] is the abstract view.
    - FrameSource.v: the class [FrameSource], what a client of the page allocator
      relies on, with the instance of Pmm.v.
    - Kheap.v: src/kernel/kheap.c.  Headers in a memory keyed by address, client bytes
      beside them; proved against [FrameSource], so for every allocator of frames.
    - Vmm.v: src/kernel/vmm.c.  Physical memory as frames of 1024 words; directories
      and tables are such frames.  A kernel panic is [None].
    - Shm.v: src/kernel/ipc_shm.c, on Pmm.v and Vmm.v.
    - Slab.v: src/kernel/slab.c.  Slab descriptors and the words of the objects in memory.
    - Sync.v: src/kernel/sync.c.  The operations of mutexes, semaphores and spinlocks,
      and step relations for the interleavings of processes that use them.
    - FaultM.v, Dll.v: a state monad with faults and its proof rules, and doubly linked
      lists, for code that works through pointers.
    - Sched.v, SchedExt.v: src/kernel/sched.c.  Control blocks in a memory keyed by
      address, the queues and tables, and all operations on them.  SchedQueue.v: the
      queues are lists.  SchedInv.v, SchedRefine.v, SchedList.v: every operation refines
      an abstract scheduler on lists.  SchedFair.v: bounded waiting.  SchedCfs.v: the
      fair queue.  SchedMain.v: the theorems from boot on.  SchedDefects.v: executions
      that show defects.
    - Signal.v: src/kernel/signal.c.  The signal fields of the control blocks, the table of
      processes and user memory as words.
    - Futex.v: src/kernel/futex.c, with the waiters on the stacks of the processes.
    - Pipe.v, IpcMsg.v, IpcSem.v: src/kernel/pipe.c, ipc_msg.c, ipc_sem.c.
    - Ring.v: the byte loops of the circular buffers of pipes and TCP sockets.
    - Route.v: src/net/route.c.  Slip.v: src/net/slip.c.
    - Tcp.v, TcpSend.v, TcpRecv.v, TcpTable.v: src/net/tcp.c and tcp_state.c.  The
      operations on one socket are a state monad over the socket and the world (timer,
      allocator and link as tapes of answers, the packets sent, the other sockets); the
      classes [Keeps], [WKeeps] and [Steady] say what an operation leaves alone and are
      proved by search along the code.
    - FileDesc.v, Flock.v, Path.v: src/fs/file_desc.c, flock.c, path.c.
    - BlockCache.v: src/fs/cache.c, with the transfers of src/drivers/ide.c.  Entries in a
      memory keyed by address, on a hash chain and on the LRU list; the allocator and the
      drive are classes.
    - RamFs.v: src/fs/ramfs.c.  Nodes, inodes and directory entries in memories keyed by
      address; the heap is a class.
    - Sha256.v: src/kernel/sha256.c and the CRC of src/kernel/crypto.c.
    - Security.v: src/kernel/permission.c, acl.c, capability.c, rlimit.c.
    - RbTree.v: src/lib/rbtree.c, on a heap of nodes keyed by address.
    - Unicode.v: src/kernel/unicode.c.
    - CString.v, CStdlib.v, SoftDiv.v: src/lib/string.c, stdlib.c, softdiv.c.  Memory is
      a function from addresses to bytes.

    The names of the definitions are those of the C functions; a helper whose name is
    not in the source is a loop or a block of the function its comment names.

    ** Conventions

    A function that changes state takes the state last and returns its result with
    the new state.  An integer is a [Z]; wherever C would wrap, [u8], [u32], [s32] and
    the like are written out.  What the code calls outside the modelled parts (the
    network interfaces, the [close] callback of a file, the lookup operation of a file
    system, the user database) is an argument.  A block that runs with a lock held is
    one step; where a call can block, it is split at the point where it waits.

    ** What the theorems show

    - Memory: [init_pmm] establishes the invariant of the bitmap, every operation
      keeps it, allocation is first fit and is inverted by freeing; the kernel heap
      hands out disjoint, aligned, mapped blocks in every sequence of calls and
      refines a set of blocks; mapping and unmapping change the translation of one
      page; cloning shares every user page read-only; a shared region is created
      with fresh frames or not at all and is mapped page by page; an object cache
      hands out disjoint objects and follows only valid pointers.
    - Trees: insertion keeps order, colours and black heights, search is correct and
      logarithmic, iteration is in order.
    - Concurrency and IPC: mutual exclusion and first-come service in every
      interleaving, counting of semaphores, wake-ups of futexes in order of arrival, pipes and message queues are queues, a
      semaphore operation is all or nothing and its undo restores the values.
    - Scheduling: from boot, every sequence of calls and ticks keeps the queues, the
      process list and the states of the processes consistent and refines a scheduler
      on lists; a ready process of the normal class runs within a bounded number of
      ticks; the fair queue is a priority queue.
    - Network: lookup is longest-prefix match, a table is a map, SLIP frames come
      back as they were sent.
    - TCP: the process reads the bytes the peer sent, in order, without gaps or
      repetition, however segments are cut, lost, repeated and reordered; no byte
      accepted for sending is lost or reordered until it is acknowledged, and the
      windows are respected; data segments and options survive the wire; the state after
      every segment; the hash table of connections is a set.
    - Signals: SIGKILL cannot be blocked or caught and works within nine checks, the lowest
      pending signal is delivered, and a handler returns to the interrupted code.
    - Hashing: SHA-256 computed piece by piece is the SHA-256 of the whole, the table-driven
      CRC is the bitwise one.
    - Files: an open file of the memory file system refines a list of bytes with an offset,
      a created name is found, the block cache refines the map of its resident blocks, descriptor counts, the lock table, normal forms of paths, termination of
      the resolver.
    - Authorisation: the exact condition under which an access is granted.
    - Text: UTF-8 decoding inverts encoding and accepts nothing else.
    - C library: [qsort] sorts, [strtok_r] yields the fields, printing and reading
      numbers are inverse, the division routines compute quotient and remainder.

    Several lemmas show where the code does not do what it means to: the capability
    test loses the bits from 32 up, an exclusive file lock can be taken over, the heap
    hands out memory twice when the frames run out, [shm_detach] frees frames that are
    still shared, [rbtree_erase] can make a cycle, [strncpy] writes a byte too many,
    [unsetenv] lets the next variable overwrite another one, a SYN-ACK of the TCP code is
    not accepted by its own parser, two connections that wait to be accepted become one,
    processes of the fair and the deadline class are never scheduled, the block cache and the
    file systems call the disk driver with sector number and count exchanged, a handler can
    leave SIGKILL blocked, a renamed directory loses its files, a futex keeps waiters
    whose stack frame is gone, and others.

    ** Fuel

    Loops over arrays are folds or searches over [range] and need no fuel.  Loops along
    pointers take fuel, and the theorems give a result for enough of it: the number of
    nodes of a red-black tree (search: twice the logarithm), the number of blocks of
    the heap list, the number of slabs of a cache, the number of messages of a queue,
    the length of a string, the number of elements of a sorted array (33 for a search),
    65 for a 64-bit division, the number of sockets for a hash chain, the number of
    buffered bytes for the send loop, 2^17 passes for congestion avoidance
    ([aimd_loop_exit]), the number of control blocks for the process list, the size of the
    node array for the fair and the deadline queue, the number of entries for the chains of
    the block cache, of a directory and of a futex, 33 doublings for the buffer of a file.  The path resolver follows at
    most eight links and a path has at most 4096 bytes; [path_resolve_total] shows that
    nine passes are enough.

    ** Not modelled

    Assembly, interrupt entry and device drivers: their behaviour is the hardware's.
    Graphics, desktop, shell, applications and the development kit: clients of the
    kernel.  The file systems on disk, the other caches, the protocols other than TCP, the
    creation of processes and their address spaces, [mmap] and swap, formatted output and
    the floating-point part of the C library are not modelled.  In the
    modelled files, logging and statistics that nothing reads are left out where the
    comment of the file says so, and the instructions that flush the translation buffer
    have no counterpart. *)

From stdpp Require Export base list gmap strings numbers sorting.
From Stdlib Require Export ZArith Lia.
#[export] Set Default Proof Using "Type".
#[export] Set Default Goal Selector "!".

Open Scope Z_scope.

(** ** C integers

    A w-bit C integer is a [Z]; the wrap-around of every conversion and of
    every arithmetic operation that can leave the range is written out with
    these functions. *)

Definition u8 (z : Z) : Z := z mod 2 ^ 8.
Definition u16 (z : Z) : Z := z mod 2 ^ 16.
Definition u32 (z : Z) : Z := z mod 2 ^ 32.
Definition u64 (z : Z) : Z := z mod 2 ^ 64.

(** Two's complement reading of a [w]-bit pattern. *)
Definition sign (w z : Z) : Z :=
  let r := z mod 2 ^ w in if r <? 2 ^ (w - 1) then r else r - 2 ^ w.
Definition s16 (z : Z) : Z := sign 16 z.
Definition s32 (z : Z) : Z := sign 32 z.

Definition is_u8 (z : Z) : Prop := 0 <= z < 2 ^ 8.
Definition is_u16 (z : Z) : Prop := 0 <= z < 2 ^ 16.
Definition is_u32 (z : Z) : Prop := 0 <= z < 2 ^ 32.
Definition is_u64 (z : Z) : Prop := 0 <= z < 2 ^ 64.

(** [NULL] and the C truth value of a test. *)
Definition NULL : Z := 0.
Definition c_bool (b : bool) : Z := if b then 1 else 0.
Definition c_true (z : Z) : bool := negb (z =? 0).

(** ** C arrays

    An array is a list of cells read with [a .[ i ]] and written with
    [a .[ i <- v ]] at a [Z] index. *)
Definition aget {A} `{Inhabited A} (a : list A) (i : Z) : A := a !!! Z.to_nat i.
Definition aset {A} (a : list A) (i : Z) (v : A) : list A := <[Z.to_nat i := v]> a.

(** The length of a list as a [Z]. *)
Definition zlen {A} (l : list A) : Z := Z.of_nat (length l).

Declare Scope carray_scope.
Delimit Scope carray_scope with arr.
Notation "a .[ i ]" := (aget a i)
  (at level 1, left associativity, format "a .[ i ]") : carray_scope.
Notation "a .[ i <- v ]" := (aset a i v)
  (at level 1, left associativity, format "a .[ i <- v ]") : carray_scope.
Open Scope carray_scope.

(** [for (i = lo; i < hi; i++)] visits [range lo hi]. *)
Definition range (lo hi : Z) : list Z := seqZ lo (hi - lo).

(** The number of elements of [l] that pass the test [f]. *)
Definition zcount {A} (f : A -> bool) (l : list A) : Z := zlen (List.filter f l).

#[global] Arguments range : simpl never.
#[global] Arguments aget : simpl never.
#[global] Arguments aset : simpl never.
#[global] Arguments u8 : simpl never.
#[global] Arguments u16 : simpl never.
#[global] Arguments u32 : simpl never.
#[global] Arguments u64 : simpl never.
#[global] Arguments sign : simpl never.

(** ** Tactics *)

(** The update of one field of a record: [eta] rebuilds a record from its projections,
    and the place of the projection [field] is filled with the new value. *)
Ltac set_field eta s field v :=
  let e := eval cbv beta delta [eta] in (eta s) in
  lazymatch e with
  | context C [field s] => let r := context C [v] in exact r
  end.

(** Linear arithmetic with division and modulus by constants. *)
Ltac dlia := Z.to_euclidean_division_equations; lia.

(** Case analysis on the boolean comparisons of the goal and hypotheses. *)
Ltac zbool :=
  repeat match goal with
  | H : (_ =? _) = true |- _ => apply Z.eqb_eq in H
  | H : (_ =? _) = false |- _ => apply Z.eqb_neq in H
  | H : (_ <? _) = true |- _ => apply Z.ltb_lt in H
  | H : (_ <? _) = false |- _ => apply Z.ltb_ge in H
  | H : (_ <=? _) = true |- _ => apply Z.leb_le in H
  | H : (_ <=? _) = false |- _ => apply Z.leb_gt in H
  | H : andb _ _ = true |- _ => apply andb_true_iff in H; destruct H
  | H : orb _ _ = false |- _ => apply orb_false_iff in H; destruct H
  | H : negb _ = true |- _ => apply negb_true_iff in H
  | H : negb _ = false |- _ => apply negb_false_iff in H
  end.

Ltac case_if :=
  match goal with
  | |- context [if ?b then _ else _] => destruct b eqn:?; zbool
  | H : context [if ?b then _ else _] |- _ => destruct b eqn:?; zbool
  end.

(** Compare two integers bit by bit. *)
Ltac bits_eq :=
  apply Z.bits_inj'; intros ?k ?Hk;
  rewrite ?Z.land_spec, ?Z.lor_spec, ?Z.lxor_spec, ?Z.ldiff_spec.

Create HintDb cint discriminated.
Create Rewrite HintDb cint.

(** ** Lemmas on C integers *)

Lemma u32_small (z : Z) : is_u32 z -> u32 z = z.
Proof. intros H. apply Z.mod_small, H. Qed.

Lemma u32_range (z : Z) : is_u32 (u32 z).
Proof. apply Z.mod_pos_bound. lia. Qed.

Lemma u16_small (z : Z) : is_u16 z -> u16 z = z.
Proof. intros H. apply Z.mod_small, H. Qed.

Lemma u8_small (z : Z) : is_u8 z -> u8 z = z.
Proof. intros H. apply Z.mod_small, H. Qed.

Lemma s32_small (z : Z) : - 2 ^ 31 <= z < 2 ^ 31 -> s32 z = z.
Proof. unfold s32, sign. intros H. case_if; dlia. Qed.

Lemma s16_small (z : Z) : - 2 ^ 15 <= z < 2 ^ 15 -> s16 z = z.
Proof. unfold s16, sign. intros H. case_if; dlia. Qed.

Lemma s16_range (z : Z) : - 2 ^ 15 <= s16 z < 2 ^ 15.
Proof. unfold s16, sign. case_if; dlia. Qed.

Lemma sign_mod (w z : Z) : sign w z mod 2 ^ w = z mod 2 ^ w.
Proof.
  unfold sign. case_if; [apply Zmod_mod|].
  rewrite <-(Z_mod_plus_full _ 1 (2 ^ w)). rewrite Z.mul_1_l, Z.sub_add. apply Zmod_mod.
Qed.

Lemma sign_cong (w a b : Z) : a mod 2 ^ w = b mod 2 ^ w -> sign w a = sign w b.
Proof. unfold sign. by intros ->. Qed.

Lemma s16_add_l (a b : Z) : s16 (s16 a + b) = s16 (a + b).
Proof. apply sign_cong. rewrite Zplus_mod. unfold s16. by rewrite sign_mod, <-Zplus_mod. Qed.

Lemma s16_add_r (a b : Z) : s16 (a + s16 b) = s16 (a + b).
Proof. by rewrite Z.add_comm, s16_add_l, Z.add_comm. Qed.

#[export] Hint Resolve u32_range s16_range : cint.
#[export] Hint Rewrite u32_small u16_small u8_small s32_small s16_small
  using (unfold is_u32, is_u16, is_u8 in *; lia) : cint.

(** ** Bits *)

(** The mask [1 << k] of a 32-bit word and its complement. *)
Lemma testbit_one_shl (k j : Z) :
  0 <= k -> 0 <= j -> Z.testbit (Z.shiftl 1 k) j = (k =? j).
Proof.
  intros. rewrite Z.shiftl_spec by lia.
  destruct (Z.eqb_spec k j) as [->|Hn].
  - by rewrite Z.sub_diag.
  - destruct (Z.leb_spec k j).
    + apply (Z.bits_above_log2 1); [lia|]. change (Z.log2 1) with 0. lia.
    + apply Z.testbit_neg_r. lia.
Qed.

Lemma u32_testbit (z j : Z) :
  0 <= j -> Z.testbit (u32 z) j = (j <? 32) && Z.testbit z j.
Proof.
  intros. unfold u32. destruct (Z.ltb_spec j 32); simpl.
  - by rewrite Z.mod_pow2_bits_low by lia.
  - by rewrite Z.mod_pow2_bits_high by lia.
Qed.

Lemma is_u32_testbit (z j : Z) : is_u32 z -> 32 <= j -> Z.testbit z j = false.
Proof.
  intros Hz Hj. rewrite <-(u32_small z Hz), u32_testbit by lia.
  by rewrite (proj2 (Z.ltb_ge j 32)).
Qed.

(** An unsigned word is determined by its low bits, and bounded when its high
    bits are clear. *)
Lemma pow2_bound_testbit (w z : Z) :
  0 <= w -> 0 <= z -> (forall j, w <= j -> Z.testbit z j = false) -> z < 2 ^ w.
Proof.
  intros Hw Hz Hb. rewrite <-(Z.mod_small z (2 ^ (Z.max w (Z.log2 z + 1)))).
  - replace (z mod 2 ^ Z.max w (Z.log2 z + 1)) with (z mod 2 ^ w).
    + apply Z.mod_pos_bound. lia.
    + apply Z.bits_inj'. intros k Hk.
      destruct (Z.ltb_spec k w).
      * rewrite !Z.mod_pow2_bits_low by lia. done.
      * rewrite Z.mod_pow2_bits_high by lia.
        destruct (Z.ltb_spec k (Z.max w (Z.log2 z + 1))).
        -- rewrite Z.mod_pow2_bits_low by lia. by rewrite Hb.
        -- by rewrite Z.mod_pow2_bits_high by lia.
  - split; [done|]. destruct (Z.eqb_spec z 0) as [->|]; [lia|].
    eapply Z.lt_le_trans; [apply Z.log2_spec; lia|].
    apply Z.pow_le_mono_r; lia.
Qed.

(** Disjoint bits: [or] is addition. *)
Lemma lor_add (a b n : Z) : 0 <= n -> 0 <= b < 2 ^ n -> Z.lor (a * 2 ^ n) b = a * 2 ^ n + b.
Proof.
  intros Hn Hb. rewrite <-Z.add_lor_land. rewrite <-(Z.add_0_r (Z.lor _ _)) at 1. f_equal.
  apply Z.bits_inj'. intros k Hk. rewrite Z.land_spec, Z.bits_0.
  destruct (Z.ltb_spec k n); [by rewrite Z.mul_pow2_bits_low|].
  rewrite <-(Z.mod_small b (2 ^ n)), Z.mod_pow2_bits_high by lia. by rewrite andb_false_r.
Qed.

Lemma is_u32_bits (z : Z) :
  0 <= z -> (forall j, 32 <= j -> Z.testbit z j = false) -> is_u32 z.
Proof. intros. split; [done|]. by apply pow2_bound_testbit. Qed.

(** ** Arrays *)
Section arrays.
Context {A : Type} `{Inhabited A}.
Implicit Types (a : list A) (i j : Z).

Lemma zlen_aset a i v : zlen (aset a i v) = zlen a.
Proof. unfold zlen, aset. by rewrite length_insert. Qed.

Lemma aget_aset_eq a i v : 0 <= i < zlen a -> (aset a i v).[i] = v.
Proof. intros. unfold aget, aset, zlen in *. apply list_lookup_total_insert_eq. lia. Qed.

Lemma aget_aset_ne a i j v : 0 <= i -> 0 <= j -> i <> j -> (aset a i v).[j] = a.[j].
Proof.
  intros. unfold aget, aset. apply list_lookup_total_insert_ne. lia.
Qed.

Lemma aget_Forall (P : A -> Prop) a i : Forall P a -> 0 <= i < zlen a -> P a.[i].
Proof.
  intros Ha Hi. eapply Forall_lookup_1; [done|]. unfold aget, zlen in *.
  apply list_lookup_lookup_total_lt. lia.
Qed.

Lemma aset_Forall (P : A -> Prop) a i v : Forall P a -> P v -> Forall P (aset a i v).
Proof. intros. by apply Forall_insert. Qed.

Lemma aset_aget a i : aset a i a.[i] = a.
Proof.
  unfold aset, aget. destruct (decide (Z.to_nat i < length a)%nat).
  - apply list_insert_id. by apply list_lookup_lookup_total_lt.
  - apply list_insert_ge. lia.
Qed.

Lemma aset_aset a i v w : aset (aset a i v) i w = aset a i w.
Proof. apply list_insert_insert_eq. Qed.
End arrays.

#[export] Hint Resolve aset_Forall : cint.
#[export] Hint Rewrite @zlen_aset : cint.

(** ** Ranges *)

Lemma elem_of_range (lo hi i : Z) : i ∈ range lo hi <-> lo <= i < hi.
Proof. unfold range. rewrite elem_of_seqZ. lia. Qed.

Lemma NoDup_range (lo hi : Z) : NoDup (range lo hi).
Proof. apply NoDup_seqZ. Qed.

Lemma range_nil (lo hi : Z) : hi <= lo -> range lo hi = [].
Proof. intros. unfold range. rewrite seqZ_nil; [done|lia]. Qed.

Lemma range_cons (lo hi : Z) : lo < hi -> range lo hi = lo :: range (lo + 1) hi.
Proof.
  intros. unfold range. rewrite seqZ_cons by lia. f_equal. unfold Z.succ. f_equal. lia.
Qed.

Lemma range_app (lo mid hi : Z) :
  lo <= mid <= hi -> range lo hi = range lo mid ++ range mid hi.
Proof.
  intros. unfold range. replace (hi - lo) with ((mid - lo) + (hi - mid)) by lia.
  rewrite seqZ_app by lia. do 2 f_equal. lia.
Qed.

Lemma zlen_range (lo hi : Z) : lo <= hi -> zlen (range lo hi) = hi - lo.
Proof. intros. unfold zlen, range. rewrite length_seqZ. lia. Qed.

(** Induction over the iterations of [for (i = lo; i < hi; i++)]. *)
Lemma range_ind (P : Z -> Prop) (lo hi : Z) :
  (forall i, hi <= i -> P i) ->
  (forall i, lo <= i < hi -> P (i + 1) -> P i) ->
  P lo.
Proof.
  intros H0 HS.
  assert (forall n i, lo <= i -> hi - i <= Z.of_nat n -> P i) as H.
  { induction n as [|n IH]; intros i Hlo Hn.
    - apply H0. lia.
    - destruct (Z.le_gt_cases hi i); [by apply H0|].
      apply HS; [lia|]. apply IH; lia. }
  apply (H (Z.to_nat (hi - lo))); lia.
Qed.

(** A search loop that stops at the first hit. *)
Lemma find_range (f : Z -> bool) (lo hi : Z) :
  match List.find f (range lo hi) with
  | Some i => lo <= i < hi /\ f i = true /\ forall j, lo <= j < i -> f j = false
  | None => forall j, lo <= j < hi -> f j = false
  end.
Proof.
  apply (range_ind (fun lo => match List.find f (range lo hi) with
    | Some i => lo <= i < hi /\ f i = true /\ forall j, lo <= j < i -> f j = false
    | None => forall j, lo <= j < hi -> f j = false end) lo hi).
  - intros i Hi. rewrite range_nil by done. simpl. lia.
  - intros i Hi IH. rewrite range_cons by lia. simpl. destruct (f i) eqn:E.
    + split_and!; [lia|lia|done|lia].
    + destruct (List.find f _) as [k|].
      * destruct IH as (Hk & Hf & Hj). split_and!; [lia|lia|done|]. intros j Hij.
        destruct (decide (j = i)) as [->|]; [done|]. apply Hj. lia.
      * intros j Hij. destruct (decide (j = i)) as [->|]; [done|]. apply IH. lia.
Qed.

(** The last iteration of a loop over [range 0 (n + 1)]. *)
Lemma foldl_range_S {A} (f : A -> Z -> A) (a : A) (n : nat) :
  foldl f a (range 0 (Z.of_nat (S n))) = f (foldl f a (range 0 (Z.of_nat n))) (Z.of_nat n).
Proof.
  rewrite (range_app 0 (Z.of_nat n)), foldl_app by lia.
  rewrite (range_cons (Z.of_nat n) (Z.of_nat (S n))), (range_nil (Z.of_nat n + 1)) by lia. done.
Qed.

(** ** Counting *)
Section zcount.
Context {A : Type}.
Implicit Types (f g : A -> bool) (l : list A).

Lemma zlen_nonneg l : 0 <= zlen l.
Proof. unfold zlen. lia. Qed.

Lemma zlen_nil : zlen (@nil A) = 0.
Proof. done. Qed.

Lemma zlen_cons (x : A) l : zlen (x :: l) = 1 + zlen l.
Proof. unfold zlen. simpl. lia. Qed.

Lemma zlen_app l k : zlen (l ++ k) = zlen l + zlen k.
Proof. unfold zlen. rewrite length_app. lia. Qed.

Lemma zcount_cons f x l : zcount f (x :: l) = (if f x then 1 else 0) + zcount f l.
Proof. unfold zcount. simpl. destruct (f x); [rewrite zlen_cons|]; lia. Qed.

Lemma zcount_bounds f l : 0 <= zcount f l <= zlen l.
Proof.
  induction l as [|x l IH]; [done|]. rewrite zcount_cons, zlen_cons. destruct (f x); lia.
Qed.

Lemma zcount_ext f g l : (forall x, x ∈ l -> f x = g x) -> zcount f l = zcount g l.
Proof.
  induction l as [|x l IH]; intros Hfg; [done|]. rewrite !zcount_cons.
  rewrite (Hfg x) by set_solver. rewrite IH; [done|]. set_solver.
Qed.

Lemma zcount_all f l : (forall x, x ∈ l -> f x = true) -> zcount f l = zlen l.
Proof.
  induction l as [|x l IH]; intros Hf; [done|].
  rewrite zcount_cons, zlen_cons, (Hf x), IH; set_solver.
Qed.

(** Turning the test on at one element adds one. *)
Lemma zcount_update `{EqDecision A} f g l (i : A) :
  NoDup l -> i ∈ l -> f i = false -> g i = true ->
  (forall j, j ∈ l -> j <> i -> f j = g j) ->
  zcount g l = zcount f l + 1.
Proof.
  induction l as [|x l IH]; intros Hnd Hi Hf Hg Hext; [set_solver|].
  apply NoDup_cons in Hnd as [Hx Hnd]. rewrite !zcount_cons.
  destruct (decide (x = i)) as [->|Hxi].
  - rewrite Hf, Hg, (zcount_ext f g l); [lia|].
    intros y Hy. apply Hext; [by constructor|]. by intros ->.
  - apply elem_of_cons in Hi as [?|Hi]; [done|].
    rewrite (Hext x) by (done || constructor). rewrite IH; [lia|done..|].
    intros. apply Hext; [by constructor|done].
Qed.
End zcount.

#[export] Instance zlen_Permutation {A} : Proper ((≡ₚ) ==> (=)) (@zlen A).
Proof. intros l k H. unfold zlen. by rewrite H. Qed.

Lemma zlen_0 {A} (l : list A) : zlen l = 0 -> l = [].
Proof. destruct l as [|x l]; [done|]. rewrite zlen_cons. pose proof (zlen_nonneg l). lia. Qed.

(** ** Sums *)
Definition zsum (l : list Z) : Z := foldr Z.add 0 l.
#[global] Arguments zsum : simpl never.

Lemma zsum_app (l k : list Z) : zsum (l ++ k) = zsum l + zsum k.
Proof. induction l as [|x l IH]; [done|]. unfold zsum in *. simpl. lia. Qed.

Lemma zsum_cons (x : Z) (l : list Z) : zsum (x :: l) = x + zsum l.
Proof. done. Qed.

#[export] Instance zsum_Permutation : Proper ((≡ₚ) ==> (=)) zsum.
Proof. intros l k H. induction H; rewrite ?zsum_cons; lia. Qed.

Lemma zsum_insert {A} (f : A -> Z) (l : list A) (i : nat) (x y : A) :
  l !! i = Some x -> zsum (f <$> <[i := y]> l) = zsum (f <$> l) - f x + f y.
Proof.
  revert i. induction l as [|z l IH]; intros [|i] H; simplify_eq/=; rewrite ?zsum_cons; [lia|].
  rewrite IH by done. lia.
Qed.

Lemma zsum_zero {A} (f : A -> Z) (l : list A) :
  (forall x, x ∈ l -> f x = 0) -> zsum (f <$> l) = 0.
Proof.
  induction l as [|x l IH]; intros H; [done|]. rewrite fmap_cons, zsum_cons, H, IH; set_solver.
Qed.

(** Filling the hole left at [i] with the last element removes element [i]. *)
Lemma swap_remove_Permutation {A} (l : list A) (i : nat) (x y : A) :
  l !! i = Some x -> l ++ [y] ≡ₚ x :: <[i := y]> l.
Proof.
  intros H. assert (i < length l)%nat by (by eapply lookup_lt_Some).
  rewrite <-(take_drop_middle l i x H) at 1. rewrite insert_take_drop by done.
  solve_Permutation.
Qed.

Lemma filter_id {A} (P : A -> Prop) `{!forall x, Decision (P x)} (l : list A) :
  Forall P l -> filter P l = l.
Proof. induction 1; simpl; [done|]. rewrite filter_cons_True by done. by f_equal. Qed.
