(* ===== verification/Pmm.v ===== *)
(** * Physical page allocator (src/kernel/pmm.c)

    The allocator is a bitmap of [PMM_MAX_PAGES] bits, one per 4 KiB frame, a
    number of managed frames and a counter of used frames.  [Module Pmm] gives
    the state and every operation of pmm.c; the theorems relate them to the
    abstract view [page_used], a predicate on frame numbers. *)

From S2P Require Import Prelude.

Module Pmm.

Definition PAGE_SIZE : Z := 4096.
Definition BITS_PER_UINT32 : Z := 32.
Definition PMM_MAX_PAGES : Z := 1048576.
Definition ALL_ONES : Z := 4294967295. (* 0xFFFFFFFF *)

(** The file-scope variables of pmm.c. *)
Record pmm := mk_pmm {
  bitmap : list Z;
  total_pages : Z;
  used_pages : Z;
  bitmap_size : Z;
}.

Definition set_bitmap (b : list Z) (p : pmm) : pmm :=
  mk_pmm b (total_pages p) (used_pages p) (bitmap_size p).
Definition set_used (u : Z) (p : pmm) : pmm :=
  mk_pmm (bitmap p) (total_pages p) u (bitmap_size p).
Definition used_inc (p : pmm) : pmm := set_used (u32 (used_pages p + 1)) p.
Definition used_dec (p : pmm) : pmm := set_used (u32 (used_pages p - 1)) p.

Definition bitmap_set (index : Z) (p : pmm) : pmm :=
  let w := index / BITS_PER_UINT32 in
  set_bitmap (bitmap p).[w <- Z.lor (bitmap p).[w]
                (u32 (Z.shiftl 1 (index mod BITS_PER_UINT32)))] p.

Definition bitmap_clear (index : Z) (p : pmm) : pmm :=
  let w := index / BITS_PER_UINT32 in
  set_bitmap (bitmap p).[w <- Z.land (bitmap p).[w]
                (u32 (Z.lnot (Z.shiftl 1 (index mod BITS_PER_UINT32))))] p.

Definition bitmap_test (p : pmm) (index : Z) : bool :=
  c_true (Z.land (Z.shiftr (bitmap p).[index / BITS_PER_UINT32]
                           (index mod BITS_PER_UINT32)) 1).

(** The zero-initialised static variables. *)
Definition pmm_static : pmm :=
  mk_pmm (replicate (Z.to_nat (PMM_MAX_PAGES / BITS_PER_UINT32)) 0) 0 0 0.

(** The loop bodies of [init_pmm]: release a frame that is marked, reserve one
    that is not. *)
Definition release_page (p : pmm) (i : Z) : pmm :=
  if bitmap_test p i then used_dec (bitmap_clear i p) else p.
Definition reserve_page (p : pmm) (i : Z) : pmm :=
  if bitmap_test p i then p else used_inc (bitmap_set i p).

Definition max_addr (mem_upper : option Z) : Z :=
  match mem_upper with
  | None => ALL_ONES
  | Some m => let a := u32 (m * 1024) in if a =? 0 then ALL_ONES else a
  end.

(** [init_pmm info]: [mem_upper] is [info->mem_upper] ([None] for a NULL
    [info]); [base] is the address of the bitmap array, [kstart] and [kend0]
    the linker symbols of the kernel image. *)
Definition init_pmm (p : pmm) (mem_upper : option Z) (base kstart kend0 : Z) : pmm :=
  let tp := max_addr mem_upper / PAGE_SIZE in
  let tp := if PMM_MAX_PAGES <? tp then PMM_MAX_PAGES else tp in
  let bs := (tp + BITS_PER_UINT32 - 1) / BITS_PER_UINT32 in
  let bs := if PMM_MAX_PAGES / BITS_PER_UINT32 <? bs
            then PMM_MAX_PAGES / BITS_PER_UINT32 else bs in
  let b := fold_left (fun b i => b.[i <- ALL_ONES]) (range 0 bs) (bitmap p) in
  let p := mk_pmm b tp tp bs in
  let start_page := 1048576 / PAGE_SIZE in
  let p := fold_left release_page (range start_page tp) p in
  let p := used_inc (bitmap_set 0 p) in
  let bitmap_bytes := u32 (bs * 4) in
  let bitmap_start_page := base / PAGE_SIZE in
  let bitmap_end_page := u32 (base + bitmap_bytes + PAGE_SIZE - 1) / PAGE_SIZE in
  let p := fold_left reserve_page
             (range bitmap_start_page (Z.min bitmap_end_page tp)) p in
  let kend := if kend0 <? kstart then kstart else kend0 in
  let kstart_page := kstart / PAGE_SIZE in
  let kend_page := u32 (kend + PAGE_SIZE - 1) / PAGE_SIZE in
  fold_left reserve_page (range kstart_page (Z.min kend_page tp)) p.

(** The inner loop of [pmm_alloc_page] over the bits [js] of word [i]:
    [inl r] is a [return], [inr tt] falls out of the loop. *)
Fixpoint alloc_scan_bits (p : pmm) (i : Z) (js : list Z) : (Z * pmm) + unit :=
  match js with
  | [] => inr tt
  | j :: js =>
      let index := i * BITS_PER_UINT32 + j in
      if total_pages p <=? index then inl (NULL, p)
      else if Z.land (bitmap p).[i] (u32 (Z.shiftl 1 j)) =? 0
      then inl (u32 (index * PAGE_SIZE), used_inc (bitmap_set index p))
      else alloc_scan_bits p i js
  end.

Fixpoint alloc_scan_words (p : pmm) (ws : list Z) : Z * pmm :=
  match ws with
  | [] => (NULL, p)
  | i :: ws =>
      if (bitmap p).[i] =? ALL_ONES then alloc_scan_words p ws
      else match alloc_scan_bits p i (range 0 BITS_PER_UINT32) with
           | inl r => r
           | inr _ => alloc_scan_words p ws
           end
  end.

Definition pmm_alloc_page (p : pmm) : Z * pmm :=
  alloc_scan_words p (range 0 (bitmap_size p)).

Definition pmm_free_page (phys : Z) (p : pmm) : pmm :=
  if negb (phys mod PAGE_SIZE =? 0) then p
  else let index := phys / PAGE_SIZE in
       if total_pages p <=? index then p
       else if bitmap_test p index then used_dec (bitmap_clear index p) else p.

(** The search loop of [pmm_alloc_pages], with the loop variables
    [consecutive] and [start_index]. *)
Fixpoint alloc_run (p : pmm) (count consecutive start_index : Z) (ws : list Z)
    : Z * pmm :=
  match ws with
  | [] => (NULL, p)
  | i :: ws =>
      if bitmap_test p i then alloc_run p count 0 start_index ws
      else
        let start_index := if consecutive =? 0 then i else start_index in
        let consecutive := consecutive + 1 in
        if consecutive =? count then
          (u32 (start_index * PAGE_SIZE),
           fold_left (fun p q => used_inc (bitmap_set q p))
             (range start_index (start_index + count)) p)
        else alloc_run p count consecutive start_index ws
  end.

Definition pmm_alloc_pages (count : Z) (p : pmm) : Z * pmm :=
  if count =? 0 then (NULL, p)
  else if count =? 1 then pmm_alloc_page p
  else alloc_run p count 0 0 (range 0 (total_pages p)).

Fixpoint free_loop (index : Z) (ws : list Z) (p : pmm) : pmm :=
  match ws with
  | [] => p
  | i :: ws =>
      if total_pages p <=? u32 (index + i) then p
      else free_loop index ws (release_page p (u32 (index + i)))
  end.

Definition pmm_free_pages (phys count : Z) (p : pmm) : pmm :=
  if negb (phys mod PAGE_SIZE =? 0) then p
  else free_loop (phys / PAGE_SIZE) (range 0 count) p.

Definition pmm_get_total_pages (p : pmm) : Z := total_pages p.
Definition pmm_get_used_pages (p : pmm) : Z := used_pages p.
Definition pmm_get_free_pages (p : pmm) : Z := u32 (total_pages p - used_pages p).

(** ** Specification *)

(** Frame [i] is marked as used: bit [i mod 32] of word [i / 32]. *)
Definition page_used (p : pmm) (i : Z) : bool :=
  Z.testbit (bitmap p).[i / BITS_PER_UINT32] (i mod BITS_PER_UINT32).

(** The number of used frames among the managed ones. *)
Definition count_used (p : pmm) : Z :=
  zcount (page_used p) (range 0 (total_pages p)).

(** The representation invariant.  [d] is the amount by which the counter
    [used_pages] exceeds the number of marked frames. *)
Record pmm_inv (d : Z) (p : pmm) : Prop := {
  inv_len : zlen (bitmap p) = PMM_MAX_PAGES / BITS_PER_UINT32;
  inv_words : Forall is_u32 (bitmap p);
  inv_total : 0 <= total_pages p <= PMM_MAX_PAGES;
  inv_size : bitmap_size p = (total_pages p + 31) / 32;
  inv_drift : 0 <= d <= 1;
  inv_used : used_pages p = count_used p + d;
}.

(** [q] differs from [p] at most in the marks, which follow [f], and in the
    counter. *)
Definition marks (p q : pmm) (f : Z -> bool) : Prop :=
  total_pages q = total_pages p /\ bitmap_size q = bitmap_size p /\
  forall i, 0 <= i < PMM_MAX_PAGES -> page_used q i = f i.

(** ** Lemmas on the bitmap *)

Definition bm_ok (p : pmm) : Prop :=
  zlen (bitmap p) = PMM_MAX_PAGES / BITS_PER_UINT32 /\ Forall is_u32 (bitmap p).

Lemma word_index (i : Z) :
  0 <= i < PMM_MAX_PAGES -> 0 <= i / BITS_PER_UINT32 < PMM_MAX_PAGES / BITS_PER_UINT32.
Proof. unfold PMM_MAX_PAGES, BITS_PER_UINT32. intros. dlia. Qed.

Lemma bit_index (i : Z) : 0 <= i mod BITS_PER_UINT32 < 32.
Proof. unfold BITS_PER_UINT32. apply Z.mod_pos_bound. lia. Qed.

Lemma same_bit (i j : Z) :
  i / BITS_PER_UINT32 = j / BITS_PER_UINT32 ->
  (i mod BITS_PER_UINT32 =? j mod BITS_PER_UINT32) = (i =? j).
Proof.
  unfold BITS_PER_UINT32. intros. apply Bool.eq_true_iff_eq. rewrite !Z.eqb_eq. dlia.
Qed.

Lemma mask_testbit (i k : Z) :
  0 <= k -> Z.testbit (u32 (Z.shiftl 1 (i mod BITS_PER_UINT32))) k
            = (i mod BITS_PER_UINT32 =? k).
Proof.
  intros. pose proof (bit_index i). rewrite u32_testbit, testbit_one_shl by lia.
  destruct (Z.eqb_spec (i mod BITS_PER_UINT32) k), (Z.ltb_spec k 32); try done; lia.
Qed.

Lemma nmask_testbit (i k : Z) :
  0 <= k -> Z.testbit (u32 (Z.lnot (Z.shiftl 1 (i mod BITS_PER_UINT32)))) k
            = (k <? 32) && negb (i mod BITS_PER_UINT32 =? k).
Proof.
  intros. pose proof (bit_index i).
  by rewrite u32_testbit, Z.lnot_spec, testbit_one_shl by lia.
Qed.

Lemma bitmap_test_used (p : pmm) (i : Z) : bitmap_test p i = page_used p i.
Proof.
  unfold bitmap_test, page_used, c_true. pose proof (bit_index i).
  rewrite <-(Z.add_0_l (i mod BITS_PER_UINT32)) at 2.
  rewrite <-Z.shiftr_spec by lia. change 1 with (Z.ones 1).
  rewrite Z.land_ones by lia. rewrite <-Z.bit0_mod. by destruct (Z.testbit _ 0).
Qed.

Section bitmap_ops.
Context (p : pmm) (i : Z) (Hok : bm_ok p) (Hi : 0 <= i < PMM_MAX_PAGES).

Lemma word_u32 : is_u32 (bitmap p).[i / BITS_PER_UINT32].
Proof using Hok Hi.
  destruct Hok as [Hl Hw]. eapply aget_Forall; [done|]. rewrite Hl. by apply word_index.
Qed.

Lemma bitmap_set_ok : bm_ok (bitmap_set i p).
Proof using Hok Hi.
  destruct Hok as [Hl Hw]. pose proof word_u32 as Hu. split; simpl.
  - by rewrite zlen_aset.
  - apply aset_Forall; [done|]. apply is_u32_bits.
    + apply Z.lor_nonneg. split; [apply Hu|apply u32_range].
    + intros j Hj. rewrite Z.lor_spec, u32_testbit, (is_u32_testbit _ _ Hu) by lia.
      by rewrite (proj2 (Z.ltb_ge j 32)).
Qed.

Lemma bitmap_clear_ok : bm_ok (bitmap_clear i p).
Proof using Hok Hi.
  destruct Hok as [Hl Hw]. pose proof word_u32 as Hu. split; simpl.
  - by rewrite zlen_aset.
  - apply aset_Forall; [done|]. apply is_u32_bits.
    + apply Z.land_nonneg. left. apply Hu.
    + intros j Hj. by rewrite Z.land_spec, (is_u32_testbit _ _ Hu).
Qed.

Lemma page_used_set (j : Z) :
  0 <= j < PMM_MAX_PAGES -> page_used (bitmap_set i p) j = (i =? j) || page_used p j.
Proof using Hok Hi.
  intros Hj. destruct Hok as [Hl Hw]. unfold page_used. simpl.
  pose proof (word_index _ Hi). pose proof (word_index _ Hj). pose proof (bit_index j).
  destruct (Z.eq_dec (i / BITS_PER_UINT32) (j / BITS_PER_UINT32)) as [E|E].
  - rewrite <-(same_bit i j E), E, aget_aset_eq by lia.
    rewrite Z.lor_spec, mask_testbit by lia. apply orb_comm.
  - rewrite aget_aset_ne by lia. by destruct (Z.eqb_spec i j); [subst|].
Qed.

Lemma page_used_clear (j : Z) :
  0 <= j < PMM_MAX_PAGES ->
  page_used (bitmap_clear i p) j = negb (i =? j) && page_used p j.
Proof using Hok Hi.
  intros Hj. destruct Hok as [Hl Hw]. unfold page_used. simpl.
  pose proof (word_index _ Hi). pose proof (word_index _ Hj). pose proof (bit_index j).
  destruct (Z.eq_dec (i / BITS_PER_UINT32) (j / BITS_PER_UINT32)) as [E|E].
  - rewrite <-(same_bit i j E), E, aget_aset_eq by lia.
    rewrite Z.land_spec, nmask_testbit by lia.
    rewrite (proj2 (Z.ltb_lt _ 32)) by lia. apply andb_comm.
  - rewrite aget_aset_ne by lia. by destruct (Z.eqb_spec i j); [subst|].
Qed.
End bitmap_ops.

(** Two states with the same marks and the same scalars are equal. *)
Lemma pmm_ext (p q : pmm) :
  bm_ok p -> bm_ok q -> total_pages q = total_pages p -> bitmap_size q = bitmap_size p ->
  used_pages q = used_pages p ->
  (forall i, 0 <= i < PMM_MAX_PAGES -> page_used q i = page_used p i) -> q = p.
Proof.
  intros [Hl Hw] [Hl' Hw'] Ht Hs Hu Hp. destruct p as [b t u s], q as [b' t' u' s'].
  simpl in *. subst. f_equal. apply list_eq_same_length with (n := length b).
  { done. } { unfold zlen in *; lia. }
  intros n x y Hn Hx Hy.
  pose proof (Forall_lookup_1 _ _ _ _ Hw' Hx) as Hx32.
  pose proof (Forall_lookup_1 _ _ _ _ Hw Hy) as Hy32.
  apply Z.bits_inj'. intros k Hk. destruct (Z.lt_ge_cases k 32).
  - specialize (Hp (Z.of_nat n * 32 + k)). unfold page_used, aget in Hp. simpl in Hp.
    unfold zlen, PMM_MAX_PAGES, BITS_PER_UINT32 in *.
    rewrite Z.div_add_l, Z.div_small, Z.add_0_r, Nat2Z.id in Hp by lia.
    rewrite Z.add_comm, Z.mod_add, Z.mod_small in Hp by lia.
    rewrite (list_lookup_total_correct _ _ _ Hx), (list_lookup_total_correct _ _ _ Hy) in Hp.
    apply Hp. dlia.
  - by rewrite !is_u32_testbit.
Qed.

(** ** The invariant under marking and releasing *)

(** Under the invariant the marks determine the whole state. *)
Lemma inv_marks_eq (d : Z) (p q : pmm) :
  pmm_inv d p -> pmm_inv d q -> total_pages q = total_pages p ->
  (forall i, 0 <= i < PMM_MAX_PAGES -> page_used q i = page_used p i) -> q = p.
Proof.
  intros Hp Hq Ht Hm. pose proof Hp as []. pose proof Hq as [].
  apply pmm_ext; try done; [congruence|].
  rewrite inv_used0, inv_used1. unfold count_used. rewrite Ht. f_equal.
  apply zcount_ext. intros i Hi%elem_of_range. apply Hm. lia.
Qed.

Lemma inv_bm (d : Z) (p : pmm) : pmm_inv d p -> bm_ok p.
Proof. intros []. by split. Qed.

Lemma count_used_bounds (p : pmm) :
  0 <= total_pages p -> 0 <= count_used p <= total_pages p.
Proof.
  intros. unfold count_used. pose proof (zcount_bounds (page_used p) (range 0 (total_pages p))).
  rewrite zlen_range in * by lia. lia.
Qed.

Lemma inv_used_range (d : Z) (p : pmm) :
  pmm_inv d p -> 0 <= used_pages p <= total_pages p + d /\ total_pages p <= 1048576.
Proof.
  intros []. pose proof (count_used_bounds p). unfold PMM_MAX_PAGES in *. lia.
Qed.

(** Marking a free managed frame and counting it. *)
Lemma mark_inv (d i : Z) (p : pmm) :
  pmm_inv d p -> 0 <= i < total_pages p -> page_used p i = false ->
  pmm_inv d (used_inc (bitmap_set i p)) /\
  marks p (used_inc (bitmap_set i p)) (fun j => (i =? j) || page_used p j).
Proof.
  intros Hinv Hi Hfree. pose proof (inv_bm _ _ Hinv) as Hok.
  pose proof (inv_used_range _ _ Hinv). pose proof Hinv as [].
  assert (0 <= i < PMM_MAX_PAGES) as Hi' by lia.
  pose proof (page_used_set p i Hok Hi') as Hset.
  split; [|by repeat split].
  destruct (bitmap_set_ok p i Hok Hi') as [Hl Hw].
  constructor; try done. simpl. rewrite u32_small by (unfold is_u32; lia).
  unfold count_used in *. simpl. rewrite inv_used0.
  rewrite (zcount_update (page_used p) (page_used (used_inc (bitmap_set i p))) _ i).
  - lia.
  - apply NoDup_range.
  - apply elem_of_range. lia.
  - done.
  - change (page_used (bitmap_set i p) i = true). by rewrite Hset, Z.eqb_refl.
  - intros j Hj Hji. apply elem_of_range in Hj.
    change (page_used p j = page_used (bitmap_set i p) j). rewrite Hset by lia.
    by rewrite (proj2 (Z.eqb_neq i j)).
Qed.

(** Releasing a used managed frame and uncounting it. *)
Lemma unmark_inv (d i : Z) (p : pmm) :
  pmm_inv d p -> 0 <= i < total_pages p -> page_used p i = true ->
  pmm_inv d (used_dec (bitmap_clear i p)) /\
  marks p (used_dec (bitmap_clear i p)) (fun j => negb (i =? j) && page_used p j).
Proof.
  intros Hinv Hi Hused. pose proof (inv_bm _ _ Hinv) as Hok.
  pose proof (inv_used_range _ _ Hinv). pose proof Hinv as [].
  assert (0 <= i < PMM_MAX_PAGES) as Hi' by lia.
  pose proof (page_used_clear p i Hok Hi') as Hclr.
  split; [|by repeat split].
  destruct (bitmap_clear_ok p i Hok Hi') as [Hl Hw].
  assert (count_used p = count_used (used_dec (bitmap_clear i p)) + 1) as Hcnt.
  { unfold count_used. simpl. apply zcount_update with i.
    - apply NoDup_range.
    - apply elem_of_range. lia.
    - change (page_used (bitmap_clear i p) i = false). by rewrite Hclr, Z.eqb_refl.
    - done.
    - intros j Hj Hji. apply elem_of_range in Hj.
      change (page_used (bitmap_clear i p) j = page_used p j). rewrite Hclr by lia.
      by rewrite (proj2 (Z.eqb_neq i j)). }
  pose proof (count_used_bounds (used_dec (bitmap_clear i p))). simpl in *.
  constructor; try done. simpl. rewrite u32_small by (unfold is_u32; lia). lia.
Qed.

Lemma marks_refl (p : pmm) : marks p p (page_used p).
Proof. by repeat split. Qed.

Lemma marks_ext (p q : pmm) (f g : Z -> bool) :
  marks p q f -> (forall i, 0 <= i < PMM_MAX_PAGES -> f i = g i) -> marks p q g.
Proof. intros (Ht & Hs & Hm) Hfg. repeat split; try done. intros. by rewrite Hm, Hfg. Qed.

Lemma release_page_inv (d i : Z) (p : pmm) :
  pmm_inv d p -> 0 <= i < total_pages p ->
  pmm_inv d (release_page p i) /\
  marks p (release_page p i) (fun j => negb (i =? j) && page_used p j).
Proof.
  intros Hinv Hi. unfold release_page. rewrite bitmap_test_used.
  destruct (page_used p i) eqn:Hu; [by apply unmark_inv|].
  split; [done|]. eapply marks_ext; [apply marks_refl|]. intros j Hj. simpl.
  by destruct (Z.eqb_spec i j) as [->|].
Qed.

Lemma reserve_page_inv (d i : Z) (p : pmm) :
  pmm_inv d p -> 0 <= i < total_pages p ->
  pmm_inv d (reserve_page p i) /\
  marks p (reserve_page p i) (fun j => (i =? j) || page_used p j).
Proof.
  intros Hinv Hi. unfold reserve_page. rewrite bitmap_test_used.
  destruct (page_used p i) eqn:Hu; [|by apply mark_inv].
  split; [done|]. eapply marks_ext; [apply marks_refl|]. intros j Hj. simpl.
  by destruct (Z.eqb_spec i j) as [->|].
Qed.

(** A loop that releases, reserves or marks every frame of [l]. *)
Lemma release_all_inv (d : Z) (l : list Z) (p : pmm) :
  pmm_inv d p -> (forall i, i ∈ l -> 0 <= i < total_pages p) ->
  pmm_inv d (fold_left release_page l p) /\
  marks p (fold_left release_page l p) (fun j => negb (bool_decide (j ∈ l)) && page_used p j).
Proof.
  revert p. induction l as [|i l IH]; intros p Hinv Hl; simpl.
  - split; [done|]. eapply marks_ext; [apply marks_refl|]. intros j Hj.
    done.
  - destruct (release_page_inv d i p Hinv) as [Hinv' (Ht & Hs & Hm)]; [set_solver|].
    destruct (IH _ Hinv') as [Hinv'' (Ht' & Hs' & Hm')].
    { intros. rewrite Ht. set_solver. }
    split; [done|]. repeat split; [congruence..|]. intros j Hj.
    rewrite Hm', Hm by done. destruct (Z.eqb_spec i j) as [->|Hij].
    + rewrite (bool_decide_eq_true_2 (j ∈ j :: l)) by set_solver.
      simpl. by rewrite andb_false_r.
    + simpl. do 2 f_equal. apply bool_decide_ext. set_solver.
Qed.

Lemma reserve_all_inv (d : Z) (l : list Z) (p : pmm) :
  pmm_inv d p -> (forall i, i ∈ l -> 0 <= i < total_pages p) ->
  pmm_inv d (fold_left reserve_page l p) /\
  marks p (fold_left reserve_page l p) (fun j => bool_decide (j ∈ l) || page_used p j).
Proof.
  revert p. induction l as [|i l IH]; intros p Hinv Hl; simpl.
  - split; [done|]. eapply marks_ext; [apply marks_refl|]. intros j Hj.
    done.
  - destruct (reserve_page_inv d i p Hinv) as [Hinv' (Ht & Hs & Hm)]; [set_solver|].
    destruct (IH _ Hinv') as [Hinv'' (Ht' & Hs' & Hm')].
    { intros. rewrite Ht. set_solver. }
    split; [done|]. repeat split; [congruence..|]. intros j Hj.
    rewrite Hm', Hm by done. destruct (Z.eqb_spec i j) as [->|Hij].
    + rewrite (bool_decide_eq_true_2 (j ∈ j :: l)) by set_solver.
      simpl. by rewrite orb_true_r.
    + simpl. f_equal. apply bool_decide_ext. set_solver.
Qed.

(** ** Initialisation *)

Lemma fill_ok (l : list Z) (b : list Z) :
  Forall is_u32 b ->
  zlen (fold_left (fun b i => b.[i <- ALL_ONES]) l b) = zlen b /\
  Forall is_u32 (fold_left (fun b i => b.[i <- ALL_ONES]) l b).
Proof.
  revert b. induction l as [|i l IH]; intros b Hb; simpl; [done|].
  destruct (IH (b.[i <- ALL_ONES])) as [Hl Hf].
  - by apply aset_Forall.
  - split; [|done]. by rewrite Hl, zlen_aset.
Qed.

Lemma fill_get (l : list Z) (b : list Z) (k : Z) :
  0 <= k < zlen b -> (forall i, i ∈ l -> 0 <= i) ->
  k ∈ l \/ b.[k] = ALL_ONES ->
  (fold_left (fun b i => b.[i <- ALL_ONES]) l b).[k] = ALL_ONES.
Proof.
  revert b. induction l as [|i l IH]; intros b Hk Hpos Hin; simpl.
  - destruct Hin; [set_solver|done].
  - apply IH.
    + by rewrite zlen_aset.
    + set_solver.
    + destruct (decide (i = k)) as [->|Hne].
      * right. by rewrite aget_aset_eq.
      * destruct Hin as [Hin|Hin]; [left; set_solver|right].
        rewrite aget_aset_ne; [done|set_solver|lia|done].
Qed.

Lemma testbit_all_ones (k : Z) : 0 <= k < 32 -> Z.testbit ALL_ONES k = true.
Proof. intros. change ALL_ONES with (Z.ones 32). rewrite Z.ones_spec_low; [done|lia]. Qed.

(** The sizes [init_pmm] computes. *)
Definition managed (mem_upper : option Z) : Z :=
  let tp := max_addr mem_upper / PAGE_SIZE in
  if PMM_MAX_PAGES <? tp then PMM_MAX_PAGES else tp.

Lemma managed_range (m : option Z) : 0 <= managed m < PMM_MAX_PAGES.
Proof.
  assert (is_u32 (max_addr m)) as [].
  { unfold max_addr. destruct m as [m|]; [|done]. case_if; [done|apply u32_range]. }
  unfold managed, PAGE_SIZE, PMM_MAX_PAGES. case_if; dlia.
Qed.

(** All frames marked: the counter is exact. *)
Lemma all_marked_inv (b : list Z) (tp : Z) :
  let bs := (tp + 31) / 32 in
  let p := mk_pmm (fold_left (fun b i => b.[i <- ALL_ONES]) (range 0 bs) b) tp tp bs in
  zlen b = PMM_MAX_PAGES / BITS_PER_UINT32 -> Forall is_u32 b ->
  0 <= tp < PMM_MAX_PAGES ->
  pmm_inv 0 p /\ forall i, 0 <= i < tp -> page_used p i = true.
Proof.
  intros bs p Hl Hw Ht. destruct (fill_ok (range 0 bs) b Hw) as [Hl' Hw'].
  assert (forall i, 0 <= i < tp -> page_used p i = true) as Hall.
  { intros i Hi. unfold page_used. simpl. rewrite fill_get.
    - apply testbit_all_ones, bit_index.
    - rewrite Hl. apply word_index. lia.
    - intros j Hj. apply elem_of_range in Hj. lia.
    - left. apply elem_of_range. unfold bs, BITS_PER_UINT32. dlia. }
  split; [|done]. constructor; simpl; try done; try lia.
  unfold count_used. simpl. rewrite zcount_all; [rewrite zlen_range; lia|].
  intros i Hi%elem_of_range. by apply Hall.
Qed.

(** The frames [init_pmm] leaves marked: the first megabyte, the frames of the
    bitmap and the frames of the kernel image. *)
Definition init_reserved (mem_upper : option Z) (base kstart kend0 i : Z) : bool :=
  let bytes := 4 * ((managed mem_upper + 31) / 32) in
  let kend := Z.max kstart kend0 in
  (i <? 256)
  || (base / PAGE_SIZE <=? i) && (i <? u32 (base + bytes + PAGE_SIZE - 1) / PAGE_SIZE)
  || (kstart / PAGE_SIZE <=? i) && (i <? u32 (kend + PAGE_SIZE - 1) / PAGE_SIZE).

(** Marking a frame that is already marked and counting it again. *)
Lemma recount_inv (p : pmm) :
  pmm_inv 0 p -> (forall i, 0 <= i < Z.min 256 (total_pages p) -> page_used p i = true) ->
  pmm_inv 1 (used_inc (bitmap_set 0 p)) /\
  total_pages (used_inc (bitmap_set 0 p)) = total_pages p /\
  forall j, 0 <= j < total_pages p -> page_used (used_inc (bitmap_set 0 p)) j = page_used p j.
Proof.
  intros Hinv Hlow. pose proof (inv_bm _ _ Hinv) as Hok.
  pose proof (inv_used_range _ _ Hinv). pose proof Hinv as [].
  assert (0 <= 0 < PMM_MAX_PAGES) as H0 by (unfold PMM_MAX_PAGES; lia).
  destruct (bitmap_set_ok p 0 Hok H0) as [Hl Hw].
  assert (forall j, 0 <= j < total_pages p ->
            page_used (used_inc (bitmap_set 0 p)) j = page_used p j) as Hsame.
  { intros j Hj. change (page_used (bitmap_set 0 p) j = page_used p j).
    rewrite page_used_set by (done || lia). destruct (Z.eqb_spec 0 j) as [<-|]; [|done].
    rewrite Hlow by lia. done. }
  split_and!; [|done..]. constructor; try done; simpl; try lia.
  rewrite u32_small by (unfold is_u32; lia). unfold count_used in *. simpl.
  rewrite (zcount_ext _ (page_used p)); [lia|]. intros j Hj%elem_of_range. by apply Hsame.
Qed.

Lemma init_pmm_marks (p0 : pmm) (m : option Z) (base kstart kend0 : Z) :
  bm_ok p0 -> is_u32 base -> is_u32 kstart -> is_u32 kend0 ->
  let p := init_pmm p0 m base kstart kend0 in
  pmm_inv 1 p /\ total_pages p = managed m /\
  forall i, 0 <= i < managed m -> page_used p i = init_reserved m base kstart kend0 i.
Proof.
  intros [Hl0 Hw0] Hb Hks Hke. unfold init_pmm. fold (managed m).
  pose proof (managed_range m) as Hm. unfold BITS_PER_UINT32.
  replace (managed m + 32 - 1) with (managed m + 31) by lia.
  replace (PMM_MAX_PAGES / 32 <? (managed m + 31) / 32) with false
    by (symmetry; apply Z.ltb_ge; unfold PMM_MAX_PAGES in *; dlia).
  destruct (all_marked_inv (bitmap p0) (managed m) Hl0 Hw0 Hm) as [Hi0 Hu0].
  set (p1 := mk_pmm _ _ _ _) in *.
  change (1048576 / PAGE_SIZE) with 256.
  destruct (release_all_inv 0 (range 256 (managed m)) p1 Hi0) as [Hi1 (Ht1 & Hs1 & Hm1)].
  { intros i Hi%elem_of_range. change (total_pages p1) with (managed m). lia. }
  set (p2 := fold_left release_page _ _) in *. change (total_pages p1) with (managed m) in Ht1.
  destruct (recount_inv p2 Hi1) as (Hi2 & Ht2 & Hm2).
  { intros i Hi. rewrite Hm1, Hu0, andb_true_r by lia.
    rewrite bool_decide_eq_false_2; [done|]. rewrite elem_of_range. lia. }
  set (p3 := used_inc _) in *.
  rewrite (u32_small ((managed m + 31) / 32 * 4))
    by (clear - Hm; unfold is_u32, PMM_MAX_PAGES in *; dlia).
  replace ((managed m + 31) / 32 * 4) with (4 * ((managed m + 31) / 32)) by lia.
  set (be := u32 (base + _ + PAGE_SIZE - 1) / PAGE_SIZE).
  destruct (reserve_all_inv 1 (range (base / PAGE_SIZE) (Z.min be (managed m))) p3 Hi2)
    as [Hi4 (Ht4 & Hs4 & Hm4)].
  { intros i Hi%elem_of_range. rewrite Ht2, Ht1. unfold is_u32, PAGE_SIZE in *.
    pose proof (Z.div_pos base 4096). lia. }
  set (p4 := fold_left reserve_page _ p3) in *.
  replace (if kend0 <? kstart then kstart else kend0) with (Z.max kstart kend0)
    by (case_if; lia).
  set (ke := u32 (_ + PAGE_SIZE - 1) / PAGE_SIZE).
  destruct (reserve_all_inv 1 (range (kstart / PAGE_SIZE) (Z.min ke (managed m))) p4 Hi4)
    as [Hi5 (Ht5 & Hs5 & Hm5)].
  { intros i Hi%elem_of_range. rewrite Ht4, Ht2, Ht1. unfold is_u32, PAGE_SIZE in *.
    pose proof (Z.div_pos kstart 4096). lia. }
  split_and!; [done|congruence|]. intros i Hi.
  rewrite Hm5, Hm4, Hm2, Hm1, Hu0, andb_true_r by lia.
  unfold init_reserved. fold be ke. apply Bool.eq_true_iff_eq.
  rewrite !orb_true_iff, !andb_true_iff, negb_true_iff, !bool_decide_eq_true,
    bool_decide_eq_false, !elem_of_range, !Z.leb_le, !Z.ltb_lt. lia.
Qed.

(** ** Single-frame allocation *)

(** Every managed frame of [lo, hi) is used. *)
Definition no_free (p : pmm) (lo hi : Z) : Prop :=
  forall k, lo <= k < hi -> k < total_pages p -> page_used p k = true.

(** Frame [k] is the first free one at or after [lo]. *)
Definition first_free (p : pmm) (lo k : Z) : Prop :=
  lo <= k < total_pages p /\ page_used p k = false /\ no_free p lo k.

Definition allocated (p : pmm) (k : Z) : Z * pmm :=
  (k * PAGE_SIZE, used_inc (bitmap_set k p)).

Lemma frame_addr (k : Z) :
  0 <= k < PMM_MAX_PAGES -> u32 (k * PAGE_SIZE) = k * PAGE_SIZE.
Proof. intros. apply u32_small. unfold is_u32, PMM_MAX_PAGES, PAGE_SIZE in *. lia. Qed.

Lemma word_bit_used (p : pmm) (i j : Z) :
  0 <= i -> 0 <= j < 32 ->
  (Z.land (bitmap p).[i] (u32 (Z.shiftl 1 j)) =? 0)
  = negb (page_used p (i * BITS_PER_UINT32 + j)).
Proof.
  intros Hi Hj. unfold page_used, BITS_PER_UINT32.
  rewrite Z.div_add_l, Z.div_small, Z.add_0_r, Z.add_comm, Z.mod_add, Z.mod_small by lia.
  assert (forall k, 0 <= k -> Z.testbit (u32 (Z.shiftl 1 j)) k = (j =? k)) as Hbit.
  { intros k Hk. rewrite u32_testbit, testbit_one_shl by lia.
    destruct (Z.eqb_spec j k), (Z.ltb_spec k 32); try done; lia. }
  destruct (Z.testbit (bitmap p).[i] j) eqn:E; simpl.
  - apply Z.eqb_neq. intros H0. apply (f_equal (fun z => Z.testbit z j)) in H0.
    rewrite Z.land_spec, E, Hbit, Z.eqb_refl, Z.testbit_0_l in H0 by lia. done.
  - apply Z.eqb_eq. bits_eq. rewrite Hbit, Z.testbit_0_l by lia.
    destruct (Z.eqb_spec j k) as [<-|]; [by rewrite E|apply andb_false_r].
Qed.

Lemma no_free_step (p : pmm) (lo hi : Z) :
  page_used p lo = true -> no_free p (lo + 1) hi -> no_free p lo hi.
Proof.
  intros Hu Hn k Hk Hkt. destruct (Z.eq_dec k lo) as [->|]; [done|]. apply Hn; lia.
Qed.

Lemma no_free_app (p : pmm) (lo mid hi : Z) :
  no_free p lo mid -> no_free p mid hi -> no_free p lo hi.
Proof. intros H1 H2 k Hk Hkt. destruct (Z.lt_ge_cases k mid); [apply H1|apply H2]; lia. Qed.

Lemma first_free_app (p : pmm) (lo mid k : Z) :
  lo <= mid -> no_free p lo mid -> first_free p mid k -> first_free p lo k.
Proof.
  intros Hle Hn (Hk & Hu & Hf). split_and!; [lia|lia|done|]. by eapply no_free_app.
Qed.

(** What a scan that starts at frame [lo] may answer. *)
Definition found (p : pmm) (lo : Z) (r : Z * pmm) : Prop :=
  (exists k, first_free p lo k /\ r = allocated p k) \/
  (no_free p lo (total_pages p) /\ r = (NULL, p)).

Lemma found_skip (p : pmm) (lo mid : Z) (r : Z * pmm) :
  lo <= mid -> no_free p lo mid -> found p mid r -> found p lo r.
Proof.
  intros Hle Hn [(k & Hk & ->)|[Hn' ->]]; [left|right].
  - exists k. split; [|done]. by apply (first_free_app p lo mid).
  - split; [|done]. by apply (no_free_app p lo mid).
Qed.

Definition bits_post (p : pmm) (i j : Z) : Prop :=
  match alloc_scan_bits p i (range j 32) with
  | inl r => found p (i * BITS_PER_UINT32 + j) r
  | inr _ => no_free p (i * BITS_PER_UINT32 + j) (i * BITS_PER_UINT32 + 32)
  end.

Lemma alloc_scan_bits_spec (p : pmm) (i j : Z) :
  0 <= i -> total_pages p <= PMM_MAX_PAGES -> 0 <= j -> bits_post p i j.
Proof.
  intros Hi Hmax Hj. apply (range_ind (bits_post p i) j 32); unfold bits_post.
  - intros j' Hj'. rewrite range_nil by lia. simpl. intros k Hk. lia.
  - intros j' Hj' IH. rewrite range_cons by lia. simpl.
    destruct (Z.leb_spec (total_pages p) (i * BITS_PER_UINT32 + j')).
    { right. split; [|done]. intros k Hk. lia. }
    rewrite word_bit_used by lia.
    destruct (page_used p (i * BITS_PER_UINT32 + j')) eqn:Hu; simpl.
    + rewrite Z.add_assoc in IH. destruct (alloc_scan_bits p i (range (j' + 1) 32)) as [r|].
      * eapply found_skip; [| |exact IH]; [lia|].
        apply no_free_step; [done|]. intros ? ?; lia.
      * by apply no_free_step.
    + left. exists (i * BITS_PER_UINT32 + j'). split.
      * split_and!; [lia|lia|done|]. intros k Hk; lia.
      * unfold allocated. rewrite frame_addr; [done|]. unfold BITS_PER_UINT32 in *. lia.
Qed.

Lemma all_ones_no_free (p : pmm) (i : Z) :
  0 <= i -> (bitmap p).[i] = ALL_ONES ->
  no_free p (i * BITS_PER_UINT32) (i * BITS_PER_UINT32 + 32).
Proof.
  intros Hi Hw k Hk Hkt. unfold page_used, BITS_PER_UINT32 in *.
  replace (k / 32) with i by dlia. rewrite Hw. apply testbit_all_ones. dlia.
Qed.

Lemma alloc_scan_words_spec (p : pmm) (i : Z) :
  0 <= total_pages p <= PMM_MAX_PAGES -> bitmap_size p = (total_pages p + 31) / 32 ->
  0 <= i -> found p (i * BITS_PER_UINT32) (alloc_scan_words p (range i (bitmap_size p))).
Proof.
  intros Ht Hsz Hi.
  apply (range_ind (fun i => found p (i * BITS_PER_UINT32)
    (alloc_scan_words p (range i (bitmap_size p)))) i (bitmap_size p)).
  - intros i' Hi'. right. rewrite range_nil by lia. split; [|done].
    intros k Hk. rewrite Hsz in Hi'. unfold BITS_PER_UINT32 in *. dlia.
  - intros i' Hi' IH. rewrite range_cons by lia. cbn [alloc_scan_words].
    assert (no_free p (i' * BITS_PER_UINT32) (i' * BITS_PER_UINT32 + 32) ->
      found p (i' * BITS_PER_UINT32) (alloc_scan_words p (range (i' + 1) (bitmap_size p))))
      as Hskip.
    { intros Hn. apply (found_skip p _ ((i' + 1) * BITS_PER_UINT32)); [| |done].
      - unfold BITS_PER_UINT32. lia.
      - by replace ((i' + 1) * BITS_PER_UINT32) with (i' * BITS_PER_UINT32 + 32)
          by (unfold BITS_PER_UINT32; lia). }
    destruct (Z.eqb_spec (bitmap p).[i'] ALL_ONES) as [Hw|Hw].
    { apply Hskip, all_ones_no_free; [lia|done]. }
    pose proof (alloc_scan_bits_spec p i' 0 ltac:(lia) ltac:(lia) ltac:(lia)) as Hb.
    unfold bits_post in Hb. rewrite Z.add_0_r in Hb.
    change (range 0 BITS_PER_UINT32) with (range 0 32).
    destruct (alloc_scan_bits p i' (range 0 32)) as [r|]; [exact Hb|by apply Hskip].
Qed.

(** [pmm_alloc_page] returns the first free frame, or [NULL] when there is none. *)
Lemma pmm_alloc_page_found (d : Z) (p : pmm) :
  pmm_inv d p -> found p 0 (pmm_alloc_page p).
Proof. intros []. by apply (alloc_scan_words_spec p 0). Qed.

(** ** Contiguous allocation *)

Definition run_free (p : pmm) (s count : Z) : Prop :=
  forall k, s <= k < s + count -> page_used p k = false.

(** [s] is the first frame of the first run of [count] free managed frames. *)
Definition first_run (p : pmm) (count s : Z) : Prop :=
  0 <= s /\ s + count <= total_pages p /\ run_free p s count /\
  forall s', 0 <= s' < s -> ~ run_free p s' count.

Definition mark_all (l : list Z) (p : pmm) : pmm :=
  fold_left (fun p q => used_inc (bitmap_set q p)) l p.

Lemma mark_all_inv (d : Z) (l : list Z) (p : pmm) :
  pmm_inv d p -> NoDup l ->
  (forall i, i ∈ l -> 0 <= i < total_pages p /\ page_used p i = false) ->
  pmm_inv d (mark_all l p) /\
  marks p (mark_all l p) (fun j => bool_decide (j ∈ l) || page_used p j).
Proof.
  unfold mark_all.
  revert p. induction l as [|i l IH]; intros p Hinv Hnd Hl; simpl.
  - split; [done|]. eapply marks_ext; [apply marks_refl|]. done.
  - apply NoDup_cons in Hnd as [Hil Hnd]. destruct (Hl i) as [Hi Hf]; [set_solver|].
    destruct (mark_inv d i p Hinv Hi Hf) as [Hinv' (Ht & Hs & Hm)].
    destruct (IH _ Hinv' Hnd) as [Hinv'' (Ht' & Hs' & Hm')].
    { intros j Hj. destruct (Hl j) as [Hj' Hf']; [set_solver|]. rewrite Ht, Hm.
      - split; [done|]. rewrite Hf', orb_false_r. apply Z.eqb_neq. set_solver.
      - destruct Hinv. lia. }
    split; [done|]. repeat split; [congruence..|]. intros j Hj.
    rewrite Hm', Hm by done. destruct (Z.eqb_spec i j) as [->|Hij].
    + rewrite (bool_decide_eq_true_2 (j ∈ j :: l)) by set_solver.
      by rewrite orb_true_r.
    + rewrite orb_false_l. f_equal. apply bool_decide_ext. set_solver.
Qed.

(** The loop invariant of [alloc_run] at frame [i]: the last [c] frames are
    free, the frame before them is not (or there is none), and no run ends
    before [i]. *)
Record run_inv (p : pmm) (count c start i : Z) : Prop := {
  ri_c : 0 <= c < count;
  ri_i : c <= i;
  ri_start : c <> 0 -> start = i - c;
  ri_free : run_free p (i - c) c;
  ri_edge : i - c = 0 \/ page_used p (i - c - 1) = true;
}.

Lemma run_inv_none (p : pmm) (count c start i s : Z) :
  run_inv p count c start i -> 0 <= s -> s < i - c -> s + count > i - c - 1 ->
  ~ run_free p s count.
Proof.
  intros [] Hs Hlt Hgt Hr. destruct ri_edge0 as [|Hu]; [lia|].
  rewrite Hr in Hu; [done|lia].
Qed.

Definition run_found (p : pmm) (count lo : Z) (r : Z * pmm) : Prop :=
  (exists s, lo <= s /\ s + count <= total_pages p /\ run_free p s count /\
     (forall s', lo <= s' < s -> ~ run_free p s' count) /\
     r = (s * PAGE_SIZE, mark_all (range s (s + count)) p)) \/
  ((forall s, lo <= s -> s + count <= total_pages p -> ~ run_free p s count) /\
   r = (NULL, p)).

Lemma run_found_weaken (p : pmm) (count lo lo' : Z) (r : Z * pmm) :
  lo <= lo' -> (forall s, lo <= s < lo' -> ~ run_free p s count) ->
  run_found p count lo' r -> run_found p count lo r.
Proof.
  intros Hle Hno [(s & Hs & Ht & Hr & Hm & ->)|[Hn ->]]; [left|right].
  - exists s. split_and!; try done; [lia|]. intros s' Hs'.
    destruct (Z.lt_ge_cases s' lo'); [apply Hno|apply Hm]; lia.
  - split; [|done]. intros s Hs Ht. destruct (Z.lt_ge_cases s lo'); [apply Hno|apply Hn]; lia.
Qed.

Lemma run_inv_used (p : pmm) (count c start i : Z) :
  run_inv p count c start i -> page_used p i = true -> run_inv p count 0 start (i + 1).
Proof.
  intros [] Hu. constructor; try lia.
  - intros k Hk. lia.
  - right. by replace (i + 1 - 0 - 1) with i by lia.
Qed.

Lemma run_inv_next (p : pmm) (count c start i : Z) :
  run_inv p count c start i -> page_used p i = false -> c + 1 <> count ->
  run_inv p count (c + 1) (if c =? 0 then i else start) (i + 1).
Proof.
  intros [] Hu Hc. constructor; try lia.
  - intros _. case_if; lia.
  - intros k Hk. destruct (Z.eq_dec k i) as [->|]; [done|]. apply ri_free0. lia.
  - by replace (i + 1 - (c + 1)) with (i - c) by lia.
Qed.

Lemma alloc_run_spec (p : pmm) (count : Z) (n : nat) :
  total_pages p <= PMM_MAX_PAGES ->
  forall i c start, Z.of_nat n = Z.max 0 (total_pages p - i) -> i <= total_pages p ->
  run_inv p count c start i ->
  run_found p count (i - c) (alloc_run p count c start (range i (total_pages p))).
Proof.
  intros Hmax. induction n as [|n IH]; intros i c start Hn Hi Hinv; pose proof Hinv as [].
  - right. rewrite range_nil by lia. split; [|done]. intros s Hs Ht. lia.
  - rewrite range_cons by lia. cbn [alloc_run]. rewrite bitmap_test_used.
    destruct (page_used p i) eqn:Hu.
    + apply (run_found_weaken p count _ (i + 1)); [lia| |].
      * intros s Hs Hr. rewrite Hr in Hu; [done|lia].
      * replace (i + 1) with (i + 1 - 0) at 1 by lia.
        apply IH; [lia..|]. by eapply run_inv_used.
    + assert ((if c =? 0 then i else start) = i - c) as Hst by (case_if; lia).
      destruct (Z.eqb_spec (c + 1) count) as [Hc|Hc].
      * left. exists (i - c). rewrite Hst. split_and!; try lia.
        -- intros k Hk. destruct (Z.eq_dec k i) as [->|]; [done|]. apply ri_free0. lia.
        -- unfold mark_all. rewrite frame_addr; [done|]. lia.
      * replace (i - c) with (i + 1 - (c + 1)) by lia.
        apply IH; [lia..|]. by apply run_inv_next.
Qed.

Lemma pmm_alloc_pages_found (d count : Z) (p : pmm) :
  pmm_inv d p -> 2 <= count -> run_found p count 0 (pmm_alloc_pages count p).
Proof.
  intros [] Hc. unfold pmm_alloc_pages.
  rewrite (proj2 (Z.eqb_neq count 0)), (proj2 (Z.eqb_neq count 1)) by lia.
  apply (alloc_run_spec p count (Z.to_nat (total_pages p)) ltac:(lia) 0 0 0); try lia.
  constructor; try lia. intros k Hk. lia.
Qed.

(** ** Freeing *)

Lemma free_page_eq (phys : Z) (p : pmm) :
  pmm_free_page phys p =
  if (phys mod PAGE_SIZE =? 0) && (phys / PAGE_SIZE <? total_pages p)
  then release_page p (phys / PAGE_SIZE) else p.
Proof.
  unfold pmm_free_page, release_page. destruct (phys mod PAGE_SIZE =? 0); [|done]. simpl.
  rewrite Z.leb_antisym. by destruct (phys / PAGE_SIZE <? total_pages p).
Qed.

Lemma release_total (p : pmm) (i : Z) : total_pages (release_page p i) = total_pages p.
Proof. unfold release_page. by destruct (bitmap_test p i). Qed.

Lemma free_loop_eq (index count : Z) (p : pmm) :
  0 <= index -> total_pages p <= PMM_MAX_PAGES ->
  forall i, 0 <= i -> index + i <= PMM_MAX_PAGES ->
  free_loop index (range i count) p =
  fold_left release_page (range (index + i) (Z.min (index + count) (total_pages p))) p.
Proof.
  intros Hx Hmax i Hi Hle. remember (Z.to_nat (count - i)) as n eqn:Hn.
  revert i p Hn Hmax Hi Hle. induction n as [|n IH]; intros i p Hn Hmax Hi Hle.
  - rewrite !range_nil by lia. done.
  - rewrite range_cons by lia. cbn [free_loop].
    rewrite u32_small by (unfold is_u32, PMM_MAX_PAGES in *; lia).
    destruct (Z.leb_spec (total_pages p) (index + i)).
    + by rewrite range_nil by lia.
    + rewrite IH by (rewrite ?release_total; lia).
      rewrite (range_cons (index + i)) by lia. simpl.
      by rewrite release_total, Z.add_assoc.
Qed.

Lemma free_pages_eq (phys count : Z) (p : pmm) :
  is_u32 phys -> total_pages p <= PMM_MAX_PAGES ->
  pmm_free_pages phys count p =
  if phys mod PAGE_SIZE =? 0
  then fold_left release_page
         (range (phys / PAGE_SIZE) (Z.min (phys / PAGE_SIZE + count) (total_pages p))) p
  else p.
Proof.
  intros Hp Hmax. unfold pmm_free_pages. destruct (phys mod PAGE_SIZE =? 0); [|done]. simpl.
  unfold is_u32, PAGE_SIZE, PMM_MAX_PAGES in *.
  rewrite free_loop_eq; rewrite ?Z.add_0_r; unfold PMM_MAX_PAGES; [done| |lia..|dlia]. dlia.
Qed.

(** ** Reachable states *)

Inductive pmm_step : pmm -> pmm -> Prop :=
  | step_alloc p : pmm_step p (pmm_alloc_page p).2
  | step_free p phys : is_u32 phys -> pmm_step p (pmm_free_page phys p)
  | step_alloc_pages p count : is_u32 count -> pmm_step p (pmm_alloc_pages count p).2
  | step_free_pages p phys count :
      is_u32 phys -> is_u32 count -> pmm_step p (pmm_free_pages phys count p).

Lemma alloc_page_inv (d : Z) (p : pmm) : pmm_inv d p -> pmm_inv d (pmm_alloc_page p).2.
Proof.
  intros Hinv. destruct (pmm_alloc_page_found d p Hinv) as [(k & (Hk & Hu & _) & ->)|[_ ->]];
    [|done]. by apply mark_inv.
Qed.

Lemma alloc_pages_inv (d count : Z) (p : pmm) :
  pmm_inv d p -> is_u32 count -> pmm_inv d (pmm_alloc_pages count p).2.
Proof.
  intros Hinv [Hc _].
  destruct (Z.eq_dec count 0) as [->|]; [done|].
  destruct (Z.eq_dec count 1) as [->|]; [by apply alloc_page_inv|].
  destruct (pmm_alloc_pages_found d count p Hinv ltac:(lia))
    as [(s & Hs & Ht & Hr & _ & ->)|[_ ->]]; [|done].
  apply mark_all_inv; [done|apply NoDup_range|].
  intros i Hi%elem_of_range. split; [lia|]. apply Hr. lia.
Qed.

Lemma free_pages_inv (d phys count : Z) (p : pmm) :
  pmm_inv d p -> is_u32 phys -> pmm_inv d (pmm_free_pages phys count p).
Proof.
  intros Hinv Hp. pose proof Hinv as []. rewrite free_pages_eq by (done || lia).
  case_if; [|done]. apply release_all_inv; [done|]. intros i Hi%elem_of_range.
  unfold is_u32, PAGE_SIZE in *. dlia.
Qed.

Lemma pmm_step_inv (d : Z) (p q : pmm) : pmm_inv d p -> pmm_step p q -> pmm_inv d q.
Proof.
  intros Hinv Hs. destruct Hs.
  - by apply alloc_page_inv.
  - rewrite free_page_eq. case_if; [|done]. apply release_page_inv; [done|].
    unfold is_u32, PAGE_SIZE in *. dlia.
  - by apply alloc_pages_inv.
  - by apply free_pages_inv.
Qed.

Lemma pmm_reach_inv (d : Z) (p q : pmm) : pmm_inv d p -> rtc pmm_step p q -> pmm_inv d q.
Proof. intros Hinv Hr. induction Hr; [done|]. eauto using pmm_step_inv. Qed.

Lemma pmm_static_ok : bm_ok pmm_static.
Proof.
  split; unfold pmm_static; cbn [bitmap].
  - unfold zlen. rewrite length_replicate. by rewrite Z2Nat.id.
  - by apply Forall_replicate.
Qed.

(** A machine with 4 MiB: 1024 frames, the bitmap at 2 MiB and the kernel at
    1 MiB..1.5 MiB. *)
Definition demo : pmm := init_pmm pmm_static (Some 4096) 2097152 1048576 1572864.

Lemma demo_marks :
  pmm_inv 1 demo /\ total_pages demo = 1024 /\
  forall i, 0 <= i < 1024 ->
    page_used demo i = init_reserved (Some 4096) 2097152 1048576 1572864 i.
Proof. by apply (init_pmm_marks pmm_static (Some 4096) 2097152 1048576 1572864 pmm_static_ok). Qed.

#[local] Opaque demo init_pmm.

(** ** Theorems *)

(** C1: [init_pmm], run on the zeroed statics, establishes the representation
    invariant and leaves marked exactly the frames of the first megabyte, of the
    bitmap itself and of the kernel image; its counter exceeds the number of
    marked frames by one, because frame 0, marked from the start, is counted a
    second time. *)
Theorem init_pmm_spec (m : option Z) (base kstart kend0 : Z) :
  is_u32 base -> is_u32 kstart -> is_u32 kend0 ->
  let p := init_pmm pmm_static m base kstart kend0 in
  pmm_inv 1 p /\ total_pages p = managed m /\
  used_pages p = count_used p + 1 /\
  forall i, 0 <= i < managed m -> page_used p i = init_reserved m base kstart kend0 i.
Proof.
  intros Hb Hs He p. destruct (init_pmm_marks _ m base kstart kend0 pmm_static_ok Hb Hs He)
    as (Hinv & Ht & Hm). pose proof Hinv as []. by split_and!.
Qed.

Lemma init_pmm_spec_witness :
  let p := init_pmm pmm_static (Some 4096) 2097152 1048576 1572864 in
  page_used p 0 = true /\ page_used p 256 = true /\ page_used p 400 = false.
Proof.
  intros p. destruct (init_pmm_spec (Some 4096) 2097152 1048576 1572864) as (_ & _ & _ & H);
    [done..|]. fold p in H. split_and!; by rewrite H.
Defined.

(** C2: [pmm_alloc_page] returns the address of the first free managed frame and
    marks exactly that frame, keeping the invariant; when no managed frame is
    free it returns [NULL] and changes nothing. *)
Theorem pmm_alloc_page_spec (d : Z) (p : pmm) :
  pmm_inv d p ->
  let '(addr, q) := pmm_alloc_page p in
  (exists k, 0 <= k < total_pages p /\ page_used p k = false /\
     (forall j, 0 <= j < k -> page_used p j = true) /\
     addr = k * PAGE_SIZE /\ pmm_inv d q /\
     marks p q (fun j => (k =? j) || page_used p j)) \/
  ((forall j, 0 <= j < total_pages p -> page_used p j = true) /\ addr = NULL /\ q = p).
Proof.
  intros Hinv. destruct (pmm_alloc_page_found d p Hinv) as [(k & (Hk & Hu & Hn) & ->)|[Hn ->]].
  - left. exists k. destruct (mark_inv d k p Hinv Hk Hu) as [Hi Hm].
    split_and!; try done; try lia. intros j Hj. apply Hn; lia.
  - right. split_and!; [|done..]. intros j Hj. apply Hn; lia.
Qed.

Lemma pmm_alloc_page_spec_witness :
  pmm_inv 1 demo /\ exists k, (pmm_alloc_page demo).1 = k * PAGE_SIZE /\ 256 <= k.
Proof.
  destruct demo_marks as (Hinv & Ht & Hm). split; [done|].
  pose proof (pmm_alloc_page_spec 1 demo Hinv) as H.
  destruct (pmm_alloc_page demo) as [addr q]. destruct H as [(k & Hk & Hu & _ & -> & _)|[Hn _]].
  - exists k. split; [done|]. destruct (Z.lt_ge_cases k 256); [|done].
    rewrite Hm in Hu by lia. unfold init_reserved in Hu.
    rewrite (proj2 (Z.ltb_lt k 256)) in Hu by done. done.
  - specialize (Hn 400). rewrite Ht, Hm in Hn by lia. by specialize (Hn ltac:(lia)).
Defined.

(** [pmm_alloc_pages] of two or more frames returns the start of the first run of
    [count] free managed frames and marks exactly that run, keeping the
    invariant; when there is no such run it returns [NULL] and changes nothing. *)
Theorem pmm_alloc_pages_spec (d count : Z) (p : pmm) :
  pmm_inv d p -> 2 <= count ->
  let '(addr, q) := pmm_alloc_pages count p in
  (exists s, first_run p count s /\ addr = s * PAGE_SIZE /\ pmm_inv d q /\
     marks p q (fun j => (s <=? j) && (j <? s + count) || page_used p j)) \/
  ((forall s, ~ first_run p count s) /\ addr = NULL /\ q = p).
Proof.
  intros Hinv Hc.
  destruct (pmm_alloc_pages_found d count p Hinv Hc) as [(s & Hs & Ht & Hr & Hm & ->)|[Hn ->]].
  - left. exists s. destruct (mark_all_inv d (range s (s + count)) p Hinv) as [Hi Hk].
    { apply NoDup_range. }
    { intros i Hi%elem_of_range. split; [lia|]. apply Hr. lia. }
    split_and!; try done. eapply marks_ext; [done|]. intros j Hj. cbv beta. f_equal.
    apply Bool.eq_true_iff_eq. rewrite bool_decide_eq_true, elem_of_range, andb_true_iff,
      Z.leb_le, Z.ltb_lt. done.
  - right. split_and!; [|done..]. intros s (Hs & Ht & Hr & _). by apply (Hn s).
Qed.

Lemma pmm_alloc_pages_spec_witness :
  pmm_inv 1 demo /\ 2 <= 3 /\ exists s, (pmm_alloc_pages 3 demo).1 = s * PAGE_SIZE.
Proof.
  destruct demo_marks as (Hinv & _). split_and!; [done|done|].
  pose proof (pmm_alloc_pages_spec 1 3 demo Hinv ltac:(done)) as H.
  destruct (pmm_alloc_pages 3 demo) as [addr q].
  destruct H as [(s & _ & -> & _)|(_ & -> & _)]; [by exists s|by exists 0].
Defined.

(** Freeing what an allocation returned restores the allocator exactly: for a
    single frame whenever one is free, and for a run of [count] frames whenever
    there is one. *)
Theorem pmm_alloc_free_roundtrip (d count : Z) (p : pmm) :
  pmm_inv d p -> 2 <= count < 2 ^ 32 ->
  ((exists k, 0 <= k < total_pages p /\ page_used p k = false) ->
   let '(addr, q) := pmm_alloc_page p in pmm_free_page addr q = p) /\
  ((exists s, first_run p count s) ->
   let '(addr, q) := pmm_alloc_pages count p in pmm_free_pages addr count q = p).
Proof.
  intros Hinv Hc. pose proof Hinv as []. split.
  - intros (k0 & Hk0 & Hu0).
    destruct (pmm_alloc_page_found d p Hinv) as [(k & (Hk & Hu & Hn) & ->)|[Hn ->]].
    2: { rewrite Hn in Hu0; [done|lia..]. }
    unfold allocated. destruct (mark_inv d k p Hinv Hk Hu) as [Hi (Ht & Hs & Hm)].
    set (q := used_inc _) in *. rewrite free_page_eq. unfold PAGE_SIZE.
    rewrite Z.mod_mul, Z.div_mul, Z.eqb_refl, (proj2 (Z.ltb_lt k _)) by lia. simpl.
    destruct (release_page_inv d k q Hi) as [Hi' (Ht' & Hs' & Hm')]; [lia|].
    apply (inv_marks_eq d); [done..|congruence|]. intros i Hlt. rewrite Hm', Hm by done.
    destruct (Z.eqb_spec k i) as [->|]; by rewrite ?Hu.
  - intros (s0 & Hs0 & Ht0 & Hr0 & _).
    destruct (pmm_alloc_pages_found d count p Hinv ltac:(lia))
      as [(s & Hs & Ht & Hr & Hm & ->)|[Hn ->]].
    2: { by destruct (Hn s0). }
    destruct (mark_all_inv d (range s (s + count)) p Hinv) as [Hi (Ht1 & Hs1 & Hm1)].
    { apply NoDup_range. }
    { intros i Hi%elem_of_range. split; [lia|]. apply Hr. lia. }
    set (q := mark_all _ _) in *.
    rewrite free_pages_eq by (unfold is_u32, PAGE_SIZE, PMM_MAX_PAGES in *; lia).
    unfold PAGE_SIZE. rewrite Z.mod_mul, Z.div_mul, Z.eqb_refl, Z.min_l by lia.
    destruct (release_all_inv d (range s (s + count)) q Hi) as [Hi' (Ht' & Hs' & Hm')].
    { intros i Hx%elem_of_range. lia. }
    apply (inv_marks_eq d); [done..|congruence|]. intros i Hlt. rewrite Hm', Hm1 by done.
    destruct (decide (i ∈ range s (s + count))) as [Hin|Hin].
    + rewrite bool_decide_eq_true_2 by done. simpl. apply elem_of_range in Hin.
      symmetry. apply Hr. lia.
    + by rewrite bool_decide_eq_false_2 by done.
Qed.

Lemma pmm_alloc_free_roundtrip_witness :
  pmm_inv 1 demo /\ 2 <= 2 < 2 ^ 32 /\
  let '(addr, q) := pmm_alloc_page demo in pmm_free_page addr q = demo.
Proof.
  destruct demo_marks as (Hinv & Ht & Hm). split; [exact Hinv|]. split; [lia|].
  destruct (pmm_alloc_free_roundtrip 1 2 demo Hinv ltac:(lia)) as [H _]. apply H.
  exists 400. split; [rewrite Ht; lia|]. by rewrite Hm by lia.
Defined.

(** C3: every state reachable from [init_pmm] by allocating and freeing single frames
    and runs, with any arguments, satisfies the invariant with the same
    off-by-one of the counter. *)
Theorem pmm_reachable_inv (m : option Z) (base kstart kend0 : Z) (q : pmm) :
  is_u32 base -> is_u32 kstart -> is_u32 kend0 ->
  rtc pmm_step (init_pmm pmm_static m base kstart kend0) q ->
  pmm_inv 1 q.
Proof.
  intros Hb Hs He Hr.
  destruct (init_pmm_marks _ m base kstart kend0 pmm_static_ok Hb Hs He) as (Hinv & _).
  by eapply pmm_reach_inv.
Qed.

Lemma pmm_reachable_inv_witness :
  pmm_inv 1 (pmm_free_page 1638400 (pmm_alloc_page
    (init_pmm pmm_static (Some 4096) 2097152 1048576 1572864)).2).
Proof.
  assert (forall p, rtc pmm_step p (pmm_free_page 1638400 (pmm_alloc_page p).2)) as Hrun.
  { intros p. eapply rtc_l; [apply step_alloc|].
    eapply rtc_l; [by apply (step_free _ 1638400)|]. apply rtc_refl. }
  refine (pmm_reachable_inv (Some 4096) 2097152 1048576 1572864 _ _ _ _ (Hrun _));
    unfold is_u32; lia.
Defined.

(** Once every managed frame of a booted system is in use,
    [pmm_get_free_pages] reports 4294967295 free frames: the counter exceeds
    the total and the unsigned subtraction wraps. *)
Theorem pmm_exhausted_free_count (m : option Z) (base kstart kend0 : Z) (q : pmm) :
  is_u32 base -> is_u32 kstart -> is_u32 kend0 ->
  rtc pmm_step (init_pmm pmm_static m base kstart kend0) q ->
  (forall i, 0 <= i < total_pages q -> page_used q i = true) ->
  pmm_get_used_pages q = total_pages q + 1 /\ pmm_get_free_pages q = 4294967295.
Proof.
  intros Hb Hs He Hr Hall.
  destruct (init_pmm_marks _ m base kstart kend0 pmm_static_ok Hb Hs He) as (Hinv & _).
  destruct (pmm_reach_inv 1 _ q Hinv Hr).
  assert (count_used q = total_pages q) as Hc.
  { unfold count_used. rewrite zcount_all; [rewrite zlen_range; lia|].
    intros i Hi%elem_of_range. by apply Hall. }
  unfold pmm_get_used_pages, pmm_get_free_pages. rewrite inv_used0, Hc. split; [done|].
  by replace (total_pages q - (total_pages q + 1)) with (-1) by lia.
Qed.

Lemma pmm_exhausted_free_count_witness :
  pmm_get_free_pages (init_pmm pmm_static (Some 64) 1048576 1048576 1572864) = 4294967295.
Proof.
  apply (pmm_exhausted_free_count (Some 64) 1048576 1048576 1572864);
    [unfold is_u32; lia..|apply rtc_refl|].
  destruct (init_pmm_marks pmm_static (Some 64) 1048576 1048576 1572864 pmm_static_ok)
    as (_ & Ht & Hm); [done..|].
  intros i Hi. rewrite Ht in Hi. rewrite Hm by done. unfold init_reserved.
  change (managed (Some 64)) with 16 in Hi. by rewrite (proj2 (Z.ltb_lt i 256)) by lia.
Defined.

End Pmm.
