(* ===== verification/Ring.v ===== *)
(** * Ring buffers

    The byte loops of the circular buffers of the kernel (pipes in src/kernel/pipe.c,
    the send and receive buffers of a TCP socket in src/net/tcp.c): an array of [size]
    cells, a position taken modulo [size], and the window of the cells in use.
    Pipe.v and the TCP files instantiate the section. *)

From S2P Require Import Prelude.

Section ring.
Variable size : Z.

(** [n] passes of [out[i] = b[pos]; pos = (pos + 1) % size]: the bytes and the
    position after the loop. *)
Fixpoint ring_read (b : list Z) (pos : Z) (n : nat) : list Z * Z :=
  match n with
  | O => ([], pos)
  | S n => let '(bytes, pos') := ring_read b ((pos + 1) mod size) n in (b.[pos] :: bytes, pos')
  end.

(** [b[pos] = src[i]; pos = (pos + 1) % size] over the bytes of [src]. *)
Fixpoint ring_write (b : list Z) (pos : Z) (src : list Z) : list Z * Z :=
  match src with
  | [] => (b, pos)
  | x :: src => ring_write (b.[pos <- x]) ((pos + 1) mod size) src
  end.

(** The window of [n] cells from position [pos]. *)
Definition ring_window (b : list Z) (pos n : Z) : list Z :=
  (fun i => b.[(pos + i) mod size]) <$> range 0 n.

Lemma ring_step (a b : Z) : ((a mod size) + b) mod size = (a + b) mod size.
Proof. destruct (decide (size = 0)) as [->|]; [by rewrite !Z.mod_0_r|by rewrite Z.add_mod_idemp_l]. Qed.

Lemma range_shift (lo hi k : Z) : range (lo + k) (hi + k) = (fun i => i + k) <$> range lo hi.
Proof.
  unfold range. apply list_eq. intros i. rewrite list_lookup_fmap.
  replace (hi + k - (lo + k)) with (hi - lo) by lia.
  destruct (decide (Z.of_nat i < hi - lo)).
  - rewrite !lookup_seqZ_lt by lia. simpl. f_equal. lia.
  - rewrite !lookup_seqZ_ge by lia. done.
Qed.

Lemma ring_window_cons (b : list Z) (pos n : Z) :
  0 < n -> ring_window b pos n = b.[pos mod size] :: ring_window b (pos + 1) (n - 1).
Proof.
  intros Hn. unfold ring_window. rewrite range_cons by lia. rewrite fmap_cons, Z.add_0_r. f_equal.
  replace (range (0 + 1) n) with (range (0 + 1) (n - 1 + 1)) by (f_equal; lia).
  rewrite range_shift, <-list_fmap_compose. apply list_fmap_ext. intros i x Hx. simpl.
  do 2 f_equal. lia.
Qed.

Lemma ring_window_mod (b : list Z) (pos n : Z) :
  ring_window b (pos mod size) n = ring_window b pos n.
Proof. unfold ring_window. apply list_fmap_ext. intros i x Hx. by rewrite ring_step. Qed.

Lemma ring_window_app (b : list Z) (pos n m : Z) :
  0 <= n -> 0 <= m -> ring_window b pos (n + m) = ring_window b pos n ++ ring_window b (pos + n) m.
Proof.
  intros Hn Hm. unfold ring_window. rewrite (range_app 0 n) by lia. rewrite fmap_app. f_equal.
  replace (range n (n + m)) with (range (0 + n) (m + n)) by (f_equal; lia).
  rewrite range_shift, <-list_fmap_compose. apply list_fmap_ext. intros i x Hx. simpl.
  do 2 f_equal. lia.
Qed.

Lemma zlen_ring_window (b : list Z) (pos n : Z) : 0 <= n -> zlen (ring_window b pos n) = n.
Proof.
  intros. unfold ring_window, zlen. rewrite length_fmap. fold (zlen (range 0 n)).
  rewrite zlen_range; lia.
Qed.

Lemma ring_window_0 (b : list Z) (pos : Z) : ring_window b pos 0 = [].
Proof. done. Qed.

Hypothesis size_pos : 0 < size.

Lemma ring_pos_range (a : Z) : 0 <= a mod size < size.
Proof using size_pos. by apply Z.mod_pos_bound. Qed.

(** Writing a cell outside the window leaves it unchanged. *)
Lemma ring_window_frame (b : list Z) (pos n q x : Z) :
  0 <= pos -> 0 <= n -> n <= q -> q < size ->
  ring_window (b.[(pos + q) mod size <- x]) pos n = ring_window b pos n.
Proof using size_pos.
  intros Hp Hn Hq Hs. unfold ring_window. apply list_fmap_ext. intros i y Hy.
  apply lookup_seqZ in Hy as [-> Hi]. apply aget_aset_ne; [apply ring_pos_range..|].
  intros E. set (j := Z.of_nat i) in *.
  pose proof (Z.div_mod (pos + q) size ltac:(lia)) as H1.
  pose proof (Z.div_mod (pos + (0 + j)) size ltac:(lia)) as H2. rewrite E in H1.
  assert (q - j = size * ((pos + q) / size - (pos + (0 + j)) / size)) as Hd
    by (rewrite Z.mul_sub_distr_l; lia).
  assert (0 < q - j < size) as Hq' by lia. 
  revert Hd Hq'. generalize ((pos + q) / size - (pos + (0 + j)) / size). intros d Hd Hq'.
  destruct (Z.le_gt_cases d 0); nia.
Qed.

Lemma ring_read_spec (b : list Z) (n : nat) (pos : Z) :
  0 <= pos < size ->
  ring_read b pos n = (ring_window b pos (Z.of_nat n), (pos + Z.of_nat n) mod size).
Proof using size_pos.
  revert pos. induction n as [|n IH]; intros pos Hp.
  - simpl. by rewrite Z.add_0_r, Z.mod_small.
  - cbn [ring_read]. rewrite IH by apply ring_pos_range.
    rewrite (ring_window_cons b pos), ring_window_mod, ring_step, (Z.mod_small pos) by lia.
    f_equal; [do 2 f_equal; lia|f_equal; lia].
Qed.

(** Writing [src] after a window of [n] cells extends it. *)
Lemma ring_write_spec (src b : list Z) (pos n : Z) :
  zlen b = size -> 0 <= pos -> 0 <= n -> n + zlen src <= size ->
  let '(b', q) := ring_write b ((pos + n) mod size) src in
  zlen b' = size /\ q = (pos + n + zlen src) mod size /\
  ring_window b' pos (n + zlen src) = ring_window b pos n ++ src.
Proof using size_pos.
  revert b n. induction src as [|x src IH]; intros b n Hl Hp Hn Hs.
  - simpl. rewrite zlen_nil, !Z.add_0_r, app_nil_r. done.
  - rewrite zlen_cons in *. cbn [ring_write]. pose proof (zlen_nonneg src).
    rewrite ring_step. replace (pos + n + 1) with (pos + (n + 1)) by lia.
    specialize (IH (b.[(pos + n) mod size <- x]) (n + 1)).
    destruct (ring_write _ _ src) as [b' q]. rewrite zlen_aset in IH.
    destruct (IH Hl Hp ltac:(lia) ltac:(lia)) as (Hl' & -> & Hw). split_and!; [done| |].
    + f_equal. lia.
    + replace (n + (1 + zlen src)) with (n + 1 + zlen src) by lia. rewrite Hw.
      rewrite ring_window_app, ring_window_frame by lia.
      rewrite (ring_window_cons _ (pos + n)) by lia. rewrite aget_aset_eq.
      * change (ring_window _ _ (1 - 1)) with (@nil Z). by rewrite <-app_assoc.
      * rewrite Hl. apply ring_pos_range.
Qed.

(** A window that does not wrap is a slice of the array. *)
Lemma ring_window_slice (b : list Z) (pos n : Z) :
  zlen b = size -> 0 <= pos -> 0 <= n -> pos + n <= size ->
  ring_window b pos n = take (Z.to_nat n) (drop (Z.to_nat pos) b).
Proof using size_pos.
  intros Hb Hp Hn Hs. unfold zlen in Hb. apply list_eq. intros i. unfold ring_window.
  rewrite list_lookup_fmap. unfold range. destruct (decide (Z.of_nat i < n)).
  - rewrite lookup_seqZ_lt by lia. cbn [fmap option_fmap option_map].
    rewrite lookup_take_lt, lookup_drop by lia. unfold aget.
    rewrite Z.mod_small by lia. symmetry. rewrite list_lookup_lookup_total_lt by lia.
    do 2 f_equal. lia.
  - rewrite lookup_seqZ_ge by lia. rewrite lookup_take_ge by lia. done.
Qed.

(** A window in two slices: up to the end of the array and from its start. *)
Lemma ring_window_split (b : list Z) (pos n : Z) :
  zlen b = size -> 0 <= pos < size -> 0 <= n <= size ->
  let first := Z.min n (size - pos) in
  ring_window b pos n =
    take (Z.to_nat first) (drop (Z.to_nat pos) b) ++ take (Z.to_nat (n - first)) b.
Proof using size_pos.
  intros Hb Hp Hn first. replace n with (first + (n - first)) at 1 by lia.
  rewrite ring_window_app by lia. rewrite ring_window_slice by lia. f_equal.
  destruct (Z.le_gt_cases n (size - pos)) as [H|H].
  - replace (n - first) with 0 by lia. done.
  - replace (pos + first) with size by lia. rewrite <-ring_window_mod, Z.mod_same by lia.
    by rewrite ring_window_slice by lia.
Qed.

End ring.
