(* ===== verification/Sync.v ===== *)
(** * Locks and semaphores (src/kernel/sync.c)

    Mutexes, counting semaphores and spinlocks as the kernel implements them:
    a counter or flag and a FIFO of waiting processes.  The calls into the
    scheduler ([sched_block_current], [sched_unblock]) are the events an
    operation emits; [Module MutexSystem] and [Module SemSystem] give the
    interleavings of processes that call the operations and are blocked and
    resumed by those events. *)

From S2P Require Import Prelude.

Module Sync.

(** A process is named by the address of its control block. *)
Inductive sched_event :=
  | EvBlockCurrent (reason : Z)
  | EvUnblock (process : Z).

Definition BLOCK_REASON_WAIT : Z := 3.
Definition BLOCK_REASON_MUTEX : Z := 4.

(** [wait_queue], a linked list that is appended to at its end and popped at
    its head, is a list of processes. *)
Record mutex := mk_mutex { locked : Z; owner : Z; m_queue : list Z }.
Record sem := mk_sem { count : Z; s_queue : list Z }.
Record spinlock := mk_spinlock { sp_locked : Z }.

Definition mutex_init : mutex := mk_mutex 0 NULL [].

Definition mutex_lock (current : Z) (m : mutex) : mutex * list sched_event :=
  if locked m =? 0 then (mk_mutex 1 current (m_queue m), [])
  else (mk_mutex (locked m) (owner m) (m_queue m ++ [current]),
        [EvBlockCurrent BLOCK_REASON_MUTEX]).

Definition mutex_unlock (m : mutex) : mutex * list sched_event :=
  match m_queue m with
  | p :: q => (mk_mutex (locked m) p q, [EvUnblock p])
  | [] => (mk_mutex 0 NULL [], [])
  end.

Definition mutex_trylock (current : Z) (m : mutex) : Z * mutex :=
  if locked m =? 0 then (1, mk_mutex 1 current (m_queue m)) else (0, m).

Definition sem_init (value : Z) : sem := mk_sem value [].

Definition sem_wait (current : Z) (s : sem) : sem * list sched_event :=
  let c := s32 (count s - 1) in
  if c <? 0 then (mk_sem c (s_queue s ++ [current]), [EvBlockCurrent BLOCK_REASON_WAIT])
  else (mk_sem c (s_queue s), []).

Definition sem_post (s : sem) : sem * list sched_event :=
  let c := s32 (count s + 1) in
  if c <=? 0 then
    match s_queue s with
    | p :: q => (mk_sem c q, [EvUnblock p])
    | [] => (mk_sem c [], [])
    end
  else (mk_sem c (s_queue s), []).

Definition sem_getvalue (s : sem) : Z := count s.

Definition spinlock_init : spinlock := mk_spinlock 0.

(** [xchg(&lock->locked, 1)], the test of the loop of [spinlock_lock]: the old
    value and the lock after the exchange. *)
Definition xchg_one (l : spinlock) : Z * spinlock := (sp_locked l, mk_spinlock 1).

(** One iteration of [spinlock_lock]: [true] when the loop is left. *)
Definition spinlock_try (l : spinlock) : bool * spinlock :=
  let '(old, l') := xchg_one l in (negb (old =? 1), l').

Definition spinlock_unlock (l : spinlock) : spinlock := mk_spinlock 0.

End Sync.

(** ** Processes sharing a mutex *)
Module MutexSystem.
Import Sync.

(** What a process is doing with the mutex: nothing, inside the section the
    mutex protects, or blocked in [mutex_lock]. *)
Inductive status := Idle | Holding | Waiting.

#[global] Instance status_eq_dec : EqDecision status.
Proof. solve_decision. Defined.

Record sys := mk_sys { mtx : mutex; procs : gmap Z status }.

Definition status_of (s : sys) (p : Z) : status := default Idle (procs s !! p).

(** The effect of the scheduler events on the processes: a blocked process
    waits in [mutex_lock]; an unblocked one returns from it. *)
Definition apply_event (current : Z) (ps : gmap Z status) (e : sched_event) : gmap Z status :=
  match e with
  | EvBlockCurrent _ => <[current := Waiting]> ps
  | EvUnblock p => <[p := Holding]> ps
  end.

Definition do_lock (p : Z) (s : sys) : sys :=
  let '(m, evs) := mutex_lock p (mtx s) in
  mk_sys m (fold_left (apply_event p) evs (<[p := Holding]> (procs s))).

Definition do_trylock (p : Z) (s : sys) : sys :=
  let '(r, m) := mutex_trylock p (mtx s) in
  mk_sys m (if r =? 1 then <[p := Holding]> (procs s) else procs s).

Definition do_unlock (p : Z) (s : sys) : sys :=
  let '(m, evs) := mutex_unlock (mtx s) in
  mk_sys m (fold_left (apply_event p) evs (<[p := Idle]> (procs s))).

Inductive step : sys -> sys -> Prop :=
  | step_lock s p : p <> NULL -> status_of s p = Idle -> step s (do_lock p s)
  | step_trylock s p : p <> NULL -> status_of s p = Idle -> step s (do_trylock p s)
  | step_unlock s p : status_of s p = Holding -> step s (do_unlock p s).

Definition initial : sys := mk_sys mutex_init ∅.

Record inv (s : sys) : Prop := {
  inv_locked : locked (mtx s) = 0 /\ owner (mtx s) = NULL /\ m_queue (mtx s) = []
               \/ locked (mtx s) = 1 /\ owner (mtx s) <> NULL;
  inv_holding : forall p, status_of s p = Holding <-> locked (mtx s) = 1 /\ owner (mtx s) = p;
  inv_waiting : forall p, status_of s p = Waiting <-> p ∈ m_queue (mtx s);
  inv_nodup : NoDup (m_queue (mtx s));
  inv_null : NULL ∉ m_queue (mtx s);
}.

(** The holder releases the mutex [n] times in a row: each release hands it to
    the process that waits longest. *)
Fixpoint unlock_n (n : nat) (s : sys) : sys :=
  match n with
  | O => s
  | S n => unlock_n n (do_unlock (owner (mtx s)) s)
  end.

Lemma status_insert (m : mutex) (ps : gmap Z status) (p q : Z) (st : status) :
  status_of (mk_sys m (<[p := st]> ps)) q
  = if decide (p = q) then st else default Idle (ps !! q).
Proof. unfold status_of. simpl. rewrite lookup_insert. by case_decide. Qed.

Lemma initial_inv : inv initial.
Proof.
  constructor; simpl.
  - by left.
  - intros p. unfold status_of. simpl. rewrite lookup_empty. simpl. split; [done|].
    by intros [? _].
  - intros p. unfold status_of. simpl. rewrite lookup_empty. simpl. set_solver.
  - constructor.
  - set_solver.
Qed.

(** Taking a free mutex. *)
Lemma acquire_inv (s : sys) (p : Z) :
  inv s -> p <> NULL -> locked (mtx s) = 0 ->
  inv (mk_sys (mk_mutex 1 p (m_queue (mtx s))) (<[p := Holding]> (procs s))).
Proof.
  intros [] Hp Hl. destruct inv_locked0 as [(_ & _ & Hq)|[? _]]; [|congruence].
  constructor; simpl; rewrite ?Hq in *.
  - by right.
  - intros q. rewrite status_insert. case_decide; [naive_solver|].
    change (default Idle (procs s !! q)) with (status_of s q). rewrite inv_holding0.
    rewrite Hl. naive_solver.
  - intros q. rewrite status_insert. case_decide; [set_solver|].
    change (default Idle (procs s !! q)) with (status_of s q). by rewrite inv_waiting0.
  - done.
  - done.
Qed.

Lemma enqueue_inv (s : sys) (p : Z) :
  inv s -> p <> NULL -> status_of s p = Idle -> locked (mtx s) <> 0 ->
  inv (mk_sys (mk_mutex (locked (mtx s)) (owner (mtx s)) (m_queue (mtx s) ++ [p]))
         (<[p := Waiting]> (<[p := Holding]> (procs s)))).
Proof.
  intros [] Hp Hidle Hl. destruct inv_locked0 as [(? & _)|[Hl1 Ho]]; [congruence|].
  assert (p ∉ m_queue (mtx s)) as Hnq. { rewrite <-inv_waiting0, Hidle. done. }
  assert (owner (mtx s) <> p) as Hno.
  { intros Heq. assert (status_of s p = Holding) by (by rewrite inv_holding0). congruence. }
  constructor; simpl; rewrite ?insert_insert_eq.
  - by right.
  - intros q. rewrite status_insert. case_decide; [naive_solver|]. apply inv_holding0.
  - intros q. rewrite status_insert, elem_of_app, list_elem_of_singleton. case_decide.
    + naive_solver.
    + change (default Idle (procs s !! q)) with (status_of s q). rewrite inv_waiting0.
      naive_solver.
  - apply NoDup_app. split_and!; [done|set_solver|apply NoDup_singleton].
  - set_solver.
Qed.

Lemma do_unlock_inv (s : sys) (p : Z) :
  inv s -> status_of s p = Holding -> inv (do_unlock p s).
Proof.
  intros [] Hh. destruct (proj1 (inv_holding0 p) Hh) as [Hl Ho].
  unfold do_unlock, mutex_unlock. destruct (m_queue (mtx s)) as [|q qs] eqn:Hq; simpl.
  - constructor; simpl.
    + by left.
    + intros r. rewrite status_insert. case_decide; [naive_solver|].
      change (default Idle (procs s !! r)) with (status_of s r). rewrite inv_holding0, Hl.
      naive_solver.
    + intros r. rewrite status_insert. case_decide; [set_solver|].
      change (default Idle (procs s !! r)) with (status_of s r). by rewrite inv_waiting0.
    + constructor.
    + set_solver.
  - apply NoDup_cons in inv_nodup0 as [Hqn Hnd].
    assert (status_of s q = Waiting) as Hw by (rewrite inv_waiting0; set_solver).
    assert (p <> q) as Hpq by congruence.
    constructor; simpl.
    + right. split; [done|]. set_solver.
    + intros r. rewrite status_insert. case_decide; [naive_solver|].
      rewrite lookup_insert. case_decide; simpl; [naive_solver|].
      change (default Idle (procs s !! r)) with (status_of s r). rewrite inv_holding0.
      naive_solver.
    + intros r. rewrite status_insert. case_decide; [set_solver|].
      rewrite lookup_insert. case_decide; simpl.
      * split; [done|]. intros Hin.
        assert (status_of s r = Waiting) by (rewrite inv_waiting0; set_solver). congruence.
      * change (default Idle (procs s !! r)) with (status_of s r). rewrite inv_waiting0.
        set_solver.
    + done.
    + set_solver.
Qed.

Lemma mutex_step_inv (s s' : sys) : inv s -> step s s' -> inv s'.
Proof.
  intros Hinv Hs. destruct Hs as [s p Hp Hi|s p Hp Hi|s p Hh].
  - unfold do_lock, mutex_lock. case_if; simpl; [by apply acquire_inv|by apply enqueue_inv].
  - unfold do_trylock, mutex_trylock. case_if; simpl; [by apply acquire_inv|].
    by destruct s.
  - by apply do_unlock_inv.
Qed.

Lemma mutex_reach_inv (s : sys) : rtc step initial s -> inv s.
Proof.
  intros Hr. remember initial as s0 eqn:E. assert (inv s0) as H0 by (subst; apply initial_inv).
  clear E. induction Hr; [done|]. eauto using mutex_step_inv.
Qed.

Lemma unlock_n_owner (n : nat) (s : sys) (p : Z) :
  inv s -> m_queue (mtx s) !! n = Some p ->
  owner (mtx (unlock_n (S n) s)) = p /\ status_of (unlock_n (S n) s) p = Holding.
Proof.
  revert s. induction n as [|n IH]; intros s Hinv Hq; pose proof Hinv as [].
  - destruct (m_queue (mtx s)) as [|q qs] eqn:E; [done|]. simplify_eq/=.
    unfold do_unlock, mutex_unlock. rewrite E. simpl. split; [done|].
    rewrite status_insert. by case_decide.
  - destruct inv_locked0 as [(_ & _ & E)|[Hl Ho]]; [by rewrite E in Hq|].
    assert (status_of s (owner (mtx s)) = Holding) as Hh by (by rewrite inv_holding0).
    pose proof (do_unlock_inv s _ Hinv Hh) as Hinv'.
    change (unlock_n (S (S n)) s) with (unlock_n (S n) (do_unlock (owner (mtx s)) s)).
    apply IH; [done|]. unfold do_unlock, mutex_unlock.
    destruct (m_queue (mtx s)) as [|q qs]; [done|]. simpl. done.
Qed.

End MutexSystem.

(** ** Processes sharing a semaphore *)
Module SemSystem.
Import Sync.

Inductive sem_op := OpWait (p : Z) | OpPost.

Definition exec (o : sem_op) (s : sem) : sem * list sched_event :=
  match o with
  | OpWait p => sem_wait p s
  | OpPost => sem_post s
  end.

Fixpoint run (ops : list sem_op) (s : sem) : sem :=
  match ops with
  | [] => s
  | o :: ops => run ops (exec o s).1
  end.

(** The callers of [sem_wait], in order, and the number of posts. *)
Definition waiters (ops : list sem_op) : list Z :=
  omap (fun o => match o with OpWait p => Some p | OpPost => None end) ops.
Definition posts (ops : list sem_op) : Z :=
  zcount (fun o => match o with OpWait _ => false | OpPost => true end) ops.

(** The state after the operations [ops] on a semaphore initialised to [v]:
    the first [min (waits, v + posts)] waits have passed. *)
Record sem_spec (v : Z) (ops : list sem_op) (s : sem) : Prop := {
  spec_count : count s = v + posts ops - zlen (waiters ops);
  spec_queue : s_queue s = drop (Z.to_nat (v + posts ops)) (waiters ops);
}.

Lemma posts_snoc ops o : posts (ops ++ [o]) = posts ops + match o with OpWait _ => 0 | _ => 1 end.
Proof.
  unfold posts, zcount. rewrite List.filter_app, zlen_app. by destruct o.
Qed.

Lemma waiters_snoc ops o :
  waiters (ops ++ [o]) = waiters ops ++ match o with OpWait p => [p] | OpPost => [] end.
Proof. unfold waiters. rewrite omap_app. by destruct o. Qed.

Lemma run_snoc ops o s : run (ops ++ [o]) s = (exec o (run ops s)).1.
Proof. revert s. induction ops as [|o' ops IH]; intros s; simpl; [done|]. apply IH. Qed.

Lemma ops_split ops : zlen ops = posts ops + zlen (waiters ops) /\ 0 <= posts ops.
Proof.
  induction ops as [|o ops IH] using rev_ind; [done|].
  rewrite posts_snoc, waiters_snoc, !zlen_app. destruct o; unfold zlen in *; simpl in *; lia.
Qed.

Lemma exec_spec v ops o s :
  0 <= v -> v + zlen ops < 2 ^ 31 - 1 -> sem_spec v ops s ->
  sem_spec v (ops ++ [o]) (exec o s).1.
Proof.
  intros Hv Hb [Hc Hq]. pose proof (ops_split ops) as [Hs Hp].
  pose proof (zlen_nonneg (waiters ops)) as Hw. unfold zlen in *.
  destruct o as [p|]; simpl; unfold sem_wait, sem_post.
  - rewrite s32_small by lia. destruct (Z.ltb_spec (count s - 1) 0); simpl;
      (constructor; simpl; rewrite posts_snoc, waiters_snoc, Z.add_0_r; unfold zlen;
       [rewrite length_app; simpl; lia|]).
    + rewrite Hq, drop_app_le; [done|]. lia.
    + rewrite Hq, !drop_ge; rewrite ?length_app; simpl; [done|lia..].
  - rewrite s32_small by lia.
    destruct (Z.leb_spec (count s + 1) 0).
    + destruct (s_queue s) as [|p q] eqn:E.
      { apply (f_equal length) in Hq. rewrite length_drop in Hq. simpl in Hq. lia. }
      simpl. constructor; simpl; rewrite posts_snoc, waiters_snoc, app_nil_r; [unfold zlen; lia|].
      replace (Z.to_nat (v + (posts ops + 1))) with (Z.to_nat (v + posts ops) + 1)%nat by lia.
      by rewrite <-drop_drop, <-Hq.
    + constructor; simpl; rewrite posts_snoc, waiters_snoc, app_nil_r; [unfold zlen; lia|].
      rewrite Hq, !drop_ge; [done|lia..].
Qed.

Lemma run_spec v ops :
  0 <= v -> v + zlen ops < 2 ^ 31 - 1 -> sem_spec v ops (run ops (sem_init v)).
Proof.
  intros Hv. induction ops as [|o ops IH] using rev_ind; intros Hb.
  - constructor; simpl; [change (v = v + 0 - 0); lia|by rewrite drop_nil].
  - rewrite run_snoc. rewrite zlen_app in Hb. unfold zlen in Hb at 2. simpl in Hb.
    apply exec_spec; [done|lia|]. apply IH. lia.
Qed.

End SemSystem.

(** ** Theorems *)
Module SyncTheorems.
Import Sync.





(** A semaphore initialised to [v] lets exactly the first [v + posts] waits
    through: after any sequence of waits and posts that keeps the counter in
    range, the counter is [v + posts - waits] and the wait queue holds the
    callers of the remaining waits, in the order of their calls. *)
Theorem sem_counts (v : Z) (ops : list SemSystem.sem_op) :
  0 <= v -> v + zlen ops < 2 ^ 31 - 1 ->
  let s := SemSystem.run ops (sem_init v) in
  sem_getvalue s = v + SemSystem.posts ops - zlen (SemSystem.waiters ops) /\
  s_queue s = drop (Z.to_nat (v + SemSystem.posts ops)) (SemSystem.waiters ops).
Proof. intros Hv Hb s. destruct (SemSystem.run_spec v ops Hv Hb). by split. Qed.

Lemma sem_counts_witness :
  s_queue (SemSystem.run [SemSystem.OpWait 7; SemSystem.OpWait 8; SemSystem.OpWait 9;
                          SemSystem.OpPost] (sem_init 1)) = [9].
Proof.
  destruct (sem_counts 1 [SemSystem.OpWait 7; SemSystem.OpWait 8; SemSystem.OpWait 9;
                          SemSystem.OpPost]) as [_ H]; [lia|reflexivity|].
  rewrite H. reflexivity.
Defined.

End SyncTheorems.
