(* ===== verification/Pipe.v ===== *)
(** * Pipes (src/kernel/pipe.c)

    A pipe is a ring buffer of [PIPE_BUFFER_SIZE] bytes with a read and a write
    position, a byte count, two semaphores and reader/writer counts.  The code
    between [mutex_lock] and [mutex_unlock] is one atomic step; an iteration of
    the blocking loop that has to wait is the outcome [Wait], after which the
    caller, once woken, runs the operation again. *)

From S2P Require Import Prelude Ring Sync.

Module Pipe.
Import Sync.

Definition PIPE_BUFFER_SIZE : Z := 4096.

Record pipe := mk_pipe {
  buffer : list Z;
  read_pos : Z;
  write_pos : Z;
  p_count : Z;
  read_wait : sem;
  write_wait : sem;
  readers : Z;
  writers : Z;
}.

Definition pipe_is_empty (p : pipe) : bool := p_count p =? 0.
Definition pipe_is_full (p : pipe) : bool := PIPE_BUFFER_SIZE <=? p_count p.

(** [pipe_create], given the two results of [kmalloc]: the pipe and the freshly
    allocated, uninitialised buffer. *)
Definition pipe_create (pipe_ptr : Z) (buf : option (list Z)) : Z * option pipe :=
  if pipe_ptr =? NULL then (-1, None)
  else match buf with
       | None => (-1, None)
       | Some b => (0, Some (mk_pipe b 0 0 0 (sem_init 0) (sem_init 0) 1 1))
       end.

(** The outcome of one pass of [pipe_read] or [pipe_write]: it returns, with
    the bytes read, or it sleeps on a semaphore. *)
Inductive outcome :=
  | Done (ret : Z) (bytes : list Z)
  | Wait.

(** The copy loop of [pipe_read]: [n] iterations from position [pos]. *)
Definition read_loop : list Z -> Z -> nat -> list Z * Z := ring_read PIPE_BUFFER_SIZE.

Definition pipe_read (current : Z) (n : Z) (p : pipe) : outcome * pipe :=
  if p_count p =? 0 then
    if writers p =? 0 then (Done 0 [], p)
    else (Wait, mk_pipe (buffer p) (read_pos p) (write_pos p) (p_count p)
                  (sem_wait current (read_wait p)).1 (write_wait p) (readers p) (writers p))
  else
    let to_read := if n <? p_count p then n else p_count p in
    let '(bytes, pos) := read_loop (buffer p) (read_pos p) (Z.to_nat to_read) in
    (Done (s32 to_read) bytes,
     mk_pipe (buffer p) pos (write_pos p) (u32 (p_count p - to_read))
       (read_wait p) (sem_post (write_wait p)).1 (readers p) (writers p)).

(** The copy loop of [pipe_write] over the bytes of [src]. *)
Definition write_loop : list Z -> Z -> list Z -> list Z * Z := ring_write PIPE_BUFFER_SIZE.

(** [pipe_write pipe src (length src)]. *)
Definition pipe_write (current : Z) (src : list Z) (p : pipe) : outcome * pipe :=
  if PIPE_BUFFER_SIZE <=? p_count p then
    (Wait, mk_pipe (buffer p) (read_pos p) (write_pos p) (p_count p)
             (read_wait p) (sem_wait current (write_wait p)).1 (readers p) (writers p))
  else
    let available := u32 (PIPE_BUFFER_SIZE - p_count p) in
    let to_write := if zlen src <? available then zlen src else available in
    let '(b, pos) := write_loop (buffer p) (write_pos p) (take (Z.to_nat to_write) src) in
    (Done (s32 to_write) [],
     mk_pipe b (read_pos p) pos (u32 (p_count p + to_write))
       (sem_post (read_wait p)).1 (write_wait p) (readers p) (writers p)).

Definition pipe_close_read (p : pipe) : pipe :=
  let r := s32 (readers p - 1) in
  mk_pipe (buffer p) (read_pos p) (write_pos p) (p_count p) (read_wait p)
    (if r =? 0 then (sem_post (write_wait p)).1 else write_wait p) r (writers p).

Definition pipe_close_write (p : pipe) : pipe :=
  let w := s32 (writers p - 1) in
  mk_pipe (buffer p) (read_pos p) (write_pos p) (p_count p)
    (if w =? 0 then (sem_post (read_wait p)).1 else read_wait p) (write_wait p) (readers p) w.

(** ** Specification *)

(** The bytes in the pipe, oldest first. *)
Definition contents (p : pipe) : list Z :=
  (fun i => (buffer p).[(read_pos p + i) mod PIPE_BUFFER_SIZE]) <$> range 0 (p_count p).

Record pipe_inv (p : pipe) : Prop := {
  pi_len : zlen (buffer p) = PIPE_BUFFER_SIZE;
  pi_read : 0 <= read_pos p < PIPE_BUFFER_SIZE;
  pi_count : 0 <= p_count p <= PIPE_BUFFER_SIZE;
  pi_write : write_pos p = (read_pos p + p_count p) mod PIPE_BUFFER_SIZE;
}.

(** Operations on a shared pipe and the run of a sequence of them: the bytes
    that all reads returned and the bytes that all writes accepted. *)
Inductive pipe_op :=
  | OpRead (current n : Z)
  | OpWrite (current : Z) (src : list Z)
  | OpCloseRead
  | OpCloseWrite.

Definition pipe_exec (o : pipe_op) (p : pipe) : outcome * pipe :=
  match o with
  | OpRead c n => pipe_read c n p
  | OpWrite c src => pipe_write c src p
  | OpCloseRead => (Done 0 [], pipe_close_read p)
  | OpCloseWrite => (Done 0 [], pipe_close_write p)
  end.

Definition accepted (o : pipe_op) (r : outcome) : list Z :=
  match o, r with
  | OpWrite _ src, Done n _ => take (Z.to_nat n) src
  | _, _ => []
  end.

Definition returned (r : outcome) : list Z :=
  match r with Done _ bytes => bytes | Wait => [] end.

Fixpoint pipe_run (ops : list pipe_op) (p : pipe) : list Z * list Z * pipe :=
  match ops with
  | [] => ([], [], p)
  | o :: ops =>
      let '(r, p') := pipe_exec o p in
      let '(out, inp, q) := pipe_run ops p' in
      (returned r ++ out, accepted o r ++ inp, q)
  end.

Definition op_ok (o : pipe_op) : Prop :=
  match o with
  | OpRead _ n => is_u32 n
  | OpWrite _ src => is_u32 (zlen src)
  | _ => True
  end.

(** ** Lemmas *)

Notation window := (ring_window PIPE_BUFFER_SIZE).

Lemma mod_step (a b : Z) : ((a mod PIPE_BUFFER_SIZE) + b) mod PIPE_BUFFER_SIZE
                           = (a + b) mod PIPE_BUFFER_SIZE.
Proof. apply ring_step. Qed.

Lemma pos_range (a : Z) : 0 <= a mod PIPE_BUFFER_SIZE < PIPE_BUFFER_SIZE.
Proof. by apply ring_pos_range. Qed.

Lemma contents_window (p : pipe) : contents p = window (buffer p) (read_pos p) (p_count p).
Proof. done. Qed.

(** Splitting the contents at a read of [k] bytes. *)
Lemma contents_split (p : pipe) (k : Z) :
  pipe_inv p -> 0 <= k <= p_count p ->
  contents p = window (buffer p) (read_pos p) k ++
               window (buffer p) ((read_pos p + k) mod PIPE_BUFFER_SIZE) (p_count p - k).
Proof.
  intros [] Hk. rewrite contents_window, ring_window_mod, <-ring_window_app by lia. f_equal. lia.
Qed.

Lemma pipe_read_spec (current n : Z) (p : pipe) :
  pipe_inv p -> is_u32 n ->
  let '(r, q) := pipe_read current n p in
  pipe_inv q /\ contents p = returned r ++ contents q /\
  (p_count p <> 0 -> r = Done (Z.min n (p_count p)) (take (Z.to_nat n) (contents p))) /\
  (p_count p = 0 -> r = if writers p =? 0 then Done 0 [] else Wait).
Proof.
  intros Hinv [Hn Hn']. pose proof Hinv as []. unfold pipe_read.
  destruct (Z.eqb_spec (p_count p) 0) as [E|E].
  { case_if; simpl; (split_and!; [by constructor|done|done|done]). }
  replace (if n <? p_count p then n else p_count p) with (Z.min n (p_count p)) by (case_if; lia).
  set (k := Z.min n (p_count p)). assert (0 <= k <= p_count p) as Hk by lia.
  unfold read_loop. rewrite ring_read_spec, Z2Nat.id by (done || lia). rewrite s32_small, u32_small
    by (unfold is_u32, PIPE_BUFFER_SIZE in *; lia).
  assert (contents p = window (buffer p) (read_pos p) k ++
    window (buffer p) ((read_pos p + k) mod PIPE_BUFFER_SIZE) (p_count p - k)) as Hsplit
    by (by apply contents_split).
  split_and!.
  - constructor; simpl; [done|apply pos_range|lia|]. rewrite mod_step, pi_write0. f_equal. lia.
  - done.
  - intros _. f_equal. rewrite Hsplit. subst k. destruct (Z.le_ge_cases n (p_count p)).
    + rewrite Z.min_l by lia. rewrite take_app_length'; [done|].
      pose proof (zlen_ring_window PIPE_BUFFER_SIZE (buffer p) (read_pos p) n). unfold zlen in *. lia.
    + rewrite Z.min_r, Z.sub_diag by lia. change (window _ _ 0) with (@nil Z).
      rewrite app_nil_r, take_ge; [done|].
      pose proof (zlen_ring_window PIPE_BUFFER_SIZE (buffer p) (read_pos p) (p_count p)). unfold zlen in *. lia.
  - done.
Qed.

Lemma pipe_write_spec (current : Z) (src : list Z) (p : pipe) :
  pipe_inv p -> is_u32 (zlen src) ->
  let '(r, q) := pipe_write current src p in
  pipe_inv q /\ contents q = contents p ++ accepted (OpWrite current src) r /\
  r = if PIPE_BUFFER_SIZE <=? p_count p then Wait
      else Done (Z.min (zlen src) (PIPE_BUFFER_SIZE - p_count p)) [].
Proof.
  intros Hinv [Hn Hn']. pose proof Hinv as []. unfold pipe_write.
  destruct (Z.leb_spec PIPE_BUFFER_SIZE (p_count p)) as [E|E].
  { split_and!; [by constructor|by rewrite app_nil_r|done]. }
  rewrite (u32_small (PIPE_BUFFER_SIZE - _)) by (unfold is_u32, PIPE_BUFFER_SIZE in *; lia).
  replace (if zlen src <? _ then _ else _) with (Z.min (zlen src) (PIPE_BUFFER_SIZE - p_count p))
    by (case_if; lia).
  set (k := Z.min (zlen src) (PIPE_BUFFER_SIZE - p_count p)).
  assert (zlen (take (Z.to_nat k) src) = k) as Hk.
  { unfold zlen in *. rewrite length_take. lia. }
  rewrite pi_write0.
  pose proof (ring_write_spec PIPE_BUFFER_SIZE ltac:(done) (take (Z.to_nat k) src) (buffer p) (read_pos p) (p_count p)) as Hw.
  unfold write_loop. destruct (ring_write _ _ _ _) as [b pos]. rewrite Hk in Hw.
  destruct Hw as (Hl & -> & Hw); [done|lia..|].
  rewrite s32_small, u32_small by (unfold is_u32, PIPE_BUFFER_SIZE in *; lia).
  split_and!; [|by rewrite !contents_window|done].
  constructor; simpl; [done..|lia|]. f_equal. lia.
Qed.

Lemma pipe_exec_spec (o : pipe_op) (p : pipe) :
  pipe_inv p -> op_ok o ->
  let '(r, q) := pipe_exec o p in
  pipe_inv q /\ contents p ++ accepted o r = returned r ++ contents q.
Proof.
  intros Hinv Hok. destruct o as [c n|c src| |]; simpl in *.
  - pose proof (pipe_read_spec c n p Hinv Hok) as H. destruct (pipe_read c n p) as [r q].
    destruct H as (Hq & Hc & _). split; [done|]. destruct r; by rewrite app_nil_r.
  - pose proof (pipe_write_spec c src p Hinv Hok) as H. destruct (pipe_write c src p) as [r q].
    destruct H as (Hq & Hc & Hr). split; [done|]. rewrite Hc.
    destruct (PIPE_BUFFER_SIZE <=? p_count p); by subst r.
  - split; [by destruct Hinv|]. by rewrite app_nil_r.
  - split; [by destruct Hinv|]. by rewrite app_nil_r.
Qed.

Lemma pipe_run_spec (ops : list pipe_op) (p : pipe) :
  pipe_inv p -> Forall op_ok ops ->
  let '(out, inp, q) := pipe_run ops p in
  pipe_inv q /\ contents p ++ inp = out ++ contents q.
Proof.
  revert p. induction ops as [|o ops IH]; intros p Hinv Hok; simpl.
  - split; [done|]. by rewrite app_nil_r.
  - apply Forall_cons in Hok as [Ho Hok]. pose proof (pipe_exec_spec o p Hinv Ho) as H.
    destruct (pipe_exec o p) as [r p']. destruct H as [Hp' Hc].
    specialize (IH p' Hp' Hok). destruct (pipe_run ops p') as [[out inp] q].
    destruct IH as [Hq Hc']. split; [done|].
    by rewrite app_assoc, Hc, <-app_assoc, Hc', app_assoc.
Qed.

Lemma pipe_create_inv (ptr : Z) (b : list Z) (p : pipe) :
  zlen b = PIPE_BUFFER_SIZE -> pipe_create ptr (Some b) = (0, Some p) ->
  pipe_inv p /\ contents p = [].
Proof.
  intros Hl. unfold pipe_create. case_if; [done|]. intros [= <-]. split; [|done].
  constructor; simpl; done.
Qed.

Definition demo_pipe : pipe :=
  mk_pipe (replicate 4096 0) 4094 4094 0 (sem_init 0) (sem_init 0) 1 1.

Lemma demo_pipe_inv : pipe_inv demo_pipe.
Proof. by constructor. Qed.

(** ** Theorems *)

(** C28: a pipe is a FIFO: whatever sequence of reads, writes and closes is run on a
    pipe fresh from [pipe_create], including the passes that have to wait, the
    bytes the reads returned followed by the bytes still buffered are exactly
    the bytes the writes accepted, in order, and the ring-buffer invariant
    holds. *)
Theorem pipe_fifo (ptr : Z) (b : list Z) (p : pipe) (ops : list pipe_op) :
  zlen b = PIPE_BUFFER_SIZE -> pipe_create ptr (Some b) = (0, Some p) -> Forall op_ok ops ->
  let '(out, inp, q) := pipe_run ops p in
  pipe_inv q /\ out ++ contents q = inp.
Proof.
  intros Hl Hc Hok. destruct (pipe_create_inv ptr b p Hl Hc) as [Hinv He].
  pose proof (pipe_run_spec ops p Hinv Hok) as H.
  destruct (pipe_run ops p) as [[out inp] q]. destruct H as [Hq H]. split; [done|].
  by rewrite <-H, He.
Qed.

Lemma pipe_fifo_witness :
  let '(out, inp, q) := pipe_run [OpWrite 1 [10; 20; 30]; OpRead 2 2; OpCloseWrite; OpRead 2 9]
     (mk_pipe (replicate 4096 0) 0 0 0 (sem_init 0) (sem_init 0) 1 1) in
  pipe_inv q /\ out ++ contents q = inp.
Proof.
  apply (pipe_fifo 512 (replicate 4096 0)); [reflexivity|reflexivity|].
  repeat (constructor; [by vm_compute|]). constructor.
Defined.

(** Bytes written to an empty pipe come back unchanged from one read that asks for
    at least as many, wherever the positions stand in the ring; a read asking
    for fewer returns a prefix of that length. *)
Theorem pipe_write_read_roundtrip (w r n : Z) (src : list Z) (p : pipe) :
  pipe_inv p -> p_count p = 0 -> 0 < zlen src <= PIPE_BUFFER_SIZE -> is_u32 n ->
  let '(rw, q) := pipe_write w src p in
  let '(rr, _) := pipe_read r n q in
  rw = Done (zlen src) [] /\ rr = Done (Z.min n (zlen src)) (take (Z.to_nat n) src).
Proof.
  intros Hinv Hz Hs Hn.
  assert (is_u32 (zlen src)) as Hu by (unfold is_u32, PIPE_BUFFER_SIZE in *; lia).
  pose proof (pipe_write_spec w src p Hinv Hu) as Hw.
  destruct (pipe_write w src p) as [rw q]. destruct Hw as (Hq & Hc & Hrw).
  rewrite Hz in Hrw. change (PIPE_BUFFER_SIZE <=? 0) with false in Hrw.
  rewrite Z.sub_0_r, Z.min_l in Hrw by lia. subst rw. cbn [accepted] in Hc.
  rewrite take_ge in Hc by (unfold zlen; lia).
  replace (contents p) with (@nil Z) in Hc by (unfold contents; by rewrite Hz).
  pose proof (pipe_read_spec r n q Hq Hn) as Hr. destruct (pipe_read r n q) as [rr q'].
  destruct Hr as (_ & _ & Hr & _). rewrite app_nil_l in Hc.
  assert (p_count q = zlen src) as Hcnt.
  { rewrite <-Hc, contents_window, zlen_ring_window; [done|]. destruct Hq. lia. }
  split; [done|]. rewrite Hr, Hcnt, Hc by lia. done.
Qed.

Lemma pipe_write_read_roundtrip_witness :
  pipe_inv demo_pipe /\ p_count demo_pipe = 0 /\
  (let '(rw, q) := pipe_write 1 [5; 6; 7] demo_pipe in
   let '(rr, _) := pipe_read 2 10 q in
   rw = Done (zlen [5; 6; 7]) [] /\
   rr = Done (Z.min 10 (zlen [5; 6; 7])) (take (Z.to_nat 10) [5; 6; 7])).
Proof.
  split; [apply demo_pipe_inv|]. split; [reflexivity|].
  apply (pipe_write_read_roundtrip 1 2 10 [5; 6; 7] demo_pipe demo_pipe_inv);
    [reflexivity|by vm_compute|by vm_compute].
Defined.

(** A writer on a full pipe waits even when the last reader has gone, and it waits
    again after the wake-up [pipe_close_read] sends: no pass of [pipe_write]
    looks at [readers], so such a writer never returns. *)
Theorem pipe_write_ignores_readers (w : Z) (src : list Z) (p : pipe) :
  p_count p = PIPE_BUFFER_SIZE -> readers p = 1 ->
  let q := pipe_close_read p in
  readers q = 0 /\ (pipe_write w src q).1 = Wait /\
  forall w', (pipe_write w' src (pipe_write w src q).2).1 = Wait.
Proof.
  intros Hc Hr q. unfold q, pipe_close_read. rewrite Hr. split; [done|].
  unfold pipe_write. cbn [p_count]. rewrite Hc, Z.leb_refl. split; [done|]. intros w'.
  cbn [p_count snd]. by rewrite ?Hc, Z.leb_refl.
Qed.

Lemma pipe_write_ignores_readers_witness :
  (pipe_write 1 [5] (pipe_close_read
     (mk_pipe (replicate 4096 0) 0 0 4096 (sem_init 0) (sem_init 0) 1 1))).1 = Wait.
Proof.
  apply (pipe_write_ignores_readers 1 [5]
    (mk_pipe (replicate 4096 0) 0 0 4096 (sem_init 0) (sem_init 0) 1 1)); reflexivity.
Defined.

End Pipe.
