(* ===== verification/IpcMsg.v ===== *)
(** * Message queues (src/kernel/ipc_msg.c)

    A table of [MSG_MAX_QUEUES] queues, each a singly linked list of message
    nodes with head and tail pointers, a count and a semaphore.  The nodes live
    in a heap [nodes] keyed by address; the results of [kmalloc] are arguments
    of the operations that allocate, [kfree] removes the node.  The part of an
    operation that runs under the queue's mutex is atomic.  The theorems relate
    the pointer structure to the abstract state [list (option (key * messages))]. *)

From S2P Require Import Prelude Sync.

Module IpcMsg.
Import Sync.

Definition MSG_MAX_QUEUES : Z := 64.
Definition MSG_NOWAIT : Z := 1.
Definition MSG_MAX_SIZE : Z := 4096.

Record msg_node := mk_node { n_data : list Z; n_size : Z; n_next : Z }.

Record msg_queue := mk_queue {
  q_key : Z; q_head : Z; q_tail : Z; q_count : Z; q_wait_sem : sem;
}.

Record msgsys := mk_msgsys { queues : list (option msg_queue); nodes : gmap Z msg_node }.

Definition msg_init : msgsys :=
  mk_msgsys (replicate (Z.to_nat MSG_MAX_QUEUES) None) ∅.

(** The first [NULL] entry of the table. *)
Fixpoint find_slot (qs : list (option msg_queue)) (i : Z) : Z :=
  match qs with
  | [] => -1
  | None :: _ => i
  | Some _ :: qs => find_slot qs (i + 1)
  end.

(** [q] is the result of [kmalloc(sizeof(msg_queue_t))]. *)
Definition msg_create (key q : Z) (s : msgsys) : Z * msgsys :=
  let slot := find_slot (queues s) 0 in
  if slot =? -1 then (-1, s)
  else if q =? NULL then (-1, s)
  else (slot, mk_msgsys ((queues s).[slot <- Some (mk_queue key NULL NULL 0 (sem_init 0))])
                (nodes s)).

(** [queues[qid]] for a [qid] that passes the range check. *)
Definition get_queue (s : msgsys) (qid : Z) : option msg_queue :=
  if (qid <? 0) || (MSG_MAX_QUEUES <=? qid) then None else (queues s).[qid].

(** [msg_send qid data size], [node] and [node_data] being the results of the
    two [kmalloc]s. *)
Definition msg_send (qid : Z) (data : list Z) (size node node_data : Z) (s : msgsys)
    : Z * msgsys :=
  match get_queue s qid with
  | None => (-1, s)
  | Some q =>
      if MSG_MAX_SIZE <? size then (-1, s)
      else if node =? NULL then (-1, s)
      else if node_data =? NULL then (-1, s)
      else
        let ns := <[node := mk_node (take (Z.to_nat size) data) size NULL]> (nodes s) in
        let ns := if negb (q_tail q =? NULL)
                  then alter (fun n => mk_node (n_data n) (n_size n) node) (q_tail q) ns
                  else ns in
        let head := if negb (q_tail q =? NULL) then q_head q else node in
        let q' := mk_queue (q_key q) head node (u32 (q_count q + 1))
                    (sem_post (q_wait_sem q)).1 in
        (0, mk_msgsys ((queues s).[qid <- Some q']) ns)
  end.

(** The part of [msg_recv] after the semaphore: unlink the head node and copy
    at most [size] bytes of it. *)
Definition msg_take (qid size : Z) (s : msgsys) : (Z * list Z) * msgsys :=
  match get_queue s qid with
  | None => ((-1, []), s)
  | Some q =>
      if q_head q =? NULL then ((-1, []), s)
      else match nodes s !! q_head q with
      | None => ((-1, []), s) (* a dangling head: excluded by [sys_rep] *)
      | Some n =>
          let tail := if n_next n =? NULL then NULL else q_tail q in
          let q' := mk_queue (q_key q) (n_next n) tail (u32 (q_count q - 1)) (q_wait_sem q) in
          let copy_size := if size <? n_size n then size else n_size n in
          ((s32 copy_size, take (Z.to_nat copy_size) (n_data n)),
           mk_msgsys ((queues s).[qid <- Some q']) (delete (q_head q) (nodes s)))
      end
  end.

Inductive recv_outcome := Received (ret : Z) (bytes : list Z) | Blocked.

Definition set_sem (qid : Z) (q : msg_queue) (m : sem) (s : msgsys) : msgsys :=
  mk_msgsys ((queues s).[qid <- Some (mk_queue (q_key q) (q_head q) (q_tail q) (q_count q) m)])
    (nodes s).

Definition msg_recv (current qid size flags : Z) (s : msgsys) : recv_outcome * msgsys :=
  match get_queue s qid with
  | None => (Received (-1) [], s)
  | Some q =>
      if c_true (Z.land flags MSG_NOWAIT) then
        if sem_getvalue (q_wait_sem q) <=? 0 then (Received (-1) [], s)
        else let '((r, bytes), s') := msg_take qid size s in (Received r bytes, s')
      else
        match sem_wait current (q_wait_sem q) with
        | (m, []) => let '((r, bytes), s') := msg_take qid size (set_sem qid q m s) in
                     (Received r bytes, s')
        | (m, _) => (Blocked, set_sem qid q m s)
        end
  end.

(** The free loop of [msg_destroy] and the size loop of [msg_list]; [fuel]
    bounds the length of the list. *)
Fixpoint free_nodes (fuel : nat) (a : Z) (ns : gmap Z msg_node) : gmap Z msg_node :=
  match fuel with
  | O => ns
  | S fuel => match ns !! a with
              | None => ns
              | Some n => free_nodes fuel (n_next n) (delete a ns)
              end
  end.

Definition msg_destroy (qid : Z) (s : msgsys) : msgsys :=
  match get_queue s qid with
  | None => s
  | Some q => mk_msgsys ((queues s).[qid <- None])
                (free_nodes (size (nodes s)) (q_head q) (nodes s))
  end.

Fixpoint used_bytes (fuel : nat) (a : Z) (ns : gmap Z msg_node) : Z :=
  match fuel with
  | O => 0
  | S fuel => match ns !! a with
              | None => 0
              | Some n => u32 (n_size n + used_bytes fuel (n_next n) ns)
              end
  end.

Record msg_queue_info := mk_info { i_key : Z; i_count : Z; i_used : Z }.

(** [msg_list]: the entries written to [out], at most [max_count]. *)
Definition msg_list (max_count : Z) (s : msgsys) : list msg_queue_info :=
  take (Z.to_nat max_count)
    ((fun q => mk_info (q_key q) (q_count q) (used_bytes (size (nodes s)) (q_head q) (nodes s)))
       <$> omap id (queues s)).

(** ** Specification *)

(** [l] are the addresses of the list that starts at [a]. *)
Fixpoint linked (ns : gmap Z msg_node) (a : Z) (l : list Z) : Prop :=
  match l with
  | [] => a = NULL
  | x :: l => a = x /\ x <> NULL /\ exists n, ns !! x = Some n /\ linked ns (n_next n) l
  end.

Record queue_rep (ns : gmap Z msg_node) (q : msg_queue) (l : list Z) : Prop := {
  qr_linked : linked ns (q_head q) l;
  qr_nodup : NoDup l;
  qr_tail : q_tail q = default NULL (last l);
  qr_count : q_count q = zlen l;
}.

Definition slot_rep (ns : gmap Z msg_node) (oq : option msg_queue) (l : list Z) : Prop :=
  match oq with
  | None => l = []
  | Some q => queue_rep ns q l
  end.

(** The system: [ls] are the address lists of the queues.  Every node of the
    heap belongs to exactly one queue and is well formed. *)
Record sys_rep (s : msgsys) (ls : list (list Z)) : Prop := {
  sr_len : zlen (queues s) = MSG_MAX_QUEUES;
  sr_slots : Forall2 (slot_rep (nodes s)) (queues s) ls;
  sr_disj : forall i j li lj x, ls !! i = Some li -> ls !! j = Some lj ->
            x ∈ li -> x ∈ lj -> i = j;
  sr_dom : forall x, is_Some (nodes s !! x) <-> exists i li, ls !! i = Some li /\ x ∈ li;
  sr_node : forall x n, nodes s !! x = Some n -> n_size n = zlen (n_data n);
  sr_bound : Z.of_nat (size (nodes s)) < 2 ^ 32 - 1;
}.

Definition node_bytes (ns : gmap Z msg_node) (a : Z) : list Z :=
  default [] (n_data <$> ns !! a).

(** The abstract state: per slot, the key and the messages, oldest first. *)
Definition abs (s : msgsys) (ls : list (list Z)) : list (option (Z * list (list Z))) :=
  zip_with (fun oq l => (fun q => (q_key q, node_bytes (nodes s) <$> l)) <$> oq) (queues s) ls.

(** ** Lemmas on linked lists *)

Lemma linked_frame (ns ns' : gmap Z msg_node) (l : list Z) (a : Z) :
  (forall x, x ∈ l -> ns' !! x = ns !! x) -> linked ns a l -> linked ns' a l.
Proof.
  revert a. induction l as [|x l IH]; intros a Hf; simpl; [done|].
  intros (-> & Hx & n & Hn & Hl). split_and!; [done..|]. exists n. split.
  - rewrite Hf; [done|set_solver].
  - apply IH; [set_solver|done].
Qed.

Lemma linked_some (ns : gmap Z msg_node) (l : list Z) (a x : Z) :
  linked ns a l -> x ∈ l -> x <> NULL /\ is_Some (ns !! x).
Proof.
  revert a. induction l as [|y l IH]; intros a; simpl; [set_solver|].
  intros (-> & Hy & n & Hn & Hl) [->|Hx]%elem_of_cons; [by eauto|]. by eapply IH.
Qed.

(** Appending a node [x] behind the last node [t] of a list. *)
Lemma linked_snoc (ns : gmap Z msg_node) (l : list Z) (a t x : Z) (m : msg_node) :
  linked ns a l -> last l = Some t -> NoDup l -> x ∉ l -> x <> NULL -> n_next m = NULL ->
  linked (alter (fun n => mk_node (n_data n) (n_size n) x) t (<[x := m]> ns)) a (l ++ [x]).
Proof.
  revert a. induction l as [|y l IH]; intros a; [done|].
  intros (-> & Hy & n & Hn & Hl) Hlast Hnd Hx Hx0 Hm.
  apply NoDup_cons in Hnd as [Hyl Hnd]. assert (x <> y) as Hxy by set_solver.
  simpl. split_and!; [done..|]. destruct l as [|z l].
  - simplify_eq/=. exists (mk_node (n_data n) (n_size n) x). split.
    + by rewrite lookup_alter_eq, lookup_insert_ne, Hn.
    + simpl. split_and!; [done..|]. exists m. split; [|done].
      by rewrite lookup_alter_ne, lookup_insert_eq.
  - assert (t ∈ z :: l) as Ht by (by apply last_Some_elem_of).
    exists n. split.
    + rewrite lookup_alter_ne, lookup_insert_ne; [done|done|]. set_solver.
    + apply IH; try done. set_solver.
Qed.

(** ** Updating one queue *)

Definition abs_slot (ns : gmap Z msg_node) (oq : option msg_queue) (l : list Z)
    : option (Z * list (list Z)) :=
  (fun q => (q_key q, node_bytes ns <$> l)) <$> oq.

Lemma slot_some (ns : gmap Z msg_node) (oq : option msg_queue) (l : list Z) (x : Z) :
  slot_rep ns oq l -> x ∈ l -> x <> NULL /\ is_Some (ns !! x).
Proof.
  destruct oq as [q|]; simpl; [|intros ->; set_solver]. intros [Hl _ _ _] Hx.
  by eapply linked_some.
Qed.

Lemma slot_frame (ns ns' : gmap Z msg_node) (oq : option msg_queue) (l : list Z) :
  (forall x, x ∈ l -> ns' !! x = ns !! x) -> slot_rep ns oq l ->
  slot_rep ns' oq l /\ abs_slot ns' oq l = abs_slot ns oq l.
Proof.
  intros Hf Hs. split.
  - destruct oq as [q|]; simpl in *; [|done]. destruct Hs. constructor; try done.
    by eapply linked_frame.
  - unfold abs_slot. destruct oq as [q|]; simpl; [|done]. do 2 f_equal.
    apply list_fmap_ext. intros i x Hx. unfold node_bytes. rewrite Hf; [done|].
    by eapply list_elem_of_lookup_2.
Qed.

Section update.
Context (s : msgsys) (ls : list (list Z)) (Hrep : sys_rep s ls).
Context (i : nat) (l : list Z) (Hl : ls !! i = Some l).
Context (oq : option msg_queue) (l' : list Z) (ns : gmap Z msg_node).
Context (Hslot : slot_rep ns oq l').
Context (Hout : forall x, x ∉ l -> x ∉ l' -> ns !! x = nodes s !! x).
Context (Hnew : forall x, x ∈ l' -> x ∈ l \/ nodes s !! x = None).
Context (Hgone : forall x, x ∈ l -> x ∉ l' -> ns !! x = None).
Context (Hsize : forall x n, ns !! x = Some n -> x ∈ l' -> n_size n = zlen (n_data n)).
Context (Hbound : Z.of_nat (size ns) < 2 ^ 32 - 1).

Lemma other_list (j : nat) (lj : list Z) (x : Z) :
  i <> j -> ls !! j = Some lj -> x ∈ lj -> x ∉ l /\ x ∉ l'.
Proof using Hrep Hl Hnew.
  intros Hij Hj Hx. pose proof Hrep as []. assert (x ∉ l) as Hnl.
  { intros Hxl. by apply Hij, (sr_disj0 i j l lj x). }
  split; [done|]. intros Hxl'. destruct (Hnew x Hxl') as [?|Hnone]; [done|].
  assert (is_Some (nodes s !! x)) as [? ?] by (apply sr_dom0; eauto). congruence.
Qed.

Lemma update_rep :
  sys_rep (mk_msgsys (<[i := oq]> (queues s)) ns) (<[i := l']> ls) /\
  abs (mk_msgsys (<[i := oq]> (queues s)) ns) (<[i := l']> ls)
  = <[i := abs_slot ns oq l']> (abs s ls).
Proof using All.
  pose proof Hrep as []. assert (i < length ls)%nat as Hi by (by eapply lookup_lt_Some).
  assert (forall j oj lj, i <> j -> queues s !! j = Some oj -> ls !! j = Some lj ->
    slot_rep ns oj lj /\ abs_slot ns oj lj = abs_slot (nodes s) oj lj) as Hoth.
  { intros j oj lj Hij Hqj Hlj. apply slot_frame.
    - intros x Hx. destruct (other_list j lj x Hij Hlj Hx). by apply Hout.
    - by eapply Forall2_lookup_lr. }
  split; [constructor; simpl|].
  - unfold zlen in *. by rewrite length_insert.
  - apply Forall2_same_length_lookup_2. { rewrite !length_insert. by eapply Forall2_length. }
    intros j oj lj [[-> [-> ?]]|[Hij Hqj]]%list_lookup_insert_Some
      [[? [-> ?]]|[? Hlj]]%list_lookup_insert_Some; try done. by apply (Hoth j).
  - intros j k lj lk x [[<- [<- _]]|[Hij Hj]]%list_lookup_insert_Some
      [[<- [<- _]]|[Hik Hk]]%list_lookup_insert_Some Hxj Hxk; try done.
    + by destruct (other_list k lk x Hik Hk Hxk).
    + by destruct (other_list j lj x Hij Hj Hxj).
    + by apply (sr_disj0 j k lj lk x).
  - intros x. split.
    + intros Hx. destruct (decide (x ∈ l')) as [Hx'|Hx'].
      { exists i, l'. split; [|done]. by apply list_lookup_insert_eq. }
      destruct (decide (x ∈ l)) as [Hxl|Hxl]; [rewrite Hgone in Hx by done; by destruct Hx|].
      rewrite Hout in Hx by done. apply sr_dom0 in Hx as (j & lj & Hj & Hxj).
      exists j, lj. split; [|done]. rewrite list_lookup_insert_ne; [done|]. naive_solver.
    + intros (j & lj & [[<- [<- _]]|[Hij Hj]]%list_lookup_insert_Some & Hx).
      * by eapply slot_some.
      * destruct (other_list j lj x Hij Hj Hx). rewrite Hout by done. apply sr_dom0; eauto.
  - intros x n Hn. destruct (decide (x ∈ l')) as [Hx'|Hx']; [by eapply Hsize|].
    destruct (decide (x ∈ l)); [by rewrite Hgone in Hn|].
    rewrite Hout in Hn by done. by eapply sr_node0.
  - done.
  - apply list_eq. intros j. unfold abs. simpl. rewrite lookup_zip_with.
    destruct (decide (i = j)) as [<-|Hij].
    + pose proof (Forall2_length _ _ _ sr_slots0) as Hlen.
      rewrite !list_lookup_insert_eq; [done|rewrite ?length_zip_with; lia..].
    + rewrite !list_lookup_insert_ne, lookup_zip_with by done.
      destruct (queues s !! j) as [oj|] eqn:Hqj; simpl; [|done].
      destruct (ls !! j) as [lj|] eqn:Hlj; simpl; [|done]. f_equal. by apply (Hoth j).
Qed.
End update.

Lemma get_queue_rep (s : msgsys) (ls : list (list Z)) (qid : Z) (q : msg_queue) :
  sys_rep s ls -> get_queue s qid = Some q ->
  0 <= qid < MSG_MAX_QUEUES /\ exists l, ls !! Z.to_nat qid = Some l /\
  queue_rep (nodes s) q l /\
  abs s ls !! Z.to_nat qid = Some (Some (q_key q, node_bytes (nodes s) <$> l)).
Proof.
  intros [] Hq. unfold get_queue in Hq. case_if; [done|].
  assert (0 <= qid < MSG_MAX_QUEUES) as Hr by lia. split; [done|].
  assert (queues s !! Z.to_nat qid = Some (Some q)) as Hlk.
  { rewrite <-Hq. apply list_lookup_lookup_total_lt. unfold zlen in *. lia. }
  destruct (Forall2_lookup_l _ _ _ _ _ sr_slots0 Hlk) as (l & Hl & Hrep).
  exists l. split_and!; [done..|]. unfold abs. rewrite lookup_zip_with, Hlk. simpl. by rewrite Hl.
Qed.

(** ** The operations on the representation *)

Lemma nodes_size (m : gmap Z msg_node) (l : list Z) :
  NoDup l -> (forall x, x ∈ l -> is_Some (m !! x)) -> (length l <= size m)%nat.
Proof.
  intros Hnd Hs. rewrite <-(size_dom m), <-(size_list_to_set (C := gset Z) l Hnd).
  apply subseteq_size. intros x Hx%elem_of_list_to_set. by apply elem_of_dom, Hs.
Qed.

Lemma queue_len (s : msgsys) (ls : list (list Z)) (q : msg_queue) (l : list Z) :
  sys_rep s ls -> queue_rep (nodes s) q l -> zlen l < 2 ^ 32 - 1.
Proof.
  intros [] []. pose proof (nodes_size (nodes s) l) as H. unfold zlen.
  assert (length l <= size (nodes s))%nat; [|lia].
  apply H; [done|]. intros x Hx. by eapply linked_some.
Qed.

Definition add_node (ns : gmap Z msg_node) (tail node : Z) (m : msg_node) : gmap Z msg_node :=
  if negb (tail =? NULL)
  then alter (fun n => mk_node (n_data n) (n_size n) node) tail (<[node := m]> ns)
  else <[node := m]> ns.

(** Linking a fresh node behind a queue. *)
Lemma add_node_rep (ns : gmap Z msg_node) (q : msg_queue) (l : list Z) (node : Z)
    (m : msg_node) (sm : sem) :
  queue_rep ns q l -> node ∉ l -> node <> NULL -> n_next m = NULL -> zlen l < 2 ^ 32 - 1 ->
  queue_rep (add_node ns (q_tail q) node m)
    (mk_queue (q_key q) (if negb (q_tail q =? NULL) then q_head q else node) node
       (u32 (q_count q + 1)) sm) (l ++ [node]).
Proof.
  intros [Hl Hnd Ht Hc] Hx Hx0 Hm Hb. unfold add_node.
  assert (u32 (q_count q + 1) = zlen (l ++ [node])) as Hcnt.
  { rewrite zlen_app, u32_small, Hc; [done|]. unfold is_u32. pose proof (zlen_nonneg l). lia. }
  assert (NoDup (l ++ [node])) as Hnd'.
  { apply NoDup_app. split_and!; [done|set_solver|apply NoDup_singleton]. }
  assert (node = default NULL (last (l ++ [node]))) as Hlast by (by rewrite last_snoc).
  destruct (last l) as [t|] eqn:E; simpl in Ht.
  - assert (t <> NULL) as Ht0.
    { apply last_Some_elem_of in E. by destruct (linked_some ns l (q_head q) t Hl E). }
    rewrite Ht, (proj2 (Z.eqb_neq t NULL)) by done. simpl. constructor; simpl; try done.
    by apply linked_snoc.
  - apply last_None in E as ->. rewrite Ht. simpl in *. constructor; simpl; try done.
    split_and!; [done..|]. exists m. by rewrite lookup_insert_eq.
Qed.

Lemma add_node_lookup (ns : gmap Z msg_node) (tail node x : Z) (m : msg_node) :
  x <> node -> n_data <$> add_node ns tail node m !! x = n_data <$> ns !! x /\
  n_size <$> add_node ns tail node m !! x = n_size <$> ns !! x /\
  (x <> tail -> add_node ns tail node m !! x = ns !! x).
Proof.
  intros Hx. unfold add_node. case_if; [|by rewrite lookup_insert_ne].
  destruct (decide (x = tail)) as [->|Hne].
  - rewrite lookup_alter_eq, lookup_insert_ne by done. by destruct (ns !! tail).
  - by rewrite lookup_alter_ne, lookup_insert_ne by done.
Qed.

Lemma add_node_same (ns : gmap Z msg_node) (tail node : Z) (m : msg_node) :
  tail <> node -> add_node ns tail node m !! node = Some m.
Proof.
  intros Ht. unfold add_node. case_if; [rewrite lookup_alter_ne by done|];
    by rewrite lookup_insert_eq.
Qed.

Lemma add_node_size (ns : gmap Z msg_node) (tail node : Z) (m : msg_node) :
  ns !! node = None -> size (add_node ns tail node m) = S (size ns).
Proof.
  intros Hn. unfold add_node. case_if; [rewrite <-size_dom, dom_alter_L, size_dom|];
    by apply map_size_insert_None.
Qed.

Lemma msg_send_rep (s : msgsys) (ls : list (list Z)) (qid size node node_data : Z)
    (data : list Z) (q : msg_queue) (l : list Z) :
  sys_rep s ls -> get_queue s qid = Some q -> ls !! Z.to_nat qid = Some l ->
  0 <= size <= MSG_MAX_SIZE -> size <= zlen data ->
  node <> NULL -> node_data <> NULL -> nodes s !! node = None ->
  Z.of_nat (base.size (nodes s)) + 1 < 2 ^ 32 - 1 ->
  let '(r, s') := msg_send qid data size node node_data s in
  r = 0 /\ exists ls', sys_rep s' ls' /\
  abs s' ls' = <[Z.to_nat qid := Some (q_key q, (node_bytes (nodes s) <$> l)
                                         ++ [take (Z.to_nat size) data])]> (abs s ls).
Proof.
  intros Hrep Hq Hl Hsz Hdata Hn0 Hd0 Hfresh Hb. unfold msg_send. rewrite Hq.
  rewrite (proj2 (Z.ltb_ge _ _)), !(proj2 (Z.eqb_neq _ _)) by (done || lia).
  split; [done|]. destruct (get_queue_rep s ls qid q Hrep Hq) as (Hqid & l0 & Hl0 & Hqr & _).
  simplify_eq. pose proof (queue_len s ls q l Hrep Hqr) as Hlen.
  assert (forall x, x ∈ l -> is_Some (nodes s !! x)) as Hsome.
  { intros x Hx. destruct Hqr. by eapply linked_some. }
  assert (node ∉ l) as Hnl. { intros Hx. destruct (Hsome node Hx). congruence. }
  set (m := mk_node (take (Z.to_nat size) data) size NULL).
  pose proof (add_node_rep (nodes s) q l node m (sem_post (q_wait_sem q)).1 Hqr Hnl Hn0
                eq_refl Hlen) as Hqr'.
  assert (q_tail q <> node) as Htn.
  { destruct Hqr as [? ? -> _]. destruct (last l) as [t|] eqn:E; simpl; [|congruence].
    apply last_Some_elem_of in E. congruence. }
  assert (forall x, x ∉ l -> q_tail q <> x \/ q_tail q = NULL) as Htail.
  { intros x Hx. destruct Hqr as [? ? -> _]. destruct (last l) as [t|] eqn:E; [|by right].
    apply last_Some_elem_of in E. left. simpl. congruence. }
  destruct (update_rep s ls Hrep (Z.to_nat qid) l Hl (Some _) (l ++ [node])
              (add_node (nodes s) (q_tail q) node m) Hqr') as [Hs' Ha'].
  - intros x Hx Hx'. assert (x <> node) as Hxn by set_solver.
    destruct (add_node_lookup (nodes s) (q_tail q) node x m Hxn) as (_ & _ & Hsame).
    destruct (Htail x Hx) as [|Ht0]; [apply Hsame; congruence|].
    unfold add_node. rewrite Ht0. simpl. by rewrite lookup_insert_ne.
  - intros x [Hx|Hx]%elem_of_app; [by left|right]. set_solver.
  - set_solver.
  - intros x n Hn Hx. destruct (decide (x = node)) as [->|Hxn].
    + rewrite add_node_same in Hn by done. injection Hn as <-. simpl.
      unfold zlen in *. rewrite length_take. lia.
    + destruct (add_node_lookup (nodes s) (q_tail q) node x m Hxn) as (E1 & E2 & _).
      rewrite Hn in E1, E2. destruct (nodes s !! x) as [n'|] eqn:E; [|done].
      injection E1 as E1. injection E2 as E2. rewrite E1, E2. destruct Hrep.
      by eapply sr_node0.
  - rewrite add_node_size by done. lia.
  - exists (<[Z.to_nat qid := l ++ [node]]> ls). split; [exact Hs'|].
    etransitivity; [exact Ha'|]. f_equal. unfold abs_slot. simpl. do 2 f_equal.
    rewrite fmap_app. f_equal.
    + apply list_fmap_ext. intros i x Hx. apply list_elem_of_lookup_2 in Hx.
      unfold node_bytes. f_equal. apply add_node_lookup. congruence.
    + simpl. unfold node_bytes. by rewrite add_node_same.
Qed.

Lemma set_sem_rep (s : msgsys) (ls : list (list Z)) (qid : Z) (q : msg_queue) (m : sem) :
  sys_rep s ls -> get_queue s qid = Some q ->
  sys_rep (set_sem qid q m s) ls /\ abs (set_sem qid q m s) ls = abs s ls /\
  get_queue (set_sem qid q m s) qid
  = Some (mk_queue (q_key q) (q_head q) (q_tail q) (q_count q) m).
Proof.
  intros Hrep Hq. destruct (get_queue_rep s ls qid q Hrep Hq) as (Hqid & l & Hl & Hqr & Ha).
  assert (queue_rep (nodes s) (mk_queue (q_key q) (q_head q) (q_tail q) (q_count q) m) l)
    as Hqr' by (by destruct Hqr).
  destruct (update_rep s ls Hrep (Z.to_nat qid) l Hl (Some _) l (nodes s) Hqr') as [Hs' Ha'].
  - done.
  - auto.
  - set_solver.
  - intros x n Hn _. destruct Hrep. by eapply sr_node0.
  - by destruct Hrep.
  - rewrite (list_insert_id ls _ _ Hl) in Hs', Ha'. split_and!; [exact Hs'| |].
    + etransitivity; [exact Ha'|]. by apply list_insert_id.
    + unfold get_queue, set_sem. cbn [queues]. case_if; [unfold MSG_MAX_QUEUES in *; lia|].
      apply aget_aset_eq. destruct Hrep. unfold MSG_MAX_QUEUES in *. lia.
Qed.

Lemma msg_take_rep (s : msgsys) (ls : list (list Z)) (qid size : Z) (q : msg_queue)
    (l : list Z) :
  sys_rep s ls -> get_queue s qid = Some q -> ls !! Z.to_nat qid = Some l -> is_u32 size ->
  match l with
  | [] => msg_take qid size s = ((-1, []), s)
  | x :: l' =>
      let msg := node_bytes (nodes s) x in
      (msg_take qid size s).1 = (s32 (Z.min size (zlen msg)), take (Z.to_nat size) msg) /\
      nodes (msg_take qid size s).2 = delete x (nodes s) /\
      sys_rep (msg_take qid size s).2 (<[Z.to_nat qid := l']> ls) /\
      abs (msg_take qid size s).2 (<[Z.to_nat qid := l']> ls)
      = <[Z.to_nat qid := Some (q_key q, node_bytes (nodes s) <$> l')]> (abs s ls)
  end.
Proof.
  intros Hrep Hq Hl [Hsz _].
  destruct (get_queue_rep s ls qid q Hrep Hq) as (Hqid & l0 & Hl0 & Hqr & Ha).
  simplify_eq. pose proof (queue_len s ls q l Hrep Hqr) as Hlen. unfold msg_take. rewrite Hq.
  pose proof Hqr as [Hlk Hnd Ht Hc]. destruct l as [|x l']; simpl in Hlk.
  { by rewrite Hlk. }
  destruct Hlk as (Hhd & Hx0 & n & Hn & Hlk). rewrite Hhd, Hn.
  rewrite (proj2 (Z.eqb_neq x NULL)) by done. cbv zeta. cbn [fst snd nodes].
  apply NoDup_cons in Hnd as [Hxl Hnd].
  assert (n_size n = zlen (n_data n)) as Hns by (destruct Hrep; by eapply sr_node0).
  split; [|split; [done|]].
  { unfold node_bytes. rewrite Hn. simpl. rewrite Hns.
    replace (if size <? zlen (n_data n) then size else zlen (n_data n))
      with (Z.min size (zlen (n_data n))) by (case_if; lia).
    f_equal. unfold zlen. destruct (Z.le_ge_cases size (Z.of_nat (length (n_data n)))).
    - by rewrite Z.min_l.
    - rewrite Z.min_r, Nat2Z.id, take_ge by lia. rewrite take_ge; [done|lia]. }
  assert (forall y, y ∈ l' -> delete x (nodes s) !! y = nodes s !! y) as Hf.
  { intros y Hy. apply lookup_delete_ne. congruence. }
  assert (queue_rep (delete x (nodes s))
    (mk_queue (q_key q) (n_next n) (if n_next n =? NULL then NULL else q_tail q)
       (u32 (q_count q - 1)) (q_wait_sem q)) l') as Hqr'.
  { constructor; simpl; [by eapply linked_frame|done| |].
    - destruct l' as [|y l']; simpl in Hlk; [by rewrite Hlk|].
      destruct Hlk as (-> & Hy0 & _). rewrite (proj2 (Z.eqb_neq y NULL)) by done.
      by rewrite Ht.
    - rewrite Hc, zlen_cons in *. pose proof (zlen_nonneg l').
      rewrite u32_small by (unfold is_u32; lia). lia. }
  destruct (update_rep s ls Hrep (Z.to_nat qid) (x :: l') Hl (Some _) l' _ Hqr') as [Hs' Ha'].
  - intros y Hy _. apply lookup_delete_ne. set_solver.
  - set_solver.
  - intros y Hy Hy'. assert (y = x) as -> by set_solver. apply lookup_delete_eq.
  - intros y m [_ Hm]%lookup_delete_Some _. destruct Hrep. by eapply sr_node0.
  - rewrite map_size_delete, Hn. destruct Hrep. lia.
  - split; [exact Hs'|]. etransitivity; [exact Ha'|]. f_equal. unfold abs_slot. simpl.
    do 2 f_equal. apply list_fmap_ext. intros i y Hy. unfold node_bytes. rewrite Hf; [done|].
    by eapply list_elem_of_lookup_2.
Qed.

(** A slot of the abstract state, read back. *)
Lemma abs_queue (s : msgsys) (ls : list (list Z)) (qid key : Z) (msgs : list (list Z)) :
  sys_rep s ls -> 0 <= qid < MSG_MAX_QUEUES ->
  abs s ls !! Z.to_nat qid = Some (Some (key, msgs)) ->
  exists q l, get_queue s qid = Some q /\ ls !! Z.to_nat qid = Some l /\
    q_key q = key /\ node_bytes (nodes s) <$> l = msgs.
Proof.
  intros Hrep Hqid Ha. unfold abs in Ha. rewrite lookup_zip_with in Ha.
  destruct (queues s !! Z.to_nat qid) as [[q|]|] eqn:Hq; simpl in Ha; [|by destruct (ls !! _)|done].
  destruct (ls !! Z.to_nat qid) as [l|] eqn:Hl; simpl in Ha; [|done]. simplify_eq.
  exists q, l. split_and!; try done. unfold get_queue, aget. case_if; [lia|].
  by apply list_lookup_total_correct.
Qed.

Lemma take_abs (s : msgsys) (ls : list (list Z)) (qid size : Z) (q : msg_queue) (key : Z)
    (msgs : list (list Z)) :
  sys_rep s ls -> get_queue s qid = Some q ->
  abs s ls !! Z.to_nat qid = Some (Some (key, msgs)) -> is_u32 size ->
  let '((r, b), s') := msg_take qid size s in
  exists ls', sys_rep s' ls' /\
  match msgs with
  | [] => Received r b = Received (-1) [] /\ abs s' ls' = abs s ls /\ nodes s' = nodes s
  | msg :: msgs' =>
      Received r b = Received (s32 (Z.min size (zlen msg))) (take (Z.to_nat size) msg) /\
      abs s' ls' = <[Z.to_nat qid := Some (key, msgs')]> (abs s ls) /\
      (base.size (nodes s') < base.size (nodes s))%nat
  end.
Proof.
  intros Hrep Hq Ha Hsz.
  destruct (get_queue_rep s ls qid q Hrep Hq) as (Hqid & l & Hl & Hqr & Ha').
  rewrite Ha in Ha'. simplify_eq. pose proof (msg_take_rep s ls qid size q l Hrep Hq Hl Hsz) as H.
  destruct Hqr as [Hlk _ _ _].
  destruct (msg_take qid size s) as [[r b] s'], l as [|x l']; simpl in *.
  - simplify_eq. by exists ls.
  - destruct H as (Hr & Hn & Hrep' & Habs). eexists. split; [exact Hrep'|].
    destruct Hlk as (_ & _ & n & Hx & _). split_and!; [congruence|done|].
    rewrite Hn, map_size_delete, Hx. assert (base.size (nodes s) <> 0%nat); [|lia].
    intros E%map_size_empty_inv. by rewrite E, lookup_empty in Hx.
Qed.

(** ** Destroying a queue *)

Lemma free_nodes_spec (l : list Z) (fuel : nat) (a : Z) (ns : gmap Z msg_node) :
  linked ns a l -> NoDup l -> ns !! NULL = None -> (length l <= fuel)%nat ->
  forall x, free_nodes fuel a ns !! x = if decide (x ∈ l) then None else ns !! x.
Proof.
  revert fuel a ns. induction l as [|y l IH]; intros fuel a ns Hl Hnd H0 Hf x.
  - simpl in Hl. subst a. destruct fuel; simpl; [done|]. by rewrite H0.
  - destruct Hl as (-> & Hy & n & Hn & Hl). apply NoDup_cons in Hnd as [Hyl Hnd].
    destruct fuel as [|fuel]; simpl in Hf; [lia|]. simpl. rewrite Hn.
    rewrite IH; [|  |done| |lia].
    + destruct (decide (x ∈ l)); [rewrite decide_True by set_solver; done|].
      destruct (decide (x = y)) as [->|].
      * rewrite decide_True by set_solver. apply lookup_delete_eq.
      * rewrite decide_False by set_solver. by rewrite lookup_delete_ne.
    + eapply linked_frame; [|done]. intros z Hz. apply lookup_delete_ne. congruence.
    + by rewrite lookup_delete_ne.
Qed.

Lemma null_free (s : msgsys) (ls : list (list Z)) : sys_rep s ls -> nodes s !! NULL = None.
Proof.
  intros []. destruct (nodes s !! NULL) eqn:E; [|done].
  assert (is_Some (nodes s !! NULL)) as (i & li & Hi & Hx)%sr_dom0 by eauto.
  destruct (Forall2_lookup_r _ _ _ _ _ sr_slots0 Hi) as (oq & _ & Hs).
  by destruct (slot_some _ _ _ _ Hs Hx).
Qed.

Lemma msg_destroy_rep (s : msgsys) (ls : list (list Z)) (qid : Z) (q : msg_queue) (l : list Z) :
  sys_rep s ls -> get_queue s qid = Some q -> ls !! Z.to_nat qid = Some l ->
  sys_rep (msg_destroy qid s) (<[Z.to_nat qid := []]> ls) /\
  abs (msg_destroy qid s) (<[Z.to_nat qid := []]> ls)
  = <[Z.to_nat qid := None]> (abs s ls) /\
  dom (nodes (msg_destroy qid s)) = dom (nodes s) ∖ list_to_set l.
Proof.
  intros Hrep Hq Hl.
  destruct (get_queue_rep s ls qid q Hrep Hq) as (Hqid & l0 & Hl0 & Hqr & _). simplify_eq.
  unfold msg_destroy. rewrite Hq. pose proof Hqr as [Hlk Hnd _ _].
  pose proof (free_nodes_spec l (size (nodes s)) (q_head q) (nodes s) Hlk Hnd
    (null_free s ls Hrep)) as Hfree.
  assert (length l <= size (nodes s))%nat as Hlen.
  { apply nodes_size; [done|]. intros x Hx. by eapply linked_some. }
  specialize (Hfree Hlen). set (ns := free_nodes _ _ _) in *.
  assert (ns ⊆ nodes s) as Hsub.
  { apply map_subseteq_spec. intros x n. rewrite Hfree. by case_decide. }
  destruct (update_rep s ls Hrep (Z.to_nat qid) l Hl None [] ns eq_refl) as [Hs' Ha'].
  - intros x Hx _. by rewrite Hfree, decide_False.
  - set_solver.
  - intros x Hx _. by rewrite Hfree, decide_True.
  - set_solver.
  - pose proof (map_subseteq_size _ _ Hsub). destruct Hrep. lia.
  - split_and!; [exact Hs'|exact Ha'|]. simpl. apply set_eq. intros x.
    rewrite elem_of_difference, !elem_of_dom, elem_of_list_to_set, Hfree.
    case_decide; [|naive_solver]. split; [intros [? ?]; done|naive_solver].
Qed.

(** ** Initialisation and creation *)

Lemma msg_init_rep : sys_rep msg_init (replicate 64 []).
Proof.
  assert (forall i li, replicate 64 ([] : list Z) !! i = Some li -> li = []) as Hr.
  { intros i li [-> _]%lookup_replicate. done. }
  generalize (eq_refl : length (replicate 64 ([] : list Z)) = 64%nat).
  constructor; try done.
  - by apply Forall2_replicate.
  - intros i j li lj x ->%Hr Hj Hx. by apply not_elem_of_nil in Hx.
  - intros x. change (nodes msg_init) with (∅ : gmap Z msg_node). rewrite lookup_empty.
    split; [by intros []|].
    intros (i & li & ->%Hr & Hx). by apply not_elem_of_nil in Hx.
Qed.

Lemma find_slot_spec (qs : list (option msg_queue)) (i : Z) :
  0 <= i ->
  (exists k, qs !! k = Some None /\ find_slot qs i = i + Z.of_nat k /\
     forall j, (j < k)%nat -> exists q, qs !! j = Some (Some q)) \/
  (find_slot qs i = -1 /\ None ∉ qs).
Proof.
  revert i. induction qs as [|[q|] qs IH]; intros i Hi; simpl.
  - right. set_solver.
  - destruct (IH (i + 1) ltac:(lia)) as [(k & Hk & -> & Hj)|[-> Hn]].
    + left. exists (S k). split_and!; [done|lia|]. intros [|j] Hlt; [by exists q|].
      apply Hj. lia.
    + right. split; [done|]. set_solver.
  - left. exists 0%nat. split_and!; [done|lia|]. lia.
Qed.

Lemma msg_create_rep (s : msgsys) (ls : list (list Z)) (key qptr : Z) :
  sys_rep s ls -> qptr <> NULL -> None ∈ queues s ->
  let '(slot, s') := msg_create key qptr s in
  0 <= slot < MSG_MAX_QUEUES /\ abs s ls !! Z.to_nat slot = Some None /\
  sys_rep s' ls /\ ls !! Z.to_nat slot = Some [] /\
  abs s' ls = <[Z.to_nat slot := Some (key, [])]> (abs s ls) /\
  get_queue s' slot = Some (mk_queue key NULL NULL 0 (sem_init 0)) /\ nodes s' = nodes s.
Proof.
  intros Hrep Hq Hin. unfold msg_create.
  destruct (find_slot_spec (queues s) 0 ltac:(lia)) as [(k & Hk & -> & _)|[_ Hn]]; [|done].
  rewrite Z.add_0_l, (proj2 (Z.eqb_neq _ (-1))), (proj2 (Z.eqb_neq qptr NULL)) by (done || lia).
  pose proof Hrep as []. assert (k < length (queues s))%nat as Hlt by (by eapply lookup_lt_Some).
  destruct (Forall2_lookup_l _ _ _ _ _ sr_slots0 Hk) as (l & Hl & ->).
  set (q := mk_queue key NULL NULL 0 (sem_init 0)).
  assert (slot_rep (nodes s) (Some q) []) as Hslot by (constructor; simpl; try done; constructor).
  destruct (update_rep s ls Hrep k [] Hl (Some q) [] (nodes s) Hslot) as [Hs' Ha'];
    [done|intros x Hx; by apply not_elem_of_nil in Hx|intros x Hx; by apply not_elem_of_nil in Hx
    |intros x n _ Hx; by apply not_elem_of_nil in Hx|done|].
  rewrite (list_insert_id ls _ _ Hl) in Hs', Ha'. unfold aset. rewrite !Nat2Z.id.
  unfold zlen in *. split_and!; [lia|lia| |exact Hs'|done|exact Ha'| |done].
  - unfold abs. rewrite lookup_zip_with, Hk. simpl. by rewrite Hl.
  - unfold get_queue, aget. cbn [queues]. case_if; [lia|]. rewrite Nat2Z.id.
    by apply list_lookup_total_insert_eq.
Qed.

(** A system with one queue (slot 0) that holds the message [1; 2; 3]. *)
Definition demo_empty : msgsys := (msg_create 42 4096 msg_init).2.
Definition demo_one : msgsys := (msg_send 0 [1; 2; 3] 3 8192 8448 demo_empty).2.

Lemma demo_empty_rep : sys_rep demo_empty (replicate 64 []).
Proof.
  pose proof (msg_create_rep msg_init _ 42 4096 msg_init_rep ltac:(done)) as H.
  unfold demo_empty. destruct (msg_create 42 4096 msg_init) as [slot s'] eqn:E.
  apply H. unfold msg_init. simpl. set_solver.
Qed.

Lemma demo_one_rep : exists ls, sys_rep demo_one ls /\ ls !! 0%nat = Some [8192].
Proof.
  pose proof demo_empty_rep as Hrep.
  exists (<[0%nat := [8192]]> (replicate 64 [])). split; [|done].
  refine (proj1 (update_rep demo_empty _ Hrep 0 [] eq_refl
    (Some (mk_queue 42 8192 8192 1 (sem_init 1))) [8192]
    {[8192 := mk_node [1; 2; 3] 3 NULL]} _ _ _ _ _ _)).
  - constructor; simpl; try done; [|apply NoDup_singleton].
    split_and!; [done..|]. by exists (mk_node [1; 2; 3] 3 NULL).
  - intros x _ Hx. change (nodes demo_empty) with (∅ : gmap Z msg_node).
    rewrite lookup_empty, lookup_singleton_ne; set_solver.
  - intros x _. right. apply lookup_empty.
  - set_solver.
  - intros x n Hn Hx. apply lookup_singleton_Some in Hn as [_ <-]. done.
  - done.
Qed.

(** ** Theorems *)

(** C29: [msg_send] refines appending to the abstract queue: with both allocations
    successful, a live queue and a message of at most [MSG_MAX_SIZE] bytes it
    returns 0, keeps the pointer structure of the whole table well formed, and
    the queue's messages become the old ones followed by a copy of the data,
    every other queue unchanged. *)
Theorem msg_send_refines (s : msgsys) (ls : list (list Z)) (qid size node node_data : Z)
    (data : list Z) (key : Z) (msgs : list (list Z)) :
  sys_rep s ls -> 0 <= qid < MSG_MAX_QUEUES ->
  abs s ls !! Z.to_nat qid = Some (Some (key, msgs)) ->
  0 <= size <= MSG_MAX_SIZE -> size <= zlen data ->
  node <> NULL -> node_data <> NULL -> nodes s !! node = None ->
  Z.of_nat (base.size (nodes s)) + 1 < 2 ^ 32 - 1 ->
  let '(r, s') := msg_send qid data size node node_data s in
  r = 0 /\ exists ls', sys_rep s' ls' /\
  abs s' ls' = <[Z.to_nat qid := Some (key, msgs ++ [take (Z.to_nat size) data])]> (abs s ls).
Proof.
  intros Hrep Hqid Ha Hsz Hd Hn0 Hd0 Hf Hb.
  destruct (abs_queue s ls qid key msgs Hrep Hqid Ha) as (q & l & Hq & Hl & <- & <-).
  by apply msg_send_rep.
Qed.

Lemma msg_send_refines_witness :
  (msg_send 0 [1; 2; 3] 3 8192 8448 demo_empty).1 = 0 /\
  exists ls', sys_rep demo_one ls' /\
    abs demo_one ls' = <[0%nat := Some (42, [[1; 2; 3]])]> (abs demo_empty (replicate 64 [])).
Proof.
  pose proof (msg_send_refines demo_empty (replicate 64 []) 0 3 8192 8448 [1; 2; 3] 42 []
    demo_empty_rep) as H. unfold demo_one.
  destruct (msg_send 0 [1; 2; 3] 3 8192 8448 demo_empty) as [r s'].
  apply H; unfold MSG_MAX_QUEUES, MSG_MAX_SIZE; done || lia.
Defined.



(** [msg_destroy] empties the slot, frees exactly the nodes of that queue, leaves
    the other queues as they were and leaks nothing: afterwards every allocated
    node still belongs to some queue. *)
Theorem msg_destroy_frees (s : msgsys) (ls : list (list Z)) (qid : Z) (l : list Z) :
  sys_rep s ls -> get_queue s qid <> None -> ls !! Z.to_nat qid = Some l ->
  let s' := msg_destroy qid s in
  let ls' := <[Z.to_nat qid := []]> ls in
  abs s' ls' = <[Z.to_nat qid := None]> (abs s ls) /\
  dom (nodes s') = dom (nodes s) ∖ list_to_set l /\
  forall x, is_Some (nodes s' !! x) -> exists i li, ls' !! i = Some li /\ x ∈ li.
Proof.
  intros Hrep Hq Hl. destruct (get_queue s qid) as [q|] eqn:E; [|done].
  destruct (msg_destroy_rep s ls qid q l Hrep E Hl) as (Hrep' & Ha & Hd).
  split_and!; [done..|]. intros x Hx. destruct Hrep'. by apply sr_dom0.
Qed.

Lemma msg_destroy_frees_witness : nodes (msg_destroy 0 demo_one) = ∅.
Proof.
  destruct demo_one_rep as (ls & Hrep & Hl).
  destruct (msg_destroy_frees demo_one ls 0 [8192] Hrep ltac:(done) Hl) as (_ & Hd & _).
  apply dom_empty_inv_L. rewrite Hd. change (nodes demo_one) with
    ({[8192 := mk_node [1; 2; 3] 3 NULL]} : gmap Z msg_node). set_solver.
Defined.

(** A receive with [MSG_NOWAIT] takes the message but not the semaphore: when it
    removes the last message of a queue whose semaphore stands at one, the
    semaphore stays at one, and the next blocking receive neither blocks nor
    finds a message but fails with -1. *)
Theorem msg_nowait_keeps_semaphore (s : msgsys) (ls : list (list Z)) (c1 c2 qid size : Z)
    (q : msg_queue) (x : Z) :
  sys_rep s ls -> get_queue s qid = Some q -> ls !! Z.to_nat qid = Some [x] ->
  is_u32 size -> sem_getvalue (q_wait_sem q) = 1 ->
  let s' := (msg_recv c1 qid size MSG_NOWAIT s).2 in
  (exists q', get_queue s' qid = Some q' /\ q_count q' = 0 /\ sem_getvalue (q_wait_sem q') = 1) /\
  (msg_recv c2 qid size 0 s').1 = Received (-1) [].
Proof.
  intros Hrep Hq Hl Hsz Hsem. cbv zeta.
  assert ((msg_recv c1 qid size MSG_NOWAIT s).2 = (msg_take qid size s).2) as ->.
  { unfold msg_recv. rewrite Hq, Hsem. simpl. by destruct (msg_take qid size s) as [[? ?] ?]. }
  pose proof (msg_take_rep s ls qid size q [x] Hrep Hq Hl Hsz) as (_ & _ & Hrep' & _).
  destruct (get_queue_rep s ls qid q Hrep Hq) as (Hqid & l0 & Hl0 & [Hlk _ _ Hc] & _).
  simplify_eq. destruct Hlk as (Hhd & Hx0 & n & Hn & Hnx). simpl in Hnx.
  assert (exists m, get_queue (msg_take qid size s).2 qid
    = Some (mk_queue (q_key q) NULL m 0 (q_wait_sem q))) as [m Hq'].
  { unfold msg_take. rewrite Hq, Hhd, Hn, Hnx, (proj2 (Z.eqb_neq _ _)) by done. cbn [snd].
    unfold get_queue. cbn [queues]. case_if; [unfold MSG_MAX_QUEUES in *; lia|].
    eexists. rewrite aget_aset_eq; [by rewrite Hc|]. destruct Hrep. lia. }
  destruct (msg_take qid size s) as [[r b] s'] eqn:E. cbn [snd] in *.
  split; [by exists (mk_queue (q_key q) NULL m 0 (q_wait_sem q))|].
  unfold msg_recv. rewrite Hq'. unfold sem_getvalue in Hsem. simpl. unfold sem_wait.
  rewrite Hsem. simpl. destruct (set_sem_rep s' _ qid _ (mk_sem (s32 0) (s_queue (q_wait_sem q)))
    Hrep' Hq') as (_ & _ & Hq'').
  unfold msg_take. change (1 - 1) with 0. rewrite Hq''. done.
Qed.

Lemma msg_nowait_keeps_semaphore_witness :
  (msg_recv 8 0 100 0 (msg_recv 7 0 100 MSG_NOWAIT demo_one).2).1 = Received (-1) [].
Proof.
  destruct demo_one_rep as (ls & Hrep & Hl).
  apply (msg_nowait_keeps_semaphore demo_one ls 7 8 0 100
    (mk_queue 42 8192 8192 1 (sem_init 1)) 8192 Hrep); done.
Defined.

End IpcMsg.
