(* ===== verification/IpcSem.v ===== *)
(** * System V semaphore sets (src/kernel/ipc_sem.c)

    The static table of semaphore sets with its undo records and statistics.
    The body of every operation runs under the global spinlock and is one atomic
    step; [ipc_semop] that has to wait is split at its busy-wait into the part
    before ([ipc_semop], which reports on which semaphore it waits) and the part
    after ([ipc_semop_resume]).  The current process and the timer are arguments;
    event logging is left out. *)

From S2P Require Import Prelude.

Module IpcSem.

Definition IPC_SEM_MAX_SETS : Z := 32.
Definition IPC_SEM_MAX_NSEMS : Z := 16.
Definition IPC_SEM_MAX_UNDO : Z := 64.
Definition SEM_NOWAIT : Z := 1.
Definition SEM_UNDO : Z := 4096.

Record sem_unit := mk_unit { value : Z; wait_cnt : Z; wait_zero : Z; last_pid : Z }.

Record sem_set := mk_set {
  in_use : Z; key : Z; nsems : Z; s_owner : Z; ctime : Z; otime : Z; create_tick : Z;
  sems : list sem_unit;
}.

Record sem_undo := mk_undo { u_pid : Z; u_semid : Z; u_sem_num : Z; adjval : Z }.

Record sem_stats := mk_stats {
  total_sets : Z; total_sems : Z; total_ops : Z; total_blocks : Z; total_wakeups : Z;
  total_undo_ops : Z;
}.

Record g_sem := mk_g { sets : list sem_set; undo : list sem_undo; undo_count : Z; stats : sem_stats }.

Record sembuf := mk_sembuf { sem_num : Z; sem_op : Z; sem_flg : Z }.

Record semid_ds := mk_ds {
  ds_key : Z; ds_nsems : Z; ds_owner : Z; ds_ctime : Z; ds_otime : Z; ds_create_tick : Z;
}.

Definition zero_unit : sem_unit := mk_unit 0 0 0 0.
Definition zero_set : sem_set :=
  mk_set 0 0 0 0 0 0 0 (replicate (Z.to_nat IPC_SEM_MAX_NSEMS) zero_unit).
Definition zero_undo : sem_undo := mk_undo 0 0 0 0.
Definition zero_stats : sem_stats := mk_stats 0 0 0 0 0 0.

#[export] Instance sem_unit_inh : Inhabited sem_unit := populate zero_unit.
#[export] Instance sem_set_inh : Inhabited sem_set := populate zero_set.
#[export] Instance sem_undo_inh : Inhabited sem_undo := populate zero_undo.

Definition ipc_sem_init : g_sem :=
  mk_g (replicate (Z.to_nat IPC_SEM_MAX_SETS) zero_set)
       (replicate (Z.to_nat IPC_SEM_MAX_UNDO) zero_undo) 0 zero_stats.

(** ** Field updates *)

Definition set_sets (g : g_sem) (i : Z) (s : sem_set) : g_sem :=
  mk_g ((sets g).[i <- s]) (undo g) (undo_count g) (stats g).
Definition set_stats (g : g_sem) (st : sem_stats) : g_sem :=
  mk_g (sets g) (undo g) (undo_count g) st.
Definition with_sems (s : sem_set) (u : list sem_unit) : sem_set :=
  mk_set (in_use s) (key s) (nsems s) (s_owner s) (ctime s) (otime s) (create_tick s) u.
Definition with_ctime (s : sem_set) (t : Z) : sem_set :=
  mk_set (in_use s) (key s) (nsems s) (s_owner s) t (otime s) (create_tick s) (sems s).
Definition with_otime (s : sem_set) (t : Z) : sem_set :=
  mk_set (in_use s) (key s) (nsems s) (s_owner s) (ctime s) t (create_tick s) (sems s).
Definition with_value (u : sem_unit) (v : Z) : sem_unit :=
  mk_unit v (wait_cnt u) (wait_zero u) (last_pid u).
Definition add_blocks (st : sem_stats) (b w : Z) : sem_stats :=
  mk_stats (total_sets st) (total_sems st) (total_ops st) (u32 (total_blocks st + b))
    (u32 (total_wakeups st + w)) (total_undo_ops st).
Definition add_ops (st : sem_stats) (o d : Z) : sem_stats :=
  mk_stats (total_sets st) (total_sems st) (u32 (total_ops st + o)) (total_blocks st)
    (total_wakeups st) (u32 (total_undo_ops st + d)).
Definition add_set (st : sem_stats) (n : Z) : sem_stats :=
  mk_stats (u32 (total_sets st + 1)) (u32 (total_sems st + n)) (total_ops st)
    (total_blocks st) (total_wakeups st) (total_undo_ops st).

(** ** Internal helpers *)

(** The index of the set, [None] for [NULL]. *)
Definition ipc_sem_find_internal (g : g_sem) (semid : Z) : option sem_set :=
  if (semid <? 0) || (IPC_SEM_MAX_SETS <=? semid) then None
  else let s := (sets g).[semid] in if c_true (in_use s) then Some s else None.

Definition ipc_sem_find_by_key_internal (g : g_sem) (k : Z) : option Z :=
  if k =? 0 then None
  else List.find (fun i => c_true (in_use ((sets g).[i])) && (key ((sets g).[i]) =? k))
         (range 0 IPC_SEM_MAX_SETS).

Definition undo_matches (pid semid num : Z) (r : sem_undo) : bool :=
  (u_pid r =? pid) && (u_semid r =? semid) && (u_sem_num r =? num).

Definition ipc_sem_undo_record (pid semid num op : Z) (g : g_sem) : g_sem :=
  if op =? 0 then g
  else
    match List.find (fun i => undo_matches pid semid num ((undo g).[i])) (range 0 (undo_count g)) with
    | Some i =>
        let r := (undo g).[i] in
        mk_g (sets g)
          ((undo g).[i <- mk_undo (u_pid r) (u_semid r) (u_sem_num r) (s16 (adjval r - op))])
          (undo_count g) (stats g)
    | None =>
        if IPC_SEM_MAX_UNDO <=? undo_count g then g
        else mk_g (sets g) ((undo g).[undo_count g <- mk_undo pid semid num (s16 (- op))])
               (u32 (undo_count g + 1)) (stats g)
    end.

(** ** Public operations *)

Definition ipc_semget (k n cur_pid tick : Z) (g : g_sem) : Z * g_sem :=
  if (n <=? 0) || (IPC_SEM_MAX_NSEMS <? n) then (-1, g)
  else
    match (if k =? 0 then None else ipc_sem_find_by_key_internal g k) with
    | Some i => if nsems ((sets g).[i]) <? n then (-2, g) else (i, g)
    | None =>
        match List.find (fun i => negb (c_true (in_use ((sets g).[i])))) (range 0 IPC_SEM_MAX_SETS) with
        | Some i =>
            (i, set_stats
                  (set_sets g i (mk_set 1 k n cur_pid tick 0 tick (sems zero_set)))
                  (add_set (stats g) n))
        | None => (-3, g)
        end
    end.

(** What the scan at [retry_check] finds: every operation can proceed, an index
    is out of range, or the operation on semaphore [num] has to wait, for zero
    or for a larger value. *)
Inductive check_result := CheckOk | CheckRange | CheckWait (zero : bool) (num : Z).

Fixpoint semop_check (s : sem_set) (sops : list sembuf) : check_result :=
  match sops with
  | [] => CheckOk
  | o :: sops =>
      if nsems s <=? sem_num o then CheckRange
      else
        let sem := (sems s).[sem_num o] in
        if sem_op o =? 0 then
          if negb (value sem =? 0) then CheckWait true (sem_num o) else semop_check s sops
        else if sem_op o <? 0 then
          if value sem + sem_op o <? 0 then CheckWait false (sem_num o) else semop_check s sops
        else semop_check s sops
  end.

(** The loop that performs the operations, [set] being the set's index. *)
Definition semop_apply1 (cur_pid semid : Z) (use_undo : bool) (g : g_sem) (o : sembuf) : g_sem :=
  let s := (sets g).[semid] in
  let sem := (sems s).[sem_num o] in
  let sem' := mk_unit (s16 (value sem + sem_op o)) (wait_cnt sem) (wait_zero sem) cur_pid in
  let g' := set_sets g semid (with_sems s ((sems s).[sem_num o <- sem'])) in
  if use_undo && negb (sem_op o =? 0) then
    let g'' := ipc_sem_undo_record cur_pid semid (sem_num o) (sem_op o) g' in
    set_stats g'' (add_ops (stats g'') 0 1)
  else g'.

Definition semop_apply (cur_pid semid tick : Z) (use_undo : bool) (sops : list sembuf) (g : g_sem)
    : g_sem :=
  let g1 := foldl (semop_apply1 cur_pid semid use_undo) g sops in
  let g2 := set_sets g1 semid (with_otime ((sets g1).[semid]) tick) in
  set_stats g2 (add_ops (stats g2) 1 0).

Inductive semop_outcome := SemRet (r : Z) | SemWait (zero : bool) (num : Z).

#[export] Instance semop_outcome_eq_dec : EqDecision semop_outcome.
Proof. solve_decision. Defined.

Definition has_flag (f : Z) (sops : list sembuf) : bool :=
  existsb (fun o => c_true (Z.land (sem_flg o) f)) sops.

Definition wait_add (zero : bool) (d : Z) (u : sem_unit) : sem_unit :=
  if zero then mk_unit (value u) (wait_cnt u) (u16 (wait_zero u + d)) (last_pid u)
  else mk_unit (value u) (u16 (wait_cnt u + d)) (wait_zero u) (last_pid u).

(** From [retry_check] to the return or to the busy-wait. *)
Definition semop_try (semid : Z) (sops : list sembuf) (cur_pid tick : Z) (g : g_sem)
    : semop_outcome * g_sem :=
  let s := (sets g).[semid] in
  match semop_check s sops with
  | CheckRange => (SemRet (-3), g)
  | CheckWait zero num =>
      if has_flag SEM_NOWAIT sops then (SemRet (-1), g)
      else
        let g1 := set_sets g semid
          (with_sems s ((sems s).[num <- wait_add zero 1 ((sems s).[num])])) in
        (SemWait zero num, set_stats g1 (add_blocks (stats g1) 1 0))
  | CheckOk => (SemRet 0, semop_apply cur_pid semid tick (has_flag SEM_UNDO sops) sops g)
  end.

(** [sops = None] is the null pointer. *)
Definition ipc_semop (semid : Z) (sops : option (list sembuf)) (cur_pid tick : Z) (g : g_sem)
    : semop_outcome * g_sem :=
  match sops with
  | None | Some [] => (SemRet (-1), g)
  | Some sops =>
      match ipc_sem_find_internal g semid with
      | None => (SemRet (-2), g)
      | Some _ => semop_try semid sops cur_pid tick g
      end
  end.

(** After the busy-wait on semaphore [num]. *)
Definition ipc_semop_resume (zero : bool) (num semid : Z) (sops : list sembuf) (cur_pid tick : Z)
    (g : g_sem) : semop_outcome * g_sem :=
  let s := (sets g).[semid] in
  let g1 := set_sets g semid
    (with_sems s ((sems s).[num <- wait_add zero (-1) ((sems s).[num])])) in
  semop_try semid sops cur_pid tick (set_stats g1 (add_blocks (stats g1) 0 1)).

(** [arg], the words it points to. *)
Definition ipc_semctl (semid semnum cmd : Z) (arg : option (list Z)) (tick : Z) (g : g_sem)
    : Z * list Z * option semid_ds * g_sem :=
  match ipc_sem_find_internal g semid with
  | None => (-2, [], None, g)
  | Some s =>
      let bad := (semnum <? 0) || (nsems s <=? semnum) in
      let sem := (sems s).[semnum] in
      match cmd with
      | 1 => if bad then (-3, [], None, g) else (value sem, [], None, g)
      | 2 => match arg with
             | Some a =>
                 if bad then (-3, [], None, g)
                 else (0, [], None, set_sets g semid
                         (with_ctime (with_sems s ((sems s).[semnum <- with_value sem (s16 (a.[0]))])) tick))
             | None => (-3, [], None, g)
             end
      | 3 => if bad then (-3, [], None, g) else (last_pid sem, [], None, g)
      | 4 => if bad then (-3, [], None, g) else (wait_cnt sem, [], None, g)
      | 5 => if bad then (-3, [], None, g) else (wait_zero sem, [], None, g)
      | 6 => match arg with
             | Some _ => (0, (fun i => u16 (value ((sems s).[i]))) <$> range 0 (nsems s), None, g)
             | None => (-3, [], None, g)
             end
      | 7 => match arg with
             | Some a =>
                 let units := foldl (fun l i => l.[i <- with_value (l.[i]) (s16 (a.[i]))]) (sems s)
                                (range 0 (nsems s)) in
                 (0, [], None, set_sets g semid (with_ctime (with_sems s units) tick))
             | None => (-3, [], None, g)
             end
      | 8 => (0, [], None, set_sets g semid zero_set)
      | 9 => (0, [], match arg with
                     | Some _ => Some (mk_ds (key s) (nsems s) (s_owner s) (ctime s) (otime s)
                                         (create_tick s))
                     | None => None
                     end, g)
      | _ => (-4, [], None, g)
      end
  end.

Definition ipc_sem_find_by_key (k : Z) (g : g_sem) : Z :=
  if k =? 0 then -1 else default (-1) (ipc_sem_find_by_key_internal g k).

Definition set_ds (s : sem_set) : semid_ds :=
  mk_ds (key s) (nsems s) (s_owner s) (ctime s) (otime s) (create_tick s).

(** The entries written to a non-null [out]; their number is the result. *)
Definition ipc_sem_list (max_count : Z) (g : g_sem) : list semid_ds :=
  take (Z.to_nat max_count) (set_ds <$> List.filter (fun s => c_true (in_use s)) (sets g)).

Definition ipc_sem_get_stats (g : g_sem) : sem_stats := stats g.
Definition ipc_sem_reset_stats (g : g_sem) : g_sem := set_stats g zero_stats.

(** One matching record: give the adjustment back and fill the hole with the
    last record. *)
Definition undo_apply (g : g_sem) (r : sem_undo) : g_sem :=
  match ipc_sem_find_internal g (u_semid r) with
  | Some s =>
      if u_sem_num r <? nsems s then
        let sem := (sems s).[u_sem_num r] in
        set_sets g (u_semid r)
          (with_sems s ((sems s).[u_sem_num r <- with_value sem (s16 (value sem + adjval r))]))
      else g
  | None => g
  end.

Definition undo_remove (g : g_sem) (i : Z) : g_sem :=
  mk_g (sets g)
    (if i <? undo_count g - 1 then (undo g).[i <- (undo g).[undo_count g - 1]] else undo g)
    (undo_count g - 1) (stats g).

(** The loop over the records; after a removal that moved a record into the
    hole, [i--] and [i++] leave [i] where it is, and after the removal of the
    last record the loop ends.  Each iteration advances [i] or shrinks
    [undo_count], so [undo_count] iterations are enough. *)
Fixpoint undo_loop (fuel : nat) (pid i : Z) (g : g_sem) : g_sem :=
  match fuel with
  | O => g
  | S fuel =>
      if i <? undo_count g then
        let r := (undo g).[i] in
        if negb (u_pid r =? pid) then undo_loop fuel pid (i + 1) g
        else undo_loop fuel pid i (undo_remove (undo_apply g r) i)
      else g
  end.

Definition ipc_sem_undo_exit (pid : Z) (g : g_sem) : g_sem :=
  undo_loop (Z.to_nat (undo_count g)) pid 0 g.


(** ** Specification *)

Definition value_of (g : g_sem) (i k : Z) : Z := value ((sems ((sets g).[i])).[k]).

(** The undo records in use. *)
Definition active (g : g_sem) : list sem_undo := take (Z.to_nat (undo_count g)) (undo g).

Definition record_adj (pid i k : Z) (r : sem_undo) : Z :=
  if undo_matches pid i k r then adjval r else 0.

(** What the exit of [pid] gives back to semaphore [k] of set [i]. *)
Definition balance (g : g_sem) (pid i k : Z) : Z := zsum (record_adj pid i k <$> active g).

(** What [sops] adds to semaphore [k]. *)
Definition ops_sum (k : Z) (sops : list sembuf) : Z :=
  zsum ((fun o => if sem_num o =? k then sem_op o else 0) <$> sops).

Definition unit_ok (u : sem_unit) : Prop := - 2 ^ 15 <= value u < 2 ^ 15.
Definition set_ok (s : sem_set) : Prop :=
  zlen (sems s) = IPC_SEM_MAX_NSEMS /\ 0 <= nsems s <= IPC_SEM_MAX_NSEMS /\ Forall unit_ok (sems s).

Record sem_inv (g : g_sem) : Prop := {
  si_sets : zlen (sets g) = IPC_SEM_MAX_SETS;
  si_set : Forall set_ok (sets g);
  si_undo : zlen (undo g) = IPC_SEM_MAX_UNDO;
  si_count : 0 <= undo_count g <= IPC_SEM_MAX_UNDO;
  si_nums : Forall (fun r => 0 <= u_sem_num r) (active g);
}.

Definition valid_id (i : Z) : Prop := 0 <= i < IPC_SEM_MAX_SETS.
Definition valid_num (k : Z) : Prop := 0 <= k < IPC_SEM_MAX_NSEMS.

(** ** Sets *)

Lemma inv_set (g : g_sem) (i : Z) : sem_inv g -> valid_id i -> set_ok ((sets g).[i]).
Proof. intros [] Hi. apply aget_Forall; [done|]. unfold valid_id in Hi. lia. Qed.

Lemma inv_value (g : g_sem) (i k : Z) :
  sem_inv g -> valid_id i -> valid_num k -> - 2 ^ 15 <= value_of g i k < 2 ^ 15.
Proof.
  intros Hg Hi Hk. destruct (inv_set g i Hg Hi) as (Hl & _ & Hu).
  apply (aget_Forall unit_ok); [done|]. unfold valid_num in Hk. lia.
Qed.

Lemma set_sets_inv (g : g_sem) (i : Z) (s : sem_set) :
  sem_inv g -> set_ok s -> sem_inv (set_sets g i s).
Proof.
  intros [] Hs. constructor; simpl; try done; [by rewrite zlen_aset|by apply aset_Forall].
Qed.

Lemma set_stats_inv (g : g_sem) (st : sem_stats) : sem_inv g -> sem_inv (set_stats g st).
Proof. intros []. by constructor. Qed.

(** Writing the value of one semaphore. *)
Lemma with_value_ok (s : sem_set) (k : Z) (u : sem_unit) :
  set_ok s -> unit_ok u -> set_ok (with_sems s ((sems s).[k <- u])).
Proof.
  intros (Hl & Hn & Hu) Hv. repeat split; simpl; try apply Hn; [by rewrite zlen_aset|].
  by apply aset_Forall.
Qed.

Lemma write_unit (g : g_sem) (i k : Z) (u : sem_unit) (i' k' : Z) :
  sem_inv g -> valid_id i -> valid_num k -> valid_id i' -> valid_num k' ->
  let g' := set_sets g i (with_sems ((sets g).[i]) ((sems ((sets g).[i])).[k <- u])) in
  value_of g' i' k' = if (i' =? i) && (k' =? k) then value u else value_of g i' k'.
Proof.
  intros Hg Hi Hk Hi' Hk'. destruct (inv_set g i Hg Hi) as (Hl & _ & _). destruct Hg.
  unfold value_of, valid_id, valid_num in *. cbn [set_sets sets].
  destruct (Z.eqb_spec i' i) as [->|]; simpl.
  - rewrite aget_aset_eq by lia. simpl. destruct (Z.eqb_spec k' k) as [->|].
    + by rewrite aget_aset_eq by lia.
    + by rewrite aget_aset_ne by lia.
  - by rewrite aget_aset_ne by lia.
Qed.

(** Two states agree on which sets are live and how large they are. *)
Definition same_sets (g g' : g_sem) : Prop :=
  forall i, valid_id i ->
    in_use ((sets g').[i]) = in_use ((sets g).[i]) /\ nsems ((sets g').[i]) = nsems ((sets g).[i]).

#[export] Instance same_sets_pre : PreOrder same_sets.
Proof.
  split; [done|]. intros g1 g2 g3 H1 H2 i Hi. destruct (H1 i Hi), (H2 i Hi). split; congruence.
Qed.

Lemma set_sets_same (g : g_sem) (i : Z) (s : sem_set) :
  sem_inv g -> valid_id i -> in_use s = in_use ((sets g).[i]) -> nsems s = nsems ((sets g).[i]) ->
  same_sets g (set_sets g i s).
Proof.
  intros [] Hi Hu Hn j Hj. unfold valid_id in *. cbn [set_sets sets].
  destruct (decide (j = i)) as [->|].
  - by rewrite aget_aset_eq by lia.
  - by rewrite aget_aset_ne by lia.
Qed.

(** ** Undo records *)

Lemma undo_active_lookup (g : g_sem) (i : Z) :
  sem_inv g -> 0 <= i < undo_count g -> active g !! Z.to_nat i = Some ((undo g).[i]).
Proof.
  intros [] Hi. unfold active. rewrite lookup_take_lt by lia. unfold aget.
  apply list_lookup_lookup_total_lt. unfold zlen in *. lia.
Qed.

Lemma zlen_active (g : g_sem) : sem_inv g -> zlen (active g) = undo_count g.
Proof. intros []. unfold active, zlen in *. rewrite length_take. lia. Qed.

(** Recording [op] moves the balance of its key by [-op] and no other. *)
Lemma undo_record_spec (pid i k op : Z) (g : g_sem) :
  sem_inv g -> undo_count g < IPC_SEM_MAX_UNDO -> 0 <= k ->
  let g' := ipc_sem_undo_record pid i k op g in
  sem_inv g' /\ sets g' = sets g /\ undo_count g' <= undo_count g + 1 /\
  s16 (balance g' pid i k) = s16 (balance g pid i k - op) /\
  forall pid' i' k', (pid', i', k') <> (pid, i, k) -> balance g' pid' i' k' = balance g pid' i' k'.
Proof.
  intros Hg Hc Hk. unfold ipc_sem_undo_record.
  destruct (Z.eqb_spec op 0) as [->|Hop].
  { rewrite Z.sub_0_r. split_and!; try done; lia. }
  pose proof (find_range (fun j => undo_matches pid i k ((undo g).[j])) 0 (undo_count g)) as E.
  destruct (List.find _ _) as [j|].
  - destruct E as (Hj & Hm & _). pose proof (undo_active_lookup g j Hg Hj) as Hl.
    set (r := (undo g).[j]) in *. set (r' := mk_undo _ _ _ _). cbv zeta.
    set (g' := mk_g _ _ _ _). assert (active g' = <[Z.to_nat j := r']> (active g)) as Ha.
    { unfold active, g', aset. cbn. rewrite take_insert_lt by lia. done. }
    assert (forall p i' k', undo_matches p i' k' r' = undo_matches p i' k' r) as Hmm by done.
    split_and!; try done; try (cbn; lia).
    + destruct Hg. constructor; try done; [unfold g'; cbn; by rewrite zlen_aset|]. rewrite Ha.
      apply Forall_insert; [done|]. by apply (Forall_lookup_1 _ _ _ _ si_nums0 Hl).
    + unfold balance. rewrite Ha, (zsum_insert _ _ _ _ _ Hl).
      assert (record_adj pid i k r = adjval r) as -> by (unfold record_adj; by rewrite Hm).
      assert (record_adj pid i k r' = s16 (adjval r - op)) as ->
        by (unfold record_adj; by rewrite Hmm, Hm).
      rewrite s16_add_r. f_equal. lia.
    + intros p i' k' Hne. unfold balance. rewrite Ha, (zsum_insert _ _ _ _ _ Hl).
      assert (undo_matches p i' k' r = false) as Hf.
      { apply not_true_iff_false. intros Ht. apply Hne. unfold undo_matches in *.
        zbool. by subst. }
      unfold record_adj at 2 3. rewrite Hmm, Hf. lia.
  - rewrite (proj2 (Z.leb_gt _ _)) by done. cbv zeta.
    set (r' := mk_undo _ _ _ _). set (g' := mk_g _ _ _ _).
    assert (undo_count g' = undo_count g + 1) as Hc'.
    { cbn. apply u32_small. unfold is_u32, IPC_SEM_MAX_UNDO in *. destruct Hg. lia. }
    assert (active g' = active g ++ [r']) as Ha.
    { unfold active. rewrite Hc'. replace (Z.to_nat (undo_count g + 1))
        with (S (Z.to_nat (undo_count g))) by (destruct Hg; lia).
      unfold g', aset. cbn [undo]. destruct Hg. unfold zlen in *.
      rewrite (take_S_r _ _ r'); [|apply list_lookup_insert_eq; unfold IPC_SEM_MAX_UNDO in *; lia].
      by rewrite take_insert_ge by lia. }
    assert (forall p i' k', balance g' p i' k' = balance g p i' k' + record_adj p i' k' r') as Hb.
    { intros. unfold balance. rewrite Ha, fmap_app, zsum_app. unfold zsum. simpl. lia. }
    split_and!; try done; try lia.
    + destruct Hg. constructor; try done; [unfold g'; cbn; by rewrite zlen_aset|lia|]. rewrite Ha.
      apply Forall_app. split; [done|]. by apply Forall_singleton.
    + rewrite Hb. unfold record_adj, undo_matches. simpl. rewrite !Z.eqb_refl. simpl.
      by rewrite s16_add_r.
    + intros p i' k' Hne. rewrite Hb. unfold record_adj.
      destruct (undo_matches p i' k' r') eqn:Ht; [|lia]. exfalso. apply Hne.
      unfold undo_matches in Ht. simpl in Ht. zbool. by subst.
Qed.


(** ** semop *)

(** The values and balances a list of operations leaves. *)
Record applied (pid semid : Z) (use_undo : bool) (sops : list sembuf) (g g' : g_sem) : Prop := {
  ap_inv : sem_inv g';
  ap_sets : same_sets g g';
  ap_value : forall i k, valid_id i -> valid_num k ->
    value_of g' i k =
    s16 (value_of g i k + if i =? semid then ops_sum k sops else 0);
  ap_count : undo_count g' <= undo_count g + zlen sops;
  ap_balance : use_undo = true -> undo_count g + zlen sops <= IPC_SEM_MAX_UNDO ->
    forall i k, s16 (balance g' pid i k) =
      s16 (balance g pid i k - if i =? semid then ops_sum k sops else 0);
}.

Lemma undo_record_any (pid i k op : Z) (g : g_sem) :
  sem_inv g -> 0 <= k ->
  let g' := ipc_sem_undo_record pid i k op g in
  sem_inv g' /\ sets g' = sets g /\ undo_count g' <= undo_count g + 1.
Proof.
  intros Hg Hk. destruct (Z.lt_ge_cases (undo_count g) IPC_SEM_MAX_UNDO) as [Hc|Hc].
  { destruct (undo_record_spec pid i k op g Hg Hc Hk) as (? & ? & ? & _). done. }
  unfold ipc_sem_undo_record. destruct (op =? 0); [split_and!; done || (cbn; lia)|].
  pose proof (find_range (fun j => undo_matches pid i k ((undo g).[j])) 0 (undo_count g)) as E.
  destruct (List.find _ _) as [j|].
  - destruct E as (Hj & _). pose proof (undo_active_lookup g j Hg Hj) as Hl. cbv zeta.
    destruct Hg. split_and!; [|done|cbn; lia]. constructor; try done.
    + cbn. by rewrite zlen_aset.
    + unfold active, aset. cbn. rewrite take_insert_lt by lia. apply Forall_insert; [done|].
      by apply (Forall_lookup_1 _ _ _ _ si_nums0 Hl).
  - rewrite (proj2 (Z.leb_le _ _)) by done. split_and!; done || (cbn; lia).
Qed.

Lemma apply1_spec (pid semid : Z) (use_undo : bool) (g : g_sem) (o : sembuf) :
  sem_inv g -> valid_id semid -> valid_num (sem_num o) ->
  applied pid semid use_undo [o] g (semop_apply1 pid semid use_undo g o).
Proof.
  intros Hg Hi Hk. unfold semop_apply1. set (u := mk_unit _ _ _ _).
  set (g1 := set_sets _ _ _).
  pose proof (inv_set g semid Hg Hi) as Hs.
  assert (sem_inv g1) as Hg1 by (apply set_sets_inv, with_value_ok; auto; apply s16_range).
  assert (same_sets g g1) as Hss by (by apply set_sets_same).
  assert (forall i k, valid_id i -> valid_num k -> value_of g1 i k =
    s16 (value_of g i k + if i =? semid then ops_sum k [o] else 0)) as Hv.
  { intros i k Hi' Hk'. unfold g1. rewrite write_unit by done.
    pose proof (inv_value g i k Hg Hi' Hk') as Hr. unfold ops_sum, zsum. simpl.
    rewrite (Z.eqb_sym (sem_num o) k), Z.add_0_r.
    destruct (Z.eqb_spec i semid) as [->|]; simpl; [|by rewrite Z.add_0_r, s16_small].
    destruct (Z.eqb_spec k (sem_num o)) as [->|]; [done|by rewrite Z.add_0_r, s16_small]. }
  assert (forall i k, balance g1 pid i k = balance g pid i k) as Hb by done.
  destruct use_undo; [destruct (Z.eqb_spec (sem_op o) 0) as [Ho|Ho]|]; simpl.
  - constructor; auto; [cbn; pose proof (zlen_nonneg [o]); lia|]. intros _ _ i k. rewrite Hb.
    unfold ops_sum, zsum. simpl. rewrite Ho. f_equal. by repeat case_if; lia.
  - set (g2 := ipc_sem_undo_record _ _ _ _ _).
    destruct (undo_record_any pid semid (sem_num o) (sem_op o) g1 Hg1) as (Hg2 & Hsets & Hc);
      [unfold valid_num in Hk; lia|].
    assert (zlen [o] = 1) as Hlen by done.
    constructor.
    + by apply set_stats_inv.
    + intros i Hi'. cbn. fold g2 in Hsets. rewrite Hsets. by apply Hss.
    + intros i k ? ?. rewrite <-Hv by done. unfold value_of. cbn. fold g2 in Hsets.
      by rewrite Hsets.
    + change (undo_count g1) with (undo_count g) in Hc.
      change (undo_count g2 <= undo_count g + zlen [o]). unfold g2. lia.
    + intros _ Hroom i k. destruct (undo_record_spec pid semid (sem_num o) (sem_op o) g1 Hg1)
        as (_ & _ & _ & Heq & Hne); [cbn; lia|unfold valid_num in Hk; lia|].
      change (balance (set_stats _ _) pid i k) with (balance g2 pid i k).
      unfold ops_sum, zsum. simpl. rewrite Z.add_0_r.
      destruct (Z.eqb_spec i semid) as [->|]; [destruct (Z.eqb_spec (sem_num o) k) as [<-|]|].
      * by rewrite <-Hb.
      * unfold g2. rewrite Hne by congruence. by rewrite Z.sub_0_r.
      * unfold g2. rewrite Hne by congruence. by rewrite Z.sub_0_r.
  - constructor; auto; [cbn; pose proof (zlen_nonneg [o]); lia|done].
Qed.

Lemma foldl_applied (pid semid : Z) (use_undo : bool) (sops : list sembuf) (g : g_sem) :
  sem_inv g -> valid_id semid -> Forall (fun o => valid_num (sem_num o)) sops ->
  applied pid semid use_undo sops g (foldl (semop_apply1 pid semid use_undo) g sops).
Proof.
  intros Hg Hi Hs. revert g Hg. induction Hs as [|o sops Ho Hs IH]; intros g Hg; simpl.
  - constructor; [done..| |rewrite zlen_nil; lia|].
    + intros i k Hi' Hk'. unfold ops_sum, zsum. simpl. rewrite s16_small; [case_if; lia|].
      pose proof (inv_value g i k Hg Hi' Hk'). case_if; lia.
    + intros _ _ i k. f_equal. change (ops_sum k []) with 0. destruct (i =? semid); lia.
  - destruct (apply1_spec pid semid use_undo g o Hg Hi Ho) as [H1 H2 H3 H4 H5].
    set (g1 := semop_apply1 _ _ _ _ _) in *. destruct (IH g1 H1) as [J1 J2 J3 J4 J5].
    assert (forall k, ops_sum k (o :: sops) = ops_sum k [o] + ops_sum k sops) as Hsum.
    { intros k. unfold ops_sum. change (o :: sops) with ([o] ++ sops).
      by rewrite fmap_app, zsum_app. }
    assert (zlen [o] = 1) as Hlen by done. pose proof (zlen_cons o sops). pose proof (zlen_nonneg sops).
    constructor; [done|by transitivity g1| |lia|].
    + intros i k ? ?. rewrite J3, H3, s16_add_l, Hsum by done. f_equal. case_if; lia.
    + intros Hu Hroom i k. rewrite J5 by (done || lia).
      rewrite Hsum. pose proof (H5 Hu ltac:(lia) i k) as H6.
      unfold Z.sub at 1. rewrite <-s16_add_l, H6, s16_add_l. f_equal. case_if; lia.
Qed.

Lemma semop_apply_applied (pid semid tick : Z) (use_undo : bool) (sops : list sembuf) (g : g_sem) :
  sem_inv g -> valid_id semid -> Forall (fun o => valid_num (sem_num o)) sops ->
  applied pid semid use_undo sops g (semop_apply pid semid tick use_undo sops g).
Proof.
  intros Hg Hi Hs. unfold semop_apply.
  destruct (foldl_applied pid semid use_undo sops g Hg Hi Hs) as [H1 H2 H3 H4 H5].
  set (g1 := foldl _ _ _) in *. set (g2 := set_sets _ _ _).
  assert (forall i k, valid_id i -> value_of g2 i k = value_of g1 i k) as Hv.
  { intros i k Hi'. unfold value_of, g2. cbn. unfold valid_id in *.
    destruct H1. destruct (decide (i = semid)) as [->|].
    - by rewrite aget_aset_eq by lia.
    - by rewrite aget_aset_ne by lia. }
  constructor.
  - by apply set_stats_inv, set_sets_inv, (inv_set g1).
  - transitivity g1; [done|]. by apply (set_sets_same g1).
  - intros i k ? ?. rewrite <-H3 by done. by apply Hv.
  - done.
  - exact H5.
Qed.

Lemma check_ok (s : sem_set) (sops : list sembuf) :
  semop_check s sops = CheckOk ->
  Forall (fun o => sem_num o < nsems s /\
    (sem_op o = 0 -> value ((sems s).[sem_num o]) = 0) /\
    (sem_op o < 0 -> 0 <= value ((sems s).[sem_num o]) + sem_op o)) sops.
Proof.
  induction sops as [|o sops IH]; simpl; intros H; [constructor|].
  repeat case_if; try done; constructor; auto; (split_and!; [lia|intros; lia..]).
Qed.

Lemma find_internal_Some (g : g_sem) (i : Z) (s : sem_set) :
  ipc_sem_find_internal g i = Some s ->
  valid_id i /\ s = (sets g).[i] /\ c_true (in_use s) = true.
Proof.
  unfold ipc_sem_find_internal, valid_id. intros H. repeat case_if; simplify_eq.
  split_and!; done || lia.
Qed.


(** ** Process exit *)

(** Semaphore [k] of set [i] exists. *)
Definition live (g : g_sem) (i k : Z) : bool :=
  c_true (in_use ((sets g).[i])) && (k <? nsems ((sets g).[i])).

Lemma same_sets_live (g g' : g_sem) (i k : Z) :
  same_sets g g' -> valid_id i -> live g' i k = live g i k.
Proof. intros H Hi. destruct (H i Hi) as [H1 H2]. unfold live. by rewrite H1, H2. Qed.

Lemma undo_apply_spec (g : g_sem) (r : sem_undo) :
  sem_inv g -> 0 <= u_sem_num r ->
  let g' := undo_apply g r in
  sem_inv g' /\ same_sets g g' /\ undo g' = undo g /\ undo_count g' = undo_count g /\
  forall i k, valid_id i -> valid_num k -> value_of g' i k =
    s16 (value_of g i k +
         if (u_semid r =? i) && (u_sem_num r =? k) && live g i k then adjval r else 0).
Proof.
  intros Hg Hk. unfold undo_apply. pose proof (inv_value g) as Hr.
  assert (forall i k, valid_id i -> valid_num k -> s16 (value_of g i k + 0) = value_of g i k) as Hsm
    by (intros; rewrite Z.add_0_r; apply s16_small; auto).
  destruct (ipc_sem_find_internal g (u_semid r)) as [s|] eqn:E.
  - apply find_internal_Some in E as (Hi & -> & Hu).
    destruct (inv_set g _ Hg Hi) as (Hl & Hn & Hf).
    destruct (Z.ltb_spec (u_sem_num r) (nsems ((sets g).[u_semid r]))).
    + assert (valid_num (u_sem_num r)) by (unfold valid_num; lia).
      split_and!; try done.
      * apply set_sets_inv, with_value_ok; try done. apply s16_range.
      * by apply set_sets_same.
      * intros i k Hi' Hk'. rewrite write_unit by done. rewrite (Z.eqb_sym i), (Z.eqb_sym k).
        destruct (Z.eqb_spec (u_semid r) i) as [<-|]; simpl; [|by rewrite Hsm].
        destruct (Z.eqb_spec (u_sem_num r) k) as [<-|]; simpl; [|by rewrite Hsm].
        unfold live. rewrite Hu, (proj2 (Z.ltb_lt _ _)) by done. done.
    + split_and!; try done. intros i k Hi' Hk'. rewrite <-Hsm at 1 by done. do 2 f_equal.
      destruct (Z.eqb_spec (u_semid r) i) as [<-|]; simpl; [|done].
      destruct (Z.eqb_spec (u_sem_num r) k) as [<-|]; simpl; [|done].
      unfold live. by rewrite (proj2 (Z.ltb_ge _ _)), andb_false_r.
  - split_and!; try done. intros i k Hi' Hk'. rewrite <-Hsm at 1 by done. do 2 f_equal.
    destruct (Z.eqb_spec (u_semid r) i) as [<-|]; simpl; [|done].
    unfold ipc_sem_find_internal in E. unfold valid_id in Hi'. unfold live. simpl.
    repeat case_if; zbool; try done; try lia.
Qed.

Lemma undo_remove_spec (g : g_sem) (i : Z) :
  sem_inv g -> 0 <= i < undo_count g ->
  let g' := undo_remove g i in
  sem_inv g' /\ sets g' = sets g /\ undo_count g' = undo_count g - 1 /\
  active g ≡ₚ (undo g).[i] :: active g' /\
  forall j, 0 <= j < i -> (undo g').[j] = (undo g).[j].
Proof.
  intros Hg Hi. cbv zeta. set (g' := undo_remove g i).
  assert (exists y, active g = take (Z.to_nat (undo_count g - 1)) (undo g) ++ [y] /\
    y = (undo g).[undo_count g - 1]) as (y & Hy & Hye).
  { unfold active. replace (Z.to_nat (undo_count g)) with (S (Z.to_nat (undo_count g - 1))) by lia.
    eexists. split; [|done]. apply take_S_r. unfold aget. destruct Hg. unfold zlen in *.
    apply list_lookup_lookup_total_lt. lia. }
  assert (active g ≡ₚ (undo g).[i] :: active g') as Hperm.
  { unfold g', undo_remove, active at 2. cbn [undo undo_count].
    destruct (Z.ltb_spec i (undo_count g - 1)).
    - rewrite Hy. unfold aset. rewrite take_insert_lt by lia. rewrite <-Hye.
      apply swap_remove_Permutation. rewrite lookup_take_lt by lia. unfold aget.
      apply list_lookup_lookup_total_lt. destruct Hg. unfold zlen in *. lia.
    - assert (i = undo_count g - 1) as -> by lia. rewrite Hy, <-Hye. solve_Permutation. }
  split_and!; try done.
  - destruct Hg. constructor; cbn; try done; try lia.
    + case_if; [by rewrite zlen_aset|done].
    + rewrite Hperm in si_nums0. by apply Forall_cons in si_nums0 as [_ ?].
  - intros j Hj. cbn. case_if; [by rewrite aget_aset_ne by lia|done].
Qed.

(** The state when no record of [pid] is left. *)
Lemma undo_finished (pid i : Z) (g : g_sem) :
  sem_inv g -> undo_count g <= i -> (forall j, 0 <= j < i -> u_pid ((undo g).[j]) <> pid) ->
  active g = filter (fun r => u_pid r <> pid) (active g) /\
  forall i k, valid_id i -> valid_num k ->
    value_of g i k = s16 (value_of g i k + if live g i k then balance g pid i k else 0).
Proof.
  intros Hg Hc Hpre. assert (Forall (fun r => u_pid r <> pid) (active g)) as Hall.
  { apply Forall_lookup_2. intros j r Hj. pose proof (lookup_lt_Some _ _ _ Hj).
    pose proof (zlen_active g Hg). unfold zlen in *.
    pose proof (undo_active_lookup g (Z.of_nat j) Hg ltac:(lia)) as Hl.
    rewrite Nat2Z.id in Hl. simplify_eq. apply Hpre. lia. }
  split; [by rewrite filter_id|]. intros x k Hx Hk.
  rewrite <-(s16_small (value_of g x k)) at 1 by (by apply inv_value). f_equal.
  unfold balance. rewrite zsum_zero; [destruct (live g x k); lia|].
  intros r Hr. rewrite Forall_forall in Hall. unfold record_adj, undo_matches.
  by rewrite (proj2 (Z.eqb_neq _ _)) by (by apply Hall).
Qed.

Lemma undo_loop_spec (fuel : nat) (pid i : Z) (g : g_sem) :
  sem_inv g -> 0 <= i <= undo_count g -> undo_count g - i <= Z.of_nat fuel ->
  (forall j, 0 <= j < i -> u_pid ((undo g).[j]) <> pid) ->
  let g' := undo_loop fuel pid i g in
  sem_inv g' /\ same_sets g g' /\
  active g' ≡ₚ filter (fun r => u_pid r <> pid) (active g) /\
  forall i k, valid_id i -> valid_num k ->
    value_of g' i k = s16 (value_of g i k + if live g i k then balance g pid i k else 0).
Proof.
  revert i g. induction fuel as [|fuel IH]; intros i g Hg Hi Hf Hpre; cbn [undo_loop].
  2: destruct (Z.ltb_spec i (undo_count g)) as [Hlt|Hge].
  2: { destruct (Z.eqb_spec (u_pid ((undo g).[i])) pid) as [Hp|Hp]; cbn [negb].
    - set (r := (undo g).[i]) in *. pose proof (undo_active_lookup g i Hg ltac:(lia)) as Hr.
      assert (0 <= u_sem_num r) as Hnum.
      { destruct Hg. by apply (Forall_lookup_1 _ _ _ _ si_nums0 Hr). }
      destruct (undo_apply_spec g r Hg Hnum) as (Hg1 & Hs1 & Hu1 & Hc1 & Hv1).
      set (g1 := undo_apply g r) in *.
      destruct (undo_remove_spec g1 i Hg1 ltac:(lia)) as (Hg2 & Hs2 & Hc2 & Hp2 & Hpre2).
      set (g2 := undo_remove g1 i) in *. rewrite Hu1 in Hp2, Hpre2.
      assert (active g1 = active g) as Ha by (unfold active; by rewrite Hu1, Hc1).
      rewrite Ha in Hp2. fold r in Hp2. assert (same_sets g g2) as Hs.
      { transitivity g1; [done|]. intros j _. by rewrite Hs2. }
      destruct (IH i g2 Hg2) as (J1 & J2 & J3 & J4); [lia|lia| |].
      { intros j Hj. rewrite Hpre2 by done. by apply Hpre. }
      split_and!; [done|by transitivity g2| |].
      + rewrite J3, Hp2. rewrite filter_cons_False; [done|]. intros Hn. by apply Hn.
      + intros x k Hx Hk. rewrite J4, (same_sets_live g g2) by done.
        assert (value_of g2 x k = value_of g1 x k) as -> by (unfold value_of; by rewrite Hs2).
        rewrite Hv1, s16_add_l by done. f_equal.
        unfold balance. rewrite Hp2, fmap_cons, zsum_cons.
        unfold record_adj at 2, undo_matches. rewrite Hp, Z.eqb_refl. simpl.
        destruct (live g x k); rewrite ?andb_true_r, ?andb_false_r; [|lia].
        rewrite Z.add_assoc. done.
    - apply IH; try done; try lia. intros j Hj.
      destruct (decide (j = i)) as [->|]; [done|]. apply Hpre. lia. }
  all: destruct (undo_finished pid i g Hg ltac:(lia) Hpre) as [Hfin Hval].
  all: split_and!; [done..|by rewrite <-Hfin|done].
Qed.


(** ** Theorems *)

(** Operation [o] can proceed on set [s]. *)
Definition op_enabled (s : sem_set) (o : sembuf) : Prop :=
  sem_num o < nsems s /\ (sem_op o = 0 -> value ((sems s).[sem_num o]) = 0) /\
  (sem_op o < 0 -> 0 <= value ((sems s).[sem_num o]) + sem_op o).

Lemma check_ok_iff (s : sem_set) (sops : list sembuf) :
  semop_check s sops = CheckOk <-> Forall (op_enabled s) sops.
Proof.
  split; [by apply check_ok|]. induction 1 as [|o sops (Hn & Hz & Hp) Hs IH]; simpl; [done|].
  repeat case_if; done || lia.
Qed.

Lemma wait_add_ok (z : bool) (d : Z) (u : sem_unit) :
  unit_ok u -> unit_ok (wait_add z d u) /\ value (wait_add z d u) = value u.
Proof. by destruct z. Qed.

Lemma check_wait (s : sem_set) (sops : list sembuf) (z : bool) (num : Z) :
  Forall (fun o => 0 <= sem_num o) sops -> semop_check s sops = CheckWait z num ->
  0 <= num < nsems s.
Proof.
  induction 1 as [|o sops Ho Hs IH]; simpl; intros H; [done|].
  repeat case_if; simplify_eq; auto.
Qed.

Lemma enabled_nums (g : g_sem) (semid : Z) (sops : list sembuf) :
  sem_inv g -> valid_id semid -> Forall (fun o => 0 <= sem_num o) sops ->
  Forall (op_enabled ((sets g).[semid])) sops -> Forall (fun o => valid_num (sem_num o)) sops.
Proof.
  intros Hg Hi H0 He. destruct (inv_set g semid Hg Hi) as (_ & Hn & _).
  rewrite Forall_forall in *. intros o Ho. destruct (He o Ho) as [? _]. specialize (H0 o Ho).
  unfold valid_num. simpl in *. lia.
Qed.

(** A call that returns 0 performed its operations. *)
Lemma semop_success (g g' : g_sem) (semid pid tick : Z) (sops : list sembuf) :
  sem_inv g -> Forall (fun o => 0 <= sem_num o) sops ->
  ipc_semop semid (Some sops) pid tick g = (SemRet 0, g') ->
  valid_id semid /\ Forall (op_enabled ((sets g).[semid])) sops /\
  applied pid semid (has_flag SEM_UNDO sops) sops g g'.
Proof.
  intros Hg H0 H. unfold ipc_semop in H. destruct sops as [|o sops0]; [done|].
  set (sops := o :: sops0) in *.
  destruct (ipc_sem_find_internal g semid) as [s|] eqn:E; [|done].
  apply find_internal_Some in E as (Hi & -> & Hu). unfold semop_try in H.
  destruct (semop_check _ _) eqn:Ec; [|done|by destruct (has_flag SEM_NOWAIT sops)].
  apply check_ok_iff in Ec. simplify_eq. split_and!; try done.
  apply semop_apply_applied; try done. by eapply enabled_nums.
Qed.

(** C31: [ipc_semop] is all or nothing.  It returns 0 exactly when it is given at
    least one operation, the set exists and every operation can proceed on the
    values the call found, and then each semaphore of the set has moved by the
    sum of the operations that name it (in 16-bit arithmetic); when it returns
    an error or starts to wait, no value of any set has changed.  The table stays
    well formed either way. *)
Theorem semop_atomic (g : g_sem) (semid pid tick : Z) (sops : list sembuf) :
  sem_inv g -> Forall (fun o => 0 <= sem_num o) sops ->
  let '(r, g') := ipc_semop semid (Some sops) pid tick g in
  sem_inv g' /\
  (r = SemRet 0 <-> sops <> [] /\ exists s, ipc_sem_find_internal g semid = Some s /\
                    Forall (op_enabled s) sops) /\
  forall i k, valid_id i -> valid_num k ->
    value_of g' i k =
    s16 (value_of g i k + if bool_decide (r = SemRet 0) && (i =? semid) then ops_sum k sops else 0).
Proof.
  intros Hg H0. destruct (ipc_semop semid (Some sops) pid tick g) as [r g'] eqn:E.
  assert (forall i k, valid_id i -> valid_num k -> value_of g i k = s16 (value_of g i k + 0)) as Hsm
    by (intros; rewrite Z.add_0_r, s16_small; auto using inv_value).
  destruct (decide (r = SemRet 0)) as [->|Hr].
  { destruct (semop_success g g' semid pid tick sops Hg H0 E) as (Hi & He & []).
    split_and!; [done| |by intros; rewrite bool_decide_true; auto].
    split; [|done]. intros _. unfold ipc_semop in E. destruct sops as [|o sops0]; [done|].
    split; [done|]. destruct (ipc_sem_find_internal g semid) as [s|] eqn:Ef; [|done].
    exists s. split; [done|]. by apply find_internal_Some in Ef as (_ & -> & _). }
  rewrite bool_decide_false by done. simpl. unfold ipc_semop in E.
  destruct sops as [|o sops0]; [simplify_eq; split_and!; naive_solver|].
  set (sops := o :: sops0) in *.
  destruct (ipc_sem_find_internal g semid) as [s|] eqn:Ef; [|simplify_eq; split_and!; naive_solver].
  pose proof Ef as (Hi & -> & Hu)%find_internal_Some. unfold semop_try in E.
  destruct (inv_set g semid Hg Hi) as (Hl & Hn & Hf).
  destruct (semop_check _ sops) as [| |z num] eqn:Ec; [naive_solver| |].
  { simplify_eq. split_and!; try done. split; [done|]. intros (_ & s & ? & Hs). simplify_eq.
    apply check_ok_iff in Hs. congruence. }
  split_and!.
  2: { split; [done|]. intros (_ & s & ? & Hs). simplify_eq. apply check_ok_iff in Hs. congruence. }
  all: apply (check_wait _ _ _ _ H0) in Ec; destruct (has_flag SEM_NOWAIT sops); simplify_eq;
    try done.
  - apply set_stats_inv, set_sets_inv, with_value_ok; try done.
    apply wait_add_ok, (aget_Forall unit_ok); [done|]. lia.
  - assert (valid_num num) by (unfold valid_num; lia).
    intros i k Hi' Hk'. rewrite <-Hsm by done. etransitivity; [by apply write_unit|].
    destruct (Z.eqb_spec i semid) as [->|]; [|done]. destruct (Z.eqb_spec k num) as [->|]; [|done].
    by destruct z.
Qed.

(** A set of two semaphores with values 1 and 0. *)
Definition demo_g : g_sem :=
  (ipc_semctl 0 0 2 (Some [1]) 5 (ipc_semget 77 2 9 5 ipc_sem_init).2).2.

Lemma demo_g_inv : sem_inv demo_g.
Proof.
  constructor; try done.
  change (sets demo_g) with (<[0%nat := mk_set 1 77 2 9 5 0 5
    (<[0%nat := mk_unit 1 0 0 0]> (replicate 16 zero_unit))]> (replicate 32 zero_set)).
  apply Forall_insert; [apply Forall_replicate|]; (split_and!; [done..|]);
    try apply Forall_insert; try (by apply Forall_replicate); by split.
Qed.

Lemma semop_atomic_witness :
  let '(r, g') := ipc_semop 0 (Some [mk_sembuf 0 (-1) 0; mk_sembuf 1 2 0]) 9 6 demo_g in
  r = SemRet 0 /\ value_of g' 0 0 = 0 /\ value_of g' 0 1 = 2.
Proof.
  pose proof (semop_atomic demo_g 0 9 6 [mk_sembuf 0 (-1) 0; mk_sembuf 1 2 0] demo_g_inv
    ltac:(repeat constructor; simpl; lia)) as H.
  destruct (ipc_semop _ _ _ _ _) as [r g'] eqn:E. destruct H as (_ & [_ H] & Hv).
  assert (r = SemRet 0) as ->.
  { apply H. split; [done|]. exists ((sets demo_g).[0]). split; [done|].
    repeat constructor; vm_compute; intros; congruence. }
  rewrite bool_decide_true in Hv by done.
  split_and!; [done|rewrite Hv; [reflexivity|by split..]..].
Defined.

(** [SEM_UNDO] works: after a successful [ipc_semop] by process [pid] with the
    undo flag, with room in the record table, the exit of [pid] leaves every
    value of every set as if the call had not been made. *)
Theorem semop_undo_roundtrip (g g' : g_sem) (semid pid tick : Z) (sops : list sembuf) :
  sem_inv g -> Forall (fun o => 0 <= sem_num o) sops ->
  ipc_semop semid (Some sops) pid tick g = (SemRet 0, g') ->
  has_flag SEM_UNDO sops = true -> undo_count g + zlen sops <= IPC_SEM_MAX_UNDO ->
  (forall i k, valid_id i -> valid_num k ->
    value_of (ipc_sem_undo_exit pid g') i k = value_of (ipc_sem_undo_exit pid g) i k) /\
  Forall (fun r => u_pid r <> pid) (active (ipc_sem_undo_exit pid g')).
Proof.
  intros Hg H0 E Hu Hroom.
  destruct (semop_success g g' semid pid tick sops Hg H0 E) as (Hi & He & [H1 H2 H3 H4 H5]).
  assert (forall g, sem_inv g -> 0 <= 0 <= undo_count g) as Hc by (intros ? []; lia).
  destruct (undo_loop_spec (Z.to_nat (undo_count g)) pid 0 g Hg (Hc g Hg) ltac:(lia) ltac:(lia)) as (_ & _ & _ & Hv).
  destruct (undo_loop_spec (Z.to_nat (undo_count g')) pid 0 g' H1 (Hc g' H1) ltac:(lia) ltac:(lia)) as (_ & _ & Hp & Hv').
  split; [|unfold ipc_sem_undo_exit; rewrite Hp; apply Forall_forall; intros r [? _]%list_elem_of_filter; done].
  intros i k Hi' Hk. unfold ipc_sem_undo_exit. rewrite Hv, Hv' by done.
  rewrite (same_sets_live g g'), H3, s16_add_l by done.
  destruct (live g i k) eqn:El.
  - rewrite <-s16_add_r, H5, s16_add_r by done. f_equal. lia.
  - f_equal. destruct (Z.eqb_spec i semid) as [->|]; [|lia].
    assert (ops_sum k sops = 0) as ->; [|lia].
    apply zsum_zero. intros o Ho. rewrite Forall_forall in He. destruct (He o Ho) as [Hlt _].
    case_if; [|done]. exfalso. subst k. unfold live in El.
    rewrite (proj2 (Z.ltb_lt _ _)), andb_true_r in El by done.
    unfold ipc_semop in E. destruct sops; [done|].
    destruct (ipc_sem_find_internal g semid) eqn:Ef; [|done].
    apply find_internal_Some in Ef as (_ & -> & Hin). congruence.
Qed.

Lemma semop_undo_roundtrip_witness :
  value_of (ipc_sem_undo_exit 9
    (ipc_semop 0 (Some [mk_sembuf 0 (-1) SEM_UNDO; mk_sembuf 1 2 0]) 9 6 demo_g).2) 0 0 = 1.
Proof.
  destruct (semop_undo_roundtrip demo_g
    (ipc_semop 0 (Some [mk_sembuf 0 (-1) SEM_UNDO; mk_sembuf 1 2 0]) 9 6 demo_g).2
    0 9 6 [mk_sembuf 0 (-1) SEM_UNDO; mk_sembuf 1 2 0]) as [H _].
  - apply demo_g_inv.
  - repeat constructor; simpl; lia.
  - reflexivity.
  - reflexivity.
  - vm_compute. by intros.
  - rewrite H; [reflexivity|by split..].
Defined.

(** The scan tests every operation against the values from before the call, so
    the same semaphore may be taken twice: on a semaphore of value 1, two
    operations of -1 both pass and leave it at -1. *)
Theorem semop_duplicate_negative (g : g_sem) (semid pid tick k : Z) (s : sem_set) :
  sem_inv g -> ipc_sem_find_internal g semid = Some s -> 0 <= k < nsems s ->
  value_of g semid k = 1 ->
  let '(r, g') := ipc_semop semid (Some [mk_sembuf k (-1) 0; mk_sembuf k (-1) 0]) pid tick g in
  r = SemRet 0 /\ value_of g' semid k = -1.
Proof.
  intros Hg Hs Hk Hv. pose proof Hs as (Hi & Hse & _)%find_internal_Some.
  set (sops := [_; _]). assert (Forall (fun o => 0 <= sem_num o) sops) as H0
    by (repeat constructor; simpl; lia).
  destruct (inv_set g semid Hg Hi) as (_ & Hn & _).
  assert (semop_check s sops = CheckOk) as Hc.
  { apply check_ok_iff. assert (op_enabled s (mk_sembuf k (-1) 0)) as He.
    - unfold op_enabled, value_of in *. simpl. rewrite Hse, Hv. rewrite Hse in Hk.
      split_and!; lia.
    - by repeat apply Forall_cons_2. }
  destruct (ipc_semop semid (Some sops) pid tick g) as [r g'] eqn:E.
  assert (r = SemRet 0) as ->.
  { unfold ipc_semop in E. rewrite Hs in E. unfold semop_try in E. fold sops in E.
    rewrite <-Hse, Hc in E. by inversion E. }
  destruct (semop_success g g' semid pid tick sops Hg H0 E) as (_ & _ & []).
  split; [done|]. rewrite ap_value0; [|done|subst s; unfold valid_num; lia].
  unfold ops_sum, zsum. simpl. by rewrite !Z.eqb_refl, Hv.
Qed.

Lemma semop_duplicate_negative_witness :
  value_of (ipc_semop 0 (Some [mk_sembuf 0 (-1) 0; mk_sembuf 0 (-1) 0]) 9 6 demo_g).2 0 0 = -1.
Proof.
  pose proof (semop_duplicate_negative demo_g 0 9 6 0 ((sets demo_g).[0]) demo_g_inv eq_refl) as H.
  destruct (ipc_semop _ _ _ _ _) as [r g'].
  apply H; [split; done|reflexivity].
Defined.

(** A removed set leaves its undo records behind: process 9 takes semaphore 0 of a
    set with undo, the set is removed and its slot reused by process 10, and the
    exit of process 9 then adds to the new set's semaphore. *)
Definition stale_g : g_sem :=
  (ipc_semget 78 1 10 7
     (ipc_semctl 0 0 8 None 6
        (ipc_semop 0 (Some [mk_sembuf 0 (-1) SEM_UNDO]) 9 6 demo_g).2).2).2.

Lemma rmid_keeps_undo_records :
  value_of stale_g 0 0 = 0 /\ value_of (ipc_sem_undo_exit 9 stale_g) 0 0 = 1.
Proof. split; reflexivity. Qed.

End IpcSem.
