(* ===== verification/FrameSource.v ===== *)
(** * The frame interface between the page allocator and its clients

    What the kernel heap and the virtual memory manager rely on when they call
    [pmm_alloc_page]: while frames are left a call returns a fresh non-null,
    page-aligned frame, and afterwards [NULL].  The physical page allocator of
    src/kernel/pmm.c discharges it. *)

From S2P Require Import Prelude Pmm.

Module FrameSource.

Class FrameSource (F : Type) := {
  frame_alloc : F -> Z * F;
  frame_ok : F -> Prop;
  frames_free : F -> Z;
  frames_free_nonneg : forall f, frame_ok f -> 0 <= frames_free f;
  frame_alloc_some : forall f, frame_ok f -> 0 < frames_free f ->
    let '(a, f') := frame_alloc f in
    a <> NULL /\ a mod 4096 = 0 /\ 0 <= a < 2 ^ 32 /\ frame_ok f' /\
    frames_free f' = frames_free f - 1;
  frame_alloc_none : forall f, frame_ok f -> frames_free f = 0 -> frame_alloc f = (NULL, f);
}.

(** ** The physical page allocator as a frame source *)
Section pmm_frames.
Import Pmm.

(** Frame 0 is never handed out: its address is [NULL]. *)
Definition pmm_frame_ok (p : pmm) : Prop :=
  (exists d, pmm_inv d p) /\ page_used p 0 = true /\ 0 < total_pages p.

Definition pmm_frames_free (p : pmm) : Z := total_pages p - count_used p.

Lemma pmm_frames_nonneg (p : pmm) : pmm_frame_ok p -> 0 <= pmm_frames_free p.
Proof.
  intros ([d Hd] & _ & _). pose proof (count_used_bounds p). destruct Hd.
  unfold pmm_frames_free. lia.
Qed.

(** Marking a frame uses one up. *)
Lemma pmm_marked_ok (d k : Z) (p : pmm) :
  pmm_inv d p -> pmm_frame_ok p -> 0 <= k < total_pages p -> page_used p k = false ->
  pmm_frame_ok (allocated p k).2 /\ pmm_frames_free (allocated p k).2 = pmm_frames_free p - 1.
Proof.
  intros Hd (_ & H0 & Ht) Hk Hu. destruct (mark_inv d k p Hd Hk Hu) as [Hi (Ht' & _ & Hm)].
  pose proof Hi as []. pose proof Hd as []. change (allocated p k).2 with (used_inc (bitmap_set k p)).
  split.
  - split_and!; [by exists d| |lia]. rewrite Hm by (unfold PMM_MAX_PAGES; lia).
    by rewrite H0, orb_true_r.
  - unfold pmm_frames_free.
    assert (used_pages (used_inc (bitmap_set k p)) = used_pages p + 1); [|lia].
    unfold used_inc. cbn [set_used used_pages bitmap_set set_bitmap]. apply u32_small.
    pose proof (count_used_bounds p). unfold is_u32, PMM_MAX_PAGES in *. lia.
Qed.

Lemma pmm_frame_some (p : pmm) :
  pmm_frame_ok p -> 0 < pmm_frames_free p ->
  let '(a, q) := pmm_alloc_page p in
  a <> NULL /\ a mod 4096 = 0 /\ 0 <= a < 2 ^ 32 /\ pmm_frame_ok q /\
  pmm_frames_free q = pmm_frames_free p - 1.
Proof.
  intros Hok Hf. pose proof Hok as ([d Hd] & H0 & Ht).
  destruct (pmm_alloc_page_found d p Hd) as [(k & (Hk & Hu & Hn) & ->)|[Hn ->]].
  - destruct (pmm_marked_ok d k p Hd Hok Hk Hu) as [Hok' Hfree].
    destruct (allocated p k) as [a q] eqn:E. unfold allocated in E. simplify_eq.
    assert (k <> 0) by congruence. pose proof Hd as []. unfold PMM_MAX_PAGES, PAGE_SIZE, NULL in *.
    split_and!; try done; try lia. apply Z.mod_mul. lia.
  - exfalso. unfold pmm_frames_free in Hf. assert (count_used p = total_pages p); [|lia].
    unfold count_used. rewrite zcount_all.
    + rewrite zlen_range; lia.
    + intros i Hi%elem_of_range. apply Hn; lia.
Qed.

Lemma pmm_frame_none (p : pmm) :
  pmm_frame_ok p -> pmm_frames_free p = 0 -> pmm_alloc_page p = (NULL, p).
Proof.
  intros Hok Hf. pose proof Hok as ([d Hd] & H0 & Ht).
  destruct (pmm_alloc_page_found d p Hd) as [(k & (Hk & Hu & Hn) & ->)|[Hn ->]]; [|done].
  destruct (pmm_marked_ok d k p Hd Hok Hk Hu) as [Hok' Hfree].
  pose proof (pmm_frames_nonneg _ Hok'). lia.
Qed.

#[export] Instance pmm_FrameSource : FrameSource pmm := {
  frame_alloc := pmm_alloc_page;
  frame_ok := pmm_frame_ok;
  frames_free := pmm_frames_free;
  frames_free_nonneg := pmm_frames_nonneg;
  frame_alloc_some := pmm_frame_some;
  frame_alloc_none := pmm_frame_none;
}.
End pmm_frames.

End FrameSource.
