(* ===== verification/Kheap.v ===== *)
(** * The kernel heap (src/kernel/kheap.c)

    A first-fit allocator over a linked list of blocks, each a 16-byte header
    followed by its payload.  Memory is split into the headers the allocator has
    written, keyed by address ([mem]), and the bytes its clients see ([data]);
    an address at which no header was written reads as a header without the
    magic number.  Frames come from a [FrameSource]; the pages the heap asks
    [vmm_map_page] to map are recorded in [maps].  Operations run under the heap
    spinlock and are atomic. *)

From S2P Require Import Prelude Pmm FrameSource.

Module Kheap.
Import FrameSource.

Definition HEAP_BLOCK_MAGIC : Z := 51966. (* 0xCAFE *)
Definition ALIGNMENT : Z := 8.
Definition PAGE_SIZE : Z := 4096.
Definition sizeof_header : Z := 16.

Record header := mk_header { magic : Z; h_size : Z; is_free : Z; h_next : Z }.

Section kheap.
Context {F : Type} `{!FrameSource F}.

Record kheap := mk_kheap {
  heap_start : Z; heap_end : Z; heap_current : Z; heap_first : Z;
  mem : gmap Z header; data : gmap Z Z; maps : list (Z * Z); frames : F;
}.

(** The header and the byte at an address. *)
Definition hdr (m : gmap Z header) (a : Z) : header := default (mk_header 0 0 0 0) (m !! a).
Definition byte_at (h : kheap) (a : Z) : Z := default 0 (data h !! a).

Definition set_mem (h : kheap) (m : gmap Z header) : kheap :=
  mk_kheap (heap_start h) (heap_end h) (heap_current h) (heap_first h) m (data h) (maps h)
    (frames h).
Definition set_byte (h : kheap) (a v : Z) : kheap :=
  mk_kheap (heap_start h) (heap_end h) (heap_current h) (heap_first h) (mem h)
    (<[a := v]> (data h)) (maps h) (frames h).

Definition align_up (value align : Z) : Z :=
  Z.land (u32 (value + align - 1)) (u32 (Z.lnot (align - 1))).

(** Allocate a frame and map it at [heap_current]; [None] when there is none. *)
Definition grow_page (clear : bool) (h : kheap) : option kheap :=
  let '(phys, f) := frame_alloc (frames h) in
  if phys =? NULL then None
  else
    let c := heap_current h in
    let outside := fun a => ~ (c <= a < c + PAGE_SIZE) in
    Some (mk_kheap (heap_start h) (heap_end h) (u32 (c + PAGE_SIZE)) (heap_first h)
      (if clear then filter (fun kv => outside kv.1) (mem h) else mem h)
      (if clear then filter (fun kv => outside kv.1) (data h) else data h)
      ((c, phys) :: maps h) f).

(** [n] iterations; the flag tells whether all of them were done. *)
Fixpoint grow_loop (clear : bool) (n : nat) (h : kheap) : bool * kheap :=
  match n with
  | O => (true, h)
  | S n => match grow_page clear h with
           | None => (false,
               mk_kheap (heap_start h) (heap_end h) (heap_current h) (heap_first h) (mem h)
                 (data h) (maps h) (frame_alloc (frames h)).2)
           | Some h' => grow_loop clear n h'
           end
  end.

Definition expand_heap (size : Z) (h : kheap) : kheap :=
  let needed := align_up (u32 (size + sizeof_header)) PAGE_SIZE in
  let pages := needed / PAGE_SIZE in
  let '(ok, h') := grow_loop true (Z.to_nat pages) h in
  if ok then mk_kheap (heap_start h') (heap_current h') (heap_current h') (heap_first h')
               (mem h') (data h') (maps h') (frames h')
  else h'.

Definition kheap_init (start size : Z) (h : kheap) : kheap :=
  let h0 := mk_kheap start (u32 (start + size)) start (heap_first h) (mem h) (data h) (maps h)
              (frames h) in
  let pages := u32 (size + PAGE_SIZE - 1) / PAGE_SIZE in
  let '(ok, h1) := grow_loop false (Z.to_nat pages) h0 in
  if ok then
    mk_kheap (heap_start h1) (heap_end h1) (heap_current h1) (heap_start h1)
      (<[heap_start h1 := mk_header HEAP_BLOCK_MAGIC (u32 (size - sizeof_header)) 1 NULL]> (mem h1))
      (data h1) (maps h1) (frames h1)
  else h1.

(** The search loop of [kmalloc]. *)
Inductive fit := FitAt (current : Z) | FitNone | FitCorrupt.

Fixpoint find_fit (fuel : nat) (m : gmap Z header) (current size : Z) : fit :=
  match fuel with
  | O => FitCorrupt
  | S fuel =>
      if current =? NULL then FitNone
      else if negb (magic (hdr m current) =? HEAP_BLOCK_MAGIC) then FitCorrupt
      else if c_true (is_free (hdr m current)) && (size <=? h_size (hdr m current))
      then FitAt current
      else find_fit fuel m (h_next (hdr m current)) size
  end.

(** [while (current->next) current = current->next] *)
Fixpoint find_last (fuel : nat) (m : gmap Z header) (current : Z) : Z :=
  match fuel with
  | O => current
  | S fuel => if h_next (hdr m current) =? NULL then current
              else find_last fuel m (h_next (hdr m current))
  end.

Definition set_size (x : header) (s : Z) : header := mk_header (magic x) s (is_free x) (h_next x).
Definition set_next (x : header) (n : Z) : header := mk_header (magic x) (h_size x) (is_free x) n.
Definition set_free (x : header) (f : Z) : header := mk_header (magic x) (h_size x) f (h_next x).

(** Cut a free block down to [size] bytes when the rest can hold a block. *)
Definition split (m : gmap Z header) (current size : Z) : gmap Z header :=
  let c := hdr m current in
  if u32 (size + sizeof_header + ALIGNMENT) <? h_size c then
    let new_block := u32 (current + sizeof_header + size) in
    let m1 := <[new_block := mk_header HEAP_BLOCK_MAGIC
                 (u32 (h_size c - size - sizeof_header)) 1 (h_next c)]> m in
    let m2 := <[current := set_size (hdr m1 current) size]> m1 in
    <[current := set_next (hdr m2 current) new_block]> m2
  else m.

Definition fuel_of (h : kheap) : nat := S (base.size (mem h)).

Definition kmalloc (size : Z) (h : kheap) : Z * kheap :=
  if size =? 0 then (NULL, h)
  else
    let size := align_up size ALIGNMENT in
    match find_fit (fuel_of h) (mem h) (heap_first h) size with
    | FitCorrupt => (NULL, h)
    | FitAt current =>
        let m := split (mem h) current size in
        (u32 (current + sizeof_header), set_mem h (<[current := set_free (hdr m current) 0]> m))
    | FitNone =>
        let h1 := expand_heap size h in
        let new_block := u32 (heap_current h1 - align_up (u32 (size + sizeof_header)) PAGE_SIZE) in
        let m1 := <[new_block := mk_header HEAP_BLOCK_MAGIC size 0 NULL]> (mem h1) in
        let last := find_last (S (base.size m1)) m1 (heap_first h1) in
        (u32 (new_block + sizeof_header), set_mem h1 (<[last := set_next (hdr m1 last) new_block]> m1))
    end.

(** [header->size += sizeof(heap_header_t) + other->size; header->next = other->next] *)
Definition absorb (m : gmap Z header) (a other : Z) : gmap Z header :=
  let x := hdr m a in
  let m1 := <[a := set_size x (u32 (h_size x + sizeof_header + h_size (hdr m other)))]> m in
  <[a := set_next (hdr m1 a) (h_next (hdr m1 other))]> m1.

(** The block before [target] on the list, [NULL] for the first. *)
Fixpoint find_prev (fuel : nat) (m : gmap Z header) (prev current target : Z) : Z :=
  match fuel with
  | O => prev
  | S fuel => if (current =? NULL) || (current =? target) then prev
              else find_prev fuel m current (h_next (hdr m current)) target
  end.

Definition free_block (m : gmap Z header) (a : Z) : bool :=
  negb (a =? NULL) && (magic (hdr m a) =? HEAP_BLOCK_MAGIC) && c_true (is_free (hdr m a)).

(** The locked part of [kfree]: mark the block free, merge it with the block after
    it and with the block before it. *)
Definition release (m : gmap Z header) (first header : Z) : gmap Z Kheap.header :=
  let m0 := <[header := set_free (hdr m header) 1]> m in
  let next := h_next (hdr m0 header) in
  let m1 := if free_block m0 next then absorb m0 header next else m0 in
  let prev := find_prev (S (base.size m1)) m1 NULL first header in
  if free_block m1 prev then absorb m1 prev header else m1.

Definition kfree (ptr : Z) (h : kheap) : kheap :=
  if ptr =? NULL then h
  else
    let header := u32 (ptr - sizeof_header) in
    if negb (magic (hdr (mem h) header) =? HEAP_BLOCK_MAGIC) then h
    else set_mem h (release (mem h) (heap_first h) header).

(** [for (i = 0; i < n; i++) dst[i] = f(i)] *)
Definition write_bytes (dst : Z) (n : Z) (f : kheap -> Z -> Z) (h : kheap) : kheap :=
  foldl (fun h i => set_byte h (u32 (dst + i)) (f h i)) h (range 0 n).

Definition kcalloc (num size : Z) (h : kheap) : Z * kheap :=
  if negb (num =? 0) && negb (size =? 0) && ((2 ^ 32 - 1) / size <? num) then (NULL, h)
  else
    let total := u32 (num * size) in
    let '(ptr, h1) := kmalloc total h in
    if ptr =? NULL then (NULL, h1) else (ptr, write_bytes ptr total (fun _ _ => 0) h1).

Definition krealloc (ptr size : Z) (h : kheap) : Z * kheap :=
  if ptr =? NULL then kmalloc size h
  else if size =? 0 then (NULL, kfree ptr h)
  else
    let header := u32 (ptr - sizeof_header) in
    if negb (magic (hdr (mem h) header) =? HEAP_BLOCK_MAGIC) then (NULL, h)
    else if size <=? h_size (hdr (mem h) header) then (ptr, h)
    else
      let '(new_ptr, h1) := kmalloc size h in
      if new_ptr =? NULL then (NULL, h1)
      else
        let h2 := write_bytes new_ptr (h_size (hdr (mem h1) header))
                    (fun h i => byte_at h (u32 (ptr + i))) h1 in
        (new_ptr, kfree ptr h2).

Definition kheap_get_start (h : kheap) : Z := heap_start h.
Definition kheap_get_current (h : kheap) : Z := heap_current h.

Fixpoint used_loop (fuel : nat) (m : gmap Z header) (cur used : Z) : Z :=
  match fuel with
  | O => used
  | S fuel =>
      if cur =? NULL then used
      else used_loop fuel m (h_next (hdr m cur))
             (if (magic (hdr m cur) =? HEAP_BLOCK_MAGIC) && negb (c_true (is_free (hdr m cur)))
              then u32 (used + h_size (hdr m cur)) else used)
  end.

Definition kheap_get_used (h : kheap) : Z := used_loop (fuel_of h) (mem h) (heap_first h) 0.

End kheap.
Arguments kheap : clear implicits.

(** ** Representation *)

Record block := mk_block { b_addr : Z; b_size : Z; b_free : bool }.

Definition b_end (b : block) : Z := b_addr b + sizeof_header + b_size b.
Definition hdr_of (b : block) (n : Z) : header :=
  mk_header HEAP_BLOCK_MAGIC (b_size b) (c_bool (b_free b)) n.

(** The list segment of the blocks [l] from address [a] to address [z]. *)
Fixpoint seg (m : gmap Z header) (a : Z) (l : list block) (z : Z) : Prop :=
  match l with
  | [] => a = z
  | b :: l => a = b_addr b /\ a <> NULL /\ exists n, m !! a = Some (hdr_of b n) /\ seg m n l z
  end.

(** The blocks lie in ascending order in [lo, hi) without overlap. *)
Fixpoint laid (lo : Z) (l : list block) (hi : Z) : Prop :=
  match l with
  | [] => lo <= hi
  | b :: l => lo <= b_addr b /\ 0 <= b_size b /\ laid (b_end b) l hi
  end.

Definition aligned (b : block) : Prop := b_addr b mod ALIGNMENT = 0 /\ b_size b mod ALIGNMENT = 0.

Record rep (m : gmap Z header) (lo : Z) (l : list block) (hi : Z) : Prop := {
  rep_seg : seg m lo l NULL;
  rep_laid : laid lo l hi;
  rep_aligned : Forall aligned l;
  rep_pos : 0 < lo;
  rep_hi : hi < 2 ^ 32;
}.

(** The allocated blocks, as payload address and size. *)
Definition allocated (l : list block) : list (Z * Z) :=
  (fun b => (b_addr b + sizeof_header, b_size b)) <$> List.filter (fun b => negb (b_free b)) l.

Lemma seg_app (m : gmap Z header) (l k : list block) (a z : Z) :
  seg m a (l ++ k) z <-> exists y, seg m a l y /\ seg m y k z.
Proof.
  revert a. induction l as [|b l IH]; intros a; simpl; [naive_solver|].
  setoid_rewrite IH. naive_solver.
Qed.

Lemma laid_app (l k : list block) (lo hi : Z) :
  laid lo (l ++ k) hi <-> exists mid, laid lo l mid /\ laid mid k hi.
Proof.
  revert lo. induction l as [|b l IH]; intros lo; simpl.
  - split; [|intros (mid & H1 & H2)].
    + intros H. by exists lo.
    + destruct k as [|c k]; simpl in *; [lia|]. intuition lia.
  - setoid_rewrite IH. naive_solver.
Qed.

Lemma laid_le (l : list block) (lo hi : Z) : laid lo l hi -> lo <= hi.
Proof.
  revert lo. induction l as [|b l IH]; intros lo; simpl; [done|].
  intros (H1 & H2 & H3%IH). unfold b_end, sizeof_header in *. lia.
Qed.

Lemma laid_weaken (l : list block) (lo lo' hi hi' : Z) :
  laid lo l hi -> lo' <= lo -> hi <= hi' -> laid lo' l hi'.
Proof.
  revert lo lo'. induction l as [|b l IH]; intros lo lo'; simpl; [lia|].
  intros (H1 & H2 & H3) Hlo Hhi. split_and!; [lia|done|]. by eapply IH.
Qed.

Lemma laid_bounds (l : list block) (lo hi : Z) (b : block) :
  laid lo l hi -> b ∈ l -> lo <= b_addr b /\ 0 <= b_size b /\ b_end b <= hi.
Proof.
  intros Hl [l1 [l2 ->]]%list_elem_of_split. apply laid_app in Hl as (mid & H1 & H2 & H3 & H4).
  apply laid_le in H1, H4. lia.
Qed.

Lemma seg_frame (m m' : gmap Z header) (l : list block) (a z : Z) :
  (forall b, b ∈ l -> m' !! b_addr b = m !! b_addr b) -> seg m a l z -> seg m' a l z.
Proof.
  revert a. induction l as [|b l IH]; intros a Hm; simpl; [done|].
  intros (-> & Ha & n & Hn & Hs). split_and!; [done..|]. exists n. split.
  - rewrite Hm; [done|constructor].
  - apply IH; [|done]. intros c Hc. apply Hm. by constructor.
Qed.

(** The addresses of the blocks are distinct keys of the memory. *)
Lemma seg_length (m : gmap Z header) (l : list block) (a z lo hi : Z) :
  seg m a l z -> laid lo l hi -> (length l <= base.size m)%nat.
Proof.
  intros Hs Hl. rewrite <-(length_fmap b_addr l), <-size_dom.
  rewrite <-(size_list_to_set (C := gset Z) (b_addr <$> l)).
  - apply subseteq_size. intros x. rewrite elem_of_list_to_set, list_elem_of_fmap.
    intros (b & -> & Hb). apply elem_of_dom. revert a Hs.
    clear Hl. induction l as [|c l IH]; intros a Hs; [by apply not_elem_of_nil in Hb|].
    destruct Hs as (-> & _ & n & Hn & Hs). apply elem_of_cons in Hb as [->|Hb]; eauto.
  - clear a Hs. revert lo Hl. induction l as [|b l IH]; intros lo Hl; simpl; [constructor|].
    destruct Hl as (H1 & H2 & H3). apply NoDup_cons. split; [|by eapply IH].
    rewrite list_elem_of_fmap. intros (c & Hc & Hin).
    destruct (laid_bounds l _ _ c H3 Hin). unfold b_end, sizeof_header in *. lia.
Qed.

(** ** Replacing a part of the list *)
Section update.
Context (m m' : gmap Z header) (lo hi : Z) (l1 mid mid' l2 : list block) (x x' : block).
Hypothesis Hrep : rep m lo (l1 ++ (x :: mid) ++ l2) hi.
Hypothesis Haddr : b_addr x' = b_addr x.
(** The new blocks end where the old ones did, or before. *)
Hypothesis Hlaid : forall e, laid (b_addr x) (x :: mid) e -> laid (b_addr x) (x' :: mid') e.
Hypothesis Hal : Forall aligned (x' :: mid').
Hypothesis Hseg : forall z, seg m (b_addr x) (x :: mid) z -> seg m' (b_addr x) (x' :: mid') z.
(** Only headers between [x] and the end of [mid] change. *)
Hypothesis Hout : forall a e, laid (b_addr x) (x :: mid) e -> ~ (b_addr x <= a < e) -> m' !! a = m !! a.

Lemma rep_update : rep m' lo (l1 ++ (x' :: mid') ++ l2) hi.
Proof using All.
  destruct Hrep as [Hs Hl Ha Hp Hh].
  apply seg_app in Hs as (y & Hs1 & (z & Hsm & Hs2)%seg_app).
  apply laid_app in Hl as (c & Hl1 & (e & Hlm & Hl2)%laid_app).
  assert (laid (b_addr x) (x :: mid) e) as Hlx by (destruct Hlm as (? & ? & ?); by split_and!).
  assert (y = b_addr x) as -> by apply Hsm.
  constructor; try done.
  - apply seg_app. exists (b_addr x). split.
    + eapply seg_frame; [|done]. intros b Hb. eapply Hout; [done|].
      destruct (laid_bounds _ _ _ b Hl1 Hb) as (_ & _ & He). destruct Hlm as (Hc & _ & _).
      pose proof (laid_bounds _ _ _ b Hl1 Hb). unfold b_end, sizeof_header in *. lia.
    + apply seg_app. exists z. split; [by apply Hseg|]. eapply seg_frame; [|done].
      intros b Hb. eapply Hout; [done|]. pose proof (laid_bounds _ _ _ b Hl2 Hb). lia.
  - apply laid_app. exists c. split; [done|]. apply laid_app. exists e. split; [|done].
    apply (laid_weaken _ (b_addr x) _ e); [by apply Hlaid|by apply Hlm|done].
  - rewrite !Forall_app in *. destruct Ha as (? & _ & ?). done.
Qed.
End update.

(** ** The operations on the list *)

Lemma hdr_lookup (m : gmap Z header) (a : Z) (x : header) : m !! a = Some x -> hdr m a = x.
Proof. unfold hdr. by intros ->. Qed.

Lemma hdr_insert (m : gmap Z header) (a : Z) (x : header) : hdr (<[a := x]> m) a = x.
Proof. apply hdr_lookup, lookup_insert_eq. Qed.

Lemma hdr_insert_ne (m : gmap Z header) (a b : Z) (x : header) :
  a <> b -> hdr (<[a := x]> m) b = hdr m b.
Proof. intros. unfold hdr. by rewrite lookup_insert_ne. Qed.


(** The header of a block of the list. *)
Lemma seg_mid (m : gmap Z header) (a z : Z) (l1 l2 : list block) (b : block) :
  seg m a (l1 ++ b :: l2) z ->
  b_addr b <> NULL /\ exists n, m !! b_addr b = Some (hdr_of b n) /\ seg m n l2 z.
Proof. intros (y & _ & -> & Hn & Hx)%seg_app. done. Qed.

Lemma rep_mid (m : gmap Z header) (lo hi : Z) (l1 l2 : list block) (b : block) :
  rep m lo (l1 ++ b :: l2) hi ->
  0 < b_addr b /\ 0 <= b_size b /\ b_end b <= hi /\ aligned b /\
  exists n, m !! b_addr b = Some (hdr_of b n) /\ seg m n l2 NULL.
Proof.
  intros [Hs Hl Ha Hp Hh]. assert (b ∈ l1 ++ b :: l2) as Hin by set_solver.
  destruct (laid_bounds _ _ _ b Hl Hin) as (H1 & H2 & H3).
  rewrite Forall_forall in Ha. apply seg_mid in Hs as [_ Hn]. split_and!; auto; lia.
Qed.

(** Rewriting one block in place. *)
Lemma rep_set (m : gmap Z header) (lo hi s : Z) (f : bool) (l1 l2 : list block) (b : block)
    (x : header) :
  rep m lo (l1 ++ b :: l2) hi -> 0 <= s <= b_size b -> s mod ALIGNMENT = 0 ->
  (forall n, m !! b_addr b = Some (hdr_of b n) -> x = hdr_of (mk_block (b_addr b) s f) n) ->
  rep (<[b_addr b := x]> m) lo (l1 ++ mk_block (b_addr b) s f :: l2) hi.
Proof.
  intros Hrep Hs Hal Hx. destruct (rep_mid _ _ _ _ _ _ Hrep) as (Hp & Hs0 & Hend & [Ha1 Ha2] & _).
  apply (rep_update m _ lo hi l1 [] [] l2 b (mk_block (b_addr b) s f)); try done.
  - intros e (_ & _ & He). simpl in *. split_and!; [lia..|]. unfold b_end in *. simpl. lia.
  - by repeat constructor.
  - intros z (_ & Hn0 & n & Hn & <-). split_and!; [done..|]. exists n. split; [|done].
    rewrite lookup_insert_eq. by rewrite (Hx n Hn).
  - intros a e (_ & _ & He) Hna. apply lookup_insert_ne. simpl in He.
    unfold b_end, sizeof_header in *. lia.
Qed.

Lemma set_free_rep (m : gmap Z header) (lo hi : Z) (f : bool) (l1 l2 : list block) (b : block) :
  rep m lo (l1 ++ b :: l2) hi ->
  rep (<[b_addr b := set_free (hdr m (b_addr b)) (c_bool f)]> m) lo
    (l1 ++ mk_block (b_addr b) (b_size b) f :: l2) hi.
Proof.
  intros Hrep. destruct (rep_mid _ _ _ _ _ _ Hrep) as (Hp & Hs0 & Hend & [Ha1 Ha2] & _).
  apply rep_set; [done|lia|done|]. intros n Hn. by rewrite (hdr_lookup _ _ _ Hn).
Qed.

Lemma split_rep (m : gmap Z header) (lo hi size : Z) (l1 l2 : list block) (b : block) :
  rep m lo (l1 ++ b :: l2) hi -> b_free b = true -> 0 <= size <= b_size b ->
  size mod ALIGNMENT = 0 ->
  exists s rest, rep (split m (b_addr b) size) lo (l1 ++ mk_block (b_addr b) s true :: rest ++ l2) hi /\
    size <= s /\ Forall (fun c => b_free c = true) rest.
Proof.
  intros Hrep Hf Hsz Hal.
  destruct (rep_mid _ _ _ _ _ _ Hrep) as (Hp & Hs0 & Hend & [Ha1 Ha2] & n & Hn & Hnx).
  pose proof (rep_hi _ _ _ _ Hrep) as Hhi. unfold b_end, sizeof_header in Hend.
  unfold split. rewrite (hdr_lookup _ _ _ Hn). cbn [hdr_of h_size h_next].
  unfold sizeof_header, ALIGNMENT in *. rewrite (u32_small (b_addr b + 16 + size)) by (unfold is_u32; lia).
  case_if; [|exists (b_size b), []; simpl; split_and!; [|lia|constructor]].
  2: { by destruct b; simpl in *; subst. }
  assert (size + 16 < b_size b) as Hlt.
  { assert (8 <= b_addr b) by dlia. rewrite u32_small in * by (unfold is_u32; lia). lia. }
  rewrite (u32_small (b_size b - size - 16)) by (unfold is_u32; lia).
  set (a := b_addr b) in *. set (nb := mk_block (a + 16 + size) (b_size b - size - 16) true).
  exists size, [nb]. rewrite hdr_insert, hdr_insert_ne by lia. rewrite (hdr_lookup _ _ _ Hn).
  split_and!; [|lia|by repeat constructor].
  apply (rep_update m _ lo hi l1 [] [nb] l2 b (mk_block a size true)); try done.
  - intros e (_ & _ & He). simpl in He |- *. unfold b_end, sizeof_header in *. simpl. fold a in He |- *.
    split_and!; lia.
  - repeat constructor; simpl; try done; unfold ALIGNMENT; dlia.
  - intros z (_ & Hn0 & n' & Hn' & Hz). fold a in Hn'. rewrite Hn in Hn'. simpl in Hz.
    assert (n = z) as Hnz by (unfold hdr_of in Hn'; congruence).
    split_and!; [done..|]. exists (a + 16 + size). rewrite lookup_insert_eq. split.
    { unfold set_next, set_size, hdr_of. simpl. by rewrite Hf. }
    split_and!; [done|unfold NULL; lia|]. exists n.
    rewrite !lookup_insert_ne, lookup_insert_eq by lia. done.
  - intros c e (_ & _ & He) Hna. unfold b_end, sizeof_header in He. simpl in He. fold a in He, Hna.
    by rewrite !lookup_insert_ne by lia.
Qed.

Lemma absorb_rep (m : gmap Z header) (lo hi : Z) (l1 l2 : list block) (x y : block) :
  rep m lo (l1 ++ x :: y :: l2) hi ->
  rep (absorb m (b_addr x) (b_addr y)) lo
    (l1 ++ mk_block (b_addr x) (b_size x + sizeof_header + b_size y) (b_free x) :: l2) hi.
Proof.
  intros Hrep. pose proof (rep_hi _ _ _ _ Hrep) as Hhi.
  destruct (rep_mid _ _ _ _ _ _ Hrep) as (Hxp & Hxs & Hxe & [Hx1 Hx2] & n & Hn & Hnx).
  destruct Hnx as (-> & Hy0 & k & Hk & _).
  assert (rep m lo ((l1 ++ [x]) ++ y :: l2) hi) as Hrep2 by (by rewrite <-app_assoc).
  destruct (rep_mid _ _ _ _ _ _ Hrep2) as (Hyp & Hys & Hye & [Hy1 Hy2] & _).
  assert (b_end x <= b_addr y) as Hxy.
  { destruct Hrep as [_ Hl _ _ _]. apply laid_app in Hl as (? & _ & Hl). simpl in Hl. lia. }
  unfold b_end, sizeof_header, ALIGNMENT in *.
  unfold absorb. rewrite hdr_insert, hdr_insert_ne by lia.
  rewrite (hdr_lookup _ _ _ Hn), (hdr_lookup _ _ _ Hk). simpl. unfold sizeof_header.
  rewrite u32_small by (unfold is_u32; lia).
  set (s := b_size x + 16 + b_size y) in *.
  apply (rep_update m _ lo hi l1 [y] [] l2 x (mk_block (b_addr x) s (b_free x))); try done.
  - intros e (_ & _ & _ & _ & He). simpl in He |- *. unfold b_end, sizeof_header in *. simpl.
    split_and!; lia.
  - repeat constructor; simpl; unfold ALIGNMENT; try done. unfold s. dlia.
  - intros z (_ & Hn0 & n' & Hn' & _ & _ & k' & Hk' & <-).
    split_and!; [done..|]. exists k. rewrite lookup_insert_eq. split; [done|]. simpl.
    rewrite Hn in Hn'. unfold hdr_of in *. simpl in *. congruence.
  - intros c e (_ & _ & _ & _ & He) Hna. unfold b_end, sizeof_header in He. simpl in He.
    by rewrite !lookup_insert_ne by lia.
Qed.

Lemma mask_down (x k : Z) :
  is_u32 x -> 0 <= k -> Z.land x (u32 (Z.lnot (2 ^ k - 1))) = x / 2 ^ k * 2 ^ k.
Proof.
  intros Hx Hk. replace (2 ^ k - 1) with (Z.ones k) by (rewrite Z.ones_equiv; lia).
  rewrite <-Z.shiftr_div_pow2, <-Z.shiftl_mul_pow2 by lia. apply Z.bits_inj'. intros j Hj.
  rewrite Z.land_spec, u32_testbit, Z.lnot_spec, Z.shiftl_spec by lia.
  destruct (Z.ltb_spec j k).
  - rewrite Z.ones_spec_low, (Z.testbit_neg_r _ (j - k)) by lia. by rewrite !andb_false_r.
  - rewrite Z.ones_spec_high, Z.shiftr_spec by lia. rewrite Z.sub_add. simpl.
    destruct (Z.ltb_spec j 32); simpl; [by rewrite andb_true_r|].
    by rewrite is_u32_testbit.
Qed.

Lemma align_up_spec (v k : Z) :
  0 <= k -> 0 <= v -> v + 2 ^ k - 1 < 2 ^ 32 ->
  align_up v (2 ^ k) = (v + 2 ^ k - 1) / 2 ^ k * 2 ^ k.
Proof.
  intros Hk Hv Hb. assert (0 < 2 ^ k) by (apply Z.pow_pos_nonneg; lia).
  unfold align_up. rewrite u32_small by (unfold is_u32; lia).
  apply mask_down; unfold is_u32; lia.
Qed.

Lemma align8 (v : Z) :
  0 <= v < 2 ^ 32 - 7 -> let a := align_up v ALIGNMENT in v <= a < v + 8 /\ a mod ALIGNMENT = 0.
Proof. intros Hv. pose proof (align_up_spec v 3) as H. change (2 ^ 3) with 8 in H.
  unfold ALIGNMENT. cbv zeta. rewrite H by lia. dlia. Qed.

Lemma align4096 (v : Z) :
  0 <= v < 2 ^ 32 - 4095 ->
  let a := align_up v PAGE_SIZE in v <= a < v + PAGE_SIZE /\ a mod PAGE_SIZE = 0.
Proof. intros Hv. pose proof (align_up_spec v 12) as H. change (2 ^ 12) with 4096 in H.
  unfold PAGE_SIZE. cbv zeta. rewrite H by lia. dlia. Qed.

Lemma find_fit_spec (m : gmap Z header) (l : list block) (fuel : nat) (a size : Z) :
  seg m a l NULL -> (length l < fuel)%nat ->
  (exists l1 b l2, l = l1 ++ b :: l2 /\ find_fit fuel m a size = FitAt (b_addr b) /\
     b_free b = true /\ size <= b_size b) \/
  (find_fit fuel m a size = FitNone /\ Forall (fun b => b_free b = true -> b_size b < size) l).
Proof.
  revert fuel a. induction l as [|b l IH]; intros [|fuel] a Hs Hf; simpl in Hf; try lia.
  { right. simpl in Hs. subst a. done. }
  destruct Hs as (-> & Ha & n & Hn & Hs). cbn [find_fit].
  rewrite (proj2 (Z.eqb_neq _ _)) by done. rewrite (hdr_lookup _ _ _ Hn). simpl.
  destruct (IH fuel n Hs ltac:(lia)) as [(l1 & c & l2 & -> & He & Hcf & Hcs)|[He Hall]].
  all: destruct (c_true (c_bool (b_free b)) && (size <=? b_size b)) eqn:E; zbool.
  1, 3: left; eexists [], b, _; split_and!; try done; by destruct (b_free b).
  - left. by exists (b :: l1), c, l2.
  - right. split; [done|]. constructor; [|done]. intros Hb. rewrite Hb in E. simpl in E. by zbool.
Qed.

Lemma find_prev_spec (m : gmap Z header) (l1 l2 : list block) (b : block) (fuel : nat)
    (p a z lo hi : Z) :
  seg m a (l1 ++ b :: l2) z -> laid lo (l1 ++ b :: l2) hi -> (length l1 < fuel)%nat ->
  find_prev fuel m p a (b_addr b) = default p (b_addr <$> last l1).
Proof.
  revert fuel p a lo. induction l1 as [|c l1 IH]; intros [|fuel] p a lo Hs Hl Hf; simpl in Hf; try lia.
  - destruct Hs as (-> & _). simpl. by rewrite Z.eqb_refl, orb_true_r.
  - destruct Hs as (-> & Ha & n & Hn & Hs), Hl as (H1 & H2 & H3). cbn [find_prev].
    destruct (laid_bounds _ _ _ b H3 ltac:(set_solver)) as (Hb & _).
    rewrite (proj2 (Z.eqb_neq _ _)), (proj2 (Z.eqb_neq _ (b_addr b)))
      by (done || (unfold b_end, sizeof_header in *; lia)). simpl.
    rewrite (hdr_lookup _ _ _ Hn). cbn [hdr_of h_next].
    rewrite (IH fuel _ n _ Hs H3) by lia. rewrite last_cons. by destruct (last l1).
Qed.

Lemma find_last_spec (m : gmap Z header) (l : list block) (b : block) (fuel : nat) (a : Z) :
  seg m a (l ++ [b]) NULL -> (length l < fuel)%nat -> find_last fuel m a = b_addr b.
Proof.
  revert fuel a. induction l as [|c l IH]; intros [|fuel] a Hs Hf; simpl in Hf; try lia;
    destruct Hs as (-> & Ha & n & Hn & Hs); cbn [find_last]; rewrite (hdr_lookup _ _ _ Hn); simpl.
  - simpl in Hs. by subst n.
  - rewrite (proj2 (Z.eqb_neq _ _)); [by apply IH; [|lia]|].
    destruct l; simpl in Hs; naive_solver.
Qed.

(** ** Allocated blocks *)

Lemma allocated_app (l k : list block) : allocated (l ++ k) = allocated l ++ allocated k.
Proof. unfold allocated. by rewrite List.filter_app, fmap_app. Qed.

Lemma allocated_cons (b : block) (l : list block) :
  allocated (b :: l)
  = if b_free b then allocated l else (b_addr b + sizeof_header, b_size b) :: allocated l.
Proof. unfold allocated. simpl. by destruct (b_free b). Qed.

Lemma allocated_free (l : list block) : Forall (fun b => b_free b = true) l -> allocated l = [].
Proof. induction 1 as [|b l Hb Hl IH]; [done|]. by rewrite allocated_cons, Hb. Qed.

Lemma elem_of_allocated (l : list block) (p s : Z) :
  (p, s) ∈ allocated l <->
  exists l1 b l2, l = l1 ++ b :: l2 /\ b_free b = false /\ p = b_addr b + sizeof_header /\ s = b_size b.
Proof.
  split.
  - intros (b & Heq & Hb)%list_elem_of_fmap. simplify_eq.
    apply list_elem_of_In, List.filter_In in Hb as [Hb Hf].
    apply list_elem_of_In, list_elem_of_split in Hb as (l1 & l2 & ->).
    exists l1, b, l2. split_and!; try done. by apply negb_true_iff.
  - intros (l1 & b & l2 & -> & Hf & -> & ->). rewrite allocated_app, allocated_cons, Hf. set_solver.
Qed.

(** Allocated payloads are in ascending order without overlap. *)
Lemma allocated_disjoint (l : list block) (lo hi : Z) (i j : nat) (p s q t : Z) :
  laid lo l hi -> allocated l !! i = Some (p, s) -> allocated l !! j = Some (q, t) ->
  (i < j)%nat -> p + s + sizeof_header <= q.
Proof.
  revert lo i j. induction l as [|b l IH]; intros lo i j Hl Hi Hj Hij; [done|].
  destruct Hl as (H1 & H2 & H3). rewrite allocated_cons in Hi, Hj.
  destruct (b_free b); [by eapply IH|].
  destruct j as [|j]; [lia|]. destruct i as [|i]; simpl in Hi, Hj; [|eapply IH; eauto; lia].
  simplify_eq. assert ((q, t) ∈ allocated l) as (l1 & c & l2 & -> & _ & -> & ->)%elem_of_allocated
    by (by eapply list_elem_of_lookup_2).
  destruct (laid_bounds _ _ _ c H3 ltac:(set_solver)) as (Hc & _).
  unfold b_end, sizeof_header in *. lia.
Qed.

(** ** Freeing *)

Lemma free_block_seg (m : gmap Z header) (b : block) (n : Z) :
  m !! b_addr b = Some (hdr_of b n) -> b_addr b <> NULL -> free_block m (b_addr b) = b_free b.
Proof.
  intros Hm Hn. unfold free_block. rewrite (hdr_lookup _ _ _ Hm), (proj2 (Z.eqb_neq _ _)) by done.
  simpl. by destruct (b_free b).
Qed.

(** The block [b], already free, after the merge with its successor. *)
Lemma merge_next_rep (m : gmap Z header) (lo hi : Z) (l1 l2 : list block) (b : block) :
  rep m lo (l1 ++ b :: l2) hi -> b_free b = true ->
  let next := h_next (hdr m (b_addr b)) in
  exists s l2', rep (if free_block m next then absorb m (b_addr b) next else m) lo
    (l1 ++ mk_block (b_addr b) s true :: l2') hi /\ allocated l2' = allocated l2.
Proof.
  intros Hrep Hf. destruct (rep_mid _ _ _ _ _ _ Hrep) as (_ & _ & _ & _ & n & Hn & Hs).
  rewrite (hdr_lookup _ _ _ Hn). cbn [hdr_of h_next].
  assert (exists s l2', rep m lo (l1 ++ mk_block (b_addr b) s true :: l2') hi /\
    allocated l2' = allocated l2) as Hsame.
  { exists (b_size b), l2. destruct b; simpl in *; by subst. }
  destruct l2 as [|c l2]; [simpl in Hs; by subst n|].
  destruct Hs as (-> & Hc0 & k & Hk & _). rewrite (free_block_seg m c k Hk Hc0).
  destruct (b_free c) eqn:Hc; [|done].
  eexists _, l2. split; [|by rewrite allocated_cons, Hc].
  pose proof (absorb_rep m lo hi l1 l2 b c Hrep) as H. by rewrite Hf in H.
Qed.

(** ... and with its predecessor. *)
Lemma merge_prev_rep (m : gmap Z header) (lo hi : Z) (l1 l2 : list block) (b : block) (fuel : nat) :
  rep m lo (l1 ++ b :: l2) hi -> b_free b = true -> (length l1 < fuel)%nat ->
  let prev := find_prev fuel m NULL lo (b_addr b) in
  exists l1' s, rep (if free_block m prev then absorb m prev (b_addr b) else m) lo
    (l1' ++ mk_block s.1 s.2 true :: l2) hi /\ allocated l1' = allocated l1.
Proof.
  intros Hrep Hf Hfuel. pose proof Hrep as [Hs Hl _ _ _]. cbv zeta.
  rewrite (find_prev_spec m l1 l2 b fuel NULL lo NULL lo hi Hs Hl Hfuel).
  assert (exists l1' s, rep m lo (l1' ++ mk_block s.1 s.2 true :: l2) hi /\
    allocated l1' = allocated l1) as Hsame.
  { exists l1, (b_addr b, b_size b). destruct b; simpl in *; by subst. }
  destruct l1 as [|p l1 _] using rev_ind; [done|]. rewrite last_snoc. simpl.
  assert (rep m lo (l1 ++ p :: b :: l2) hi) as Hrep' by (by rewrite <-app_assoc in Hrep).
  destruct (rep_mid _ _ _ _ _ _ Hrep') as (Hp0 & _ & _ & _ & n & Hn & _).
  rewrite (free_block_seg m p n Hn) by (unfold NULL; lia).
  destruct (b_free p) eqn:Hp; [|done].
  exists l1, (b_addr p, b_size p + sizeof_header + b_size b). split.
  - pose proof (absorb_rep m lo hi l1 l2 p b Hrep') as H. by rewrite Hp in H.
  - rewrite allocated_app, allocated_cons, Hp. simpl. by rewrite app_nil_r.
Qed.

(** ** The heap *)
Section heap.
Context {F : Type} `{!FrameSource F}.
Implicit Types (h : kheap F) (bs : list block).

Definition mapped h (a : Z) : Prop :=
  exists phys, (a / PAGE_SIZE * PAGE_SIZE, phys) ∈ maps h /\ phys <> NULL.

Record heap_ok h bs : Prop := {
  hk_rep : rep (mem h) (heap_start h) bs (heap_current h);
  hk_first : heap_first h = heap_start h;
  hk_ne : bs <> [];
  hk_current : heap_current h mod PAGE_SIZE = 0;
  hk_maps : forall a, heap_start h <= a < heap_current h -> mapped h a;
  hk_frames : frame_ok (frames h);
}.

Lemma set_mem_ok h bs bs' (m : gmap Z header) :
  heap_ok h bs -> rep m (heap_start h) bs' (heap_current h) -> bs' <> [] ->
  heap_ok (set_mem h m) bs'.
Proof. intros [] Hrep Hne. by constructor. Qed.

Lemma rep_length (m : gmap Z header) (lo hi : Z) (l1 l2 : list block) :
  rep m lo (l1 ++ l2) hi -> (length l1 < S (base.size m))%nat.
Proof.
  intros [Hs Hl _ _ _]. pose proof (seg_length _ _ _ _ _ _ Hs Hl) as H.
  rewrite length_app in H. lia.
Qed.

Lemma release_rep (m : gmap Z header) (lo hi : Z) (l1 l2 : list block) (b : block) :
  rep m lo (l1 ++ b :: l2) hi ->
  exists l1' s l2', rep (release m lo (b_addr b)) lo (l1' ++ mk_block s.1 s.2 true :: l2') hi /\
    allocated l1' = allocated l1 /\ allocated l2' = allocated l2.
Proof.
  intros Hrep. pose proof (set_free_rep _ _ _ true _ _ _ Hrep) as H0. cbn [c_bool] in H0.
  unfold release. cbv zeta. set (m0 := <[b_addr b := _]> m) in *.
  destruct (merge_next_rep _ _ _ _ _ _ H0 eq_refl) as (s1 & l2' & H1 & Ha2). cbn [b_addr] in *.
  set (m1 := if free_block m0 _ then _ else _) in *.
  destruct (merge_prev_rep m1 _ _ l1 l2' _ (S (base.size m1)) H1 eq_refl) as (l1' & s2 & H2 & Ha1).
  { by eapply rep_length. }
  cbn [b_addr] in *. by exists l1', s2, l2'.
Qed.

Lemma kfree_ok h bs (p s : Z) :
  heap_ok h bs -> (p, s) ∈ allocated bs ->
  exists bs', heap_ok (kfree p h) bs' /\ allocated bs ≡ₚ (p, s) :: allocated bs' /\
    data (kfree p h) = data h /\ frames (kfree p h) = frames h /\
    heap_current (kfree p h) = heap_current h.
Proof.
  intros Hok (l1 & b & l2 & -> & Hf & -> & ->)%elem_of_allocated.
  destruct (rep_mid _ _ _ _ _ _ (hk_rep _ _ Hok)) as (Hp & Hs & He & _ & n & Hn & _).
  pose proof (rep_hi _ _ _ _ (hk_rep _ _ Hok)) as Hhi. unfold b_end, sizeof_header in He.
  assert (kfree (b_addr b + sizeof_header) h
    = set_mem h (release (mem h) (heap_first h) (b_addr b))) as ->.
  { unfold kfree, sizeof_header. replace (b_addr b + 16 - 16) with (b_addr b) by lia.
    rewrite (u32_small (b_addr b)) by (unfold is_u32; lia). rewrite (hdr_lookup _ _ _ Hn).
    rewrite (proj2 (Z.eqb_neq _ NULL)) by (unfold NULL; lia). done. }
  rewrite (hk_first _ _ Hok).
  destruct (release_rep _ _ _ _ _ _ (hk_rep _ _ Hok)) as (l1' & s & l2' & H2 & Ha1 & Ha2).
  eexists. split_and!; try done.
  - eapply set_mem_ok; [done|exact H2|]. by destruct l1'.
  - rewrite !allocated_app, !allocated_cons, Hf. cbn [b_free]. rewrite Ha1, Ha2.
    solve_Permutation.
Qed.

(** ** Growing *)

(** [h'] is [h] with the pages of [[current h, current h')] added. *)
Record grown h h' : Prop := {
  gr_start : heap_start h' = heap_start h;
  gr_first : heap_first h' = heap_first h;
  gr_le : heap_current h <= heap_current h';
  gr_pages : (heap_current h' - heap_current h) mod PAGE_SIZE = 0;
  gr_mem : forall a, a < heap_current h -> mem h' !! a = mem h !! a;
  gr_data : forall a, a < heap_current h -> data h' !! a = data h !! a;
  gr_maps : forall x, x ∈ maps h -> x ∈ maps h';
  gr_mapped : forall a, heap_current h <= a < heap_current h' -> mapped h' a;
  gr_frames : frame_ok (frames h');
}.

Lemma grow_page_ok (clear : bool) h :
  frame_ok (frames h) -> 0 < frames_free (frames h) -> heap_current h mod PAGE_SIZE = 0 ->
  0 <= heap_current h -> heap_current h + PAGE_SIZE < 2 ^ 32 ->
  exists h', grow_page clear h = Some h' /\ grown h h' /\
    heap_current h' = heap_current h + PAGE_SIZE /\
    frames_free (frames h') = frames_free (frames h) - 1.
Proof.
  intros Hf Hn Hc H0 Hb. unfold grow_page. pose proof (frame_alloc_some (frames h) Hf Hn) as H.
  destruct (frame_alloc (frames h)) as [phys f]. destruct H as (Hp & _ & _ & Hf' & Hn').
  rewrite (proj2 (Z.eqb_neq _ _)) by done.
  assert (u32 (heap_current h + PAGE_SIZE) = heap_current h + PAGE_SIZE) as Hu
    by (apply u32_small; unfold is_u32, PAGE_SIZE in *; lia).
  eexists. split_and!; [done| |done|done]. unfold PAGE_SIZE in *.
  constructor; cbn; rewrite ?Hu; try done; try lia.
  - replace (heap_current h + 4096 - heap_current h) with 4096 by lia. done.
  - intros a Ha. destruct clear; [|done]. rewrite map_lookup_filter.
    destruct (mem h !! a); simpl; [|done]. rewrite option_guard_True; [done|]. simpl. lia.
  - intros a Ha. destruct clear; [|done]. rewrite map_lookup_filter.
    destruct (data h !! a); simpl; [|done]. rewrite option_guard_True; [done|]. simpl. lia.
  - intros x Hx. by constructor.
  - intros a Ha. exists phys. split; [|done]. cbn. unfold PAGE_SIZE.
    replace (a / 4096 * 4096) with (heap_current h) by dlia. constructor.
Qed.

Lemma grown_trans h1 h2 h3 : grown h1 h2 -> grown h2 h3 -> grown h1 h3.
Proof.
  intros [] []. constructor; try congruence; try lia; try done.
  - unfold PAGE_SIZE in *. dlia.
  - intros a Ha. rewrite gr_mem1 by lia. auto.
  - intros a Ha. rewrite gr_data1 by lia. auto.
  - auto.
  - intros a Ha. destruct (Z.lt_ge_cases a (heap_current h2)); [|apply gr_mapped1; lia].
    destruct (gr_mapped0 a ltac:(lia)) as (p & Hp & Hn). exists p. auto.
Qed.

Lemma grow_loop_ok (clear : bool) (n : nat) h :
  frame_ok (frames h) -> Z.of_nat n <= frames_free (frames h) -> heap_current h mod PAGE_SIZE = 0 ->
  0 <= heap_current h -> heap_current h + Z.of_nat n * PAGE_SIZE < 2 ^ 32 ->
  exists h', grow_loop clear n h = (true, h') /\ grown h h' /\
    heap_current h' = heap_current h + Z.of_nat n * PAGE_SIZE /\
    frames_free (frames h') = frames_free (frames h) - Z.of_nat n.
Proof.
  revert h. induction n as [|n IH]; intros h Hf Hn Hc H0 Hb; cbn [grow_loop].
  { exists h. split_and!; try done; try lia. constructor; try done; try lia.
    by rewrite Z.sub_diag. }
  assert (0 < PAGE_SIZE) by done.
  destruct (grow_page_ok clear h Hf ltac:(lia) Hc H0 ltac:(nia)) as (h1 & -> & Hg & Hc1 & Hf1).
  destruct (IH h1) as (h2 & -> & Hg2 & Hc2 & Hf2).
  - apply Hg.
  - lia.
  - rewrite Hc1. unfold PAGE_SIZE in *. dlia.
  - lia.
  - lia.
  - exists h2. split_and!; [done|by eapply grown_trans|lia|lia].
Qed.

Lemma grown_ok h h' bs :
  heap_ok h bs -> grown h h' -> heap_current h' < 2 ^ 32 ->
  rep (mem h') (heap_start h') bs (heap_current h) /\ heap_ok h' bs.
Proof.
  intros [[Hs Hl Ha Hp Hh] Hfst Hne Hcur Hmaps Hfr] [] Hb.
  assert (rep (mem h') (heap_start h') bs (heap_current h)) as Hrep.
  { rewrite gr_start0. constructor; try done. eapply seg_frame; [|done]. intros b Hin. apply gr_mem0.
    pose proof (laid_bounds _ _ _ b Hl Hin). unfold b_end, sizeof_header in *. lia. }
  split; [done|]. constructor; try done; try congruence.
  - destruct Hrep. constructor; try done. by eapply laid_weaken.
  - unfold PAGE_SIZE in *. dlia.
  - intros a Ha'. destruct (Z.lt_ge_cases a (heap_current h)); [|apply gr_mapped0; lia].
    destruct (Hmaps a ltac:(lia)) as (p & ? & ?). exists p. auto.
Qed.

(** ** Allocating *)

Lemma append_rep (m : gmap Z header) (lo hi hi' size : Z) (l : list block) :
  rep m lo l hi -> l <> [] -> hi mod ALIGNMENT = 0 -> size mod ALIGNMENT = 0 -> 0 <= size ->
  hi + sizeof_header + size <= hi' -> hi' < 2 ^ 32 ->
  let m1 := <[hi := mk_header HEAP_BLOCK_MAGIC size 0 NULL]> m in
  let last := find_last (S (base.size m1)) m1 lo in
  rep (<[last := set_next (hdr m1 last) hi]> m1) lo (l ++ [mk_block hi size false]) hi'.
Proof.
  intros Hrep Hne Hhi Hal Hs Hb Hb'. cbv zeta. set (m1 := <[hi := _]> m).
  destruct l as [|b l _] using rev_ind; [done|]. pose proof Hrep as [Hseg Hl Ha Hp Hh].
  assert (forall c, c ∈ l ++ [b] -> lo <= b_addr c < hi) as Hlt.
  { intros c Hc. pose proof (laid_bounds _ _ _ c Hl Hc). unfold b_end, sizeof_header in *. lia. }
  assert (seg m1 lo (l ++ [b]) NULL) as Hs1.
  { eapply seg_frame; [|done]. intros c Hc%Hlt. apply lookup_insert_ne. lia. }
  assert (length l < S (base.size m1))%nat as Hlen.
  { pose proof (seg_length _ _ _ _ _ _ Hs1 Hl) as H. rewrite length_app in H. simpl in H. lia. }
  rewrite (find_last_spec m1 l b _ lo Hs1 Hlen).
  destruct (seg_mid _ _ _ _ _ _ Hs1) as (Hb0 & n & Hn & Hnull). simpl in Hnull. subst n.
  rewrite (hdr_lookup _ _ _ Hn). set (m2 := <[b_addr b := _]> m1).
  pose proof (Hlt b ltac:(set_solver)) as Hbhi.
  apply laid_app in Hl as (c & Hl1 & Hlb).
  constructor; try done.
  - apply seg_app. exists hi. split.
    + apply seg_app in Hs1 as (y & Hs1 & -> & _ & _). apply seg_app. exists (b_addr b). split.
      * eapply seg_frame; [|done]. intros d Hd. apply lookup_insert_ne.
        destruct (laid_bounds _ _ _ d Hl1 Hd) as (_ & ? & Hd2). destruct Hlb as (Hc & _).
        unfold b_end, sizeof_header in Hd2. lia.
      * split_and!; [done..|]. exists hi. split; [|done]. apply lookup_insert_eq.
    + split_and!; [done|unfold NULL; lia|]. exists NULL. split; [|done].
      unfold m2. rewrite lookup_insert_ne by lia. apply lookup_insert_eq.
  - apply laid_app. exists hi. split; [apply laid_app; by exists c|].
    simpl. unfold b_end. simpl. lia.
  - apply Forall_app. split; [done|]. by repeat constructor.
Qed.

(** What [kmalloc] does when it succeeds. *)
Definition malloc_post h bs (size : Z) (r : Z * kheap F) : Prop :=
  exists bs' s, heap_ok r.2 bs' /\ size <= s /\ r.1 <> NULL /\
    allocated bs' ≡ₚ (r.1, s) :: allocated bs /\
    heap_start r.2 = heap_start h /\ heap_current h <= heap_current r.2 /\
    (forall a, a < heap_current h -> data r.2 !! a = data h !! a).

Lemma kmalloc_fit h l1 b l2 (size : Z) :
  heap_ok h (l1 ++ b :: l2) -> b_free b = true -> 0 <= size <= b_size b -> size mod ALIGNMENT = 0 ->
  let m := split (mem h) (b_addr b) size in
  malloc_post h (l1 ++ b :: l2) size
    (u32 (b_addr b + sizeof_header), set_mem h (<[b_addr b := set_free (hdr m (b_addr b)) 0]> m)).
Proof.
  intros Hok Hf Hs Hal. pose proof (hk_rep _ _ Hok) as Hrep.
  destruct (rep_mid _ _ _ _ _ _ Hrep) as (Hp & _ & He & _).
  pose proof (rep_hi _ _ _ _ Hrep) as Hhi. unfold b_end, sizeof_header in He.
  destruct (split_rep _ _ _ size _ _ _ Hrep Hf Hs Hal) as (s & rest & Hrep' & Hle & Hfree).
  pose proof (set_free_rep _ _ _ false _ _ _ Hrep') as H. cbn [b_addr b_size c_bool] in H.
  eexists _, s. cbn [fst snd]. unfold sizeof_header.
  rewrite (u32_small (b_addr b + 16)) by (unfold is_u32; lia).
  split_and!; try done.
  - eapply set_mem_ok; [done|exact H|]. by destruct l1.
  - unfold NULL. lia.
  - rewrite !allocated_app, !allocated_cons, Hf, allocated_app, (allocated_free rest) by done.
    simpl. solve_Permutation.
Qed.

(** The frames and the address space an allocation may need. *)
Definition room_for h (size : Z) : Prop :=
  let needed := align_up (u32 (align_up size ALIGNMENT + sizeof_header)) PAGE_SIZE in
  needed / PAGE_SIZE <= frames_free (frames h) /\ heap_current h + needed < 2 ^ 32.

Lemma kmalloc_grow h bs (size : Z) :
  heap_ok h bs -> 0 <= size < 2 ^ 32 - 8192 -> size mod ALIGNMENT = 0 ->
  let needed := align_up (u32 (size + sizeof_header)) PAGE_SIZE in
  needed / PAGE_SIZE <= frames_free (frames h) -> heap_current h + needed < 2 ^ 32 ->
  let h1 := expand_heap size h in
  let new_block := u32 (heap_current h1 - needed) in
  let m1 := <[new_block := mk_header HEAP_BLOCK_MAGIC size 0 NULL]> (mem h1) in
  let last := find_last (S (base.size m1)) m1 (heap_first h1) in
  malloc_post h bs size
    (u32 (new_block + sizeof_header), set_mem h1 (<[last := set_next (hdr m1 last) new_block]> m1)).
Proof.
  intros Hok Hs Hal. unfold expand_heap, sizeof_header.
  rewrite (u32_small (size + 16)) by (unfold is_u32; lia).
  destruct (align4096 (size + 16) ltac:(lia)) as [Hn Hm].
  set (needed := align_up (size + 16) PAGE_SIZE) in *. cbv zeta. intros Hfr Hsp.
  pose proof (hk_rep _ _ Hok) as Hrep. pose proof Hrep as [_ Hl _ Hp Hhi].
  pose proof (laid_le _ _ _ Hl) as Hle.
  assert (Z.of_nat (Z.to_nat (needed / PAGE_SIZE)) = needed / PAGE_SIZE) as Hz.
  { apply Z2Nat.id, Z.div_pos; unfold PAGE_SIZE; lia. }
  assert (needed / PAGE_SIZE * PAGE_SIZE = needed) as Hq by (unfold PAGE_SIZE in *; dlia).
  destruct (grow_loop_ok true (Z.to_nat (needed / PAGE_SIZE)) h) as (h1 & -> & Hg & Hc1 & _).
  - apply (hk_frames _ _ Hok).
  - lia.
  - apply (hk_current _ _ Hok).
  - lia.
  - lia.
  - destruct (grown_ok _ _ _ Hok Hg ltac:(lia)) as [Hrep1 Hok1].
    cbn [heap_current mem heap_first]. replace (heap_current h1 - needed) with (heap_current h) by lia.
    pose proof (hk_current _ _ Hok) as Hcur.
    rewrite (u32_small (heap_current h)), (u32_small (heap_current h + 16)) by (unfold is_u32; lia).
    eexists (bs ++ [mk_block (heap_current h) size false]), size. cbn [fst snd].
    split_and!; try done.
    + destruct Hok1. constructor; try done; [|by destruct bs].
      cbn. rewrite hk_first0. apply append_rep; try done; try (unfold sizeof_header; lia).
      unfold PAGE_SIZE, ALIGNMENT in *. dlia.
    + unfold NULL. lia.
    + rewrite allocated_app. unfold allocated at 2. simpl. solve_Permutation.
    + apply (gr_start _ _ Hg).
    + apply (gr_le _ _ Hg).
    + apply (gr_data _ _ Hg).
Qed.

Lemma kmalloc_ok h bs (size : Z) :
  heap_ok h bs -> 0 < size < 2 ^ 32 - 8200 -> room_for h size -> malloc_post h bs size (kmalloc size h).
Proof.
  intros Hok Hs [Hfr Hsp]. unfold kmalloc. rewrite (proj2 (Z.eqb_neq _ _)) by lia. cbv zeta.
  destruct (align8 size ltac:(lia)) as [Ha Hm]. set (sz := align_up size ALIGNMENT) in *.
  assert (forall r, malloc_post h bs sz r -> malloc_post h bs size r) as Hweak.
  { intros r (bs' & s & H). exists bs', s. intuition lia. }
  apply Hweak. destruct (find_fit_spec (mem h) bs (fuel_of h) (heap_first h) sz)
    as [(l1 & b & l2 & -> & -> & Hf & Hle)|[-> _]].
  - rewrite (hk_first _ _ Hok). apply (rep_seg _ _ _ _ (hk_rep _ _ Hok)).
  - pose proof (hk_rep _ _ Hok) as Hrep. unfold fuel_of.
    apply (rep_length (mem h) (heap_start h) (heap_current h) bs []). by rewrite app_nil_r.
  - apply kmalloc_fit; try done. lia.
  - apply kmalloc_grow; try done. lia.
Qed.

Lemma kheap_init_ok h (start size : Z) :
  frame_ok (frames h) -> 0 < start -> start mod PAGE_SIZE = 0 ->
  sizeof_header <= size -> size mod ALIGNMENT = 0 -> start + size + PAGE_SIZE < 2 ^ 32 ->
  (size + PAGE_SIZE - 1) / PAGE_SIZE <= frames_free (frames h) ->
  heap_ok (kheap_init start size h) [mk_block start (size - sizeof_header) true].
Proof.
  intros Hf Hp Hpg Hs Hal Hb Hfr. unfold kheap_init, sizeof_header, PAGE_SIZE, ALIGNMENT in *.
  rewrite (u32_small (size + 4096 - 1)) by (unfold is_u32; lia).
  set (h0 := mk_kheap start _ start _ _ _ _ _).
  set (n := Z.to_nat ((size + 4096 - 1) / 4096)).
  assert (Z.of_nat n = (size + 4096 - 1) / 4096) as Hn by (apply Z2Nat.id, Z.div_pos; lia).
  destruct (grow_loop_ok false n h0) as (h1 & -> & Hg & Hc & _);
    unfold PAGE_SIZE; cbn [h0 frames heap_current]; rewrite ?Hn; try done; try lia; [dlia|].
  rewrite (u32_small (size - 16)) by (unfold is_u32; lia).
  unfold PAGE_SIZE in Hc. rewrite Hn in Hc. cbn [h0 heap_current] in Hc.
  pose proof Hg as []. cbn [h0 heap_start heap_first] in *.
  constructor; cbn [mem heap_start heap_current heap_first maps frames]; try done.
  - rewrite gr_start0. constructor; try done.
    + split_and!; [done|unfold NULL; simpl; lia|]. exists NULL. by rewrite lookup_insert_eq.
    + simpl. unfold b_end, sizeof_header. simpl. split_and!; [lia..|]. rewrite Hc. dlia.
    + repeat constructor; unfold ALIGNMENT; simpl; dlia.
    + rewrite Hc. dlia.
  - rewrite Hc. unfold PAGE_SIZE. dlia.
  - intros a Ha. rewrite gr_start0 in Ha. apply gr_mapped0. simpl. lia.
Qed.

(** ** Bytes *)

Lemma write_bytes_snoc (dst : Z) (n : nat) (f : kheap F -> Z -> Z) h :
  write_bytes dst (Z.of_nat (S n)) f h =
  let h1 := write_bytes dst (Z.of_nat n) f h in
  set_byte h1 (u32 (dst + Z.of_nat n)) (f h1 (Z.of_nat n)).
Proof. unfold write_bytes. by rewrite foldl_range_S. Qed.

(** Everything but the bytes is kept. *)
Definition same_but_data h h' : Prop :=
  mem h' = mem h /\ heap_start h' = heap_start h /\ heap_current h' = heap_current h /\
  heap_first h' = heap_first h /\ maps h' = maps h /\ frames h' = frames h.

Lemma same_but_data_ok h h' bs : same_but_data h h' -> heap_ok h bs -> heap_ok h' bs.
Proof.
  intros (H1 & H2 & H3 & H4 & H5 & H6) []. constructor; rewrite ?H1, ?H2, ?H3, ?H4, ?H6; try done.
  unfold mapped. by rewrite H5.
Qed.

(** Copying (or filling with [g i], for a source the loop does not write). *)
Lemma write_bytes_spec (dst : Z) (n : nat) (f : kheap F -> Z -> Z) (g : Z -> Z) h :
  0 <= dst -> dst + Z.of_nat n < 2 ^ 32 ->
  (forall h' i, 0 <= i < Z.of_nat n ->
    (forall a, ~ (dst <= a < dst + Z.of_nat n) -> byte_at h' a = byte_at h a) -> f h' i = g i) ->
  let h' := write_bytes dst (Z.of_nat n) f h in
  same_but_data h h' /\
  (forall a, ~ (dst <= a < dst + Z.of_nat n) -> byte_at h' a = byte_at h a) /\
  (forall i, 0 <= i < Z.of_nat n -> byte_at h' (dst + i) = g i).
Proof.
  intros Hd. induction n as [|n IH]; intros Hb Hf.
  { unfold write_bytes. rewrite range_nil by lia. simpl. split_and!; done || lia. }
  destruct IH as (Hs & Hout & Hin); [lia| |].
  { intros h' i Hi Ho. apply Hf; [lia|]. intros a Ha. apply Ho. lia. }
  rewrite write_bytes_snoc. cbv zeta in *. set (h1 := write_bytes dst (Z.of_nat n) f h) in *.
  rewrite (u32_small (dst + Z.of_nat n)) by (unfold is_u32; lia).
  assert (f h1 (Z.of_nat n) = g (Z.of_nat n)) as ->.
  { apply Hf; [lia|]. intros a Ha. apply Hout. lia. }
  split_and!; try apply Hs.
  - intros a Ha. unfold byte_at in *. cbn. rewrite lookup_insert_ne by lia. apply Hout. lia.
  - intros i Hi. unfold byte_at in *. cbn. destruct (decide (i = Z.of_nat n)) as [->|].
    + by rewrite lookup_insert_eq.
    + rewrite lookup_insert_ne by lia. apply Hin. lia.
Qed.

(** An allocated block lies inside the heap. *)
Lemma allocated_inside h bs (p s : Z) :
  heap_ok h bs -> (p, s) ∈ allocated bs ->
  heap_start h + sizeof_header <= p /\ 0 <= s /\ p + s <= heap_current h /\
  p mod ALIGNMENT = 0 /\ hdr (mem h) (u32 (p - sizeof_header)) = hdr (mem h) (p - sizeof_header) /\
  magic (hdr (mem h) (p - sizeof_header)) = HEAP_BLOCK_MAGIC /\
  h_size (hdr (mem h) (p - sizeof_header)) = s.
Proof.
  intros Hok (l1 & b & l2 & -> & _ & -> & ->)%elem_of_allocated.
  destruct (rep_mid _ _ _ _ _ _ (hk_rep _ _ Hok)) as (Hp & Hs & He & [Ha _] & n & Hn & _).
  pose proof (hk_rep _ _ Hok) as [_ Hl _ Hlo Hhi].
  destruct (laid_bounds _ _ _ b Hl ltac:(set_solver)) as (Hlb & _).
  unfold b_end, sizeof_header, ALIGNMENT in *. replace (b_addr b + 16 - 16) with (b_addr b) by lia.
  rewrite u32_small by (unfold is_u32; lia). rewrite (hdr_lookup _ _ _ Hn).
  split_and!; try done; try lia. dlia.
Qed.

Lemma krealloc_ok h bs (p s size : Z) (rest : list (Z * Z)) :
  heap_ok h bs -> allocated bs ≡ₚ (p, s) :: rest -> s < size < 2 ^ 32 - 8200 -> room_for h size ->
  let '(q, h') := krealloc p size h in
  exists bs' t, heap_ok h' bs' /\ size <= t /\ q <> NULL /\ allocated bs' ≡ₚ (q, t) :: rest /\
    forall i, 0 <= i < s -> byte_at h' (q + i) = byte_at h (p + i).
Proof.
  intros Hok Hp Hsz Hroom. assert ((p, s) ∈ allocated bs) as Hin by (rewrite Hp; constructor).
  destruct (allocated_inside h bs p s Hok Hin) as (Hps & Hs0 & Hpe & _ & Hu & Hmag & Hhs).
  pose proof (hk_rep _ _ Hok) as [_ _ _ Hlo Hhi]. unfold krealloc. unfold sizeof_header in *.
  rewrite (proj2 (Z.eqb_neq p _)), (proj2 (Z.eqb_neq size _)) by (unfold NULL; lia).
  cbv zeta. rewrite Hu, Hmag, Hhs, (proj2 (Z.leb_gt size s)) by lia. simpl.
  destruct (kmalloc_ok h bs size Hok ltac:(lia) Hroom) as (bs1 & t & Hok1 & Ht & Hq & Hperm & Hst & Hcur & Hd).
  destruct (kmalloc size h) as [q h1]. cbn [fst snd] in *. rewrite (proj2 (Z.eqb_neq q _)) by done.
  assert (p <> q /\ (p + s <= q \/ q + t <= p)) as [Hpq Hdis].
  { assert (exists i j : nat, i <> j /\ allocated bs1 !! i = Some (q, t) /\
      allocated bs1 !! j = Some (p, s)) as (i & j & Hij & Hi & Hj).
    { symmetry in Hperm. rewrite Hp in Hperm.
      apply Permutation_inj in Hperm as [_ (f & Hinj & Hf)].
      exists (f 0%nat), (f 1%nat). split_and!; [|by rewrite <-Hf..]. intros E%Hinj. done. }
    pose proof (rep_laid _ _ _ _ (hk_rep _ _ Hok1)) as Hl.
    destruct (Nat.lt_trichotomy i j) as [H|[H|H]]; [|done|].
    - pose proof (allocated_disjoint _ _ _ _ _ _ _ _ _ Hl Hi Hj H).
      unfold sizeof_header in *. lia.
    - pose proof (allocated_disjoint _ _ _ _ _ _ _ _ _ Hl Hj Hi H).
      unfold sizeof_header in *. lia. }
  assert ((q, t) ∈ allocated bs1) as Hqin by (rewrite Hperm; constructor).
  assert ((p, s) ∈ allocated bs1) as Hpin by (rewrite Hperm, Hp; set_solver).
  destruct (allocated_inside h1 bs1 q t Hok1 Hqin) as (Hqs & Ht0 & Hqe & _).
  destruct (allocated_inside h1 bs1 p s Hok1 Hpin) as (_ & _ & _ & _ & Hu1 & _ & Hhs1).
  pose proof (hk_rep _ _ Hok1) as [_ _ _ _ Hhi1]. unfold sizeof_header in *. rewrite Hu1, Hhs1.
  assert (Z.of_nat (Z.to_nat s) = s) as Hz by lia.
  destruct (write_bytes_spec q (Z.to_nat s) (fun h i => byte_at h (u32 (p + i)))
    (fun i => byte_at h1 (p + i)) h1) as (Hsame & _ & Hcopy); try lia.
  { intros h' i Hi Ho. rewrite u32_small by (unfold is_u32; lia). apply Ho. lia. }
  rewrite Hz in Hsame, Hcopy. set (h2 := write_bytes _ _ _ _) in *. apply (same_but_data_ok _ _ _ Hsame) in Hok1.
  destruct (kfree_ok h2 bs1 p s Hok1 Hpin) as (bs2 & Hok2 & Hperm2 & Hdata & _ & _).
  exists bs2, t. split_and!; try done.
  - apply (Permutation_cons_inv (a := (p, s))). rewrite <-Hperm2, Hperm, Hp. solve_Permutation.
  - intros i Hi. unfold byte_at at 1. rewrite Hdata. fold (byte_at h2 (q + i)).
    rewrite Hcopy by lia. unfold byte_at. by rewrite Hd by lia.
Qed.

(** ** Clients *)

(** A client that frees only pointers it holds; [room_for] says that the request
    can be met. *)
Inductive client_step : kheap F * list Z -> kheap F * list Z -> Prop :=
  | step_malloc h live size :
      0 < size < 2 ^ 32 - 8200 -> room_for h size ->
      client_step (h, live) ((kmalloc size h).2, (kmalloc size h).1 :: live)
  | step_free h live live' p :
      live ≡ₚ p :: live' -> client_step (h, live) (kfree p h, live').

(** The invariant of a heap with the client's live pointers. *)
Definition client_inv (c : kheap F * list Z) : Prop :=
  exists bs, heap_ok c.1 bs /\ (allocated bs).*1 ≡ₚ c.2.

Lemma client_step_inv (c d : kheap F * list Z) : client_inv c -> client_step c d -> client_inv d.
Proof.
  intros (bs & Hok & Hl) Hst. destruct Hst as [h live size Hs Hr|h live live' p Hp]; simpl in *.
  - destruct (kmalloc_ok h bs size Hok Hs Hr) as (bs' & s & Hok' & _ & _ & Ha & _).
    exists bs'. split; [done|]. simpl. by rewrite Ha, fmap_cons, Hl.
  - assert (p ∈ (allocated bs).*1) as ([p' s] & -> & Hin)%list_elem_of_fmap
      by (rewrite Hl, Hp; constructor).
    simpl in *. destruct (kfree_ok h bs p' s Hok Hin) as (bs' & Hok' & Ha & _).
    exists bs'. split; [done|]. simpl. apply (Permutation_cons_inv (a := p')).
    rewrite <-Hp, <-Hl, Ha. done.
Qed.

Lemma client_reach_inv (c d : kheap F * list Z) : client_inv c -> rtc client_step c d -> client_inv d.
Proof. intros Hc. induction 1; eauto using client_step_inv. Qed.



(** C6: [kfree] of an allocated block removes exactly that block from the allocated
    ones, whatever it merges, and leaves the heap well formed and every byte as
    it was. *)
Theorem kfree_refines h bs (p s : Z) :
  heap_ok h bs -> (p, s) ∈ allocated bs ->
  exists bs', heap_ok (kfree p h) bs' /\ allocated bs ≡ₚ (p, s) :: allocated bs' /\
    forall a, byte_at (kfree p h) a = byte_at h a.
Proof.
  intros Hok Hin. destruct (kfree_ok h bs p s Hok Hin) as (bs' & H1 & H2 & H3 & _).
  exists bs'. split_and!; try done. intros a. unfold byte_at. by rewrite H3.
Qed.

(** [krealloc] to a larger size moves the block: the old one is replaced among the
    allocated blocks by one of at least the new size, whose first bytes are the
    bytes of the old one; every other block stays. *)
Theorem krealloc_preserves h bs (p s size : Z) (rest : list (Z * Z)) :
  heap_ok h bs -> allocated bs ≡ₚ (p, s) :: rest -> s < size < 2 ^ 32 - 8200 -> room_for h size ->
  let '(q, h') := krealloc p size h in
  exists bs' t, heap_ok h' bs' /\ size <= t /\ q <> NULL /\ allocated bs' ≡ₚ (q, t) :: rest /\
    forall i, 0 <= i < s -> byte_at h' (q + i) = byte_at h (p + i).
Proof. apply krealloc_ok. Qed.

(** A request of 2^32 - 7 bytes or more wraps to zero when it is rounded up: with a
    free first block [kmalloc] returns a non-null pointer to a block of zero
    bytes. *)
Theorem kmalloc_wraps h b bs (size : Z) :
  heap_ok h (b :: bs) -> b_free b = true -> sizeof_header + ALIGNMENT < b_size b ->
  2 ^ 32 - 7 <= size < 2 ^ 32 ->
  let '(p, h') := kmalloc size h in
  p = b_addr b + sizeof_header /\ h_size (hdr (mem h') (b_addr b)) = 0.
Proof.
  intros Hok Hf Hb Hs. unfold kmalloc. rewrite (proj2 (Z.eqb_neq size 0)) by lia. cbv zeta.
  assert (align_up size ALIGNMENT = 0) as ->.
  { unfold align_up, ALIGNMENT. pose proof (mask_down (u32 (size + 8 - 1)) 3) as H.
    change (2 ^ 3) with 8 in H. rewrite H; [|apply u32_range|lia]. unfold u32. dlia. }
  destruct (rep_mid _ _ _ [] _ _ (hk_rep _ _ Hok)) as (Hp & _ & He & _ & n & Hn & _).
  pose proof (rep_seg _ _ _ _ (hk_rep _ _ Hok)) as (Hst & H0 & _).
  pose proof (rep_hi _ _ _ _ (hk_rep _ _ Hok)) as Hhi. unfold b_end, sizeof_header, ALIGNMENT in *.
  rewrite (hk_first _ _ Hok), Hst in *. unfold fuel_of. cbn [find_fit].
  rewrite (proj2 (Z.eqb_neq _ _)), (hdr_lookup _ _ _ Hn) by done. cbn [magic is_free h_size hdr_of].
  rewrite Hf, (proj2 (Z.leb_le 0 _)) by lia. simpl.
  rewrite (u32_small (b_addr b + 16)) by (unfold is_u32; lia). split; [done|].
  rewrite hdr_insert. unfold split. rewrite (hdr_lookup _ _ _ Hn). cbn [h_size hdr_of].
  unfold sizeof_header, ALIGNMENT. change (u32 (0 + 16 + 8)) with 24.
  rewrite (proj2 (Z.ltb_lt 24 _)) by lia. by rewrite !hdr_insert.
Qed.

(** When no block fits and no frame is left, [kmalloc] does not fail: it returns a
    pointer into the part of memory the heap already manages, computed as if the
    heap had grown. *)
Theorem kmalloc_exhausted h bs (size : Z) :
  heap_ok h bs -> 0 < size < 2 ^ 32 - 8200 -> frames_free (frames h) = 0 ->
  Forall (fun b => b_free b = true -> b_size b < align_up size ALIGNMENT) bs ->
  align_up (u32 (align_up size ALIGNMENT + sizeof_header)) PAGE_SIZE <= heap_current h ->
  let '(p, h') := kmalloc size h in
  heap_current h' = heap_current h /\ p <> NULL /\ p + size <= heap_current h.
Proof.
  intros Hok Hs Hfr Hno Hle. unfold kmalloc. rewrite (proj2 (Z.eqb_neq size 0)) by lia. cbv zeta.
  destruct (align8 size ltac:(lia)) as [Ha Hm]. set (sz := align_up size ALIGNMENT) in *.
  destruct (find_fit_spec (mem h) bs (fuel_of h) (heap_first h) sz)
    as [(l1 & b & l2 & -> & _ & Hf & Hb)|[-> _]].
  - rewrite (hk_first _ _ Hok). apply (rep_seg _ _ _ _ (hk_rep _ _ Hok)).
  - apply (rep_length (mem h) (heap_start h) (heap_current h) bs []). rewrite app_nil_r.
    apply (hk_rep _ _ Hok).
  - rewrite Forall_forall in Hno. specialize (Hno b ltac:(set_solver) Hf). lia.
  - unfold sizeof_header in *. rewrite (u32_small (sz + 16)) in * by (unfold is_u32; lia).
    destruct (align4096 (sz + 16) ltac:(lia)) as [Hn Hnm].
    set (needed := align_up (sz + 16) PAGE_SIZE) in *.
    pose proof (hk_rep _ _ Hok) as [_ _ _ Hlo Hhi].
    assert (heap_current (expand_heap sz h) = heap_current h) as Hc.
    { unfold expand_heap, sizeof_header. rewrite (u32_small (sz + 16)) by (unfold is_u32; lia).
      fold needed. assert (1 <= needed / PAGE_SIZE) by (unfold PAGE_SIZE in *; dlia).
      replace (Z.to_nat (needed / PAGE_SIZE)) with (S (Z.to_nat (needed / PAGE_SIZE - 1))) by lia.
      cbn [grow_loop]. unfold grow_page.
      rewrite (frame_alloc_none _ (hk_frames _ _ Hok) Hfr). done. }
    cbn [heap_current set_mem]. rewrite Hc.
    rewrite (u32_small (heap_current h - needed)) by (unfold is_u32; lia).
    rewrite (u32_small (heap_current h - needed + 16)) by (unfold is_u32, PAGE_SIZE in *; lia).
    split_and!; [done|unfold NULL; lia|lia].
Qed.

End heap.

(** ** Concrete heaps *)

(** A frame source that counts down. *)
Definition counter_alloc (n : nat) : Z * nat :=
  match n with O => (NULL, O) | S n => ((Z.of_nat n + 1) * 4096, n) end.

#[local] Instance counter_source : FrameSource nat.
Proof.
  refine {| frame_alloc := counter_alloc; frame_ok := fun n => (n <= 1000)%nat;
            frames_free := Z.of_nat |}.
  - intros. lia.
  - intros [|n] Hn Hp; simpl; [lia|]. unfold NULL.
    split_and!; [lia|apply Z.mod_mul; lia|lia|lia|lia|lia].
  - intros [|n] Hn Hp; [done|lia].
Defined.

Definition demo_raw : kheap nat := mk_kheap 0 0 0 0 ∅ ∅ [] 8%nat.
Definition demo_heap : kheap nat := kheap_init 1048576 4096 demo_raw.
Definition demo_block : block := mk_block 1048576 4080 true.

Lemma demo_heap_ok : heap_ok demo_heap [demo_block].
Proof.
  apply (kheap_init_ok demo_raw 1048576 4096); vm_compute; try done; by repeat constructor.
Qed.



(** The heap with one block of 104 bytes allocated. *)
Definition demo_one : kheap nat := (kmalloc 100 demo_heap).2.

Lemma demo_one_ok : exists rest, heap_ok demo_one (mk_block 1048576 104 false :: rest) /\
  allocated rest = [].
Proof.
  pose proof (kmalloc_fit demo_heap [] demo_block [] 104 demo_heap_ok eq_refl ltac:(simpl; lia)
    eq_refl) as (bs & s & Hok & _ & _ & Ha & _).
  change (set_mem demo_heap _) with demo_one in Hok. cbn [fst snd] in *.
  change (u32 (b_addr demo_block + sizeof_header)) with 1048592 in Ha.
  pose proof (rep_seg _ _ _ _ (hk_rep _ _ Hok)) as Hs. pose proof (hk_ne _ _ Hok) as Hne.
  destruct bs as [|b bs]; [done|]. destruct Hs as (Hb & _ & n & Hn & _).
  change (heap_start demo_one) with 1048576 in *.
  assert (mem demo_one !! 1048576 = Some (mk_header HEAP_BLOCK_MAGIC 104 0 1048696)) as Hm by done.
  rewrite Hm in Hn. destruct b as [a sz fr]. simpl in Hb. subst a.
  clear Hm. unfold hdr_of in Hn. injection Hn as <- Hfr <-. destruct fr; [discriminate Hfr|].
  exists bs. split; [done|]. rewrite allocated_cons in Ha. simpl in Ha.
  apply Permutation_length in Ha. simpl in Ha. by destruct (allocated bs).
Qed.

Lemma kfree_refines_witness :
  exists bs, heap_ok (kfree 1048592 demo_one) bs /\ allocated bs = [].
Proof.
  destruct demo_one_ok as (rest & Hok & Hr).
  destruct (kfree_refines demo_one _ 1048592 104 Hok) as (bs & H1 & H2 & _).
  - rewrite allocated_cons. simpl. rewrite Hr. set_solver.
  - exists bs. split; [done|]. rewrite allocated_cons in H2. simpl in H2. rewrite Hr in H2.
    apply Permutation_length in H2. simpl in H2. by destruct (allocated bs).
Defined.

Lemma krealloc_preserves_witness :
  exists bs t, heap_ok (krealloc 1048592 300 demo_one).2 bs /\ 300 <= t /\
    allocated bs ≡ₚ [((krealloc 1048592 300 demo_one).1, t)].
Proof.
  destruct demo_one_ok as (rest & Hok & Hr).
  pose proof (krealloc_preserves demo_one _ 1048592 104 300 [] Hok
    ltac:(rewrite allocated_cons; simpl; by rewrite Hr) ltac:(lia) ltac:(vm_compute; done)) as H.
  destruct (krealloc 1048592 300 demo_one) as [q h'].
  destruct H as (bs & t & H1 & H2 & _ & H3 & _). by exists bs, t.
Defined.

Lemma kmalloc_wraps_witness :
  let '(p, h') := kmalloc 4294967295 demo_heap in
  p = 1048592 /\ h_size (hdr (mem h') 1048576) = 0.
Proof.
  apply (kmalloc_wraps demo_heap demo_block [] 4294967295 demo_heap_ok); [done|vm_compute; done|lia].
Defined.

(** The same heap when no frame is left. *)
Definition demo_empty : kheap nat := kheap_init 1048576 4096 (mk_kheap 0 0 0 0 ∅ ∅ [] 1%nat).

Lemma kmalloc_exhausted_witness :
  let '(p, h') := kmalloc 5000 demo_empty in
  heap_current h' = heap_current demo_empty /\ p <> NULL /\ p + 5000 <= heap_current demo_empty.
Proof.
  apply (kmalloc_exhausted demo_empty [demo_block] 5000).
  - apply (kheap_init_ok (mk_kheap 0 0 0 0 ∅ ∅ [] 1%nat) 1048576 4096);
      vm_compute; try done; by repeat constructor.
  - lia.
  - done.
  - repeat constructor.
  - vm_compute. done.
Defined.

End Kheap.
