(* ===== verification/Vmm.v ===== *)
(** * Virtual memory (src/kernel/vmm.c)

    Two-level page tables.  Physical memory is a map from frame addresses to
    their 1024 words, so page directories and page tables are frames like any
    other; frames come from and go back to the physical page allocator.  A
    kernel panic is the result [None].  TLB and control-register instructions
    have no effect on this state.  [mmap_handle_page_fault],
    [page_replace_access] and [page_replace_evict] are parameters of the fault
    handler. *)

From S2P Require Import Prelude Pmm FrameSource.

Module Vmm.
Import Pmm FrameSource.

Definition PAGE_ENTRIES : Z := 1024.
Definition PTE_PRESENT : Z := 1.
Definition PTE_WRITABLE : Z := 2.
Definition PTE_USER : Z := 4.
Definition PTE_COW : Z := 512.
Definition KERNEL_BASE : Z := 3221225472. (* 0xC0000000 *)
Definition FRAME_MASK : Z := 4294963200. (* 0xFFFFF000 *)
Definition FLAG_MASK : Z := 4095. (* 0xFFF *)
Definition VMM_PAGE_FAULT_PRESENT : Z := 1.
Definition VMM_PAGE_FAULT_WRITE : Z := 2.

Record vm := mk_vm {
  mem : gmap Z (list Z); frames : pmm; kernel_page_directory : Z; current_page_directory : Z;
  next_virt : Z; heap_virt : Z; tick_count : Z;
}.

Definition set_mem (s : vm) (m : gmap Z (list Z)) : vm :=
  mk_vm m (frames s) (kernel_page_directory s) (current_page_directory s) (next_virt s)
    (heap_virt s) (tick_count s).
Definition set_frames (s : vm) (p : pmm) : vm :=
  mk_vm (mem s) p (kernel_page_directory s) (current_page_directory s) (next_virt s)
    (heap_virt s) (tick_count s).
Definition set_dirs (s : vm) (k c : Z) : vm :=
  mk_vm (mem s) (frames s) k c (next_virt s) (heap_virt s) (tick_count s).
Definition set_next_virt (s : vm) (v : Z) : vm :=
  mk_vm (mem s) (frames s) (kernel_page_directory s) (current_page_directory s) v (heap_virt s)
    (tick_count s).
Definition set_heap_virt (s : vm) (v : Z) : vm :=
  mk_vm (mem s) (frames s) (kernel_page_directory s) (current_page_directory s) (next_virt s) v
    (tick_count s).

Definition zero_frame : list Z := replicate (Z.to_nat PAGE_ENTRIES) 0.

(** Low memory is also mapped at [KERNEL_BASE]: the frame a pointer denotes. *)
Definition deref (p : Z) : Z := if KERNEL_BASE <=? p then p - KERNEL_BASE else p.

(** The words of the frame at [p], [p->entries[i]] and its assignment. *)
Definition words (s : vm) (p : Z) : list Z := default zero_frame (mem s !! deref p).
Definition entry (s : vm) (p i : Z) : Z := (words s p).[i].
Definition set_entry (s : vm) (p i v : Z) : vm :=
  set_mem s (<[deref p := (words s p).[i <- v]]> (mem s)).
Definition set_words (s : vm) (p : Z) (ws : list Z) : vm := set_mem s (<[deref p := ws]> (mem s)).

Definition alloc_page (s : vm) : Z * vm :=
  let '(a, p) := pmm_alloc_page (frames s) in (a, set_frames s p).
Definition free_page (a : Z) (s : vm) : vm := set_frames s (pmm_free_page a (frames s)).

Definition has (flag e : Z) : bool := c_true (Z.land e flag).

Definition get_page_table (s : vm) (dir virt : Z) : option Z :=
  let pde := entry s dir (Z.shiftr virt 22) in
  if negb (has PTE_PRESENT pde) then None else Some (Z.land pde FRAME_MASK).

(** [None] when no frame is left. *)
Definition create_page_table (dir virt flags : Z) (s : vm) : option (Z * vm) :=
  let pde := entry s dir (Z.shiftr virt 22) in
  if has PTE_PRESENT pde then Some (Z.land pde FRAME_MASK, s)
  else
    let '(phys, s1) := alloc_page s in
    if phys =? NULL then None
    else
      let s2 := set_words s1 phys zero_frame in
      Some (phys, set_entry s2 dir (Z.shiftr virt 22)
              (Z.lor (Z.lor (Z.lor phys (Z.land flags FLAG_MASK)) PTE_PRESENT) PTE_WRITABLE)).

Definition pte_index (virt : Z) : Z := Z.land (Z.shiftr virt 12) 1023.

Definition vmm_map_page (dir virt phys flags : Z) (s : vm) : option vm :=
  let pte := Z.lor (Z.lor (Z.land phys FRAME_MASK) (Z.land flags FLAG_MASK)) PTE_PRESENT in
  match get_page_table s dir virt with
  | Some table => Some (set_entry s table (pte_index virt) pte)
  | None =>
      match create_page_table dir virt flags s with
      | None => None
      | Some (table, s1) => Some (set_entry s1 table (pte_index virt) pte)
      end
  end.

Definition vmm_unmap_page (dir virt : Z) (s : vm) : vm :=
  match get_page_table s dir virt with
  | None => s
  | Some table =>
      let pte := entry s table (pte_index virt) in
      if has PTE_PRESENT pte then
        let phys := Z.land pte FRAME_MASK in
        let s1 := set_entry s table (pte_index virt) 0 in
        if negb (has PTE_COW pte) then free_page phys s1 else s1
      else s
  end.

Definition vmm_get_physical (s : vm) (dir virt : Z) : Z :=
  match get_page_table s dir virt with
  | None => 0
  | Some table =>
      let pte := entry s table (pte_index virt) in
      if negb (has PTE_PRESENT pte) then 0
      else Z.lor (Z.land pte FRAME_MASK) (Z.land virt FLAG_MASK)
  end.

(** Run a loop body that may panic. *)
Fixpoint for_each {A} (f : A -> vm -> option vm) (l : list A) (s : vm) : option vm :=
  match l with
  | [] => Some s
  | x :: l => match f x s with Some s' => for_each f l s' | None => None end
  end.

Definition hh_end : Z := 134217728. (* 128 MB *)

Definition init_vmm (s : vm) : option vm :=
  let '(dir_phys, s1) := alloc_page s in
  if dir_phys =? NULL then None
  else
    let s2 := set_words (set_dirs s1 dir_phys dir_phys) dir_phys zero_frame in
    let rw := Z.lor PTE_PRESENT PTE_WRITABLE in
    match for_each (fun i s =>
            let phys := i * PAGE_SIZE in
            match vmm_map_page dir_phys phys phys rw s with
            | Some s' => vmm_map_page dir_phys (u32 (KERNEL_BASE + phys)) phys rw s'
            | None => None
            end) (range 0 (hh_end / PAGE_SIZE)) s2 with
    | Some s3 => Some (set_dirs s3 (u32 (dir_phys + KERNEL_BASE)) (u32 (dir_phys + KERNEL_BASE)))
    | None => None
    end.

Definition vmm_create_address_space (s : vm) : Z * vm :=
  let '(dir_phys, s1) := alloc_page s in
  if dir_phys =? NULL then (NULL, s1)
  else
    let f i :=
      let e := entry s1 (kernel_page_directory s1) i in
      if has PTE_PRESENT e then (if Z.shiftr KERNEL_BASE 22 <=? i then e else 0) else 0 in
    (dir_phys, set_words s1 dir_phys (f <$> range 0 PAGE_ENTRIES)).

Definition destroy_entry (table : Z) (s : vm) (j : Z) : vm :=
  let e := entry s table j in
  if has PTE_PRESENT e then free_page (Z.land e FRAME_MASK) s else s.

Definition destroy_table (dir : Z) (s : vm) (i : Z) : vm :=
  let e := entry s dir i in
  if has PTE_PRESENT e then
    let table := Z.land e FRAME_MASK in
    let s1 := foldl (destroy_entry table) s (range 0 PAGE_ENTRIES) in
    set_entry (free_page table s1) dir i 0
  else s.

Definition vmm_destroy_address_space (dir : Z) (s : vm) : vm :=
  free_page dir (foldl (destroy_table dir) s (range 0 (Z.shiftr KERNEL_BASE 22))).

(** The number of iterations of [for (offset = 0; offset < size; offset += PAGE_SIZE)],
    for a size that does not make [offset] wrap. *)
Definition page_steps (size : Z) : Z := (size + PAGE_SIZE - 1) / PAGE_SIZE.

Definition vmm_map_physical (phys size : Z) (s : vm) : option (Z * vm) :=
  let start := next_virt s in
  match for_each (fun i s =>
          match vmm_map_page (kernel_page_directory s) (next_virt s) (u32 (phys + i * PAGE_SIZE))
                  (Z.lor PTE_PRESENT PTE_WRITABLE) s with
          | Some s' => Some (set_next_virt s' (u32 (next_virt s' + PAGE_SIZE)))
          | None => None
          end) (range 0 (page_steps size)) s with
  | Some s' => Some (start, s')
  | None => None
  end.

Definition vmm_unmap_physical (virt size : Z) (s : vm) : vm :=
  foldl (fun s i => vmm_unmap_page (kernel_page_directory s) (u32 (virt + i * PAGE_SIZE)) s) s
    (range 0 (page_steps size)).

Definition vmm_free_pages (addr count : Z) (s : vm) : vm :=
  foldl (fun s i => vmm_unmap_page (kernel_page_directory s) (u32 (addr + i * PAGE_SIZE)) s) s
    (range 0 count).

Definition vmm_copy_page_fault_cow (dir addr0 : Z) (s : vm) : option (Z * vm) :=
  let addr := Z.land addr0 FRAME_MASK in
  let phys_old := Z.land (vmm_get_physical s dir addr) FRAME_MASK in
  let '(phys_new, s1) := alloc_page s in
  if phys_new =? NULL then Some (-1, s1)
  else
    let s2 := set_words s1 phys_new (words s1 phys_old) in
    let s3 := vmm_unmap_page dir addr s2 in
    match vmm_map_page dir addr phys_new
            (Z.lor (Z.lor PTE_PRESENT PTE_WRITABLE) (if addr <? KERNEL_BASE then PTE_USER else 0)) s3 with
    | Some s4 => Some (0, s4)
    | None => None
    end.

Section faults.
Context (mmap_handle_page_fault : Z -> Z -> vm -> vm).
Context (page_replace_access : Z -> Z -> vm -> vm).
Context (page_replace_evict : vm -> Z * vm).

(** [pmm_alloc_page], with a second try after an eviction. *)
Definition alloc_or_evict (s : vm) : Z * vm :=
  let '(phys, s1) := alloc_page s in
  if phys =? NULL then
    let '(r, s2) := page_replace_evict s1 in
    if r =? 0 then alloc_page s2 else (NULL, s2)
  else (phys, s1).

(** The loop of [vmm_alloc_pages]; [done] pages are mapped already. *)
Fixpoint alloc_loop (start flags : Z) (n : nat) (don : Z) (s : vm) : option (Z * vm) :=
  match n with
  | O => Some (start, s)
  | S n =>
      let '(phys, s1) := alloc_or_evict s in
      if phys =? NULL then Some (NULL, vmm_free_pages start don s1)
      else
        match vmm_map_page (kernel_page_directory s1) (heap_virt s1) phys
                (Z.lor (Z.lor flags PTE_PRESENT) PTE_WRITABLE) s1 with
        | Some s2 => alloc_loop start flags n (don + 1)
                       (set_heap_virt s2 (u32 (heap_virt s2 + PAGE_SIZE)))
        | None => None
        end
  end.

Definition vmm_alloc_pages (count flags : Z) (s : vm) : option (Z * vm) :=
  alloc_loop (heap_virt s) flags (Z.to_nat count) 0 s.

(** [curr], the pid of the current process, if there is one. *)
Definition vmm_handle_page_fault (curr : option Z) (error_code fault_addr : Z) (s : vm)
    : option (Z * vm) :=
  let cur s := current_page_directory s in
  let present := has VMM_PAGE_FAULT_PRESENT error_code in
  let s1 := match curr with
            | Some pid => if negb present then mmap_handle_page_fault fault_addr pid s else s
            | None => s
            end in
  if negb present && bool_decide (is_Some curr) && negb (vmm_get_physical s1 (cur s1) fault_addr =? 0)
  then Some (0, s1)
  else if present then
    if has VMM_PAGE_FAULT_WRITE error_code &&
       has PTE_COW (vmm_get_physical s1 (cur s1) fault_addr)
    then vmm_copy_page_fault_cow (cur s1) fault_addr s1
    else Some (-1, s1)
  else
    let s2 := match curr with
              | Some pid => page_replace_access (Z.land fault_addr FRAME_MASK) pid s1
              | None => s1
              end in
    if bool_decide (is_Some curr) && negb (vmm_get_physical s2 (cur s2) fault_addr =? 0)
    then Some (0, s2)
    else
      let '(phys, s3) := alloc_or_evict s2 in
      if phys =? NULL then Some (-1, s3)
      else
        match vmm_map_page (cur s3) fault_addr phys
                (Z.lor (Z.lor PTE_PRESENT PTE_WRITABLE)
                   (if fault_addr <? KERNEL_BASE then PTE_USER else 0)) s3 with
        | Some s4 => Some (0, s4)
        | None => None
        end.
End faults.

Definition vmm_swap_out (s : vm) : vm :=
  mk_vm (mem s) (frames s) (kernel_page_directory s) (current_page_directory s) (next_virt s)
    (heap_virt s) (u64 (tick_count s + 1)).

(** The entry both copies get for a present entry. *)
Definition cow_entry (e : Z) : Z :=
  Z.lor (Z.land e FRAME_MASK) (Z.lor (Z.land (Z.land e FLAG_MASK) (Z.lnot PTE_WRITABLE)) PTE_COW).

Definition clone_entry (src_table dst_table : Z) (s : vm) (j : Z) : vm :=
  let e := entry s src_table j in
  if has PTE_PRESENT e then
    let s1 := set_entry s dst_table j (cow_entry e) in
    set_entry s1 src_table j (cow_entry e)
  else set_entry s dst_table j 0.

(** The loop over the directory; [-1] when no frame is left for a table. *)
Fixpoint clone_loop (dst src : Z) (idxs : list Z) (s : vm) : Z * vm :=
  match idxs with
  | [] => (0, s)
  | i :: idxs =>
      let e := entry s src i in
      if Z.shiftr KERNEL_BASE 22 <=? i then clone_loop dst src idxs (set_entry s dst i e)
      else if has PTE_PRESENT e then
        let src_table := Z.land e FRAME_MASK in
        let '(dst_table, s1) := alloc_page s in
        if dst_table =? NULL then (-1, s1)
        else
          let s2 := foldl (clone_entry src_table dst_table) s1 (range 0 PAGE_ENTRIES) in
          clone_loop dst src idxs
            (set_entry s2 dst i (Z.lor dst_table (Z.land (entry s2 src i) FLAG_MASK)))
      else clone_loop dst src idxs s
  end.

Definition vmm_clone_address_space (dst src : Z) (s : vm) : Z * vm :=
  clone_loop dst src (range 0 PAGE_ENTRIES) s.

Definition vmm_get_current_dir (s : vm) : Z := current_page_directory s.
Definition vmm_set_current_dir (dir : Z) (s : vm) : vm := set_dirs s (kernel_page_directory s) dir.

(** ** Bits of entries *)

Lemma testbit_FRAME_MASK (j : Z) : 0 <= j -> Z.testbit FRAME_MASK j = (12 <=? j) && (j <? 32).
Proof.
  intros Hj. change FRAME_MASK with (Z.shiftl (Z.ones 20) 12). rewrite Z.shiftl_spec by lia.
  destruct (Z.leb_spec 12 j); simpl; [|apply Z.testbit_neg_r; lia].
  destruct (Z.ltb_spec j 32); [apply Z.ones_spec_low|apply Z.ones_spec_high]; lia.
Qed.

Lemma testbit_FLAG_MASK (j : Z) : 0 <= j -> Z.testbit FLAG_MASK j = (j <? 12).
Proof.
  intros Hj. change FLAG_MASK with (Z.ones 12).
  destruct (Z.ltb_spec j 12); [apply Z.ones_spec_low|apply Z.ones_spec_high]; lia.
Qed.

Lemma testbit_pow2 (k j : Z) : 0 <= k -> 0 <= j -> Z.testbit (2 ^ k) j = (k =? j).
Proof. intros. rewrite <-(Z.mul_1_l (2 ^ k)), <-Z.shiftl_mul_pow2 by lia. by apply testbit_one_shl. Qed.

(** The bits of an expression built from the masks. *)
Ltac entry_bits :=
  apply Z.bits_inj'; intros ?j ?Hj;
  rewrite ?Z.lor_spec, ?Z.land_spec, ?Z.lor_spec, ?Z.land_spec, ?testbit_FRAME_MASK,
    ?testbit_FLAG_MASK by lia.

Lemma has_pow2 (k e : Z) : 0 <= k -> has (2 ^ k) e = Z.testbit e k.
Proof.
  intros Hk. unfold has, c_true. destruct (Z.testbit e k) eqn:E.
  - apply negb_true_iff, Z.eqb_neq. intros H. assert (Z.testbit (Z.land e (2 ^ k)) k = true) as Ht.
    { by rewrite Z.land_spec, E, Z.pow2_bits_true. }
    by rewrite H, Z.bits_0 in Ht.
  - apply negb_false_iff, Z.eqb_eq. apply Z.bits_inj'. intros j Hj.
    rewrite Z.land_spec, Z.bits_0, testbit_pow2 by lia.
    destruct (Z.eqb_spec k j) as [<-|]; [by rewrite E|apply andb_false_r].
Qed.

Lemma has_present (e : Z) : has PTE_PRESENT e = Z.testbit e 0.
Proof. by apply (has_pow2 0). Qed.
Lemma has_cow (e : Z) : has PTE_COW e = Z.testbit e 9.
Proof. by apply (has_pow2 9). Qed.
Lemma has_writable (e : Z) : has PTE_WRITABLE e = Z.testbit e 1.
Proof. by apply (has_pow2 1). Qed.

Definition mk_pte (phys flags : Z) : Z :=
  Z.lor (Z.lor (Z.land phys FRAME_MASK) (Z.land flags FLAG_MASK)) PTE_PRESENT.

Lemma mk_pte_present (phys flags : Z) : has PTE_PRESENT (mk_pte phys flags) = true.
Proof. rewrite has_present. unfold mk_pte. by rewrite !Z.lor_spec, orb_true_r. Qed.

Lemma testbit_small (c k j : Z) : 0 <= c < 2 ^ k -> 0 <= k <= j -> Z.testbit c j = false.
Proof.
  intros Hc Hk. rewrite <-(Z.mod_small c (2 ^ k)) by done. by apply Z.mod_pow2_bits_high.
Qed.

Lemma mk_pte_frame (phys flags : Z) : Z.land (mk_pte phys flags) FRAME_MASK = Z.land phys FRAME_MASK.
Proof.
  unfold mk_pte. entry_bits. destruct (Z.leb_spec 12 j); [|by rewrite !andb_false_r].
  rewrite (testbit_small PTE_PRESENT 12) by (unfold PTE_PRESENT; lia).
  rewrite (proj2 (Z.ltb_ge j 12)) by lia. destruct (j <? 32); simpl; by rewrite ?andb_false_r, ?andb_true_r, ?orb_false_r.
Qed.

Lemma frame_mask_aligned (a : Z) : is_u32 a -> a mod 4096 = 0 -> Z.land a FRAME_MASK = a.
Proof.
  intros Ha Hm. assert (a = Z.shiftl (a / 4096) 12) as E.
  { rewrite Z.shiftl_mul_pow2 by lia. change (2 ^ 12) with 4096. dlia. }
  entry_bits. destruct (Z.leb_spec 12 j); simpl.
  - destruct (Z.ltb_spec j 32); [apply andb_true_r|]. rewrite is_u32_testbit by done. done.
  - rewrite E, Z.shiftl_spec, Z.testbit_neg_r by lia. done.
Qed.

Lemma frame_of_pde (a f : Z) :
  is_u32 a -> a mod 4096 = 0 ->
  Z.land (Z.lor (Z.lor (Z.lor a (Z.land f FLAG_MASK)) PTE_PRESENT) PTE_WRITABLE) FRAME_MASK = a.
Proof.
  intros Ha Hm. rewrite <-(frame_mask_aligned a Ha Hm) at 2. entry_bits.
  destruct (Z.leb_spec 12 j); [|by rewrite !andb_false_r].
  rewrite (testbit_small PTE_PRESENT 12), (testbit_small PTE_WRITABLE 12)
    by (unfold PTE_PRESENT, PTE_WRITABLE; lia).
  rewrite (proj2 (Z.ltb_ge j 12)) by lia. by rewrite !orb_false_r, andb_false_r, orb_false_r.
Qed.

Lemma pde_present (x : Z) : has PTE_PRESENT (Z.lor (Z.lor x PTE_PRESENT) PTE_WRITABLE) = true.
Proof. rewrite has_present. by rewrite !Z.lor_spec, orb_true_r. Qed.

Lemma cow_entry_spec (e : Z) :
  has PTE_PRESENT (cow_entry e) = has PTE_PRESENT e /\ has PTE_COW (cow_entry e) = true /\
  has PTE_WRITABLE (cow_entry e) = false /\ Z.land (cow_entry e) FRAME_MASK = Z.land e FRAME_MASK.
Proof.
  rewrite !has_present, has_cow, has_writable. unfold cow_entry.
  split_and!; [rewrite !Z.lor_spec, !Z.land_spec; cbn; by rewrite ?andb_false_r, ?andb_true_r, ?orb_false_r, ?orb_true_r..|].
  apply Z.bits_inj'. intros j Hj. rewrite !Z.land_spec, !Z.lor_spec, !Z.land_spec.
  rewrite testbit_FRAME_MASK, testbit_FLAG_MASK by lia.
  destruct (Z.leb_spec 12 j); [|by rewrite !andb_false_r].
  rewrite (testbit_small PTE_COW 12) by (unfold PTE_COW; lia).
  rewrite (proj2 (Z.ltb_ge j 12)) by lia. rewrite !andb_false_r. simpl. rewrite orb_false_r.
  by destruct (Z.testbit e j), (j <? 32).
Qed.

(** ** Memory *)

Definition mem_ok (s : vm) : Prop := forall a ws, mem s !! a = Some ws -> zlen ws = PAGE_ENTRIES.

Definition index_ok (i : Z) : Prop := 0 <= i < PAGE_ENTRIES.

Lemma zero_frame_len : zlen zero_frame = PAGE_ENTRIES.
Proof. reflexivity. Qed.

Lemma words_len (s : vm) (p : Z) : mem_ok s -> zlen (words s p) = PAGE_ENTRIES.
Proof. intros Hs. unfold words. destruct (mem s !! deref p) eqn:E; [by eapply Hs|done]. Qed.

Lemma set_words_ok (s : vm) (p : Z) (ws : list Z) :
  mem_ok s -> zlen ws = PAGE_ENTRIES -> mem_ok (set_words s p ws).
Proof.
  intros Hs Hw a ws'. cbn. rewrite lookup_insert_Some. intros [[_ <-]|[_ H]]; [done|by eapply Hs].
Qed.

Lemma set_entry_ok (s : vm) (p i v : Z) : mem_ok s -> mem_ok (set_entry s p i v).
Proof. intros Hs. apply set_words_ok; [done|]. rewrite zlen_aset. by apply words_len. Qed.

Lemma words_set_words (s : vm) (p q : Z) (ws : list Z) :
  words (set_words s p ws) q = if deref q =? deref p then ws else words s q.
Proof.
  unfold words, set_words. cbn. destruct (Z.eqb_spec (deref q) (deref p)) as [->|].
  - by rewrite lookup_insert_eq.
  - by rewrite lookup_insert_ne.
Qed.

Lemma entry_set_entry (s : vm) (p i v q j : Z) :
  mem_ok s -> index_ok i -> index_ok j ->
  entry (set_entry s p i v) q j = if (deref q =? deref p) && (j =? i) then v else entry s q j.
Proof.
  intros Hs Hi Hj. unfold entry. change (set_entry s p i v) with (set_words s p ((words s p).[i <- v])).
  rewrite words_set_words. pose proof (words_len s p Hs). unfold index_ok in *.
  destruct (Z.eqb_spec (deref q) (deref p)) as [E|]; simpl; [|done].
  assert (words s q = words s p) as -> by (unfold words; by rewrite E).
  destruct (Z.eqb_spec j i) as [->|].
  - by rewrite aget_aset_eq by lia.
  - by rewrite aget_aset_ne by lia.
Qed.

Lemma entry_zero (i : Z) : index_ok i -> zero_frame.[i] = 0.
Proof.
  intros Hi. unfold aget, zero_frame. apply lookup_total_replicate_2. unfold index_ok in Hi. lia.
Qed.

(** ** Frames *)

(** The frame at address [a] is managed and in use. *)
Definition frame_used (p : pmm) (a : Z) : Prop :=
  a mod PAGE_SIZE = 0 /\ 0 <= a / PAGE_SIZE < total_pages p /\ page_used p (a / PAGE_SIZE) = true.

(** [pmm_alloc_page] returns [NULL] or a frame that was not in use. *)
Lemma alloc_fresh (p : pmm) :
  pmm_frame_ok p ->
  let '(a, q) := pmm_alloc_page p in
  (a = NULL /\ q = p /\ pmm_frames_free p = 0) \/
  (a <> NULL /\ ~ frame_used p a /\ pmm_frame_ok q /\ total_pages q = total_pages p /\
   frame_used q a /\ forall x, frame_used p x -> frame_used q x).
Proof.
  intros Hok. pose proof Hok as ([d Hd] & H0 & Ht).
  destruct (pmm_alloc_page_found d p Hd) as [(k & (Hk & Hu & Hn) & ->)|[Hn ->]].
  - right. destruct (pmm_marked_ok d k p Hd Hok Hk Hu) as [Hok' _].
    destruct (mark_inv d k p Hd Hk Hu) as [Hi (Ht' & _ & Hm)]. pose proof Hd as [].
    unfold allocated in *. cbn [snd] in Hok'.
    assert (k * PAGE_SIZE / PAGE_SIZE = k) as Hdiv by (apply Z.div_mul; done).
    assert (k <> 0) by congruence. unfold NULL, frame_used. rewrite Hdiv.
    split_and!; try done; try lia.
    + unfold PAGE_SIZE. lia.
    + intros (_ & _ & Hx). congruence.
    + apply Z.mod_mul. done.
    + rewrite Hm by (unfold PMM_MAX_PAGES in *; lia). by rewrite Z.eqb_refl.
    + intros x (Hx1 & Hx2 & Hx3). split_and!; try done; try lia.
      rewrite Hm by (unfold PMM_MAX_PAGES in *; lia). by rewrite Hx3, orb_true_r.
  - left. split_and!; try done. unfold pmm_frames_free, count_used. rewrite zcount_all.
    + rewrite zlen_range; lia.
    + intros i Hi%elem_of_range. apply Hn; lia.
Qed.

(** ** Directories *)

Definition pde_frame (s : vm) (dir i : Z) : Z := Z.land (entry s dir i) FRAME_MASK.
Definition pde_present_at (s : vm) (dir i : Z) : bool := has PTE_PRESENT (entry s dir i).

(** Memory is sane, physical memory ends below [KERNEL_BASE]. *)
Record vm_ok (s : vm) : Prop := {
  vo_mem : mem_ok s;
  vo_frames : pmm_frame_ok (frames s);
  vo_total : total_pages (frames s) * PAGE_SIZE <= KERNEL_BASE;
}.

(** The tables of a directory are distinct used frames other than the directory. *)
Record dir_ok (s : vm) (dir : Z) : Prop := {
  do_used : frame_used (frames s) (deref dir);
  do_table : forall i, index_ok i -> pde_present_at s dir i = true ->
    frame_used (frames s) (pde_frame s dir i) /\ pde_frame s dir i <> deref dir;
  do_inj : forall i j, index_ok i -> index_ok j -> pde_present_at s dir i = true ->
    pde_present_at s dir j = true -> pde_frame s dir i = pde_frame s dir j -> i = j;
}.

Lemma used_below (s : vm) (a : Z) :
  vm_ok s -> frame_used (frames s) a -> 0 <= a < KERNEL_BASE /\ deref a = a.
Proof.
  intros [] (H1 & H2 & _). unfold PAGE_SIZE, KERNEL_BASE in *.
  assert (0 <= a < 3221225472) as Ha by dlia. split; [done|]. unfold deref, KERNEL_BASE.
  case_if; lia.
Qed.

(** The indices of an address. *)
Lemma dir_index (v : Z) : is_u32 v -> index_ok (Z.shiftr v 22).
Proof.
  intros Hv. unfold is_u32, index_ok, PAGE_ENTRIES in *. rewrite Z.shiftr_div_pow2 by lia.
  change (2 ^ 22) with 4194304. dlia.
Qed.

Lemma pte_index_mod (v : Z) : pte_index v = v / 4096 mod 1024.
Proof.
  unfold pte_index. rewrite Z.shiftr_div_pow2 by lia. change 1023 with (Z.ones 10).
  by rewrite Z.land_ones by lia.
Qed.

Lemma table_index (v : Z) : index_ok (pte_index v).
Proof. rewrite pte_index_mod. unfold index_ok, PAGE_ENTRIES. dlia. Qed.

(** Two addresses are in the same page when both indices agree. *)
Lemma same_page (v w : Z) :
  (v / 4096 =? w / 4096) = (Z.shiftr v 22 =? Z.shiftr w 22) && (pte_index v =? pte_index w).
Proof.
  rewrite !pte_index_mod, !Z.shiftr_div_pow2 by lia. change (2 ^ 22) with 4194304.
  destruct (Z.eqb_spec (v / 4096) (w / 4096)), (Z.eqb_spec (v / 4194304) (w / 4194304)),
    (Z.eqb_spec (v / 4096 mod 1024) (w / 4096 mod 1024)); simpl; try done; dlia.
Qed.

(** The page-table entry of an address: [None] when there is no table. *)
Definition pte_of (s : vm) (dir v : Z) : option Z :=
  if pde_present_at s dir (Z.shiftr v 22)
  then Some (entry s (pde_frame s dir (Z.shiftr v 22)) (pte_index v)) else None.

Definition translate (pte : option Z) (v : Z) : Z :=
  match pte with
  | Some e => if has PTE_PRESENT e then Z.lor (Z.land e FRAME_MASK) (Z.land v FLAG_MASK) else 0
  | None => 0
  end.

Lemma get_physical_pte (s : vm) (dir v : Z) : vmm_get_physical s dir v = translate (pte_of s dir v) v.
Proof.
  unfold vmm_get_physical, get_page_table, pte_of, pde_present_at, pde_frame.
  destruct (has PTE_PRESENT (entry s dir (Z.shiftr v 22))); simpl; [|done].
  by destruct (has PTE_PRESENT _).
Qed.

(** Writing an entry of the table of [v] changes the entry of that page only. *)
Lemma pte_of_write (s : vm) (dir v e w : Z) :
  vm_ok s -> dir_ok s dir -> is_u32 v -> is_u32 w -> pde_present_at s dir (Z.shiftr v 22) = true ->
  let s' := set_entry s (pde_frame s dir (Z.shiftr v 22)) (pte_index v) e in
  (forall i, index_ok i -> entry s' dir i = entry s dir i) /\
  pte_of s' dir w = if v / 4096 =? w / 4096 then Some e else pte_of s dir w.
Proof.
  intros Hs Hd Hv Hw Hp. cbv zeta. set (t := pde_frame s dir (Z.shiftr v 22)).
  pose proof (dir_index v Hv) as Hiv. pose proof (dir_index w Hw) as Hiw.
  pose proof (table_index v) as Htv. pose proof (table_index w) as Htw.
  destruct (do_table _ _ Hd _ Hiv Hp) as [Hut Hne]. fold t in Hut, Hne.
  destruct (used_below s t Hs Hut) as [_ Hdt]. pose proof (vo_mem _ Hs) as Hm.
  assert (forall i, index_ok i -> entry (set_entry s t (pte_index v) e) dir i = entry s dir i) as Hdir.
  { intros i Hi. rewrite entry_set_entry by done. rewrite Hdt, (proj2 (Z.eqb_neq _ _)) by done. done. }
  split; [done|]. unfold pte_of, pde_present_at, pde_frame. rewrite !Hdir by done.
  rewrite same_page. fold (pde_present_at s dir (Z.shiftr w 22)).
  destruct (Z.eqb_spec (Z.shiftr v 22) (Z.shiftr w 22)) as [E|E]; cbn [andb].
  - rewrite <-E, Hp. fold (pde_frame s dir (Z.shiftr v 22)). fold t.
    rewrite entry_set_entry, Z.eqb_refl, (Z.eqb_sym (pte_index w)) by done. by destruct (_ =? _).
  - destruct (pde_present_at s dir (Z.shiftr w 22)) eqn:Ew; [|done]. f_equal.
    fold (pde_frame s dir (Z.shiftr w 22)).
    assert (pde_frame s dir (Z.shiftr w 22) <> t) as Hnt.
    { intros Ht. apply E. symmetry. by apply (do_inj _ _ Hd). }
    destruct (do_table _ _ Hd _ Hiw Ew) as [Huw _].
    destruct (used_below s _ Hs Huw) as [_ Hdw].
    rewrite entry_set_entry, Hdw, Hdt, (proj2 (Z.eqb_neq _ t)) by done. done.
Qed.

(** ** Mapping *)

(** A directory gets a table for [v]. *)
Lemma create_table_spec (s s' : vm) (dir v flags t : Z) :
  vm_ok s -> dir_ok s dir -> is_u32 v -> pde_present_at s dir (Z.shiftr v 22) = false ->
  create_page_table dir v flags s = Some (t, s') ->
  vm_ok s' /\ dir_ok s' dir /\ pde_present_at s' dir (Z.shiftr v 22) = true /\
  pde_frame s' dir (Z.shiftr v 22) = t /\
  (forall j, index_ok j -> entry s' t j = 0) /\
  (forall i, index_ok i -> i <> Z.shiftr v 22 -> entry s' dir i = entry s dir i) /\
  (forall x, frame_used (frames s) x -> x <> deref dir -> words s' x = words s x) /\
  (forall x, frame_used (frames s) x -> frame_used (frames s') x).
Proof.
  intros Hs Hd Hv Hp. pose proof (dir_index v Hv) as Hiv. unfold create_page_table.
  unfold pde_present_at in Hp. rewrite Hp. unfold alloc_page.
  pose proof (alloc_fresh (frames s) (vo_frames _ Hs)) as Ha.
  destruct (pmm_alloc_page (frames s)) as [a q]. destruct (Z.eqb_spec a NULL) as [|Hn]; [done|].
  destruct Ha as [(? & _)|(_ & Hfr & Hok & Htot & Hua & Hmono)]; [done|].
  intros [= <- <-]. set (s1 := set_frames s q). set (s2 := set_words s1 a zero_frame).
  set (pde := Z.lor _ PTE_WRITABLE). set (s3 := set_entry s2 dir _ pde).
  assert (vm_ok s3) as Hs3.
  { destruct Hs. constructor; [|done|cbn; by rewrite Htot].
    apply set_entry_ok, set_words_ok; [done|apply zero_frame_len]. }
  destruct (used_below s3 a Hs3 Hua) as [Ha0 Hda].
  assert (a <> deref dir) as Had.
  { intros ->. by apply Hfr, (do_used _ _ Hd). }
  assert (mem_ok s2) as Hm2 by (apply set_words_ok; [apply (vo_mem _ Hs)|apply zero_frame_len]).
  assert (forall i, index_ok i -> entry s3 dir i = if i =? Z.shiftr v 22 then pde else entry s dir i) as Hdir.
  { intros i Hi. unfold s3. rewrite entry_set_entry, Z.eqb_refl by done. simpl.
    destruct (i =? _); [done|]. unfold entry, s2. rewrite words_set_words, Hda.
    by rewrite (proj2 (Z.eqb_neq _ _)) by done. }
  assert (Z.land pde FRAME_MASK = a) as Hpde.
  { apply frame_of_pde; [unfold is_u32, KERNEL_BASE in *; lia|apply Hua]. }
  assert (pde_present_at s3 dir (Z.shiftr v 22) = true) as Hp3.
  { unfold pde_present_at. rewrite Hdir, Z.eqb_refl by done. apply pde_present. }
  assert (pde_frame s3 dir (Z.shiftr v 22) = a) as Hf3.
  { unfold pde_frame. by rewrite Hdir, Z.eqb_refl. }
  assert (forall i, index_ok i -> i <> Z.shiftr v 22 -> entry s3 dir i = entry s dir i) as Hoth.
  { intros i Hi Hne. by rewrite Hdir, (proj2 (Z.eqb_neq _ _)). }
  split_and!; try done.
  - constructor.
    + apply Hmono, (do_used _ _ Hd).
    + intros i Hi Hpi. destruct (decide (i = Z.shiftr v 22)) as [->|Hne].
      * by rewrite Hf3.
      * unfold pde_present_at, pde_frame in *. rewrite Hoth in * by done.
        destruct (do_table _ _ Hd i Hi Hpi). auto.
    + intros i j Hi Hj Hpi Hpj Hij.
      assert (forall k, index_ok k -> k <> Z.shiftr v 22 -> pde_present_at s3 dir k = true ->
        pde_frame s3 dir k <> a) as Hno.
      { intros k Hk Hne Hpk Hfk. unfold pde_present_at, pde_frame in *. rewrite Hoth in * by done.
        apply Hfr. destruct (do_table _ _ Hd k Hk Hpk) as [Hu _]. unfold pde_frame in Hu.
        by rewrite Hfk in Hu. }
      destruct (decide (i = Z.shiftr v 22)) as [->|Hni], (decide (j = Z.shiftr v 22)) as [->|Hnj];
        try done.
      * rewrite Hf3 in Hij. by destruct (Hno j).
      * rewrite Hf3 in Hij. by destruct (Hno i).
      * unfold pde_present_at, pde_frame in *. rewrite !Hoth in * by done. by apply (do_inj _ _ Hd).
  - intros j Hj. unfold s3. rewrite entry_set_entry by done. rewrite Hda.
    rewrite (proj2 (Z.eqb_neq a _)) by done. simpl. unfold entry, s2.
    rewrite words_set_words, Z.eqb_refl. by apply entry_zero.
  - intros x Hx Hxd. assert (x <> a) by (intros ->; done).
    destruct (used_below s x Hs Hx) as [_ Hdx]. unfold s3.
    change (set_entry s2 dir _ pde) with (set_words s2 dir ((words s2 dir).[Z.shiftr v 22 <- pde])).
    rewrite words_set_words, Hdx, (proj2 (Z.eqb_neq _ _)) by done. unfold s2.
    by rewrite words_set_words, Hdx, Hda, (proj2 (Z.eqb_neq _ _)).
Qed.

(** Writing a page-table entry keeps the directory. *)
Lemma write_pte_ok (s : vm) (dir v e : Z) :
  vm_ok s -> dir_ok s dir -> is_u32 v -> pde_present_at s dir (Z.shiftr v 22) = true ->
  let s' := set_entry s (pde_frame s dir (Z.shiftr v 22)) (pte_index v) e in
  vm_ok s' /\ dir_ok s' dir.
Proof.
  intros Hs Hd Hv Hp. destruct (pte_of_write s dir v e v Hs Hd Hv Hv Hp) as [Hdir _].
  cbv zeta in *. set (s' := set_entry _ _ _ _) in *. split.
  - destruct Hs. constructor; try done. by apply set_entry_ok.
  - destruct Hd. constructor; [done| |].
    + intros i Hi. unfold pde_present_at, pde_frame. rewrite Hdir by done. by apply do_table0.
    + intros i j Hi Hj. unfold pde_present_at, pde_frame. rewrite !Hdir by done. by apply do_inj0.
Qed.

Lemma map_page_pte (s s' : vm) (dir v phys flags : Z) :
  vm_ok s -> dir_ok s dir -> is_u32 v -> vmm_map_page dir v phys flags s = Some s' ->
  vm_ok s' /\ dir_ok s' dir /\
  forall w, is_u32 w ->
    pte_of s' dir w =
    if v / 4096 =? w / 4096 then Some (mk_pte phys flags)
    else if (Z.shiftr v 22 =? Z.shiftr w 22) && negb (pde_present_at s dir (Z.shiftr v 22))
    then Some 0 else pte_of s dir w.
Proof.
  intros Hs Hd Hv. unfold vmm_map_page, get_page_table. fold (mk_pte phys flags).
  fold (pde_present_at s dir (Z.shiftr v 22)). fold (pde_frame s dir (Z.shiftr v 22)).
  destruct (pde_present_at s dir (Z.shiftr v 22)) eqn:Hp; cbn [negb].
  - intros [= <-]. destruct (write_pte_ok s dir v (mk_pte phys flags) Hs Hd Hv Hp) as [Hs' Hd'].
    split_and!; try done. intros w Hw.
    destruct (pte_of_write s dir v (mk_pte phys flags) w Hs Hd Hv Hw Hp) as [_ ->].
    by rewrite andb_false_r.
  - destruct (create_page_table dir v flags s) as [[t s1]|] eqn:E; [|done]. intros [= <-].
    destruct (create_table_spec s s1 dir v flags t Hs Hd Hv Hp E)
      as (Hs1 & Hd1 & Hp1 & Hf1 & Hz & Hoth & Hws & _).
    rewrite <-Hf1.
    destruct (write_pte_ok s1 dir v (mk_pte phys flags) Hs1 Hd1 Hv Hp1) as [Hs' Hd'].
    split_and!; try done. intros w Hw.
    destruct (pte_of_write s1 dir v (mk_pte phys flags) w Hs1 Hd1 Hv Hw Hp1) as [_ ->].
    case_if; [done|]. rewrite andb_true_r. unfold pte_of.
    pose proof (dir_index w Hw) as Hiw. pose proof (table_index w) as Htw.
    destruct (Z.eqb_spec (Z.shiftr v 22) (Z.shiftr w 22)) as [Ei|Ei].
    + rewrite <-Ei, Hp1, Hf1. by rewrite Hz.
    + unfold pde_present_at, pde_frame. rewrite !Hoth by congruence.
      fold (pde_present_at s dir (Z.shiftr w 22)). fold (pde_frame s dir (Z.shiftr w 22)).
      destruct (pde_present_at s dir (Z.shiftr w 22)) eqn:Ew; [|done]. f_equal.
      destruct (do_table _ _ Hd _ Hiw Ew) as [Hu Hne].
      unfold entry. by rewrite (Hws _ Hu Hne).
Qed.

Lemma same_page_pte (s : vm) (dir v w : Z) :
  v / 4096 = w / 4096 -> pte_of s dir w = pte_of s dir v.
Proof.
  intros E. apply Z.eqb_eq in E. rewrite same_page in E. zbool. unfold pte_of. by rewrite H, H0.
Qed.

(** ** Theorems on single pages *)

Lemma map_page_spec (s : vm) (dir v phys flags : Z) :
  vm_ok s -> dir_ok s dir -> is_u32 v ->
  match vmm_map_page dir v phys flags s with
  | None => get_page_table s dir v = None /\ pmm_frames_free (frames s) = 0
  | Some s' =>
      vm_ok s' /\ dir_ok s' dir /\
      forall w, is_u32 w -> vmm_get_physical s' dir w =
        if v / 4096 =? w / 4096 then Z.lor (Z.land phys FRAME_MASK) (Z.land w FLAG_MASK)
        else vmm_get_physical s dir w
  end.
Proof.
  intros Hs Hd Hv. destruct (vmm_map_page dir v phys flags s) as [s'|] eqn:E.
  - destruct (map_page_pte s s' dir v phys flags Hs Hd Hv E) as (Hs' & Hd' & Hpte).
    split_and!; try done. intros w Hw. rewrite !get_physical_pte, Hpte by done.
    case_if; [cbn [translate]; by rewrite mk_pte_present, mk_pte_frame|].
    destruct (Z.eqb_spec (Z.shiftr v 22) (Z.shiftr w 22)) as [Ei|]; [|done].
    destruct (pde_present_at s dir (Z.shiftr v 22)) eqn:Hp; [done|].
    unfold pte_of. by rewrite <-Ei, Hp.
  - unfold vmm_map_page in E. destruct (get_page_table s dir v) eqn:Et; [done|]. split; [done|].
    unfold create_page_table in E. unfold get_page_table in Et.
    destruct (has PTE_PRESENT _); [done|]. unfold alloc_page in E.
    pose proof (alloc_fresh (frames s) (vo_frames _ Hs)) as Ha.
    destruct (pmm_alloc_page (frames s)) as [a q]. destruct Ha as [(_ & _ & ?)|(Hn & _)]; [done|].
    by rewrite (proj2 (Z.eqb_neq a _)) in E.
Qed.

(** C8: [vmm_map_page] maps one page: in a well-formed address space it fails (panics)
    only when the page needs a new table and no frame is left; otherwise every
    address of the page translates to the given frame and its own offset, every
    other address translates as before, and the address space stays well formed
    for the next call. *)
Theorem vmm_map_page_spec (s : vm) (dir v phys flags : Z) :
  vm_ok s -> dir_ok s dir -> is_u32 v ->
  match vmm_map_page dir v phys flags s with
  | None => get_page_table s dir v = None /\ pmm_frames_free (frames s) = 0
  | Some s' =>
      vm_ok s' /\ dir_ok s' dir /\
      forall w, is_u32 w -> vmm_get_physical s' dir w =
        if v / 4096 =? w / 4096 then Z.lor (Z.land phys FRAME_MASK) (Z.land w FLAG_MASK)
        else vmm_get_physical s dir w
  end.
Proof. apply map_page_spec. Qed.

(** [vmm_unmap_page] removes one page: the addresses of the page no longer
    translate, every other address translates as before, and the frame goes back
    to the page allocator exactly when the page was present and not marked
    copy-on-write. *)
Theorem vmm_unmap_page_spec (s : vm) (dir v : Z) :
  vm_ok s -> dir_ok s dir -> is_u32 v ->
  let s' := vmm_unmap_page dir v s in
  (forall w, is_u32 w -> vmm_get_physical s' dir w =
     if v / 4096 =? w / 4096 then 0 else vmm_get_physical s dir w) /\
  frames s' = match pte_of s dir v with
              | Some e => if has PTE_PRESENT e && negb (has PTE_COW e)
                          then pmm_free_page (Z.land e FRAME_MASK) (frames s) else frames s
              | None => frames s
              end.
Proof.
  intros Hs Hd Hv. unfold vmm_unmap_page, get_page_table, pte_of.
  fold (pde_present_at s dir (Z.shiftr v 22)). fold (pde_frame s dir (Z.shiftr v 22)).
  destruct (pde_present_at s dir (Z.shiftr v 22)) eqn:Hp; cbn [negb].
  2: { split; [|done]. intros w Hw. case_if; [|done].
    rewrite get_physical_pte, (same_page_pte s dir v w) by done. unfold pte_of. by rewrite Hp. }
  set (e := entry s _ _). destruct (has PTE_PRESENT e) eqn:Hpe; cbn [andb].
  2: { split; [|done]. intros w Hw. case_if; [|done].
    rewrite get_physical_pte, (same_page_pte s dir v w) by done. unfold pte_of. rewrite Hp.
    cbn [translate]. fold e. by rewrite Hpe. }
  split.
  - intros w Hw. destruct (pte_of_write s dir v 0 w Hs Hd Hv Hw Hp) as [_ Hw'].
    assert (forall s1, mem s1 = mem (set_entry s (pde_frame s dir (Z.shiftr v 22)) (pte_index v) 0) ->
      vmm_get_physical s1 dir w = if v / 4096 =? w / 4096 then 0 else vmm_get_physical s dir w) as H.
    { intros s1 Hm. rewrite !get_physical_pte.
      assert (pte_of s1 dir w = pte_of (set_entry s (pde_frame s dir (Z.shiftr v 22)) (pte_index v) 0) dir w)
        as -> by (unfold pte_of, pde_present_at, pde_frame, entry, words; by rewrite Hm).
      rewrite Hw'. by case_if. }
    destruct (negb (has PTE_COW e)); by apply H.
  - by destruct (has PTE_COW e).
Qed.

(** ** Cloning *)

(** What the copy of entry [e] looks like in the new table and in the old one. *)
Definition cloned_pte (e : Z) : Z := if has PTE_PRESENT e then cow_entry e else 0.
Definition shared_pte (e : Z) : Z := if has PTE_PRESENT e then cow_entry e else e.

(** [s'] differs from [s] in the frames [l] only. *)
Definition only_frames (s s' : vm) (l : list Z) : Prop :=
  mem_ok s' /\ frames s' = frames s /\ forall q, deref q ∉ l -> words s' q = words s q.

Lemma set_entry_only (s : vm) (p i v : Z) : mem_ok s -> only_frames s (set_entry s p i v) [deref p].
Proof.
  intros Hm. split_and!; [by apply set_entry_ok|done|]. intros q Hq.
  change (set_entry s p i v) with (set_words s p ((words s p).[i <- v])).
  rewrite words_set_words, (proj2 (Z.eqb_neq _ _)); [done|]. set_solver.
Qed.

Lemma only_frames_entry (s s' : vm) (l : list Z) (q i : Z) :
  only_frames s s' l -> deref q ∉ l -> entry s' q i = entry s q i.
Proof. intros (_ & _ & H) Hq. unfold entry. by rewrite H. Qed.

Lemma only_frames_trans (s1 s2 s3 : vm) (l k : list Z) :
  only_frames s1 s2 l -> only_frames s2 s3 k -> only_frames s1 s3 (l ++ k).
Proof.
  intros (_ & Hf1 & H1) (Hm & Hf2 & H2). split_and!; [done|congruence|].
  intros q Hq. rewrite H2, H1; [done|set_solver..].
Qed.

Lemma clone_entry_spec (s : vm) (ts td j : Z) :
  mem_ok s -> deref ts <> deref td -> index_ok j ->
  let s' := clone_entry ts td s j in
  only_frames s s' [deref ts; deref td] /\
  forall k, index_ok k ->
    entry s' td k = (if k =? j then cloned_pte (entry s ts k) else entry s td k) /\
    entry s' ts k = (if k =? j then shared_pte (entry s ts k) else entry s ts k).
Proof.
  intros Hm Hne Hj. unfold clone_entry, cloned_pte, shared_pte.
  destruct (has PTE_PRESENT (entry s ts j)) eqn:E; cbv zeta.
  - split.
    + destruct (set_entry_only s td j (cow_entry (entry s ts j)) Hm) as (Hm1 & Hf1 & H1).
      destruct (set_entry_only _ ts j (cow_entry (entry s ts j)) Hm1) as (Hm2 & Hf2 & H2).
      split_and!; [done|done|]. intros q Hq. rewrite H2, H1; [done|set_solver..].
    + intros k Hk. rewrite !entry_set_entry by (done || by apply set_entry_ok).
      rewrite !Z.eqb_refl, (proj2 (Z.eqb_neq (deref ts) _)), (proj2 (Z.eqb_neq (deref td) (deref ts))) by done.
      simpl. destruct (Z.eqb_spec k j) as [->|]; [by rewrite E|done].
  - split.
    + destruct (set_entry_only s td j 0 Hm) as (Hm1 & Hf1 & H1).
      split_and!; [done|done|]. intros q Hq. apply H1. set_solver.
    + intros k Hk. rewrite !entry_set_entry by done.
      rewrite Z.eqb_refl, (proj2 (Z.eqb_neq (deref ts) _)) by done. simpl.
      destruct (Z.eqb_spec k j) as [->|]; [by rewrite E|done].
Qed.

Lemma clone_prefix (n : nat) (s : vm) (ts td : Z) :
  mem_ok s -> deref ts <> deref td -> Z.of_nat n <= PAGE_ENTRIES ->
  let s' := foldl (clone_entry ts td) s (range 0 (Z.of_nat n)) in
  only_frames s s' [deref ts; deref td] /\
  forall k, index_ok k ->
    entry s' td k = (if k <? Z.of_nat n then cloned_pte (entry s ts k) else entry s td k) /\
    entry s' ts k = (if k <? Z.of_nat n then shared_pte (entry s ts k) else entry s ts k).
Proof.
  intros Hm Hne. induction n as [|n IH]; intros Hn.
  { rewrite range_nil by lia. simpl. split; [done|]. intros k [Hk _].
    by rewrite (proj2 (Z.ltb_ge k (Z.of_nat 0))) by lia. }
  destruct (IH ltac:(lia)) as [Ho Hk]. clear IH. rewrite foldl_range_S. cbv zeta in *.
  set (s1 := foldl _ s _) in *. assert (index_ok (Z.of_nat n)) as Hj by (unfold index_ok; lia).
  pose proof Ho as (Hm1 & _ & _).
  destruct (clone_entry_spec s1 ts td (Z.of_nat n) Hm1 Hne Hj) as [Ho2 Hk2]. split.
  - destruct (only_frames_trans _ _ _ _ _ Ho Ho2) as (H1 & H2 & H3). split_and!; [done|done|].
    intros q Hq. apply H3. set_solver.
  - intros k Hi. destruct (Hk k Hi) as [Hd Hs], (Hk2 k Hi) as [Hd2 Hs2]. rewrite Hd2, Hs2, Hd, Hs.
    destruct (Z.eqb_spec k (Z.of_nat n)) as [->|].
    + rewrite (proj2 (Z.ltb_ge _ (Z.of_nat n))), (proj2 (Z.ltb_lt _ (Z.of_nat (S n)))) by lia. done.
    + destruct (Z.ltb_spec k (Z.of_nat n)), (Z.ltb_spec k (Z.of_nat (S n))); done || lia.
Qed.

Lemma clone_table (s : vm) (ts td : Z) :
  mem_ok s -> deref ts <> deref td ->
  let s' := foldl (clone_entry ts td) s (range 0 PAGE_ENTRIES) in
  only_frames s s' [deref ts; deref td] /\
  forall k, index_ok k ->
    entry s' td k = cloned_pte (entry s ts k) /\ entry s' ts k = shared_pte (entry s ts k).
Proof.
  intros Hm Hne. pose proof (clone_prefix (Z.to_nat PAGE_ENTRIES) s ts td Hm Hne) as H.
  rewrite Z2Nat.id in H by done. destruct (H ltac:(lia)) as [H1 H2].
  split; [exact H1|]. intros k Hk. destruct (H2 k Hk) as [H3 H4]. unfold index_ok in Hk.
  rewrite (proj2 (Z.ltb_lt k _)) in H3, H4 by apply Hk. split; [exact H3|exact H4].
Qed.

Lemma clone_pde_frame (td e : Z) :
  is_u32 td -> td mod 4096 = 0 ->
  Z.land (Z.lor td (Z.land e FLAG_MASK)) FRAME_MASK = td /\
  has PTE_PRESENT (Z.lor td (Z.land e FLAG_MASK)) = has PTE_PRESENT e.
Proof.
  intros Ht Hm. split.
  - rewrite <-(frame_mask_aligned td Ht Hm) at 2. entry_bits.
    destruct (Z.leb_spec 12 j); [|by rewrite !andb_false_r].
    rewrite (proj2 (Z.ltb_ge j 12)) by lia. by rewrite andb_false_r, orb_false_r.
  - rewrite !has_present, Z.lor_spec, Z.land_spec. rewrite testbit_FLAG_MASK by lia.
    rewrite <-(frame_mask_aligned td Ht Hm), Z.land_spec, testbit_FRAME_MASK by lia. simpl.
    by rewrite andb_false_r, andb_true_r.
Qed.

Definition USER_ENTRIES : Z := Z.shiftr KERNEL_BASE 22.

Section clone.
Context (s0 : vm) (dst src : Z).
Hypothesis Hs0 : vm_ok s0.
Hypothesis Hsrc : dir_ok s0 src.
Hypothesis Hdst : frame_used (frames s0) (deref dst).
Hypothesis Hds : deref dst <> deref src.
Hypothesis Hdt : forall k, index_ok k -> pde_present_at s0 src k = true -> pde_frame s0 src k <> deref dst.

Notation table k := (pde_frame s0 src k).

(** The copy of the directory entry [k] and of its table. *)
Definition copied (s : vm) (k : Z) : Prop :=
  exists td, entry s dst k = Z.lor td (Z.land (entry s0 src k) FLAG_MASK) /\
    frame_used (frames s) td /\ ~ frame_used (frames s0) td /\
    forall j, index_ok j ->
      entry s td j = cloned_pte (entry s0 (table k) j) /\
      entry s (table k) j = shared_pte (entry s0 (table k) j).

(** The state after the entries below [i]. *)
Record cloned (i : Z) (s : vm) : Prop := {
  cl_vm : vm_ok s;
  cl_mono : forall x, frame_used (frames s0) x -> frame_used (frames s) x;
  cl_src : forall k, entry s src k = entry s0 src k;
  cl_tables : forall k, index_ok k -> i <= k \/ USER_ENTRIES <= k -> pde_present_at s0 src k = true ->
    words s (table k) = words s0 (table k);
  cl_todo : forall k, index_ok k -> i <= k -> entry s dst k = entry s0 dst k;
  cl_kernel : forall k, USER_ENTRIES <= k < i -> index_ok k -> entry s dst k = entry s0 src k;
  cl_absent : forall k, 0 <= k < i -> k < USER_ENTRIES -> pde_present_at s0 src k = false ->
    entry s dst k = entry s0 dst k;
  cl_user : forall k, 0 <= k < i -> k < USER_ENTRIES -> pde_present_at s0 src k = true -> copied s k;
}.

(** A step that changes only [dst] entry [i], the table of entry [i] and frames
    that were free keeps what is known of the other entries. *)
Lemma copied_frame (s s' : vm) (i k : Z) (l : list Z) :
  cloned i s -> index_ok i -> 0 <= k < i -> index_ok k -> pde_present_at s0 src k = true -> copied s k ->
  (forall q, deref q ∉ l -> words s' q = words s q) ->
  (forall x, frame_used (frames s) x -> frame_used (frames s') x) ->
  (forall x, x ∈ l -> x = deref dst \/ (pde_present_at s0 src i = true /\ x = table i) \/
     ~ frame_used (frames s) x) ->
  entry s' dst k = entry s dst k -> copied s' k.
Proof using Hs0 Hsrc Hdst Hdt.
  intros Hc Hi Hki Hk Hp (td & Hd & Hu & Hnu & He) Hw Hmono Hl Hdk.
  destruct (used_below s td (cl_vm _ _ Hc) Hu) as [_ Htd].
  destruct (do_table _ _ Hsrc k Hk Hp) as [Hut _].
  destruct (used_below s0 _ Hs0 Hut) as [_ Htt].
  assert (td ∉ l) as Hl1.
  { intros [->|[[Hpi ->]|H]]%Hl; [done| |done]. by destruct (do_table _ _ Hsrc i Hi Hpi). }
  assert (table k ∉ l) as Hl2.
  { intros [H|[[Hpi H]|H]]%Hl.
    - by apply (Hdt k).
    - assert (k = i) by (by apply (do_inj _ _ Hsrc)). lia.
    - by apply H, (cl_mono _ _ Hc). }
  exists td. split_and!; [by rewrite Hdk|auto|done|]. intros j Hj.
  unfold entry. rewrite !Hw by (by rewrite ?Htd, ?Htt). by apply He.
Qed.

Lemma src_not_dst_table (i : Z) :
  index_ok i -> pde_present_at s0 src i = true -> deref (table i) = table i /\ table i <> deref src.
Proof using Hs0 Hsrc.
  intros Hi Hp. destruct (do_table _ _ Hsrc i Hi Hp) as [Hu Hne].
  destruct (used_below s0 _ Hs0 Hu). done.
Qed.

Lemma cloned_init : cloned 0 s0.
Proof using Hs0. pose proof (eq_refl : USER_ENTRIES = 768). constructor; try done; lia. Qed.

(** An entry of [dst] is written. *)
Lemma cloned_write (i e : Z) (s : vm) :
  cloned i s -> index_ok i -> USER_ENTRIES <= i -> e = entry s0 src i ->
  cloned (i + 1) (set_entry s dst i e).
Proof using All.
  intros Hc Hi Hu ->. destruct (cl_vm _ _ Hc) as [Hm Hf Ht].
  destruct (set_entry_only s dst i (entry s0 src i) Hm) as (Hm' & Hf' & Hw).
  set (s' := set_entry _ _ _ _) in *.
  assert (forall k, index_ok k -> entry s' dst k = if k =? i then entry s0 src i else entry s dst k) as Hd.
  { intros k Hk. unfold s'. by rewrite entry_set_entry, Z.eqb_refl. }
  constructor.
  - by constructor.
  - apply (cl_mono _ _ Hc).
  - intros k. rewrite <-(cl_src _ _ Hc). unfold entry. rewrite Hw; [done|]. set_solver.
  - intros k Hk Hor Hp. rewrite <-(cl_tables _ _ Hc k Hk); [|lia|done]. apply Hw.
    destruct (src_not_dst_table k Hk Hp) as [-> _]. pose proof (Hdt k Hk Hp). set_solver.
  - intros k Hk Hik. rewrite Hd, (proj2 (Z.eqb_neq k i)) by (done || lia). apply (cl_todo _ _ Hc); [done|lia].
  - intros k Hk Hik. rewrite Hd by done. case_if; [congruence|]. apply (cl_kernel _ _ Hc); [lia|done].
  - intros k Hk Hku Hp. rewrite Hd by (unfold index_ok in *; lia).
    rewrite (proj2 (Z.eqb_neq k i)) by lia. by apply (cl_absent _ _ Hc); [lia|..].
  - intros k Hk Hku Hp. assert (index_ok k) by (unfold index_ok in *; lia).
    apply (copied_frame s s' i k [deref dst]); try done; try lia.
    + apply (cl_user _ _ Hc); [lia|done..].
    + intros x ->%list_elem_of_singleton. by left.
    + by rewrite Hd, (proj2 (Z.eqb_neq k i)) by (done || lia).
Qed.

(** An absent user entry is skipped. *)
Lemma cloned_skip (i : Z) (s : vm) :
  cloned i s -> index_ok i -> i < USER_ENTRIES -> pde_present_at s0 src i = false -> cloned (i + 1) s.
Proof using All.
  intros [] Hi Hu Hp. constructor; try done.
  - intros k Hk Hor. apply cl_tables0; [done|lia].
  - intros k Hk Hik. apply cl_todo0; [done|lia].
  - intros k Hk. lia.
  - intros k Hk Hku Hpk. destruct (decide (k = i)) as [->|]; [apply cl_todo0; [done|lia]|].
    apply cl_absent0; [lia|done..].
  - intros k Hk Hku Hpk. assert (k <> i) by congruence. apply cl_user0; [lia|done..].
Qed.

(** A present user entry is copied into the fresh frame [a]. *)
Lemma cloned_copy (i a : Z) (q : pmm) (s s2 : vm) :
  cloned i s -> index_ok i -> i < USER_ENTRIES -> pde_present_at s0 src i = true ->
  ~ frame_used (frames s) a -> pmm_frame_ok q -> total_pages q = total_pages (frames s) ->
  frame_used q a -> (forall x, frame_used (frames s) x -> frame_used q x) ->
  only_frames (set_frames s q) s2 [deref (table i); deref a] ->
  (forall k, index_ok k -> entry s2 a k = cloned_pte (entry (set_frames s q) (table i) k) /\
     entry s2 (table i) k = shared_pte (entry (set_frames s q) (table i) k)) ->
  cloned (i + 1) (set_entry s2 dst i (Z.lor a (Z.land (entry s2 src i) FLAG_MASK))).
Proof using All.
  intros Hc Hi Hu Hp Hfr Hq Htot Hua Hmono (Hm2 & Hf2 & Hw2) He2.
  assert (vm_ok (set_frames s q)) as Hs1.
  { destruct (cl_vm _ _ Hc). constructor; try done. cbn. by rewrite Htot. }
  destruct (used_below _ a Hs1 Hua) as [Ha0 Hda].
  destruct (src_not_dst_table i Hi Hp) as [Hti Hts].
  destruct (do_table _ _ Hsrc i Hi Hp) as [Huti _].
  assert (~ frame_used (frames s0) a) as Hfr0 by (intros H; by apply Hfr, (cl_mono _ _ Hc)).
  rewrite Hti, Hda in Hw2. cbn [frames set_frames] in Hf2.
  assert (a <> deref dst) as Had by (by intros ->).
  assert (a <> deref src) as Has by (intros ->; by apply Hfr0, (do_used _ _ Hsrc)).
  pose proof (Hdt i Hi Hp) as Htd.
  assert (entry s2 src i = entry s0 src i) as ->.
  { rewrite <-(cl_src _ _ Hc). unfold entry. rewrite Hw2; [done|set_solver]. }
  set (e := Z.lor a _). destruct (set_entry_only s2 dst i e Hm2) as (Hm3 & Hf3 & Hw3).
  set (s3 := set_entry s2 dst i e) in *.
  assert (forall x, deref x ∉ [deref dst; table i; a] -> words s3 x = words s x) as Hw.
  { intros x Hx. rewrite Hw3, Hw2; [done|set_solver..]. }
  assert (frames s3 = q) as Hfq by (by rewrite Hf3, Hf2).
  assert (forall k, index_ok k -> entry s3 dst k = if k =? i then e else entry s dst k) as Hd.
  { intros k Hk. unfold s3. rewrite entry_set_entry, Z.eqb_refl by done. simpl. case_if; [done|].
    unfold entry. rewrite Hw2; [done|set_solver]. }
  constructor.
  - constructor; rewrite ?Hfq; try done. by destruct Hs1.
  - intros x Hx. rewrite Hfq. by apply Hmono, (cl_mono _ _ Hc).
  - intros k. rewrite <-(cl_src _ _ Hc). unfold entry. rewrite Hw; [done|set_solver].
  - intros k Hk Hor Hpk. rewrite <-(cl_tables _ _ Hc k Hk); [|lia|done]. apply Hw.
    destruct (src_not_dst_table k Hk Hpk) as [-> _]. pose proof (Hdt k Hk Hpk).
    destruct (do_table _ _ Hsrc k Hk Hpk) as [Hutk _].
    assert (table k <> table i) by (intros E; apply (do_inj _ _ Hsrc) in E; [lia|done..]).
    assert (table k <> a) by (by intros <-). set_solver.
  - intros k Hk Hik. rewrite Hd, (proj2 (Z.eqb_neq k i)) by (done || lia). apply (cl_todo _ _ Hc); [done|lia].
  - intros k Hk. lia.
  - intros k Hk Hku Hpk. assert (k <> i) by congruence. rewrite Hd by (unfold index_ok in *; lia).
    rewrite (proj2 (Z.eqb_neq k i)) by done. apply (cl_absent _ _ Hc); [lia|done..].
  - intros k Hk Hku Hpk. assert (index_ok k) by (unfold index_ok in *; lia).
    destruct (decide (k = i)) as [->|Hki].
    + exists a. rewrite Hd, Z.eqb_refl, Hfq by done. split_and!; try done.
      intros j Hj. destruct (He2 j Hj) as [H1 H2].
      assert (forall x, deref x <> deref dst -> entry s3 x j = entry s2 x j) as H3.
      { intros x Hx. unfold entry. rewrite Hw3; [done|set_solver]. }
      rewrite !H3, H1, H2 by congruence.
      assert (entry (set_frames s q) (table i) j = entry s0 (table i) j) as ->; [|done].
      unfold entry. change (words (set_frames s q)) with (words s).
      rewrite (cl_tables _ _ Hc i Hi); [done|lia|done].
    + apply (copied_frame s s3 i k [deref dst; table i; a]); try done; try lia.
      * apply (cl_user _ _ Hc); [lia|done..].
      * rewrite Hfq. done.
      * intros x. set_solver.
      * by rewrite Hd, (proj2 (Z.eqb_neq k i)) by (done || lia).
Qed.

Lemma clone_loop_spec (i : Z) (s s' : vm) :
  0 <= i -> cloned i s -> clone_loop dst src (range i PAGE_ENTRIES) s = (0, s') ->
  cloned (Z.max i PAGE_ENTRIES) s'.
Proof using All.
  revert s. apply (range_ind (fun i => forall s, 0 <= i -> cloned i s ->
    clone_loop dst src (range i PAGE_ENTRIES) s = (0, s') -> cloned (Z.max i PAGE_ENTRIES) s') i PAGE_ENTRIES).
  { intros j Hj s Hj0 Hc. rewrite range_nil by done. intros [= <-]. by rewrite Z.max_l. }
  intros j Hj IH s Hj0 Hc. rewrite range_cons by lia. cbn [clone_loop].
  assert (index_ok j) as Hi by (unfold index_ok; lia).
  rewrite (cl_src _ _ Hc). fold USER_ENTRIES. fold (pde_present_at s0 src j). fold (pde_frame s0 src j).
  replace (Z.max j PAGE_ENTRIES) with (Z.max (j + 1) PAGE_ENTRIES) by lia.
  destruct (Z.leb_spec USER_ENTRIES j).
  { apply IH; [lia|]. by apply cloned_write. }
  destruct (pde_present_at s0 src j) eqn:Hp; [|apply IH; [lia|by apply cloned_skip]].
  unfold alloc_page. pose proof (alloc_fresh (frames s) (vo_frames _ (cl_vm _ _ Hc))) as Ha.
  destruct (pmm_alloc_page (frames s)) as [a q]. destruct (Z.eqb_spec a NULL); [done|].
  destruct Ha as [(? & _)|(_ & Hfr & Hok & Htot & Hua & Hmono)]; [done|].
  apply IH; [lia|]. destruct (src_not_dst_table j Hi Hp) as [Hti _].
  destruct (do_table _ _ Hsrc j Hi Hp) as [Huj _].
  assert (vm_ok (set_frames s q)) as Hs1.
  { destruct (cl_vm _ _ Hc). constructor; try done. cbn. by rewrite Htot. }
  destruct (used_below _ a Hs1 Hua) as [_ Hda].
  destruct (clone_table (set_frames s q) (table j) a) as [Ho He].
  - apply (vo_mem _ Hs1).
  - rewrite Hti, Hda. intros E. apply Hfr. rewrite <-E. by apply (cl_mono _ _ Hc).
  - apply (cloned_copy j a q s); assumption.
Qed.

End clone.

#[local] Strategy expand [vmm_clone_address_space].
#[local] Strategy opaque [range clone_loop].

Lemma user_index (v : Z) : is_u32 v -> (Z.shiftr v 22 < USER_ENTRIES <-> v < KERNEL_BASE).
Proof.
  intros Hv. change USER_ENTRIES with 768. rewrite Z.shiftr_div_pow2 by lia.
  change (2 ^ 22) with 4194304. unfold KERNEL_BASE, is_u32 in *. dlia.
Qed.

(** Cloning needs at most one frame for each user entry. *)
Lemma clone_entries_frames (ts td : Z) (l : list Z) (s : vm) :
  frames (foldl (clone_entry ts td) s l) = frames s.
Proof.
  revert s. induction l as [|j l IH]; intros s; simpl; [done|]. rewrite IH.
  unfold clone_entry. by destruct (has _ _).
Qed.

Lemma frames_set_entry (s : vm) (p i v : Z) : frames (set_entry s p i v) = frames s.
Proof. done. Qed.

Lemma clone_total (dst src i : Z) (s : vm) :
  pmm_frame_ok (frames s) -> USER_ENTRIES - i <= pmm_frames_free (frames s) -> 0 <= i ->
  (clone_loop dst src (range i PAGE_ENTRIES) s).1 = 0.
Proof.
  revert s. apply (range_ind (fun i => forall s, pmm_frame_ok (frames s) ->
    USER_ENTRIES - i <= pmm_frames_free (frames s) -> 0 <= i ->
    (clone_loop dst src (range i PAGE_ENTRIES) s).1 = 0) i PAGE_ENTRIES).
  { intros j Hj s _ _ _. by rewrite range_nil. }
  intros j Hj IH s Hok Hf Hj0. rewrite range_cons by lia. cbn [clone_loop]. fold USER_ENTRIES.
  pose proof (pmm_frames_nonneg _ Hok).
  destruct (Z.leb_spec USER_ENTRIES j); [apply IH; cbn; (done || lia)|].
  destruct (has PTE_PRESENT _); [|apply IH; (done || lia)]. unfold alloc_page.
  pose proof (pmm_frame_some (frames s) Hok ltac:(lia)) as Ha.
  destruct (pmm_alloc_page (frames s)) as [a q]. destruct Ha as (Hn & _ & _ & Hok' & Hf').
  rewrite (proj2 (Z.eqb_neq a NULL)) by done. apply IH; [| |lia].
  - rewrite frames_set_entry, clone_entries_frames. exact Hok'.
  - rewrite frames_set_entry, clone_entries_frames. cbn [frames set_frames]. lia.
Qed.


(** The fault handler takes the copy-on-write decision from bit 9 of the faulting
    address instead of the page-table entry: a write fault on a present page at an
    address whose bit 9 is clear is refused with -1 even when the page is marked
    copy-on-write. *)
Theorem cow_fault_refused (mf pa : Z -> Z -> vm -> vm) (ev : vm -> Z * vm) (s : vm) (curr : option Z)
    (error_code v : Z) :
  has VMM_PAGE_FAULT_PRESENT error_code = true -> Z.testbit v 9 = false ->
  vmm_handle_page_fault mf pa ev curr error_code v s = Some (-1, s).
Proof.
  intros Hp Hb. unfold vmm_handle_page_fault. rewrite Hp. cbn [negb andb].
  assert (match curr with Some pid => s | None => s end = s) as -> by (by destruct curr).
  set (d := current_page_directory s). assert (has PTE_COW (vmm_get_physical s d v) = false) as ->.
  { rewrite has_cow, get_physical_pte. destruct (pte_of s d v) as [e|]; [|done]. cbn [translate].
    destruct (has PTE_PRESENT e); [|done].
    rewrite Z.lor_spec, !Z.land_spec, testbit_FRAME_MASK, testbit_FLAG_MASK, Hb by lia.
    by rewrite andb_false_r. }
  by rewrite andb_false_r.
Qed.

(** ** Destroying an address space *)

Lemma frame_mod (e : Z) : Z.land e FRAME_MASK mod 4096 = 0 /\ 0 <= Z.land e FRAME_MASK.
Proof.
  split; [|apply Z.land_nonneg; right; unfold FRAME_MASK; lia].
  change 4096 with (2 ^ 12). rewrite <-Z.land_ones by lia. apply Z.bits_inj'. intros j Hj.
  rewrite !Z.land_spec, testbit_FRAME_MASK, Z.bits_0 by lia.
  destruct (Z.leb_spec 12 j); [rewrite Z.ones_spec_high by lia|]; by rewrite ?andb_false_r.
Qed.

(** Frames were only given back between [p] and [q]. *)
Record frees (p q : pmm) : Prop := {
  fr_inv : (exists d, pmm_inv d p) -> exists d, pmm_inv d q;
  fr_total : total_pages q = total_pages p;
  fr_mono : (exists d, pmm_inv d p) -> forall k, 0 <= k < total_pages p -> page_used p k = false ->
    page_used q k = false;
}.

#[export] Instance frees_pre : PreOrder frees.
Proof.
  split; [done|]. intros p q r [] []. constructor; [auto|congruence|].
  intros Hp k Hk Hu. apply fr_mono1; [auto|lia|auto].
Qed.

Lemma free_page_frees (a : Z) (p : pmm) : 0 <= a -> frees p (pmm_free_page a p).
Proof.
  intros Ha. rewrite free_page_eq. case_if; [|done]. constructor.
  - intros [d Hd]. exists d. apply release_page_inv; [done|]. unfold PAGE_SIZE in *. dlia.
  - apply release_total.
  - intros [d Hd] k Hk Hu. pose proof Hd as [].
    destruct (release_page_inv d (a / PAGE_SIZE) p Hd) as [_ (_ & _ & Hm)].
    + unfold PAGE_SIZE in *. dlia.
    + rewrite Hm by lia. by rewrite Hu, andb_false_r.
Qed.

Lemma free_page_freed (a d : Z) (p : pmm) :
  pmm_inv d p -> 0 <= a -> a mod 4096 = 0 -> a / 4096 < total_pages p ->
  page_used (pmm_free_page a p) (a / 4096) = false.
Proof.
  intros Hd Ha Hm Ht. rewrite free_page_eq. unfold PAGE_SIZE.
  rewrite Hm, (proj2 (Z.ltb_lt _ _)) by done. simpl. pose proof Hd as [].
  destruct (release_page_inv d (a / 4096) p Hd) as [_ (_ & _ & Hk)]; [dlia|].
  rewrite Hk by dlia. by rewrite Z.eqb_refl.
Qed.

(** The loop over one table gives back every frame it maps. *)
Lemma destroy_entries_spec (table : Z) (l : list Z) (s : vm) :
  (exists d, pmm_inv d (frames s)) ->
  let s' := foldl (destroy_entry table) s l in
  mem s' = mem s /\ frees (frames s) (frames s') /\
  forall j, j ∈ l -> has PTE_PRESENT (entry s table j) = true ->
    Z.land (entry s table j) FRAME_MASK / 4096 < total_pages (frames s) ->
    page_used (frames s') (Z.land (entry s table j) FRAME_MASK / 4096) = false.
Proof.
  revert s. induction l as [|x l IH]; intros s Hd; simpl.
  { split_and!; try done. intros j Hj. by apply not_elem_of_nil in Hj. }
  set (s1 := destroy_entry table s x).
  assert (mem s1 = mem s) as Hm by (unfold s1, destroy_entry; by destruct (has _ _)).
  assert (frees (frames s) (frames s1)) as Hf.
  { unfold s1, destroy_entry. destruct (has _ _); [|done]. apply free_page_frees, frame_mod. }
  destruct (IH s1 (fr_inv _ _ Hf Hd)) as (Hm2 & Hf2 & He). cbv zeta in *.
  set (s' := foldl _ _ _) in *. split_and!; [congruence|by etransitivity|].
  assert (forall j, entry s1 table j = entry s table j) as Hen
    by (intros j; unfold entry, words; by rewrite Hm).
  intros j [->|Hj]%elem_of_cons Hp Ht.
  - destruct (frame_mod (entry s table x)) as [Hmod Hnn].
    apply (fr_mono _ _ Hf2 (fr_inv _ _ Hf Hd)).
    + rewrite (fr_total _ _ Hf). split; [|done]. apply Z.div_pos; lia.
    + unfold s1, destroy_entry. rewrite Hp. destruct Hd as [d Hd]. by eapply free_page_freed.
  - specialize (He j Hj). rewrite Hen, (fr_total _ _ Hf) in He. auto.
Qed.

Lemma destroy_table_spec (dir i : Z) (s : vm) :
  mem_ok s -> (exists d, pmm_inv d (frames s)) -> index_ok i ->
  let s' := destroy_table dir s i in
  mem_ok s' /\ frees (frames s) (frames s') /\
  (forall q, deref q <> deref dir -> words s' q = words s q) /\
  (forall k, index_ok k -> k <> i -> entry s' dir k = entry s dir k) /\
  (forall j, index_ok j -> pde_present_at s dir i = true ->
    has PTE_PRESENT (entry s (pde_frame s dir i) j) = true ->
    Z.land (entry s (pde_frame s dir i) j) FRAME_MASK / 4096 < total_pages (frames s) ->
    page_used (frames s') (Z.land (entry s (pde_frame s dir i) j) FRAME_MASK / 4096) = false).
Proof.
  intros Hm Hd Hi. unfold destroy_table. fold (pde_present_at s dir i). fold (pde_frame s dir i).
  destruct (pde_present_at s dir i); [|by split_and!]. cbv zeta.
  destruct (destroy_entries_spec (pde_frame s dir i) (range 0 PAGE_ENTRIES) s Hd) as (Hm1 & Hf1 & He).
  set (s1 := foldl _ _ _) in *. clearbody s1. set (s2 := free_page (pde_frame s dir i) s1).
  assert (mem_ok s2) as Hm2 by (intros a ws; cbn; rewrite Hm1; apply Hm).
  assert (frees (frames s1) (frames s2)) as Hf2 by apply free_page_frees, frame_mod.
  assert (forall q, words s2 q = words s q) as Hw by (intros q; unfold words; cbn; by rewrite Hm1).
  destruct (set_entry_only s2 dir i 0 Hm2) as (Hm3 & Hf3 & Hw3).
  split_and!; [done|by etransitivity| | |].
  - intros q Hq. rewrite Hw3; [apply Hw|set_solver].
  - intros k Hk Hki. rewrite entry_set_entry, (proj2 (Z.eqb_neq k i)), andb_false_r by done.
    unfold entry. by rewrite Hw.
  - intros j Hj _ Hp Ht. rewrite Hf3. destruct (frame_mod (entry s (pde_frame s dir i) j)) as [_ Hnn].
    apply (fr_mono _ _ Hf2 (fr_inv _ _ Hf1 Hd)).
    + rewrite (fr_total _ _ Hf1). split; [apply Z.div_pos; lia|done].
    + apply He; [|done..]. by apply elem_of_range.
Qed.

Lemma destroy_tables_spec (dir : Z) (s0 : vm) (l : list Z) (s : vm) :
  mem_ok s -> (exists d, pmm_inv d (frames s)) -> NoDup l -> Forall index_ok l ->
  (forall q, deref q <> deref dir -> words s q = words s0 q) ->
  (forall k, k ∈ l -> entry s dir k = entry s0 dir k) ->
  let s' := foldl (destroy_table dir) s l in
  frees (frames s) (frames s') /\
  forall i j, i ∈ l -> index_ok j -> deref (pde_frame s0 dir i) <> deref dir ->
    pde_present_at s0 dir i = true -> has PTE_PRESENT (entry s0 (pde_frame s0 dir i) j) = true ->
    Z.land (entry s0 (pde_frame s0 dir i) j) FRAME_MASK / 4096 < total_pages (frames s) ->
    page_used (frames s') (Z.land (entry s0 (pde_frame s0 dir i) j) FRAME_MASK / 4096) = false.
Proof.
  revert s. induction l as [|x l IH]; intros s Hm Hd Hnd Hix Hw He; simpl.
  { split; [done|]. intros i j Hi. by apply not_elem_of_nil in Hi. }
  apply NoDup_cons in Hnd as [Hx Hnd]. apply Forall_cons in Hix as [Hxi Hix].
  destruct (destroy_table_spec dir x s Hm Hd Hxi) as (Hm1 & Hf1 & Hw1 & He1 & Hu1).
  set (s1 := destroy_table dir s x) in *.
  destruct (IH s1 Hm1 (fr_inv _ _ Hf1 Hd) Hnd Hix) as [Hf2 Hu2].
  - intros q Hq. by rewrite Hw1, Hw.
  - intros k Hk. rewrite He1; [apply He; by constructor| |by intros ->].
    rewrite Forall_forall in Hix. by apply Hix.
  - cbv zeta in *. set (s' := foldl _ _ _) in *. split; [by etransitivity|].
    intros i j [->|Hi]%elem_of_cons Hj Hne Hp Hpe Ht.
    + assert (entry s dir x = entry s0 dir x) as Hex by (apply He; constructor).
      assert (pde_frame s dir x = pde_frame s0 dir x) as Hfx by (unfold pde_frame; by rewrite Hex).
      assert (entry s (pde_frame s0 dir x) j = entry s0 (pde_frame s0 dir x) j) as Hej
        by (unfold entry; by rewrite Hw).
      apply (fr_mono _ _ Hf2 (fr_inv _ _ Hf1 Hd)).
      * rewrite (fr_total _ _ Hf1). split; [|done]. apply Z.div_pos; [apply frame_mod|lia].
      * specialize (Hu1 j Hj). unfold pde_present_at in *. rewrite Hfx, Hej, Hex in Hu1. auto.
    + apply Hu2; try done. by rewrite (fr_total _ _ Hf1).
Qed.

(** [vmm_destroy_address_space] gives back every frame the user part maps, with no
    regard for the copy-on-write mark: the frame of any present page is free
    afterwards, also when it is shared with another address space that still maps
    it. *)
Theorem destroy_frees_shared (s : vm) (dir v e : Z) :
  vm_ok s -> dir_ok s dir -> is_u32 v -> v < KERNEL_BASE -> pte_of s dir v = Some e ->
  has PTE_PRESENT e = true -> Z.land e FRAME_MASK / 4096 < total_pages (frames s) ->
  page_used (frames (vmm_destroy_address_space dir s)) (Z.land e FRAME_MASK / 4096) = false.
Proof.
  intros Hs Hd Hv Hk He Hp Ht. pose proof (dir_index v Hv) as Hi.
  pose proof (proj2 (user_index v Hv) Hk) as Hu. pose proof (vo_frames _ Hs) as (Hinv & _).
  unfold pte_of in He. destruct (pde_present_at s dir (Z.shiftr v 22)) eqn:Hpd; [|done].
  injection He as <-. destruct (do_table _ _ Hd _ Hi Hpd) as [Hut Hne].
  destruct (used_below s _ Hs Hut) as [_ Hdt].
  destruct (destroy_tables_spec dir s (range 0 USER_ENTRIES) s) as [Hf Hall]; try done.
  - apply (vo_mem _ Hs).
  - apply NoDup_range.
  - apply Forall_forall. intros x Hx%elem_of_range. unfold index_ok.
    change USER_ENTRIES with 768 in Hx. unfold PAGE_ENTRIES. lia.
  - unfold vmm_destroy_address_space. fold USER_ENTRIES. cbv zeta in *.
    set (s' := foldl _ _ _) in *. clearbody s'.
    assert (frees (frames s') (frames (free_page dir s'))) as Hf2.
    { apply free_page_frees. destruct (do_used _ _ Hd) as (_ & Hdu & _).
      unfold deref, PAGE_SIZE, KERNEL_BASE in Hdu. case_if; [lia|dlia]. }
    apply (fr_mono _ _ Hf2 (fr_inv _ _ Hf Hinv)).
    + rewrite (fr_total _ _ Hf). split; [apply Z.div_pos; [apply frame_mod|lia]|done].
    + apply (Hall (Z.shiftr v 22) (pte_index v)); try done; [|apply table_index|congruence].
      apply elem_of_range. split; [apply Hi|done].
Qed.

(** ** A concrete address space *)

(** 1024 managed frames, the first 32 of them in use; the directory is frame 1. *)
Definition demo_pmm : pmm :=
  mk_pmm (<[0%nat := ALL_ONES]> (replicate (Z.to_nat 32768) 0)) 1024 32 32.
Definition demo_vm : vm := mk_vm ∅ demo_pmm 4096 4096 4244635648 3758096384 0.

Lemma demo_word (i : Z) : 0 <= i < 32768 -> (bitmap demo_pmm).[i] = if decide (Z.to_nat i = 0%nat) then ALL_ONES else 0.
Proof.
  intros Hlt. unfold aget, demo_pmm. cbn [bitmap]. destruct (decide _) as [->|Hi].
  - apply list_lookup_total_insert_eq. rewrite length_replicate. lia.
  - rewrite list_lookup_total_insert_ne by done. apply lookup_total_replicate_2. lia.
Qed.

Lemma demo_page (i : Z) : 0 <= i < 1024 -> page_used demo_pmm i = (i <? 32).
Proof.
  intros Hi. unfold page_used, BITS_PER_UINT32. rewrite demo_word by dlia.
  destruct (Z.ltb_spec i 32).
  - rewrite Z.div_small, decide_True, Z.mod_small by (done || lia). apply testbit_all_ones. lia.
  - rewrite decide_False by dlia. apply Z.testbit_0_l.
Qed.

Lemma demo_count : count_used demo_pmm = 32.
Proof.
  unfold count_used. rewrite (zcount_ext _ (fun i => i <? 32)).
  - reflexivity.
  - intros i Hi%elem_of_range. by apply demo_page.
Qed.

Lemma demo_pmm_inv : pmm_inv 0 demo_pmm.
Proof.
  constructor.
  - unfold zlen, demo_pmm. cbn [bitmap]. rewrite length_insert, length_replicate.
    by rewrite Z2Nat.id.
  - apply Forall_insert; [|unfold is_u32, ALL_ONES; lia]. apply Forall_replicate. by split.
  - unfold PMM_MAX_PAGES. cbn [total_pages demo_pmm]. lia.
  - done.
  - lia.
  - by rewrite demo_count.
Qed.

Lemma demo_pmm_ok : pmm_frame_ok demo_pmm /\ pmm_frames_free demo_pmm = 992.
Proof.
  split; [|unfold pmm_frames_free; by rewrite demo_count].
  split_and!; [by exists 0; apply demo_pmm_inv|by rewrite demo_page|done].
Qed.

Lemma demo_vm_ok : vm_ok demo_vm.
Proof. constructor; [done|apply demo_pmm_ok|done]. Qed.

Lemma demo_used (k : Z) : 0 <= k < 32 -> frame_used (frames demo_vm) (k * 4096).
Proof.
  intros Hk. unfold frame_used, PAGE_SIZE. rewrite Z.mod_mul, Z.div_mul by lia.
  change (frames demo_vm) with demo_pmm. rewrite demo_page, (proj2 (Z.ltb_lt _ _)) by lia.
  cbn [total_pages demo_pmm]. split_and!; (done || lia).
Qed.

Lemma demo_absent (dir i : Z) : index_ok i -> pde_present_at demo_vm dir i = false.
Proof.
  intros Hi. unfold pde_present_at, entry, words. change (mem demo_vm) with (∅ : gmap Z (list Z)).
  by rewrite lookup_empty, entry_zero.
Qed.

Lemma demo_dir_ok : dir_ok demo_vm 4096.
Proof.
  constructor.
  - apply (demo_used 1). lia.
  - intros i Hi. by rewrite demo_absent.
  - intros i j Hi Hj. by rewrite demo_absent.
Qed.

(** Page 0x400000 mapped to frame 0x5000, writable. *)
Lemma vmm_map_page_spec_witness :
  exists s, vmm_map_page 4096 4194304 20480 3 demo_vm = Some s /\
    vmm_get_physical s 4096 4194404 = 20580.
Proof.
  pose proof (vmm_map_page_spec demo_vm 4096 4194304 20480 3 demo_vm_ok demo_dir_ok
    ltac:(unfold is_u32; lia)) as H.
  destruct (vmm_map_page _ _ _ _ _) as [s|].
  - exists s. split; [done|]. destruct H as (_ & _ & H). rewrite H by (unfold is_u32; lia). reflexivity.
  - destruct H as [_ H]. change (frames demo_vm) with demo_pmm in H.
    by rewrite (proj2 demo_pmm_ok) in H.
Defined.

Lemma demo_mapped : exists s, vm_ok s /\ dir_ok s 4096 /\ total_pages (frames s) = 1024 /\
  pte_of s 4096 4194304 = Some (mk_pte 20480 3).
Proof.
  destruct (vmm_map_page 4096 4194304 20480 3 demo_vm) as [s|] eqn:E.
  - destruct (map_page_pte demo_vm s 4096 4194304 20480 3 demo_vm_ok demo_dir_ok
      ltac:(unfold is_u32; lia) E) as (Hs & Hd & Hp).
    exists s. split_and!; try done; [|by rewrite Hp by (unfold is_u32; lia)].
    unfold vmm_map_page, get_page_table in E.
    fold (pde_present_at demo_vm 4096 (Z.shiftr 4194304 22)) in E.
    rewrite demo_absent in E by (by vm_compute). cbn [negb] in E. unfold create_page_table in E.
    fold (pde_present_at demo_vm 4096 (Z.shiftr 4194304 22)) in E.
    rewrite demo_absent in E by (by vm_compute). unfold alloc_page in E.
    pose proof (alloc_fresh _ (proj1 demo_pmm_ok)) as Ha. change (frames demo_vm) with demo_pmm in E.
    destruct (pmm_alloc_page demo_pmm) as [a q]. destruct (Z.eqb_spec a NULL); [done|].
    injection E as <-. by destruct Ha as [(? & _)|(_ & _ & _ & Ht & _)].
  - unfold vmm_map_page in E. destruct (get_page_table _ _ _); [done|]. unfold create_page_table in E.
    fold (pde_present_at demo_vm 4096 (Z.shiftr 4194304 22)) in E.
    rewrite demo_absent in E by (by vm_compute). unfold alloc_page in E.
    pose proof (pmm_frame_some _ (proj1 demo_pmm_ok)) as Ha. rewrite (proj2 demo_pmm_ok) in Ha.
    change (frames demo_vm) with demo_pmm in E. destruct (pmm_alloc_page demo_pmm) as [a q].
    destruct (Ha ltac:(lia)) as [Hn _]. by rewrite (proj2 (Z.eqb_neq a NULL)) in E.
Qed.

Lemma vmm_unmap_page_spec_witness :
  exists s, vm_ok s /\ pte_of s 4096 4194304 = Some (mk_pte 20480 3) /\
    vmm_get_physical (vmm_unmap_page 4096 4194304 s) 4096 4194404 = 0 /\
    frames (vmm_unmap_page 4096 4194304 s) = pmm_free_page 20480 (frames s).
Proof.
  destruct demo_mapped as (s & Hs & Hd & _ & Hp). exists s.
  destruct (vmm_unmap_page_spec s 4096 4194304 Hs Hd ltac:(unfold is_u32; lia)) as [H1 H2].
  split_and!; [done..| |].
  - rewrite H1 by (unfold is_u32; lia). reflexivity.
  - rewrite H2, Hp. reflexivity.
Defined.


Lemma cow_fault_refused_witness :
  vmm_handle_page_fault (fun _ _ s => s) (fun _ _ s => s) (fun s => (-1, s)) (Some 7) 3 4194304 demo_vm
  = Some (-1, demo_vm).
Proof. apply cow_fault_refused; reflexivity. Defined.

Lemma destroy_frees_shared_witness :
  exists s, vm_ok s /\ page_used (frames (vmm_destroy_address_space 4096 s)) 5 = false.
Proof.
  destruct demo_mapped as (s & Hs & Hd & Ht & Hp). exists s. split; [done|].
  apply (destroy_frees_shared s 4096 4194304 (mk_pte 20480 3) Hs Hd); try done.
  rewrite Ht. reflexivity.
Defined.

End Vmm.
