(* ===== verification/Route.v ===== *)
(** * The routing table (src/net/route.c)

    Eight tables of up to 64 routes, a list of policy rules, a direct-mapped
    lookup cache and the statistics.  The cache stores pointers; the only
    storage they point to is the two static variables [result] of
    [route_lookup_policy] and [cache_storage] of [route_lookup], which the model
    keeps as cells so that the aliasing is visible.  Operations under
    [rtable_lock] are atomic; network interfaces are read through a parameter. *)

From S2P Require Import Prelude.

Module Route.

Definition ROUTE_TABLE_MAX : Z := 64.
Definition ROUTE_TABLE_MAX_ID : Z := 8.
Definition ROUTE_TABLE_MAIN : Z := 0.
Definition ROUTE_POLICY_MAX : Z := 32.
Definition ROUTE_CACHE_SIZE : Z := 256.
Definition ROUTE_FLAG_STATIC : Z := 1.
Definition ROUTE_FLAG_GATEWAY : Z := 2.
Definition ROUTE_FLAG_UP : Z := 4.
Definition ROUTE_FLAG_BLACKHOLE : Z := 8.
Definition IFF_UP : Z := 1.

Record route_entry := mk_route {
  dest : Z; mask : Z; gateway : Z; iface : Z; metric : Z; flags : Z;
}.
Definition zero_route : route_entry := mk_route 0 0 0 0 0 0.
#[export] Instance route_entry_inh : Inhabited route_entry := populate zero_route.

Record route_policy := mk_policy {
  priority : Z; match_type : Z; match_value : Z; match_mask : Z; table_id : Z;
}.

(** The targets of a [route_entry_t *]. *)
Inductive rptr := RNull | RResult | RStorage.

Record cache_entry := mk_cache { c_dst : Z; c_src : Z; c_route : rptr; last_used : Z; valid : Z }.
Definition zero_cache : cache_entry := mk_cache 0 0 RNull 0 0.
#[export] Instance cache_entry_inh : Inhabited cache_entry := populate zero_cache.

Record route_stats := mk_rstats {
  lookups : Z; hits : Z; misses : Z; inserts : Z; deletes : Z; longest_prefix : Z;
  cache_hits : Z; cache_misses : Z; policy_matches : Z;
}.

(** A table: its 64 cells and the number in use. *)
Record rtable := mk_table { cells : list route_entry; cnt : Z }.
Definition zero_table : rtable := mk_table (replicate (Z.to_nat ROUTE_TABLE_MAX) zero_route) 0.
#[export] Instance rtable_inh : Inhabited rtable := populate zero_table.

Record rstate := mk_rstate {
  tables : list rtable; policy_list : list route_policy; policy_count : Z;
  cache : list cache_entry; cache_time : Z; rstats : route_stats;
  result : route_entry; cache_storage : route_entry;
}.

Definition route_init : rstate :=
  mk_rstate (replicate (Z.to_nat ROUTE_TABLE_MAX_ID) zero_table) [] 0
    (replicate (Z.to_nat ROUTE_CACHE_SIZE) zero_cache) 0 (mk_rstats 0 0 0 0 0 0 0 0 0)
    zero_route zero_route.

(** ** Updates *)

Definition set_stats (s : rstate) (st : route_stats) : rstate :=
  mk_rstate (tables s) (policy_list s) (policy_count s) (cache s) (cache_time s) st (result s)
    (cache_storage s).
Definition set_table (s : rstate) (id : Z) (t : rtable) : rstate :=
  mk_rstate ((tables s).[id <- t]) (policy_list s) (policy_count s) (cache s) (cache_time s)
    (rstats s) (result s) (cache_storage s).
Definition set_policies (s : rstate) (l : list route_policy) (n : Z) : rstate :=
  mk_rstate (tables s) l n (cache s) (cache_time s) (rstats s) (result s) (cache_storage s).
Definition set_cache (s : rstate) (c : list cache_entry) (t : Z) : rstate :=
  mk_rstate (tables s) (policy_list s) (policy_count s) c t (rstats s) (result s) (cache_storage s).
Definition set_cells (s : rstate) (r c : route_entry) : rstate :=
  mk_rstate (tables s) (policy_list s) (policy_count s) (cache s) (cache_time s) (rstats s) r c.

(** Adding to the counters. *)
Definition bump (f : route_stats -> route_stats) (s : rstate) : rstate := set_stats s (f (rstats s)).
Definition st_lookup (t : route_stats) : route_stats :=
  mk_rstats (u32 (lookups t + 1)) (hits t) (misses t) (inserts t) (deletes t) (longest_prefix t)
    (cache_hits t) (cache_misses t) (policy_matches t).
Definition st_hit (t : route_stats) : route_stats :=
  mk_rstats (lookups t) (u32 (hits t + 1)) (misses t) (inserts t) (deletes t) (longest_prefix t)
    (cache_hits t) (cache_misses t) (policy_matches t).
Definition st_miss (t : route_stats) : route_stats :=
  mk_rstats (lookups t) (hits t) (u32 (misses t + 1)) (inserts t) (deletes t) (longest_prefix t)
    (cache_hits t) (cache_misses t) (policy_matches t).
Definition st_insert (t : route_stats) : route_stats :=
  mk_rstats (lookups t) (hits t) (misses t) (u32 (inserts t + 1)) (deletes t) (longest_prefix t)
    (cache_hits t) (cache_misses t) (policy_matches t).
Definition st_delete (n : Z) (t : route_stats) : route_stats :=
  mk_rstats (lookups t) (hits t) (misses t) (inserts t) (u32 (deletes t + n)) (longest_prefix t)
    (cache_hits t) (cache_misses t) (policy_matches t).
Definition st_longest (p : Z) (t : route_stats) : route_stats :=
  mk_rstats (lookups t) (hits t) (misses t) (inserts t) (deletes t)
    (if longest_prefix t <? p then p else longest_prefix t)
    (cache_hits t) (cache_misses t) (policy_matches t).
Definition st_cache (hit : bool) (t : route_stats) : route_stats :=
  mk_rstats (lookups t) (hits t) (misses t) (inserts t) (deletes t) (longest_prefix t)
    (if hit then u32 (cache_hits t + 1) else cache_hits t)
    (if hit then cache_misses t else u32 (cache_misses t + 1)) (policy_matches t).
Definition st_policy (t : route_stats) : route_stats :=
  mk_rstats (lookups t) (hits t) (misses t) (inserts t) (deletes t) (longest_prefix t)
    (cache_hits t) (cache_misses t) (u32 (policy_matches t + 1)).

(** ** The cache *)

Definition route_cache_hash (dst src : Z) : Z :=
  Z.lxor (Z.lxor (Z.lxor dst src) (Z.shiftr dst 16)) (Z.shiftr src 16) mod ROUTE_CACHE_SIZE.

(** What a pointer points to. *)
Definition deref (s : rstate) (p : rptr) : route_entry :=
  match p with RNull => zero_route | RResult => result s | RStorage => cache_storage s end.

Definition is_null (p : rptr) : bool := match p with RNull => true | _ => false end.

Definition route_cache_lookup (dst src : Z) (s : rstate) : rptr * rstate :=
  let idx := route_cache_hash dst src in
  let e := (cache s).[idx] in
  if c_true (valid e) && (c_dst e =? dst) && (c_src e =? src) && negb (is_null (c_route e)) then
    let t := u32 (cache_time s + 1) in
    (c_route e,
     bump (st_cache true)
       (set_cache s ((cache s).[idx <- mk_cache (c_dst e) (c_src e) (c_route e) t (valid e)]) t))
  else (RNull, bump (st_cache false) s).

Definition route_cache_insert (dst src : Z) (route : rptr) (s : rstate) : rstate :=
  if is_null route then s
  else
    let t := u32 (cache_time s + 1) in
    set_cache s ((cache s).[route_cache_hash dst src <- mk_cache dst src route t 1]) t.

Definition route_cache_flush (s : rstate) : rstate :=
  set_cache s (replicate (Z.to_nat ROUTE_CACHE_SIZE) zero_cache) 0.

(** ** Policy rules *)

Fixpoint update_policy (np : route_policy) (l : list route_policy) : option (list route_policy) :=
  match l with
  | [] => None
  | p :: l => if priority p =? priority np then Some (np :: l)
              else match update_policy np l with Some l' => Some (p :: l') | None => None end
  end.

Fixpoint insert_policy (np : route_policy) (l : list route_policy) : list route_policy :=
  match l with
  | [] => [np]
  | p :: l' => if priority p <? priority np then p :: insert_policy np l' else np :: l
  end.

(** [np] is the rule, [ptr] the result of [kmalloc]. *)
Definition route_add_policy (np : route_policy) (ptr : Z) (s : rstate) : Z * rstate :=
  if (ROUTE_POLICY_MAX <=? policy_count s) || (ROUTE_TABLE_MAX_ID <=? table_id np) then (-1, s)
  else
    match update_policy np (policy_list s) with
    | Some l => (0, set_policies s l (policy_count s))
    | None =>
        if ptr =? NULL then (-1, s)
        else (0, set_policies s (insert_policy np (policy_list s)) (u32 (policy_count s + 1)))
    end.

Fixpoint remove_policy (prio : Z) (l : list route_policy) : option (list route_policy) :=
  match l with
  | [] => None
  | p :: l => if priority p =? prio then Some l
              else match remove_policy prio l with Some l' => Some (p :: l') | None => None end
  end.

Definition route_del_policy (prio : Z) (s : rstate) : Z * rstate :=
  match remove_policy prio (policy_list s) with
  | Some l => (0, set_policies s l (u32 (policy_count s - 1)))
  | None => (-1, s)
  end.

(** ** Tables *)

Definition same_key (d m : Z) (e : route_entry) : bool := (dest e =? d) && (mask e =? m).

Definition route_add_to_table (id : Z) (e : route_entry) (s : rstate) : Z * rstate :=
  if ROUTE_TABLE_MAX_ID <=? id then (-1, s)
  else
    let t := (tables s).[id] in
    match List.find (fun i => same_key (dest e) (mask e) ((cells t).[i])) (range 0 (cnt t)) with
    | Some i => (0, bump st_insert (set_table s id (mk_table ((cells t).[i <- e]) (cnt t))))
    | None =>
        if ROUTE_TABLE_MAX <=? cnt t then (-1, s)
        else (0, bump st_insert
                   (set_table s id (mk_table ((cells t).[cnt t <- e]) (u32 (cnt t + 1)))))
    end.

(** [for (k = i; k + 1 < cnt; k++) tbl[k] = tbl[k + 1]] *)
Definition shift_down (a : list route_entry) (i n : Z) : list route_entry :=
  foldl (fun a k => a.[k <- a.[k + 1]]) a (range i (n - 1)).

Definition route_delete_from_table (id d m : Z) (s : rstate) : Z * rstate :=
  if ROUTE_TABLE_MAX_ID <=? id then (-1, s)
  else
    let t := (tables s).[id] in
    match List.find (fun i => same_key d m ((cells t).[i])) (range 0 (cnt t)) with
    | Some i => (0, bump (st_delete 1)
                      (set_table s id (mk_table (shift_down (cells t) i (cnt t)) (cnt t - 1))))
    | None => (-1, s)
    end.

(** [while (m & 0x80000000U) { pref++; m <<= 1; }]: a 32-bit mask has at most 32
    leading ones. *)
Fixpoint leading_ones (fuel : nat) (m : Z) : Z :=
  match fuel with
  | O => 0
  | S fuel => if Z.testbit m 31 then 1 + leading_ones fuel (u32 (Z.shiftl m 1)) else 0
  end.
Definition prefix_len (m : Z) : Z := if c_true m then leading_ones 32 m else 0.

Definition route_matches (dst : Z) (e : route_entry) : bool :=
  negb (Z.land (flags e) ROUTE_FLAG_UP =? 0) &&
  (Z.land dst (mask e) =? Z.land (dest e) (mask e)).

(** The loop over the entries with [best], [best_pref] and [found]. *)
Definition lookup_step (dst : Z) (st : route_entry * Z * bool) (e : route_entry)
    : route_entry * Z * bool :=
  let '(best, best_pref, found) := st in
  if negb (route_matches dst e) then st
  else
    let pref := prefix_len (mask e) in
    if negb found || (best_pref <? pref) || ((pref =? best_pref) && (metric e <? metric best))
    then (e, pref, true) else st.

Definition active (t : rtable) : list route_entry := take (Z.to_nat (cnt t)) (cells t).

Definition route_lookup_table (id dst : Z) (s : rstate) : route_entry :=
  if ROUTE_TABLE_MAX_ID <=? id then zero_route
  else (foldl (lookup_step dst) (zero_route, 0, false) (active ((tables s).[id]))).1.1.

Definition policy_match (p : route_policy) (src dst tos fwmark : Z) : bool :=
  let masked x := Z.land x (match_mask p) =? Z.land (match_value p) (match_mask p) in
  match match_type p with
  | 1 => masked src
  | 2 => masked dst
  | 3 => masked tos
  | 4 => masked fwmark
  | 5 => src =? match_value p
  | _ => false
  end.

Fixpoint policy_loop (l : list route_policy) (src dst tos fwmark : Z) (s : rstate) : rptr * rstate :=
  match l with
  | [] => (RNull, s)
  | p :: l =>
      if policy_match p src dst tos fwmark && (table_id p <? ROUTE_TABLE_MAX_ID) then
        let r := route_lookup_table (table_id p) dst s in
        let s1 := set_cells s r (cache_storage s) in
        if c_true (iface r) then (RResult, bump st_policy s1)
        else policy_loop l src dst tos fwmark s1
      else policy_loop l src dst tos fwmark s
  end.

Definition route_lookup_policy (src dst tos fwmark : Z) (s : rstate) : rptr * rstate :=
  policy_loop (policy_list s) src dst tos fwmark s.

(** ** The main table *)

Definition route_add (e : route_entry) (s : rstate) : Z * rstate :=
  route_add_to_table ROUTE_TABLE_MAIN e s.
Definition route_delete (d m : Z) (s : rstate) : Z * rstate :=
  route_delete_from_table ROUTE_TABLE_MAIN d m s.

(** The loop of [route_purge_dynamic] with [k] and the number of deletions. *)
Definition purge_step (st : list route_entry * Z * Z) (i : Z) : list route_entry * Z * Z :=
  let '(a, k, d) := st in
  if c_true (Z.land (flags (a.[i])) ROUTE_FLAG_STATIC) then (a.[k <- a.[i]], k + 1, d)
  else (a, k, d + 1).

Definition route_purge_dynamic (s : rstate) : rstate :=
  let t := (tables s).[ROUTE_TABLE_MAIN] in
  let '(a, k, d) := foldl purge_step (cells t, 0, 0) (range 0 (cnt t)) in
  bump (st_delete d) (set_table s ROUTE_TABLE_MAIN (mk_table a k)).

Definition route_lookup (dst : Z) (s0 : rstate) : route_entry * rstate :=
  let s := bump st_lookup s0 in
  let '(cached, s1) := route_cache_lookup dst 0 s in
  if negb (is_null cached) then (deref s1 cached, s1)
  else
    let '(pol, s2) := route_lookup_policy 0 dst 0 0 s1 in
    if negb (is_null pol) && c_true (iface (deref s2 pol)) then
      let s3 := bump st_hit (route_cache_insert dst 0 pol s2) in (deref s3 pol, s3)
    else
      let best := route_lookup_table ROUTE_TABLE_MAIN dst s2 in
      if c_true (iface best) then
        let s3 := bump (st_longest (prefix_len (mask best))) (bump st_hit s2) in
        let s4 := set_cells s3 (result s3) best in
        (best, route_cache_insert dst 0 RStorage s4)
      else (best, bump st_miss s2).

(** An interface as [route_resolve] and [route_install_iface_defaults] see it. *)
Record net_interface := mk_if { if_up : Z; if_flags : Z; if_ip : Z; if_mask : Z; if_gateway : Z }.

Section resolve.
Context (interfaces : Z -> net_interface).

(** The interface and the next hop, or [None] for -1. *)
Definition route_resolve (dst : Z) (s : rstate) : option (Z * Z) * rstate :=
  let '(r, s1) := route_lookup dst s in
  let i := interfaces (iface r) in
  if negb (c_true (iface r)) then (None, s1)
  else if negb (c_true (if_up i)) || negb (c_true (Z.land (if_flags i) IFF_UP)) then (None, s1)
  else if c_true (Z.land (flags r) ROUTE_FLAG_BLACKHOLE) then (None, s1)
  else (Some (iface r, if c_true (gateway r) then gateway r else dst), s1).

Definition route_install_iface_defaults (ifp : Z) (s : rstate) : Z * rstate :=
  if ifp =? NULL then (-1, s)
  else
    let i := interfaces ifp in
    let '(r, s1) := route_add (mk_route (Z.land (if_ip i) (if_mask i)) (if_mask i) 0 ifp 0 ROUTE_FLAG_UP) s in
    if negb (r =? 0) then (-1, s1)
    else if negb (if_gateway i =? 0) then
      let '(r, s2) := route_add (mk_route 0 0 (if_gateway i) ifp 1
                                   (Z.lor ROUTE_FLAG_UP ROUTE_FLAG_GATEWAY)) s1 in
      if negb (r =? 0) then (-1, s2) else (0, s2)
    else (0, s1).
End resolve.

Definition route_get_all (s : rstate) : list route_entry := active ((tables s).[ROUTE_TABLE_MAIN]).
Definition route_get_stats (s : rstate) : route_stats := rstats s.

(** ** Longest-prefix match *)

(** [best] is the route the table [l] gives for [dst]: the first, by position, of
    the matching routes with the longest prefix and among those the least
    metric; [zero_route] when nothing matches. *)
Definition best_route (dst : Z) (l : list route_entry) (best : route_entry) : Prop :=
  (exists i, l !! i = Some best /\ route_matches dst best = true /\
     forall j e, l !! j = Some e -> route_matches dst e = true ->
       prefix_len (mask e) < prefix_len (mask best) \/
       prefix_len (mask e) = prefix_len (mask best) /\
       (metric best < metric e \/ metric best = metric e /\ (i <= j)%nat)) \/
  (best = zero_route /\ Forall (fun e => route_matches dst e = false) l).

Lemma lookup_loop_spec (dst : Z) (l : list route_entry) :
  let '(best, pref, found) := foldl (lookup_step dst) (zero_route, 0, false) l in
  best_route dst l best /\
  if found then pref = prefix_len (mask best) /\ exists i, l !! i = Some best /\ route_matches dst best = true
  else Forall (fun e => route_matches dst e = false) l.
Proof.
  induction l as [|e l IH] using rev_ind; [by split; [right|]|].
  rewrite foldl_app. simpl. destruct (foldl _ _ l) as [[best pref] found]. unfold lookup_step.
  destruct IH as [Hb Hf]. assert (forall j x, (l ++ [e]) !! j = Some x -> l !! j = Some x \/ x = e /\ j = length l) as Hlk.
  { intros j x. rewrite lookup_app_Some, list_lookup_singleton_Some. intros [?|(? & ? & ?)]; [by left|].
    right. split; [done|lia]. }
  destruct (route_matches dst e) eqn:Em; simpl.
  2: { split.
    - destruct Hb as [(i & Hi & Hm & Hall)|[-> Hn]].
      + left. exists i. split_and!; [by apply lookup_app_l_Some|done|].
        intros j x [?|[-> _]]%Hlk Hx; [by apply Hall|congruence].
      + right. split; [done|]. apply Forall_app. by split; [|constructor].
    - destruct found; [|apply Forall_app; by split; [|constructor]].
      destruct Hf as (? & i & ? & ?). split; [done|]. exists i. split; [by apply lookup_app_l_Some|done]. }
  set (b := negb found || _ || _). assert (b = true \/ b = false) as [E|E] by (destruct b; auto); rewrite E.
  - split.
    + left. exists (length l). split_and!; [by rewrite lookup_app_r, Nat.sub_diag by lia|done|].
      intros j x [Hj|[-> ->]]%Hlk Hx; [|lia]. assert (j < length l)%nat by (by eapply lookup_lt_Some).
      destruct Hb as [(i & Hi & Hm & Hall)|[-> Hn]].
      2: { rewrite Forall_forall in Hn. by rewrite (Hn x) in Hx by (by eapply list_elem_of_lookup_2). }
      destruct found.
      2: { rewrite Forall_forall in Hf. by rewrite (Hf x) in Hx by (by eapply list_elem_of_lookup_2). }
      destruct Hf as [-> _]. specialize (Hall j x Hj Hx). unfold b in E. simpl in E.
      apply orb_true_iff in E as [E|E]; zbool; lia.
    + split; [done|]. exists (length l). by rewrite lookup_app_r, Nat.sub_diag by lia.
  - unfold b in E. zbool. destruct found; [|done]. destruct Hf as (-> & i0 & Hi0 & Hm0).
    split.
    + left. destruct Hb as [(i & Hi & Hm & Hall)|[-> Hn]].
      2: { rewrite Forall_forall in Hn. by rewrite (Hn zero_route) in Hm0 by (by eapply list_elem_of_lookup_2). }
      exists i. split_and!; [by apply lookup_app_l_Some|done|].
      intros j x [?|[-> ->]]%Hlk Hx; [by apply Hall|].
      assert (i < length l)%nat by (by eapply lookup_lt_Some).
      apply andb_false_iff in H0 as [H0|H0]; zbool; lia.
    + split; [done|]. exists i0. split; [by apply lookup_app_l_Some|done].
Qed.

(** The mask of a prefix of [n] bits. *)
Definition netmask (n : Z) : Z := 2 ^ 32 - 2 ^ (32 - n).

Lemma prefix_len_netmask (n : Z) : 0 <= n <= 32 -> prefix_len (netmask n) = n.
Proof.
  intros Hn. assert (forallb (fun n => prefix_len (netmask n) =? n) (range 0 33) = true) as H
    by (vm_compute; reflexivity).
  rewrite forallb_forall in H. apply Z.eqb_eq, H, list_elem_of_In, elem_of_range. lia.
Qed.

(** ** Tables as maps *)

Definition key (e : route_entry) : Z * Z := (dest e, mask e).

Definition table_ok (t : rtable) : Prop :=
  zlen (cells t) = ROUTE_TABLE_MAX /\ 0 <= cnt t <= ROUTE_TABLE_MAX /\ NoDup (key <$> active t).

Definition table_map (t : rtable) : gmap (Z * Z) route_entry :=
  list_to_map ((fun e => (key e, e)) <$> active t).

Definition map_of (l : list route_entry) : gmap (Z * Z) route_entry :=
  list_to_map ((fun e => (key e, e)) <$> l).

Lemma map_of_fst (l : list route_entry) : ((fun e => (key e, e)) <$> l).*1 = key <$> l.
Proof. induction l as [|e l IH]; simpl; [done|]. f_equal. apply IH. Qed.

Lemma map_of_perm (l k : list route_entry) : NoDup (key <$> l) -> l ≡ₚ k -> map_of l = map_of k.
Proof.
  intros Hnd Hp. apply list_to_map_proper; [by rewrite map_of_fst|]. by apply fmap_Permutation.
Qed.

Lemma map_of_None (l : list route_entry) (k : Z * Z) : k ∉ key <$> l -> map_of l !! k = None.
Proof. intros H. apply not_elem_of_list_to_map_1. by rewrite map_of_fst. Qed.

Lemma map_of_Some (l : list route_entry) (k : Z * Z) : is_Some (map_of l !! k) <-> k ∈ key <$> l.
Proof.
  rewrite <-not_eq_None_Some. split; [|intros H1 H2%not_elem_of_list_to_map_2].
  - intros H. destruct (decide (k ∈ key <$> l)); [done|]. by rewrite map_of_None in H.
  - by rewrite map_of_fst in H2.
Qed.

Lemma map_of_cons (e : route_entry) (l : list route_entry) :
  map_of (e :: l) = <[key e := e]> (map_of l).
Proof. done. Qed.

(** Replacing and removing the entry at [i]. *)
Lemma map_of_delete (l : list route_entry) (i : nat) (x : route_entry) :
  NoDup (key <$> l) -> l !! i = Some x ->
  NoDup (key <$> delete i l) /\ key x ∉ key <$> delete i l /\ map_of (delete i l) = delete (key x) (map_of l).
Proof.
  intros Hnd Hi. pose proof (delete_Permutation l i x Hi) as Hp.
  assert (NoDup (key <$> x :: delete i l)) as Hnd' by (by rewrite <-Hp). simpl in Hnd'.
  apply NoDup_cons in Hnd' as [Hx Hnd']. split_and!; try done.
  rewrite (map_of_perm l (x :: delete i l) Hnd Hp). rewrite map_of_cons.
  rewrite delete_insert_id; [done|]. by apply map_of_None.
Qed.

Lemma map_of_insert (l : list route_entry) (i : nat) (x e : route_entry) :
  NoDup (key <$> l) -> l !! i = Some x -> key e = key x ->
  NoDup (key <$> <[i := e]> l) /\ map_of (<[i := e]> l) = <[key e := e]> (map_of l).
Proof.
  intros Hnd Hi Hk. assert (key <$> <[i := e]> l = key <$> l) as Hkeys.
  { rewrite list_fmap_insert, Hk. apply list_insert_id. by rewrite list_lookup_fmap, Hi. }
  destruct (map_of_delete l i x Hnd Hi) as (Hnd' & Hx & Hd).
  assert (i < length l)%nat as Hlt by (by eapply lookup_lt_Some).
  assert (<[i := e]> l !! i = Some e) as Hi' by (by apply list_lookup_insert_eq).
  assert (delete i (<[i := e]> l) = delete i l) as Hdi.
  { rewrite !delete_take_drop, take_insert_ge, drop_insert_lt by lia. done. }
  split; [by rewrite Hkeys|].
  pose proof (delete_Permutation _ _ _ Hi') as Hp. rewrite Hdi in Hp.
  rewrite (map_of_perm _ (e :: delete i l)); [|by rewrite Hkeys|done].
  by rewrite map_of_cons, Hd, Hk, insert_delete_eq.
Qed.

Lemma map_of_snoc (l : list route_entry) (e : route_entry) :
  NoDup (key <$> l) -> key e ∉ key <$> l ->
  NoDup (key <$> l ++ [e]) /\ map_of (l ++ [e]) = <[key e := e]> (map_of l).
Proof.
  intros Hnd He. assert (NoDup (key <$> l ++ [e])) as Hnd'.
  { rewrite fmap_app. apply NoDup_app. split_and!; [done| |apply NoDup_singleton].
    intros x Hx ->%list_elem_of_singleton. done. }
  split; [done|]. rewrite (map_of_perm _ (e :: l)); [done|done|]. solve_Permutation.
Qed.

(** ** Table operations *)

Lemma route_active_lookup (t : rtable) (i : Z) :
  table_ok t -> 0 <= i < cnt t -> active t !! Z.to_nat i = Some ((cells t).[i]).
Proof.
  intros (Hl & Hc & _) Hi. unfold active. rewrite lookup_take_lt by lia. unfold aget.
  apply list_lookup_lookup_total_lt. unfold zlen in *. lia.
Qed.

Lemma find_key (d m : Z) (t : rtable) :
  table_ok t ->
  match List.find (fun i => same_key d m ((cells t).[i])) (range 0 (cnt t)) with
  | Some i => 0 <= i < cnt t /\ active t !! Z.to_nat i = Some ((cells t).[i]) /\ key ((cells t).[i]) = (d, m)
  | None => (d, m) ∉ key <$> active t
  end.
Proof.
  intros Ht. pose proof (find_range (fun i => same_key d m ((cells t).[i])) 0 (cnt t)) as E.
  destruct (List.find _ _) as [i|].
  - destruct E as (Hi & Hk & _).
    split_and!; try lia; [by apply route_active_lookup|]. unfold same_key in Hk. zbool. unfold key. by f_equal.
  - intros (e & Hke & He)%list_elem_of_fmap. apply list_elem_of_lookup in He as [j Hj].
    assert (j < length (active t))%nat as Hlt by (by eapply lookup_lt_Some).
    pose proof Ht as (Hl & Hc & _). unfold active in Hlt. rewrite length_take in Hlt.
    assert (0 <= Z.of_nat j < cnt t) as Hjr by lia.
    pose proof (route_active_lookup t (Z.of_nat j) Ht Hjr) as Ha. rewrite Nat2Z.id, Hj in Ha.
    specialize (E _ Hjr). injection Ha as Ha. rewrite <-Ha in E. unfold same_key in E. injection Hke as -> ->.
    by rewrite !Z.eqb_refl in E.
Qed.

(** The cells after the shift: those from [i] on move down by one. *)
Lemma shift_get (n : nat) (a : list route_entry) (i k : Z) :
  0 <= i -> i + Z.of_nat n < zlen a -> 0 <= k < zlen a ->
  let a' := foldl (fun a k => a.[k <- a.[k + 1]]) a (range i (i + Z.of_nat n)) in
  zlen a' = zlen a /\ a'.[k] = if (i <=? k) && (k <? i + Z.of_nat n) then a.[k + 1] else a.[k].
Proof.
  intros Hi. revert k. induction n as [|n IH]; intros k Hn Hk.
  { rewrite range_nil by lia. simpl. split; [done|].
    destruct (Z.leb_spec i k), (Z.ltb_spec k (i + Z.of_nat 0)); simpl; done || lia. }
  rewrite (range_app i (i + Z.of_nat n)), foldl_app by lia.
  rewrite (range_cons (i + Z.of_nat n)), (range_nil (i + Z.of_nat n + 1)) by lia.
  cbv zeta. cbn [foldl]. set (a1 := foldl _ a _) in *.
  destruct (IH k ltac:(lia) Hk) as [Hl Hg]. destruct (IH (i + Z.of_nat n + 1) ltac:(lia) ltac:(lia)) as [_ Hg1].
  fold a1 in Hl, Hg, Hg1. rewrite zlen_aset. split; [done|].
  rewrite Hg1, (proj2 (Z.ltb_ge (i + Z.of_nat n + 1) _)), andb_false_r by lia.
  destruct (decide (k = i + Z.of_nat n)) as [->|Hne].
  - rewrite aget_aset_eq by lia. rewrite (proj2 (Z.leb_le _ _)), (proj2 (Z.ltb_lt _ _)) by lia. done.
  - rewrite aget_aset_ne, Hg by lia.
    destruct (Z.leb_spec i k), (Z.ltb_spec k (i + Z.of_nat n)), (Z.ltb_spec k (i + Z.of_nat (S n)));
      simpl; done || lia.
Qed.

Lemma shift_active (t : rtable) (i : Z) :
  table_ok t -> 0 <= i < cnt t ->
  let t' := mk_table (shift_down (cells t) i (cnt t)) (cnt t - 1) in
  zlen (cells t') = ROUTE_TABLE_MAX /\ active t' = delete (Z.to_nat i) (active t).
Proof.
  intros (Hl & Hc & _) Hi. unfold active, shift_down. cbn [cells cnt].
  pose proof (fun k => shift_get (Z.to_nat (cnt t - 1 - i)) (cells t) i k) as Hg.
  replace (i + Z.of_nat (Z.to_nat (cnt t - 1 - i))) with (cnt t - 1) in Hg by lia.
  set (a := foldl _ _ _) in *. assert (zlen a = ROUTE_TABLE_MAX) as Hla.
  { rewrite <-Hl. apply (Hg 0); lia. }
  split; [done|]. apply list_eq. intros k. unfold zlen in *.
  assert (forall j, (j < length (cells t))%nat -> cells t !! j = Some ((cells t).[Z.of_nat j])) as Hlk.
  { intros j Hj. unfold aget. rewrite Nat2Z.id. by apply list_lookup_lookup_total_lt. }
  assert (forall j, (j < length a)%nat -> a !! j = Some (a.[Z.of_nat j])) as Hlka.
  { intros j Hj. unfold aget. rewrite Nat2Z.id. by apply list_lookup_lookup_total_lt. }
  destruct (decide (k < Z.to_nat (cnt t - 1))%nat) as [Hk|Hk].
  - rewrite lookup_take_lt, Hlka by lia. destruct (Hg (Z.of_nat k)) as [_ ->]; [lia..|].
    destruct (decide (k < Z.to_nat i)%nat).
    + rewrite list_lookup_delete_lt, lookup_take_lt, Hlk by lia.
      by rewrite (proj2 (Z.leb_gt i _)) by lia.
    + rewrite list_lookup_delete_ge, lookup_take_lt, Hlk by lia.
      rewrite (proj2 (Z.leb_le i _)), (proj2 (Z.ltb_lt _ _)) by lia. simpl. do 2 f_equal. lia.
  - rewrite lookup_take_ge by lia. symmetry. apply lookup_ge_None.
    rewrite length_delete; [rewrite length_take; lia|]. apply lookup_lt_is_Some. rewrite length_take. lia.
Qed.

Definition tables_ok (s : rstate) : Prop :=
  zlen (tables s) = ROUTE_TABLE_MAX_ID /\ Forall table_ok (tables s).

Lemma set_table_ok (s : rstate) (id : Z) (t : rtable) :
  tables_ok s -> table_ok t -> 0 <= id < ROUTE_TABLE_MAX_ID ->
  tables_ok (set_table s id t) /\
  forall j, 0 <= j < ROUTE_TABLE_MAX_ID ->
    (tables (set_table s id t)).[j] = if j =? id then t else (tables s).[j].
Proof.
  intros [Hl Hf] Ht Hid. split; [split; cbn; [by rewrite zlen_aset|by apply aset_Forall]|].
  intros j Hj. cbn. destruct (Z.eqb_spec j id) as [->|]; [apply aget_aset_eq|apply aget_aset_ne]; lia.
Qed.

Lemma add_spec (id : Z) (e : route_entry) (s : rstate) :
  tables_ok s -> 0 <= id < ROUTE_TABLE_MAX_ID ->
  let t := (tables s).[id] in
  let '(r, s') := route_add_to_table id e s in
  (r = -1 /\ s' = s /\ key e ∉ key <$> active t /\ cnt t = ROUTE_TABLE_MAX) \/
  (r = 0 /\ exists t', table_ok t' /\ tables s' = tables (set_table s id t') /\
     table_map t' = <[key e := e]> (table_map t)).
Proof.
  intros Hs Hid. assert (table_ok ((tables s).[id])) as Ht.
  { destruct Hs as [Hl Hf]. apply (aget_Forall table_ok); [done|lia]. }
  unfold route_add_to_table. rewrite (proj2 (Z.leb_gt _ id)) by lia. cbv zeta.
  pose proof (find_key (dest e) (mask e) _ Ht) as Hk. set (t := (tables s).[id]) in *.
  pose proof Ht as (Hl & Hc & Hnd). destruct (List.find _ _) as [i|].
  - right. split; [done|]. destruct Hk as (Hi & Hlk & Hkey).
    destruct (map_of_insert (active t) (Z.to_nat i) _ e Hnd Hlk) as [Hnd' Hm]; [by rewrite Hkey|].
    assert (active (mk_table ((cells t).[i <- e]) (cnt t)) = <[Z.to_nat i := e]> (active t)) as Ha
      by (unfold active, aset; cbn; by rewrite take_insert_lt by lia).
    eexists. split_and!; [|done|unfold table_map; rewrite Ha; exact Hm].
    split_and!; [cbn; by rewrite zlen_aset|cbn; lia..|by rewrite Ha].
  - destruct (Z.leb_spec ROUTE_TABLE_MAX (cnt t)); [left; split_and!; done || lia|].
    right. split; [done|]. destruct (map_of_snoc (active t) e Hnd Hk) as [Hnd' Hm].
    assert (u32 (cnt t + 1) = cnt t + 1) as Hu
      by (apply u32_small; unfold is_u32, ROUTE_TABLE_MAX in *; lia).
    assert (active (mk_table ((cells t).[cnt t <- e]) (u32 (cnt t + 1))) = active t ++ [e]) as Ha.
    { unfold active, aset. cbn. rewrite Hu. replace (Z.to_nat (cnt t + 1)) with (S (Z.to_nat (cnt t))) by lia.
      unfold zlen in Hl. rewrite (take_S_r _ _ e); [|apply list_lookup_insert_eq; lia].
      by rewrite take_insert_ge by lia. }
    eexists. split_and!; [|done|unfold table_map; rewrite Ha; exact Hm].
    split_and!; [cbn; by rewrite zlen_aset|cbn; lia..|by rewrite Ha].
Qed.

Lemma delete_spec (id d m : Z) (s : rstate) :
  tables_ok s -> 0 <= id < ROUTE_TABLE_MAX_ID ->
  let t := (tables s).[id] in
  let '(r, s') := route_delete_from_table id d m s in
  (r = -1 /\ s' = s /\ (d, m) ∉ key <$> active t) \/
  (r = 0 /\ (d, m) ∈ key <$> active t /\ exists t', table_ok t' /\ tables s' = tables (set_table s id t') /\
     table_map t' = delete (d, m) (table_map t)).
Proof.
  intros Hs Hid. assert (table_ok ((tables s).[id])) as Ht.
  { destruct Hs as [Hl Hf]. apply (aget_Forall table_ok); [done|lia]. }
  unfold route_delete_from_table. rewrite (proj2 (Z.leb_gt _ id)) by lia. cbv zeta.
  pose proof (find_key d m _ Ht) as Hk. set (t := (tables s).[id]) in *.
  pose proof Ht as (Hl & Hc & Hnd). destruct (List.find _ _) as [i|]; [|by left].
  right. destruct Hk as (Hi & Hlk & Hkey).
  destruct (shift_active t i Ht Hi) as [Hl' Ha]. destruct (map_of_delete _ _ _ Hnd Hlk) as (Hnd' & _ & Hm).
  split_and!; [done| |].
  - apply list_elem_of_fmap. eexists. split; [by rewrite Hkey|]. by eapply list_elem_of_lookup_2.
  - eexists. split_and!; [|done|unfold table_map; rewrite Ha, <-Hkey; exact Hm].
    split_and!; [done|cbn; lia..|by rewrite Ha].
Qed.

#[local] Opaque route_lookup_table.

(** A lookup that misses the cache and finds a route in the main table. *)
Lemma lookup_miss (d : Z) (s : rstate) :
  policy_list s = [] -> valid ((cache s).[route_cache_hash d 0]) = 0 ->
  c_true (iface (route_lookup_table ROUTE_TABLE_MAIN d s)) = true ->
  exists s' t, route_lookup d s = (route_lookup_table ROUTE_TABLE_MAIN d s, s') /\
    tables s' = tables s /\ policy_list s' = [] /\
    cache s' = (cache s).[route_cache_hash d 0 <- mk_cache d 0 RStorage t 1] /\
    cache_storage s' = route_lookup_table ROUTE_TABLE_MAIN d s.
Proof.
  intros Hp Hv Hi. unfold route_lookup, route_cache_lookup. cbn [cache bump set_stats].
  rewrite Hv. cbn [c_true negb Z.eqb andb is_null]. unfold route_lookup_policy.
  cbn [policy_list bump set_stats]. rewrite Hp. cbn [policy_loop is_null negb andb].
  assert (forall f g, route_lookup_table ROUTE_TABLE_MAIN d (bump f (bump g s))
    = route_lookup_table ROUTE_TABLE_MAIN d s) as -> by done.
  rewrite Hi. eexists _, _. split; [done|]. by repeat split.
Qed.

#[local] Transparent route_lookup_table.

(** ** Theorems *)


(** A routing table is a map from (destination, mask) to routes: adding inserts or
    replaces the route of that key and fails only when the key is new and all 64
    cells are used; deleting removes exactly that key and fails exactly when it is
    absent; the other tables are untouched and keys stay unique. *)
Theorem route_table_refines_map (id : Z) (e : route_entry) (s : rstate) :
  tables_ok s -> 0 <= id < ROUTE_TABLE_MAX_ID ->
  let m s := table_map ((tables s).[id]) in
  (let '(r, s') := route_add_to_table id e s in
   tables_ok s' /\
   (forall j, 0 <= j < ROUTE_TABLE_MAX_ID -> j <> id -> (tables s').[j] = (tables s).[j]) /\
   if r =? 0 then m s' = <[key e := e]> (m s)
   else s' = s /\ m s !! key e = None /\ cnt ((tables s).[id]) = ROUTE_TABLE_MAX) /\
  (let '(r, s') := route_delete_from_table id (dest e) (mask e) s in
   tables_ok s' /\
   (forall j, 0 <= j < ROUTE_TABLE_MAX_ID -> j <> id -> (tables s').[j] = (tables s).[j]) /\
   if r =? 0 then is_Some (m s !! key e) /\ m s' = delete (key e) (m s)
   else s' = s /\ m s !! key e = None).
Proof.
  intros Hs Hid. cbv zeta.
  assert (forall s' t', table_ok t' -> tables s' = tables (set_table s id t') ->
    tables_ok s' /\ (tables s').[id] = t' /\
    forall j, 0 <= j < ROUTE_TABLE_MAX_ID -> j <> id -> (tables s').[j] = (tables s).[j]) as Hset.
  { intros s' t' Ht' E. destruct (set_table_ok s id t' Hs Ht' Hid) as [Hok Hg].
    unfold tables_ok. rewrite E. split_and!; [apply Hok..|by rewrite Hg, Z.eqb_refl|].
    intros j Hj Hne. by rewrite Hg, (proj2 (Z.eqb_neq j id)). }
  split.
  - pose proof (add_spec id e s Hs Hid) as H. destruct (route_add_to_table id e s) as [r s'].
    destruct H as [(-> & -> & Hk & Hc)|(-> & t' & Ht' & E & Hm)]; simpl.
    + split_and!; try done. by apply map_of_None.
    + destruct (Hset s' t' Ht' E) as (H1 & -> & H2). done.
  - pose proof (delete_spec id (dest e) (mask e) s Hs Hid) as H.
    destruct (route_delete_from_table id (dest e) (mask e) s) as [r s'].
    destruct H as [(-> & -> & Hk)|(-> & Hk & t' & Ht' & E & Hm)]; simpl.
    + split_and!; try done. by apply map_of_None.
    + destruct (Hset s' t' Ht' E) as (H1 & -> & H2). split_and!; try done. by apply map_of_Some.
Qed.

(** Cached routes share one static cell: after two lookups of different destinations
    that fall into different cache slots, looking up the first one again returns
    the route of the second. *)
Theorem route_cache_alias (s : rstate) (d1 d2 : Z) :
  zlen (cache s) = ROUTE_CACHE_SIZE -> policy_list s = [] ->
  route_cache_hash d1 0 <> route_cache_hash d2 0 ->
  valid ((cache s).[route_cache_hash d1 0]) = 0 -> valid ((cache s).[route_cache_hash d2 0]) = 0 ->
  c_true (iface (route_lookup_table ROUTE_TABLE_MAIN d1 s)) = true ->
  c_true (iface (route_lookup_table ROUTE_TABLE_MAIN d2 s)) = true ->
  let '(r1, s1) := route_lookup d1 s in
  let '(r2, s2) := route_lookup d2 s1 in
  let '(r3, s3) := route_lookup d1 s2 in
  r1 = route_lookup_table ROUTE_TABLE_MAIN d1 s /\
  r2 = route_lookup_table ROUTE_TABLE_MAIN d2 s /\ r3 = r2.
Proof.
  intros Hl Hp Hne Hv1 Hv2 Hi1 Hi2.
  assert (forall d, 0 <= route_cache_hash d 0 < zlen (cache s)) as Hh
    by (intros d; rewrite Hl; apply Z.mod_pos_bound; done).
  pose proof (Hh d1) as Hh1. pose proof (Hh d2) as Hh2.
  destruct (lookup_miss d1 s Hp Hv1 Hi1) as (s1 & t1 & -> & Ht1 & Hp1 & Hc1 & _).
  assert (forall d, route_lookup_table ROUTE_TABLE_MAIN d s1 = route_lookup_table ROUTE_TABLE_MAIN d s)
    as Hsame by (intros d; unfold route_lookup_table; by rewrite Ht1).
  destruct (lookup_miss d2 s1 Hp1) as (s2 & t2 & -> & _ & _ & Hc2 & Hst).
  { by rewrite Hc1, aget_aset_ne by lia. } { by rewrite Hsame. }
  assert ((cache s2).[route_cache_hash d1 0] = mk_cache d1 0 RStorage t1 1) as Hhit.
  { rewrite Hc2, aget_aset_ne, Hc1, aget_aset_eq by lia. done. }
  unfold route_lookup, route_cache_lookup. cbn [cache bump set_stats]. rewrite Hhit. cbn [valid c_dst c_src c_route].
  rewrite !Z.eqb_refl. cbn [is_null negb c_true Z.eqb andb].
  cbn [deref cache_storage bump set_stats set_cache]. rewrite Hst, !Hsame. done.
Qed.

(** ** A concrete table *)

Definition demo_routes : rstate :=
  (route_add (mk_route 167772160 (netmask 8) 0 7 0 ROUTE_FLAG_UP)
     (route_add (mk_route 0 0 1 9 1 ROUTE_FLAG_UP) route_init).2).2.

Lemma demo_tables_ok : tables_ok demo_routes /\ tables_ok route_init.
Proof.
  assert (tables_ok route_init) as H0.
  { split; [done|]. apply Forall_replicate. split_and!; [done..|constructor]. }
  assert (forall s e, tables_ok s -> tables_ok (route_add e s).2) as Hadd.
  { intros s e Hs. pose proof (add_spec ROUTE_TABLE_MAIN e s Hs ltac:(done)) as H. unfold route_add.
    destruct (route_add_to_table ROUTE_TABLE_MAIN e s) as [r s'].
    destruct H as [(_ & -> & _)|(_ & t' & Ht' & E & _)]; [done|].
    destruct (set_table_ok s ROUTE_TABLE_MAIN t' Hs Ht' ltac:(done)) as [Hok _].
    unfold tables_ok. simpl. by rewrite E. }
  split; [|done]. unfold demo_routes. auto.
Qed.


Lemma route_table_refines_map_witness :
  table_map ((tables (route_add_to_table 0 (mk_route 5 6 1 2 3 4) route_init).2).[0])
  = {[(5, 6) := mk_route 5 6 1 2 3 4]}.
Proof.
  destruct (route_table_refines_map 0 (mk_route 5 6 1 2 3 4) route_init (proj2 demo_tables_ok)
    ltac:(done)) as [H _].
  assert ((route_add_to_table 0 (mk_route 5 6 1 2 3 4) route_init).1 = 0) as E by (vm_compute; done).
  destruct (route_add_to_table 0 _ route_init) as [r s']. cbn [fst snd] in *. subst r.
  destruct H as (_ & _ & ->). done.
Defined.

Lemma route_cache_alias_witness :
  let '(r1, s1) := route_lookup 167772161 demo_routes in
  let '(r2, s2) := route_lookup 3 s1 in
  let '(r3, s3) := route_lookup 167772161 s2 in
  iface r1 = 7 /\ iface r3 = 9.
Proof.
  pose proof (route_cache_alias demo_routes 167772161 3 eq_refl eq_refl) as H.
  destruct (route_lookup 167772161 demo_routes) as [r1 s1].
  destruct (route_lookup 3 s1) as [r2 s2]. destruct (route_lookup 167772161 s2) as [r3 s3].
  destruct H as (-> & -> & ->); vm_compute; try done.
Defined.

End Route.
