(* ===== verification/FileDesc.v ===== *)
(** * File descriptors (src/fs/file_desc.c)

    The descriptor table of a process: a fixed array of pointers to open files
    and a counter of the slots in use.  Open files live in a store shared by
    every table ([files], by address), so that two descriptors of one file see
    one reference count.  The [close] callback of a file is a parameter that acts
    on the store.  [None] stands for a null-pointer dereference. *)

From S2P Require Import Prelude.

Module FileDesc.

Definition MAX_PROCESS_FDS : Z := 256.

Record file := mk_file { ref_count : Z; has_close : bool }.

Record proc := mk_proc { fd_table : list Z; fd_count_field : Z; files : gmap Z file }.

Definition set_fd (p : proc) (fd f n : Z) : proc := mk_proc ((fd_table p).[fd <- f]) (u32 n) (files p).

Definition bad_fd (fd : Z) : bool := (fd <? 0) || (MAX_PROCESS_FDS <=? fd).

Section fds.
(** [file->ops->close(file)]. *)
Context (close : Z -> gmap Z file -> gmap Z file).

Definition fd_init (p : proc) : proc :=
  mk_proc (foldl (fun t i => t.[i <- NULL]) (fd_table p) (range 0 MAX_PROCESS_FDS)) 0 (files p).

Definition fd_alloc (p : proc) : Z :=
  default (-1) (List.find (fun i => (fd_table p).[i] =? NULL) (range 0 MAX_PROCESS_FDS)).

Definition fd_free (fd : Z) (p : proc) : Z * proc :=
  if bad_fd fd then (-1, p)
  else
    let f := (fd_table p).[fd] in
    if f =? NULL then (0, p)
    else
      let fs := match files p !! f with
                | Some x => if has_close x then close f (files p) else files p
                | None => files p
                end in
      (0, set_fd (mk_proc (fd_table p) (fd_count_field p) fs) fd NULL (fd_count_field p - 1)).

Definition fd_get_file (p : proc) (fd : Z) : Z := if bad_fd fd then NULL else (fd_table p).[fd].

Definition fd_install (fd f : Z) (p : proc) : Z * proc :=
  if bad_fd fd then (-1, p)
  else if f =? NULL then (-1, p)
  else (0, set_fd p fd f (fd_count_field p + 1)).

(** [table[new] = table[old]; table[old]->ref_count++; fd_count++] *)
Definition share (old_fd new_fd : Z) (p : proc) : option proc :=
  let t := (fd_table p).[new_fd <- (fd_table p).[old_fd]] in
  match files p !! (t.[old_fd]) with
  | Some x => if t.[old_fd] =? NULL then None
              else Some (mk_proc t (u32 (fd_count_field p + 1))
                           (<[t.[old_fd] := mk_file (u32 (ref_count x + 1)) (has_close x)]> (files p)))
  | None => None
  end.

Definition fd_dup (old_fd : Z) (p : proc) : option (Z * proc) :=
  if bad_fd old_fd then Some (-1, p)
  else if (fd_table p).[old_fd] =? NULL then Some (-1, p)
  else
    let new_fd := fd_alloc p in
    if new_fd <? 0 then Some (-1, p)
    else match share old_fd new_fd p with Some p' => Some (new_fd, p') | None => None end.

Definition fd_dup2 (old_fd new_fd : Z) (p : proc) : option (Z * proc) :=
  if bad_fd old_fd then Some (-1, p)
  else if bad_fd new_fd then Some (-1, p)
  else if (fd_table p).[old_fd] =? NULL then Some (-1, p)
  else
    let p1 := if (fd_table p).[new_fd] =? NULL then p else (fd_free new_fd p).2 in
    match share old_fd new_fd p1 with Some p' => Some (new_fd, p') | None => None end.

Definition close_step (st : Z * proc) (i : Z) : Z * proc :=
  let '(closed, p) := st in
  if (fd_table p).[i] =? NULL then st
  else let '(r, p') := fd_free i p in (if r =? 0 then closed + 1 else closed, p').

Definition fd_close_range (first last : Z) (p : proc) : Z * proc :=
  if bad_fd first then (-1, p)
  else if bad_fd last then (-1, p)
  else if last <? first then (-1, p)
  else foldl close_step (0, p) (range first (last + 1)).
End fds.

Definition fd_count (p : proc) : Z := s32 (fd_count_field p).
Definition fd_is_valid (p : proc) (fd : Z) : Z :=
  if bad_fd fd then 0 else if (fd_table p).[fd] =? NULL then 0 else 1.

#[local] Strategy opaque [range].

(** ** Specification *)

Definition used (t : list Z) (i : Z) : bool := negb (t.[i] =? NULL).
Definition open_count (t : list Z) : Z := zcount (used t) (range 0 MAX_PROCESS_FDS).

(** The counter counts the open descriptors, and each points to a live file. *)
Record fd_ok (p : proc) : Prop := {
  ok_len : zlen (fd_table p) = MAX_PROCESS_FDS;
  ok_count : fd_count_field p = open_count (fd_table p);
}.

Lemma open_count_bounds (t : list Z) : 0 <= open_count t <= MAX_PROCESS_FDS.
Proof.
  unfold open_count, MAX_PROCESS_FDS. pose proof (zcount_bounds (used t) (range 0 256)) as H.
  rewrite zlen_range in H by lia. lia.
Qed.

(** Filling a free slot, clearing a used one, and replacing a used one. *)
Lemma count_fill (t : list Z) (i f : Z) :
  zlen t = MAX_PROCESS_FDS -> bad_fd i = false -> t.[i] = NULL -> f <> NULL ->
  open_count (t.[i <- f]) = open_count t + 1.
Proof.
  intros Hl Hi Hn Hf. unfold bad_fd in Hi. zbool. apply (zcount_update _ _ _ i).
  - apply NoDup_range.
  - apply elem_of_range. lia.
  - unfold used. by rewrite Hn.
  - unfold used. rewrite aget_aset_eq by lia. by apply negb_true_iff, Z.eqb_neq.
  - intros j Hj%elem_of_range Hji. unfold used. by rewrite aget_aset_ne by lia.
Qed.

Lemma count_clear (t : list Z) (i : Z) :
  zlen t = MAX_PROCESS_FDS -> bad_fd i = false -> t.[i] <> NULL ->
  open_count (t.[i <- NULL]) = open_count t - 1.
Proof.
  intros Hl Hi Hn. assert (0 <= i < zlen t) as Hir by (unfold bad_fd in Hi; zbool; lia).
  pose proof (count_fill (t.[i <- NULL]) i (t.[i])) as H. rewrite aset_aset, aset_aget in H.
  rewrite H; [lia|by rewrite zlen_aset|done|by rewrite aget_aset_eq|done].
Qed.

Section invariants.
Context (close : Z -> gmap Z file -> gmap Z file).

Lemma ok_u32 (p : proc) (d : Z) : fd_ok p -> -1 <= d <= 1 -> 0 <= fd_count_field p + d ->
  u32 (fd_count_field p + d) = fd_count_field p + d.
Proof.
  intros [_ Hc] Hd H0. apply u32_small. pose proof (open_count_bounds (fd_table p)).
  unfold is_u32, MAX_PROCESS_FDS in *. lia.
Qed.

Lemma fd_free_spec (fd : Z) (p : proc) :
  fd_ok p -> bad_fd fd = false ->
  let '(r, p') := fd_free close fd p in
  r = 0 /\ fd_ok p' /\ fd_table p' = (fd_table p).[fd <- NULL].
Proof.
  intros Hok Hfd. unfold fd_free. rewrite Hfd. pose proof Hok as [Hl Hc].
  destruct (Z.eqb_spec ((fd_table p).[fd]) NULL) as [E|E].
  - split_and!; try done. rewrite <-E. by rewrite aset_aget.
  - cbn. split_and!; try done. pose proof (count_clear _ _ Hl Hfd E) as Hcl.
    pose proof (open_count_bounds ((fd_table p).[fd <- NULL])).
    constructor; cbn; [by rewrite zlen_aset|]. replace (fd_count_field p - 1) with (fd_count_field p + -1) by lia.
    rewrite (ok_u32 p (-1) Hok) by lia. lia.
Qed.

Lemma fd_install_spec (fd f : Z) (p : proc) :
  fd_ok p -> bad_fd fd = false -> (fd_table p).[fd] = NULL -> f <> NULL ->
  let '(r, p') := fd_install fd f p in
  r = 0 /\ fd_ok p' /\ fd_table p' = (fd_table p).[fd <- f].
Proof.
  intros Hok Hfd Hn Hf. unfold fd_install. rewrite Hfd, (proj2 (Z.eqb_neq f NULL)) by done.
  pose proof Hok as [Hl Hc]. pose proof (open_count_bounds (fd_table p)).
  split_and!; try done. constructor; cbn; [by rewrite zlen_aset|].
  rewrite (ok_u32 p 1 Hok), (count_fill _ _ _ Hl Hfd Hn Hf) by lia. lia.
Qed.

(** The lowest free descriptor. *)
Lemma fd_alloc_spec (p : proc) :
  (exists i, fd_alloc p = i /\ bad_fd i = false /\ (fd_table p).[i] = NULL /\
     forall j, 0 <= j < i -> (fd_table p).[j] <> NULL) \/
  (fd_alloc p = -1 /\ forall j, bad_fd j = false -> (fd_table p).[j] <> NULL).
Proof.
  unfold fd_alloc, bad_fd.
  pose proof (find_range (fun i => (fd_table p).[i] =? NULL) 0 MAX_PROCESS_FDS) as E.
  destruct (List.find _ _) as [i|]; simpl.
  - destruct E as (Hi & Hn & Hj). left. exists i. apply Z.eqb_eq in Hn.
    split_and!; [done| |done|].
    + apply orb_false_iff. split; [apply Z.ltb_ge|apply Z.leb_gt]; lia.
    + intros j Hij. apply Z.eqb_neq. by apply Hj.
  - right. split; [done|]. intros j Hj. zbool. apply Z.eqb_neq. apply E. lia.
Qed.

Lemma share_spec (old new : Z) (p p' : proc) :
  fd_ok p -> bad_fd old = false -> bad_fd new = false -> old <> new ->
  (fd_table p).[old] <> NULL -> (fd_table p).[new] = NULL -> share old new p = Some p' ->
  fd_ok p' /\ fd_table p' = (fd_table p).[new <- (fd_table p).[old]] /\
  exists x, files p !! (fd_table p).[old] = Some x /\
    files p' = <[(fd_table p).[old] := mk_file (u32 (ref_count x + 1)) (has_close x)]> (files p).
Proof.
  intros Hok Ho Hn Hne Hf Hfree. unfold share. pose proof Hok as [Hl Hc].
  assert (((fd_table p).[new <- (fd_table p).[old]]).[old] = (fd_table p).[old]) as ->.
  { unfold bad_fd in *. zbool. by rewrite aget_aset_ne by lia. }
  destruct (files p !! _) as [x|] eqn:Ex; [|done]. rewrite (proj2 (Z.eqb_neq _ NULL)) by done.
  intros [= <-]. cbn. split_and!; [|done|by exists x].
  pose proof (open_count_bounds (fd_table p)). constructor; cbn; [by rewrite zlen_aset|].
  rewrite (ok_u32 p 1 Hok), (count_fill _ _ _ Hl Hn Hfree Hf) by lia. lia.
Qed.

Lemma fd_dup_spec (old r : Z) (p p' : proc) :
  fd_ok p -> fd_dup old p = Some (r, p') -> fd_ok p' /\
  (r = -1 /\ p' = p \/
   bad_fd r = false /\ (fd_table p).[r] = NULL /\ fd_table p' = (fd_table p).[r <- (fd_table p).[old]]).
Proof.
  intros Hok. unfold fd_dup. destruct (bad_fd old) eqn:Ho; [intros [= <- <-]; auto|].
  destruct (Z.eqb_spec ((fd_table p).[old]) NULL) as [|Hf]; [intros [= <- <-]; auto|].
  destruct (fd_alloc_spec p) as [(i & -> & Hi & Hn & _)|[-> _]]; [|intros [= <- <-]; auto].
  rewrite (proj2 (Z.ltb_ge i 0)) by (unfold bad_fd in Hi; zbool; lia).
  destruct (share old i p) as [q|] eqn:E; [|done]. intros [= <- <-].
  assert (old <> i) by congruence.
  destruct (share_spec old i p q Hok Ho Hi) as (H1 & H2 & _); auto.
Qed.

Lemma fd_dup2_spec (old new r : Z) (p p' : proc) :
  fd_ok p -> old <> new -> fd_dup2 close old new p = Some (r, p') -> fd_ok p' /\
  (r = -1 /\ p' = p \/
   r = new /\ fd_table p' = (fd_table p).[new <- (fd_table p).[old]]).
Proof.
  intros Hok Hne. unfold fd_dup2. destruct (bad_fd old) eqn:Ho; [intros [= <- <-]; auto|].
  destruct (bad_fd new) eqn:Hn; [intros [= <- <-]; auto|].
  destruct (Z.eqb_spec ((fd_table p).[old]) NULL) as [|Hf]; [intros [= <- <-]; auto|].
  set (p1 := if (fd_table p).[new] =? NULL then p else _).
  assert (fd_ok p1 /\ fd_table p1 = (fd_table p).[new <- NULL]) as [Hok1 Ht1].
  { unfold p1. destruct (Z.eqb_spec ((fd_table p).[new]) NULL) as [E|E].
    - split; [done|]. rewrite <-E. by rewrite aset_aget.
    - pose proof (fd_free_spec new p Hok Hn) as H. destruct (fd_free close new p) as [r0 q].
      by destruct H as (_ & ? & ?). }
  destruct (share old new p1) as [q|] eqn:E; [|done]. intros [= <- <-].
  pose proof Hok as [Hl _]. unfold bad_fd in Ho, Hn. zbool.
  assert ((fd_table p1).[old] = (fd_table p).[old]) as Hold by (by rewrite Ht1, aget_aset_ne by lia).
  destruct (share_spec old new p1 q Hok1) as (H1' & H2' & _); try done.
  - unfold bad_fd. apply orb_false_iff. split; [apply Z.ltb_ge|apply Z.leb_gt]; lia.
  - unfold bad_fd. apply orb_false_iff. split; [apply Z.ltb_ge|apply Z.leb_gt]; lia.
  - by rewrite Hold.
  - rewrite Ht1. apply aget_aset_eq. lia.
  - split; [done|]. right. split; [done|]. by rewrite H2', Hold, Ht1, aset_aset.
Qed.

(** The loop of [fd_close_range] clears the range and counts what was open. *)
Lemma close_loop_spec (n : nat) (first : Z) (p : proc) :
  fd_ok p -> 0 <= first -> first + Z.of_nat n <= MAX_PROCESS_FDS ->
  let '(c, p') := foldl (close_step close) (0, p) (range first (first + Z.of_nat n)) in
  fd_ok p' /\ c = open_count (fd_table p) - open_count (fd_table p') /\
  forall i, 0 <= i < MAX_PROCESS_FDS -> (fd_table p').[i] =
    if (first <=? i) && (i <? first + Z.of_nat n) then NULL else (fd_table p).[i].
Proof.
  intros Hok Hf. induction n as [|n IH]; intros Hn.
  { rewrite range_nil by lia. simpl. split_and!; [done|lia|]. intros i Hi.
    destruct (Z.leb_spec first i), (Z.ltb_spec i (first + Z.of_nat 0)); simpl; done || lia. }
  rewrite (range_app first (first + Z.of_nat n)), foldl_app by lia.
  rewrite (range_cons (first + Z.of_nat n)), (range_nil (first + Z.of_nat n + 1)) by lia.
  destruct (foldl (close_step close) (0, p) (range first (first + Z.of_nat n))) as [c q].
  destruct (IH ltac:(lia)) as (Hq & Hc & Hi). clear IH. set (k := first + Z.of_nat n) in *.
  assert (bad_fd k = false) as Hk.
  { unfold bad_fd. apply orb_false_iff. split; [apply Z.ltb_ge|apply Z.leb_gt]; lia. }
  cbn [foldl close_step]. pose proof (fd_free_spec k q Hq Hk) as H. pose proof Hq as [Hl _].
  assert (forall i, 0 <= i < MAX_PROCESS_FDS -> ((fd_table q).[k <- NULL]).[i] =
    if (first <=? i) && (i <? first + Z.of_nat (S n)) then NULL else (fd_table p).[i]) as Hclear.
  { intros i Hir. destruct (decide (i = k)) as [->|].
    - rewrite aget_aset_eq by lia. rewrite (proj2 (Z.leb_le _ _)), (proj2 (Z.ltb_lt _ _)) by lia. done.
    - rewrite aget_aset_ne, Hi by lia.
      destruct (Z.leb_spec first i), (Z.ltb_spec i k), (Z.ltb_spec i (first + Z.of_nat (S n)));
        simpl; done || lia. }
  destruct (Z.eqb_spec ((fd_table q).[k]) NULL) as [E|E].
  - split_and!; try done. intros i Hir. rewrite <-Hclear by done. rewrite <-E. by rewrite aset_aget.
  - destruct (fd_free close k q) as [r q']. destruct H as (-> & Hq' & Ht). simpl.
    split_and!; [done| |intros i Hir; rewrite Ht; by apply Hclear].
    rewrite Ht, (count_clear _ _ Hl Hk E). lia.
Qed.

(** Uses of the table by a process: descriptors are installed in free slots, and
    [fd_dup2] is given two different descriptors. *)
Inductive fd_step : proc -> proc -> Prop :=
  | step_free fd p : fd_step p (fd_free close fd p).2
  | step_install fd f p : (fd_table p).[fd] = NULL -> fd_step p (fd_install fd f p).2
  | step_dup old r p p' : fd_dup old p = Some (r, p') -> fd_step p p'
  | step_dup2 old new r p p' : old <> new -> fd_dup2 close old new p = Some (r, p') -> fd_step p p'
  | step_close_range first last p : fd_step p (fd_close_range close first last p).2.

Lemma fd_step_ok (p q : proc) : fd_ok p -> fd_step p q -> fd_ok q.
Proof.
  intros Hok Hs. destruct Hs as [fd p|fd f p Hn|old r p p' E|old new r p p' Hne E|first last p].
  - unfold fd_free. destruct (bad_fd fd) eqn:E; [done|]. pose proof (fd_free_spec fd p Hok E) as H.
    unfold fd_free in H. rewrite E in H. destruct (_ =? NULL); by destruct H as (_ & ? & _).
  - destruct (bad_fd fd) eqn:E; [unfold fd_install; by rewrite E|].
    destruct (Z.eqb_spec f NULL) as [->|Hf]; [unfold fd_install; by rewrite E|].
    pose proof (fd_install_spec fd f p Hok E Hn Hf) as H. destruct (fd_install fd f p). apply H.
  - by apply (fd_dup_spec old r p p').
  - by apply (fd_dup2_spec old new r p p').
  - unfold fd_close_range. destruct (bad_fd first) eqn:E1; [done|]. destruct (bad_fd last) eqn:E2; [done|].
    case_if; [done|]. unfold bad_fd in *. zbool.
    pose proof (close_loop_spec (Z.to_nat (last + 1 - first)) first p Hok) as H'.
    replace (first + Z.of_nat (Z.to_nat (last + 1 - first))) with (last + 1) in H' by lia.
    destruct (foldl _ _ _). apply H'; lia.
Qed.

Lemma fd_init_ok (p : proc) : zlen (fd_table p) = MAX_PROCESS_FDS -> fd_ok (fd_init p).
Proof.
  intros Hl. assert (forall n : nat, Z.of_nat n <= MAX_PROCESS_FDS ->
    let t := foldl (fun t i => t.[i <- NULL]) (fd_table p) (range 0 (Z.of_nat n)) in
    zlen t = MAX_PROCESS_FDS /\ forall i, 0 <= i < Z.of_nat n -> t.[i] = NULL) as Hn.
  { induction n as [|n IH]; intros Hn; [rewrite range_nil by lia; split; [done|lia]|].
    rewrite foldl_range_S. destruct (IH ltac:(lia)) as [H1 H2]. cbv zeta in *.
    set (t := foldl _ _ _) in *. split; [by rewrite zlen_aset|]. intros i Hi.
    destruct (decide (i = Z.of_nat n)) as [->|]; [by rewrite aget_aset_eq by lia|].
    rewrite aget_aset_ne by lia. apply H2. lia. }
  specialize (Hn 256%nat ltac:(done)). change (Z.of_nat 256) with MAX_PROCESS_FDS in Hn.
  destruct Hn as [H1 H2]. constructor; [exact H1|]. unfold fd_init. cbn [fd_count_field fd_table].
  unfold open_count. rewrite (zcount_ext _ (fun _ => false)).
  - clear. unfold zcount. induction (range 0 MAX_PROCESS_FDS); done.
  - intros i Hi%elem_of_range. unfold used. by rewrite H2.
Qed.

(** C33: the counter is right: after [fd_init], whatever a process opens, closes,
    duplicates and closes in ranges, the table keeps its size and [fd_count] is
    the number of descriptors [fd_is_valid] accepts. *)
Theorem fd_count_correct (p0 p : proc) :
  zlen (fd_table p0) = MAX_PROCESS_FDS -> rtc fd_step (fd_init p0) p ->
  zlen (fd_table p) = MAX_PROCESS_FDS /\
  fd_count p = zcount (fun i => fd_is_valid p i =? 1) (range 0 MAX_PROCESS_FDS).
Proof.
  intros Hl Hr. assert (fd_ok p) as [H1 H2].
  { apply (fd_init_ok p0) in Hl. induction Hr; eauto using fd_step_ok. }
  split; [done|]. unfold fd_count. pose proof (open_count_bounds (fd_table p)).
  rewrite s32_small by (unfold MAX_PROCESS_FDS in *; lia). rewrite H2.
  apply zcount_ext. intros i Hi%elem_of_range. unfold used, fd_is_valid.
  replace (bad_fd i) with false; [by destruct (_ =? NULL)|].
  symmetry. unfold bad_fd. apply orb_false_iff. split; [apply Z.ltb_ge|apply Z.leb_gt]; lia.
Qed.

(** [fd_dup2] of a descriptor onto itself closes the file and then dereferences the
    emptied slot. *)
Theorem fd_dup2_self_faults (p : proc) (fd : Z) :
  zlen (fd_table p) = MAX_PROCESS_FDS -> bad_fd fd = false -> (fd_table p).[fd] <> NULL ->
  fd_dup2 close fd fd p = None.
Proof.
  intros Hl Hfd Hf. unfold fd_dup2. rewrite Hfd, (proj2 (Z.eqb_neq _ NULL)) by done.
  unfold fd_free. rewrite Hfd, (proj2 (Z.eqb_neq _ NULL)) by done. cbn [snd].
  unfold share, set_fd. cbn [fd_table files]. unfold bad_fd in Hfd. zbool.
  rewrite !aset_aset, !aget_aset_eq by (rewrite ?zlen_aset; lia).
  by destruct (_ !! NULL).
Qed.
End invariants.

(** ** A concrete table *)

Definition demo_close (f : Z) (fs : gmap Z file) : gmap Z file := fs.
Definition demo_proc : proc :=
  mk_proc (replicate (Z.to_nat MAX_PROCESS_FDS) 0) 0 {[4096 := mk_file 1 true]}.
Definition demo_open : proc := (fd_install 3 4096 (fd_init demo_proc)).2.

Lemma fd_count_correct_witness : fd_count demo_open = 1.
Proof.
  destruct (fd_count_correct demo_close demo_proc demo_open eq_refl) as [_ H].
  - apply rtc_once, step_install. reflexivity.
  - rewrite H. vm_compute. reflexivity.
Defined.

Lemma fd_dup2_self_faults_witness : fd_dup2 demo_close 3 3 demo_open = None.
Proof. apply fd_dup2_self_faults; [reflexivity|reflexivity|vm_compute; done]. Defined.

End FileDesc.
