(* ===== verification/Flock.v ===== *)
(** * BSD file locks (src/fs/flock.c)

    The global list of locks, one per file descriptor number.  The list is a
    Rocq list in link order; the operations run under [flock_table_lock] and are
    atomic.  The pid of the current process ([None] when there is none) and the
    result of [kmalloc] are arguments. *)

From S2P Require Import Prelude.

Module Flock.

Definition MAX_FILE_LOCKS : Z := 256.
Definition LOCK_SH : Z := 1.
Definition LOCK_EX : Z := 2.
Definition LOCK_UN : Z := 3.
Definition LOCK_NB : Z := 4.

Record file_lock := mk_lock {
  l_fd : Z; lock_type : Z; holder_count : Z; exclusive_pid : Z; l_ref : Z;
}.

Record flock_table := mk_ftable { locks : list file_lock; lk_count : Z }.

Definition flock_init : flock_table := mk_ftable [] 0.

Definition flock_find (t : flock_table) (fd : Z) : option file_lock :=
  List.find (fun l => l_fd l =? fd) (locks t).

(** What an operation does with the lock found: keep the list, replace the lock
    or unlink it. *)
Inductive change := Keep | Update (l : file_lock) | Unlink.

(** The case of an existing lock of [flock_acquire]. *)
Definition acquire_existing (my_pid lt : Z) (l : file_lock) : Z * change :=
  if lt =? LOCK_UN then
    (0, if lock_type l =? LOCK_SH then
          let n := u32 (holder_count l - 1) in
          if n =? 0 then Unlink
          else Update (mk_lock (l_fd l) (lock_type l) n (exclusive_pid l) (l_ref l))
        else if lock_type l =? LOCK_EX then
          if exclusive_pid l =? my_pid then Unlink else Keep
        else Keep)
  else if lt =? LOCK_SH then
    if (lock_type l =? LOCK_EX) && negb (exclusive_pid l =? my_pid) then (-1, Keep)
    else (0, Update (mk_lock (l_fd l) LOCK_SH (u32 (holder_count l + 1)) (exclusive_pid l) (l_ref l)))
  else if lt =? LOCK_EX then
    if (lock_type l =? LOCK_EX) && (exclusive_pid l =? my_pid) then (0, Keep)
    else if (lock_type l =? LOCK_SH) && (1 <? holder_count l) then (-1, Keep)
    else (0, Update (mk_lock (l_fd l) LOCK_EX 1 my_pid (l_ref l)))
  else (-1, Keep).

(** Apply a change to the first lock of [fd]. *)
Fixpoint change_lock (fd : Z) (c : change) (ls : list file_lock) : list file_lock :=
  match ls with
  | [] => []
  | l :: ls =>
      if l_fd l =? fd then match c with Keep => l :: ls | Update l' => l' :: ls | Unlink => ls end
      else l :: change_lock fd c ls
  end.

Definition apply_change (fd : Z) (c : change) (t : flock_table) : flock_table :=
  mk_ftable (change_lock fd c (locks t))
    (match c with Unlink => u32 (lk_count t - 1) | _ => lk_count t end).

(** [proc] is the pid of the current process, [ptr] the result of [kmalloc]. *)
Definition flock_acquire (proc : option Z) (fd operation ptr : Z) (t : flock_table) : Z * flock_table :=
  let lt := Z.land operation (Z.lnot LOCK_NB) in
  match proc with
  | None => (-1, t)
  | Some my_pid =>
      match flock_find t fd with
      | Some l => let '(r, c) := acquire_existing my_pid lt l in (r, apply_change fd c t)
      | None =>
          if lt =? LOCK_UN then (0, t)
          else if MAX_FILE_LOCKS <=? lk_count t then (-1, t)
          else if ptr =? NULL then (-1, t)
          else (0, mk_ftable
                     (mk_lock fd (u32 lt) 1 (if lt =? LOCK_EX then my_pid else 0) 1 :: locks t)
                     (u32 (lk_count t + 1)))
      end
  end.

Definition flock_syscall (proc : option Z) (fd operation ptr : Z) (t : flock_table)
    : Z * flock_table := flock_acquire proc fd operation ptr t.

(** The loop of [flock_release_fd] with the list and the counter. *)
Fixpoint release_loop (my_pid fd : Z) (ls : list file_lock) (n : Z) : list file_lock * Z :=
  match ls with
  | [] => ([], n)
  | l :: ls =>
      if l_fd l =? fd then
        if (lock_type l =? LOCK_EX) && negb (exclusive_pid l =? my_pid) then
          let '(ls', n') := release_loop my_pid fd ls n in (l :: ls', n')
        else if lock_type l =? LOCK_SH then
          let h := u32 (holder_count l - 1) in
          if h =? 0 then release_loop my_pid fd ls (u32 (n - 1))
          else let '(ls', n') := release_loop my_pid fd ls n in
               (mk_lock (l_fd l) (lock_type l) h (exclusive_pid l) (l_ref l) :: ls', n')
        else release_loop my_pid fd ls (u32 (n - 1))
      else let '(ls', n') := release_loop my_pid fd ls n in (l :: ls', n')
  end.

Definition flock_release_fd (my_pid fd : Z) (t : flock_table) : Z * flock_table :=
  let '(ls, n) := release_loop my_pid fd (locks t) (lk_count t) in (0, mk_ftable ls n).

Definition flock_count (t : flock_table) : Z := lk_count t.

(** ** Invariant *)

Record flock_ok (t : flock_table) : Prop := {
  fo_nodup : NoDup (l_fd <$> locks t);
  fo_count : lk_count t = zlen (locks t);
  fo_max : zlen (locks t) <= MAX_FILE_LOCKS;
}.

Lemma find_lock (t : flock_table) (fd : Z) :
  match flock_find t fd with
  | Some l => l ∈ locks t /\ l_fd l = fd
  | None => fd ∉ l_fd <$> locks t
  end.
Proof.
  unfold flock_find. destruct (List.find _ _) as [l|] eqn:E.
  - apply List.find_some in E as [Hl Hf]. apply list_elem_of_In in Hl. by apply Z.eqb_eq in Hf.
  - intros (l & -> & Hl)%list_elem_of_fmap.
    apply (List.find_none _ _) with (x := l) in E; [by rewrite Z.eqb_refl in E|by apply list_elem_of_In].
Qed.

(** The keys after a change: the same, or one fewer. *)
Lemma change_keys (fd : Z) (c : change) (ls : list file_lock) :
  fd ∈ l_fd <$> ls -> (forall l, c = Update l -> l_fd l = fd) ->
  (l_fd <$> change_lock fd c ls) `sublist_of` (l_fd <$> ls) /\
  zlen (change_lock fd c ls) = zlen ls - match c with Unlink => 1 | _ => 0 end.
Proof.
  intros Hin Hu. induction ls as [|l ls IH]; [by apply not_elem_of_nil in Hin|].
  cbn [change_lock]. rewrite zlen_cons. destruct (Z.eqb_spec (l_fd l) fd) as [E|E].
  - destruct c as [|l'|]; rewrite ?zlen_cons; (split; [|lia]); simpl.
    + done.
    + rewrite (Hu l' eq_refl), E. done.
    + by apply sublist_cons.
  - apply elem_of_cons in Hin as [?|Hin]; [done|]. destruct (IH Hin) as [H1 H2].
    rewrite zlen_cons. split; [simpl; by apply sublist_skip|]. destruct c; lia.
Qed.

Lemma acquire_update (my_pid lt : Z) (l l' : file_lock) (r : Z) :
  acquire_existing my_pid lt l = (r, Update l') -> l_fd l' = l_fd l.
Proof. unfold acquire_existing. intros H. repeat case_if; simplify_eq; done. Qed.

Lemma flock_acquire_ok (proc : option Z) (fd op ptr : Z) (t : flock_table) :
  flock_ok t -> flock_ok (flock_acquire proc fd op ptr t).2.
Proof.
  intros Hok. pose proof Hok as [Hnd Hc Hm]. unfold flock_acquire. destruct proc as [my_pid|]; [|done].
  set (lt := Z.land op _). pose proof (find_lock t fd) as Hf.
  destruct (flock_find t fd) as [l|].
  - destruct Hf as [Hin Hfd]. destruct (acquire_existing my_pid lt l) as [r c] eqn:E. cbn [snd].
    destruct (change_keys fd c (locks t)) as [Hs Hl].
    { apply list_elem_of_fmap. by exists l. }
    { intros l' ->. apply acquire_update in E. congruence. }
    pose proof (zlen_nonneg (change_lock fd c (locks t))).
    constructor; cbn [apply_change locks lk_count].
    + by eapply sublist_NoDup.
    + destruct c; rewrite Hl; try lia.
      rewrite u32_small; [lia|]. unfold is_u32, MAX_FILE_LOCKS in *. lia.
    + destruct c; lia.
  - case_if; [done|]. case_if; [done|]. case_if; [done|]. cbn [snd].
    pose proof (zlen_nonneg (locks t)). constructor; cbn [locks lk_count]; rewrite ?zlen_cons.
    + simpl. by apply NoDup_cons.
    + rewrite u32_small; [lia|]. unfold is_u32, MAX_FILE_LOCKS in *. lia.
    + lia.
Qed.

Lemma release_keys (my_pid fd : Z) (ls : list file_lock) (n : Z) :
  zlen ls <= n < 2 ^ 32 ->
  let '(ls', n') := release_loop my_pid fd ls n in
  (l_fd <$> ls') `sublist_of` (l_fd <$> ls) /\ n' - zlen ls' = n - zlen ls /\ zlen ls' <= zlen ls.
Proof.
  revert n. induction ls as [|l ls IH]; intros n Hn; simpl; [split_and!; [constructor|done|done]|].
  rewrite zlen_cons in Hn. pose proof (zlen_nonneg ls).
  assert (u32 (n - 1) = n - 1) as Hu by (apply u32_small; unfold is_u32; lia). rewrite Hu.
  pose proof (IH n ltac:(lia)) as H1. pose proof (IH (n - 1) ltac:(lia)) as H2.
  destruct (release_loop my_pid fd ls n) as [ls1 n1], (release_loop my_pid fd ls (n - 1)) as [ls2 n2].
  destruct H1 as (S1 & E1 & L1), H2 as (S2 & E2 & L2).
  repeat case_if; rewrite ?zlen_cons; simpl; split_and!;
    try (by apply sublist_skip); try (by apply sublist_cons); lia.
Qed.

Lemma flock_release_ok (my_pid fd : Z) (t : flock_table) :
  flock_ok t -> flock_ok (flock_release_fd my_pid fd t).2.
Proof.
  intros [Hnd Hc Hm]. unfold flock_release_fd. pose proof (zlen_nonneg (locks t)).
  pose proof (release_keys my_pid fd (locks t) (lk_count t)) as H1.
  destruct (release_loop my_pid fd (locks t) (lk_count t)) as [ls n].
  destruct H1 as (Hs & He & Hl); [unfold MAX_FILE_LOCKS in *; lia|].
  constructor; cbn; [by eapply sublist_NoDup|lia|lia].
Qed.

Inductive flock_step : flock_table -> flock_table -> Prop :=
  | step_syscall proc fd op ptr t : flock_step t (flock_syscall proc fd op ptr t).2
  | step_release my_pid fd t : flock_step t (flock_release_fd my_pid fd t).2.

(** ** Theorems *)

(** Whatever sequence of lock calls and descriptor closes the processes make, the
    table holds at most one lock for each descriptor and at most 256 in all, and
    [flock_count] is their number. *)
Theorem flock_table_invariant (t : flock_table) :
  rtc flock_step flock_init t ->
  NoDup (l_fd <$> locks t) /\ flock_count t = zlen (locks t) /\ zlen (locks t) <= MAX_FILE_LOCKS.
Proof.
  intros Hr. assert (flock_ok t) as []; [|done].
  assert (flock_ok flock_init) as H0 by (constructor; [constructor|done|done]).
  induction Hr as [|t1 t2 t3 Hs Hr IH]; [done|]. apply IH.
  destruct Hs; [by apply flock_acquire_ok|by apply flock_release_ok].
Qed.

Definition demo_locks : flock_table := (flock_syscall (Some 7) 3 LOCK_EX 4096 flock_init).2.

Lemma flock_table_invariant_witness : flock_count demo_locks = zlen (locks demo_locks).
Proof.
  destruct (flock_table_invariant demo_locks) as (_ & H & _); [|exact H].
  apply rtc_once, step_syscall.
Defined.

(** An exclusive lock held by one process keeps another process from sharing or
    releasing it, but not from taking it: a shared request fails and an unlock
    does nothing, while an exclusive request of the other process succeeds and
    makes it the holder. *)
Theorem flock_exclusive_stolen (t : flock_table) (fd pid pid' nb ptr : Z) (l : file_lock) :
  flock_find t fd = Some l -> lock_type l = LOCK_EX -> exclusive_pid l = pid -> pid <> pid' ->
  nb = 0 \/ nb = LOCK_NB ->
  flock_syscall (Some pid') fd (Z.lor LOCK_SH nb) ptr t = (-1, t) /\
  flock_syscall (Some pid') fd (Z.lor LOCK_UN nb) ptr t = (0, t) /\
  let '(r, t') := flock_syscall (Some pid') fd (Z.lor LOCK_EX nb) ptr t in
  r = 0 /\ exists l', flock_find t' fd = Some l' /\ lock_type l' = LOCK_EX /\ exclusive_pid l' = pid'.
Proof.
  intros Hf Hl Hp Hne Hnb.
  assert (forall x, x = LOCK_SH \/ x = LOCK_EX \/ x = LOCK_UN ->
    Z.land (Z.lor x nb) (Z.lnot LOCK_NB) = x) as Hop.
  { intros x [->|[->| ->]]; by destruct Hnb as [->| ->]. }
  assert (apply_change fd Keep t = t) as Hkeep.
  { destruct t as [ls n]. unfold apply_change. cbn. f_equal.
    clear. induction ls as [|x ls IH]; simpl; [done|]. case_if; [done|]. by f_equal. }
  unfold flock_syscall, flock_acquire. rewrite !Hop, Hf by auto.
  unfold acquire_existing. rewrite Hl, Hp, (proj2 (Z.eqb_neq pid pid')) by done. cbn.
  rewrite Hkeep. split_and!; try done.
  exists (mk_lock (l_fd l) LOCK_EX 1 pid' (l_ref l)). split; [|done].
  unfold flock_find in *. cbn. clear Hkeep. induction (locks t) as [|x ls IH]; [done|].
  simpl in *. destruct (Z.eqb_spec (l_fd x) fd) as [E|E].
  - injection Hf as ->. simpl. by rewrite (proj2 (Z.eqb_eq _ _)).
  - simpl. rewrite (proj2 (Z.eqb_neq _ _)) by done. by apply IH.
Qed.

Lemma flock_exclusive_stolen_witness :
  exists l, flock_find (flock_syscall (Some 8) 3 LOCK_EX 4096 demo_locks).2 3 = Some l /\
    exclusive_pid l = 8.
Proof.
  destruct (flock_exclusive_stolen demo_locks 3 7 8 0 4096 (mk_lock 3 LOCK_EX 1 7 1))
    as (_ & _ & H); [reflexivity|reflexivity|reflexivity|lia|by left|].
  change (Z.lor LOCK_EX 0) with LOCK_EX in H. destruct (flock_syscall _ _ _ _ _) as [r t'].
  destruct H as (_ & l & Hl & _ & Hp). by exists l.
Defined.

End Flock.
