(* ===== verification/Security.v ===== *)
(** * Authorisation (src/kernel/permission.c, acl.c, capability.c, rlimit.c)

    [Module Permission] holds the mode-bit checks and the rules built on the
    current user, [Module Acl] the access control lists, [Module Capability] the
    capability sets, [Module Rlimit] the resource limits.  The current user, the
    user and group databases and the path lookup belong to other components and
    are arguments. *)

From Stdlib Require Import Ascii.
From stdpp Require Import strings.
From S2P Require Import Prelude.

Definition PERM_READ : Z := 4.
Definition PERM_WRITE : Z := 2.
Definition PERM_EXEC : Z := 1.

(** The test [(bits & access) == access]. *)
Definition grants (bits access : Z) : bool := Z.land bits access =? access.

Lemma grants_spec (bits access : Z) :
  grants bits access = true <-> forall k, 0 <= k -> Z.testbit access k = true -> Z.testbit bits k = true.
Proof.
  unfold grants. rewrite Z.eqb_eq. split.
  - intros H k Hk Ha. apply (f_equal (fun x => Z.testbit x k)) in H.
    rewrite Z.land_spec, Ha in H. by apply andb_true_iff in H as [H _].
  - intros H. apply Z.bits_inj'. intros k Hk. rewrite Z.land_spec.
    destruct (Z.testbit access k) eqn:E; [by rewrite (H k Hk E)|apply andb_false_r].
Qed.

Module Acl.

Definition ACL_MAX_ENTRIES : Z := 16.

Record acl_entry := mk_acl_entry { e_uid : Z; e_gid : Z; perms : Z }.
Definition zero_entry : acl_entry := mk_acl_entry 0 0 0.
#[export] Instance acl_entry_inh : Inhabited acl_entry := populate zero_entry.

(** [entries = None] is the null pointer. *)
Record acl := mk_acl {
  owner_uid : Z; group_gid : Z; owner_perm : Z; group_perm : Z; other_perm : Z;
  entries : option (list acl_entry); entry_count : Z;
}.

Definition acl_create : acl :=
  mk_acl 0 0 (Z.lor (Z.lor PERM_READ PERM_WRITE) PERM_EXEC) (Z.lor PERM_READ PERM_EXEC)
    (Z.lor PERM_READ PERM_EXEC) None 0.

(** [ptr], the result of [kmalloc]. *)
Definition acl_init (ptr : Z) : option acl := if ptr =? NULL then None else Some acl_create.

Definition with_entries (a : acl) (es : option (list acl_entry)) (n : Z) : acl :=
  mk_acl (owner_uid a) (group_gid a) (owner_perm a) (group_perm a) (other_perm a) es n.

Definition acl_add_entry (uid gid p ptr : Z) (a : acl) : Z * acl :=
  if ACL_MAX_ENTRIES <=? entry_count a then (-1, a)
  else
    let es := match entries a with
              | Some es => Some es
              | None => if ptr =? NULL then None
                        else Some (replicate (Z.to_nat ACL_MAX_ENTRIES) zero_entry)
              end in
    match es with
    | None => (-1, a)
    | Some es => (0, with_entries a
                       (Some (es.[entry_count a <- mk_acl_entry uid gid (u8 (Z.land p 7))]))
                       (u32 (entry_count a + 1)))
    end.

(** [None]: the write through the null array faults. *)
Definition acl_remove_entry (index : Z) (a : acl) : option (Z * acl) :=
  if entry_count a <=? index then Some (-1, a)
  else
    match entries a with
    | None => None
    | Some es =>
        let es1 := foldl (fun es i => es.[i <- es.[i + 1]]) es (range index (entry_count a - 1)) in
        let n := entry_count a - 1 in
        Some (0, with_entries a (Some (es1.[n <- zero_entry])) n)
    end.

Definition entry_grants (uid gid perm : Z) (e : acl_entry) : bool :=
  ((e_uid e =? 2 ^ 32 - 1) || (e_uid e =? uid)) && ((e_gid e =? 2 ^ 32 - 1) || (e_gid e =? gid)) &&
  grants (perms e) perm.

(** The base permission of the class of the caller. *)
Definition stored_perm (a : acl) (uid gid : Z) : Z :=
  if uid =? owner_uid a then owner_perm a
  else if gid =? group_gid a then group_perm a else other_perm a.

Definition acl_check (a : option acl) (uid gid perm : Z) : Z :=
  match a with
  | None => 0
  | Some a =>
      if Z.land perm (stored_perm a uid gid) =? perm then 1
      else
        match entries a with
        | Some es =>
            if existsb (fun i => entry_grants uid gid perm (es.[i])) (range 0 (entry_count a))
            then 1 else 0
        | None => 0
        end
  end.

Definition acl_check_access (a : option acl) (uid gid required : Z) : Z :=
  acl_check a uid gid (u8 required).

Definition acl_clear (a : acl) : acl := mk_acl 0 0 0 0 0 None 0.

(** A list whose counter fits its array. *)
Definition acl_ok (a : acl) : Prop :=
  0 <= entry_count a <= ACL_MAX_ENTRIES /\
  match entries a with Some es => zlen es = ACL_MAX_ENTRIES | None => entry_count a = 0 end.

Lemma acl_add_ok (uid gid p ptr : Z) (a : acl) :
  acl_ok a -> acl_ok (acl_add_entry uid gid p ptr a).2.
Proof.
  intros [Hc He]. unfold acl_add_entry, ACL_MAX_ENTRIES in *.
  destruct (Z.leb_spec 16 (entry_count a)); [by split|].
  assert (u32 (entry_count a + 1) = entry_count a + 1) as Hu by (apply u32_small; unfold is_u32; lia).
  destruct (entries a) as [es|] eqn:E.
  - split; cbn [snd entry_count entries with_entries]; rewrite ?Hu; [unfold ACL_MAX_ENTRIES; lia|].
    by rewrite zlen_aset.
  - destruct (ptr =? NULL); [split; cbn [snd]; [unfold ACL_MAX_ENTRIES; lia|by rewrite E]|].
    split; cbn [snd entry_count entries with_entries]; rewrite ?Hu; [unfold ACL_MAX_ENTRIES; lia|].
    rewrite zlen_aset. unfold zlen. by rewrite length_replicate.
Qed.

Lemma acl_remove_ok (index : Z) (a : acl) :
  acl_ok a -> 0 <= index -> exists r a', acl_remove_entry index a = Some (r, a') /\ acl_ok a'.
Proof.
  intros [Hc He] Hi. unfold acl_remove_entry.
  destruct (Z.leb_spec (entry_count a) index); [by do 2 eexists; split; [done|split]|].
  destruct (entries a) as [es|] eqn:E; [|lia].
  do 2 eexists. split; [done|]. split; cbn [entry_count entries with_entries]; [lia|].
  rewrite zlen_aset, <-He. clear. induction (range _ _) as [|i l IH] using rev_ind; [done|].
  rewrite foldl_app. cbn [foldl]. by rewrite zlen_aset.
Qed.

(** The extra entries in use. *)
Definition extra (a : acl) : list acl_entry :=
  match entries a with Some es => take (Z.to_nat (entry_count a)) es | None => [] end.

Lemma acl_check_spec (a : acl) (uid gid perm : Z) :
  acl_ok a ->
  acl_check (Some a) uid gid perm = 1 <->
  grants (stored_perm a uid gid) perm = true \/
  exists e, e ∈ extra a /\ entry_grants uid gid perm e = true.
Proof.
  intros [Hc Hok]. unfold acl_check, grants, extra. rewrite Z.land_comm.
  destruct (Z.land (stored_perm a uid gid) perm =? perm); [naive_solver|].
  destruct (entries a) as [es|]; [|set_solver].
  assert (forall i e, 0 <= i -> take (Z.to_nat (entry_count a)) es !! Z.to_nat i = Some e <->
    i < entry_count a /\ es.[i] = e) as Hlk.
  { intros i e Hi. rewrite lookup_take_Some. unfold aget, zlen in *. split.
    - intros [He Hlt]. split; [lia|]. by apply list_lookup_total_correct.
    - intros [Hlt <-]. split; [|lia]. apply list_lookup_lookup_total_lt. lia. }
  destruct (existsb _ _) eqn:E; (split; [|try done]); intros H.
  - right. apply existsb_exists in E as (i & Hi & He). apply list_elem_of_In, elem_of_range in Hi.
    exists (es.[i]). split; [|done]. apply (list_elem_of_lookup_2 _ (Z.to_nat i)).
    apply Hlk; [lia|]. split; [lia|done].
  - lia.
  - destruct H as [H|(e & He & Hg)]; [done|]. apply list_elem_of_lookup in He as [i Hi].
    rewrite <-(Nat2Z.id i) in Hi. apply Hlk in Hi as [Hlt <-]; [|lia].
    rewrite <-not_true_iff_false, existsb_exists in E. exfalso. apply E. eexists. split; [|exact Hg].
    apply list_elem_of_In, elem_of_range. lia.
Qed.

End Acl.

Module Permission.
Import Acl.

Definition UID_SOVER : Z := 0.
Definition UID_NOBODY : Z := 65534.
Definition PERM_LEVEL_SOVER : Z := 0.
Definition PERM_LEVEL_ADMIN : Z := 1.
Definition PERM_LEVEL_USER : Z := 2.
Definition PERM_LEVEL_NOBODY : Z := 3.

(** [current_umask] and its setter. *)
Definition initial_umask : Z := 18. (* 0022 *)
Definition perm_umask_set (mask : Z) : Z := Z.land mask 4095. (* 07777 *)

Definition perm_check (file_uid file_gid file_mode proc_uid proc_gid access : Z) : Z :=
  if proc_uid =? 0 then 0
  else if proc_uid =? file_uid then
    if grants (Z.land (Z.shiftr file_mode 6) 7) access then 0 else -1
  else if proc_gid =? file_gid then
    if grants (Z.land (Z.shiftr file_mode 3) 7) access then 0 else -1
  else if grants (Z.land file_mode 7) access then 0 else -1.

Definition perm_check_read (mode uid gid proc_uid proc_gid : Z) : Z :=
  perm_check uid gid mode proc_uid proc_gid PERM_READ.
Definition perm_check_write (mode uid gid proc_uid proc_gid : Z) : Z :=
  perm_check uid gid mode proc_uid proc_gid PERM_WRITE.
Definition perm_check_exec (mode uid gid proc_uid proc_gid : Z) : Z :=
  perm_check uid gid mode proc_uid proc_gid PERM_EXEC.

Record user := mk_user { u_uid : Z; u_gid : Z; is_admin : Z }.

Definition proc_ids (u : option user) : Z * Z :=
  match u with Some u => (u_uid u, u_gid u) | None => (UID_NOBODY, UID_NOBODY) end.

Definition perm_check_current_read (u : option user) (mode uid gid : Z) : Z :=
  let '(pu, pg) := proc_ids u in perm_check uid gid mode pu pg PERM_READ.
Definition perm_check_current_write (u : option user) (mode uid gid : Z) : Z :=
  let '(pu, pg) := proc_ids u in perm_check uid gid mode pu pg PERM_WRITE.
Definition perm_check_current_exec (u : option user) (mode uid gid : Z) : Z :=
  let '(pu, pg) := proc_ids u in perm_check uid gid mode pu pg PERM_EXEC.

Definition perm_check_extended (file_uid file_gid file_mode : Z) (a : option acl)
    (proc_uid proc_gid access : Z) : Z :=
  if proc_uid =? 0 then 0
  else if perm_check file_uid file_gid file_mode proc_uid proc_gid access =? 0 then 0
  else if bool_decide (is_Some a) && c_true (acl_check a proc_uid proc_gid (u8 access)) then 0
  else -1.

(** The result and the new mode. *)
Definition perm_set_mode (mode new_mode file_uid proc_uid admin : Z) : Z * Z :=
  if (proc_uid =? 0) || c_true admin then (0, Z.land new_mode 4095)
  else if proc_uid =? file_uid then (0, Z.land new_mode 4095)
  else (-1, mode).

(** [uid] is the result of [user_get_current_uid]. *)
Definition perm_is_sover (uid : Z) : bool := uid =? 0.
Definition perm_is_admin (uid : Z) (u : option user) : Z :=
  if uid =? 0 then 1 else match u with Some u => is_admin u | None => 0 end.

Fixpoint path_starts_with (path prefix : string) : bool :=
  match prefix with
  | EmptyString => match path with
                   | EmptyString => true
                   | String c _ => bool_decide (c = "/"%char)
                   end
  | String p prefix =>
      match path with
      | EmptyString => false
      | String c path => bool_decide (c = p) && path_starts_with path prefix
      end
  end.

(** [path = None] is the null pointer. *)
Definition perm_check_path (uid : Z) (u : option user) (path : option string) (required : Z) : Z :=
  match path with
  | None => -1
  | Some path =>
      if perm_is_sover uid then 0
      else if path_starts_with path "/sys" && c_true (Z.land required PERM_WRITE) then -1
      else if path_starts_with path "/dev" && c_true (Z.land required PERM_WRITE) &&
              negb (c_true (perm_is_admin uid u)) then -1
      else 0
  end.

Definition perm_get_level (u : option user) : Z :=
  match u with
  | None => PERM_LEVEL_NOBODY
  | Some u =>
      if u_uid u =? 0 then PERM_LEVEL_SOVER
      else if c_true (is_admin u) then PERM_LEVEL_ADMIN
      else if u_uid u =? 65534 then PERM_LEVEL_NOBODY
      else PERM_LEVEL_USER
  end.

Definition perm_level_name (level : Z) : string :=
  if level =? PERM_LEVEL_SOVER then "Sover"
  else if level =? PERM_LEVEL_ADMIN then "Admin"
  else if level =? PERM_LEVEL_USER then "User"
  else if level =? PERM_LEVEL_NOBODY then "Nobody"
  else "Unknown".

Definition perm_denied_reason (path : option string) (required : Z) : string :=
  let under dir := match path with Some p => path_starts_with p dir | None => false end in
  if under "/sys" && c_true (Z.land required PERM_WRITE) then
    "Permission denied: /sys is read-only (Sover only)"
  else if under "/dev" && c_true (Z.land required PERM_WRITE) then
    "Permission denied: /dev write access requires Admin or Sover"
  else if c_true (Z.land required PERM_EXEC) then
    "Permission denied: execute permission required"
  else if c_true (Z.land required PERM_WRITE) then
    "Permission denied: write permission required"
  else if c_true (Z.land required PERM_READ) then
    "Permission denied: read permission required"
  else "Permission denied".

(** [inode]: the owner, group and mode the path resolves to. *)
Definition permission_check_file (uid : Z) (u : option user) (path : option string)
    (inode : option (Z * Z * Z)) (required : Z) : Z :=
  if bool_decide (path = None) then -1
  else if perm_is_sover uid then 0
  else if negb (perm_check_path uid u path required =? 0) then -1
  else
    match inode with
    | None => -1
    | Some (fuid, fgid, mode) =>
        let '(pu, pg) := proc_ids u in perm_check fuid fgid (u16 mode) pu pg required
    end.

Definition permission_check_user (u : option user) (target : Z) : Z :=
  match u with
  | None => -1
  | Some u =>
      if u_uid u =? target then 0
      else if u_uid u =? UID_SOVER then 0
      else if c_true (is_admin u) && negb (target =? UID_SOVER) then 0
      else -1
  end.

Definition permission_check_user_operation (u : option user) (target is_admin_op : Z) : Z :=
  match u with
  | None => -1
  | Some u =>
      if u_uid u =? UID_SOVER then 0
      else if c_true is_admin_op && negb (c_true (is_admin u)) then -1
      else if (target =? UID_SOVER) && negb (u_uid u =? UID_SOVER) then -1
      else if c_true (is_admin u) then 0
      else if (u_uid u =? target) && negb (c_true is_admin_op) then 0
      else -1
  end.

Definition permission_can_chmod (u : option user) (file_uid : Z) : bool :=
  match u with
  | None => false
  | Some u => (u_uid u =? UID_SOVER) || c_true (is_admin u) || (u_uid u =? file_uid)
  end.
Definition permission_can_chown (u : option user) : bool :=
  match u with None => false | Some u => (u_uid u =? UID_SOVER) || c_true (is_admin u) end.
Definition permission_can_create_user (uid : Z) (u : option user) : Z := perm_is_admin uid u.
Definition permission_can_delete_user (uid : Z) (u : option user) (target : Z) : Z :=
  if target =? UID_SOVER then 0 else perm_is_admin uid u.
Definition permission_can_modify_user (u : option user) (target : Z) : bool :=
  match u with
  | None => false
  | Some u => (u_uid u =? target) || (u_uid u =? UID_SOVER) ||
              (c_true (is_admin u) && negb (target =? UID_SOVER))
  end.

(** One letter of the mode string. *)
Definition letter (mode bit : Z) (c : ascii) : ascii :=
  if c_true (Z.land mode bit) then c else "-"%char.
(** The execute letter, with the set-id or sticky bit. *)
Definition xletter (mode special bit : Z) (c C : ascii) : ascii :=
  if c_true (Z.land mode special) then (if c_true (Z.land mode bit) then c else C)
  else letter mode bit "x"%char.

(** The ten characters written to a buffer of at least eleven. *)
Definition perm_mode_string (mode : Z) : list ascii :=
  [ (if c_true (Z.land mode 16384) then "d" else if c_true (Z.land mode 40960) then "l" else "-")%char;
    letter mode 256 "r"; letter mode 128 "w"; xletter mode 2048 64 "s" "S";
    letter mode 32 "r"; letter mode 16 "w"; xletter mode 1024 8 "s" "S";
    letter mode 4 "r"; letter mode 2 "w"; xletter mode 512 1 "t" "T" ]%char.

(** The loop that fills [tmp] with the digits of [val], least first; ten rounds
    are enough for 32 bits. *)
Fixpoint digits (fuel : nat) (val : Z) : list Z :=
  match fuel with
  | O => []
  | S fuel => if 0 <? val then (48 + val mod 10) :: digits fuel (val / 10) else []
  end.

(** [strncpy] of at most [n] bytes: the string, then zeros. *)
Definition strncpy (src : list Z) (n : Z) : list Z :=
  let s := take (Z.to_nat n) src in s ++ replicate (Z.to_nat n - length s) 0.

(** The bytes written to [buf], from its first cell on; [None] when the fixed text
    is returned instead.  [name] is the result of the database lookup. *)
Definition perm_id_to_name (name : option (list Z)) (id buf_size : Z) : option (list Z) :=
  if buf_size <=? 0 then None
  else
    match name with
    | Some u => Some (strncpy u (buf_size - 1) ++ [0])
    | None => Some (reverse (if id =? 0 then [48] else digits 10 id) ++ [0])
    end.

(** [name]: the user, or group, with that number. *)
Definition perm_uid_to_name (name : option (list Z)) (uid buf_size : Z) : option (list Z) :=
  perm_id_to_name name uid buf_size.
Definition perm_gid_to_name (name : option (list Z)) (gid buf_size : Z) : option (list Z) :=
  perm_id_to_name name gid buf_size.

Lemma digits_value (fuel : nat) (val : Z) :
  0 <= val < 10 ^ Z.of_nat fuel ->
  foldr (fun c acc => acc * 10 + (c - 48)) 0 (digits fuel val) = val.
Proof.
  revert val. induction fuel as [|fuel IH]; intros val Hv; cbn [digits]; [cbn in *; lia|].
  destruct (Z.ltb_spec 0 val); cbn [foldr]; [|lia].
  rewrite Nat2Z.inj_succ, Z.pow_succ_r in Hv by lia.
  rewrite IH by (split; [apply Z.div_pos; lia|apply Z.div_lt_upper_bound; lia]). dlia.
Qed.

(** The number is written whole whatever the size of the buffer: a one-byte buffer
    receives at least two bytes. *)
Lemma id_to_name_overflows (id : Z) :
  is_u32 id -> exists l, perm_id_to_name None id 1 = Some l /\ 1 < zlen l.
Proof.
  intros Hid. eexists. split; [reflexivity|]. rewrite zlen_app. change (zlen [0]) with 1.
  assert (0 < zlen (reverse (if id =? 0 then [48] else digits 10 id))); [|lia].
  unfold zlen. rewrite length_reverse. destruct (Z.eqb_spec id 0); [done|]. cbn [digits].
  destruct (Z.ltb_spec 0 id); [simpl; lia|]. unfold is_u32 in Hid. lia.
Qed.

(** The class whose bits decide. *)
Definition class_bits (file_uid file_gid mode proc_uid proc_gid : Z) : Z :=
  Z.shiftr mode (if proc_uid =? file_uid then 6 else if proc_gid =? file_gid then 3 else 0).

Lemma perm_check_spec (fu fg mode pu pg access : Z) :
  perm_check fu fg mode pu pg access = 0 <->
  pu = 0 \/ grants (Z.land (class_bits fu fg mode pu pg) 7) access = true.
Proof.
  unfold perm_check, class_bits. destruct (Z.eqb_spec pu 0) as [->|Hp]; [naive_solver|].
  assert (forall b : bool, (if b then 0 else -1) = 0 <-> pu = 0 \/ b = true) as Hb.
  { intros []; naive_solver. }
  destruct (pu =? fu); [apply Hb|]. destruct (pg =? fg); [apply Hb|].
  rewrite Z.shiftr_0_r. apply Hb.
Qed.

(** [perm_check_extended] grants an access exactly when the process is the
    superuser, or the mode bits of its class (owner, else group, else others)
    include every requested bit, or there is an access control list that grants
    the low eight bits of the request, by its own class permission or by one of
    its entries; it never takes an access away that the mode bits give. *)
Theorem perm_extended_spec (fu fg mode pu pg access : Z) (a : option acl) :
  match a with Some l => acl_ok l | None => True end ->
  perm_check_extended fu fg mode a pu pg access = 0 <->
  pu = 0 \/ grants (Z.land (class_bits fu fg mode pu pg) 7) access = true \/
  exists l, a = Some l /\
    (grants (stored_perm l pu pg) (u8 access) = true \/
     exists e, e ∈ extra l /\ entry_grants pu pg (u8 access) e = true).
Proof.
  intros Ha. unfold perm_check_extended. pose proof (perm_check_spec fu fg mode pu pg access) as Hp.
  destruct (Z.eqb_spec pu 0) as [->|Hpu]; [naive_solver|].
  destruct (Z.eqb_spec (perm_check fu fg mode pu pg access) 0) as [E|E]; [naive_solver|].
  destruct a as [l|]; [|naive_solver]. pose proof (acl_check_spec l pu pg (u8 access) Ha) as Hl.
  rewrite bool_decide_true by eauto. cbn [andb].
  assert (acl_check (Some l) pu pg (u8 access) = 1 \/ acl_check (Some l) pu pg (u8 access) = 0) as [H|H].
  { unfold acl_check. destruct (_ =? _); [by left|]. destruct (entries l); [|by right].
    destruct (existsb _ _); [by left|by right]. }
  - rewrite H. cbn [c_true Z.eqb negb]. split; [|done]. intros _. right. right. exists l. split; [done|]. by apply Hl.
  - rewrite H. cbn [c_true Z.eqb negb]. split; [done|]. intros [?|[Hg|(l' & [= <-] & Hg)]]; [done|naive_solver|].
    apply Hl in Hg. lia.
Qed.

Lemma perm_extended_spec_witness :
  perm_check_extended 5 5 0 (Some (acl_add_entry 7 4294967295 6 4096 acl_create).2) 7 9 6 = 0.
Proof.
  apply perm_extended_spec; [by vm_compute|]. right. right. eexists. split; [reflexivity|].
  right. exists (mk_acl_entry 7 4294967295 6). split; [vm_compute; constructor|reflexivity].
Defined.

(** Masks that meet no bit of the permission part see only the file type. *)
Lemma land_type (t perm mask : Z) :
  0 <= perm < 4096 -> 0 <= t -> mask mod 4096 = 0 ->
  Z.land (4096 * t + perm) mask = Z.land (4096 * t) mask.
Proof.
  intros Hp Ht Hm. apply Z.bits_inj'. intros k Hk. rewrite !Z.land_spec.
  destruct (Z.ltb_spec k 12).
  - assert (Z.testbit mask k = false) as ->; [|by rewrite !andb_false_r].
    rewrite <-(Z.mod_pow2_bits_low mask 12 k) by lia. change (2 ^ 12) with 4096. rewrite Hm.
    apply Z.bits_0.
  - f_equal. rewrite <-(Z.sub_add 12 k), <-!Z.shiftr_spec by lia. f_equal.
    rewrite !Z.shiftr_div_pow2 by lia. change (2 ^ 12) with 4096.
    rewrite (Z.mul_comm 4096), Z.div_add_l, Z.div_mul, (Z.div_small perm) by lia. lia.
Qed.

(** The type letter of a regular file (type 0100000) is that of a link: the mask
    0120000 of the test contains the bit 0100000. *)
Lemma mode_string_regular (perm : Z) :
  0 <= perm < 4096 -> head (perm_mode_string (4096 * 8 + perm)) = Some "l"%char.
Proof.
  intros Hp. cbn [perm_mode_string head]. by rewrite !land_type by (done || lia).
Qed.

End Permission.

Module Capability.

Definition CAP_NUM_CAPS : Z := 41.

(** Each set is an array of one 64-bit word. *)
Record cap_set := mk_cap_set {
  permitted : Z; inheritable : Z; effective : Z; bounding : Z; ambient : Z }.
#[export] Instance cap_set_eq_dec : EqDecision cap_set.
Proof. solve_decision. Defined.

Record cap := mk_cap {
  cset : cap_set; file_effective : Z; file_permitted : Z; file_inheritable : Z }.

(** The groups and the label are kept as the lists of their arrays. *)
Record cred := mk_cred {
  uid : Z; gid : Z; suid : Z; sgid : Z; fsuid : Z; fsgid : Z; ccap : cap;
  groups : list Z; n_groups : Z; label : list Z; label_len : Z; refcount : Z }.

Definition set_cap_set (c : cred) (s : cap_set) : cred :=
  mk_cred (uid c) (gid c) (suid c) (sgid c) (fsuid c) (fsgid c)
    (mk_cap s (file_effective (ccap c)) (file_permitted (ccap c)) (file_inheritable (ccap c)))
    (groups c) (n_groups c) (label c) (label_len c) (refcount c).
Definition set_refcount (c : cred) (n : Z) : cred :=
  mk_cred (uid c) (gid c) (suid c) (sgid c) (fsuid c) (fsgid c) (ccap c)
    (groups c) (n_groups c) (label c) (label_len c) n.

(** The macros; the word index of every capability is 0. *)
Definition BIT_TEST (w b : Z) : Z := Z.land w (u64 (Z.shiftl 1 (Z.land b 63))).
Definition BIT_SET (w b : Z) : Z := Z.lor w (u64 (Z.shiftl 1 (Z.land b 63))).
Definition BIT_CLR (w b : Z) : Z :=
  Z.land w (u64 (Z.lnot (u64 (Z.shiftl 1 (Z.land b 63))))).

Definition zero_set : cap_set := mk_cap_set 0 0 0 0 0.
Definition cap_init_user (c : cred) : cred := set_cap_set c zero_set.
Definition ones64 : Z := 2 ^ 64 - 1.
Definition cap_init_root (c : cred) : cred :=
  let beyond := u64 (Z.lnot (u64 (Z.shiftl 1 CAP_NUM_CAPS) - 1)) in
  set_cap_set c
    (mk_cap_set (Z.land ones64 (u64 (Z.lnot beyond))) 0 (Z.land ones64 (u64 (Z.lnot beyond)))
       (u64 (Z.shiftl 1 CAP_NUM_CAPS) - 1) 0).

Definition cred_init (u g : Z) : cred :=
  let c := mk_cred u g u g u g (mk_cap zero_set 0 0 0) (replicate 32 0) 0 (replicate 32 0) 0 1 in
  if u =? 0 then cap_init_root c else cap_init_user c.
Definition cred_destroy (c : cred) : cred :=
  if 0 <? refcount c then set_refcount c (refcount c - 1) else c.
Definition cred_get (c : cred) : cred := set_refcount c (u32 (refcount c + 1)).
Definition cred_copy (src : cred) : cred := set_refcount src 1.

Definition bad_cap (n : Z) : bool := (n <? 0) || (CAP_NUM_CAPS <=? n).
Definition cap_set_bit (s : cap_set) (n : Z) : Z * cap_set :=
  if bad_cap n then (-1, s)
  else (0, mk_cap_set (BIT_SET (permitted s) n) (inheritable s) (BIT_SET (effective s) n)
             (bounding s) (ambient s)).
Definition cap_clear_bit (s : cap_set) (n : Z) : Z * cap_set :=
  if bad_cap n then (-1, s)
  else (0, mk_cap_set (BIT_CLR (permitted s) n) (BIT_CLR (inheritable s) n)
             (BIT_CLR (effective s) n) (bounding s) (ambient s)).
(** The cast to [int] keeps the low 32 bits. *)
Definition cap_test_bit (s : cap_set) (n : Z) : Z :=
  if bad_cap n then 0 else s32 (BIT_TEST (effective s) n).
Definition cap_test_effective (c : cred) (n : Z) : Z := cap_test_bit (cset (ccap c)) n.
Definition cap_test_permitted (c : cred) (n : Z) : Z :=
  if bad_cap n then 0 else s32 (BIT_TEST (permitted (cset (ccap c))) n).
Definition cap_raise (s : cap_set) (n : Z) : cap_set := (cap_set_bit s n).2.
Definition cap_lower (s : cap_set) (n : Z) : cap_set := (cap_clear_bit s n).2.
Definition cap_drop_all (c : cred) : cred := set_cap_set c zero_set.
Definition capable_raise (s : cap_set) (n : Z) : Z * cap_set :=
  if bad_cap n then (-1, s)
  else (0, mk_cap_set (BIT_SET (permitted s) n) (inheritable s) (BIT_SET (effective s) n)
             (BIT_SET (bounding s) n) (ambient s)).

(** [new_cred] carries the capabilities of the file. *)
Definition cap_exec_transition (new_cred old_cred : cred) : cred :=
  let old := cset (ccap old_cred) in
  let fe := file_effective (ccap new_cred) in
  let fp := file_permitted (ccap new_cred) in
  let fi := file_inheritable (ccap new_cred) in
  let inh := Z.lor (Z.land fi (bounding old)) (inheritable old) in
  let per := Z.lor (Z.lor fp (Z.land fi (bounding old)))
               (Z.land (permitted old) (u64 (Z.lnot (Z.lor fp (inheritable old))))) in
  set_cap_set new_cred
    (mk_cap_set per inh (if c_true fe then fp else per) (bounding old) (ambient old)).

Lemma cap_mask (n : Z) : bad_cap n = false -> u64 (Z.shiftl 1 (Z.land n 63)) = 2 ^ n /\ 0 <= n < 41.
Proof.
  unfold bad_cap, CAP_NUM_CAPS. intros Hb. assert (0 <= n < 41) as Hn by lia. split; [|done].
  change 63 with (Z.ones 6). rewrite Z.land_ones, Z.mod_small by (change (2 ^ 6) with 64; lia).
  rewrite Z.shiftl_1_l. apply Z.mod_small. split; [lia|]. apply Z.pow_lt_mono_r; lia.
Qed.

Lemma land_pow2 (w n : Z) : 0 <= n -> Z.land w (2 ^ n) = if Z.testbit w n then 2 ^ n else 0.
Proof.
  intros Hn. apply Z.bits_inj'. intros k Hk. rewrite Z.land_spec, Z.pow2_bits_eqb by lia.
  destruct (Z.eqb_spec n k) as [->|Hne].
  - rewrite andb_true_r. destruct (Z.testbit w k) eqn:E; [by rewrite Z.pow2_bits_true|by rewrite Z.bits_0].
  - rewrite andb_false_r. destruct (Z.testbit w n); [by rewrite Z.pow2_bits_false|by rewrite Z.bits_0].
Qed.

Lemma bit_set_testbit (w n k : Z) :
  bad_cap n = false -> 0 <= k -> Z.testbit (BIT_SET w n) k = (n =? k) || Z.testbit w k.
Proof.
  intros Hb Hk. destruct (cap_mask n Hb) as [E Hn]. unfold BIT_SET.
  by rewrite E, Z.lor_spec, Z.pow2_bits_eqb, orb_comm by lia.
Qed.

(** A capability test is non-zero exactly when the number is valid, the bit is
    in the effective set and the number is below 32: the 64-bit result of the
    test is cast to [int], so the nine capabilities 32 to 40 are never seen, not
    even by a credential of the superuser or right after they are raised. *)
Theorem cap_test_low_only (s : cap_set) (n : Z) :
  c_true (cap_test_bit s n) = (0 <=? n) && (n <? 32) && Z.testbit (effective s) n /\
  c_true (cap_test_bit (cap_raise s n) n) = (0 <=? n) && (n <? 32).
Proof.
  assert (forall t, c_true (cap_test_bit t n) = (0 <=? n) && (n <? 32) && Z.testbit (effective t) n) as H.
  { intros t. unfold cap_test_bit, BIT_TEST. destruct (bad_cap n) eqn:Hb.
    - symmetry. unfold bad_cap, CAP_NUM_CAPS in Hb. assert ((0 <=? n) && (n <? 32) = false) as -> by lia. done.
    - destruct (cap_mask n Hb) as [-> Hn]. rewrite land_pow2 by lia.
      destruct (Z.testbit (effective t) n); [rewrite andb_true_r|by rewrite andb_false_r].
      assert (n ∈ range 0 41) as Hr by (apply elem_of_range; lia).
      revert n Hn Hb Hr. intros n _ _ Hr. revert n Hr. apply Forall_forall.
      by repeat constructor. }
  split; [apply H|]. rewrite H. unfold cap_raise, cap_set_bit. destruct (bad_cap n) eqn:Hb.
  - unfold bad_cap, CAP_NUM_CAPS in Hb. lia.
  - cbn [snd effective]. destruct (cap_mask n Hb). rewrite bit_set_testbit, Z.eqb_refl by (done || lia).
    by rewrite andb_true_r.
Qed.

(** The bits of the sets after an exec.  The inheritable bits of the old credential
    are kept whether or not they are in the bounding set. *)
Lemma cap_exec_bits (new old : cred) (k : Z) :
  0 <= k < 64 ->
  let f := ccap new in let o := cset (ccap old) in
  let n := cset (ccap (cap_exec_transition new old)) in
  let b := Z.testbit in
  b (inheritable n) k = b (file_inheritable f) k && b (bounding o) k || b (inheritable o) k /\
  b (permitted n) k = b (file_permitted f) k || b (file_inheritable f) k && b (bounding o) k ||
    b (permitted o) k && negb (b (file_permitted f) k || b (inheritable o) k) /\
  b (effective n) k = (if file_effective f =? 0 then b (permitted n) k else b (file_permitted f) k) /\
  bounding n = bounding o /\ ambient n = ambient o.
Proof.
  intros Hk. cbn zeta. unfold cap_exec_transition, set_cap_set.
  cbn [ccap cset permitted inheritable effective bounding ambient]. unfold u64.
  split_and!; try done.
  - by rewrite Z.lor_spec, Z.land_spec.
  - rewrite !Z.lor_spec, !Z.land_spec, Z.mod_pow2_bits_low, Z.lnot_spec, Z.lor_spec by lia. done.
  - unfold c_true. by destruct (_ =? 0).
Qed.

(** A credential of the superuser holds exactly the 41 capabilities. *)
Lemma root_caps (g : Z) : cset (ccap (cred_init 0 g)) = mk_cap_set (2 ^ 41 - 1) 0 (2 ^ 41 - 1) (2 ^ 41 - 1) 0.
Proof. reflexivity. Qed.

End Capability.

Module Rlimit.

Definition RLIMIT_NLIMITS : Z := 10.
Definition RLIM_INFINITY : Z := 2 ^ 32 - 1.

Record rlimit := mk_rlimit { rlim_cur : Z; rlim_max : Z }.
#[export] Instance rlimit_inh : Inhabited rlimit := populate (mk_rlimit 0 0).
Notation rlimit_info := (list rlimit).

Definition rlimit_init_defaults : rlimit_info :=
  [ mk_rlimit RLIM_INFINITY RLIM_INFINITY; mk_rlimit RLIM_INFINITY RLIM_INFINITY;
    mk_rlimit RLIM_INFINITY RLIM_INFINITY; mk_rlimit (8 * 1024 * 1024) RLIM_INFINITY;
    mk_rlimit 0 RLIM_INFINITY; mk_rlimit 256 1024; mk_rlimit 256 1024;
    mk_rlimit (64 * 1024) RLIM_INFINITY; mk_rlimit RLIM_INFINITY RLIM_INFINITY;
    mk_rlimit RLIM_INFINITY RLIM_INFINITY ].

Definition rlimit_set (info : rlimit_info) (resource : Z) (value : rlimit) : Z * rlimit_info :=
  if RLIMIT_NLIMITS <=? resource then (-1, info)
  else if rlim_max value <? rlim_cur value then (-1, info)
  else if (rlim_max (info.[resource]) <? rlim_max value) &&
          negb (rlim_max (info.[resource]) =? RLIM_INFINITY) then (-1, info)
  else (0, info.[resource <- value]).

Definition rlimit_get (info : rlimit_info) (resource : Z) : Z * option rlimit :=
  if RLIMIT_NLIMITS <=? resource then (-1, None) else (0, Some (info.[resource])).

Definition rlimit_check (info : rlimit_info) (resource value : Z) : Z :=
  if RLIMIT_NLIMITS <=? resource then -1
  else if rlim_cur (info.[resource]) =? RLIM_INFINITY then 0
  else if value <=? rlim_cur (info.[resource]) then 0 else -1.

Definition rlimit_get_cur (info : rlimit_info) (resource : Z) : Z :=
  if RLIMIT_NLIMITS <=? resource then 0 else rlim_cur (info.[resource]).
Definition rlimit_get_max (info : rlimit_info) (resource : Z) : Z :=
  if RLIMIT_NLIMITS <=? resource then 0 else rlim_max (info.[resource]).

Definition rlimit_ok (info : rlimit_info) : Prop :=
  zlen info = RLIMIT_NLIMITS /\
  Forall (fun l => 0 <= rlim_cur l <= rlim_max l /\ rlim_max l <= RLIM_INFINITY) info.

(** The table after a sequence of [rlimit_set] calls. *)
Definition set_all (info : rlimit_info) (ops : list (Z * rlimit)) : rlimit_info :=
  foldl (fun i op => (rlimit_set i op.1 op.2).2) info ops.

Lemma rlimit_set_ok (info : rlimit_info) (r : Z) (v : rlimit) :
  rlimit_ok info -> is_u32 (rlim_cur v) -> is_u32 (rlim_max v) -> 0 <= r ->
  rlimit_ok (rlimit_set info r v).2 /\
  forall k, 0 <= k < RLIMIT_NLIMITS ->
    rlim_max ((rlimit_set info r v).2.[k]) <= rlim_max (info.[k]).
Proof.
  intros [Hl Hf] Hc Hm Hr. unfold rlimit_set, RLIM_INFINITY, is_u32 in *.
  destruct (Z.leb_spec RLIMIT_NLIMITS r); [split; [by split|intros k Hk; cbn [snd]; lia]|].
  destruct (Z.ltb_spec (rlim_max v) (rlim_cur v)); [split; [by split|intros k Hk; cbn [snd]; lia]|].
  pose proof (aget_Forall _ info r Hf ltac:(lia)) as [Hcur Hmax].
  destruct (_ && _) eqn:E; [split; [by split|intros k Hk; cbn [snd]; lia]|]. cbn [snd]. split.
  - split; [by rewrite zlen_aset|]. apply Forall_insert; [done|]. unfold RLIM_INFINITY. lia.
  - intros k Hk. destruct (decide (k = r)) as [->|Hne].
    + rewrite aget_aset_eq by lia. lia.
    + rewrite aget_aset_ne by lia. lia.
Qed.

(** From the defaults, after any sequence of [rlimit_set] calls with 32-bit
    values, every soft limit is at most its hard limit, no hard limit has been
    raised above an earlier value, and a value accepted by [rlimit_check] is
    within the hard limit. *)
Theorem rlimit_monotone (ops1 ops2 : list (Z * rlimit)) (k value : Z) :
  Forall (fun op => is_u32 op.1 /\ is_u32 (rlim_cur op.2) /\ is_u32 (rlim_max op.2)) (ops1 ++ ops2) ->
  0 <= k < RLIMIT_NLIMITS -> is_u32 value ->
  let i1 := set_all rlimit_init_defaults ops1 in
  let i2 := set_all rlimit_init_defaults (ops1 ++ ops2) in
  rlim_cur (i2.[k]) <= rlim_max (i2.[k]) <= rlim_max (i1.[k]) /\
  (rlimit_check i2 k value = 0 -> value <= rlim_max (i1.[k])).
Proof.
  intros Hops Hk Hv. apply Forall_app in Hops as [H1 H2].
  assert (forall ops info, rlimit_ok info ->
    Forall (fun op => is_u32 op.1 /\ is_u32 (rlim_cur op.2) /\ is_u32 (rlim_max op.2)) ops ->
    rlimit_ok (set_all info ops) /\ rlim_max ((set_all info ops).[k]) <= rlim_max (info.[k])) as Hall.
  { induction ops as [|op ops IH]; intros info Hok Hf; [by split|].
    apply Forall_cons in Hf as [(Ho & Hc & Hm) Hf].
    destruct (rlimit_set_ok info op.1 op.2 Hok Hc Hm ltac:(destruct Ho; lia)) as [Hok' Hle].
    destruct (IH _ Hok' Hf) as [? ?]. split; [done|]. specialize (Hle k Hk). cbn [set_all foldl] in *.
    unfold set_all in *. lia. }
  assert (rlimit_ok rlimit_init_defaults) as H0.
  { split; [done|]. unfold rlimit_init_defaults, RLIM_INFINITY. repeat constructor; cbn; lia. }
  destruct (Hall _ _ H0 H1) as [Hok1 _]. destruct (Hall _ _ Hok1 H2) as [[Hl Hf] Hle].
  pose proof (aget_Forall _ _ k Hf ltac:(lia)) as [Hcur Hmax]. cbv beta in Hcur, Hmax.
  assert (set_all rlimit_init_defaults (ops1 ++ ops2) = set_all (set_all rlimit_init_defaults ops1) ops2)
    as E12 by apply foldl_app.
  cbn zeta. rewrite E12. clear E12. revert Hl Hf Hle Hcur Hmax.
  generalize (set_all (set_all rlimit_init_defaults ops1) ops2) as i2.
  generalize (set_all rlimit_init_defaults ops1) as i1. intros i1 i2 Hl Hf Hle Hcur Hmax.
  split; [lia|]. unfold rlimit_check. destruct (Z.leb_spec RLIMIT_NLIMITS k); [lia|].
  destruct (Z.eqb_spec (rlim_cur (i2.[k])) RLIM_INFINITY) as [E|E].
  - intros _. unfold is_u32, RLIM_INFINITY in *. lia.
  - destruct (Z.leb_spec value (rlim_cur (i2.[k]))); lia.
Qed.

Lemma rlimit_monotone_witness :
  let i := set_all rlimit_init_defaults ([(5, mk_rlimit 10 20)] ++ [(5, mk_rlimit 30 40)]) in
  rlim_max (i.[5]) <= 20.
Proof.
  apply (rlimit_monotone [(5, mk_rlimit 10 20)] [(5, mk_rlimit 30 40)] 5 0);
    [repeat constructor; cbn; lia|done|done].
Defined.

End Rlimit.
