(* ===== verification/Path.v ===== *)
(** * Path names (src/fs/path.c)

    [Module Path]: the textual operations (normalisation, parent, base name, join),
    the path of a directory entry, and the resolver that walks the entry tree
    with its mounts and symbolic links.

    A C string is the list of its bytes before the terminator; reading it one
    past the end gives 0.  An [outcome] is what a function that fills the buffer
    [out] of [out_size] bytes does: [Ok s] returns 0 with [s] and a terminator in
    the buffer, [Err] returns -1, [Fault] writes outside an array. *)

From S2P Require Import Prelude.

Module Path.

Definition PATH_MAX : Z := 4096.
Definition SLASH : Z := 47.
Definition DOT : Z := 46.

Inductive outcome := Fault | Err | Ok (s : list Z).

Definition is_slash (c : Z) : bool := c =? SLASH.
Definition not_slash (c : Z) : bool := negb (is_slash c).
Definition char_at (p : list Z) (i : nat) : Z := default 0 (p !! i).

(** The number of steps of a forward scan [while (f(path[i])) i++] over a string. *)
Fixpoint scan (f : Z -> bool) (l : list Z) : nat :=
  match l with
  | c :: l => if f c then S (scan f l) else 0%nat
  | [] => 0%nat
  end.

(** The backward scan [while (end >= 0 && f(path[end])) end--] with [n = end + 1]. *)
Fixpoint back (f : Z -> bool) (p : list Z) (n : nat) : nat :=
  match n with
  | O => O
  | S k => if f (char_at p k) then back f p k else n
  end.

(** ** Normalisation *)

(** The components found so far, the last one first, as (start, length). *)
Notation comps := (list (nat * nat)).

Inductive parse_result := POverflow | PFuel | PDone (cs : comps).

(** The scanning loop.  The two component arrays have [PATH_MAX / 2] cells. *)
Fixpoint parse (fuel : nat) (p : list Z) (i : nat) (cs : comps) : parse_result :=
  match fuel with
  | O => PFuel
  | S fuel =>
      let start := (i + scan is_slash (drop i p))%nat in
      if char_at p start =? 0 then PDone cs
      else
        let len := scan not_slash (drop start p) in
        let next := (start + len)%nat in
        if (Z.of_nat len =? 1) && (char_at p start =? DOT) then parse fuel p next cs
        else if (Z.of_nat len =? 2) && (char_at p start =? DOT) && (char_at p (S start) =? DOT) then
          parse fuel p next (tail cs)
        else if PATH_MAX / 2 <=? zlen cs then POverflow
        else parse fuel p next ((start, len) :: cs)
  end.

(** [if (o + 1 >= out_size) return -1; out[o++] = c;] *)
Definition put (out_size : Z) (out : option (list Z)) (c : Z) : option (list Z) :=
  match out with
  | Some o => if out_size <=? zlen o + 1 then None else Some (o ++ [c])
  | None => None
  end.

(** The output loop from component number [c] on; both branches of the separator
    test write a slash before every component but the first. *)
Fixpoint emit (out_size : Z) (p : list Z) (c : nat) (cs : comps) (out : option (list Z)) :
    option (list Z) :=
  match cs with
  | [] => out
  | (start, len) :: cs =>
      let out := if (0 <? Z.of_nat c) then put out_size out SLASH else out in
      emit out_size p (S c) cs (foldl (put out_size) out (take len (drop start p)))
  end.

(** [path = None] is the null pointer. *)
Definition path_normalize (path : option (list Z)) (out_size : Z) : outcome :=
  match path with
  | None => Err
  | Some p =>
      if out_size =? 0 then Err
      else
        let is_abs := is_slash (char_at p 0) in
        match parse (S (length p)) p (if is_abs then 1%nat else 0%nat) [] with
        | POverflow | PFuel => Fault
        | PDone cs =>
            match emit out_size p 0 (reverse cs) (Some (if is_abs then [SLASH] else [])) with
            | None => Err
            | Some o =>
                let o := if zlen o =? 0 then [DOT] else o in
                if out_size <=? zlen o then Fault else Ok o
            end
        end
  end.

(** ** Parent, base name, join *)

Definition root_result (out_size : Z) : outcome := if out_size <? 2 then Err else Ok [SLASH].

Definition path_parent (path : option (list Z)) (out_size : Z) : outcome :=
  match path with
  | None => Err
  | Some p =>
      if out_size =? 0 then Err
      else
        let e := back is_slash p (length p) in
        if Z.of_nat e =? 0 then root_result out_size
        else
          let e := back is_slash p (back not_slash p e) in
          if Z.of_nat e =? 0 then root_result out_size
          else if out_size <=? Z.of_nat e then Err
          else Ok (take e p)
  end.

Definition path_basename (path : option (list Z)) (out_size : Z) : outcome :=
  match path with
  | None => Err
  | Some p =>
      if out_size =? 0 then Err
      else
        let e := back is_slash p (length p) in
        if Z.of_nat e =? 0 then root_result out_size
        else
          let start := back not_slash p e in
          let baselen := (e - start)%nat in
          if out_size <=? Z.of_nat baselen then Err
          else Ok (take baselen (drop start p))
  end.

Definition path_join (dir name : option (list Z)) (out_size : Z) : outcome :=
  match dir, name with
  | Some d, Some n =>
      if out_size =? 0 then Err
      else
        let dlen := back is_slash d (length d) in
        let rest := drop (scan is_slash n) n in
        if out_size <? Z.of_nat dlen + 1 + zlen rest + 1 then Err
        else Ok (take dlen d ++ [SLASH] ++ rest)
  | _, _ => Err
  end.

(** ** The entry tree *)

(** [d_lookup] and [d_readlink] tell whether the inode has the operation. *)
Record inode := mk_inode { i_mode : Z; i_lookup : bool; i_readlink : bool }.
Record dentry := mk_dentry {
  d_name : list Z; d_parent : Z; d_child : Z; d_next : Z; d_inode : option inode; d_mount : Z }.

(** The entries by address, the two global pointers and the mount list as pairs of
    a mount point and the root of the mounted tree. *)
Record fs := mk_fs {
  dentries : gmap Z dentry; root_dentry : Z; cwd_dentry : Z; mount_list : list (Z * Z) }.

(** The names from an entry up to the root, as both loops of [dentry_path] see them;
    [None] is a pointer to no entry, or a chain longer than the fuel. *)
Fixpoint ancestors (fuel : nat) (s : fs) (p : Z) : option (list (list Z)) :=
  match fuel with
  | O => None
  | S fuel =>
      if (p =? NULL) || (p =? root_dentry s) then Some []
      else
        match dentries s !! p with
        | None => None
        | Some d => match ancestors fuel s (d_parent d) with
                    | Some l => Some (d_name d :: l)
                    | None => None
                    end
        end
  end.

(** [memcpy] into the buffer. *)
Definition copy_at (out : list Z) (pos : nat) (src : list Z) : list Z :=
  take pos out ++ src ++ drop (pos + length src) out.

(** The loop that fills the buffer backwards from [pos]. *)
Fixpoint fill (names : list (list Z)) (pos : nat) (out : list Z) : list Z :=
  match names with
  | [] => out
  | n :: rest =>
      let pos := (pos - length n)%nat in
      let out := copy_at out pos n in
      match rest with
      | [] => out
      | _ => fill rest (pos - 1) (copy_at out (pos - 1) [SLASH])
      end
  end.

(** The length counted by the first loop. *)
Definition path_len (names : list (list Z)) : nat :=
  foldr (fun n len => (length n + 1 + len)%nat) 1%nat names.

(** The result and the buffer [out], whose size is its length. *)
Definition dentry_path (fuel : nat) (s : fs) (d : Z) (out : list Z) : option (Z * list Z) :=
  if (d =? NULL) || (zlen out =? 0) then Some (-1, out)
  else if d =? root_dentry s then
    if zlen out <? 2 then Some (-1, out) else Some (0, copy_at out 0 [SLASH; 0])
  else
    match ancestors fuel s d with
    | None => None
    | Some names =>
        let len := path_len names in
        if zlen out <? Z.of_nat len then Some (-1, out)
        else Some (0, fill names (len - 1) (copy_at out (len - 1) [0]))
    end.

(** The string in a buffer: the bytes before the first zero. *)
Definition cstr (out : list Z) : list Z := take (scan (fun c => negb (c =? 0)) out) out.

(** ** The resolver *)

Definition SYMLINK_MAX_FOLLOW : Z := 8.
Definition CHILD_MAX_ITER : nat := 512.
Definition FILE_MODE_LNK : Z := 32.
Definition KERNEL_BASE : Z := 3221225472. (* 0xC0000000 *)

(** The search of the sibling list; [None] is a pointer to no entry, [Some NULL] not
    found. *)
Fixpoint find_child (n : nat) (s : fs) (component : list Z) (child : Z) : option Z :=
  match n with
  | O => Some NULL
  | S n =>
      if child =? NULL then Some NULL
      else if child <? KERNEL_BASE then Some NULL
      else
        match dentries s !! child with
        | None => None
        | Some c =>
            if (zlen component =? 0) || negb (char_at (d_name c) 0 =? char_at component 0) then
              find_child n s component (d_next c)
            else if bool_decide (d_name c = component) then Some child
            else find_child n s component (d_next c)
        end
  end.

(** The entry that stands for [cur]: the root of the tree mounted on it. *)
Definition cross_mount (s : fs) (cur : Z) : option Z :=
  match dentries s !! cur with
  | None => None
  | Some d =>
      if d_mount d =? 0 then Some cur
      else match List.find (fun m => m.1 =? cur) (mount_list s) with
           | Some m => Some m.2
           | None => Some cur
           end
  end.

(** [WLink found d rest]: the walk met the link [found] with [rest] still to go. *)
Inductive walk_result :=
  | WFault | WFuel | WErr (s : fs) | WDone (cur : Z) (s : fs)
  | WLink (found : Z) (d : dentry) (rest : list Z) (s : fs).
Inductive resolve_result := RFault | RFuel | RErr (s : fs) | ROk (d : Z) (s : fs).

Definition is_link (d : dentry) : bool :=
  match d_inode d with Some i => c_true (Z.land (i_mode i) FILE_MODE_LNK) | None => false end.

Section Resolver.

(** The operations of the mounted file systems: [lookup] may add entries to the tree,
    [readlink] gives the target or a negative result. [junk] is what the
    uninitialised buffer [parent_path] holds. [dfuel] bounds the depth of the tree. *)
Context (lookup : Z -> list Z -> fs -> Z * fs) (readlink : Z -> fs -> option (list Z)).
Context (junk : list Z) (dfuel : nat).

(** One component: the mount, the children, the file system. *)
Definition step_component (s : fs) (cur : Z) (component : list Z) : option (Z * fs) :=
  match cross_mount s cur with
  | None => None
  | Some cur =>
      match dentries s !! cur with
      | None => None
      | Some c =>
          match find_child CHILD_MAX_ITER s component (d_child c) with
          | None => None
          | Some found =>
              if negb (found =? NULL) then Some (found, s)
              else match d_inode c with
                   | Some i => if i_lookup i then Some (lookup cur component s) else Some (NULL, s)
                   | None => Some (NULL, s)
                   end
          end
      end
  end.

(** The component loop. *)
Fixpoint walk (fuel : nat) (s : fs) (work : list Z) (i : nat) (cur : Z) (follow_last : bool) :
    walk_result :=
  match fuel with
  | O => WFuel
  | S fuel =>
      let start := (i + scan is_slash (drop i work))%nat in
      if char_at work start =? 0 then WDone cur s
      else
        let len := scan not_slash (drop start work) in
        let next := (start + len)%nat in
        if 256 <=? Z.of_nat len then WErr s
        else
          match step_component s cur (take len (drop start work)) with
          | None => WFault
          | Some (found, s) =>
              if found =? NULL then WErr s
              else
                match dentries s !! found with
                | None => WFault
                | Some d =>
                    if is_link d then
                      if (char_at work next =? 0) && negb follow_last then WDone found s
                      else WLink found d (take (Z.to_nat (PATH_MAX - 1)) (drop next work)) s
                    else walk fuel s work next found follow_last
                end
          end
  end.

(** The path to go on with after a link: the target, behind the path of the link's
    directory when it is relative, and the rest. *)
Definition link_path (s : fs) (d : dentry) (target rest : list Z) : option outcome :=
  if is_slash (char_at target 0) then Some (path_join (Some target) (Some rest) PATH_MAX)
  else
    let parent := if d_parent d =? NULL then root_dentry s else d_parent d in
    match dentry_path dfuel s parent junk with
    | None => None
    | Some (r, parent_path) =>
        if negb (r =? 0) then Some Err
        else
          match path_join (Some (cstr parent_path)) (Some target) PATH_MAX with
          | Ok combined => if 0 <? zlen rest then Some (path_join (Some combined) (Some rest) PATH_MAX)
                           else Some (Ok combined)
          | e => Some e
          end
    end.

(** The [restart] loop. *)
Fixpoint restart (fuel : nat) (depth : Z) (s : fs) (work : list Z) (follow_last : bool) :
    resolve_result :=
  match fuel with
  | O => RFuel
  | S fuel =>
      if SYMLINK_MAX_FOLLOW <? depth then RErr s
      else
        let '(cur, i) :=
          if is_slash (char_at work 0) then (root_dentry s, 1%nat)
          else (if cwd_dentry s =? NULL then root_dentry s else cwd_dentry s, 0%nat) in
        match walk (S (length work)) s work i cur follow_last with
        | WFault => RFault
        | WFuel => RFuel
        | WErr s => RErr s
        | WDone cur s => match cross_mount s cur with Some d => ROk d s | None => RFault end
        | WLink found d rest s =>
            if SYMLINK_MAX_FOLLOW <=? depth then RErr s
            else if negb (match d_inode d with Some i => i_readlink i | None => false end) then RErr s
            else
              match readlink found s with
              | None => RErr s
              | Some target =>
                  match link_path s d target rest with
                  | None | Some Fault => RFault
                  | Some Err => RErr s
                  | Some (Ok combined) =>
                      match path_normalize (Some combined) PATH_MAX with
                      | Fault => RFault
                      | Err => RErr s
                      | Ok work => restart fuel (depth + 1) s work follow_last
                      end
                  end
              end
        end
  end.

Definition path_resolve_internal (s : fs) (path : option (list Z)) (follow_last : bool) :
    resolve_result :=
  match path_normalize path PATH_MAX with
  | Fault => RFault
  | Err => RErr s
  | Ok work => restart 10 0 s work follow_last
  end.

Definition path_resolve (s : fs) (path : option (list Z)) : resolve_result :=
  path_resolve_internal s path true.
Definition path_resolve_nofollow (s : fs) (path : option (list Z)) : resolve_result :=
  path_resolve_internal s path false.

End Resolver.

(** ** Reference definitions *)

(** The pieces between slashes. *)
Fixpoint split (l : list Z) : list (list Z) :=
  match l with
  | [] => [[]]
  | c :: l =>
      if is_slash c then [] :: split l
      else match split l with h :: t => (c :: h) :: t | [] => [[c]] end
  end.

(** What one piece does to the stack of components. *)
Definition piece (st : list (list Z)) (c : list Z) : list (list Z) :=
  if bool_decide (c = [] \/ c = [DOT]) then st
  else if bool_decide (c = [DOT; DOT]) then tail st
  else c :: st.

Definition resolve (p : list Z) : list (list Z) := reverse (foldl piece [] (split p)).

Fixpoint intercalate (cs : list (list Z)) : list Z :=
  match cs with
  | [] => []
  | [c] => c
  | c :: cs => c ++ SLASH :: intercalate cs
  end.

(** The normal form of a path. *)
Definition render (is_abs : bool) (cs : list (list Z)) : list Z :=
  match (if is_abs then [SLASH] else []) ++ intercalate cs with [] => [DOT] | s => s end.
Definition normal (p : list Z) : list Z := render (is_slash (char_at p 0)) (resolve p).

(** A C string has no zero byte. *)
Definition cstring (p : list Z) : Prop := Forall (fun c => c <> 0) p.

Example normalize_ex :
  path_normalize (Some [47; 97; 47; 47; 46; 47; 98; 47; 46; 46; 47; 99]) 16 = Ok [47; 97; 47; 99].
Proof. reflexivity. Qed.

(** ** Scans and pieces *)

Lemma scan_Forall f l : Forall (fun c => f c = true) (take (scan f l) l).
Proof. induction l as [|c l IH]; cbn; [done|]. destruct (f c) eqn:E; cbn; by constructor. Qed.

Lemma scan_stop f l : match drop (scan f l) l with [] => True | c :: _ => f c = false end.
Proof. induction l as [|c l IH]; cbn; [done|]. destruct (f c) eqn:E; cbn; done. Qed.

Lemma scan_length f l : (scan f l <= length l)%nat.
Proof. induction l as [|c l IH]; cbn; [lia|]. destruct (f c); lia. Qed.

Section split_fold.
Context {S : Type} (g : S -> list Z -> S) (g_nil : forall s, g s [] = s).

Lemma split_slashes (l k : list Z) (s : S) :
  Forall (fun c => is_slash c = true) l -> foldl g s (split (l ++ k)) = foldl g s (split k).
Proof using g_nil.
  revert s. induction l as [|c l IH]; intros s Hl; [done|]. apply Forall_cons in Hl as [Hc Hl].
  cbn [app split]. rewrite Hc. cbn [foldl]. rewrite g_nil. by apply IH.
Qed.

Lemma split_app_slash (l k : list Z) :
  Forall (fun c => not_slash c = true) l -> split (l ++ SLASH :: k) = l :: split k.
Proof.
  induction l as [|c l IH]; intros Hl; [done|]. apply Forall_cons in Hl as [Hc Hl].
  cbn [app split]. unfold not_slash in Hc. destruct (is_slash c); [done|]. by rewrite IH.
Qed.

Lemma split_plain (l : list Z) : Forall (fun c => not_slash c = true) l -> split l = [l].
Proof.
  induction l as [|c l IH]; intros Hl; [done|]. apply Forall_cons in Hl as [Hc Hl].
  cbn [split]. unfold not_slash in Hc. destruct (is_slash c); [done|]. by rewrite IH.
Qed.

Lemma split_piece (l k : list Z) (s : S) :
  Forall (fun c => not_slash c = true) l ->
  match k with [] => True | c :: _ => not_slash c = false end ->
  foldl g s (split (l ++ k)) = foldl g (g s l) (split k).
Proof using g_nil.
  intros Hl Hk. destruct k as [|c k].
  - rewrite app_nil_r, split_plain by done. cbn. by rewrite g_nil.
  - unfold not_slash, is_slash in Hk. apply negb_false_iff, Z.eqb_eq in Hk as ->.
    rewrite split_app_slash by done. cbn [foldl split is_slash Z.eqb SLASH]. cbn. by rewrite g_nil.
Qed.
End split_fold.

(** [piece] with the size of the component arrays. *)
Definition bpiece (st : option (list (list Z))) (c : list Z) : option (list (list Z)) :=
  match st with
  | None => None
  | Some s =>
      if bool_decide (c = [] \/ c = [DOT]) then Some s
      else if bool_decide (c = [DOT; DOT]) then Some (tail s)
      else if PATH_MAX / 2 <=? zlen s then None else Some (c :: s)
  end.

Lemma bpiece_None (cs : list (list Z)) : foldl bpiece None cs = None.
Proof. by induction cs. Qed.

Definition sub (p : list Z) (c : nat * nat) : list Z := take c.2 (drop c.1 p).

Lemma char_at_drop p i j : char_at (drop i p) j = char_at p (i + j).
Proof. unfold char_at. by rewrite lookup_drop. Qed.

Lemma fmap_tail {A B} (f : A -> B) (l : list A) : f <$> tail l = tail (f <$> l).
Proof. by destruct l. Qed.

(** The tests on a component of length [len] at the head of [d]. *)
Lemma dot_test (d : list Z) (len : nat) :
  (0 < len <= length d)%nat ->
  (Z.of_nat len =? 1) && (char_at d 0 =? DOT) = bool_decide (take len d = [] \/ take len d = [DOT]) /\
  (Z.of_nat len =? 2) && (char_at d 0 =? DOT) && (char_at d 1 =? DOT) =
    bool_decide (take len d = [DOT; DOT]).
Proof.
  assert (forall (b : bool) (P : Prop) `{!Decision P}, (b = true <-> P) -> b = bool_decide P) as Hbd.
  { intros b P ? H. destruct b; symmetry; [apply bool_decide_eq_true|apply bool_decide_eq_false]; naive_solver. }
  intros Hl. split; apply Hbd; rewrite !andb_true_iff, !Z.eqb_eq; unfold char_at;
    destruct len as [|[|[|n]]], d as [|a [|b [|c d]]]; cbn [length] in Hl; try lia;
    cbn [take lookup list_lookup default]; naive_solver lia.
Qed.

(** The scanning loop returns within [length p + 1] rounds and computes the fold. *)
Lemma parse_spec (fuel : nat) (p : list Z) (i : nat) (cs : comps) :
  cstring p -> (length (drop i p) < fuel)%nat ->
  match parse fuel p i cs with
  | PFuel => False
  | POverflow => foldl bpiece (Some (sub p <$> cs)) (split (drop i p)) = None
  | PDone cs' => foldl bpiece (Some (sub p <$> cs)) (split (drop i p)) = Some (sub p <$> cs')
  end.
Proof.
  intros Hp. revert i cs. induction fuel as [|fuel IH]; intros i cs Hf; [lia|]. cbn [parse].
  assert (forall s, bpiece s [] = s) as Hnil by (intros []; done).
  set (start := (i + scan is_slash (drop i p))%nat).
  assert (forall s, foldl bpiece s (split (drop i p)) = foldl bpiece s (split (drop start p))) as ->.
  { intros s. rewrite <-(take_drop (scan is_slash (drop i p)) (drop i p)) at 1.
    rewrite split_slashes by (done || apply scan_Forall). by rewrite drop_drop. }
  assert (length (drop start p) <= length (drop i p))%nat as Hle.
  { rewrite !length_drop. unfold start. lia. }
  pose proof (scan_stop is_slash (drop i p)) as Hstop. rewrite drop_drop in Hstop. fold start in Hstop.
  assert (Forall (fun c => c <> 0) (drop start p)) as Hd by by apply Forall_drop.
  clearbody start. replace (char_at p start) with (char_at (drop start p) 0)
    by (by rewrite char_at_drop, Nat.add_0_r).
  replace (char_at p (S start)) with (char_at (drop start p) 1)
    by (rewrite char_at_drop; f_equal; lia).
  set (len := scan not_slash (drop start p)).
  destruct (Z.eqb_spec (char_at (drop start p) 0) 0) as [E|E].
  { destruct (drop start p) as [|c d]; [done|]. cbn in E. by inversion Hd. }
  pose proof (scan_length not_slash (drop start p)) as Hlen. fold len in Hlen.
  assert (0 < len)%nat as Hpos.
  { unfold len. destruct (drop start p) as [|c d]; [done|]. cbn. unfold not_slash. rewrite Hstop. cbn. lia. }
  assert (forall s, foldl bpiece s (split (drop start p)) =
    foldl bpiece (bpiece s (sub p (start, len))) (split (drop (start + len) p))) as ->.
  { intros s. rewrite <-(take_drop len (drop start p)) at 1. unfold len.
    rewrite split_piece by (done || apply scan_Forall || apply scan_stop). by rewrite drop_drop. }
  assert (length (drop (start + len) p) < fuel)%nat as Hf' by (rewrite !length_drop in *; lia).
  destruct (dot_test (drop start p) len) as [-> ->]; [lia|]. cbn [bpiece].
  change (take len (drop start p)) with (sub p (start, len)).
  destruct (bool_decide _); [by apply IH|]. destruct (bool_decide _).
  { rewrite <-fmap_tail. by apply IH. }
  unfold zlen. rewrite length_fmap. destruct (_ <=? _); [|by apply (IH _ ((start, len) :: cs))].
  apply bpiece_None.
Qed.

(** ** The output loop *)

Lemma put_foldl (sz : Z) (l o : list Z) :
  foldl (put sz) (Some o) l = if bool_decide (l = [] \/ zlen o + zlen l < sz) then Some (o ++ l) else None.
Proof.
  assert (forall k, foldl (put sz) None k = None) as HN by (induction k; done).
  revert o. induction l as [|c l IH]; intros o; [by rewrite app_nil_r|]. cbn [foldl put].
  destruct (Z.leb_spec sz (zlen o + 1)).
  - rewrite HN. rewrite bool_decide_eq_false_2; [done|]. intros [?|Hlt]; [done|].
    rewrite zlen_cons in Hlt. pose proof (zlen_nonneg l). lia.
  - rewrite IH, <-app_assoc. rewrite zlen_app, !zlen_cons, zlen_nil.
    destruct l as [|c' l].
    + rewrite !bool_decide_eq_true_2; [done|right; rewrite zlen_nil; lia|by left].
    + rewrite (bool_decide_ext _ (c :: c' :: l = [] \/ zlen o + (1 + zlen (c' :: l)) < sz)); [done|].
      split; (intros [?|?]; [done|right; lia]).
Qed.

(** The components from the second one on, each with its separator. *)
Definition seps (cs : list (list Z)) : list Z := concat (cons SLASH <$> cs).

Lemma intercalate_cons c cs : intercalate (c :: cs) = c ++ seps cs.
Proof.
  revert c. induction cs as [|c' cs IH]; intros c; [by rewrite app_nil_r|].
  cbn [intercalate]. f_equal. change (seps (c' :: cs)) with (SLASH :: (c' ++ seps cs)). f_equal. apply IH.
Qed.

Lemma emit_S (sz : Z) (p : list Z) (c : nat) (cs : comps) (out : option (list Z)) :
  emit sz p (S c) cs out = foldl (put sz) out (seps (sub p <$> cs)).
Proof.
  revert c out. induction cs as [|[st len] cs IH]; intros c out; [done|]. cbn [emit].
  destruct (Z.ltb_spec 0 (Z.of_nat (S c))); [|lia]. rewrite IH.
  rewrite fmap_cons. unfold seps at 2. rewrite fmap_cons. cbn [concat].
  fold (seps (sub p <$> cs)). cbn [app foldl]. by rewrite foldl_app.
Qed.

Lemma emit_0 (sz : Z) (p : list Z) (cs : comps) (out : option (list Z)) :
  emit sz p 0 cs out = foldl (put sz) out (intercalate (sub p <$> cs)).
Proof.
  destruct cs as [|[st len] cs]; [done|]. cbn [emit]. destruct (Z.ltb_spec 0 (Z.of_nat 0)); [lia|].
  by rewrite emit_S, fmap_cons, intercalate_cons, foldl_app.
Qed.

(** ** The normal form *)

(** A component that stays: not empty, not a dot name, without a slash. *)
Definition proper (c : list Z) : Prop :=
  c <> [] /\ c <> [DOT] /\ c <> [DOT; DOT] /\ Forall (fun x => not_slash x = true) c.

Lemma split_noslash (l : list Z) : Forall (Forall (fun x => not_slash x = true)) (split l).
Proof.
  induction l as [|c l IH]; cbn [split]; [by repeat constructor|].
  destruct (is_slash c) eqn:E; [by constructor|].
  assert (not_slash c = true) as Hc by (unfold not_slash; by rewrite E).
  destruct (split l) as [|h t]; [by repeat constructor|]. inversion IH; subst. by repeat constructor.
Qed.

Lemma pieces_proper (cs st : list (list Z)) :
  Forall proper st -> Forall (Forall (fun x => not_slash x = true)) cs -> Forall proper (foldl piece st cs).
Proof.
  revert st. induction cs as [|c cs IH]; intros st Hst Hcs; [done|].
  apply Forall_cons in Hcs as [Hc Hcs]. cbn [foldl]. apply IH; [|done]. unfold piece.
  case_bool_decide as H1; [done|]. case_bool_decide; [by destruct st; inversion Hst|].
  constructor; [|done]. unfold proper. naive_solver.
Qed.

Lemma resolve_proper (p : list Z) : Forall proper (resolve p).
Proof. apply Forall_reverse, pieces_proper; [done|apply split_noslash]. Qed.

(** The pieces of a path of [n] bytes hold at most [(n + 1) / 2] non-empty ones. *)
Lemma split_count (l : list Z) :
  (2 * length (filter (fun c => c <> []) (split l)) <= length l + 1)%nat /\
  match split l with
  | [] => False
  | [] :: _ => (2 * length (filter (fun c => c <> []) (split l)) <= length l)%nat
  | _ => True
  end.
Proof.
  induction l as [|c l [IH1 IH2]]; [split; by vm_compute; repeat constructor|]. cbn [split].
  destruct (is_slash c); [by rewrite filter_cons_False by auto; cbn; lia|].
  destruct (split l) as [|[|a h] t]; [done| |].
  - rewrite filter_cons_False in IH1, IH2 by auto. rewrite filter_cons_True by done. cbn in *. lia.
  - rewrite filter_cons_True in IH1 by done. rewrite filter_cons_True by done. cbn in *. lia.
Qed.

Lemma bpiece_piece (cs st : list (list Z)) :
  (length st + length (filter (fun c => c <> []) cs) <= 2048)%nat ->
  foldl bpiece (Some st) cs = Some (foldl piece st cs).
Proof.
  revert st. induction cs as [|c cs IH]; intros st Hl; [done|]. cbn [foldl].
  assert (bpiece (Some st) c = Some (piece st c) /\
    (length (piece st c) <= length st + if decide (c <> []) then 1 else 0)%nat) as [-> Hle].
  { rewrite filter_cons in Hl. unfold bpiece, piece. case_bool_decide; [split; [done|lia]|].
    case_bool_decide; [split; [done|destruct st; cbn; lia]|].
    rewrite decide_True in Hl by naive_solver. rewrite decide_True by naive_solver. cbn [length] in *.
    destruct (Z.leb_spec (PATH_MAX / 2) (zlen st)) as [Hb|]; [|split; [done|lia]].
    unfold zlen in Hb. change (PATH_MAX / 2) with 2048 in Hb. lia. }
  apply IH. rewrite filter_cons in Hl. destruct (decide (c <> [])); cbn [length] in *; lia.
Qed.

Lemma intercalate_nil (cs : list (list Z)) : Forall proper cs -> intercalate cs = [] -> cs = [].
Proof.
  destruct cs as [|c cs]; [done|]. rewrite intercalate_cons. intros Hf H%app_nil. exfalso.
  apply Forall_cons in Hf as [[Hc _] _]. naive_solver.
Qed.

Lemma render_cons (a : bool) (cs : list (list Z)) :
  Forall proper cs -> cs <> [] -> render a cs = (if a then [SLASH] else []) ++ intercalate cs.
Proof.
  intros Hf Hne. unfold render. destruct a; [done|]. cbn [app].
  destruct (intercalate cs) eqn:E; [|done]. by apply intercalate_nil in E.
Qed.

Lemma split_fold_abs (p : list Z) :
  foldl piece [] (split (drop (if is_slash (char_at p 0) then 1 else 0)%nat p)) = foldl piece [] (split p).
Proof.
  destruct p as [|c p]; [by cbn|]. change (char_at (c :: p) 0) with c.
  destruct (is_slash c) eqn:E; [|done]. cbn [drop split]. by rewrite E.
Qed.

Lemma normalize_eq (p : list Z) (out_size : Z) :
  cstring p -> zlen p < PATH_MAX -> 0 < out_size ->
  path_normalize (Some p) out_size =
    if zlen (normal p) <? out_size then Ok (normal p)
    else if bool_decide (resolve p = []) then Fault else Err.
Proof.
  intros Hp Hlen Hsz. unfold path_normalize. destruct (Z.eqb_spec out_size 0); [lia|].
  set (a := is_slash (char_at p 0)).
  pose proof (parse_spec (S (length p)) p (if a then 1%nat else 0%nat) [] Hp) as Hparse.
  assert (foldl bpiece (Some []) (split (drop (if a then 1 else 0)%nat p)) = Some (reverse (resolve p))) as Hb.
  { destruct (split_count (drop (if a then 1 else 0)%nat p)) as [Hcount _].
    rewrite bpiece_piece; [|rewrite length_drop in Hcount; unfold zlen, PATH_MAX in Hlen; cbn [length]; lia].
    unfold resolve. rewrite reverse_involutive. f_equal. apply split_fold_abs. }
  change (sub p <$> []) with (@nil (list Z)) in Hparse. rewrite Hb in Hparse.
  destruct (parse _ _ _ _) as [| |cs]; [|exfalso|].
  { discriminate Hparse. rewrite length_drop. lia. }
  { apply Hparse. rewrite length_drop. lia. }
  assert (sub p <$> reverse cs = resolve p) as Hcs.
  { rewrite fmap_reverse. rewrite <-(reverse_involutive (resolve p)). f_equal.
    symmetry. apply Some_inj, Hparse. rewrite length_drop. lia. }
  rewrite emit_0, Hcs, put_foldl. unfold normal. fold a.
  pose proof (intercalate_nil _ (resolve_proper p)) as Hnil.
  set (o := (if a then [SLASH] else []) : list Z).
  assert (zlen o = if a then 1 else 0) as Ho by (unfold o; by destruct a).
  destruct (decide (resolve p = [])) as [E|E].
  - rewrite E. cbn [intercalate]. rewrite !bool_decide_eq_true_2 by auto. rewrite app_nil_r.
    assert ((if zlen o =? 0 then [DOT] else o) = if a then [SLASH] else [DOT]) as -> by (unfold o; by destruct a).
    assert (render a [] = if a then [SLASH] else [DOT]) as -> by (by destruct a).
    assert (zlen (if a then [SLASH] else [DOT]) = 1) as -> by (by destruct a).
    destruct (Z.leb_spec out_size 1), (Z.ltb_spec 1 out_size); (done || lia).
  - assert (intercalate (resolve p) <> []) as Hne by naive_solver.
    assert (0 < zlen (intercalate (resolve p))) as Hpos.
    { destruct (intercalate _) as [|x l]; [done|]. rewrite zlen_cons. pose proof (zlen_nonneg l). lia. }
    rewrite render_cons by (done || apply resolve_proper). fold o.
    rewrite (bool_decide_eq_false_2 (resolve p = [])) by done. rewrite zlen_app.
    destruct (Z.ltb_spec (zlen o + zlen (intercalate (resolve p))) out_size).
    + rewrite bool_decide_eq_true_2 by (right; lia). rewrite zlen_app.
      destruct (Z.eqb_spec (zlen o + zlen (intercalate (resolve p))) 0); [destruct a; lia|].
      rewrite zlen_app. destruct (Z.leb_spec out_size (zlen o + zlen (intercalate (resolve p)))); [lia|done].
    + rewrite bool_decide_eq_false_2; [done|]. intros [?|?]; [done|lia].
Qed.

(** C34: on every path shorter than [PATH_MAX] and every non-empty buffer,
    [path_normalize] returns within its loop bounds and computes the reference
    normal form (the pieces between slashes, empty and dot names dropped, a
    double dot taking the previous component away): it writes it when it fits
    with its terminator, reports an error when it does not, and overruns a buffer
    of one byte when no component is left. *)
Theorem path_normalize_spec (p : list Z) (out_size : Z) :
  cstring p -> zlen p < PATH_MAX -> 0 < out_size ->
  path_normalize (Some p) out_size =
    if zlen (normal p) <? out_size then Ok (normal p)
    else if bool_decide (resolve p = []) then Fault else Err.
Proof. apply normalize_eq. Qed.

Lemma path_normalize_spec_witness :
  path_normalize (Some [47; 97; 47; 46; 46; 47; 98]) 16 = Ok [47; 98].
Proof. apply (path_normalize_spec [47; 97; 47; 46; 46; 47; 98] 16); [repeat constructor; lia|done|done]. Defined.

(** ** Normal paths *)

Lemma split_intercalate (cs : list (list Z)) :
  Forall proper cs -> cs <> [] -> split (intercalate cs) = cs.
Proof.
  induction cs as [|c cs IH]; [done|]. intros Hf _. apply Forall_cons in Hf as [(_ & _ & _ & Hc) Hf].
  destruct cs as [|c' cs]; [by apply split_plain|]. cbn [intercalate] in *.
  rewrite split_app_slash by done. f_equal. by apply IH.
Qed.

Lemma pieces_id (cs st : list (list Z)) : Forall proper cs -> foldl piece st cs = reverse cs ++ st.
Proof.
  revert st. induction cs as [|c cs IH]; intros st Hf; [done|].
  apply Forall_cons in Hf as [(H1 & H2 & H3 & _) Hf]. cbn [foldl]. rewrite IH by done.
  unfold piece. rewrite !bool_decide_eq_false_2 by naive_solver. by rewrite reverse_cons, <-app_assoc.
Qed.

Lemma render_resolve (a : bool) (cs : list (list Z)) :
  Forall proper cs -> resolve (render a cs) = cs /\ is_slash (char_at (render a cs) 0) = a.
Proof.
  intros Hf. unfold resolve, render. destruct (decide (cs = [])) as [->|Hne]; [by destruct a|].
  assert (intercalate cs <> []) as Hi by (intros H; by apply Hne, intercalate_nil).
  assert (foldl piece [] (split (intercalate cs)) = reverse cs) as Hs.
  { rewrite split_intercalate, pieces_id by done. apply app_nil_r. }
  destruct a; cbn [app].
  - split; [|done]. change (split (SLASH :: intercalate cs)) with ([] :: split (intercalate cs)).
    cbn [foldl]. change (piece [] []) with (@nil (list Z)). rewrite Hs. apply reverse_involutive.
  - destruct (intercalate cs) as [|x l] eqn:E; [done|]. rewrite <-E in *. split; [by rewrite Hs, reverse_involutive|].
    destruct cs as [|c cs]; [done|]. rewrite intercalate_cons. apply Forall_cons in Hf as [(Hc & _ & _ & Hsl) _].
    destruct c as [|y c]; [done|]. apply Forall_cons in Hsl as [Hy _]. unfold not_slash in Hy.
    change (is_slash y = false). by destruct (is_slash y).
Qed.

Lemma split_all (P : Z -> Prop) (l : list Z) : Forall P l -> Forall (Forall P) (split l).
Proof.
  induction l as [|c l IH]; cbn [split]; [by repeat constructor|]. intros [Hc Hl]%Forall_cons.
  destruct (is_slash c); [constructor; auto|]. specialize (IH Hl).
  destruct (split l) as [|h t]; [by repeat constructor|]. inversion IH; subst. by repeat constructor.
Qed.

Lemma pieces_all (P : list Z -> Prop) (cs st : list (list Z)) :
  Forall P st -> Forall P cs -> Forall P (foldl piece st cs).
Proof.
  revert st. induction cs as [|c cs IH]; intros st Hst Hcs; [done|].
  apply Forall_cons in Hcs as [Hc Hcs]. cbn [foldl]. apply IH; [|done]. unfold piece.
  case_bool_decide; [done|]. case_bool_decide; [by destruct st; inversion Hst|by constructor].
Qed.

Lemma normal_cstring (p : list Z) : cstring p -> cstring (normal p).
Proof.
  intros Hp. assert (Forall cstring (resolve p)) as Hr.
  { apply Forall_reverse, pieces_all; [done|]. by apply split_all. }
  assert (cstring (intercalate (resolve p))) as Hi.
  { unfold cstring in *. induction (resolve p) as [|c cs IH]; [done|]. apply Forall_cons in Hr as [Hc Hcs].
    cbn [intercalate]. destruct cs; [done|]. apply Forall_app. split; [done|].
    constructor; [done|]. by apply IH. }
  unfold normal, render. destruct (is_slash _); cbn [app]; [by constructor|].
  destruct (intercalate _); [by repeat constructor|done].
Qed.

(** C35: a path that [path_normalize] produced is made of proper components only
    (no empty, dot or double-dot name), and normalising it again into a buffer
    of the same size succeeds and changes nothing. *)
Theorem path_normalize_idempotent (p q : list Z) (out_size : Z) :
  cstring p -> zlen p < PATH_MAX -> 0 < out_size <= PATH_MAX ->
  path_normalize (Some p) out_size = Ok q ->
  Forall proper (resolve q) /\ q = render (is_slash (char_at p 0)) (resolve q) /\
  path_normalize (Some q) out_size = Ok q.
Proof.
  intros Hp Hlen Hsz. rewrite (normalize_eq p) by (done || lia).
  destruct (Z.ltb_spec (zlen (normal p)) out_size); [|by case_bool_decide]. intros [= <-].
  destruct (render_resolve (is_slash (char_at p 0)) (resolve p) (resolve_proper p)) as [Hr Ha].
  fold (normal p) in Hr, Ha. rewrite Hr. split_and!; [apply resolve_proper|done|].
  assert (normal (normal p) = normal p) as Hnn by (unfold normal at 1; by rewrite Hr, Ha).
  rewrite (normalize_eq (normal p)), Hnn; [|by apply normal_cstring|lia|lia].
  by destruct (Z.ltb_spec (zlen (normal p)) out_size); [|lia].
Qed.

Lemma path_normalize_idempotent_witness :
  path_normalize (Some [97; 47; 98]) 16 = Ok [97; 47; 98].
Proof.
  apply (path_normalize_idempotent [97; 47; 47; 46; 47; 98] [97; 47; 98] 16);
    [repeat constructor; lia|done|done|reflexivity].
Defined.

(** More components than the arrays hold: the write leaves them. *)
Lemma normalize_overflows (n : nat) (out_size : Z) :
  2048 < Z.of_nat n -> 0 < out_size ->
  path_normalize (Some (concat (replicate n [97; SLASH]))) out_size = Fault.
Proof.
  intros Hn Hsz. set (p := concat (replicate n [97; SLASH])).
  assert (cstring p) as Hp.
  { unfold p, cstring. clear. induction n; cbn; [done|]. by repeat constructor. }
  assert (is_slash (char_at p 0) = false) as Ha by (unfold p; destruct n; [lia|done]).
  unfold path_normalize. destruct (Z.eqb_spec out_size 0); [lia|]. rewrite Ha.
  pose proof (parse_spec (S (length p)) p 0 [] Hp ltac:(rewrite drop_0; lia)) as Hparse.
  destruct (parse _ _ _ _) as [| |cs]; [done|done|]. exfalso. rewrite drop_0 in Hparse.
  change (sub p <$> []) with (@nil (list Z)) in Hparse.
  assert (forall m st, 2048 < zlen st + Z.of_nat m -> zlen st <= 2048 ->
    foldl bpiece (Some st) (split (concat (replicate m [97; SLASH]))) = None) as Hov.
  { induction m as [|m IH]; intros st Hst Hle; [lia|]. cbn [replicate concat].
    change ([97; SLASH] ++ ?l) with ([97] ++ SLASH :: l). rewrite split_app_slash by (by repeat constructor).
    cbn [foldl bpiece]. rewrite !bool_decide_eq_false_2 by naive_solver.
    change (PATH_MAX / 2) with 2048. destruct (Z.leb_spec 2048 (zlen st)).
    - apply bpiece_None.
    - apply IH; rewrite zlen_cons; lia. }
  assert (foldl bpiece (Some []) (split p) = None) as Hnone by (apply Hov; rewrite zlen_nil; lia).
  by rewrite Hnone in Hparse.
Qed.

(** ** Parent and base name of a joined path *)

Lemma back_unique (f : Z -> bool) (p : list Z) (n e : nat) :
  (e <= n)%nat -> (forall i, (e <= i < n)%nat -> f (char_at p i) = true) ->
  (e = 0%nat \/ f (char_at p (e - 1)) = false) -> back f p n = e.
Proof.
  intros He Hf Hs. induction n as [|n IH]; [cbn; lia|]. cbn [back].
  destruct (decide (e = S n)) as [->|Hne].
  - destruct Hs as [?|Hs]; [lia|]. by rewrite Nat.sub_succ, Nat.sub_0_r in Hs; rewrite Hs.
  - rewrite Hf by lia. apply IH; [lia|]. intros i Hi. apply Hf. lia.
Qed.

Lemma back_spec (f : Z -> bool) (p : list Z) (n : nat) :
  let e := back f p n in
  (e <= n)%nat /\ (forall i, (e <= i < n)%nat -> f (char_at p i) = true) /\
  (e = 0%nat \/ f (char_at p (e - 1)) = false).
Proof.
  cbn zeta. induction n as [|n (IH1 & IH2 & IH3)]; cbn [back]; [split_and!; [lia|lia|auto]|].
  destruct (f (char_at p n)) eqn:E.
  - split_and!; [lia| |done]. intros i Hi. destruct (decide (i = n)) as [->|]; [done|]. apply IH2. lia.
  - split_and!; [lia|lia|]. right. by rewrite Nat.sub_succ, Nat.sub_0_r.
Qed.

Lemma char_at_app_l l k i : (i < length l)%nat -> char_at (l ++ k) i = char_at l i.
Proof. intros. unfold char_at. by rewrite lookup_app_l. Qed.

Lemma char_at_app_r l k i : (length l <= i)%nat -> char_at (l ++ k) i = char_at k (i - length l).
Proof. intros. unfold char_at. by rewrite lookup_app_r. Qed.

Lemma char_at_Forall (f : Z -> bool) (l : list Z) (i : nat) :
  Forall (fun c => f c = true) l -> (i < length l)%nat -> f (char_at l i) = true.
Proof.
  intros Hf Hi. apply lookup_lt_is_Some in Hi as [c Hc]. unfold char_at. rewrite Hc. cbn.
  by eapply Forall_lookup in Hf.
Qed.

(** A string without its trailing slashes. *)
Lemma trim_spec (dir : list Z) :
  let n := back is_slash dir (length dir) in
  (n <= length dir)%nat /\ dir = take n dir ++ replicate (length dir - n) SLASH /\
  last (take n dir) <> Some SLASH.
Proof.
  cbn zeta. destruct (back_spec is_slash dir (length dir)) as (Hle & Htrail & Hlast).
  set (n := back is_slash dir (length dir)) in *. clearbody n. split_and!; [done| |].
  - rewrite <-(take_drop n dir) at 1. f_equal. apply list_eq_same_length with (length dir - n)%nat;
      [by rewrite length_replicate|apply length_drop|].
    intros i x y Hi Hx Hy. apply lookup_replicate in Hy as [-> _]. rewrite lookup_drop in Hx.
    specialize (Htrail (n + i)%nat ltac:(lia)). unfold char_at in Htrail.
    rewrite Hx in Htrail. by apply Z.eqb_eq in Htrail.
  - rewrite last_lookup, length_take, Nat.min_l by done. rewrite lookup_take. intros H.
    destruct (decide _) in H; [|done]. destruct Hlast as [Hz|Hs]; [lia|].
    unfold char_at in Hs. replace (n - 1)%nat with (Nat.pred n) in Hs by lia. by rewrite H in Hs.
Qed.

(** The scans of [path_parent] and [path_basename] over a joined path. *)
Lemma joined_scans (d name : list Z) :
  last d <> Some SLASH -> name <> [] -> Forall (fun c => not_slash c = true) name ->
  let p := d ++ SLASH :: name in
  length p = (length d + 1 + length name)%nat /\ back is_slash p (length p) = length p /\
  back not_slash p (length p) = (length d + 1)%nat /\ back is_slash p (length d + 1) = length d.
Proof.
  intros Hd Hne Hname p. assert (0 < length name)%nat as Hn by (destruct name; [done|cbn; lia]).
  assert (length p = length d + 1 + length name)%nat as Hlp by (unfold p; rewrite length_app; cbn; lia).
  assert (forall i, (length d < i < length p)%nat -> not_slash (char_at p i) = true) as Hpn.
  { intros i Hi. unfold p. rewrite char_at_app_r by lia. destruct (i - length d)%nat as [|j] eqn:Ej; [lia|].
    change (char_at (SLASH :: name) (S j)) with (char_at name j). apply char_at_Forall; [done|lia]. }
  assert (char_at p (length d) = SLASH) as Hps by (unfold p; by rewrite char_at_app_r, Nat.sub_diag by lia).
  split_and!; [done|apply back_unique..].
  - lia.
  - lia.
  - right. apply negb_true_iff, Hpn. lia.
  - lia.
  - intros i Hi. apply Hpn. lia.
  - right. replace (length d + 1 - 1)%nat with (length d) by lia. by rewrite Hps.
  - lia.
  - intros i Hi. replace i with (length d) by lia. by rewrite Hps.
  - destruct d as [|c d _] using rev_ind; [by left|right]. rewrite last_snoc in Hd.
    unfold p. rewrite length_app. cbn [length]. rewrite Nat.add_sub, <-app_assoc.
    rewrite char_at_app_r, Nat.sub_diag by lia. cbn. apply Z.eqb_neq. intros ->. done.
Qed.

(** Joining a directory and a plain name and taking the result apart gives them
    back: when [path_join] succeeds, the base name of its result is the name, and
    the parent is the directory without its trailing slashes, or the root
    directory when nothing else is left of it. *)
Theorem path_join_roundtrip (dir name p : list Z) (out_size : Z) :
  name <> [] -> Forall (fun c => not_slash c = true) name ->
  path_join (Some dir) (Some name) out_size = Ok p ->
  exists d k, dir = d ++ replicate k SLASH /\ last d <> Some SLASH /\ p = d ++ SLASH :: name /\
    path_basename (Some p) out_size = Ok name /\
    path_parent (Some p) out_size = Ok (if bool_decide (d = []) then [SLASH] else d).
Proof.
  intros Hne Hname. unfold path_join. destruct (Z.eqb_spec out_size 0) as [|Hsz]; [done|].
  assert (scan is_slash name = 0%nat) as Hscan.
  { destruct name as [|c name]; [done|]. apply Forall_cons in Hname as [Hc _]. cbn.
    unfold not_slash in Hc. by destruct (is_slash c). }
  rewrite Hscan, drop_0. destruct (trim_spec dir) as (Hle & Hdir & Hlast). cbn zeta in *.
  set (n := back is_slash dir (length dir)) in *. clearbody n.
  destruct (Z.ltb_spec out_size (Z.of_nat n + 1 + zlen name + 1)) as [|Hfit]; [done|]. intros [= <-].
  assert (length (take n dir) = n) as Hld by (rewrite length_take; lia).
  exists (take n dir), (length dir - n)%nat. set (d := take n dir) in *. clearbody d. subst n.
  destruct (joined_scans d name Hlast Hne Hname) as (Hlp & B1 & B2 & B3).
  assert (0 < length name)%nat as Hn by (destruct name; [done|cbn; lia]). unfold zlen in Hfit.
  cbn [app] in *. unfold path_basename, path_parent, root_result. rewrite B1, B2, B3.
  destruct (Z.eqb_spec out_size 0); [done|].
  destruct (Z.eqb_spec (Z.of_nat (length (d ++ SLASH :: name))) 0); [lia|]. split_and!; try done.
  - rewrite Hlp, Nat.add_comm, Nat.add_sub. destruct (Z.leb_spec out_size (Z.of_nat (length name))); [lia|].
    f_equal. rewrite drop_app_ge by lia. replace (length d + 1 - length d)%nat with 1%nat by lia.
    by apply take_ge.
  - destruct (Z.eqb_spec (Z.of_nat (length d)) 0) as [E|E].
    + rewrite bool_decide_eq_true_2 by (apply nil_length_inv; lia). destruct (Z.ltb_spec out_size 2); [lia|done].
    + rewrite bool_decide_eq_false_2 by (intros ->; cbn in *; lia).
      destruct (Z.leb_spec out_size (Z.of_nat (length d))); [lia|]. by rewrite take_app_length'.
Qed.

Lemma path_join_roundtrip_witness :
  path_basename (Some [97; 47; 98]) 8 = Ok [98].
Proof.
  destruct (path_join_roundtrip [97; 47; 47] [98] [97; 47; 98] 8) as (d & k & _ & _ & _ & H & _);
    [done|by repeat constructor|reflexivity|exact H].
Defined.


(** ** The path of an entry *)

Lemma intercalate_snoc (cs : list (list Z)) (c : list Z) :
  cs <> [] -> intercalate (cs ++ [c]) = intercalate cs ++ SLASH :: c.
Proof.
  destruct cs as [|c0 cs]; [done|]. intros _. cbn [app]. rewrite !intercalate_cons, <-app_assoc. f_equal.
  unfold seps. rewrite fmap_app, concat_app. cbn. by rewrite app_nil_r.
Qed.

Lemma fill_spec (names : list (list Z)) (out : list Z) :
  names <> [] -> (path_len names <= length out)%nat ->
  fill names (path_len names - 1) out =
    take 1 out ++ intercalate (reverse names) ++ drop (path_len names - 1) out.
Proof.
  revert out. induction names as [|n names IH]; [done|]. intros out _ Hl.
  assert (1 <= path_len names)%nat as H1 by (destruct names; cbn; lia).
  change (path_len (n :: names)) with (length n + 1 + path_len names)%nat in *. cbn [fill].
  replace (length n + 1 + path_len names - 1 - length n)%nat with (path_len names) by lia.
  destruct names as [|m names].
  - cbn [path_len foldr]. unfold copy_at. cbn [reverse rev_append intercalate]. do 2 f_equal. f_equal. lia.
  - set (rest := m :: names) in *. assert (rest <> []) as Hne by done. clearbody rest.
    unfold copy_at at 2. set (k := path_len rest) in *.
    assert (copy_at (take k out ++ n ++ drop (k + length n) out) (k - 1) [SLASH] =
      take (k - 1) out ++ SLASH :: n ++ drop (k + length n) out) as ->.
    { unfold copy_at. rewrite take_app_le by (rewrite length_take; lia). rewrite take_take, Nat.min_l by lia.
      f_equal. cbn [app length]. f_equal. replace (k - 1 + 1)%nat with k by lia.
      rewrite drop_app_ge by (rewrite length_take; lia). rewrite length_take, Nat.min_l by lia.
      by rewrite Nat.sub_diag. }
    unfold k at 1. rewrite IH by (done || (rewrite !length_app; cbn; rewrite length_app, length_take, length_drop; lia)).
    fold k. assert (2 <= k)%nat as Hk by (unfold k; destruct rest; [done|cbn; destruct rest; cbn; lia]).
    rewrite take_app_le by (rewrite length_take; lia). rewrite take_take, Nat.min_l by lia.
    rewrite drop_app_ge by (rewrite length_take; lia). rewrite length_take, Nat.min_l by lia.
    rewrite Nat.sub_diag, drop_0, reverse_cons, intercalate_snoc
      by (intros E; by apply Hne, (inj reverse)).
    rewrite <-!app_assoc. cbn [app]. do 4 f_equal. f_equal. lia.
Qed.

(** For an entry below the root whose path fits, [dentry_path] writes the names
    from the root down, separated by slashes, and a terminator, but from the second
    byte of the buffer on: the first byte, where the leading slash belongs, keeps
    whatever was in the buffer before. *)
Theorem dentry_path_first_byte (fuel : nat) (s : fs) (d : Z) (out : list Z) (names : list (list Z)) :
  d <> NULL -> d <> root_dentry s -> ancestors fuel s d = Some names ->
  Z.of_nat (path_len names) <= zlen out ->
  dentry_path fuel s d out =
    Some (0, take 1 out ++ intercalate (reverse names) ++ 0 :: drop (path_len names) out).
Proof.
  intros Hd Hr Ha Hl. unfold dentry_path. rewrite Ha.
  assert (1 <= path_len names)%nat as H1 by (destruct names; cbn; lia).
  assert (names <> []) as Hne.
  { destruct fuel; [done|]. cbn [ancestors] in Ha.
    destruct (Z.eqb_spec d NULL), (Z.eqb_spec d (root_dentry s)); [done..|]. cbn [orb] in Ha.
    destruct (dentries s !! d); [|done]. destruct (ancestors _ _ _); [|done]. by injection Ha as <-. }
  destruct (Z.eqb_spec d NULL), (Z.eqb_spec (zlen out) 0), (Z.eqb_spec d (root_dentry s));
    try done; try lia. cbn [orb]. destruct (Z.ltb_spec (zlen out) (Z.of_nat (path_len names))); [lia|].
  do 2 f_equal. unfold zlen in *. unfold copy_at. cbn [length app].
  assert (2 <= path_len names)%nat as H2 by (destruct names as [|x [|y l]]; [done|cbn; lia|cbn; lia]).
  rewrite fill_spec; [|done|rewrite length_app; cbn; rewrite length_take, length_drop; lia].
  rewrite take_app_le by (rewrite length_take; lia). rewrite take_take, Nat.min_l by lia.
  rewrite drop_app_ge by (rewrite length_take; lia). rewrite length_take, Nat.min_l by lia.
  rewrite Nat.sub_diag, drop_0. do 3 f_equal. f_equal. lia.
Qed.

Definition ex_fs : fs :=
  mk_fs {[3221225472 := mk_dentry [] 0 3221225728 0 None 0;
          3221225728 := mk_dentry [97] 3221225472 3221225984 0 None 0;
          3221225984 := mk_dentry [98; 99] 3221225728 0 0 None 0]} 3221225472 3221225472 [].

Lemma dentry_path_first_byte_witness :
  dentry_path 5 ex_fs 3221225984 (replicate 8 7) = Some (0, [7; 97; 47; 98; 99; 0; 7; 7]).
Proof.
  apply (dentry_path_first_byte 5 ex_fs 3221225984 (replicate 8 7) [[98; 99]; [97]]);
    [done|done|reflexivity|done].
Defined.

(** ** The resolver *)

(** A pointer that is null or names an entry. *)
Definition ptr_ok (s : fs) (p : Z) : Prop := p = NULL \/ is_Some (dentries s !! p).

(** A well-formed tree: no dangling pointer, and every entry is at most [dfuel] levels
    below the root. *)
Record fs_wf (dfuel : nat) (s : fs) : Prop := {
  wf_root : is_Some (dentries s !! root_dentry s);
  wf_cwd : ptr_ok s (cwd_dentry s);
  wf_mounts : Forall (fun m => is_Some (dentries s !! m.2)) (mount_list s);
  wf_links : map_Forall (fun _ d => ptr_ok s (d_parent d) /\ ptr_ok s (d_child d) /\ ptr_ok s (d_next d))
               (dentries s);
  wf_depth : map_Forall (fun p _ => is_Some (ancestors dfuel s p)) (dentries s) }.

Lemma find_child_ok (n : nat) (dfuel : nat) (s : fs) (c : list Z) (p : Z) :
  fs_wf dfuel s -> ptr_ok s p -> exists q, find_child n s c p = Some q /\ ptr_ok s q.
Proof.
  intros Hs. revert p. induction n as [|n IH]; intros p Hp; cbn [find_child]; [by exists NULL; split; [|left]|].
  destruct (Z.eqb_spec p NULL); [by exists NULL; split; [|left]|].
  destruct (p <? KERNEL_BASE); [by exists NULL; split; [|left]|].
  destruct Hp as [|[d Hd]]; [done|]. rewrite Hd.
  destruct (wf_links _ _ Hs p d Hd) as (_ & _ & Hn). destruct (_ || _); [by apply IH|].
  case_bool_decide; [|by apply IH]. exists p. split; [done|right; by eexists].
Qed.

Lemma cross_mount_ok (dfuel : nat) (s : fs) (p : Z) :
  fs_wf dfuel s -> is_Some (dentries s !! p) ->
  exists q, cross_mount s p = Some q /\ is_Some (dentries s !! q).
Proof.
  intros Hs [d Hd]. unfold cross_mount. rewrite Hd. destruct (d_mount d =? 0); [by eauto|].
  destruct (List.find _ _) as [m|] eqn:E; [|by eauto]. exists m.2. split; [done|].
  apply find_some in E as [Hin _]. pose proof (wf_mounts _ _ Hs) as Hm. rewrite Forall_forall in Hm.
  apply Hm. by apply list_elem_of_In.
Qed.

Lemma cstr_cstring (l : list Z) : cstring (cstr l).
Proof.
  unfold cstring, cstr. eapply Forall_impl; [apply scan_Forall|].
  intros c Hc. cbn in Hc. by destruct (Z.eqb_spec c 0).
Qed.

(** [path_join] into a buffer of [PATH_MAX] bytes gives a string that fits or fails. *)
Lemma join_ok (d n : list Z) :
  cstring d -> cstring n ->
  path_join (Some d) (Some n) PATH_MAX = Err \/
  exists p, path_join (Some d) (Some n) PATH_MAX = Ok p /\ cstring p /\ zlen p < PATH_MAX.
Proof.
  intros Hd Hn. unfold path_join. change (PATH_MAX =? 0) with false. cbn match.
  destruct (Z.ltb_spec PATH_MAX (Z.of_nat (back is_slash d (length d)) + 1 + zlen (drop (scan is_slash n) n) + 1));
    [by left|right]. eexists. split; [done|]. split.
  - apply Forall_app. split; [by apply Forall_take|]. constructor; [done|]. by apply Forall_drop.
  - destruct (back_spec is_slash d (length d)) as [Hb _]. cbn zeta in Hb.
    rewrite zlen_app. cbn [app]. rewrite zlen_cons. unfold zlen in *. rewrite length_take. lia.
Qed.

Lemma normalize_ok (p : list Z) :
  cstring p -> zlen p < PATH_MAX ->
  path_normalize (Some p) PATH_MAX = Err \/
  exists q, path_normalize (Some p) PATH_MAX = Ok q /\ cstring q.
Proof.
  intros Hp Hl. rewrite normalize_eq by done.
  destruct (Z.ltb_spec (zlen (normal p)) PATH_MAX) as [|Hge].
  - right. eexists. split; [done|]. by apply normal_cstring.
  - left. rewrite bool_decide_eq_false_2; [done|]. intros E. unfold normal in Hge. rewrite E in Hge.
    unfold PATH_MAX in Hge. destruct (is_slash _); vm_compute in Hge; by apply Hge.
Qed.

Section ResolverTheorems.
Context (lookup : Z -> list Z -> fs -> Z * fs) (readlink : Z -> fs -> option (list Z)).
Context (junk : list Z) (dfuel : nat).

(** What the resolver relies on: the lookup of a file system keeps the tree well
    formed and returns an entry of it or null; a link target is a C string. *)
Hypothesis lookup_ok : forall s p c,
  fs_wf dfuel s -> fs_wf dfuel (lookup p c s).2 /\ ptr_ok (lookup p c s).2 (lookup p c s).1.
Hypothesis readlink_ok : forall s p t, readlink p s = Some t -> cstring t.

Notation step_component := (step_component lookup).
Notation walk := (walk lookup).
Notation restart := (restart lookup readlink junk dfuel).

Lemma step_component_ok (s : fs) (cur : Z) (c : list Z) :
  fs_wf dfuel s -> is_Some (dentries s !! cur) ->
  exists q s', step_component s cur c = Some (q, s') /\ fs_wf dfuel s' /\ ptr_ok s' q.
Proof using lookup_ok.
  intros Hs Hcur. unfold Path.step_component. destruct (cross_mount_ok dfuel s cur Hs Hcur) as (m & -> & [d Hd]).
  rewrite Hd. destruct (wf_links _ _ Hs m d Hd) as (_ & Hch & _).
  destruct (find_child_ok CHILD_MAX_ITER dfuel s c (d_child d) Hs Hch) as (q & -> & Hq).
  destruct (negb (q =? NULL)); [by eauto|]. assert (ptr_ok s NULL) as H0 by by left.
  destruct (d_inode d) as [i|]; [|by eauto]. destruct (i_lookup i); [|by eauto].
  destruct (lookup_ok s m c Hs) as [H1 H2]. destruct (lookup m c s) as [q' s']. eauto.
Qed.

(** The component loop ends within [length work + 1] rounds, without a fault. *)
Lemma walk_ok (fuel : nat) (s : fs) (work : list Z) (i : nat) (cur : Z) (follow : bool) :
  fs_wf dfuel s -> is_Some (dentries s !! cur) -> cstring work -> (length (drop i work) < fuel)%nat ->
  match walk fuel s work i cur follow with
  | WFault | WFuel => False
  | WErr _ => True
  | WDone q s' => fs_wf dfuel s' /\ is_Some (dentries s' !! q)
  | WLink q d rest s' => fs_wf dfuel s' /\ dentries s' !! q = Some d /\ cstring rest
  end.
Proof using lookup_ok.
  revert s i cur. induction fuel as [|fuel IH]; intros s i cur Hs Hcur Hw Hf; [lia|]. cbn [Path.walk].
  set (start := (i + scan is_slash (drop i work))%nat).
  destruct (Z.eqb_spec (char_at work start) 0) as [E|E]; [done|].
  destruct (256 <=? _); [done|].
  destruct (step_component_ok s cur (take (scan not_slash (drop start work)) (drop start work)) Hs Hcur)
    as (q & s' & -> & Hs' & Hq).
  destruct (Z.eqb_spec q NULL); [done|]. destruct Hq as [|[d Hd]]; [done|]. rewrite Hd.
  destruct (is_link d).
  { destruct (_ && _); [by split; [|eexists]|]. split_and!; [done|done|]. by apply Forall_take, Forall_drop. }
  apply IH; [done|by eexists|done|].
  pose proof (scan_stop is_slash (drop i work)) as Hstop. rewrite drop_drop in Hstop. fold start in Hstop.
  assert (0 < scan not_slash (drop start work))%nat as Hpos.
  { rewrite <-(Nat.add_0_r start), <-char_at_drop in E. destruct (drop start work) as [|c l]; [done|].
    cbn. unfold not_slash. rewrite Hstop. cbn. lia. }
  pose proof (scan_length not_slash (drop start work)) as Hlen. rewrite !length_drop in *. unfold start in *. lia.
Qed.

Lemma link_path_ok (s : fs) (q : Z) (d : dentry) (target rest : list Z) :
  fs_wf dfuel s -> dentries s !! q = Some d -> cstring target -> cstring rest ->
  link_path junk dfuel s d target rest = Some Err \/
  exists p, link_path junk dfuel s d target rest = Some (Ok p) /\ cstring p /\ zlen p < PATH_MAX.
Proof using.
  intros Hs Hd Ht Hr. unfold link_path.
  destruct (is_slash _); [destruct (join_ok target rest Ht Hr) as [->|(p & -> & ?)]; eauto|].
  set (parent := if d_parent d =? NULL then root_dentry s else d_parent d).
  assert (exists r l, dentry_path dfuel s parent junk = Some (r, l)) as (r & l & ->).
  { assert (is_Some (dentries s !! parent)) as [e He].
    { unfold parent. destruct (Z.eqb_spec (d_parent d) NULL); [apply (wf_root _ _ Hs)|].
      destruct (wf_links _ _ Hs q d Hd) as ([|] & _); done. }
    unfold dentry_path. destruct (_ || _); [by eauto|]. destruct (_ =? root_dentry s).
    { destruct (_ <? 2); eauto. }
    destruct (wf_depth _ _ Hs parent e He) as [names ->]. destruct (_ <? _); eauto. }
  destruct (negb (r =? 0)); [by left|].
  destruct (join_ok (cstr l) target (cstr_cstring l) Ht) as [->|(p & -> & Hp & Hl)]; [by left|].
  destruct (0 <? zlen rest); [|by eauto].
  destruct (join_ok p rest Hp Hr) as [->|(p' & -> & ?)]; eauto.
Qed.

Lemma restart_ok (fuel : nat) (depth : Z) (s : fs) (work : list Z) (follow : bool) :
  fs_wf dfuel s -> cstring work -> 10 <= Z.of_nat fuel + depth -> 0 <= depth <= 8 ->
  match restart fuel depth s work follow with
  | RFault | RFuel => False
  | RErr _ => True
  | ROk q s' => fs_wf dfuel s' /\ is_Some (dentries s' !! q)
  end.
Proof using lookup_ok readlink_ok.
  revert depth s work. induction fuel as [|fuel IH]; intros depth s work Hs Hw Hf Hd; [lia|].
  cbn [Path.restart]. destruct (SYMLINK_MAX_FOLLOW <? depth); [done|].
  set (start := if is_slash (char_at work 0) then (root_dentry s, 1%nat)
                else (if cwd_dentry s =? NULL then root_dentry s else cwd_dentry s, 0%nat)).
  assert (is_Some (dentries s !! start.1)) as Hst.
  { unfold start. pose proof (wf_root _ _ Hs). destruct (is_slash _); [done|]. cbn [fst].
    destruct (Z.eqb_spec (cwd_dentry s) NULL); [done|]. by destruct (wf_cwd _ _ Hs). }
  destruct start as [cur i]. cbn [fst] in Hst.
  pose proof (walk_ok (S (length work)) s work i cur follow Hs Hst Hw) as Hwalk.
  rewrite length_drop in Hwalk. specialize (Hwalk ltac:(lia)).
  destruct (walk _ s work i cur follow) as [| |s'|q s'|q d rest s']; [done|done|done| |].
  { destruct Hwalk as [Hs' Hq]. destruct (cross_mount_ok dfuel s' q Hs' Hq) as (q' & -> & Hq'). done. }
  destruct Hwalk as (Hs' & Hq & Hrest).
  destruct (Z.leb_spec SYMLINK_MAX_FOLLOW depth) as [|Hdepth]; [done|]. unfold SYMLINK_MAX_FOLLOW in Hdepth.
  destruct (negb _); [done|]. destruct (readlink q s') as [target|] eqn:Et; [|done].
  apply readlink_ok in Et.
  destruct (link_path_ok s' q d target rest Hs' Hq Et Hrest) as [->|(p & -> & Hp & Hl)]; [done|].
  destruct (normalize_ok p Hp Hl) as [->|(w & -> & Hw')]; [done|].
  apply IH; [done|done|lia|lia].
Qed.

(** C36: on a well-formed tree, for any file systems whose lookup keeps it well formed,
    [path_resolve] and [path_resolve_nofollow] always return: at most nine passes
    over the path, each of at most its length in steps, and they give an error or
    an entry of the resulting tree; no null or dangling pointer is followed. *)
Theorem path_resolve_total (s : fs) (path : list Z) (follow : bool) :
  fs_wf dfuel s -> cstring path -> zlen path < PATH_MAX ->
  (exists s', path_resolve_internal lookup readlink junk dfuel s (Some path) follow = RErr s') \/
  (exists q s', path_resolve_internal lookup readlink junk dfuel s (Some path) follow = ROk q s' /\
     fs_wf dfuel s' /\ is_Some (dentries s' !! q)).
Proof using lookup_ok readlink_ok.
  intros Hs Hp Hl. unfold path_resolve_internal.
  destruct (normalize_ok path Hp Hl) as [->|(w & -> & Hw)]; [by left; eexists|].
  pose proof (restart_ok 10 0 s w follow Hs Hw ltac:(lia) ltac:(lia)) as H.
  destruct (restart 10 0 s w follow) as [| |s'|q s']; [done|done|by left; eexists|].
  right. by exists q, s'.
Qed.

(** A double dot that starts a relative path is dropped: the path is resolved in the
    current directory and not in its parent. *)
Lemma leading_dotdot_dropped (s : fs) (x : list Z) (follow : bool) :
  cstring x -> zlen x + 3 < PATH_MAX -> is_slash (char_at x 0) = false ->
  path_resolve_internal lookup readlink junk dfuel s (Some (DOT :: DOT :: SLASH :: x)) follow =
  path_resolve_internal lookup readlink junk dfuel s (Some x) follow.
Proof using.
  intros Hx Hl Ha. unfold path_resolve_internal.
  assert (resolve (DOT :: DOT :: SLASH :: x) = resolve x) as Hr by done.
  assert (normal (DOT :: DOT :: SLASH :: x) = normal x) as Hn by (unfold normal; by rewrite Hr, Ha).
  rewrite !normalize_eq, Hn, Hr; try done; [lia| |].
  - by repeat constructor.
  - rewrite !zlen_cons. lia.
Qed.

End ResolverTheorems.

Lemma ex_fs_wf : fs_wf 5 ex_fs.
Proof.
  constructor.
  - eexists. vm_compute. reflexivity.
  - right. eexists. vm_compute. reflexivity.
  - constructor.
  - repeat (apply map_Forall_insert_2;
      [split_and!; (by left) || (right; eexists; vm_compute; reflexivity)|]).
    apply map_Forall_empty.
  - repeat (apply map_Forall_insert_2; [eexists; vm_compute; reflexivity|]).
    apply map_Forall_empty.
Qed.

Lemma path_resolve_total_witness :
  (exists s', path_resolve_internal (fun _ _ s => (NULL, s)) (fun _ _ => None) [] 5 ex_fs (Some [47; 97]) true = RErr s') \/
  (exists q s', path_resolve_internal (fun _ _ s => (NULL, s)) (fun _ _ => None) [] 5 ex_fs (Some [47; 97]) true = ROk q s' /\
     fs_wf 5 s' /\ is_Some (dentries s' !! q)).
Proof.
  apply (path_resolve_total (fun _ _ s => (NULL, s)) (fun _ _ => None) [] 5).
  - intros s p c Hs. split; [done|by left].
  - done.
  - apply ex_fs_wf.
  - by repeat constructor.
  - done.
Defined.

(** A path finds the entry its names lead to. *)
Example resolve_ex :
  path_resolve (fun _ _ s => (NULL, s)) (fun _ _ => None) [] 5 ex_fs (Some [47; 97; 47; 46; 47; 98; 99]) =
    ROk 3221225984 ex_fs.
Proof. vm_compute. reflexivity. Qed.

End Path.
