(* ===== verification/Unicode.v ===== *)
(** * UTF-8 (src/kernel/unicode.c)

    [Module Unicode]: encoder and decoder, character classes, widths and case.
    A string is the list of its bytes before the terminator; a byte past the end
    reads as 0. *)

From S2P Require Import Prelude.

Module Unicode.

Definition REPLACEMENT : Z := 65533. (* 0xFFFD *)

Definition byte_at (s : list Z) (i : nat) : Z := default 0 (s !! i).

(** The test of a continuation byte. *)
Definition is_cont (b : Z) : bool := Z.land b 192 =? 128.

(** The code point and [*bytes_read]; [None] is the null pointer. *)
Definition utf8_decode (str : option (list Z)) : Z * Z :=
  match str with
  | None => (0, 0)
  | Some s =>
      let b0 := byte_at s 0 in
      let b1 := byte_at s 1 in
      let b2 := byte_at s 2 in
      let b3 := byte_at s 3 in
      if b0 =? 0 then (0, 0)
      else if b0 <? 128 then (b0, 1)
      else if Z.land b0 192 =? 128 then (REPLACEMENT, 1)
      else if Z.land b0 224 =? 192 then
        if b1 =? 0 then (REPLACEMENT, 1)
        else if negb (is_cont b1) then (REPLACEMENT, 1)
        else
          let cp := Z.lor (Z.shiftl (Z.land b0 31) 6) (Z.land b1 63) in
          if cp <? 128 then (REPLACEMENT, 1) else (cp, 2)
      else if Z.land b0 240 =? 224 then
        if (b1 =? 0) || (b2 =? 0) then (REPLACEMENT, 1)
        else if negb (is_cont b1) || negb (is_cont b2) then (REPLACEMENT, 1)
        else
          let cp := Z.lor (Z.lor (Z.shiftl (Z.land b0 15) 12) (Z.shiftl (Z.land b1 63) 6))
                      (Z.land b2 63) in
          if cp <? 2048 then (REPLACEMENT, 1)
          else if (55296 <=? cp) && (cp <=? 57343) then (REPLACEMENT, 3)
          else (cp, 3)
      else if Z.land b0 248 =? 240 then
        if (b1 =? 0) || (b2 =? 0) || (b3 =? 0) then (REPLACEMENT, 1)
        else if negb (is_cont b1) || negb (is_cont b2) || negb (is_cont b3) then (REPLACEMENT, 1)
        else
          let cp := Z.lor (Z.lor (Z.lor (Z.shiftl (Z.land b0 7) 18) (Z.shiftl (Z.land b1 63) 12))
                      (Z.shiftl (Z.land b2 63) 6)) (Z.land b3 63) in
          if (cp <? 65536) || (1114111 <? cp) then (REPLACEMENT, 1) else (cp, 4)
      else (REPLACEMENT, 1)
  end.

(** The bytes written; their number is the result. *)
Definition utf8_encode (codepoint : Z) : list Z :=
  if codepoint <? 128 then [u8 codepoint]
  else if codepoint <? 2048 then
    [u8 (Z.lor 192 (Z.shiftr codepoint 6)); u8 (Z.lor 128 (Z.land codepoint 63))]
  else if (55296 <=? codepoint) && (codepoint <=? 57343) then []
  else if codepoint <? 65536 then
    [u8 (Z.lor 224 (Z.shiftr codepoint 12)); u8 (Z.lor 128 (Z.land (Z.shiftr codepoint 6) 63));
     u8 (Z.lor 128 (Z.land codepoint 63))]
  else if codepoint <=? 1114111 then
    [u8 (Z.lor 240 (Z.shiftr codepoint 18)); u8 (Z.lor 128 (Z.land (Z.shiftr codepoint 12) 63));
     u8 (Z.lor 128 (Z.land (Z.shiftr codepoint 6) 63)); u8 (Z.lor 128 (Z.land codepoint 63))]
  else [].

(** [lo <= cp <= hi] *)
Definition within (cp lo hi : Z) : bool := (lo <=? cp) && (cp <=? hi).

Definition unicode_is_cjk (cp : Z) : bool :=
  within cp 19968 40959 || within cp 13312 19903 || within cp 131072 173791 ||
  within cp 63744 64255 || within cp 12288 12351 || within cp 12352 12447 ||
  within cp 12448 12543 || within cp 44032 55215 || within cp 11904 12031 ||
  within cp 12032 12255 || within cp 65281 65376 || within cp 12736 12783.

Definition unicode_is_cyrillic (cp : Z) : bool :=
  within cp 1024 1279 || within cp 1280 1327 || within cp 11744 11775 || within cp 42560 42655.

Definition unicode_is_latin (cp : Z) : bool :=
  within cp 65 90 || within cp 97 122 || within cp 192 214 || within cp 216 246 ||
  within cp 248 255 || within cp 256 383 || within cp 384 591.

Definition unicode_is_digit (cp : Z) : bool := within cp 48 57 || within cp 65296 65305.

Definition unicode_is_printable (cp : Z) : bool :=
  if cp <? 32 then false
  else if cp <? 127 then true
  else if cp =? 127 then false
  else within cp 160 255 || within cp 256 1114111.

Definition unicode_is_whitespace (cp : Z) : bool :=
  (cp =? 9) || (cp =? 10) || (cp =? 11) || (cp =? 12) || (cp =? 13) || (cp =? 32) ||
  (cp =? 133) || (cp =? 160) || (cp =? 5760) || within cp 8192 8202 ||
  (cp =? 8232) || (cp =? 8233) || (cp =? 8239) || (cp =? 8287) || (cp =? 12288).

Definition unicode_char_width (cp : Z) : Z :=
  if unicode_is_cjk cp then 2
  else if within cp 65281 65376 then 2
  else if negb (unicode_is_printable cp) then 0
  else 1.

(** The loop at [str + i], with the width so far; [None]: out of fuel. *)
Fixpoint width_loop (fuel : nat) (s : list Z) (width : Z) : option Z :=
  match fuel with
  | O => None
  | S fuel =>
      if byte_at s 0 =? 0 then Some width
      else
        let '(cp, n) := utf8_decode (Some s) in
        if n =? 0 then Some width
        else width_loop fuel (drop (Z.to_nat n) s) (s32 (width + unicode_char_width cp))
  end.
Definition utf8_string_width (str : option (list Z)) : option Z :=
  match str with None => Some 0 | Some s => width_loop (S (length s)) s 0 end.

Definition unicode_tolower (cp : Z) : Z :=
  if within cp 65 90 then cp + 32
  else if within cp 192 222 && negb (cp =? 215) then cp + 32
  else if within cp 1040 1071 then cp + 32
  else cp.
Definition unicode_toupper (cp : Z) : Z :=
  if within cp 97 122 then cp - 32
  else if within cp 224 254 && negb (cp =? 247) then cp - 32
  else if within cp 1072 1103 then cp - 32
  else cp.

(** ** Bits as arithmetic *)

(** A Unicode scalar value. *)
Definition scalar (cp : Z) : Prop := 0 <= cp <= 1114111 /\ ~ 55296 <= cp <= 57343.
Definition bytes (s : list Z) : Prop := Forall is_u8 s.

(** A property of all bytes is checked by running through them. *)
Lemma all_bytes (f : Z -> bool) (b : Z) :
  forallb f (range 0 256) = true -> is_u8 b -> f b = true.
Proof.
  intros H Hb. rewrite forallb_forall in H. apply H, list_elem_of_In, elem_of_range. exact Hb.
Qed.

Ltac by_bytes b f := apply (all_bytes f b); [vm_compute; reflexivity|assumption].

Lemma byte_masks (b : Z) : is_u8 b ->
  is_cont b = within b 128 191 /\
  (Z.land b 192 =? 128) = within b 128 191 /\ (Z.land b 224 =? 192) = within b 192 223 /\
  (Z.land b 240 =? 224) = within b 224 239 /\ (Z.land b 248 =? 240) = within b 240 247.
Proof.
  intros Hb. unfold is_cont.
  assert (eqb (Z.land b 192 =? 128) (within b 128 191) && eqb (Z.land b 224 =? 192) (within b 192 223) &&
    eqb (Z.land b 240 =? 224) (within b 224 239) && eqb (Z.land b 248 =? 240) (within b 240 247) = true) as H.
  { by_bytes b (fun b => eqb (Z.land b 192 =? 128) (within b 128 191) &&
      eqb (Z.land b 224 =? 192) (within b 192 223) && eqb (Z.land b 240 =? 224) (within b 224 239) &&
      eqb (Z.land b 248 =? 240) (within b 240 247)). }
  rewrite !andb_true_iff, !eqb_true_iff in H. naive_solver.
Qed.

Lemma land_low (b n : Z) : 0 <= n -> Z.land b (2 ^ n - 1) = b mod 2 ^ n.
Proof. intros Hn. rewrite <-Z.land_ones by done. by rewrite Z.ones_equiv, <-Z.sub_1_r. Qed.

Lemma land63 (b : Z) : Z.land b 63 = b mod 64.
Proof. apply (land_low b 6). lia. Qed.

Lemma land31 (b : Z) : Z.land b 31 = b mod 32.
Proof. apply (land_low b 5). lia. Qed.
Lemma land15 (b : Z) : Z.land b 15 = b mod 16.
Proof. apply (land_low b 4). lia. Qed.
Lemma land7 (b : Z) : Z.land b 7 = b mod 8.
Proof. apply (land_low b 3). lia. Qed.

Lemma cp2_arith (b0 b1 : Z) :
  Z.lor (Z.shiftl (Z.land b0 31) 6) (Z.land b1 63) = b0 mod 32 * 64 + b1 mod 64.
Proof.
  rewrite land63, land31, Z.shiftl_mul_pow2 by lia. apply lor_add; [lia|].
  apply Z.mod_pos_bound. lia.
Qed.

Lemma cp3_arith (b0 b1 b2 : Z) :
  Z.lor (Z.lor (Z.shiftl (Z.land b0 15) 12) (Z.shiftl (Z.land b1 63) 6)) (Z.land b2 63) =
    b0 mod 16 * 4096 + b1 mod 64 * 64 + b2 mod 64.
Proof.
  rewrite !land63, land15, !Z.shiftl_mul_pow2 by lia.
  rewrite (lor_add (b0 mod 16) (b1 mod 64 * 2 ^ 6) 12)
    by (pose proof (Z.mod_pos_bound b1 64); change (2 ^ 6) with 64; change (2 ^ 12) with 4096; lia).
  replace (b0 mod 16 * 2 ^ 12 + b1 mod 64 * 2 ^ 6) with ((b0 mod 16 * 64 + b1 mod 64) * 2 ^ 6) by lia.
  rewrite lor_add by (pose proof (Z.mod_pos_bound b2 64); change (2 ^ 6) with 64; lia).
  change (2 ^ 6) with 64. lia.
Qed.

Lemma cp4_arith (b0 b1 b2 b3 : Z) :
  Z.lor (Z.lor (Z.lor (Z.shiftl (Z.land b0 7) 18) (Z.shiftl (Z.land b1 63) 12))
    (Z.shiftl (Z.land b2 63) 6)) (Z.land b3 63) =
    b0 mod 8 * 262144 + b1 mod 64 * 4096 + b2 mod 64 * 64 + b3 mod 64.
Proof.
  rewrite !land63, land7, !Z.shiftl_mul_pow2 by lia.
  pose proof (Z.mod_pos_bound b1 64). pose proof (Z.mod_pos_bound b2 64). pose proof (Z.mod_pos_bound b3 64).
  rewrite (lor_add (b0 mod 8) (b1 mod 64 * 2 ^ 12) 18)
    by (change (2 ^ 12) with 4096; change (2 ^ 18) with 262144; lia).
  replace (b0 mod 8 * 2 ^ 18 + b1 mod 64 * 2 ^ 12) with ((b0 mod 8 * 64 + b1 mod 64) * 2 ^ 12) by lia.
  rewrite (lor_add _ (b2 mod 64 * 2 ^ 6) 12) by (change (2 ^ 12) with 4096; change (2 ^ 6) with 64; lia).
  replace ((b0 mod 8 * 64 + b1 mod 64) * 2 ^ 12 + b2 mod 64 * 2 ^ 6)
    with ((b0 mod 8 * 4096 + b1 mod 64 * 64 + b2 mod 64) * 2 ^ 6) by lia.
  rewrite lor_add by (change (2 ^ 6) with 64; lia). change (2 ^ 6) with 64. lia.
Qed.

(** The encoder's bytes. *)
Lemma lead_byte (base x n : Z) :
  0 <= n -> base mod 2 ^ n = 0 -> 0 <= base -> base + 2 ^ n <= 256 -> 0 <= x < 2 ^ n -> u8 (Z.lor base x) = base + x.
Proof.
  intros Hn Hm H0 Hb Hx. pose proof (Z.div_mod base (2 ^ n) ltac:(lia)) as E. rewrite Hm in E.
  rewrite E, Z.add_0_r, Z.mul_comm, lor_add by done. rewrite Z.mul_comm, <-(Z.add_0_r (2 ^ n * _)), <-E.
  apply Z.mod_small. lia.
Qed.

Lemma cont_byte (x : Z) : u8 (Z.lor 128 (Z.land x 63)) = 128 + x mod 64.
Proof. rewrite land63. apply (lead_byte 128 (x mod 64) 6); try done. apply Z.mod_pos_bound. done. Qed.

Lemma encode_arith (cp : Z) : scalar cp ->
  utf8_encode cp =
    if cp <? 128 then [cp]
    else if cp <? 2048 then [192 + cp / 64; 128 + cp mod 64]
    else if cp <? 65536 then [224 + cp / 4096; 128 + cp / 64 mod 64; 128 + cp mod 64]
    else [240 + cp / 262144; 128 + cp / 4096 mod 64; 128 + cp / 64 mod 64; 128 + cp mod 64].
Proof.
  intros [Hr Hs]. unfold utf8_encode. rewrite !cont_byte.
  rewrite !Z.shiftr_div_pow2 by lia.
  change (2 ^ 6) with 64. change (2 ^ 12) with 4096. change (2 ^ 18) with 262144.
  destruct (Z.ltb_spec cp 128); [by rewrite u8_small by (unfold is_u8; lia)|].
  destruct (Z.ltb_spec cp 2048).
  { rewrite (lead_byte 192 (cp / 64) 5); try done. change (2 ^ 5) with 32. dlia. }
  destruct (_ && _) eqn:E; [lia|]. clear E. destruct (Z.ltb_spec cp 65536).
  { rewrite (lead_byte 224 (cp / 4096) 4); try done. change (2 ^ 4) with 16. dlia. }
  destruct (Z.leb_spec cp 1114111); [|lia].
  rewrite (lead_byte 240 (cp / 262144) 3); try done. change (2 ^ 3) with 8. dlia.
Qed.

(** The decoder in arithmetic form. *)
Lemma decode_arith (s : list Z) : bytes s ->
  let b i := byte_at s i in
  let cont i := within (b i) 128 191 in
  utf8_decode (Some s) =
    if b 0%nat =? 0 then (0, 0)
    else if b 0%nat <? 128 then (b 0%nat, 1)
    else if b 0%nat <? 192 then (REPLACEMENT, 1)
    else if b 0%nat <? 224 then
      let cp := (b 0%nat - 192) * 64 + b 1%nat mod 64 in
      if cont 1%nat && (128 <=? cp) then (cp, 2) else (REPLACEMENT, 1)
    else if b 0%nat <? 240 then
      let cp := (b 0%nat - 224) * 4096 + b 1%nat mod 64 * 64 + b 2%nat mod 64 in
      if cont 1%nat && cont 2%nat && (2048 <=? cp) then
        (if within cp 55296 57343 then REPLACEMENT else cp, 3)
      else (REPLACEMENT, 1)
    else if b 0%nat <? 248 then
      let cp := (b 0%nat - 240) * 262144 + b 1%nat mod 64 * 4096 + b 2%nat mod 64 * 64 + b 3%nat mod 64 in
      if cont 1%nat && cont 2%nat && cont 3%nat && (65536 <=? cp) && (cp <=? 1114111) then (cp, 4)
      else (REPLACEMENT, 1)
    else (REPLACEMENT, 1).
Proof.
  intros Hs. cbn zeta. assert (forall i, is_u8 (byte_at s i)) as Hb.
  { intros i. unfold byte_at. destruct (s !! i) eqn:E; cbn; [by eapply Forall_lookup in Hs|done]. }
  unfold utf8_decode. cbn zeta. rewrite cp2_arith, cp3_arith, cp4_arith.
  generalize dependent (byte_at s). intros b Hb.
  pose proof (Hb 0%nat) as H0. pose proof (Hb 1%nat) as H1. pose proof (Hb 2%nat) as H2. pose proof (Hb 3%nat) as H3.
  destruct (byte_masks (b 0%nat) H0) as (_ & -> & -> & -> & ->).
  destruct (byte_masks (b 1%nat) H1) as (-> & _). destruct (byte_masks (b 2%nat) H2) as (-> & _).
  destruct (byte_masks (b 3%nat) H3) as (-> & _).
  revert H0 H1 H2 H3. generalize (b 0%nat) (b 1%nat) (b 2%nat) (b 3%nat). intros b0 b1 b2 b3 H0 H1 H2 H3.
  unfold within, is_u8 in *. change (2 ^ 8) with 256 in *.
  destruct (Z.eqb_spec b0 0); [done|]. destruct (Z.ltb_spec b0 128); [done|].
  destruct (Z.ltb_spec b0 192).
  { replace ((128 <=? b0) && (b0 <=? 191)) with true by lia. done. }
  replace ((128 <=? b0) && (b0 <=? 191)) with false by lia.
  destruct (Z.ltb_spec b0 224).
  { replace ((192 <=? b0) && (b0 <=? 223)) with true by lia. replace (b0 mod 32) with (b0 - 192) by dlia.
    repeat case_if; try done; lia. }
  replace ((192 <=? b0) && (b0 <=? 223)) with false by lia.
  destruct (Z.ltb_spec b0 240).
  { replace ((224 <=? b0) && (b0 <=? 239)) with true by lia. replace (b0 mod 16) with (b0 - 224) by dlia.
    repeat case_if; try done; lia. }
  replace ((224 <=? b0) && (b0 <=? 239)) with false by lia.
  destruct (Z.ltb_spec b0 248).
  { replace ((240 <=? b0) && (b0 <=? 247)) with true by lia. replace (b0 mod 8) with (b0 - 240) by dlia.
    repeat case_if; try done; lia. }
  by replace ((240 <=? b0) && (b0 <=? 247)) with false by lia.
Qed.

(** ** Round trips *)

Lemma encode_bytes (cp : Z) : scalar cp -> bytes (utf8_encode cp).
Proof.
  intros Hs. rewrite (encode_arith cp Hs). destruct Hs as [Hr _]. unfold bytes, is_u8. change (2 ^ 8) with 256.
  destruct (Z.ltb_spec cp 128), (Z.ltb_spec cp 2048), (Z.ltb_spec cp 65536);
    rewrite ?Forall_cons; split_and!; try apply Forall_nil; try done; dlia.
Qed.

Lemma decode_encode (cp : Z) (rest : list Z) :
  scalar cp -> 0 < cp -> bytes rest ->
  utf8_decode (Some (utf8_encode cp ++ rest)) = (cp, zlen (utf8_encode cp)).
Proof.
  intros Hs H0 Hrest. rewrite decode_arith by (by apply Forall_app; split; [apply encode_bytes|]).
  rewrite (encode_arith cp Hs). destruct Hs as [Hr Hsur]. unfold within, byte_at.
  destruct (Z.ltb_spec cp 128).
  { cbn [app lookup list_lookup default id]. repeat case_if; try done; lia. }
  destruct (Z.ltb_spec cp 2048).
  { cbn [app lookup list_lookup default id]. 
    replace ((192 + cp / 64 - 192) * 64 + (128 + cp mod 64) mod 64) with cp by dlia.
    repeat case_if; try done; dlia. }
  destruct (Z.ltb_spec cp 65536).
  { cbn [app lookup list_lookup default id].
    replace ((224 + cp / 4096 - 224) * 4096 + (128 + cp / 64 mod 64) mod 64 * 64 + (128 + cp mod 64) mod 64)
      with cp by dlia.
    repeat case_if; try done; dlia. }
  cbn [app lookup list_lookup default id].
  replace ((240 + cp / 262144 - 240) * 262144 + (128 + cp / 4096 mod 64) mod 64 * 4096 +
    (128 + cp / 64 mod 64) mod 64 * 64 + (128 + cp mod 64) mod 64) with cp by dlia.
  repeat case_if; try done; dlia.
Qed.

Lemma take_bytes (s : list Z) (n : nat) :
  (forall i, (i < n)%nat -> byte_at s i <> 0) -> take n s = byte_at s <$> seq 0 n.
Proof.
  intros H. apply list_eq. intros i. rewrite list_lookup_fmap, lookup_take.
  destruct (decide (i < n)%nat) as [Hi|Hi].
  - rewrite lookup_seq_lt by done. cbn. specialize (H i Hi). unfold byte_at in *. by destruct (s !! i).
  - by rewrite lookup_seq_ge by lia.
Qed.

Lemma enc2 (b0 b1 : Z) :
  192 <= b0 < 224 -> 128 <= b1 <= 191 -> let cp := (b0 - 192) * 64 + b1 mod 64 in
  128 <= cp -> scalar cp /\ utf8_encode cp = [b0; b1].
Proof.
  intros H0 H1 cp Hcp. assert (scalar cp) as Hs by (split; unfold cp; dlia). split; [done|].
  rewrite (encode_arith cp Hs). assert (cp < 2048) by (unfold cp; dlia).
  destruct (Z.ltb_spec cp 128), (Z.ltb_spec cp 2048); try lia. repeat f_equal; unfold cp; dlia.
Qed.

Lemma enc3 (b0 b1 b2 : Z) :
  224 <= b0 < 240 -> 128 <= b1 <= 191 -> 128 <= b2 <= 191 ->
  let cp := (b0 - 224) * 4096 + b1 mod 64 * 64 + b2 mod 64 in
  2048 <= cp -> ~ 55296 <= cp <= 57343 -> scalar cp /\ utf8_encode cp = [b0; b1; b2].
Proof.
  intros H0 H1 H2 cp Hcp Hsur. assert (cp < 65536) by (unfold cp; dlia).
  assert (scalar cp) as Hs by (split; [lia|done]). split; [done|]. rewrite (encode_arith cp Hs).
  destruct (Z.ltb_spec cp 128), (Z.ltb_spec cp 2048), (Z.ltb_spec cp 65536); try lia.
  repeat f_equal; unfold cp; dlia.
Qed.

Lemma enc4 (b0 b1 b2 b3 : Z) :
  240 <= b0 < 248 -> 128 <= b1 <= 191 -> 128 <= b2 <= 191 -> 128 <= b3 <= 191 ->
  let cp := (b0 - 240) * 262144 + b1 mod 64 * 4096 + b2 mod 64 * 64 + b3 mod 64 in
  65536 <= cp <= 1114111 -> scalar cp /\ utf8_encode cp = [b0; b1; b2; b3].
Proof.
  intros H0 H1 H2 H3 cp Hcp. assert (scalar cp) as Hs by (split; lia). split; [done|].
  rewrite (encode_arith cp Hs).
  destruct (Z.ltb_spec cp 128), (Z.ltb_spec cp 2048), (Z.ltb_spec cp 65536); try lia.
  repeat f_equal; unfold cp; dlia.
Qed.

(** A step of the decoder on a non-empty string reads between one and four bytes of
    it, and a result other than the replacement character is a scalar value whose
    encoding is what was read. *)
Lemma decode_sound (s : list Z) (cp n : Z) :
  bytes s -> byte_at s 0 <> 0 -> utf8_decode (Some s) = (cp, n) ->
  1 <= n <= zlen s /\ (cp <> REPLACEMENT -> scalar cp /\ take (Z.to_nat n) s = utf8_encode cp).
Proof.
  intros Hs H0 Hd. rewrite decode_arith in Hd by done. cbn zeta in Hd.
  assert (forall i, byte_at s i <> 0 -> Z.of_nat i < zlen s) as Hlt.
  { intros i Hi. unfold byte_at, zlen in *. destruct (s !! i) eqn:E; [|done]. apply lookup_lt_Some in E. lia. }
  assert (0 < byte_at s 0) as Hpos.
  { assert (is_u8 (byte_at s 0)) as [? _]; [|lia]. unfold byte_at in *. destruct (s !! 0%nat) eqn:E; [|done].
    by eapply Forall_lookup in Hs. }
  assert ((REPLACEMENT, 1) = (cp, n) ->
    1 <= n <= zlen s /\ (cp <> REPLACEMENT -> scalar cp /\ take (Z.to_nat n) s = utf8_encode cp)) as Hrep.
  { intros [= <- <-]. split; [|done]. specialize (Hlt 0%nat H0). lia. }
  unfold within in Hd. destruct (Z.eqb_spec (byte_at s 0) 0); [done|].
  destruct (Z.ltb_spec (byte_at s 0) 128).
  { injection Hd as <- <-. split; [specialize (Hlt 0%nat H0); lia|]. intros _.
    assert (scalar (byte_at s 0)) as Hsc by (split; lia). split; [done|]. rewrite (encode_arith _ Hsc).
    destruct (Z.ltb_spec (byte_at s 0) 128); [|lia]. apply (take_bytes s 1). intros [|i] Hi; [done|lia]. }
  destruct (Z.ltb_spec (byte_at s 0) 192); [by apply Hrep|].
  destruct (Z.ltb_spec (byte_at s 0) 224).
  { destruct (_ && _) eqn:E in Hd; [|by apply Hrep]. zbool. injection Hd as <- <-.
    destruct (enc2 (byte_at s 0) (byte_at s 1)) as [Hsc He]; [lia..|].
    split; [specialize (Hlt 1%nat); lia|]. intros _. split; [done|]. rewrite He. apply (take_bytes s 2).
    intros [|[|i]] Hi; lia. }
  destruct (Z.ltb_spec (byte_at s 0) 240).
  { destruct (_ && _) eqn:E in Hd; [|by apply Hrep]. zbool. injection Hd as <- <-.
    split; [specialize (Hlt 2%nat); lia|]. destruct (_ && _) eqn:Es; [done|]. intros _.
    destruct (enc3 (byte_at s 0) (byte_at s 1) (byte_at s 2)) as [Hsc He]; [lia..|].
    split; [done|]. rewrite He. apply (take_bytes s 3). intros [|[|[|i]]] Hi; lia. }
  destruct (Z.ltb_spec (byte_at s 0) 248); [|by apply Hrep].
  destruct (_ && _) eqn:E in Hd; [|by apply Hrep]. zbool. injection Hd as <- <-.
  destruct (enc4 (byte_at s 0) (byte_at s 1) (byte_at s 2) (byte_at s 3)) as [Hsc He]; [lia..|].
  split; [specialize (Hlt 3%nat); lia|]. intros _. split; [done|]. rewrite He. apply (take_bytes s 4).
  intros [|[|[|[|i]]]] Hi; lia.
Qed.

(** C37: the UTF-8 codec.  Decoding the encoding of a scalar value other than zero,
    whatever follows it, gives the value and the length of its encoding; and a
    decoding step on any non-empty string reads one to four bytes of it, and when
    it gives anything but the replacement character, the bytes read are the
    encoding of the scalar value returned. *)
Theorem utf8_codec :
  (forall cp rest, scalar cp -> 0 < cp -> bytes rest ->
     utf8_decode (Some (utf8_encode cp ++ rest)) = (cp, zlen (utf8_encode cp))) /\
  (forall s cp n, bytes s -> byte_at s 0 <> 0 -> utf8_decode (Some s) = (cp, n) ->
     1 <= n <= zlen s /\ (cp <> REPLACEMENT -> scalar cp /\ take (Z.to_nat n) s = utf8_encode cp)).
Proof. split; [apply decode_encode|apply decode_sound]. Qed.

(** The width of a string of encoded scalar values is the sum of their widths. *)
Definition total_width (cps : list Z) : Z := zsum (unicode_char_width <$> cps).

Lemma char_width_bounds (cp : Z) : 0 <= unicode_char_width cp <= 2.
Proof. unfold unicode_char_width. destruct (unicode_is_cjk cp), (within cp 65281 65376), (unicode_is_printable cp); cbn; lia. Qed.

Lemma encode_length (cp : Z) : scalar cp -> 1 <= zlen (utf8_encode cp).
Proof.
  intros Hs. rewrite (encode_arith cp Hs).
  destruct (cp <? 128), (cp <? 2048), (cp <? 65536); rewrite !zlen_cons, zlen_nil; lia.
Qed.

Lemma width_loop_total (fuel : nat) (s : list Z) (w : Z) :
  bytes s -> (length s < fuel)%nat -> is_Some (width_loop fuel s w).
Proof.
  revert s w. induction fuel as [|fuel IH]; intros s w Hs Hf; [lia|]. cbn [width_loop].
  destruct (Z.eqb_spec (byte_at s 0) 0) as [|H0]; [by eexists|].
  destruct (utf8_decode (Some s)) as [cp n] eqn:E. destruct (n =? 0); [by eexists|].
  destruct (decode_sound s cp n Hs H0 E) as [Hn _]. apply IH; [by apply Forall_drop|].
  rewrite length_drop. unfold zlen in Hn. lia.
Qed.

Lemma width_loop_encoded (fuel : nat) (cps : list Z) (w : Z) :
  Forall (fun cp => scalar cp /\ 0 < cp) cps -> 0 <= w -> w + total_width cps < 2 ^ 31 ->
  (length (concat (utf8_encode <$> cps)) < fuel)%nat ->
  width_loop fuel (concat (utf8_encode <$> cps)) w = Some (w + total_width cps).
Proof.
  revert fuel w. induction cps as [|cp cps IH]; intros fuel w Hc Hw Ht Hf.
  { destruct fuel; [lia|]. cbn. by rewrite Z.add_0_r. }
  apply Forall_cons in Hc as [[Hs H0] Hc]. destruct fuel as [|fuel]; [lia|]. rewrite fmap_cons in *. cbn [concat] in *.
  set (rest := concat (utf8_encode <$> cps)) in *.
  assert (bytes rest) as Hrest.
  { unfold rest, bytes. clear -Hc. induction Hc as [|c l [Hc _] _ IH]; cbn; [done|].
    apply Forall_app. split; [by apply encode_bytes|done]. }
  cbn [width_loop]. pose proof (decode_encode cp rest Hs H0 Hrest) as Hd. pose proof (encode_length cp Hs) as Hl.
  destruct (Z.eqb_spec (byte_at (utf8_encode cp ++ rest) 0) 0) as [E|_].
  { unfold utf8_decode in Hd. rewrite E in Hd. cbn in Hd. injection Hd as ? ?. lia. }
  rewrite Hd. destruct (Z.eqb_spec (zlen (utf8_encode cp)) 0); [lia|].
  unfold zlen at 1. rewrite Nat2Z.id, drop_app_length.
  unfold total_width in *. rewrite fmap_cons, zsum_cons in *.
  pose proof (char_width_bounds cp). assert (0 <= zsum (unicode_char_width <$> cps)) as Hnn.
  { clear. induction cps as [|c l IH]; [done|]. rewrite fmap_cons, zsum_cons.
    pose proof (char_width_bounds c). lia. }
  rewrite s32_small by lia. rewrite length_app in Hf. unfold zlen in Hl.
  rewrite IH; [f_equal; lia|done|lia|lia|lia].
Qed.

(** [utf8_string_width] returns for every byte string, and for a string of encoded
    scalar values it is the sum of the widths of the characters, as long as that
    sum fits an [int]. *)
Theorem utf8_width_spec (s : list Z) (cps : list Z) :
  bytes s -> Forall (fun cp => scalar cp /\ 0 < cp) cps -> total_width cps < 2 ^ 31 ->
  is_Some (utf8_string_width (Some s)) /\
  utf8_string_width (Some (concat (utf8_encode <$> cps))) = Some (total_width cps).
Proof.
  intros Hs Hc Ht. split; [apply width_loop_total; [done|lia]|].
  unfold utf8_string_width. rewrite width_loop_encoded by (done || lia). by rewrite Z.add_0_l.
Qed.

Lemma utf8_width_spec_witness :
  utf8_string_width (Some (concat (utf8_encode <$> [65; 20013; 233]))) = Some 4.
Proof.
  apply (utf8_width_spec [] [65; 20013; 233]); [constructor| |done].
  repeat constructor; try done; lia.
Defined.

(** Changing the case of a letter twice gives it back. *)
Lemma case_roundtrip (cp : Z) :
  (unicode_tolower cp <> cp -> unicode_toupper (unicode_tolower cp) = cp) /\
  (unicode_toupper cp <> cp -> unicode_tolower (unicode_toupper cp) = cp).
Proof.
  unfold unicode_tolower, unicode_toupper, within.
  split; intros H; repeat case_if; try done; lia.
Qed.

End Unicode.
