(* ===== verification/Slip.v ===== *)
(** * SLIP framing (src/net/slip.c)

    [Module Slip]: the encoder and the resumable decoder.  The serial line is the
    list of the bytes written to it, or of the bytes ready to be read; the polling
    of the line status register is what separates the bytes that are ready from
    those that are not. *)

From S2P Require Import Prelude.

Module Slip.

Definition SLIP_END : Z := 192.
Definition SLIP_ESC : Z := 219.
Definition SLIP_ESC_END : Z := 220.
Definition SLIP_ESC_ESC : Z := 221.
Definition SLIP_BUF_SIZE : Z := 2048.
Definition COM1_BASE : Z := 1016. (* 0x3F8 *)

(** [rx]: the first [slip_rx_len] bytes of [slip_rx_buf]. *)
Record slip := mk_slip { rx : list Z; rx_escaped : bool; initialized : bool }.

(** The state before [slip_init]: static storage is zero. *)
Definition boot : slip := mk_slip [] false false.

(** The new state and the port writes. *)
Definition slip_init : slip * list (Z * Z) :=
  (mk_slip [] false true,
   [(COM1_BASE + 1, 0); (COM1_BASE + 3, 128); (COM1_BASE + 0, 1); (COM1_BASE + 1, 0);
    (COM1_BASE + 3, 3); (COM1_BASE + 2, 199); (COM1_BASE + 4, 11)]).

(** The bytes written for one byte of the packet. *)
Definition escape (b : Z) : list Z :=
  if b =? SLIP_END then [SLIP_ESC; SLIP_ESC_END]
  else if b =? SLIP_ESC then [SLIP_ESC; SLIP_ESC_ESC]
  else [b].

(** The result and the bytes written; [None] is the null pointer. *)
Definition slip_send (st : slip) (buf : option (list Z)) : Z * list Z :=
  match buf with
  | None => (-1, [])
  | Some p =>
      if (zlen p =? 0) || negb (initialized st) then (-1, [])
      else (s32 (zlen p), [SLIP_END] ++ concat (escape <$> p) ++ [SLIP_END])
  end.

(** The loop over the bytes that are ready: the result, the bytes copied to the
    caller, the new state and the bytes not read yet. *)
Fixpoint recv_loop (maxlen : Z) (line : list Z) (st : slip) : Z * list Z * slip * list Z :=
  match line with
  | [] => (0, [], st, [])
  | c :: line =>
      if c =? SLIP_END then
        if 0 <? zlen (rx st) then
          let len := if maxlen <? zlen (rx st) then maxlen else zlen (rx st) in
          (s32 len, take (Z.to_nat len) (rx st), mk_slip [] false (initialized st), line)
        else recv_loop maxlen line (mk_slip (rx st) false (initialized st))
      else if c =? SLIP_ESC then recv_loop maxlen line (mk_slip (rx st) true (initialized st))
      else
        let c := if rx_escaped st then
                   if c =? SLIP_ESC_END then SLIP_END
                   else if c =? SLIP_ESC_ESC then SLIP_ESC else c
                 else c in
        let rx' := if zlen (rx st) <? SLIP_BUF_SIZE then rx st ++ [c] else rx st in
        recv_loop maxlen line (mk_slip rx' false (initialized st))
  end.

Definition slip_recv (buf_null : bool) (maxlen : Z) (line : list Z) (st : slip) :
    Z * list Z * slip * list Z :=
  if buf_null || (maxlen =? 0) || negb (initialized st) then (-1, [], st, line)
  else recv_loop maxlen line st.

(** ** Lemmas *)

(** Between packets. *)
Definition idle : slip := mk_slip [] false true.

(** The bytes of a packet that reach the caller. *)
Definition delivered (maxlen : Z) (p : list Z) : list Z := take (Z.to_nat (Z.min maxlen (zlen p))) p.

(** When the bytes ready so far complete no packet, going on with the next ones is
    reading them all at once. *)
Lemma recv_resume (maxlen : Z) (l1 l2 : list Z) (st st' : slip) :
  0 < maxlen < 2 ^ 31 -> zlen (rx st) <= SLIP_BUF_SIZE -> recv_loop maxlen l1 st = (0, [], st', []) ->
  recv_loop maxlen (l1 ++ l2) st = recv_loop maxlen l2 st'.
Proof.
  intros Hm. revert st. induction l1 as [|c l1 IH]; intros st Hl; cbn [app recv_loop]; [by intros [= <-]|].
  destruct (c =? SLIP_END); [|destruct (c =? SLIP_ESC); apply IH; try done].
  - destruct (Z.ltb_spec 0 (zlen (rx st))) as [Hp|]; [|by apply IH]. intros [= H0 _ _ _]. exfalso.
    unfold SLIP_BUF_SIZE in Hl. destruct (_ <? _); rewrite s32_small in H0 by lia; lia.
  - cbn [rx]. destruct (Z.ltb_spec (zlen (rx st)) SLIP_BUF_SIZE); [|done].
    rewrite zlen_app, zlen_cons, zlen_nil. lia.
Qed.

(** Without an END byte nothing is delivered. *)
Lemma recv_quiet (maxlen : Z) (l : list Z) (st : slip) :
  Forall (fun c => c <> SLIP_END) l ->
  exists st', recv_loop maxlen l st = (0, [], st', []) /\ initialized st' = initialized st.
Proof.
  intros Hl. revert st. induction Hl as [|c l Hc Hl IH]; intros st; cbn [recv_loop]; [by eexists|].
  destruct (Z.eqb_spec c SLIP_END); [done|]. destruct (c =? SLIP_ESC).
  - destruct (IH (mk_slip (rx st) true (initialized st))) as (st' & ? & ?). eauto.
  - set (rx' := if _ <? _ then _ else _). destruct (IH (mk_slip rx' false (initialized st))) as (st' & ? & ?). eauto.
Qed.

Lemma escape_no_end (p : list Z) : Forall (fun c => c <> SLIP_END) (concat (escape <$> p)).
Proof.
  induction p as [|b p IH]; [constructor|]. rewrite fmap_cons. cbn [concat]. apply Forall_app. split; [|done].
  unfold escape. destruct (Z.eqb_spec b SLIP_END); [by repeat constructor|].
  destruct (b =? SLIP_ESC); by repeat constructor.
Qed.

(** The escaped bytes of [p] add [p] to the buffer, up to its size. *)
Lemma recv_escaped (maxlen : Z) (p acc l : list Z) :
  zlen acc <= SLIP_BUF_SIZE ->
  recv_loop maxlen (concat (escape <$> p) ++ l) (mk_slip acc false true) =
  recv_loop maxlen l (mk_slip (take (Z.to_nat SLIP_BUF_SIZE) (acc ++ p)) false true).
Proof.
  revert acc. induction p as [|b p IH]; intros acc Ha.
  { cbn [fmap list_fmap concat app]. rewrite app_nil_r, take_ge; [done|]. unfold zlen in Ha. lia. }
  rewrite fmap_cons. cbn [concat]. rewrite <-app_assoc.
  set (acc' := if zlen acc <? SLIP_BUF_SIZE then acc ++ [b] else acc).
  assert (forall k, recv_loop maxlen (escape b ++ k) (mk_slip acc false true) =
    recv_loop maxlen k (mk_slip acc' false true)) as ->.
  { intros k. unfold escape, acc'. destruct (Z.eqb_spec b SLIP_END) as [->|HE]; [done|].
    destruct (Z.eqb_spec b SLIP_ESC) as [->|HS]; [done|]. cbn [app recv_loop rx rx_escaped initialized].
    apply Z.eqb_neq in HE, HS. by rewrite HE, HS. }
  unfold acc'. destruct (Z.ltb_spec (zlen acc) SLIP_BUF_SIZE).
  - rewrite IH by (rewrite zlen_app, zlen_cons, zlen_nil; lia). by rewrite <-app_assoc.
  - rewrite IH by done. unfold zlen, SLIP_BUF_SIZE in *. rewrite !take_app_le by lia. done.
Qed.

Lemma recv_frame (maxlen : Z) (p rest : list Z) :
  p <> [] -> 0 < maxlen < 2 ^ 31 ->
  recv_loop maxlen ([SLIP_END] ++ concat (escape <$> p) ++ [SLIP_END] ++ rest) idle =
    (Z.min maxlen (Z.min SLIP_BUF_SIZE (zlen p)), delivered maxlen (take (Z.to_nat SLIP_BUF_SIZE) p), idle, rest).
Proof.
  intros Hp Hm. cbn [app recv_loop]. change (SLIP_END =? SLIP_END) with true. cbn match.
  change (0 <? zlen (rx idle)) with false. cbn match. cbn [rx idle initialized].
  rewrite recv_escaped by (unfold SLIP_BUF_SIZE; rewrite zlen_nil; lia). cbn [app recv_loop].
  change (SLIP_END =? SLIP_END) with true. cbn match. cbn [rx initialized].
  assert (zlen (take (Z.to_nat SLIP_BUF_SIZE) p) = Z.min SLIP_BUF_SIZE (zlen p)) as Hl.
  { unfold zlen, SLIP_BUF_SIZE. rewrite length_take. lia. }
  assert (0 < zlen p) by (destruct p; [done|rewrite zlen_cons; pose proof (zlen_nonneg p); lia]).
  rewrite Hl. unfold SLIP_BUF_SIZE in *. destruct (Z.ltb_spec 0 (Z.min 2048 (zlen p))); [|lia].
  unfold delivered. rewrite Hl.
  destruct (Z.ltb_spec maxlen (Z.min 2048 (zlen p))); rewrite s32_small by lia.
  - by rewrite (Z.min_l maxlen) by lia.
  - by rewrite (Z.min_r maxlen) by lia.
Qed.

(** What [slip_send] writes for a non-empty packet, [slip_recv] reads back: an idle
    receiver given those bytes and any further ones returns the length and the
    bytes of the packet (cut to its own buffer and to the caller's), is idle again
    and has read nothing of what follows; and when the bytes arrive in two parts,
    the first call reports that no packet is complete and the second delivers it. *)
Theorem slip_roundtrip (p rest l1 l2 : list Z) (maxlen : Z) :
  p <> [] -> 0 < maxlen < 2 ^ 31 -> (slip_send idle (Some p)).2 = l1 ++ l2 -> l2 <> [] ->
  slip_recv false maxlen ((slip_send idle (Some p)).2 ++ rest) idle =
    (Z.min maxlen (Z.min SLIP_BUF_SIZE (zlen p)),
     delivered maxlen (take (Z.to_nat SLIP_BUF_SIZE) p), idle, rest) /\
  exists st, slip_recv false maxlen l1 idle = (0, [], st, []) /\
    slip_recv false maxlen (l2 ++ rest) st = slip_recv false maxlen ((slip_send idle (Some p)).2 ++ rest) idle.
Proof.
  intros Hp Hm Hs Hl2. assert ((slip_send idle (Some p)).2 = [SLIP_END] ++ concat (escape <$> p) ++ [SLIP_END]) as Hf.
  { unfold slip_send. destruct (Z.eqb_spec (zlen p) 0) as [E|]; [|done].
    destruct p; [done|]. rewrite zlen_cons in E. pose proof (zlen_nonneg p). lia. }
  rewrite Hf in *. rewrite <-!app_assoc. unfold slip_recv. destruct (Z.eqb_spec maxlen 0); [lia|]. cbn [orb negb idle initialized].
  fold idle. split; [by apply recv_frame|].
  destruct l2 as [|x l2 _] using rev_ind; [done|]. rewrite !app_assoc in Hs. apply app_inj_tail in Hs as [Hs <-].
  assert (exists st, recv_loop maxlen l1 idle = (0, [], st, []) /\ initialized st = true) as (st & Hq & Hi).
  { destruct l1 as [|c l1]; [by exists idle|]. cbn [app] in Hs. injection Hs as <- Hs. cbn [recv_loop].
    change (SLIP_END =? SLIP_END) with true. cbn match. change (0 <? zlen (rx idle)) with false. cbn match.
    cbn [rx idle initialized]. pose proof (escape_no_end p) as Hn. rewrite Hs in Hn.
    apply Forall_app in Hn as [Hn _]. exact (recv_quiet maxlen l1 (mk_slip [] false true) Hn). }
  exists st. split; [done|]. rewrite Hi. cbn [negb].
  rewrite <-(recv_resume maxlen l1 ((l2 ++ [SLIP_END]) ++ rest) idle st) by (done || (unfold SLIP_BUF_SIZE; cbn; lia)).
  f_equal. rewrite <-!app_assoc. cbn [app] in *. rewrite app_comm_cons, Hs, <-app_assoc. done.
Qed.

Lemma slip_roundtrip_witness :
  slip_recv false 100 [192; 1; 219; 220; 192; 7] idle = (2, [1; 192], idle, [7]).
Proof.
  apply (slip_roundtrip [1; 192] [7] [192; 1] [219; 220; 192] 100); [done|lia|reflexivity|done].
Defined.

End Slip.
