(* ===== verification/RbTree.v ===== *)
(** * Intrusive red-black trees (src/lib/rbtree.c)

    [Module RbTree]: the pointer structure with its insertion, search, iteration and
    removal.  The nodes live in a heap indexed by address; reading or writing
    through a pointer to no node is a fault, the result [None].  The key of a node
    is the 64-bit word at [key_offset] in the structure that embeds it.  Loops run
    on fuel; the theorems show that the number of nodes is enough of it. *)

From S2P Require Import Prelude.

Module RbTree.

Definition RB_RED : Z := 0.
Definition RB_BLACK : Z := 1.

Record rb_node := mk_node { parent : Z; left : Z; right : Z; color : Z; key : Z }.
Record rb_stats := mk_stats { inserts : Z; erases : Z; finds : Z; rotations : Z }.

(** The root pointer, the nodes and the global counters. *)
Record rb := mk_rb { root : Z; heap : gmap Z rb_node; g_stats : rb_stats }.

Definition set_parent (v : Z) (n : rb_node) : rb_node := mk_node v (left n) (right n) (color n) (key n).
Definition set_left (v : Z) (n : rb_node) : rb_node := mk_node (parent n) v (right n) (color n) (key n).
Definition set_right (v : Z) (n : rb_node) : rb_node := mk_node (parent n) (left n) v (color n) (key n).
Definition set_color (v : Z) (n : rb_node) : rb_node := mk_node (parent n) (left n) (right n) v (key n).

Definition set_root (v : Z) (s : rb) : rb := mk_rb v (heap s) (g_stats s).
Definition count_rotation (s : rb) : rb :=
  let g := g_stats s in
  mk_rb (root s) (heap s) (mk_stats (inserts g) (erases g) (finds g) (u64 (rotations g + 1))).
Definition count_insert (s : rb) : rb :=
  let g := g_stats s in
  mk_rb (root s) (heap s) (mk_stats (u64 (inserts g + 1)) (erases g) (finds g) (rotations g)).
Definition count_erase (s : rb) : rb :=
  let g := g_stats s in
  mk_rb (root s) (heap s) (mk_stats (inserts g) (u64 (erases g + 1)) (finds g) (rotations g)).
Definition count_find (s : rb) : rb :=
  let g := g_stats s in
  mk_rb (root s) (heap s) (mk_stats (inserts g) (erases g) (u64 (finds g + 1)) (rotations g)).

(** [p->field = v] *)
Definition upd (f : rb_node -> rb_node) (p : Z) (s : rb) : option rb :=
  n ← heap s !! p; Some (mk_rb (root s) (<[p := f n]> (heap s)) (g_stats s)).

(** [if (p) p->parent = v] *)
Definition set_parent_if (p v : Z) (s : rb) : option rb :=
  if p =? NULL then Some s else upd (set_parent v) p s.

(** [if (!node->parent) root->node = v; else if (node == node->parent->left)
    node->parent->left = v; else node->parent->right = v;], and with the test on the
    right child first. *)
Definition replace_child (node par v : Z) (s : rb) : option rb :=
  if par =? NULL then Some (set_root v s)
  else np ← heap s !! par;
       if node =? left np then upd (set_left v) par s else upd (set_right v) par s.
Definition replace_child_r (node par v : Z) (s : rb) : option rb :=
  if par =? NULL then Some (set_root v s)
  else np ← heap s !! par;
       if node =? right np then upd (set_right v) par s else upd (set_left v) par s.

Definition left_rotate (x : Z) (s : rb) : option rb :=
  let s := count_rotation s in
  nx ← heap s !! x;
  let y := right nx in
  ny ← heap s !! y;
  s ← upd (set_right (left ny)) x s;
  s ← set_parent_if (left ny) x s;
  s ← upd (set_parent (parent nx)) y s;
  s ← replace_child x (parent nx) y s;
  s ← upd (set_left x) y s;
  upd (set_parent y) x s.

Definition right_rotate (x : Z) (s : rb) : option rb :=
  let s := count_rotation s in
  nx ← heap s !! x;
  let y := left nx in
  ny ← heap s !! y;
  s ← upd (set_left (right ny)) x s;
  s ← set_parent_if (right ny) x s;
  s ← upd (set_parent (parent nx)) y s;
  s ← replace_child_r x (parent nx) y s;
  s ← upd (set_right x) y s;
  upd (set_parent y) x s.

Definition rbtree_init (s : rb) : rb := set_root NULL s.
Definition rbtree_empty (s : rb) : bool := root s =? NULL.

(** The descent of [rbtree_insert]: the last node met. *)
Fixpoint descend (fuel : nat) (s : rb) (k par cur : Z) : option Z :=
  match fuel with
  | O => None
  | S fuel =>
      if cur =? NULL then Some par
      else n ← heap s !! cur; descend fuel s k cur (if k <? key n then left n else right n)
  end.

(** [u && u->color == RB_RED] *)
Definition is_red (s : rb) (u : Z) : option bool :=
  if u =? NULL then Some false else n ← heap s !! u; Some (color n =? RB_RED).

(** The rebalancing loop. *)
Fixpoint rebalance (fuel : nat) (node : Z) (s : rb) : option rb :=
  match fuel with
  | O => None
  | S fuel =>
      if node =? root s then Some s
      else
        n ← heap s !! node;
        np ← heap s !! parent n;
        if negb (color np =? RB_RED) then Some s
        else
          let gp := parent np in
          ngp ← heap s !! gp;
          if parent n =? left ngp then
            let u := right ngp in
            red ← is_red s u;
            if red : bool then
              s ← upd (set_color RB_BLACK) u s;
              s ← upd (set_color RB_BLACK) (parent n) s;
              s ← upd (set_color RB_RED) gp s;
              rebalance fuel gp s
            else
              '(node, s) ← (if node =? right np
                            then s ← left_rotate (parent n) s; Some (parent n, s)
                            else Some (node, s));
              n ← heap s !! node;
              s ← upd (set_color RB_BLACK) (parent n) s;
              np ← heap s !! parent n;
              s ← upd (set_color RB_RED) (parent np) s;
              s ← right_rotate (parent np) s;
              rebalance fuel node s
          else
            let u := left ngp in
            red ← is_red s u;
            if red : bool then
              s ← upd (set_color RB_BLACK) u s;
              s ← upd (set_color RB_BLACK) (parent n) s;
              s ← upd (set_color RB_RED) gp s;
              rebalance fuel gp s
            else
              '(node, s) ← (if node =? left np
                            then s ← right_rotate (parent n) s; Some (parent n, s)
                            else Some (node, s));
              n ← heap s !! node;
              s ← upd (set_color RB_BLACK) (parent n) s;
              np ← heap s !! parent n;
              s ← upd (set_color RB_RED) (parent np) s;
              s ← left_rotate (parent np) s;
              rebalance fuel node s
  end.

(** The fuel of every loop: the number of nodes and two. *)
Definition fuel_of (s : rb) : nat := S (S (size (heap s))).

Definition rbtree_insert (node k : Z) (s : rb) : option rb :=
  if node =? NULL then Some s
  else
    let s := count_insert s in
    s ← upd (set_left NULL) node s;
    s ← upd (set_right NULL) node s;
    s ← upd (set_color RB_RED) node s;
    par ← descend (fuel_of s) s k NULL (root s);
    s ← upd (set_parent par) node s;
    s ← (if par =? NULL then Some (set_root node s)
         else np ← heap s !! par;
              if k <? key np then upd (set_left node) par s else upd (set_right node) par s);
    s ← rebalance (fuel_of s) node s;
    upd (set_color RB_BLACK) (root s) s.

Fixpoint find_loop (fuel : nat) (s : rb) (k cur : Z) : option Z :=
  match fuel with
  | O => None
  | S fuel =>
      if cur =? NULL then Some NULL
      else n ← heap s !! cur;
           if k =? key n then Some cur
           else find_loop fuel s k (if k <? key n then left n else right n)
  end.
Definition rbtree_find (k : Z) (s : rb) : option Z * rb :=
  let s := count_find s in (find_loop (fuel_of s) s k (root s), s).

(** [while (x->left) x = x->left] from a node, and its mirror image. *)
Fixpoint leftmost (fuel : nat) (s : rb) (x : Z) : option Z :=
  match fuel with
  | O => None
  | S fuel => n ← heap s !! x; if left n =? NULL then Some x else leftmost fuel s (left n)
  end.
Fixpoint rightmost (fuel : nat) (s : rb) (x : Z) : option Z :=
  match fuel with
  | O => None
  | S fuel => n ← heap s !! x; if right n =? NULL then Some x else rightmost fuel s (right n)
  end.

Definition tree_min (s : rb) (x : Z) : option Z := if x =? NULL then Some NULL else leftmost (fuel_of s) s x.
Definition rbtree_first (s : rb) : option Z := tree_min s (root s).
Definition rbtree_last (s : rb) : option Z :=
  if root s =? NULL then Some NULL else rightmost (fuel_of s) s (root s).

(** [while (p && node == p->right) { node = p; p = p->parent; }] and its mirror image. *)
Fixpoint climb_right (fuel : nat) (s : rb) (node p : Z) : option Z :=
  match fuel with
  | O => None
  | S fuel =>
      if p =? NULL then Some NULL
      else np ← heap s !! p; if node =? right np then climb_right fuel s p (parent np) else Some p
  end.
Fixpoint climb_left (fuel : nat) (s : rb) (node p : Z) : option Z :=
  match fuel with
  | O => None
  | S fuel =>
      if p =? NULL then Some NULL
      else np ← heap s !! p; if node =? left np then climb_left fuel s p (parent np) else Some p
  end.

Definition rbtree_next (s : rb) (node : Z) : option Z :=
  if node =? NULL then Some NULL
  else n ← heap s !! node;
       if negb (right n =? NULL) then tree_min s (right n)
       else climb_right (fuel_of s) s node (parent n).
Definition rbtree_prev (s : rb) (node : Z) : option Z :=
  if node =? NULL then Some NULL
  else n ← heap s !! node;
       if negb (left n =? NULL) then rightmost (fuel_of s) s (left n)
       else climb_left (fuel_of s) s node (parent n).

(** [node->left = node->right = NULL; node->parent = NULL] *)
Definition unlink (node : Z) (s : rb) : option rb :=
  upd (fun n => set_parent NULL (set_left NULL (set_right NULL n))) node s.

Definition rbtree_erase (node : Z) (s : rb) : option rb :=
  if node =? NULL then Some s
  else
    let s := count_erase s in
    n ← heap s !! node;
    if negb (left n =? NULL) && negb (right n =? NULL) then
      y ← tree_min s (right n);
      ny ← heap s !! y;
      let x := right ny in
      s ← (if parent ny =? node then set_parent_if x y s
           else s ← set_parent_if x (parent ny) s;
                s ← upd (set_right (right n)) y s;
                set_parent_if (right n) y s);
      s ← upd (set_left (left n)) y s;
      s ← set_parent_if (left n) y s;
      s ← upd (set_parent (parent n)) y s;
      s ← upd (set_color (color n)) y s;
      s ← replace_child node (parent n) y s;
      unlink node s
    else
      let x := if left n =? NULL then right n else left n in
      s ← set_parent_if x (parent n) s;
      s ← replace_child node (parent n) x s;
      s ← unlink node s;
      s ← upd (set_color 0) node s;
      if (color n =? RB_BLACK) && negb (parent n =? NULL) && negb (x =? NULL)
      then upd (set_color RB_BLACK) x s else Some s.

(** ** Abstract trees *)

Inductive tree := E | T (c : Z) (l : tree) (a k : Z) (r : tree).

Definition addr (t : tree) : Z := match t with E => NULL | T _ _ a _ _ => a end.

(** The nodes in order, as pairs of an address and a key. *)
Fixpoint inorder (t : tree) : list (Z * Z) :=
  match t with E => [] | T _ l a k r => inorder l ++ (a, k) :: inorder r end.
Definition addrs (t : tree) : list Z := (inorder t).*1.

(** The heap holds [t] with [par] as the parent of its root. *)
Fixpoint rep (h : gmap Z rb_node) (par : Z) (t : tree) : Prop :=
  match t with
  | E => True
  | T c l a k r =>
      h !! a = Some (mk_node par (addr l) (addr r) c k) /\ rep h a l /\ rep h a r
  end.

(** A step from a subtree up to its parent: the subtree is the left, or the right,
    child of the node. *)
Inductive frame := FL (c a k : Z) (r : tree) | FR (c : Z) (l : tree) (a k : Z).
Notation context := (list frame).

Definition fill1 (f : frame) (t : tree) : tree :=
  match f with FL c a k r => T c t a k r | FR c l a k => T c l a k t end.
Definition plug (ctx : context) (t : tree) : tree := foldl (fun t f => fill1 f t) t ctx.
Definition faddr (f : frame) : Z := match f with FL _ a _ _ => a | FR _ _ a _ => a end.
Definition cpar (ctx : context) : Z := match ctx with [] => NULL | f :: _ => faddr f end.

Fixpoint rep_ctx (h : gmap Z rb_node) (ctx : context) (child : Z) : Prop :=
  match ctx with
  | [] => True
  | FL c a k r :: ctx =>
      h !! a = Some (mk_node (cpar ctx) child (addr r) c k) /\ rep h a r /\ rep_ctx h ctx a
  | FR c l a k :: ctx =>
      h !! a = Some (mk_node (cpar ctx) (addr l) child c k) /\ rep h a l /\ rep_ctx h ctx a
  end.

Lemma rep_plug (h : gmap Z rb_node) (ctx : context) (t : tree) :
  rep h NULL (plug ctx t) <-> rep_ctx h ctx (addr t) /\ rep h (cpar ctx) t.
Proof.
  revert t. induction ctx as [|f ctx IH]; intros t; [cbn; tauto|].
  change (plug (f :: ctx) t) with (plug ctx (fill1 f t)). rewrite IH.
  destruct f; cbn [fill1 addr rep rep_ctx cpar faddr]; tauto.
Qed.

(** The nodes left and right of the focus. *)
Fixpoint before (ctx : context) : list (Z * Z) :=
  match ctx with
  | [] => []
  | FL _ _ _ _ :: ctx => before ctx
  | FR _ l a k :: ctx => before ctx ++ inorder l ++ [(a, k)]
  end.
Fixpoint after (ctx : context) : list (Z * Z) :=
  match ctx with
  | [] => []
  | FL _ a k r :: ctx => (a, k) :: inorder r ++ after ctx
  | FR _ _ _ _ :: ctx => after ctx
  end.

Lemma inorder_plug (ctx : context) (t : tree) :
  inorder (plug ctx t) = before ctx ++ inorder t ++ after ctx.
Proof.
  revert t. induction ctx as [|f ctx IH]; intros t; [cbn; by rewrite app_nil_r|].
  change (plug (f :: ctx) t) with (plug ctx (fill1 f t)). rewrite IH.
  destruct f; cbn [fill1 inorder before after]; rewrite <-?app_assoc; cbn [app]; by rewrite <-?app_assoc.
Qed.

Definition caddrs (ctx : context) : list Z := (before ctx).*1 ++ (after ctx).*1.

Lemma addrs_plug (ctx : context) (t : tree) : addrs (plug ctx t) ≡ₚ caddrs ctx ++ addrs t.
Proof.
  unfold addrs, caddrs. rewrite inorder_plug, !fmap_app, <-!app_assoc. f_equiv. apply Permutation_app_comm.
Qed.

(** ** Frame lemmas *)

Lemma rep_frame (h h' : gmap Z rb_node) (par : Z) (t : tree) :
  rep h par t -> (forall a, a ∈ addrs t -> h' !! a = h !! a) -> rep h' par t.
Proof.
  unfold addrs. revert par. induction t as [|c l IHl a k r IHr]; intros par; [done|]. cbn [rep inorder].
  rewrite fmap_app, fmap_cons. intros (Ha & Hl & Hr) Heq. split_and!.
  - rewrite Heq by set_solver. done.
  - apply IHl; [done|]. intros b Hb. apply Heq. set_solver.
  - apply IHr; [done|]. intros b Hb. apply Heq. set_solver.
Qed.

Lemma rep_ctx_frame (h h' : gmap Z rb_node) (ctx : context) (child : Z) :
  rep_ctx h ctx child -> (forall a, a ∈ caddrs ctx -> h' !! a = h !! a) -> rep_ctx h' ctx child.
Proof.
  unfold caddrs. revert child. induction ctx as [|[c a k r|c l a k] ctx IH]; intros child; [done|..];
    cbn [rep_ctx before after]; rewrite ?fmap_app, ?fmap_cons, ?fmap_app;
    intros (Ha & Hr & Hc) Heq; (split_and!; [rewrite Heq by set_solver; done| |]).
  - eapply rep_frame; [done|]. intros b Hb. apply Heq. unfold addrs in Hb. set_solver.
  - apply IH; [done|]. intros b Hb. apply Heq. set_solver.
  - eapply rep_frame; [done|]. intros b Hb. apply Heq. unfold addrs in Hb. set_solver.
  - apply IH; [done|]. intros b Hb. apply Heq. set_solver.
Qed.

(** Replacing the child pointer in the nearest frame. *)
Lemma rep_ctx_child (h h' : gmap Z rb_node) (ctx : context) (x y : Z) :
  rep_ctx h ctx x -> NoDup (caddrs ctx) ->
  (forall a, a ∈ caddrs ctx -> a <> cpar ctx -> h' !! a = h !! a) ->
  match ctx with
  | [] => True
  | FL c a k r :: up => h' !! a = Some (mk_node (cpar up) y (addr r) c k)
  | FR c l a k :: up => h' !! a = Some (mk_node (cpar up) (addr l) y c k)
  end -> rep_ctx h' ctx y.
Proof.
  unfold caddrs. destruct ctx as [|[c a k r|c l a k] ctx]; [done|..]; cbn [rep_ctx before after cpar faddr];
    rewrite ?fmap_app, ?fmap_cons, ?fmap_app; intros (Ha & Hr & Hc) Hnd Heq Ha';
    rewrite ?NoDup_app, ?NoDup_cons in Hnd; (split_and!; [done| |]).
  - eapply rep_frame; [done|]. intros b Hb. unfold addrs in Hb. apply Heq; set_solver.
  - eapply rep_ctx_frame; [done|]. intros b Hb. unfold caddrs in Hb. apply Heq; set_solver.
  - eapply rep_frame; [done|]. intros b Hb. unfold addrs in Hb. apply Heq; set_solver.
  - eapply rep_ctx_frame; [done|]. intros b Hb. unfold caddrs in Hb. apply Heq; set_solver.
Qed.

(** ** The state of a tree *)

(** The heap holds [t] as the whole tree. *)
Record holds (s : rb) (t : tree) : Prop := {
  h_root : root s = addr t;
  h_rep : rep (heap s) NULL t;
  h_nodup : NoDup (addrs t);
  h_null : heap s !! NULL = None }.

Lemma rep_elem (h : gmap Z rb_node) (par : Z) (t : tree) (a : Z) :
  rep h par t -> a ∈ addrs t -> is_Some (h !! a).
Proof.
  unfold addrs. revert par. induction t as [|c l IHl b k r IHr]; intros par; cbn [rep inorder]; [set_solver|].
  rewrite fmap_app, fmap_cons, elem_of_app, elem_of_cons. intros (Hb & Hl & Hr) [?|[->|?]]; eauto.
Qed.

Lemma holds_nonnull (s : rb) (t : tree) (a : Z) : holds s t -> a ∈ addrs t -> a <> NULL.
Proof. intros [_ Hr _ Hn] Ha ->. destruct (rep_elem _ _ _ _ Hr Ha). congruence. Qed.

(** The node in focus. *)
Lemma holds_node (s : rb) (ctx : context) (c a k : Z) (l r : tree) :
  holds s (plug ctx (T c l a k r)) ->
  heap s !! a = Some (mk_node (cpar ctx) (addr l) (addr r) c k).
Proof. intros [_ Hr _ _]. apply rep_plug in Hr as [_ (Ha & _)]. done. Qed.

Lemma addr_plug_cons (f : frame) (ctx : context) (t t' : tree) :
  addr (plug (f :: ctx) t) = addr (plug (f :: ctx) t').
Proof.
  revert f t t'. induction ctx as [|g ctx IH]; intros f t t'; [by destruct f|].
  change (plug (f :: g :: ctx) ?t) with (plug (g :: ctx) (fill1 f t)). apply IH.
Qed.

Lemma cpar_elem (ctx : context) : ctx <> [] -> cpar ctx ∈ caddrs ctx.
Proof.
  destruct ctx as [|[c a k r|c l a k] ctx]; [done|..]; intros _; unfold caddrs; cbn [before after cpar faddr];
    rewrite ?fmap_app, ?fmap_cons; cbn [fmap list_fmap fst]; set_solver.
Qed.

Lemma holds_parts (s : rb) (ctx : context) (t : tree) :
  holds s (plug ctx t) ->
  rep_ctx (heap s) ctx (addr t) /\ rep (heap s) (cpar ctx) t /\
  NoDup (caddrs ctx) /\ NoDup (addrs t) /\ (forall a, a ∈ caddrs ctx -> a ∈ addrs t -> False).
Proof.
  intros [_ Hr Hn _]. apply rep_plug in Hr as [Hc Ht]. rewrite addrs_plug in Hn.
  apply NoDup_app in Hn as (H1 & H2 & H3). split_and!; done.
Qed.

(** What the nearest frame must say when the focus has [y] as its root. *)
Definition frame_ok (h : gmap Z rb_node) (ctx : context) (y : Z) : Prop :=
  match ctx with
  | [] => True
  | FL c a k r :: up => h !! a = Some (mk_node (cpar up) y (addr r) c k)
  | FR c l a k :: up => h !! a = Some (mk_node (cpar up) (addr l) y c k)
  end.

Lemma rep_ctx_frame_ok (h : gmap Z rb_node) (ctx : context) (x : Z) : rep_ctx h ctx x -> frame_ok h ctx x.
Proof. destruct ctx as [|[]]; [done|..]; by intros (? & _). Qed.

(** Replacing the focus by a tree with the same nodes. *)
Lemma holds_focus (s s' : rb) (ctx : context) (t t' : tree) :
  holds s (plug ctx t) -> addrs t' = addrs t ->
  root s' = (if ctx is [] then addr t' else root s) ->
  rep (heap s') (cpar ctx) t' -> frame_ok (heap s') ctx (addr t') ->
  (forall a, a ∈ caddrs ctx -> a <> cpar ctx -> heap s' !! a = heap s !! a) ->
  heap s' !! NULL = None -> holds s' (plug ctx t').
Proof.
  intros Hs Ha Hroot Hrep Hfr Hother Hnull. destruct (holds_parts s ctx t Hs) as (Hc & Ht & Hn1 & Hn2 & Hn3).
  constructor; [| | |done].
  - rewrite Hroot. destruct ctx as [|f ctx]; [done|]. rewrite (h_root _ _ Hs). apply addr_plug_cons.
  - apply rep_plug. split; [|done]. by eapply rep_ctx_child.
  - rewrite addrs_plug, Ha, <-addrs_plug. apply (h_nodup _ _ Hs).
Qed.

(** Recolouring the node in focus. *)
Lemma holds_color (s : rb) (ctx : context) (c c' a k : Z) (l r : tree) :
  holds s (plug ctx (T c l a k r)) ->
  exists s', upd (set_color c') a s = Some s' /\ holds s' (plug ctx (T c' l a k r)).
Proof.
  intros Hs. pose proof (holds_node _ _ _ _ _ _ _ Hs) as Ha. unfold upd. rewrite Ha.
  eexists. split; [done|]. destruct (holds_parts _ _ _ Hs) as (Hc & (_ & Hl & Hr) & Hn1 & Hn2 & Hn3).
  unfold addrs in Hn2, Hn3. cbn [inorder] in Hn2, Hn3. rewrite fmap_app, fmap_cons in Hn2, Hn3.
  apply NoDup_app in Hn2 as (Hn4 & Hn5 & Hn6). apply NoDup_cons in Hn6 as [Hn6 Hn7].
  assert (a <> NULL) as Hnz.
  { eapply holds_nonnull; [done|]. rewrite addrs_plug. unfold addrs. cbn. rewrite fmap_app, fmap_cons. set_solver. }
  eapply holds_focus; [done|done| | | | |]; cbn [heap root].
  - rewrite (h_root _ _ Hs). by destruct ctx.
  - cbn [rep]. rewrite lookup_insert_eq. split_and!; [done|..]; (eapply rep_frame; [done|]; intros b Hb;
      unfold addrs in Hb; rewrite lookup_insert_ne by set_solver; done).
  - apply rep_ctx_frame_ok in Hc. destruct ctx as [|f ctx]; [done|].
    assert (faddr f ∈ caddrs (f :: ctx)) as Hf by by apply (cpar_elem (f :: ctx)).
    destruct f; cbn [frame_ok faddr addr] in *; rewrite lookup_insert_ne by (intros ->; eapply Hn3; [done|set_solver]); done.
  - intros b Hb _. rewrite lookup_insert_ne; [done|]. intros ->. eapply Hn3; [done|set_solver].
  - rewrite lookup_insert_ne by done. apply (h_null _ _ Hs).
Qed.

(** The distinct cells around a rotation: the two nodes, the middle subtree, the outer
    subtrees, the context. *)
Record around (ctx : context) (x y : Z) (A B C : tree) : Prop := {
  ar_xy : x <> y;
  ar_x : x ∉ addrs A /\ x ∉ addrs B /\ x ∉ addrs C /\ x ∉ caddrs ctx /\ x <> NULL;
  ar_y : y ∉ addrs A /\ y ∉ addrs B /\ y ∉ addrs C /\ y ∉ caddrs ctx /\ y <> NULL;
  ar_B : forall b, b ∈ addrs B -> b ∉ addrs A /\ b ∉ addrs C /\ b ∉ caddrs ctx /\ b <> NULL;
  ar_A : forall b, b ∈ addrs A -> b ∉ caddrs ctx /\ b <> NULL;
  ar_C : forall b, b ∈ addrs C -> b ∉ caddrs ctx /\ b <> NULL;
  ar_ctx : forall b, b ∈ caddrs ctx -> b <> NULL;
  ar_ndB : NoDup (addrs B); ar_ndc : NoDup (caddrs ctx) }.

Lemma addrs_T (c a k : Z) (l r : tree) : addrs (T c l a k r) = addrs l ++ a :: addrs r.
Proof. unfold addrs. cbn [inorder]. by rewrite fmap_app, fmap_cons. Qed.

Lemma around_intro (s : rb) (ctx : context) (t A B C : tree) (x y : Z) :
  holds s (plug ctx t) -> addrs t ≡ₚ addrs A ++ x :: addrs B ++ y :: addrs C -> around ctx x y A B C.
Proof.
  intros Hs Ht. assert (forall b, b ∈ caddrs ctx ++ addrs t -> b <> NULL) as Hnz.
  { intros b Hb. eapply holds_nonnull; [done|]. by rewrite addrs_plug. }
  pose proof (h_nodup _ _ Hs) as Hn. rewrite addrs_plug, Ht in Hn. setoid_rewrite Ht in Hnz. clear Ht Hs.
  rewrite NoDup_app, NoDup_app, NoDup_cons, NoDup_app, NoDup_cons in Hn.
  destruct Hn as (NC & Dc & NA & DA & DX & NB & DB & DY & NC').
  setoid_rewrite elem_of_app in Hnz. setoid_rewrite elem_of_app in Hnz.
  setoid_rewrite elem_of_cons in Hnz. setoid_rewrite elem_of_app in Hnz. setoid_rewrite elem_of_cons in Hnz.
  setoid_rewrite not_elem_of_app in Dc. setoid_rewrite not_elem_of_cons in Dc.
  setoid_rewrite not_elem_of_app in Dc. setoid_rewrite not_elem_of_cons in Dc.
  setoid_rewrite not_elem_of_cons in DA. setoid_rewrite not_elem_of_app in DA. setoid_rewrite not_elem_of_cons in DA.
  rewrite not_elem_of_app, not_elem_of_cons in DX. setoid_rewrite not_elem_of_cons in DB.
  destruct DX as (DXB & DXY & DXC). constructor; [done|..|done|done].
  - split_and!; [intros H; by destruct (DA _ H)|done|done|intros H; by destruct (Dc _ H) as (_ & ? & _)|].
    apply Hnz. tauto.
  - split_and!; [intros H; by destruct (DA _ H) as (_ & _ & ? & _)|intros H; by destruct (DB _ H)|done| |].
    + intros H; by destruct (Dc _ H) as (_ & _ & _ & ? & _).
    + apply Hnz. tauto.
  - intros b Hb. split_and!; [intros H; by destruct (DA _ H) as (_ & ? & _)|intros H; by destruct (DB _ Hb)| |].
    + intros H; by destruct (Dc _ H) as (_ & _ & ? & _).
    + apply Hnz. tauto.
  - intros b Hb. split; [intros H; by destruct (Dc _ H)|apply Hnz; tauto].
  - intros b Hb. split; [intros H; by destruct (Dc _ H) as (_ & _ & _ & _ & ?)|apply Hnz; tauto].
  - intros b Hb. apply elem_of_app in Hb. apply Hnz. tauto.
Qed.

Lemma sub_of_root (c a k : Z) (l r : tree) : a ∈ addrs (T c l a k r).
Proof. rewrite addrs_T. set_solver. Qed.

Lemma upd_spec (f : rb_node -> rb_node) (p : Z) (s : rb) (n : rb_node) :
  heap s !! p = Some n ->
  exists s', upd f p s = Some s' /\ root s' = root s /\ heap s' !! p = Some (f n) /\
    forall q, q <> p -> heap s' !! q = heap s !! q.
Proof.
  intros Hp. unfold upd. rewrite Hp. eexists. split; [done|]. cbn [heap root]. split_and!; [done|by rewrite lookup_insert_eq|].
  intros q Hq. by rewrite lookup_insert_ne.
Qed.

(** [if (t) t->parent = v] on the root of a subtree. *)
Lemma reparent_spec (s : rb) (t : tree) (v par : Z) :
  rep (heap s) par t -> NoDup (addrs t) -> (forall b, b ∈ addrs t -> b <> NULL) ->
  exists s', set_parent_if (addr t) v s = Some s' /\ root s' = root s /\ rep (heap s') v t /\
    forall q, q ∉ addrs t -> heap s' !! q = heap s !! q.
Proof.
  intros Hr Hn Hz. unfold set_parent_if. destruct t as [|c l a k r]; cbn [addr]; [by exists s|].
  pose proof (sub_of_root c a k l r) as Ha. destruct (Z.eqb_spec a NULL); [by destruct (Hz a Ha)|].
  destruct Hr as (Hra & Hl & Hrr). destruct (upd_spec (set_parent v) a s _ Hra) as (s' & Hu & Hroot & Ha' & Ho).
  exists s'. rewrite addrs_T in *. apply NoDup_app in Hn as (_ & Hn2 & [Hn3 _]%NoDup_cons). split_and!; try done.
  - cbn [rep]. rewrite Ha'. split_and!; [done|..]; (eapply rep_frame; [done|]); intros q Hq; apply Ho; [|congruence].
    intros ->. apply (Hn2 a Hq). by left.
  - intros q Hq. apply Ho. set_solver.
Qed.

Lemma frame_ok_ext (h h' : gmap Z rb_node) (ctx : context) (y : Z) :
  frame_ok h ctx y -> (ctx <> [] -> h' !! cpar ctx = h !! cpar ctx) -> frame_ok h' ctx y.
Proof. destruct ctx as [|[]]; [done|..]; cbn; intros H Heq; by rewrite Heq. Qed.

(** Hanging [y] in the place of [x]. *)
Lemma replace_child_spec (s : rb) (ctx : context) (x y : Z) :
  frame_ok (heap s) ctx x -> x ∉ caddrs ctx -> x <> NULL -> (forall b, b ∈ caddrs ctx -> b <> NULL) ->
  (exists s', replace_child x (cpar ctx) y s = Some s' /\
    root s' = (if ctx is [] then y else root s) /\ frame_ok (heap s') ctx y /\
    forall q, (ctx <> [] -> q <> cpar ctx) -> heap s' !! q = heap s !! q) /\
  (exists s', replace_child_r x (cpar ctx) y s = Some s' /\
    root s' = (if ctx is [] then y else root s) /\ frame_ok (heap s') ctx y /\
    forall q, (ctx <> [] -> q <> cpar ctx) -> heap s' !! q = heap s !! q).
Proof.
  intros Hf Hxc Hx0 Hz. unfold replace_child, replace_child_r.
  assert (forall t, (forall b, b ∈ addrs t -> b ∈ caddrs ctx) -> (x =? addr t) = false) as Hsib.
  { intros t Ht. apply Z.eqb_neq. intros ->. destruct t as [|c l a k r]; [done|].
    apply Hxc, Ht, sub_of_root. }
  destruct ctx as [|f ctx]; [split; exists (set_root y s); done|].
  assert (cpar (f :: ctx) <> NULL) as Hp by (apply Hz; by apply cpar_elem).
  apply Z.eqb_neq in Hp. rewrite Hp. destruct f as [c p k r|c l p k]; cbn [cpar faddr frame_ok] in *; rewrite Hf;
    cbn [mbind option_bind left right].
  - rewrite Z.eqb_refl, Hsib by (intros b Hb; unfold caddrs, addrs in *; cbn [before after];
      rewrite fmap_cons, fmap_app; set_solver).
    split; (destruct (upd_spec (set_left y) p s _ Hf) as (s' & -> & ? & ? & ?); exists s'; split_and!; try done; naive_solver).
  - rewrite Z.eqb_refl, Hsib by (intros b Hb; unfold caddrs, addrs in *; cbn [before after];
      rewrite !fmap_app; set_solver).
    split; (destruct (upd_spec (set_right y) p s _ Hf) as (s' & -> & ? & ? & ?); exists s'; split_and!; try done; naive_solver).
Qed.

(** The five pointer moves both rotations make: [x] gives its inner subtree [B] to [y]'s
    place, [y] takes the place of [x] and [x] becomes a child of [y].  [fx], [fy] and
    [gy] are the writes to the two nodes, [rc] hangs [y] in the context. *)
Lemma rotate_moves (s : rb) (ctx : context) (x y : Z) (A B C : tree) (nx ny : rb_node)
    (fx gy : rb_node -> rb_node) (rc : Z -> Z -> Z -> rb -> option rb) :
  around ctx x y A B C -> heap s !! x = Some nx -> heap s !! y = Some ny ->
  rep_ctx (heap s) ctx x -> rep (heap s) x A -> rep (heap s) y B -> rep (heap s) y C ->
  (forall s, frame_ok (heap s) ctx x ->
     exists s', rc x (cpar ctx) y s = Some s' /\
       root s' = (if ctx is [] then y else root s) /\ frame_ok (heap s') ctx y /\
       forall q, (ctx <> [] -> q <> cpar ctx) -> heap s' !! q = heap s !! q) ->
  exists s',
    (s ← upd fx x s; s ← set_parent_if (addr B) x s; s ← upd (set_parent (cpar ctx)) y s;
     s ← rc x (cpar ctx) y s; s ← upd gy y s; upd (set_parent y) x s) = Some s' /\
    root s' = (if ctx is [] then y else root s) /\
    heap s' !! x = Some (set_parent y (fx nx)) /\
    heap s' !! y = Some (gy (set_parent (cpar ctx) ny)) /\
    rep (heap s') x A /\ rep (heap s') x B /\ rep (heap s') y C /\ frame_ok (heap s') ctx y /\
    (forall q, q ∉ addrs B -> q <> x -> q <> y -> (ctx <> [] -> q <> cpar ctx) -> heap s' !! q = heap s !! q).
Proof.
  intros [Hxy (HxA & HxB & HxC & Hxc & Hx0) (HyA & HyB & HyC & Hyc & Hy0) HBs HAs HCs Hcz HndB Hndc]
    Hx Hy Hctx HA HB HC Hrc.
  assert (ctx <> [] -> cpar ctx <> x /\ cpar ctx <> y /\ cpar ctx ∉ addrs B) as Hp.
  { intros Hne. pose proof (cpar_elem ctx Hne) as Hp. split_and!; [congruence..|].
    intros Hb. by destruct (HBs _ Hb) as (_ & _ & ? & _). }
  destruct (upd_spec fx x s nx Hx) as (s1 & E1 & R1 & X1 & O1).
  assert (forall t, x ∉ addrs t -> forall par, rep (heap s) par t -> rep (heap s1) par t) as F1.
  { intros t Ht par Hr. eapply rep_frame; [done|]. intros q Hq. apply O1. congruence. }
  destruct (reparent_spec s1 B x y (F1 B HxB y HB) HndB) as (s2 & E2 & R2 & HB2 & O2).
  { intros b Hb. by destruct (HBs b Hb) as (_ & _ & _ & ?). }
  assert (heap s2 !! y = Some ny) as Y2 by (rewrite O2, O1 by done; done).
  destruct (upd_spec (set_parent (cpar ctx)) y s2 ny Y2) as (s3 & E3 & R3 & Y3 & O3).
  assert (frame_ok (heap s3) ctx x) as Hf3.
  { eapply frame_ok_ext; [by apply rep_ctx_frame_ok|]. intros Hne. destruct (Hp Hne) as (? & ? & ?).
    by rewrite O3, O2, O1. }
  destruct (Hrc s3 Hf3) as (s4 & E4 & R4 & F4 & O4).
  assert (heap s4 !! y = Some (set_parent (cpar ctx) ny)) as Y4.
  { rewrite O4 by (intros Hne; by destruct (Hp Hne) as (_ & ? & _)). done. }
  destruct (upd_spec gy y s4 _ Y4) as (s5 & E5 & R5 & Y5 & O5).
  assert (heap s5 !! x = Some (fx nx)) as X5.
  { rewrite O5, O4, O3, O2 by (done || (intros Hne; by destruct (Hp Hne) as (? & _))). done. }
  destruct (upd_spec (set_parent y) x s5 _ X5) as (s6 & E6 & R6 & X6 & O6).
  assert (forall q, q <> x -> q <> y -> (ctx <> [] -> q <> cpar ctx) -> heap s6 !! q = heap s2 !! q) as O62.
  { intros q ? ? ?. by rewrite O6, O5, O4, O3. }
  assert (forall q, q ∉ addrs B -> q <> x -> q <> y -> (ctx <> [] -> q <> cpar ctx) -> heap s6 !! q = heap s !! q) as O60.
  { intros q ? ? ? ?. by rewrite O62, O2, O1. }
  assert (forall q, q ∉ caddrs ctx -> ctx <> [] -> q <> cpar ctx) as Hqc.
  { intros q Hq Hne ->. by apply Hq, cpar_elem. }
  exists s6. rewrite E1; cbn [mbind option_bind]. rewrite E2; cbn [mbind option_bind]. rewrite E3; cbn [mbind option_bind].
  rewrite E4; cbn [mbind option_bind]. rewrite E5; cbn [mbind option_bind]. split_and!; [done| |done| | | | | |done].
  - rewrite R6, R5, R4. destruct ctx; [done|]. by rewrite R3, R2, R1.
  - by rewrite O6 by done.
  - eapply rep_frame; [done|]. intros q Hq. apply O60; [|congruence|congruence|].
    + intros Hb. by destruct (HBs _ Hb).
    + apply Hqc. by destruct (HAs _ Hq).
  - eapply rep_frame; [done|]. intros q Hq. apply O62; [congruence..|].
    apply Hqc. by destruct (HBs _ Hq) as (_ & _ & ? & _).
  - eapply rep_frame; [done|]. intros q Hq. apply O60; [|congruence|congruence|].
    + intros Hb. by destruct (HBs _ Hb) as (_ & ? & _).
    + apply Hqc. by destruct (HCs _ Hq).
  - eapply frame_ok_ext; [done|]. intros Hne. destruct (Hp Hne) as (? & ? & _). by rewrite O6, O5.
Qed.

Lemma left_rotate_spec (s : rb) (ctx : context) (cx x kx cy y ky : Z) (A B C : tree) :
  holds s (plug ctx (T cx A x kx (T cy B y ky C))) ->
  exists s', left_rotate x s = Some s' /\ holds s' (plug ctx (T cy (T cx A x kx B) y ky C)).
Proof.
  intros Hs. assert (around ctx x y A B C) as Har.
  { eapply around_intro; [done|]. by rewrite !addrs_T. }
  destruct (holds_parts _ _ _ Hs) as (Hc & (Hx & HA & Hy & HB & HC) & _ & _ & _). cbn [addr] in Hx, Hc.
  destruct (ar_x _ _ _ _ _ _ Har) as (_ & _ & _ & Hxc & Hx0).
  destruct (ar_y _ _ _ _ _ _ Har) as (_ & _ & _ & Hyc & Hy0).
  destruct (rotate_moves (count_rotation s) ctx x y A B C _ _ (set_right (addr B)) (set_left x) replace_child
    Har Hx Hy Hc HA HB HC) as (s' & E & R & X & Y & HA' & HB' & HC' & F & O).
  { intros s1 Hf. by destruct (replace_child_spec s1 ctx x y Hf Hxc Hx0 (ar_ctx _ _ _ _ _ _ Har)). }
  exists s'. split.
  { unfold left_rotate. cbn [heap count_rotation]. rewrite Hx. cbn [mbind option_bind right parent].
    rewrite Hy. cbn [mbind option_bind left]. exact E. }
  eapply holds_focus; [done| |done| |done| |].
  - by rewrite !addrs_T, <-app_assoc.
  - cbn [rep]. done.
  - intros q Hq Hne. apply O; [|congruence|congruence|done]. intros Hb. by destruct (ar_B _ _ _ _ _ _ Har _ Hb) as (_ & _ & ? & _).
  - rewrite O; [apply (h_null _ _ Hs)| |done|done|].
    + intros Hb. by destruct (ar_B _ _ _ _ _ _ Har _ Hb) as (_ & _ & _ & ?).
    + intros Hne Heq. by apply (ar_ctx _ _ _ _ _ _ Har (cpar ctx)); [apply cpar_elem|].
Qed.

Lemma right_rotate_spec (s : rb) (ctx : context) (cx x kx cy y ky : Z) (A B C : tree) :
  holds s (plug ctx (T cx (T cy C y ky B) x kx A)) ->
  exists s', right_rotate x s = Some s' /\ holds s' (plug ctx (T cy C y ky (T cx B x kx A))).
Proof.
  intros Hs. assert (around ctx x y A B C) as Har.
  { eapply around_intro; [done|]. rewrite !addrs_T. solve_Permutation. }
  destruct (holds_parts _ _ _ Hs) as (Hc & (Hx & (Hy & HC & HB) & HA) & _ & _ & _). cbn [addr] in Hx, Hc.
  destruct (ar_x _ _ _ _ _ _ Har) as (_ & _ & _ & Hxc & Hx0).
  destruct (ar_y _ _ _ _ _ _ Har) as (_ & _ & _ & Hyc & Hy0).
  destruct (rotate_moves (count_rotation s) ctx x y A B C _ _ (set_left (addr B)) (set_right x) replace_child_r
    Har Hx Hy Hc HA HB HC) as (s' & E & R & X & Y & HA' & HB' & HC' & F & O).
  { intros s1 Hf. by destruct (replace_child_spec s1 ctx x y Hf Hxc Hx0 (ar_ctx _ _ _ _ _ _ Har)). }
  exists s'. split.
  { unfold right_rotate. cbn [heap count_rotation]. rewrite Hx. cbn [mbind option_bind left parent].
    rewrite Hy. cbn [mbind option_bind right]. exact E. }
  eapply holds_focus; [done| |done| |done| |].
  - by rewrite !addrs_T, <-app_assoc.
  - cbn [rep]. done.
  - intros q Hq Hne. apply O; [|congruence|congruence|done]. intros Hb. by destruct (ar_B _ _ _ _ _ _ Har _ Hb) as (_ & _ & ? & _).
  - rewrite O; [apply (h_null _ _ Hs)| |done|done|].
    + intros Hb. by destruct (ar_B _ _ _ _ _ _ Har _ Hb) as (_ & _ & _ & ?).
    + intros Hne Heq. by apply (ar_ctx _ _ _ _ _ _ Har (cpar ctx)); [apply cpar_elem|].
Qed.

(** ** Colours *)

(** The root is black (an empty tree counts as black). *)
Definition black (t : tree) : Prop := match t with E => True | T c _ _ _ _ => c = RB_BLACK end.

(** Red-black trees of black height [n]: both subtrees have the same black height, and
    a red node has black children. *)
Inductive is_rb : tree -> nat -> Prop :=
  | rb_E : is_rb E 0
  | rb_B l a k r n : is_rb l n -> is_rb r n -> is_rb (T RB_BLACK l a k r) (S n)
  | rb_R l a k r n : is_rb l n -> is_rb r n -> black l -> black r -> is_rb (T RB_RED l a k r) n.

Definition fcolor (f : frame) : Z := match f with FL c _ _ _ => c | FR c _ _ _ => c end.
Definition sibling (f : frame) : tree := match f with FL _ _ _ r => r | FR _ l _ _ => l end.

(** A context in which a tree of black height [n] and any colour of root leaves at most
    the one violation between its root and the parent. *)
Fixpoint ctx_rb (ctx : context) (n : nat) : Prop :=
  match ctx with
  | [] => True
  | f :: up =>
      is_rb (sibling f) n /\
      ((fcolor f = RB_BLACK /\ ctx_rb up (S n)) \/
       (fcolor f = RB_RED /\ black (sibling f) /\ ctx_rb up n /\
        match up with g :: _ => fcolor g = RB_BLACK | [] => False end))
  end.

(** Two trees with the same root colour. *)
Definition same_color (t t' : tree) : Prop :=
  match t, t' with T c _ _ _ _, T c' _ _ _ _ => c = c' | _, _ => False end.

(** A black tree, or a red one under a black parent, completes the context. *)
Lemma plug_rb (ctx : context) (t : tree) (n : nat) :
  is_rb t n -> ctx_rb ctx n ->
  (black t \/ match ctx with f :: _ => fcolor f = RB_BLACK | [] => True end) ->
  exists m, is_rb (plug ctx t) m /\ (ctx <> [] -> black (plug ctx t)).
Proof.
  revert t n. induction ctx as [|f ctx IH]; intros t n Ht Hc Hb; [by exists n|].
  change (plug (f :: ctx) t) with (plug ctx (fill1 f t)). destruct Hc as [Hs [[Hf Hc]|(Hf & Hbs & Hc & Hg)]].
  - assert (is_rb (fill1 f t) (S n)) as Ht'.
    { destruct f; cbn in Hf; subst; cbn; by constructor. }
    assert (black (fill1 f t)) as Hbt by (by destruct f).
    destruct (IH _ _ Ht' Hc (or_introl Hbt)) as (m & Hm & Hbm). exists m. split; [done|]. intros _.
    destruct ctx; [done|by apply Hbm].
  - assert (is_rb (fill1 f t) n) as Ht'.
    { destruct Hb as [Hb|Hb]; [|rewrite Hf in Hb; done]. destruct f; cbn in *; subst; by constructor. }
    destruct ctx as [|g ctx]; [done|]. destruct (IH _ _ Ht' Hc (or_intror Hg)) as (m & Hm & Hbm).
    exists m. split; [done|]. intros _. by apply Hbm.
Qed.

Lemma is_rb_color (c a k : Z) (l r : tree) (n : nat) :
  is_rb (T c l a k r) n -> c = RB_RED \/ c = RB_BLACK.
Proof. inversion 1; auto. Qed.

Lemma is_red_spec (s : rb) (ctx : context) (t : tree) (n : nat) :
  holds s (plug ctx t) -> is_rb t n ->
  exists b : bool, is_red s (addr t) = Some b /\
    if b then exists l a k r, t = T RB_RED l a k r else black t.
Proof.
  intros Hs Ht. unfold is_red. destruct t as [|c l a k r]; [by exists false|]. cbn [addr].
  assert (a <> NULL) as Ha.
  { eapply holds_nonnull; [done|]. rewrite addrs_plug. apply elem_of_app. right. apply sub_of_root. }
  apply Z.eqb_neq in Ha. rewrite Ha, (holds_node _ _ _ _ _ _ _ Hs). cbn [mbind option_bind color].
  destruct (is_rb_color _ _ _ _ _ _ Ht) as [Ec|Ec]; subst c; eexists; (split; [done|]); cbn; eauto 10.
Qed.

(** Both sides list the same nodes in the same order. *)
Ltac inorder_eq :=
  rewrite ?inorder_plug; cbn [inorder before after];
  repeat (rewrite <-app_assoc; cbn [app]); reflexivity.

(** ** Rebalancing *)

Lemma focus_fresh (s : rb) (ctx : context) (c a k : Z) (l r : tree) :
  holds s (plug ctx (T c l a k r)) -> a ∉ caddrs ctx /\ a <> NULL.
Proof.
  intros Hs. destruct (holds_parts _ _ _ Hs) as (_ & _ & _ & _ & Hd). pose proof (sub_of_root c a k l r) as Ha.
  split; [intros H; by eapply Hd|]. eapply holds_nonnull; [done|]. rewrite addrs_plug. apply elem_of_app. by right.
Qed.

Lemma sibling_elem (f : frame) (ctx : context) (b : Z) : b ∈ addrs (sibling f) -> b ∈ caddrs (f :: ctx).
Proof.
  intros Hb. unfold caddrs. unfold addrs in Hb.
  destruct f; cbn [before after sibling] in *; rewrite ?fmap_cons, !fmap_app; set_solver.
Qed.

Lemma sibling_ne (s : rb) (f : frame) (ctx : context) (c a k : Z) (l r : tree) :
  holds s (plug (f :: ctx) (T c l a k r)) -> (a =? addr (sibling f)) = false.
Proof.
  intros [Ha H0]%focus_fresh. apply Z.eqb_neq. intros ->. destruct (sibling f) as [|c' l' a' k' r'] eqn:Es; [done|].
  apply Ha, sibling_elem. rewrite Es. apply sub_of_root.
Qed.

Lemma caddrs_cons (f : frame) (ctx : context) (b : Z) : b ∈ caddrs ctx -> b ∈ caddrs (f :: ctx).
Proof.
  unfold caddrs. destruct f; cbn [before after]; rewrite ?fmap_app, ?fmap_cons, ?fmap_app; set_solver.
Qed.

Lemma root_elem (f : frame) (ctx : context) (t : tree) : addr (plug (f :: ctx) t) ∈ caddrs (f :: ctx).
Proof.
  revert f t. induction ctx as [|g ctx IH]; intros f t.
  - change (addr (plug [f] t)) with (addr (fill1 f t)). pose proof (cpar_elem [f] ltac:(done)) as H. by destruct f.
  - apply caddrs_cons. apply (IH g (fill1 f t)).
Qed.

(** The loop stops at the root and under a black parent. *)
Lemma rebalance_stop (fuel : nat) (s : rb) (ctx : context) (c a k : Z) (l r : tree) :
  holds s (plug ctx (T c l a k r)) ->
  match ctx with f :: _ => fcolor f = RB_BLACK | [] => True end ->
  rebalance (S fuel) a s = Some s.
Proof.
  intros Hs Hc. cbn [rebalance]. rewrite (h_root _ _ Hs). destruct ctx as [|f ctx].
  { cbn. by rewrite Z.eqb_refl. }
  destruct (focus_fresh _ _ _ _ _ _ _ Hs) as [Ha _].
  destruct (Z.eqb_spec a (addr (plug (f :: ctx) (T c l a k r)))) as [E|_]; [done|].
  rewrite (holds_node _ _ _ _ _ _ _ Hs). cbn [mbind option_bind parent cpar].
  destruct f as [cf p kp sb|cf sb p kp]; cbn [faddr fcolor] in *; subst cf.
  - rewrite (holds_node s ctx RB_BLACK p kp (T c l a k r) sb Hs). done.
  - rewrite (holds_node s ctx RB_BLACK p kp sb (T c l a k r) Hs). done.
Qed.

(** What the rebalancing has to achieve for a tree [t]. *)
Definition rebalanced (t : tree) (o : option rb) : Prop :=
  exists s' t' m, o = Some s' /\ holds s' t' /\ inorder t' = inorder t /\ is_rb t' m.

Lemma rebalanced_ext (t t' : tree) (o : option rb) : inorder t = inorder t' -> rebalanced t o -> rebalanced t' o.
Proof. intros E (s' & u & m & H1 & H2 & H3 & H4). exists s', u, m. by rewrite <-E. Qed.

(** The tail of an iteration: recolour the parent and the grandparent and rotate the
    grandparent to the right, the violation being on the left side. *)
Lemma rotate_tail_right (fuel : nat) (s : rb) (up : context) (p kp ga gk : Z) (c a k : Z) (l r sb gr : tree) (n : nat) :
  holds s (plug (FL RB_RED p kp sb :: FL c ga gk gr :: up) (T RB_RED l a k r)) ->
  is_rb (T RB_RED l a k r) n -> is_rb sb n -> black sb -> is_rb gr n -> black gr -> ctx_rb up (S n) ->
  rebalanced (plug up (T c (T RB_RED (T RB_RED l a k r) p kp sb) ga gk gr))
   (n ← heap s !! a;
    s ← upd (set_color RB_BLACK) (parent n) s;
    np ← heap s !! parent n;
    s ← upd (set_color RB_RED) (parent np) s;
    s ← right_rotate (parent np) s;
    rebalance (S fuel) a s).
Proof.
  intros Hs Ht Hsb Bsb Hgr Bgr Hup. set (t := T RB_RED l a k r) in *.
  rewrite (holds_node _ _ _ _ _ _ _ Hs). cbn [mbind option_bind parent cpar faddr].
  destruct (holds_color s (FL c ga gk gr :: up) RB_RED RB_BLACK p kp t sb Hs) as (s1 & -> & H1).
  cbn [mbind option_bind]. rewrite (holds_node _ _ _ _ _ _ _ H1). cbn [mbind option_bind parent cpar faddr].
  destruct (holds_color s1 up c RB_RED ga gk (T RB_BLACK t p kp sb) gr H1) as (s2 & -> & H2). cbn [mbind option_bind].
  destruct (right_rotate_spec s2 up RB_RED ga gk RB_BLACK p kp gr sb t H2) as (s3 & -> & H3). cbn [mbind option_bind].
  pose proof (rebalance_stop fuel s3 (FL RB_BLACK p kp (T RB_RED sb ga gk gr) :: up) RB_RED a k l r H3 eq_refl) as ->.
  destruct (plug_rb up (T RB_BLACK t p kp (T RB_RED sb ga gk gr)) (S n)) as (m & Hm & _); [|done|by left|].
  { constructor; [done|]. by constructor. }
  exists s3, (plug up (T RB_BLACK t p kp (T RB_RED sb ga gk gr))), m. split_and!; [done|done| |done].
  unfold t. inorder_eq.
Qed.

Lemma rotate_tail_left (fuel : nat) (s : rb) (up : context) (p kp ga gk : Z) (c a k : Z) (l r sb gl : tree) (n : nat) :
  holds s (plug (FR RB_RED sb p kp :: FR c gl ga gk :: up) (T RB_RED l a k r)) ->
  is_rb (T RB_RED l a k r) n -> is_rb sb n -> black sb -> is_rb gl n -> black gl -> ctx_rb up (S n) ->
  rebalanced (plug up (T c gl ga gk (T RB_RED sb p kp (T RB_RED l a k r))))
   (n ← heap s !! a;
    s ← upd (set_color RB_BLACK) (parent n) s;
    np ← heap s !! parent n;
    s ← upd (set_color RB_RED) (parent np) s;
    s ← left_rotate (parent np) s;
    rebalance (S fuel) a s).
Proof.
  intros Hs Ht Hsb Bsb Hgr Bgr Hup. set (t := T RB_RED l a k r) in *.
  rewrite (holds_node _ _ _ _ _ _ _ Hs). cbn [mbind option_bind parent cpar faddr].
  destruct (holds_color s (FR c gl ga gk :: up) RB_RED RB_BLACK p kp sb t Hs) as (s1 & -> & H1).
  cbn [mbind option_bind]. rewrite (holds_node _ _ _ _ _ _ _ H1). cbn [mbind option_bind parent cpar faddr].
  destruct (holds_color s1 up c RB_RED ga gk gl (T RB_BLACK sb p kp t) H1) as (s2 & -> & H2). cbn [mbind option_bind].
  destruct (left_rotate_spec s2 up RB_RED ga gk RB_BLACK p kp gl sb t H2) as (s3 & -> & H3). cbn [mbind option_bind].
  pose proof (rebalance_stop fuel s3 (FR RB_BLACK (T RB_RED gl ga gk sb) p kp :: up) RB_RED a k l r H3 eq_refl) as ->.
  destruct (plug_rb up (T RB_BLACK (T RB_RED gl ga gk sb) p kp t) (S n)) as (m & Hm & _); [|done|by left|].
  { constructor; [|done]. by constructor. }
  exists s3, (plug up (T RB_BLACK (T RB_RED gl ga gk sb) p kp t)), m. split_and!; [done|done| |done].
  unfold t. inorder_eq.
Qed.

(** One iteration, the parent being the left child of the grandparent. *)
Lemma rebalance_left (fuel : nat) (s : rb) (f : frame) (up : context) (ga gk a k : Z) (l r gr : tree) (n : nat) :
  (forall s l a k r n, holds s (plug up (T RB_RED l a k r)) -> is_rb (T RB_RED l a k r) n -> ctx_rb up n ->
     rebalanced (plug up (T RB_RED l a k r)) (rebalance (S fuel) a s)) ->
  holds s (plug (f :: FL RB_BLACK ga gk gr :: up) (T RB_RED l a k r)) ->
  is_rb (T RB_RED l a k r) n -> is_rb (sibling f) n -> black (sibling f) -> fcolor f = RB_RED ->
  is_rb gr n -> ctx_rb up (S n) ->
  rebalanced (plug (f :: FL RB_BLACK ga gk gr :: up) (T RB_RED l a k r)) (rebalance (S (S fuel)) a s).
Proof.
  intros IH Hs Ht Hsb Bsb Hf Hgr Hup. set (t := T RB_RED l a k r) in *.
  assert (exists c' l' p k' r', fill1 f t = T c' l' p k' r' /\ c' = RB_RED /\ p = faddr f) as (c' & l' & p & k' & r' & Hfill & -> & Hp).
  { destruct f; cbn in *; eauto 10. }
  assert (holds s (plug (FL RB_BLACK ga gk gr :: up) (T RB_RED l' p k' r'))) as Hs1 by (rewrite <-Hfill; exact Hs).
  remember (S fuel) as fuel1. cbn [rebalance]. rewrite (h_root _ _ Hs).
  destruct (focus_fresh _ _ _ _ _ _ _ Hs) as [Ha _].
  destruct (Z.eqb_spec a (addr (plug (f :: FL RB_BLACK ga gk gr :: up) t))) as [E|_].
  { exfalso. apply Ha. rewrite E. apply root_elem. }
  rewrite (holds_node _ _ _ _ _ _ _ Hs). cbn [mbind option_bind parent cpar]. rewrite <-Hp.
  rewrite (holds_node _ _ _ _ _ _ _ Hs1). cbn [mbind option_bind parent color cpar faddr].
  rewrite Z.eqb_refl. cbn [negb].
  rewrite (holds_node s up RB_BLACK ga gk (T RB_RED l' p k' r') gr Hs1). cbn [mbind option_bind left right addr].
  rewrite Z.eqb_refl.
  destruct (is_red_spec s (FR RB_BLACK (T RB_RED l' p k' r') ga gk :: up) gr n Hs1 Hgr) as (red & -> & Hred).
  cbn [mbind option_bind]. destruct red.
  - destruct Hred as (ul & ua & uk & ur & ->).
    destruct (holds_color s (FR RB_BLACK (T RB_RED l' p k' r') ga gk :: up) RB_RED RB_BLACK ua uk ul ur Hs1)
      as (s1 & E1 & H1). cbn [addr]. rewrite E1. cbn [mbind option_bind].
    destruct (holds_color s1 (FL RB_BLACK ga gk (T RB_BLACK ul ua uk ur) :: up) RB_RED RB_BLACK p k' l' r' H1)
      as (s2 & E2 & H2). rewrite E2. cbn [mbind option_bind].
    destruct (holds_color s2 up RB_BLACK RB_RED ga gk (T RB_BLACK l' p k' r') (T RB_BLACK ul ua uk ur) H2)
      as (s3 & E3 & H3). rewrite E3. cbn [mbind option_bind].
    assert (is_rb (T RB_BLACK l' p k' r') (S n)) as Hb1.
    { destruct f; cbn in Hfill, Hf, Hsb; simplify_eq; by constructor. }
    assert (is_rb (T RB_BLACK ul ua uk ur) (S n)) as Hb2 by (inversion Hgr; subst; by constructor).
    eapply rebalanced_ext; [|apply (IH _ _ _ _ _ (S n) H3); [by constructor|done]].
    assert (inorder (T RB_RED l' p k' r') = inorder (fill1 f t)) as Hin by (by rewrite Hfill).
    change (plug (f :: FL RB_BLACK ga gk ?g :: up) t) with (plug up (T RB_BLACK (fill1 f t) ga gk g)).
    rewrite !inorder_plug. cbn [inorder] in Hin |- *. rewrite <-Hin. done.
  - subst fuel1. destruct f as [cf p' kf sb|cf sb p' kf]; cbn in Hf, Hsb, Bsb, Hp, Hfill;
      injection Hfill; clear Hfill; intros <- <- _ <- _; subst cf p.
    + pose proof (sibling_ne _ _ _ _ _ _ _ _ Hs) as Hne. cbn [sibling] in Hne. rewrite Hne. cbn [mbind option_bind].
      by apply (rotate_tail_right fuel s up p' kf ga gk RB_BLACK a k l r sb gr n).
    + rewrite Z.eqb_refl.
      destruct (left_rotate_spec s (FL RB_BLACK ga gk gr :: up) RB_RED p' kf RB_RED a k sb l r Hs) as (s1 & E1 & H1).
      rewrite E1. cbn [mbind option_bind]. inversion Ht; subst.
      eapply rebalanced_ext;
        [|apply (rotate_tail_right fuel s1 up a k ga gk RB_BLACK p' kf sb l r gr n H1); (done || by constructor)].
      unfold t. inorder_eq.
Qed.

(** One iteration, the parent being the right child of the grandparent. *)
Lemma rebalance_right (fuel : nat) (s : rb) (f : frame) (up : context) (ga gk a k : Z) (l r gl : tree) (n : nat) :
  (forall s l a k r n, holds s (plug up (T RB_RED l a k r)) -> is_rb (T RB_RED l a k r) n -> ctx_rb up n ->
     rebalanced (plug up (T RB_RED l a k r)) (rebalance (S fuel) a s)) ->
  holds s (plug (f :: FR RB_BLACK gl ga gk :: up) (T RB_RED l a k r)) ->
  is_rb (T RB_RED l a k r) n -> is_rb (sibling f) n -> black (sibling f) -> fcolor f = RB_RED ->
  is_rb gl n -> ctx_rb up (S n) ->
  rebalanced (plug (f :: FR RB_BLACK gl ga gk :: up) (T RB_RED l a k r)) (rebalance (S (S fuel)) a s).
Proof.
  intros IH Hs Ht Hsb Bsb Hf Hgl Hup. set (t := T RB_RED l a k r) in *.
  assert (exists c' l' p k' r', fill1 f t = T c' l' p k' r' /\ c' = RB_RED /\ p = faddr f) as (c' & l' & p & k' & r' & Hfill & -> & Hp).
  { destruct f; cbn in *; eauto 10. }
  assert (holds s (plug (FR RB_BLACK gl ga gk :: up) (T RB_RED l' p k' r'))) as Hs1 by (rewrite <-Hfill; exact Hs).
  remember (S fuel) as fuel1. cbn [rebalance]. rewrite (h_root _ _ Hs).
  destruct (focus_fresh _ _ _ _ _ _ _ Hs) as [Ha _].
  destruct (Z.eqb_spec a (addr (plug (f :: FR RB_BLACK gl ga gk :: up) t))) as [E|_].
  { exfalso. apply Ha. rewrite E. apply root_elem. }
  rewrite (holds_node _ _ _ _ _ _ _ Hs). cbn [mbind option_bind parent cpar]. rewrite <-Hp.
  rewrite (holds_node _ _ _ _ _ _ _ Hs1). cbn [mbind option_bind parent color cpar faddr].
  rewrite Z.eqb_refl. cbn [negb].
  rewrite (holds_node s up RB_BLACK ga gk gl (T RB_RED l' p k' r') Hs1). cbn [mbind option_bind left right addr].
  pose proof (sibling_ne _ _ _ _ _ _ _ _ Hs1) as Hsn. cbn [sibling] in Hsn. rewrite Hsn.
  destruct (is_red_spec s (FL RB_BLACK ga gk (T RB_RED l' p k' r') :: up) gl n Hs1 Hgl) as (red & -> & Hred).
  cbn [mbind option_bind]. destruct red.
  - destruct Hred as (ul & ua & uk & ur & ->).
    destruct (holds_color s (FL RB_BLACK ga gk (T RB_RED l' p k' r') :: up) RB_RED RB_BLACK ua uk ul ur Hs1)
      as (s1 & E1 & H1). cbn [addr]. rewrite E1. cbn [mbind option_bind].
    destruct (holds_color s1 (FR RB_BLACK (T RB_BLACK ul ua uk ur) ga gk :: up) RB_RED RB_BLACK p k' l' r' H1)
      as (s2 & E2 & H2). rewrite E2. cbn [mbind option_bind].
    destruct (holds_color s2 up RB_BLACK RB_RED ga gk (T RB_BLACK ul ua uk ur) (T RB_BLACK l' p k' r') H2)
      as (s3 & E3 & H3). rewrite E3. cbn [mbind option_bind].
    assert (is_rb (T RB_BLACK l' p k' r') (S n)) as Hb1.
    { destruct f; cbn in Hfill, Hf, Hsb; simplify_eq; by constructor. }
    assert (is_rb (T RB_BLACK ul ua uk ur) (S n)) as Hb2 by (inversion Hgl; subst; by constructor).
    eapply rebalanced_ext; [|apply (IH _ _ _ _ _ (S n) H3); [by constructor|done]].
    assert (inorder (T RB_RED l' p k' r') = inorder (fill1 f t)) as Hin by (by rewrite Hfill).
    change (plug (f :: FR RB_BLACK ?g ga gk :: up) t) with (plug up (T RB_BLACK g ga gk (fill1 f t))).
    rewrite !inorder_plug. cbn [inorder] in Hin |- *. rewrite <-Hin. done.
  - subst fuel1. destruct f as [cf p' kf sb|cf sb p' kf]; cbn in Hf, Hsb, Bsb, Hp, Hfill;
      injection Hfill; clear Hfill; intros <- <- _ <- _; subst cf p.
    + rewrite Z.eqb_refl.
      destruct (right_rotate_spec s (FR RB_BLACK gl ga gk :: up) RB_RED p' kf RB_RED a k sb r l Hs) as (s1 & E1 & H1).
      rewrite E1. cbn [mbind option_bind]. inversion Ht; subst.
      eapply rebalanced_ext;
        [|apply (rotate_tail_left fuel s1 up a k ga gk RB_BLACK p' kf r sb l gl n H1); (done || by constructor)].
      unfold t. inorder_eq.
    + pose proof (sibling_ne _ _ _ _ _ _ _ _ Hs) as Hne. cbn [sibling] in Hne. rewrite Hne. cbn [mbind option_bind].
      by apply (rotate_tail_left fuel s up p' kf ga gk RB_BLACK a k l r sb gl n).
Qed.

(** The loop restores the red-black properties, except that the root may be red, and
    keeps the order, within as many rounds as the focus is deep. *)
Lemma rebalance_spec (fuel : nat) (s : rb) (ctx : context) (l : tree) (a k : Z) (r : tree) (n : nat) :
  (length ctx < fuel)%nat ->
  holds s (plug ctx (T RB_RED l a k r)) -> is_rb (T RB_RED l a k r) n -> ctx_rb ctx n ->
  rebalanced (plug ctx (T RB_RED l a k r)) (rebalance fuel a s).
Proof.
  revert s ctx l a k r n. induction fuel as [fuel IH] using lt_wf_ind. intros s ctx l a k r n Hf Hs Ht Hc.
  destruct fuel as [|fuel]; [lia|].
  assert (match ctx with f :: _ => fcolor f = RB_BLACK | [] => True end ->
    rebalanced (plug ctx (T RB_RED l a k r)) (rebalance (S fuel) a s)) as Hstop.
  { intros Hb. rewrite (rebalance_stop fuel s ctx RB_RED a k l r Hs Hb).
    destruct (plug_rb ctx _ n Ht Hc (or_intror Hb)) as (m & Hm & _). by exists s, (plug ctx (T RB_RED l a k r)), m. }
  destruct ctx as [|f ctx]; [by apply Hstop|].
  destruct Hc as [Hsb [ [Hfc Hc] | (Hfc & Bsb & Hc & Hg) ] ]; [by apply Hstop|].
  destruct ctx as [|g up]; [done|]. cbn [length] in Hf. destruct fuel as [|fuel]; [lia|].
  destruct Hc as [Hgs [ [_ Hup] | (Hgc & _) ] ]; [|rewrite Hg in Hgc; done].
  assert (forall s l a k r n, holds s (plug up (T RB_RED l a k r)) -> is_rb (T RB_RED l a k r) n -> ctx_rb up n ->
     rebalanced (plug up (T RB_RED l a k r)) (rebalance (S fuel) a s)) as IH'.
  { intros. by eapply IH; [lia|lia|..]. }
  destruct g as [cg ga gk gr|cg gl ga gk]; cbn [fcolor sibling] in Hg, Hgs; subst cg.
  - by apply (rebalance_left fuel s f up ga gk a k l r gr n).
  - by apply (rebalance_right fuel s f up ga gk a k l r gl n).
Qed.

(** ** Insertion *)

(** The way a key goes down. *)
Definition path (k : Z) (ctx : context) : Prop :=
  Forall (fun f => match f with FL _ _ k' _ => k < k' | FR _ _ _ k' => k' <= k end) ctx.

Definition sorted (t : tree) : Prop := StronglySorted Z.le (inorder t).*2.

Lemma length_ctx (ctx : context) (t : tree) : (length ctx + length (addrs t) <= length (addrs (plug ctx t)))%nat.
Proof.
  revert t. induction ctx as [|f ctx IH]; intros t; [done|].
  change (plug (f :: ctx) t) with (plug ctx (fill1 f t)). specialize (IH (fill1 f t)).
  assert (length (addrs (fill1 f t)) >= S (length (addrs t)))%nat; [|cbn; lia].
  destruct f; cbn [fill1]; rewrite addrs_T, length_app; cbn [length]; lia.
Qed.

Lemma holds_size (s : rb) (t : tree) : holds s t -> (length (addrs t) <= size (heap s))%nat.
Proof.
  intros [_ Hr Hn _]. rewrite <-size_dom, <-(size_list_to_set (C := gset Z)) by done.
  apply subseteq_size. intros a Ha. apply elem_of_list_to_set in Ha. apply elem_of_dom. by eapply rep_elem.
Qed.

Lemma descend_spec (fuel : nat) (s : rb) (k : Z) (ctx : context) (t : tree) :
  holds s (plug ctx t) -> path k ctx -> (length (addrs t) < fuel)%nat ->
  exists ctx', descend fuel s k (cpar ctx) (addr t) = Some (cpar ctx') /\ plug ctx' E = plug ctx t /\ path k ctx'.
Proof.
  revert ctx t. induction fuel as [|fuel IH]; intros ctx t Hs Hp Hf; [lia|]. cbn [descend].
  destruct t as [|c l a k' r]; [by exists ctx|]. cbn [addr]. destruct (focus_fresh _ _ _ _ _ _ _ Hs) as [_ Ha].
  apply Z.eqb_neq in Ha. rewrite Ha, (holds_node _ _ _ _ _ _ _ Hs). cbn [mbind option_bind key left right].
  rewrite addrs_T, length_app in Hf. cbn [length] in Hf. destruct (Z.ltb_spec k k').
  - apply (IH (FL c a k' r :: ctx) l Hs); [by constructor|lia].
  - apply (IH (FR c l a k' :: ctx) r Hs); [by constructor|lia].
Qed.

(** In a sorted tree the path separates the keys. *)
Lemma path_before (ctx : context) (k : Z) :
  path k ctx -> StronglySorted Z.le (before ctx).*2 -> Forall (fun x => x.2 <= k) (before ctx).
Proof.
  induction ctx as [|[c a k' r|c l a k'] ctx IH]; cbn [before]; [done|..]; intros [Hk Hp]%Forall_cons Hs; [by apply IH|].
  rewrite app_assoc in Hs |- *. rewrite fmap_app in Hs. apply Forall_app. split; [|by constructor].
  apply Forall_forall. intros x Hx. etrans; [|exact Hk].
  eapply StronglySorted_app_1_elem_of; [exact Hs|by apply list_elem_of_fmap_2|cbn; set_solver].
Qed.

Lemma path_after (ctx : context) (k : Z) :
  path k ctx -> StronglySorted Z.le (after ctx).*2 -> Forall (fun x => k < x.2) (after ctx).
Proof.
  induction ctx as [|[c a k' r|c l a k'] ctx IH]; cbn [after]; [done|..]; intros [Hk Hp]%Forall_cons Hs; [|by apply IH].
  rewrite fmap_cons in Hs. apply StronglySorted_inv in Hs as [_ Hs]. constructor; [done|].
  apply Forall_forall. intros x Hx. rewrite Forall_forall in Hs. eapply Z.lt_le_trans; [exact Hk|].
  apply Hs. by apply list_elem_of_fmap_2.
Qed.

(** Where a red-black tree has a hole. *)
Lemma plug_rb_inv (ctx : context) (t : tree) (m : nat) :
  is_rb (plug ctx t) m -> black (plug ctx t) ->
  exists n, is_rb t n /\ ctx_rb ctx n /\
    (~ black t -> match ctx with g :: _ => fcolor g = RB_BLACK | [] => False end).
Proof.
  revert t. induction ctx as [|f ctx IH]; intros t Hm Hb; [by exists m|].
  change (plug (f :: ctx) t) with (plug ctx (fill1 f t)) in *.
  destruct (IH _ Hm Hb) as (n & Hn & Hc & Hg).
  destruct f as [c a k r|c l a k]; cbn [fill1] in *; inversion Hn; subst;
    (eexists; split; [done|]; split; [cbn; split; [done|]|]); cbn; try (by left); try tauto.
  - right. split_and!; try done. by apply Hg.
  - right. split_and!; try done. by apply Hg.
Qed.

(** A write to a node outside the tree. *)
Lemma holds_outside (s : rb) (t : tree) (f : rb_node -> rb_node) (p : Z) (n : rb_node) :
  holds s t -> p ∉ addrs t -> p <> NULL -> heap s !! p = Some n ->
  exists s', upd f p s = Some s' /\ holds s' t /\ heap s' !! p = Some (f n) /\ root s' = root s /\
    size (heap s') = size (heap s).
Proof.
  intros [Hroot Hrep Hnd Hnull] Hp H0 Hn. unfold upd. rewrite Hn. eexists. split; [done|]. cbn [heap root].
  split_and!; [|by rewrite lookup_insert_eq|done|].
  - constructor; cbn [heap root]; [done| |done|by rewrite lookup_insert_ne].
    eapply rep_frame; [done|]. intros a Ha. rewrite lookup_insert_ne; congruence.
  - by rewrite map_size_insert_Some by (by eexists).
Qed.

(** Hanging the new node under the last node of the descent. *)
Lemma link_spec (s : rb) (ctx : context) (node k : Z) :
  holds s (plug ctx E) -> path k ctx -> node ∉ caddrs ctx -> node <> NULL ->
  heap s !! node = Some (mk_node (cpar ctx) NULL NULL RB_RED k) ->
  exists s',
    (if cpar ctx =? NULL then Some (set_root node s)
     else np ← heap s !! cpar ctx;
          if k <? key np then upd (set_left node) (cpar ctx) s else upd (set_right node) (cpar ctx) s) = Some s' /\
    holds s' (plug ctx (T RB_RED E node k E)) /\ size (heap s') = size (heap s).
Proof.
  intros Hs Hp Hf H0 Hn. destruct (holds_parts _ _ _ Hs) as (Hc & _ & Hn1 & _ & _).
  assert (forall s', root s' = (if ctx is [] then node else root s) ->
    frame_ok (heap s') ctx node -> (forall q, (ctx <> [] -> q <> cpar ctx) -> heap s' !! q = heap s !! q) ->
    holds s' (plug ctx (T RB_RED E node k E))) as Hgen.
  { intros s' Hroot Hfr Ho. assert (ctx <> [] -> node <> cpar ctx) as Hne.
    { intros Hne ->. by apply Hf, cpar_elem. }
    constructor.
    - rewrite Hroot. destruct ctx as [|f ctx]; [done|]. rewrite (h_root _ _ Hs). apply addr_plug_cons.
    - apply rep_plug. split; [|cbn [rep]; by rewrite Ho]. eapply rep_ctx_child; [done..| |done]. intros a Ha Hac. by apply Ho.
    - rewrite addrs_plug. apply NoDup_app. split_and!; [done| |by apply NoDup_singleton].
      intros a Ha Hb. cbn in Hb. apply list_elem_of_singleton in Hb as ->. done.
    - rewrite Ho; [apply (h_null _ _ Hs)|]. intros Hx Heq.
      eapply (holds_nonnull s _ (cpar ctx) Hs); [|done]. rewrite addrs_plug. apply elem_of_app. left. by apply cpar_elem. }
  destruct ctx as [|f ctx].
  { cbn [cpar]. rewrite Z.eqb_refl. eexists. split; [done|]. split; [by apply Hgen|done]. }
  assert (cpar (f :: ctx) <> NULL) as Hz.
  { eapply holds_nonnull; [done|]. rewrite addrs_plug. apply elem_of_app. left. by apply cpar_elem. }
  apply Z.eqb_neq in Hz. rewrite Hz. apply Forall_cons in Hp as [Hk _].
  assert (forall g n, heap s !! cpar (f :: ctx) = Some n -> exists s', upd g (cpar (f :: ctx)) s = Some s' /\
    size (heap s') = size (heap s) /\ root s' = root s /\ heap s' !! cpar (f :: ctx) = Some (g n) /\
    forall q, q <> cpar (f :: ctx) -> heap s' !! q = heap s !! q) as Hu.
  { intros g n Hg. destruct (upd_spec g _ s n Hg) as (s' & E' & ? & ? & ?). exists s'. split_and!; try done.
    unfold upd in E'. rewrite Hg in E'. injection E' as <-. cbn. by rewrite map_size_insert_Some by (by eexists). }
  destruct f as [c p k' r|c l p k']; cbn [cpar faddr rep_ctx addr] in *; destruct Hc as (Hpn & _); rewrite Hpn;
    cbn [mbind option_bind key].
  - destruct (Z.ltb_spec k k'); [|lia]. destruct (Hu (set_left node) _ Hpn) as (s' & -> & ? & ? & ? & ?).
    exists s'. split_and!; [done| |done]. apply Hgen; [done|done|]. intros q Hq. naive_solver.
  - destruct (Z.ltb_spec k k'); [lia|]. destruct (Hu (set_right node) _ Hpn) as (s' & -> & ? & ? & ? & ?).
    exists s'. split_and!; [done| |done]. apply Hgen; [done|done|]. intros q Hq. naive_solver.
Qed.

Lemma holds_same (s s' : rb) (t : tree) : root s' = root s -> heap s' = heap s -> holds s t -> holds s' t.
Proof. intros Hr Hh [H1 H2 H3 H4]. constructor; by rewrite ?Hr, ?Hh. Qed.

(** A red-black search tree in the heap. *)
Record rbt (s : rb) (t : tree) : Prop := {
  rbt_holds : holds s t;
  rbt_rb : exists n, is_rb t n;
  rbt_black : black t;
  rbt_sorted : sorted t }.

(** The list with the new node behind the keys that are not larger. *)
Definition inserted (node k : Z) (l l' : list (Z * Z)) : Prop :=
  exists l1 l2, l = l1 ++ l2 /\ l' = l1 ++ (node, k) :: l2 /\
    Forall (fun x => x.2 <= k) l1 /\ Forall (fun x => k < x.2) l2.

Lemma inserted_sorted (node k : Z) (l l' : list (Z * Z)) :
  inserted node k l l' -> StronglySorted Z.le l.*2 -> StronglySorted Z.le l'.*2.
Proof.
  intros (l1 & l2 & -> & -> & H1 & H2). rewrite !fmap_app, fmap_cons. rewrite !StronglySorted_app.
  intros (Hx & Hs1 & Hs2). rewrite Forall_forall in H1, H2. split_and!; [|done|].
  - intros x1 x2 Hx1. rewrite elem_of_cons. intros [->|Hx2]; [|by apply Hx].
    apply list_elem_of_fmap_1 in Hx1 as (y & -> & Hy). by apply H1.
  - constructor; [done|]. apply Forall_forall. intros x Hy. apply list_elem_of_fmap_1 in Hy as (y & -> & Hy).
    specialize (H2 y Hy). cbn. lia.
Qed.

(** The root turns black. *)
Lemma blacken_spec (s : rb) (t : tree) (m : nat) :
  holds s t -> is_rb t m -> t <> E ->
  exists s' t' m', upd (set_color RB_BLACK) (root s) s = Some s' /\ holds s' t' /\ is_rb t' m' /\ black t' /\
    inorder t' = inorder t.
Proof.
  intros Hs Ht Hne. destruct t as [|c l a k r]; [done|]. rewrite (h_root _ _ Hs). cbn [addr].
  destruct (holds_color s [] c RB_BLACK a k l r Hs) as (s' & Hu & Hs').
  exists s', (T RB_BLACK l a k r). inversion Ht; subst; eexists; (split_and!; [done|done| |done|done]); by constructor.
Qed.

(** C25: [rbtree_insert] of a node outside the tree keeps the pointer structure (parent
    links included), the order and the red-black properties, and puts the node in
    its place: the nodes in order are those from before with the new one behind all
    keys that are not larger.  The descent and the rebalancing return within as many
    rounds as there are nodes. *)
Theorem rbtree_insert_spec (s : rb) (t : tree) (node k : Z) (n : rb_node) :
  rbt s t -> node ∉ addrs t -> node <> NULL -> heap s !! node = Some n -> key n = k ->
  exists s' t', rbtree_insert node k s = Some s' /\ rbt s' t' /\ inserted node k (inorder t) (inorder t').
Proof.
  intros [Hs [m Hm] Hb Hsort] Hf H0 Hn Hk. unfold rbtree_insert. apply Z.eqb_neq in H0 as Hz. rewrite Hz.
  assert (holds (count_insert s) t) as Hs0 by (by apply (holds_same s)).
  destruct (holds_outside _ t (set_left NULL) node n Hs0 Hf H0 Hn) as (s1 & -> & H1 & N1 & R1 & Z1). cbn [mbind option_bind].
  destruct (holds_outside _ t (set_right NULL) node _ H1 Hf H0 N1) as (s2 & -> & H2 & N2 & R2 & Z2). cbn [mbind option_bind].
  destruct (holds_outside _ t (set_color RB_RED) node _ H2 Hf H0 N2) as (s3 & -> & H3 & N3 & R3 & Z3). cbn [mbind option_bind].
  pose proof (holds_size s3 t H3) as Hsz.
  destruct (descend_spec (fuel_of s3) s3 k [] t H3) as (ctx & Hd & Hplug & Hpath); [constructor|unfold fuel_of; lia|].
  cbn [cpar] in Hd. rewrite (h_root _ _ H3), Hd. cbn [mbind option_bind]. cbn in Hplug. rewrite <-Hplug in *.
  destruct (holds_outside _ _ (set_parent (cpar ctx)) node _ H3 Hf H0 N3) as (s4 & -> & H4 & N4 & R4 & Z4). cbn [mbind option_bind].
  unfold set_parent, set_left, set_right, set_color in N4. cbn [parent left right color key] in N4. rewrite Hk in N4.
  assert (node ∉ caddrs ctx) as Hfc. { intros Hin. apply Hf. rewrite addrs_plug. apply elem_of_app. by left. }
  destruct (link_spec s4 ctx node k H4 Hpath Hfc H0 N4) as (s5 & -> & H5 & Z5). cbn [mbind option_bind].
  destruct (plug_rb_inv ctx E m Hm Hb) as (n0 & Hn0 & Hctx & _). inversion Hn0; subst n0.
  destruct (rebalance_spec (fuel_of s5) s5 ctx E node k E 0) as (s6 & t6 & m6 & -> & H6 & I6 & B6); [|done|by repeat constructor|done|].
  { pose proof (length_ctx ctx E) as Hl. unfold fuel_of. rewrite Z5, Z4. lia. }
  cbn [mbind option_bind]. rewrite inorder_plug in I6. cbn [inorder app] in I6.
  destruct (blacken_spec s6 t6 m6 H6 B6) as (s7 & t7 & m7 & -> & H7 & B7 & Bl7 & I7).
  { intros ->. cbn in I6. symmetry in I6. by apply app_eq_nil in I6 as [_ ?]. }
  assert (inserted node k (inorder (plug ctx E)) (inorder t7)) as Hins.
  { exists (before ctx), (after ctx). rewrite I7, I6, inorder_plug. unfold sorted in Hsort.
    rewrite inorder_plug, !fmap_app in Hsort. apply StronglySorted_app in Hsort as (_ & Hs1 & [_ [_ Hs2] ]%StronglySorted_app).
    split_and!; [done|done|by apply path_before|by apply path_after]. }
  exists s7, t7. split_and!; [done| |done]. constructor; [done|by exists m7|done|]. by eapply inserted_sorted.
Qed.

(** ** Search *)

Fixpoint height (t : tree) : nat :=
  match t with E => 0 | T _ l _ _ r => S (Nat.max (height l) (height r)) end.

(** A red-black tree is balanced. *)
Lemma rb_balanced (t : tree) (n : nat) :
  is_rb t n -> (height t <= 2 * n + 1 /\ (black t -> height t <= 2 * n) /\ 2 ^ n <= length (inorder t) + 1)%nat.
Proof.
  induction 1 as [|l a k r n Hl (IHl & Bl & Cl) Hr (IHr & Br & Cr)|l a k r n Hl (IHl & Bl & Cl) Hr (IHr & Br & Cr) Hbl Hbr];
    cbn [height inorder]; rewrite ?length_app; cbn [length].
  - cbn. lia.
  - split_and!; [lia|lia|]. rewrite Nat.pow_succ_r'. lia.
  - specialize (Bl Hbl). specialize (Br Hbr). split_and!; [lia|intros [=]|lia].
Qed.

Lemma height_log (t : tree) (n : nat) :
  is_rb t n -> black t -> (height t <= 2 * Nat.log2 (length (inorder t) + 1))%nat.
Proof.
  intros Ht Hb. destruct (rb_balanced t n Ht) as (_ & Hh & Hc). specialize (Hh Hb).
  apply Nat.log2_le_mono in Hc. rewrite Nat.log2_pow2 in Hc by lia. lia.
Qed.

(** The node a search ends at: with that key, or null. *)
Fixpoint search (k : Z) (t : tree) : Z :=
  match t with
  | E => NULL
  | T _ l a k' r => if k =? k' then a else if k <? k' then search k l else search k r
  end.

Lemma find_loop_search (fuel : nat) (s : rb) (k : Z) (ctx : context) (t : tree) :
  holds s (plug ctx t) -> (height t < fuel)%nat -> find_loop fuel s k (addr t) = Some (search k t).
Proof.
  revert ctx t. induction fuel as [|fuel IH]; intros ctx t Hs Hf; [lia|]. cbn [find_loop].
  destruct t as [|c l a k' r]; [done|]. cbn [addr search height] in *. destruct (focus_fresh _ _ _ _ _ _ _ Hs) as [_ Ha].
  apply Z.eqb_neq in Ha. rewrite Ha, (holds_node _ _ _ _ _ _ _ Hs). cbn [mbind option_bind key left right].
  destruct (k =? k'); [done|]. destruct (k <? k').
  - apply (IH (FL c a k' r :: ctx) l Hs). lia.
  - apply (IH (FR c l a k' :: ctx) r Hs). lia.
Qed.

Lemma search_spec (k : Z) (t : tree) :
  sorted t -> (forall a, a ∈ addrs t -> a <> NULL) ->
  (search k t <> NULL -> (search k t, k) ∈ inorder t) /\ (search k t = NULL -> k ∉ (inorder t).*2).
Proof.
  unfold sorted, addrs. induction t as [|c l IHl a k' r IHr]; cbn [search inorder]; intros Hs Hz; [set_solver|].
  rewrite !fmap_app, !fmap_cons in *. cbn [fst snd] in *.
  apply StronglySorted_app in Hs as (Hlr & Hsl & Hsr). pose proof (StronglySorted_inv Hsr) as [Hsr' Hk'].
  rewrite Forall_forall in Hk'. setoid_rewrite elem_of_app in Hz. setoid_rewrite elem_of_cons in Hz.
  assert (forall x, x ∈ (inorder l).*2 -> x <= k') as Hl by (intros x Hx; apply Hlr; [done|by left]).
  destruct (Z.eqb_spec k k') as [->|Hne].
  { split; [intros _; rewrite elem_of_app, elem_of_cons; auto|]. intros E. destruct (Hz a); auto. }
  destruct (Z.ltb_spec k k').
  - destruct (IHl Hsl) as [H1 H2]; [auto|]. split; [intros Hn; rewrite elem_of_app; left; by apply H1|].
    intros Hn. specialize (H2 Hn). rewrite elem_of_app, elem_of_cons. intros [Hx|[Hx|Hx] ]; [done|lia|].
    apply Hk' in Hx. lia.
  - destruct (IHr Hsr') as [H1 H2]; [auto|]. split; [intros Hn; rewrite elem_of_app, elem_of_cons; right; right; by apply H1|].
    intros Hn. specialize (H2 Hn). rewrite elem_of_app, elem_of_cons. intros [Hx|[Hx|Hx] ]; [|lia|done].
    apply Hl in Hx. lia.
Qed.

(** [rbtree_find] returns a node with the wanted key when the tree has one and null
    when it has none, and it looks at no more than [2 log2 (N + 1) + 1] pointers in a
    tree of [N] nodes. *)
Theorem rbtree_find_spec (s : rb) (t : tree) (k : Z) :
  rbt s t ->
  exists p, (rbtree_find k s).1 = Some p /\
    (p <> NULL -> (p, k) ∈ inorder t) /\ (p = NULL -> k ∉ (inorder t).*2) /\
    find_loop (2 * Nat.log2 (length (inorder t) + 1) + 1) s k (root s) = Some p.
Proof.
  intros [Hs [n Hn] Hb Hsort]. exists (search k t). pose proof (height_log t n Hn Hb) as Hh.
  destruct (search_spec k t Hsort) as [H1 H2]; [by intros a; apply (holds_nonnull s)|]. split_and!; [|done|done|].
  - unfold rbtree_find. cbn [fst]. assert (holds (count_find s) t) as Hs' by (by apply (holds_same s)).
    rewrite (h_root _ _ Hs'). apply (find_loop_search _ _ k [] t Hs').
    pose proof (holds_size _ _ Hs') as Hz. unfold addrs in Hz. rewrite length_fmap in Hz. unfold fuel_of.
    assert (height t <= length (inorder t))%nat; [|lia]. clear. induction t as [|c l IHl a k r IHr]; cbn; [lia|].
    rewrite length_app. cbn. lia.
  - rewrite (h_root _ _ Hs). apply (find_loop_search _ s k [] t Hs). lia.
Qed.

(** ** Iteration *)

(** The address at the head of a list of nodes, null for the empty list. *)
Definition hd_addr (l : list (Z * Z)) : Z := match l with [] => NULL | x :: _ => x.1 end.

Lemma leftmost_spec (fuel : nat) (s : rb) (ctx : context) (t : tree) :
  holds s (plug ctx t) -> t <> E -> (length (addrs t) < fuel)%nat ->
  leftmost fuel s (addr t) = Some (hd_addr (inorder t)).
Proof.
  revert ctx t. induction fuel as [|fuel IH]; intros ctx t Hs Ht Hf; [lia|]. cbn [leftmost].
  destruct t as [|c l a k r]; [done|]. cbn [addr]. rewrite (holds_node _ _ _ _ _ _ _ Hs). cbn [mbind option_bind left].
  destruct l as [|c' l' a' k' r']; [done|]. set (l := T c' l' a' k' r') in *.
  pose proof (focus_fresh s (FL c a k r :: ctx) c' a' k' l' r' Hs) as [_ Ha]. apply Z.eqb_neq in Ha. cbn [addr] in *.
  change (addr l) with a'. rewrite Ha. rewrite addrs_T, length_app in Hf. cbn [length] in Hf.
  change a' with (addr l). rewrite (IH (FL c a k r :: ctx) l Hs) by (done || lia). cbn [inorder].
  destruct (inorder l) eqn:E; [|done]. cbn in E. by apply app_eq_nil in E as [_ ?].
Qed.

Lemma climb_right_spec (fuel : nat) (s : rb) (ctx : context) (c a k : Z) (l r : tree) :
  holds s (plug ctx (T c l a k r)) -> (length ctx < fuel)%nat ->
  climb_right fuel s a (cpar ctx) = Some (hd_addr (after ctx)).
Proof.
  revert ctx c a k l r. induction fuel as [|fuel IH]; intros ctx c a k l r Hs Hf; [lia|]. cbn [climb_right].
  destruct ctx as [|f ctx]; [done|]. destruct (Z.eqb_spec (cpar (f :: ctx)) NULL) as [E|_].
  { exfalso. eapply (holds_nonnull s _ (cpar (f :: ctx)) Hs); [|done]. rewrite addrs_plug. apply elem_of_app. left.
    by apply cpar_elem. }
  destruct f as [cf p kp sb|cf sb p kp]; cbn [cpar faddr after hd_addr length] in *.
  - rewrite (holds_node s ctx cf p kp (T c l a k r) sb Hs). cbn [mbind option_bind right].
    pose proof (sibling_ne _ _ _ _ _ _ _ _ Hs) as Hne. cbn [sibling] in Hne. by rewrite Hne.
  - rewrite (holds_node s ctx cf p kp sb (T c l a k r) Hs). cbn [mbind option_bind right parent addr].
    rewrite Z.eqb_refl. apply (IH ctx cf p kp sb (T c l a k r) Hs). lia.
Qed.

Lemma focus_of (t : tree) (a : Z) :
  a ∈ addrs t -> exists ctx c l k r, t = plug ctx (T c l a k r).
Proof.
  assert (forall t ctx, a ∈ addrs t -> exists ctx' c l k r, plug ctx t = plug ctx' (T c l a k r)) as H; [|apply (H t [])].
  clear t. induction t as [|c l IHl b k r IHr]; intros ctx; [by intros ?%elem_of_nil|].
  rewrite addrs_T, elem_of_app, elem_of_cons. intros [Hl|[->|Hr] ].
  - apply (IHl (FL c b k r :: ctx) Hl).
  - by exists ctx, c, l, k, r.
  - apply (IHr (FR c l b k :: ctx) Hr).
Qed.

(** [rbtree_first] is the first node in order, and [rbtree_next] of any node is the
    one that follows it in order, null after the last: the two walk through all
    nodes in the order of their keys. *)
Theorem rbtree_iterates (s : rb) (t : tree) (l1 l2 : list (Z * Z)) (a k : Z) :
  rbt s t -> inorder t = l1 ++ (a, k) :: l2 ->
  rbtree_first s = Some (hd_addr (inorder t)) /\ rbtree_next s a = Some (hd_addr l2).
Proof.
  intros [Hs _ _ _] Hin. pose proof (holds_size _ _ Hs) as Hz.
  assert (a ∈ addrs t) as Ha. { unfold addrs. rewrite Hin, fmap_app, fmap_cons. set_solver. }
  assert (a <> NULL) as H0 by (by eapply holds_nonnull). apply Z.eqb_neq in H0. split.
  - unfold rbtree_first, tree_min. rewrite (h_root _ _ Hs).
    assert (t <> E) as Ht by (intros ->; by apply elem_of_nil in Ha).
    destruct (Z.eqb_spec (addr t) NULL) as [E|_].
    { destruct t as [|c l b k' r]; [done|]. by destruct (focus_fresh s [] c b k' l r Hs). }
    apply (leftmost_spec _ _ [] t Hs Ht). unfold fuel_of. lia.
  - destruct (focus_of t a Ha) as (ctx & c & l & k' & r & ->). rewrite inorder_plug in Hin. cbn [inorder] in Hin.
    assert (inorder r ++ after ctx = l2) as <-.
    { pose proof (h_nodup _ _ Hs) as Hn. unfold addrs in Hn. rewrite inorder_plug in Hn. cbn [inorder] in Hn.
      rewrite <-!app_assoc in Hin, Hn. rewrite (app_assoc (before ctx)) in Hin, Hn. cbn [app] in Hin, Hn.
      rewrite Hin in Hn. clear -Hin Hn. revert Hin Hn. generalize (before ctx ++ inorder l) as l0, (inorder r ++ after ctx) as l3.
      intros l0 l3 Hin Hn. revert l1 Hin Hn. induction l0 as [|x l0 IH]; intros [|y l1] Hin Hn; cbn in *.
      - congruence.
      - exfalso. injection Hin as <- ->. rewrite fmap_app, fmap_cons in Hn. apply NoDup_cons in Hn as [Hn _]. set_solver.
      - exfalso. injection Hin as -> <-. apply NoDup_cons in Hn as [Hn _]. rewrite fmap_app, fmap_cons in Hn. set_solver.
      - injection Hin as -> Hin. apply NoDup_cons in Hn as [_ Hn]. by eapply IH. }
    unfold rbtree_next. rewrite H0, (holds_node _ _ _ _ _ _ _ Hs). cbn [mbind option_bind right parent].
    destruct r as [|c' l' a' k'' r'].
    + cbn [addr inorder app]. rewrite Z.eqb_refl. cbn [negb]. apply (climb_right_spec _ s ctx c a k' l E Hs).
      pose proof (length_ctx ctx (T c l a k' E)). unfold fuel_of. lia.
    + set (r := T c' l' a' k'' r') in *. destruct (focus_fresh s (FR c l a k' :: ctx) c' a' k'' l' r' Hs) as [_ Ha'].
      apply Z.eqb_neq in Ha'. unfold tree_min. change (addr r) with a'. rewrite Ha'. cbn [negb].
      change a' with (addr r). rewrite (leftmost_spec _ _ (FR c l a k' :: ctx) r Hs).
      * destruct (inorder r) eqn:E; [|done]. cbn in E. by apply app_eq_nil in E as [_ ?].
      * done.
      * pose proof (length_ctx (FR c l a k' :: ctx) r) as Hl. unfold fuel_of.
        change (plug (FR c l a k' :: ctx) r) with (plug ctx (T c l a k' r)) in Hl. lia.
Qed.

(** ** A worked tree *)

Definition fresh_node (k : Z) : rb_node := mk_node NULL NULL NULL RB_RED k.

(** Seven nodes outside any tree, at the addresses 16, 32, ..., with the keys 1 to 7. *)
Definition demo_heap : rb :=
  mk_rb NULL (list_to_map ((fun k => (16 * k, fresh_node k)) <$> range 1 8)) (mk_stats 0 0 0 0).

Lemma demo_empty : rbt demo_heap E.
Proof.
  constructor; [|by exists 0%nat; constructor|done|by constructor].
  constructor; [done|done|by constructor|]. vm_compute. reflexivity.
Qed.

Lemma rbtree_insert_spec_witness :
  exists s' t', rbtree_insert 64 4 demo_heap = Some s' /\ rbt s' t' /\ inserted 64 4 (inorder E) (inorder t').
Proof.
  apply (rbtree_insert_spec demo_heap E 64 4 (fresh_node 4)).
  - apply demo_empty.
  - apply not_elem_of_nil.
  - done.
  - vm_compute. reflexivity.
  - reflexivity.
Defined.

Lemma rbtree_find_spec_witness :
  exists p, (rbtree_find 3 demo_heap).1 = Some p /\
    (p <> NULL -> (p, 3) ∈ inorder E) /\ (p = NULL -> 3 ∉ (inorder E).*2) /\
    find_loop (2 * Nat.log2 (length (inorder E) + 1) + 1) demo_heap 3 (root demo_heap) = Some p.
Proof. apply (rbtree_find_spec demo_heap E 3). apply demo_empty. Defined.

Definition insert_all (ks : list Z) (s : rb) : option rb :=
  foldl (fun s k => s ← s; rbtree_insert (16 * k) k s) (Some s) ks.

Definition one_tree : tree := T RB_BLACK E 64 4 E.
Definition one_state : rb :=
  mk_rb 64 {[ 64 := mk_node NULL NULL NULL RB_BLACK 4 ]} (mk_stats 0 0 0 0).
Lemma one_rbt : rbt one_state one_tree.
Proof.
  constructor; [|by exists 1%nat; repeat constructor|done|by repeat constructor].
  constructor; [done| |by apply NoDup_singleton|done]. cbn [rep one_tree one_state heap]. by rewrite lookup_singleton_eq.
Qed.

Lemma rbtree_iterates_witness :
  rbtree_first one_state = Some 64 /\ rbtree_next one_state 64 = Some NULL.
Proof. apply (rbtree_iterates one_state one_tree [] [] 64 4); [apply one_rbt|reflexivity]. Defined.

(** ** Removal *)

(** The seven keys inserted in this order give a root with key 2 whose successor, 3, is
    not its right child. *)
Definition before_erase : option rb := insert_all [2; 1; 5; 3; 6; 4; 7] demo_heap.
Definition after_erase : option rb := s ← before_erase; rbtree_erase 32 s.

Definition heap_after : list (Z * rb_node) :=
  [(16, mk_node 48 NULL NULL RB_BLACK 1); (32, mk_node NULL NULL NULL RB_BLACK 2);
   (48, mk_node NULL 16 80 RB_BLACK 3); (64, mk_node 80 NULL NULL RB_RED 4);
   (80, mk_node 48 48 96 RB_RED 5); (96, mk_node 80 NULL 112 RB_BLACK 6);
   (112, mk_node 96 NULL NULL RB_RED 7)].

Lemma after_erase_heap : exists g, after_erase = Some (mk_rb 48 (list_to_map heap_after) g).
Proof. eexists. vm_compute. reflexivity. Qed.

(** After the removal of the root, the old parent of the successor still points to it:
    key 4 was in the tree and was not removed, but the search for it goes round for
    ever, whatever the fuel. *)
Lemma erase_makes_cycle :
  (exists s, before_erase = Some s /\ (rbtree_find 4 s).1 = Some 64) /\
  (exists s, after_erase = Some s /\ forall fuel, find_loop fuel s 4 (root s) = None).
Proof.
  split; [eexists; split; [vm_compute; reflexivity|vm_compute; reflexivity]|].
  destruct after_erase_heap as [g ->]. eexists. split; [done|]. intros fuel. cbn [root].
  set (s := mk_rb 48 (list_to_map heap_after) g).
  assert (heap s !! 48 = Some (mk_node NULL 16 80 RB_BLACK 3)) as H48 by done.
  assert (heap s !! 80 = Some (mk_node 48 48 96 RB_RED 5)) as H80 by done. clearbody s.
  assert (forall fuel, find_loop fuel s 4 48 = None /\ find_loop fuel s 4 80 = None) as H; [|apply H].
  clear fuel. induction fuel as [|fuel [IH1 IH2] ]; [done|]. cbn [find_loop]. rewrite H48, H80. cbn. by rewrite IH1, IH2.
Qed.

End RbTree.
