(* ===== verification/Shm.v ===== *)
(** * Shared memory (src/kernel/ipc_shm.c)

    [Module Shm]: the region table on top of the page allocator (Pmm.v) and the page
    tables (Vmm.v).  A region is in one slot only, so a slot holds the region
    itself; whether the two [kmalloc] calls of [shm_create] succeed is an argument.
    Every operation runs under [shm_lock] and is one step. *)

From S2P Require Import Prelude Pmm FrameSource Vmm.

Module Shm.
Import Pmm FrameSource Vmm.

Definition SHM_MAX_REGIONS : Z := 256.
Definition SHM_RDONLY : Z := 1.
Definition VMM_PAGE_PRESENT : Z := 1.
Definition VMM_PAGE_WRITABLE : Z := 2.
Definition VMM_PAGE_USER : Z := 4.

Record shm_region := mk_region {
  r_key : Z; r_size : Z; phys_pages : list Z; page_count : Z; ref_count : Z; r_flags : Z; owner : Z }.

Record shm := mk_shm { regions : list (option shm_region); key_counter : Z; vms : vm }.

Definition shm_init (v : vm) : shm := mk_shm (replicate (Z.to_nat SHM_MAX_REGIONS) None) 1 v.

(** [pmm_free_page] on every page of the list. *)
Definition free_all (pages : list Z) (p : pmm) : pmm := foldl (fun p a => pmm_free_page a p) p pages.

(** The allocation loop, with the pages so far: [None] after the clean-up of a failure. *)
Fixpoint alloc_loop (n : nat) (acc : list Z) (p : pmm) : option (list Z) * pmm :=
  match n with
  | O => (Some acc, p)
  | S n =>
      let '(phys, p1) := pmm_alloc_page p in
      if phys =? NULL then (None, free_all acc p1) else alloc_loop n (acc ++ [phys]) p1
  end.

(** The first slot that passes a test. *)
Definition find_slot (f : option shm_region -> bool) (s : shm) : option Z :=
  List.find (fun i => f ((regions s).[i])) (range 0 SHM_MAX_REGIONS).

Definition shm_create (region_ok pages_ok : bool) (size flags : Z) (s : shm) : Z * shm :=
  if negb region_ok then (-1, s)
  else
    let pc := u32 (size + PAGE_SIZE - 1) / PAGE_SIZE in
    if negb pages_ok then (-1, s)
    else
      let '(pages, p1) := alloc_loop (Z.to_nat pc) [] (frames (vms s)) in
      match pages with
      | None => (-1, mk_shm (regions s) (key_counter s) (set_frames (vms s) p1))
      | Some pages =>
          let key := key_counter s in
          let r := mk_region key size pages pc 1 (u32 flags) 0 in
          match find_slot (fun r => negb (bool_decide (is_Some r))) s with
          | None => (-1, mk_shm (regions s) (s32 (key + 1)) (set_frames (vms s) (free_all pages p1)))
          | Some slot => (key, mk_shm ((regions s).[slot <- Some r]) (s32 (key + 1)) (set_frames (vms s) p1))
          end
      end.

Definition has_key (key : Z) (r : option shm_region) : bool :=
  match r with Some r => r_key r =? key | None => false end.

Definition shm_get (s : shm) (key : Z) : option shm_region :=
  match find_slot (has_key key) s with Some i => (regions s).[i] | None => None end.

(** No page of the window at [virt] is mapped. *)
Definition window_free (v : vm) (dir virt pc : Z) : bool :=
  forallb (fun p => vmm_get_physical v dir (u32 (virt + p * PAGE_SIZE)) =? 0) (range 0 pc).

Definition BASE : Z := 1073741824. (* 0x40000000 *)
Definition STRIDE : Z := 16777216. (* 0x1000000 *)

(** The address chosen by the search; the base when no window is free. *)
Definition choose_window (v : vm) (dir pc : Z) : Z :=
  match List.find (fun i => window_free v dir (u32 (BASE + i * STRIDE)) pc) (range 0 256) with
  | Some i => u32 (BASE + i * STRIDE)
  | None => BASE
  end.

Definition map_flags (r : shm_region) : Z :=
  if Z.land (r_flags r) SHM_RDONLY =? 0
  then Z.lor (Z.lor VMM_PAGE_PRESENT VMM_PAGE_USER) VMM_PAGE_WRITABLE
  else Z.lor VMM_PAGE_PRESENT VMM_PAGE_USER.

Definition map_window (r : shm_region) (dir vaddr : Z) (v : vm) : option vm :=
  for_each (fun i v => vmm_map_page dir (u32 (vaddr + i * PAGE_SIZE)) ((phys_pages r).[i]) (map_flags r) v)
    (range 0 (page_count r)) v.

Definition with_refs (r : shm_region) (n : Z) : shm_region :=
  mk_region (r_key r) (r_size r) (phys_pages r) (page_count r) n (r_flags r) (owner r).

(** [None]: a page table was needed and no frame was left ([vmm_map_page] panics). *)
Definition shm_attach (key dir : Z) (s : shm) : option (Z * shm) :=
  match find_slot (has_key key) s with
  | None => Some (0, s)
  | Some slot =>
      match (regions s).[slot] with
      | None => Some (0, s)
      | Some r =>
          let vaddr := choose_window (vms s) dir (page_count r) in
          match map_window r dir vaddr (vms s) with
          | None => None
          | Some v =>
              Some (vaddr, mk_shm ((regions s).[slot <- Some (with_refs r (s32 (ref_count r + 1)))])
                             (key_counter s) v)
          end
      end
  end.

Definition shm_detach (key vaddr dir : Z) (s : shm) : shm :=
  match find_slot (has_key key) s with
  | None => s
  | Some slot =>
      match (regions s).[slot] with
      | None => s
      | Some r =>
          let v := foldl (fun v i => vmm_unmap_page dir (u32 (vaddr + i * PAGE_SIZE)) v) (vms s)
                     (range 0 (page_count r)) in
          let n := s32 (ref_count r - 1) in
          if n <=? 0 then
            mk_shm ((regions s).[slot <- None]) (key_counter s)
              (set_frames v (free_all (phys_pages r) (frames v)))
          else mk_shm ((regions s).[slot <- Some (with_refs r n)]) (key_counter s) v
      end
  end.

(** ** Creation *)

(** [p] is [p0] with the frames [acc], free in [p0], marked. *)
Record grabbed (d : Z) (p0 : pmm) (acc : list Z) (p : pmm) : Prop := {
  g_inv : pmm_inv d p;
  g_total : total_pages p = total_pages p0;
  g_marks : forall j, 0 <= j < PMM_MAX_PAGES -> page_used p j = bool_decide (j * PAGE_SIZE ∈ acc) || page_used p0 j;
  g_acc : Forall (fun a => a <> NULL /\ a mod PAGE_SIZE = 0 /\ 0 <= a / PAGE_SIZE < total_pages p0 /\
            page_used p0 (a / PAGE_SIZE) = false) acc;
  g_nodup : NoDup acc }.

Lemma grabbed_nil (d : Z) (p : pmm) : pmm_inv d p -> grabbed d p [] p.
Proof.
  intros Hd. split; [done|done| |by constructor|by constructor]. intros j _.
  by rewrite bool_decide_eq_false_2 by apply not_elem_of_nil.
Qed.

Lemma grabbed_perm (d : Z) (p0 p : pmm) (l l' : list Z) : l ≡ₚ l' -> grabbed d p0 l p -> grabbed d p0 l' p.
Proof.
  intros Hl []. constructor; try done; [|by rewrite <-Hl..]. intros j Hj. rewrite g_marks0 by done. f_equal.
  apply bool_decide_ext. by rewrite Hl.
Qed.

Lemma grabbed_free (d : Z) (p0 p : pmm) (a : Z) (l : list Z) :
  grabbed d p0 (a :: l) p -> grabbed d p0 l (pmm_free_page a p).
Proof.
  intros [Hi Ht Hm Hf Hn]. apply Forall_cons in Hf as [(H0 & Ha & Hk & Hu) Hf]. apply NoDup_cons in Hn as [Hal Hn].
  rewrite free_page_eq. rewrite Ha, Ht, (proj2 (Z.ltb_lt _ _)) by lia. cbn [andb Z.eqb].
  destruct (release_page_inv d (a / PAGE_SIZE) p Hi ltac:(lia)) as [Hi' (Ht' & _ & Hm')].
  constructor; try done; [congruence|]. intros j Hj. rewrite Hm', Hm by done.
  destruct (Z.eqb_spec (a / PAGE_SIZE) j) as [<-|Hne]; cbn [negb andb].
  - rewrite Hu, bool_decide_eq_false_2; [done|].
    replace (a / PAGE_SIZE * PAGE_SIZE) with a by (unfold PAGE_SIZE in *; dlia). done.
  - f_equal. apply bool_decide_ext. rewrite elem_of_cons. split; [|auto]. intros [E|]; [|done].
    exfalso. apply Hne. rewrite <-E. unfold PAGE_SIZE. apply Z.div_mul. done.
Qed.

Lemma grabbed_free_all (d : Z) (p0 p : pmm) (l : list Z) :
  pmm_inv d p0 -> grabbed d p0 l p -> free_all l p = p0.
Proof.
  intros H0. revert p. induction l as [|a l IH]; intros p Hg; cbn [free_all foldl].
  - destruct Hg. apply (inv_marks_eq d); [done|done|done|]. intros i Hi. rewrite g_marks0 by done.
    by rewrite bool_decide_eq_false_2 by apply not_elem_of_nil.
  - apply IH. by apply grabbed_free.
Qed.

Lemma grabbed_alloc (d : Z) (p0 p : pmm) (l : list Z) :
  pmm_inv d p0 -> page_used p0 0 = true -> grabbed d p0 l p ->
  (pmm_alloc_page p).1 = NULL /\ (pmm_alloc_page p).2 = p \/
  (pmm_alloc_page p).1 <> NULL /\ grabbed d p0 (l ++ [(pmm_alloc_page p).1]) (pmm_alloc_page p).2.
Proof.
  intros H0 Hz Hg. pose proof Hg as [Hi Ht Hm Hf Hn]. pose proof H0 as []. 
  destruct (pmm_alloc_page_found d p Hi) as [(k & (Hk & Hu & _) & ->)|[_ ->] ]; [right|by left].
  destruct (mark_inv d k p Hi Hk Hu) as [Hi' (Ht' & _ & Hm')]. cbn [allocated fst snd].
  pose proof Hi as []. assert (0 <= k < PMM_MAX_PAGES) as Hk' by lia.
  rewrite Hm in Hu by done. apply orb_false_iff in Hu as [Hnl Hu]. apply bool_decide_eq_false in Hnl.
  assert (k <> 0) as Hk0 by congruence. split; [unfold NULL, PAGE_SIZE; lia|].
  apply (grabbed_perm d p0 _ (k * PAGE_SIZE :: l)); [by rewrite Permutation_app_comm|].
  constructor; [done|congruence| | |by constructor].
  - intros j Hj. rewrite Hm', Hm by done. rewrite orb_assoc. f_equal.
    destruct (Z.eqb_spec k j) as [->|Hne]; cbn [orb].
    + symmetry. apply bool_decide_eq_true. by left.
    + apply bool_decide_ext. rewrite elem_of_cons. split; [auto|]. intros [E|]; [|done].
      unfold PAGE_SIZE in E. lia.
  - constructor; [|done]. rewrite Z.div_mul, Z.mod_mul by done. split_and!; try done; try lia. unfold NULL, PAGE_SIZE. lia.
Qed.

Lemma alloc_loop_spec (n : nat) (d : Z) (p0 p : pmm) (l : list Z) :
  pmm_inv d p0 -> page_used p0 0 = true -> grabbed d p0 l p ->
  match alloc_loop n l p with
  | (Some l', q) => length l' = (length l + n)%nat /\ grabbed d p0 l' q
  | (None, q) => q = p0
  end.
Proof.
  intros H0 Hz. revert l p. induction n as [|n IH]; intros l p Hg; cbn [alloc_loop]; [by rewrite Nat.add_0_r|].
  pose proof (grabbed_alloc d p0 p l H0 Hz Hg) as Ha. destruct (pmm_alloc_page p) as [a q]. cbn [fst snd] in Ha.
  destruct Ha as [ [-> ->] | [Hne Hg'] ]; [by apply (grabbed_free_all d)|].
  apply Z.eqb_neq in Hne. rewrite Hne. specialize (IH _ _ Hg'). destruct (alloc_loop n _ q) as [ [l'|] q'];[|done].
  rewrite length_app in IH. cbn in IH. split; [lia|]. apply IH.
Qed.


(** ** Attaching *)

Lemma for_each_app {A} (f : A -> vm -> option vm) (l k : list A) (v : vm) :
  for_each f (l ++ k) v = match for_each f l v with Some v' => for_each f k v' | None => None end.
Proof. revert v. induction l as [|x l IH]; intros v; cbn [app for_each]; [done|]. destruct (f x v); auto. Qed.

Section window.
Context (dir vaddr flags : Z) (page : Z -> Z).
Hypothesis Hva : vaddr mod 4096 = 0.

Definition wpage (i : Z) : Z := u32 (vaddr + i * 4096).

Lemma wpage_u32 (i : Z) : is_u32 (wpage i).
Proof. apply u32_range. Qed.

(** The pages of a window of at most 2^20 pages are different. *)
Lemma wpage_inj (i j : Z) : 0 <= i < 1048576 -> 0 <= j < 1048576 -> wpage i / 4096 = wpage j / 4096 -> i = j.
Proof using Hva. clear page. unfold wpage, u32. change (2 ^ 32) with 4294967296. intros. dlia. Qed.

(** The first [n] pages are mapped, the rest translates as in [v0]. *)
Record mapped_to (v0 : vm) (n : Z) (v : vm) : Prop := {
  mt_ok : vm_ok v;
  mt_dir : dir_ok v dir;
  mt_in : forall i w, 0 <= i < n -> is_u32 w -> w / 4096 = wpage i / 4096 ->
    vmm_get_physical v dir w = Z.lor (Z.land (page i) FRAME_MASK) (Z.land w FLAG_MASK);
  mt_out : forall w, is_u32 w -> (forall i, 0 <= i < n -> w / 4096 <> wpage i / 4096) ->
    vmm_get_physical v dir w = vmm_get_physical v0 dir w }.

Lemma mapped_step (v0 v v' : vm) (n : Z) :
  0 <= n < 1048576 -> mapped_to v0 n v -> vmm_map_page dir (wpage n) (page n) flags v = Some v' ->
  mapped_to v0 (n + 1) v'.
Proof using Hva.
  intros Hn [Hok Hdir Hin Hout] E. pose proof (map_page_spec v dir (wpage n) (page n) flags Hok Hdir (wpage_u32 n)) as H.
  rewrite E in H. destruct H as (Hok' & Hdir' & Hg). split; [done|done| |].
  - intros i w Hi Hw Ew. rewrite Hg by done. destruct (Z.eqb_spec (wpage n / 4096) (w / 4096)) as [En|En].
    + assert (i = n) as -> by (apply wpage_inj; lia). done.
    + apply Hin; [|done..]. assert (i <> n) by (intros ->; congruence). lia.
  - intros w Hw Ho. rewrite Hg by done. rewrite (proj2 (Z.eqb_neq _ _)); [|apply not_eq_sym, Ho; lia].
    apply Hout; [done|]. intros i Hi. apply Ho. lia.
Qed.

Definition map_first (n : Z) (v : vm) : option vm :=
  for_each (fun i v => vmm_map_page dir (wpage i) (page i) flags v) (range 0 n) v.

Lemma map_first_S (n : Z) (v : vm) : 0 <= n ->
  map_first (n + 1) v = match map_first n v with Some v' => vmm_map_page dir (wpage n) (page n) flags v' | None => None end.
Proof.
  intros Hn. unfold map_first. rewrite (range_app 0 n (n + 1)), for_each_app, (range_cons n (n + 1)), (range_nil (n + 1)) by lia.
  destruct (for_each _ _ v) as [v'|]; [|done]. cbn [for_each]. by destruct (vmm_map_page _ _ _ _ v').
Qed.

Lemma map_first_spec (n : nat) (v : vm) :
  vm_ok v -> dir_ok v dir -> Z.of_nat n <= 1048576 ->
  match map_first (Z.of_nat n) v with
  | Some v' => mapped_to v (Z.of_nat n) v'
  | None => exists k v', 0 <= k < Z.of_nat n /\ map_first k v = Some v' /\ mapped_to v k v' /\
      pmm_frames_free (frames v') = 0
  end.
Proof using Hva.
  intros Hok Hdir. induction n as [|n IH]; intros Hn.
  - unfold map_first. rewrite range_nil by lia. cbn [for_each]. split; [done|done|lia|done].
  - specialize (IH ltac:(lia)). replace (Z.of_nat (S n)) with (Z.of_nat n + 1) by lia. rewrite map_first_S by lia.
    destruct (map_first (Z.of_nat n) v) as [v'|] eqn:E.
    + destruct (vmm_map_page _ _ _ _ v') as [v''|] eqn:E'; [apply (mapped_step v v'); [lia|done..]|].
      exists (Z.of_nat n), v'. split_and!; [lia|lia|done|done|].
      pose proof (map_page_spec v' dir (wpage (Z.of_nat n)) (page (Z.of_nat n)) flags (mt_ok _ _ _ IH) (mt_dir _ _ _ IH)
        (wpage_u32 _)) as H. rewrite E' in H. apply H.
    + destruct IH as (k & v' & Hk & H). exists k, v'. split; [lia|done].
Qed.

End window.

Lemma choose_window_cases (v : vm) (dir pc : Z) :
  choose_window v dir pc mod 4096 = 0 /\
  (window_free v dir (choose_window v dir pc) pc = true \/
   choose_window v dir pc = BASE /\ forall i, 0 <= i < 256 -> window_free v dir (u32 (BASE + i * STRIDE)) pc = false).
Proof.
  unfold choose_window. pose proof (find_range (fun i => window_free v dir (u32 (BASE + i * STRIDE)) pc) 0 256) as H.
  destruct (List.find _ _) as [i|].
  - split; [|left; apply H]. unfold u32, BASE, STRIDE. change (2 ^ 32) with 4294967296. dlia.
  - split; [done|]. right. split; [done|apply H].
Qed.

(** [shm_attach] of an existing region maps the whole region: on return every address
    of the returned window translates to the frame of its page with its own offset
    (so two attached processes see the same frames), every address outside the
    window translates as before, the directory is well formed for the next call and
    the region has one more reference.  The window was free in the directory unless
    all the 256 candidates were taken, and then the first one is used.  The kernel
    panics only when a table is needed and no frame is left. *)
Theorem shm_attach_maps (s : shm) (key dir slot : Z) (r : shm_region) :
  vm_ok (vms s) -> dir_ok (vms s) dir ->
  find_slot (has_key key) s = Some slot -> (regions s).[slot] = Some r -> 0 <= page_count r <= 1048576 ->
  match shm_attach key dir s with
  | None => exists k v', 0 <= k < page_count r /\
      map_first dir (choose_window (vms s) dir (page_count r)) (map_flags r) (fun i => (phys_pages r).[i]) k (vms s) = Some v' /\
      pmm_frames_free (frames v') = 0
  | Some (vaddr, s') =>
      mapped_to dir vaddr (fun i => (phys_pages r).[i]) (vms s) (page_count r) (vms s') /\
      regions s' = (regions s).[slot <- Some (with_refs r (s32 (ref_count r + 1)))] /\
      (window_free (vms s) dir vaddr (page_count r) = true \/
       vaddr = BASE /\ forall i, 0 <= i < 256 -> window_free (vms s) dir (u32 (BASE + i * STRIDE)) (page_count r) = false)
  end.
Proof.
  intros Hok Hdir Hf Hr Hpc. unfold shm_attach. rewrite Hf, Hr.
  destruct (choose_window_cases (vms s) dir (page_count r)) as [Ha Hw].
  set (va := choose_window _ _ _) in *.
  pose proof (map_first_spec dir va (map_flags r) (fun i => (phys_pages r).[i]) Ha (Z.to_nat (page_count r)) (vms s) Hok Hdir
    ltac:(lia)) as H. rewrite Z2Nat.id in H by lia.
  change (map_window r dir va (vms s)) with (map_first dir va (map_flags r) (fun i => (phys_pages r).[i]) (page_count r) (vms s)).
  destruct (map_first _ _ _ _ _ _) as [v'|].
  - cbn [vms regions]. split_and!; try done.
  - destruct H as (k & v' & Hk & E & _ & Hz). exists k, v'. done.
Qed.

(** ** Detaching *)

Lemma unmap_frees (v : vm) (dir virt e : Z) :
  pte_of v dir virt = Some e -> has PTE_PRESENT e = true -> has PTE_COW e = false ->
  frames (vmm_unmap_page dir virt v) = pmm_free_page (Z.land e FRAME_MASK) (frames v).
Proof.
  unfold pte_of, vmm_unmap_page, get_page_table, pde_present_at, pde_frame.
  destruct (has PTE_PRESENT (entry v dir _)); [|done]. cbn [negb]. by intros [= ->] -> ->.
Qed.

(** [shm_detach] of a page that [shm_attach] mapped gives the frame back to the page
    allocator although the region, with this frame, is still registered: [vmm_unmap_page]
    frees what it unmaps. *)
Lemma detach_frees_shared (d : Z) (s : shm) (key vaddr dir slot page flags : Z) (r : shm_region) :
  pmm_inv d (frames (vms s)) ->
  find_slot (has_key key) s = Some slot -> (regions s).[slot] = Some r -> 0 <= slot < zlen (regions s) ->
  page_count r = 1 -> phys_pages r = [page] -> ref_count r = 2 ->
  is_u32 vaddr -> is_u32 page -> page mod 4096 = 0 -> page / 4096 < total_pages (frames (vms s)) ->
  pte_of (vms s) dir vaddr = Some (mk_pte page flags) -> has PTE_COW (mk_pte page flags) = false ->
  let s' := shm_detach key vaddr dir s in
  (regions s').[slot] = Some (with_refs r 1) /\ page_used (frames (vms s')) (page / 4096) = false.
Proof.
  intros Hd Hf Hr Hsl Hpc Hpp Href Hva Hpu Hpm Hpt Hpte Hcow. unfold shm_detach. rewrite Hf, Hr, Hpc, Href.
  rewrite (range_cons 0 1), (range_nil (0 + 1)) by lia. cbn [foldl]. change (s32 (2 - 1)) with 1. cbn [Z.leb Z.compare].
  cbn [regions vms]. rewrite Z.mul_0_l, Z.add_0_r, (u32_small vaddr) by done. split; [by apply aget_aset_eq|].
  rewrite (unmap_frees _ _ _ _ Hpte) by (apply mk_pte_present || done). rewrite mk_pte_frame, frame_mask_aligned by done.
  apply (free_page_freed page d); try done. apply Hpu.
Qed.

(** ** Concrete states *)


(** One region of one frame (0x5000), registered under key 1. *)
Definition demo_region : shm_region := mk_region 1 4096 [20480] 1 1 0 0.
Definition demo_shm : shm := mk_shm (Some demo_region :: replicate 255 None) 2 demo_vm.

Lemma shm_attach_maps_witness :
  exists va s', shm_attach 1 4096 demo_shm = Some (va, s') /\
    forall w, is_u32 w -> w / 4096 = wpage va 0 / 4096 ->
      vmm_get_physical (vms s') 4096 w = Z.lor 20480 (Z.land w FLAG_MASK).
Proof.
  pose proof (shm_attach_maps demo_shm 1 4096 0 demo_region demo_vm_ok demo_dir_ok eq_refl eq_refl ltac:(cbn; lia)) as H.
  destruct (shm_attach 1 4096 demo_shm) as [ [va s']|].
  - exists va, s'. split; [done|]. destruct H as [H _]. intros w Hw Ew. by rewrite (mt_in _ _ _ _ _ _ H 0) by (done || cbn; lia).
  - destruct H as (k & v' & Hk & E & Hz). assert (k = 0) as -> by (cbn in Hk; lia). unfold map_first in E.
    rewrite range_nil in E by lia. cbn [for_each] in E. injection E as <-. change (pmm_frames_free demo_pmm = 0) in Hz. by rewrite (proj2 demo_pmm_ok) in Hz.
Defined.

End Shm.
