(* ===== verification/SoftDiv.v ===== *)
(** * Software 64-bit division (src/lib/softdiv.c)

    [Module SoftDiv]: the routines the compiler calls for 64-bit division on a 32-bit
    machine.  The two loops of [__udivdi3] run on fuel; 65 rounds are enough for
    every argument. *)

From S2P Require Import Prelude.

Module SoftDiv.

Definition s64 (z : Z) : Z := sign 64 z.
Definition is_s64 (z : Z) : Prop := - 2 ^ 63 <= z < 2 ^ 63.

(** [while (den <= num && !(den & (1 << 63)))]. *)
Fixpoint align_loop (fuel : nat) (num den bit : Z) : option (Z * Z) :=
  match fuel with
  | O => None
  | S fuel =>
      if (den <=? num) && negb (c_true (Z.land den (Z.shiftl 1 63)))
      then align_loop fuel num (u64 (Z.shiftl den 1)) (u64 (Z.shiftl bit 1))
      else Some (den, bit)
  end.

(** [while (bit)]. *)
Fixpoint subtract_loop (fuel : nat) (num den quot bit : Z) : option Z :=
  match fuel with
  | O => None
  | S fuel =>
      if c_true bit then
        if den <=? num
        then subtract_loop fuel (u64 (num - den)) (Z.shiftr den 1) (Z.lor quot bit) (Z.shiftr bit 1)
        else subtract_loop fuel num (Z.shiftr den 1) quot (Z.shiftr bit 1)
      else Some quot
  end.

Definition rounds : nat := 65.

Definition __udivdi3 (num den : Z) : option Z :=
  if den =? 0 then Some 0
  else
    match align_loop rounds num den 1 with
    | Some (den, bit) => subtract_loop rounds num den 0 bit
    | None => None
    end.

Definition __umoddi3 (num den : Z) : option Z :=
  if den =? 0 then Some 0
  else match __udivdi3 num den with Some q => Some (u64 (num - u64 (q * den))) | None => None end.

Definition __divdi3 (num den : Z) : option Z :=
  let '(num, neg) := if num <? 0 then (s64 (- num), true) else (num, false) in
  let '(den, neg) := if den <? 0 then (s64 (- den), negb neg) else (den, neg) in
  match __udivdi3 (u64 num) (u64 den) with
  | Some q => let result := s64 q in Some (if neg then s64 (- result) else result)
  | None => None
  end.

Definition __moddi3 (num den : Z) : option Z :=
  let '(num, neg) := if num <? 0 then (s64 (- num), true) else (num, false) in
  let den := if den <? 0 then s64 (- den) else den in
  match __umoddi3 (u64 num) (u64 den) with
  | Some r => let result := s64 r in Some (if neg then s64 (- result) else result)
  | None => None
  end.

(** ** Unsigned division *)

Lemma u64_small (z : Z) : is_u64 z -> u64 z = z.
Proof. intros H. apply Z.mod_small, H. Qed.

Lemma top_bit (z : Z) : is_u64 z -> c_true (Z.land z (Z.shiftl 1 63)) = (2 ^ 63 <=? z).
Proof.
  intros Hz. unfold c_true. rewrite Z.shiftl_1_l.
  assert (Z.land z (2 ^ 63) = if 2 ^ 63 <=? z then 2 ^ 63 else 0) as ->.
  { apply Z.bits_inj'. intros k Hk. rewrite Z.land_spec, Z.pow2_bits_eqb by lia.
    destruct (Z.eqb_spec 63 k) as [<-|Hne]; cbn [andb].
    - rewrite andb_true_r, Z.testbit_odd, Z.shiftr_div_pow2 by lia. destruct (Z.leb_spec (2 ^ 63) z).
      + replace (z / 2 ^ 63) with 1; [by rewrite Z.pow2_bits_eqb by lia|]. unfold is_u64 in Hz. dlia.
      + replace (z / 2 ^ 63) with 0; [done|]. unfold is_u64 in Hz. dlia.
    - rewrite andb_false_r. case_if; [|by rewrite Z.bits_0]. rewrite Z.pow2_bits_eqb by lia. symmetry. by apply Z.eqb_neq. }
  by destruct (2 ^ 63 <=? z).
Qed.

(** The first loop shifts the divisor until it exceeds half of the dividend. *)
Lemma align_loop_spec (fuel : nat) (num d0 k : Z) :
  is_u64 num -> 0 < d0 -> 0 <= k -> d0 * 2 ^ k < 2 ^ 64 -> 63 - k < Z.of_nat fuel ->
  exists j, 0 <= j <= 63 /\ align_loop fuel num (d0 * 2 ^ k) (2 ^ k) = Some (d0 * 2 ^ j, 2 ^ j) /\
    d0 * 2 ^ j < 2 ^ 64 /\ num < 2 * (d0 * 2 ^ j).
Proof.
  intros Hn Hd. revert k. induction fuel as [|fuel IH]; intros k Hk Hb Hf.
  - exfalso. assert (2 ^ 64 <= 2 ^ k) by (apply Z.pow_le_mono_r; lia). nia.
  - cbn [align_loop]. pose proof (Z.pow_pos_nonneg 2 k ltac:(lia) Hk) as Hpos.
    assert (k <= 63) as Hk63.
    { apply Z.lt_succ_r. apply (Z.pow_lt_mono_r_iff 2); [lia|lia|]. change (Z.succ 63) with 64. nia. }
    rewrite top_bit by (unfold is_u64; nia).
    destruct ((d0 * 2 ^ k <=? num) && negb (2 ^ 63 <=? d0 * 2 ^ k)) eqn:E.
    + zbool. assert (d0 * 2 ^ (k + 1) = 2 * (d0 * 2 ^ k)) as Hs by (rewrite Z.pow_add_r by lia; lia).
      assert (2 ^ (k + 1) < 2 ^ 64) by nia.
      rewrite !Z.shiftl_mul_pow2 by lia. change (2 ^ 1) with 2.
      replace (d0 * 2 ^ k * 2) with (d0 * 2 ^ (k + 1)) by lia.
      replace (2 ^ k * 2) with (2 ^ (k + 1)) by (rewrite Z.pow_add_r by lia; lia).
      rewrite !u64_small by (unfold is_u64; nia). apply IH; lia.
    + exists k. split_and!; [lia|lia|done|done|]. apply andb_false_iff in E. unfold is_u64 in Hn. destruct E; zbool; lia.
Qed.

Lemma lor_fresh_bit (q k : Z) : 0 <= k -> q mod 2 ^ (k + 1) = 0 -> Z.lor q (2 ^ k) = q + 2 ^ k.
Proof.
  intros Hk Hq. rewrite Z.add_nocarry_lxor.
  - apply Z.bits_inj'. intros j Hj. rewrite Z.lor_spec, Z.lxor_spec, Z.pow2_bits_eqb by lia.
    destruct (Z.eqb_spec k j) as [<-|]; [|by rewrite orb_false_r, xorb_false_r].
    rewrite <-(Z.mod_pow2_bits_low q (k + 1) k), Hq, Z.bits_0 by lia. done.
  - apply Z.bits_inj'. intros j Hj. rewrite Z.land_spec, Z.pow2_bits_eqb, Z.bits_0 by lia.
    destruct (Z.eqb_spec k j) as [<-|]; [|by rewrite andb_false_r].
    by rewrite <-(Z.mod_pow2_bits_low q (k + 1) k), Hq, Z.bits_0 by lia.
Qed.

(** The second loop keeps [N = quot * d0 + num] with [num] below twice the divisor. *)
Lemma subtract_loop_spec (fuel : nat) (N d0 num quot k : Z) :
  0 < d0 -> 0 <= k -> is_u64 num -> N = quot * d0 + num -> num < 2 * (d0 * 2 ^ k) -> quot mod 2 ^ (k + 1) = 0 ->
  k + 1 < Z.of_nat fuel ->
  subtract_loop fuel num (d0 * 2 ^ k) quot (2 ^ k) = Some (N / d0).
Proof.
  intros Hd. revert num quot k. induction fuel as [|fuel IH]; intros num quot k Hk Hn HN Hlt Hq Hf; [lia|].
  cbn [subtract_loop]. pose proof (Z.pow_pos_nonneg 2 k ltac:(lia) Hk) as Hpos.
  unfold c_true. rewrite (proj2 (Z.eqb_neq (2 ^ k) 0)) by lia. cbn [negb].
  set (step := fun n q => subtract_loop fuel n (Z.shiftr (d0 * 2 ^ k) 1) q (Z.shiftr (2 ^ k) 1)).
  assert (forall n q, is_u64 n -> N = q * d0 + n -> n < d0 * 2 ^ k -> q mod 2 ^ k = 0 -> step n q = Some (N / d0)) as Hstep.
  { intros n q Hn' HN' Hlt' Hq'. unfold step. rewrite !Z.shiftr_div_pow2 by lia. change (2 ^ 1) with 2.
    destruct (decide (k = 0)) as [->|Hk0].
    - change (2 ^ 0 / 2) with 0. destruct fuel as [|f]; [lia|]. cbn [subtract_loop]. f_equal.
      unfold is_u64 in Hn'. change (2 ^ 0) with 1 in Hlt'. apply (Z.div_unique_pos N d0 q n); lia.
    - assert (2 ^ k = 2 * 2 ^ (k - 1)) as Ek by (rewrite <-Z.pow_succ_r by lia; f_equal; lia).
      replace (d0 * 2 ^ k) with (d0 * 2 ^ (k - 1) * 2) by lia. rewrite Z.div_mul by lia.
      replace (2 ^ k / 2) with (2 ^ (k - 1)) by (rewrite Ek, Z.mul_comm, Z.div_mul; lia).
      apply IH; [lia|done|done|lia|by replace (k - 1 + 1) with k by lia|lia]. }
  assert (quot mod 2 ^ k = 0) as Hq'.
  { rewrite Z.pow_add_r in Hq by lia. change (2 ^ 1) with 2 in Hq.
    apply Z.mod_divide in Hq as [c Hc]; [|lia]. apply Z.mod_divide; [lia|]. exists (c * 2). lia. }
  destruct (Z.leb_spec (d0 * 2 ^ k) num).
  - rewrite u64_small by (unfold is_u64 in *; nia). rewrite lor_fresh_bit by done. apply Hstep.
    + unfold is_u64 in *. nia.
    + lia.
    + lia.
    + rewrite <-(Z.mul_1_l (2 ^ k)) at 1. by rewrite Z.mod_add by lia.
  - by apply Hstep.
Qed.

Lemma udivdi3_div (num den : Z) : is_u64 num -> is_u64 den -> __udivdi3 num den = Some (if den =? 0 then 0 else num / den).
Proof.
  intros Hn Hd. unfold __udivdi3. destruct (Z.eqb_spec den 0) as [|Hne]; [done|]. unfold is_u64 in Hd.
  destruct (align_loop_spec rounds num den 0 Hn) as (j & Hj & E & Hb & Hlt); [lia|lia|lia|done|].
  change (2 ^ 0) with 1 in E. rewrite Z.mul_1_r in E. rewrite E.
  apply subtract_loop_spec; [lia|lia|done|lia|done| |unfold rounds; lia]. apply Z.mod_0_l. lia.
Qed.

Lemma umoddi3_mod (num den : Z) : is_u64 num -> is_u64 den -> __umoddi3 num den = Some (if den =? 0 then 0 else num mod den).
Proof.
  intros Hn Hd. unfold __umoddi3. rewrite udivdi3_div by done. destruct (Z.eqb_spec den 0) as [|Hne]; [done|].
  unfold is_u64 in *. pose proof (Z.div_mod num den Hne). pose proof (Z.mod_pos_bound num den ltac:(lia)).
  pose proof (Z.div_pos num den ltac:(lia) ltac:(lia)).
  rewrite (u64_small (num / den * den)) by (unfold is_u64; nia). rewrite u64_small by (unfold is_u64; nia). f_equal. lia.
Qed.

(** ** Signed division *)

Lemma s64_small (z : Z) : is_s64 z -> s64 z = z.
Proof. unfold is_s64, s64, sign. intros H. case_if; dlia. Qed.

Lemma s64_opp (z : Z) : s64 (- s64 z) = s64 (- z).
Proof. apply sign_cong. unfold s64. rewrite <-!Z.sub_0_l, Zminus_mod, sign_mod, <-Zminus_mod. done. Qed.

(** The magnitude, computed with the wrap of [-INT64_MIN]. *)
Lemma magnitude (z : Z) : is_s64 z -> u64 (if z <? 0 then s64 (- z) else z) = Z.abs z.
Proof.
  unfold is_s64. intros Hz. unfold u64. destruct (Z.ltb_spec z 0).
  - unfold s64. rewrite sign_mod, Z.abs_neq by lia. apply Z.mod_small. lia.
  - rewrite Z.abs_eq by lia. apply Z.mod_small. lia.
Qed.

Lemma divdi3_quot (a b : Z) : is_s64 a -> is_s64 b -> __divdi3 a b = Some (if b =? 0 then 0 else s64 (Z.quot a b)).
Proof.
  intros Ha Hb. unfold __divdi3.
  assert (forall (n1 n2 : bool), n1 = (a <? 0) -> n2 = (b <? 0) ->
    match __udivdi3 (Z.abs a) (Z.abs b) with
    | Some q => Some (if xorb n1 n2 then s64 (- s64 q) else s64 q) | None => None end
    = Some (if b =? 0 then 0 else s64 (Z.quot a b))) as H.
  { intros n1 n2 -> ->. unfold is_s64 in *. rewrite udivdi3_div by (unfold is_u64; lia).
    destruct (Z.eqb_spec b 0) as [->|Hne]; [cbn [Z.abs Z.eqb]; by destruct (xorb _ _)|].
    rewrite (proj2 (Z.eqb_neq (Z.abs b) 0)), s64_opp, Z.quot_div by lia. f_equal.
    destruct (Z.ltb_spec a 0), (Z.ltb_spec b 0); cbn [xorb];
      rewrite ?(Z.sgn_neg a), ?(Z.sgn_neg b), ?(Z.sgn_pos b) by lia; rewrite ?Z.mul_1_l, ?Z.mul_1_r; try (f_equal; lia).
    all: destruct (Z.eqb_spec a 0) as [->|]; [by rewrite Z.div_0_l by lia|].
    all: rewrite (Z.sgn_pos a) by lia; f_equal; lia. }
  rewrite <-(H _ _ eq_refl eq_refl), <-(magnitude a Ha), <-(magnitude b Hb).
  destruct (a <? 0), (b <? 0); done.
Qed.

Lemma moddi3_rem (a b : Z) : is_s64 a -> is_s64 b -> __moddi3 a b = Some (if b =? 0 then 0 else Z.rem a b).
Proof.
  intros Ha Hb. unfold __moddi3. set (den := if b <? 0 then _ else _).
  assert (u64 den = Z.abs b) as -> by (by apply magnitude).
  assert (match __umoddi3 (Z.abs a) (Z.abs b) with
    | Some r => Some (if a <? 0 then s64 (- s64 r) else s64 r) | None => None end
    = Some (if b =? 0 then 0 else Z.rem a b)) as H.
  { unfold is_s64 in *. rewrite umoddi3_mod by (unfold is_u64; lia).
    destruct (Z.eqb_spec b 0) as [->|Hne]; [cbn [Z.abs Z.eqb]; by destruct (a <? 0)|].
    rewrite (proj2 (Z.eqb_neq (Z.abs b) 0)), s64_opp, Z.rem_mod by lia. f_equal.
    pose proof (Z.mod_pos_bound (Z.abs a) (Z.abs b) ltac:(lia)).
    destruct (Z.ltb_spec a 0).
    - rewrite (Z.sgn_neg a), s64_small by (unfold is_s64; lia). lia.
    - rewrite s64_small by (unfold is_s64; lia). destruct (Z.eqb_spec a 0) as [->|]; [by rewrite Z.mod_0_l by lia|].
      rewrite (Z.sgn_pos a); lia. }
  rewrite <-H, <-(magnitude a Ha). by destruct (a <? 0).
Qed.

(** C39: The division routines always return, and compute what the operators of C mean:
    the unsigned ones quotient and remainder, the signed ones the quotient rounded
    towards zero (as a 64-bit value, so [INT64_MIN / -1] wraps to [INT64_MIN]) and
    the remainder with the sign of the dividend.  A zero divisor gives zero. *)
Theorem softdiv_correct (a b : Z) :
  (is_u64 a -> is_u64 b ->
   __udivdi3 a b = Some (if b =? 0 then 0 else a / b) /\ __umoddi3 a b = Some (if b =? 0 then 0 else a mod b)) /\
  (is_s64 a -> is_s64 b ->
   __divdi3 a b = Some (if b =? 0 then 0 else s64 (Z.quot a b)) /\ __moddi3 a b = Some (if b =? 0 then 0 else Z.rem a b)).
Proof. split; intros; split; auto using udivdi3_div, umoddi3_mod, divdi3_quot, moddi3_rem. Qed.

Lemma softdiv_correct_witness :
  __udivdi3 18446744073709551615 10 = Some 1844674407370955161 /\ __divdi3 (-7) 2 = Some (-3) /\
  __divdi3 (- 2 ^ 63) (-1) = Some (- 2 ^ 63) /\ __moddi3 (-7) 2 = Some (-1).
Proof.
  split_and!.
  - exact (proj1 (proj1 (softdiv_correct 18446744073709551615 10) ltac:(unfold is_u64; lia) ltac:(unfold is_u64; lia))).
  - exact (proj1 (proj2 (softdiv_correct (-7) 2) ltac:(unfold is_s64; lia) ltac:(unfold is_s64; lia))).
  - exact (proj1 (proj2 (softdiv_correct (- 2 ^ 63) (-1)) ltac:(unfold is_s64; lia) ltac:(unfold is_s64; lia))).
  - exact (proj2 (proj2 (softdiv_correct (-7) 2) ltac:(unfold is_s64; lia) ltac:(unfold is_s64; lia))).
Defined.

End SoftDiv.
