(* ===== verification/Slab.v ===== *)
(** * The slab allocator (src/kernel/slab.c)

    [Module Slab]: object caches.  A cache has lists of slabs linked by [s_next]; the
    free objects of a slab are linked through their own first word.  The slab
    descriptors live in [slabs], the words of the objects in [words], both keyed by
    address.  The results of the two [kmalloc] calls of [slab_grow] are arguments (0 is
    [NULL]); reading through a pointer to no descriptor or unset word is a fault, the
    result [None].  An operation runs under [slab_lock] and is one step. *)

From S2P Require Import Prelude Kheap.

Module Slab.

Definition SLAB_PAGE_SIZE : Z := 4096.
Definition SLAB_NAME_LEN : Z := 32.
Definition MAX_SLAB_CACHES : Z := 32.
Definition SLAB_HWCACHE_ALIGN : Z := 1.
Definition sizeof_ptr : Z := 4.
Definition sizeof_slab : Z := 24.
Definition sizeof_bufctl : Z := 4.

Record slab := mk_slab {
  s_next : Z; s_free_count : Z; s_total : Z; s_objects : Z; s_free_list : Z; s_bitmap : Z }.

Record kmem_cache := mk_cache {
  name : list Z; obj_size : Z; align : Z; objs_per_slab : Z; slab_count : Z; total_objects : Z;
  inuse : Z; alloc_count : Z; free_count : Z;
  slabs_full : Z; slabs_partial : Z; slabs_free : Z; flags : Z }.

Record mem := mk_mem { slabs : gmap Z slab; words : gmap Z Z }.

Definition set_slab (a : Z) (s : slab) (m : mem) : mem := mk_mem (<[a := s]> (slabs m)) (words m).
Definition set_word (a w : Z) (m : mem) : mem := mk_mem (slabs m) (<[a := w]> (words m)).
Definition del_slab (a : Z) (m : mem) : mem := mk_mem (delete a (slabs m)) (words m).
Definition with_next (s : slab) (n : Z) : slab :=
  mk_slab n (s_free_count s) (s_total s) (s_objects s) (s_free_list s) (s_bitmap s).
Definition with_free (s : slab) (n l : Z) : slab :=
  mk_slab (s_next s) n (s_total s) (s_objects s) l (s_bitmap s).
Definition with_lists (c : kmem_cache) (full partial : Z) : kmem_cache :=
  mk_cache (name c) (obj_size c) (align c) (objs_per_slab c) (slab_count c) (total_objects c)
    (inuse c) (alloc_count c) (free_count c) full partial (slabs_free c) (flags c).
Definition with_counts (c : kmem_cache) (use allocs frees : Z) : kmem_cache :=
  mk_cache (name c) (obj_size c) (align c) (objs_per_slab c) (slab_count c) (total_objects c)
    use allocs frees (slabs_full c) (slabs_partial c) (slabs_free c) (flags c).

(** [memset] of a range of bytes: the words that start in it read as 0. *)
Definition clear (a n : Z) (m : mem) : mem :=
  mk_mem (slabs m) (map_imap (fun k w => Some (if (a <=? k) && (k <? a + n) then 0 else w)) (words m)).

Definition slab_align_size (size align : Z) : Z :=
  let align := if align =? 0 then sizeof_ptr else align in
  Z.land (u32 (size + align - 1)) (u32 (Z.lnot (align - 1))).

(** The loop that threads the free list, from the last object to the first. *)
Definition thread_objects (page obj_size n : Z) (m : mem) : Z * mem :=
  foldl (fun '(l, m) i => let bufctl := u32 (page + i * obj_size) in (bufctl, set_word bufctl l m))
    (NULL, m) (reverse (range 0 n)).

(** [k1], [k2]: the results of [kmalloc] for the descriptor and for the page. *)
Definition slab_grow (k1 k2 : Z) (c : kmem_cache) (m : mem) : Z * kmem_cache * mem :=
  if k1 =? NULL then (-1, c, m)
  else if k2 =? NULL then (-1, c, m)
  else
    let '(l, m1) := thread_objects k2 (obj_size c) (objs_per_slab c) (clear k2 SLAB_PAGE_SIZE m) in
    let s := mk_slab (slabs_partial c) (objs_per_slab c) (objs_per_slab c) k2 l (u32 (k1 + sizeof_slab)) in
    (0, mk_cache (name c) (obj_size c) (align c) (objs_per_slab c) (u32 (slab_count c + 1))
          (u32 (total_objects c + objs_per_slab c)) (inuse c) (alloc_count c) (free_count c)
          (slabs_full c) k1 (slabs_free c) (flags c),
     set_slab k1 s m1).

Definition kmem_cache_alloc (k1 k2 : Z) (c : kmem_cache) (m : mem) : option (Z * kmem_cache * mem) :=
  let '(r, c, m) := if slabs_partial c =? NULL then slab_grow k1 k2 c m else (0, c, m) in
  if negb (r =? 0) then Some (NULL, c, m)
  else
    match slabs m !! slabs_partial c with
    | None => None
    | Some s =>
        let bufctl := s_free_list s in
        match words m !! bufctl with
        | None => None
        | Some next =>
            let s1 := with_free s (u32 (s_free_count s - 1)) next in
            let c1 := with_counts c (u32 (inuse c + 1)) (u32 (alloc_count c + 1)) (free_count c) in
            if s_free_count s1 =? 0
            then Some (bufctl, with_lists c1 (slabs_partial c1) (s_next s1),
                       set_slab (slabs_partial c1) (with_next s1 (slabs_full c1)) m)
            else Some (bufctl, c1, set_slab (slabs_partial c1) s1 m)
        end
    end.

(** The search for the slab of an object: the slab before it and the slab, 0 when there is none. *)
Fixpoint find_slab (fuel : nat) (m : mem) (prev s obj : Z) : option (Z * Z) :=
  match fuel with
  | O => None
  | S fuel =>
      if s =? NULL then Some (prev, s)
      else
        match slabs m !! s with
        | None => None
        | Some d =>
            if (s_objects d <=? obj) && (obj <? u32 (s_objects d + SLAB_PAGE_SIZE)) then Some (prev, s)
            else find_slab fuel m s (s_next d) obj
        end
  end.

Definition kmem_cache_free (obj : Z) (c : kmem_cache) (m : mem) : option (kmem_cache * mem) :=
  if obj =? NULL then Some (c, m)
  else
    let m := set_word obj NULL m in
    let fuel := S (size (slabs m)) in
    match find_slab fuel m NULL (slabs_full c) obj with
    | None => None
    | Some (prev, s) =>
        let was_full := negb (s =? NULL) in
        match (if s =? NULL then find_slab fuel m NULL (slabs_partial c) obj else Some (prev, s)) with
        | None => None
        | Some (prev, s) =>
            if s =? NULL then Some (c, m)
            else
              match slabs m !! s with
              | None => None
              | Some d =>
                  let m1 := set_word obj (s_free_list d) m in
                  let d1 := with_free d (u32 (s_free_count d + 1)) obj in
                  let m2 := set_slab s d1 m1 in
                  let c1 := with_counts c (u32 (inuse c - 1)) (alloc_count c) (u32 (free_count c + 1)) in
                  if was_full then
                    if prev =? NULL then
                      Some (with_lists c1 (s_next d1) s, set_slab s (with_next d1 (slabs_partial c1)) m2)
                    else
                      match slabs m2 !! prev with
                      | None => None
                      | Some p =>
                          let m3 := set_slab prev (with_next p (s_next d1)) m2 in
                          Some (with_lists c1 (slabs_full c1) s, set_slab s (with_next d1 (slabs_partial c1)) m3)
                      end
                  else Some (c1, m2)
              end
        end
    end.

Definition kmem_cache_zalloc (k1 k2 : Z) (c : kmem_cache) (m : mem) : option (Z * kmem_cache * mem) :=
  match kmem_cache_alloc k1 k2 c m with
  | Some (obj, c, m) => Some (obj, c, if obj =? NULL then m else clear obj (obj_size c) m)
  | None => None
  end.

(** The loop that releases a list of slabs. *)
Fixpoint free_slabs (fuel : nat) (s : Z) (m : mem) : option mem :=
  match fuel with
  | O => None
  | S fuel =>
      if s =? NULL then Some m
      else match slabs m !! s with None => None | Some d => free_slabs fuel (s_next d) (del_slab s m) end
  end.

Definition kmem_cache_destroy (c : kmem_cache) (m : mem) : option (kmem_cache * mem) :=
  let fuel := S (size (slabs m)) in
  match free_slabs fuel (slabs_full c) m with
  | None => None
  | Some m =>
      match free_slabs fuel (slabs_partial c) m with
      | None => None
      | Some m =>
          match free_slabs fuel (slabs_free c) m with
          | None => None
          | Some m =>
              Some (mk_cache (name c) (obj_size c) (align c) (objs_per_slab c) (slab_count c) (total_objects c)
                      (inuse c) (alloc_count c) (free_count c) NULL NULL NULL (flags c), m)
          end
      end
  end.

Definition kmem_cache_shrink (c : kmem_cache) (m : mem) : option (kmem_cache * mem) :=
  match free_slabs (S (size (slabs m))) (slabs_free c) m with
  | None => None
  | Some m =>
      Some (mk_cache (name c) (obj_size c) (align c) (objs_per_slab c) (slab_count c) (total_objects c)
              (inuse c) (alloc_count c) (free_count c) (slabs_full c) (slabs_partial c) NULL (flags c), m)
  end.

(** ** The pool of caches *)

Record pool := mk_pool { cache_pool : list kmem_cache; cache_count : Z; slab_initialized : bool; heap : mem }.

#[export] Instance kmem_cache_inhabited : Inhabited kmem_cache := populate (mk_cache [] 0 0 0 0 0 0 0 0 0 0 0 0).

Definition new_cache (nm : list Z) (size algn flgs : Z) : kmem_cache :=
  let size := if size <? sizeof_bufctl then sizeof_bufctl else size in
  let obj_size := slab_align_size size algn in
  let n := SLAB_PAGE_SIZE / obj_size in
  mk_cache (take (Z.to_nat (SLAB_NAME_LEN - 1)) nm) obj_size (if algn =? 0 then sizeof_ptr else algn)
    (if n <? 1 then 1 else n) 0 0 0 0 0 NULL NULL NULL flgs.

(** The index of the new cache in the pool, [None] for [NULL]. *)
Definition kmem_cache_create (k1 k2 : Z) (nm : option (list Z)) (size algn flgs : Z) (p : pool) : option Z * pool :=
  match nm with
  | None => (None, p)
  | Some nm =>
      if (size =? 0) || (MAX_SLAB_CACHES <=? cache_count p) then (None, p)
      else
        let i := cache_count p in
        let '(_, c, m) := slab_grow k1 k2 (new_cache nm size algn flgs) (heap p) in
        (Some i, mk_pool ((cache_pool p).[i <- c]) (u32 (i + 1)) (slab_initialized p) m)
  end.

(** The caches of the kernel: name, size, alignment, flags. *)
Definition initial_caches : list (list Z * Z * Z * Z) :=
  [ ([112; 99; 98], 512, 32, SLAB_HWCACHE_ALIGN);
    ([102; 105; 108; 112], 64, sizeof_ptr, 0);
    ([105; 110; 111; 100; 101; 95; 99; 97; 99; 104; 101], 128, sizeof_ptr, 0);
    ([100; 101; 110; 116; 114; 121], 96, sizeof_ptr, 0);
    ([115; 107; 95; 98; 117; 102; 102], 256, 32, SLAB_HWCACHE_ALIGN) ].

(** [ks]: the results of [kmalloc] for each cache. *)
Definition slab_init (ks : list (Z * Z)) (p : pool) : Z * pool :=
  if slab_initialized p then (0, p)
  else
    let p0 := mk_pool (replicate (Z.to_nat MAX_SLAB_CACHES) inhabitant) 0 false (heap p) in
    let p1 := foldl (fun p '(k, (nm, size, algn, flgs)) => (kmem_cache_create k.1 k.2 (Some nm) size algn flgs p).2)
                p0 (zip ks initial_caches) in
    (0, mk_pool (cache_pool p1) (cache_count p1) true (heap p1)).

Definition kmalloc_slab_size (ptr : Z) : Z := 0.

(** ** The abstract cache *)

(** A slab: its descriptor, its page and its free objects in list order. *)
Record aslab := mk_as { a_desc : Z; a_page : Z; a_free : list Z }.

Fixpoint chain (w : gmap Z Z) (a : Z) (l : list Z) : Prop :=
  match l with
  | [] => a = NULL
  | x :: l => a = x /\ exists nx, w !! x = Some nx /\ chain w nx l
  end.

Lemma chain_frame (w w' : gmap Z Z) (a : Z) (l : list Z) :
  (forall x, x ∈ l -> w' !! x = w !! x) -> chain w a l -> chain w' a l.
Proof.
  revert a. induction l as [|x l IH]; intros a Hw; cbn [chain]; [done|].
  intros (-> & nx & Hx & Hc). split; [done|]. exists nx. split; [rewrite Hw; [done|by left]|].
  apply IH; [|done]. intros y Hy. apply Hw. by right.
Qed.

(** Membership in and inclusion of lists built with [::] and [++]. *)
Ltac list_in :=
  repeat match goal with l := _ : list _ |- _ => progress unfold l end;
  match goal with
  | |- forall _, _ => let y := fresh "y" in intros y; rewrite ?elem_of_app, ?elem_of_cons, ?elem_of_app; tauto
  | |- _ ⊆ _ => let y := fresh "y" in intros y; rewrite ?elem_of_app, ?elem_of_cons, ?elem_of_app; tauto
  | |- _ ∈ _ =>
      repeat match goal with
      | H : _ ∈ _ ++ _ |- _ => rewrite ?elem_of_app, ?elem_of_cons, ?elem_of_app, ?elem_of_cons in H
      | H : _ ∈ _ :: _ |- _ => rewrite ?elem_of_cons, ?elem_of_app, ?elem_of_cons in H
      end; rewrite ?elem_of_app, ?elem_of_cons, ?elem_of_app, ?elem_of_cons; tauto
  end.

Lemma filter_out (S fr : list Z) (x : Z) :
  NoDup S -> x ∈ S -> x ∉ fr ->
  filter (fun a => a ∉ fr) S ≡ₚ x :: filter (fun a => a ∉ x :: fr) S.
Proof.
  induction S as [|y S IH]; intros Hnd Hx Hf; [set_solver|]. apply NoDup_cons in Hnd as [Hy Hnd].
  destruct (decide (y = x)) as [->|Hne].
  - rewrite filter_cons_True, filter_cons_False by set_solver. f_equiv. apply reflexive_eq.
    clear IH Hx. induction S as [|z S IH]; [done|]. rewrite !filter_cons.
    assert (z <> x) by set_solver. apply not_elem_of_cons in Hy as [_ Hy]. apply NoDup_cons in Hnd as [_ Hnd].
    rewrite IH by done. repeat case_decide; set_solver.
  - apply elem_of_cons in Hx as [?|Hx]; [congruence|]. rewrite !filter_cons. specialize (IH Hnd Hx Hf).
    assert (y ∉ x :: fr <-> y ∉ fr) as Hiff by (rewrite not_elem_of_cons; tauto).
    destruct (decide (y ∉ fr)), (decide (y ∉ x :: fr)); try tauto. rewrite IH. by constructor.
Qed.

Lemma nodup_fmap_inj {A B} (f : A -> B) (l : list A) (x y : A) :
  NoDup (f <$> l) -> x ∈ l -> y ∈ l -> f x = f y -> x = y.
Proof.
  induction l as [|z l IH]; intros Hnd Hx Hy E; [by apply elem_of_nil in Hx|]. rewrite fmap_cons in Hnd.
  apply NoDup_cons in Hnd as [Hz Hnd]. apply elem_of_cons in Hx as [->|Hx], Hy as [->|Hy]; [done| | |by apply IH].
  - exfalso. apply Hz. rewrite E. by apply list_elem_of_fmap_2.
  - exfalso. apply Hz. rewrite <-E. by apply list_elem_of_fmap_2.
Qed.

Section cache.
#[local] Set Default Proof Using "Type*".
Context (sz n : Z).
Hypothesis (Hsz : 4 <= sz) (Hn : 1 <= n) (Hfit : n * sz <= 4096).

(** The addresses of the objects of a page. *)
Definition slots (page : Z) : list Z := (fun i => page + i * sz) <$> range 0 n.

Lemma elem_of_slots (page x : Z) : x ∈ slots page <-> exists i, 0 <= i < n /\ x = page + i * sz.
Proof.
  unfold slots. rewrite list_elem_of_fmap. setoid_rewrite elem_of_range. split; intros (i & H1 & H2); exists i; auto.
Qed.

Lemma slots_NoDup (page : Z) : NoDup (slots page).
Proof. apply NoDup_fmap_2_strong; [|apply NoDup_range]. intros i j _ _ E. nia. Qed.

Lemma slots_bounds (page x : Z) : x ∈ slots page -> page <= x /\ x + sz <= page + 4096.
Proof. rewrite elem_of_slots. intros (i & Hi & ->). nia. Qed.

Lemma slots_apart (page x y : Z) : x ∈ slots page -> y ∈ slots page -> x <> y -> x + sz <= y \/ y + sz <= x.
Proof. rewrite !elem_of_slots. intros (i & Hi & ->) (j & Hj & ->) Hne. assert (i <> j) by congruence. nia. Qed.

Definition live_of (x : aslab) : list Z := filter (fun a => a ∉ a_free x) (slots (a_page x)).
Definition live (l : list aslab) : list Z := flat_map live_of l.

Record slab_ok (x : aslab) : Prop := {
  so_desc : a_desc x <> NULL;
  so_page : 0 < a_page x /\ a_page x + 4096 < 2 ^ 32;
  so_nodup : NoDup (a_free x);
  so_free : forall a, a ∈ a_free x -> a ∈ slots (a_page x) }.

Definition describes (m : mem) (d : slab) (x : aslab) : Prop :=
  s_free_count d = zlen (a_free x) /\ s_total d = n /\ s_objects d = a_page x /\
  chain (words m) (s_free_list d) (a_free x).

Fixpoint listed (m : mem) (a : Z) (l : list aslab) : Prop :=
  match l with
  | [] => a = NULL
  | x :: l => a = a_desc x /\ exists d, slabs m !! a = Some d /\ describes m d x /\ listed m (s_next d) l
  end.

Definition apart (x y : aslab) : Prop := a_page x + 4096 <= a_page y \/ a_page y + 4096 <= a_page x.

Record slabs_ok (l : list aslab) : Prop := {
  ss_ok : forall x, x ∈ l -> slab_ok x;
  ss_nodup : NoDup (a_desc <$> l);
  ss_apart : forall x y, x ∈ l -> y ∈ l -> a_desc x <> a_desc y -> apart x y }.

Record cache_ok (c : kmem_cache) (m : mem) (F P : list aslab) : Prop := {
  co_size : obj_size c = sz;
  co_n : objs_per_slab c = n;
  co_full : listed m (slabs_full c) F;
  co_partial : listed m (slabs_partial c) P;
  co_F : forall x, x ∈ F -> a_free x = [];
  co_P : forall x, x ∈ P -> a_free x <> [];
  co_slabs : slabs_ok (F ++ P);
  co_nofree : slabs_free c = NULL;
  co_inuse : inuse c = u32 (zlen (live (F ++ P)));
  co_total : total_objects c = u32 (n * zlen (F ++ P)) }.

Lemma listed_frame (m m' : mem) (a : Z) (l : list aslab) :
  (forall x, x ∈ l -> slabs m' !! a_desc x = slabs m !! a_desc x) ->
  (forall x y, x ∈ l -> y ∈ a_free x -> words m' !! y = words m !! y) ->
  listed m a l -> listed m' a l.
Proof.
  revert a. induction l as [|x l IH]; intros a Hs Hw; cbn [listed]; [done|].
  intros (-> & d & Hd & (H1 & H2 & H3 & H4) & Hl). split; [done|]. exists d. split_and!.
  - rewrite Hs; [done|by left].
  - split_and!; try done. eapply chain_frame; [|done]. intros y Hy. apply (Hw x); [by left|done].
  - apply IH; [| |done]; intros; [apply Hs|eapply Hw; [|done] ]; by right.
Qed.

Lemma slabs_ok_perm (l k : list aslab) : l ≡ₚ k -> slabs_ok l -> slabs_ok k.
Proof. intros E [H1 H2 H3]. split; [|by rewrite <-E|]; intros; [apply H1|apply H3; [..|done] ]; by rewrite E. Qed.

Lemma live_perm (l k : list aslab) : l ≡ₚ k -> live l ≡ₚ live k.
Proof. intros E. by apply Permutation_flat_map. Qed.

(** Replacing the free list of a slab. *)
Lemma slabs_ok_update (x : aslab) (l : list aslab) (fs : list Z) :
  NoDup fs -> (forall a, a ∈ fs -> a ∈ slots (a_page x)) ->
  slabs_ok (x :: l) -> slabs_ok (mk_as (a_desc x) (a_page x) fs :: l).
Proof.
  intros Hnd Hfs [H1 H2 H3]. split.
  - intros y [->|Hy]%elem_of_cons; [|apply H1; by right]. destruct (H1 x ltac:(by left)). split; done.
  - done.
  - intros y z Hy Hz Hne.
    assert (forall y, y ∈ mk_as (a_desc x) (a_page x) fs :: l -> exists y', y' ∈ x :: l /\ a_desc y' = a_desc y /\ a_page y' = a_page y) as H.
    { intros w [->|Hw]%elem_of_cons; [exists x|exists w]; (split_and!; [|done..]); by constructor. }
    destruct (H y Hy) as (y' & Hy' & Ey & Py), (H z Hz) as (z' & Hz' & Ez & Pz).
    pose proof (H3 y' z' Hy' Hz' ltac:(congruence)) as Ha. unfold apart in *. by rewrite Py, Pz in Ha.
Qed.

Lemma live_pop (x : aslab) (f : Z) (fs : list Z) :
  slab_ok x -> a_free x = f :: fs ->
  live_of (mk_as (a_desc x) (a_page x) fs) ≡ₚ f :: live_of x.
Proof.
  intros [_ _ Hnd Hfs] E. rewrite E in Hnd, Hfs. apply NoDup_cons in Hnd as [Hf _]. unfold live_of. cbn [a_free a_page].
  rewrite E. apply filter_out; [apply slots_NoDup|apply Hfs; by left|done].
Qed.

Lemma live_cons (x : aslab) (l : list aslab) : live (x :: l) = live_of x ++ live l.
Proof. done. Qed.

Lemma elem_of_live (l : list aslab) (a : Z) :
  a ∈ live l <-> exists x, x ∈ l /\ a ∈ slots (a_page x) /\ a ∉ a_free x.
Proof.
  unfold live. rewrite list_elem_of_In, in_flat_map. setoid_rewrite <-list_elem_of_In. unfold live_of.
  setoid_rewrite list_elem_of_filter. naive_solver.
Qed.

(** The counter of live objects after one allocation. *)
Lemma u32_succ_zlen (k : Z) : u32 (u32 k + 1) = u32 (1 + k).
Proof. unfold u32. rewrite Zplus_mod_idemp_l. f_equal. lia. Qed.

Lemma not_live_free (l : list aslab) (x : aslab) (f : Z) :
  slabs_ok l -> x ∈ l -> f ∈ a_free x -> f ∉ live l.
Proof.
  intros [H1 H2 H3] Hx Hf (y & Hy & Hs & Hn')%elem_of_live.
  destruct (decide (a_desc x = a_desc y)) as [E|Hne].
  - assert (x = y) as -> by (by apply (nodup_fmap_inj a_desc l)). done.
  - pose proof (so_free _ (H1 x Hx) f Hf) as Hfx. apply slots_bounds in Hs, Hfx.
    destruct (H3 x y Hx Hy Hne); lia.
Qed.

Lemma live_NoDup (l : list aslab) : slabs_ok l -> NoDup (live l).
Proof.
  induction l as [|x l IH]; intros Hok; [constructor|]. rewrite live_cons. apply NoDup_app. split_and!.
  - unfold live_of. apply NoDup_filter, slots_NoDup.
  - intros a Ha (y & Hy & Hs & _)%elem_of_live. unfold live_of in Ha. apply list_elem_of_filter in Ha as [_ Ha].
    pose proof (slots_bounds _ _ Hs). pose proof (slots_bounds _ _ Ha).
    pose proof (ss_nodup _ Hok) as [Hnd _]%NoDup_cons.
    destruct (ss_apart _ Hok x y); [by left|by right| |lia|lia]. intros E. apply Hnd. rewrite E. by apply list_elem_of_fmap_2.
  - apply IH. destruct Hok as [H1 H2 H3]. split; [intros; apply H1; by right|by apply NoDup_cons in H2 as [_ ?]|].
    intros y z Hy Hz. apply H3; by right.
Qed.

Lemma listed_set (m : mem) (b a : Z) (d : slab) (l : list aslab) :
  a ∉ a_desc <$> l -> listed m b l -> listed (set_slab a d m) b l.
Proof.
  intros Ha. apply listed_frame; [|done]. intros x Hx. apply lookup_insert_ne. intros ->. apply Ha.
  by apply list_elem_of_fmap_2.
Qed.

Lemma listed_set_word (m : mem) (b a w : Z) (l : list aslab) :
  (forall x, x ∈ l -> a ∉ a_free x) -> listed m b l -> listed (set_word a w m) b l.
Proof.
  intros Ha. apply listed_frame; [done|]. intros x y Hx Hy. apply lookup_insert_ne. intros ->. by apply (Ha x).
Qed.

Lemma free_len (x : aslab) : slab_ok x -> 0 <= zlen (a_free x) <= 4096.
Proof.
  intros [_ _ Hnd Hfs]. split; [apply zlen_nonneg|].
  assert (a_free x ⊆+ slots (a_page x)) as Hsub by (by apply NoDup_submseteq).
  apply submseteq_length in Hsub. unfold slots in Hsub. rewrite length_fmap in Hsub. unfold range in Hsub.
  rewrite length_seqZ in Hsub. unfold zlen. nia.
Qed.

Lemma alloc_pop (c : kmem_cache) (m : mem) (F P : list aslab) (k1 k2 : Z) :
  cache_ok c m F P -> P <> [] ->
  exists obj c' m' F' P', kmem_cache_alloc k1 k2 c m = Some (obj, c', m') /\ cache_ok c' m' F' P' /\
    obj <> NULL /\ obj ∉ live (F ++ P) /\ live (F' ++ P') ≡ₚ obj :: live (F ++ P).
Proof.
  intros [Hs Hno Hf Hp HF HP Hok Hnof Hin Htot] HPne. destruct P as [|x P]; [done|]. cbn [listed] in Hp.
  destruct Hp as (Hpa & d & Hd & (Hfc & Htt & Hob & Hch) & Hl).
  destruct (a_free x) as [|f fs] eqn:Ef; [exfalso; by apply (HP x); [left|] |]. destruct Hch as (Hfl & nx & Hnx & Hch).
  pose proof (ss_ok _ Hok x ltac:(list_in)) as Hx. pose proof Hx as [Hx0 Hxp Hxn Hxf].
  rewrite Ef in Hxn, Hxf. apply NoDup_cons in Hxn as [Hffs Hxn].
  pose proof (free_len x Hx) as Hlen. rewrite Ef, zlen_cons in Hlen. pose proof (zlen_nonneg fs).
  assert (s_free_count d - 1 = zlen fs) as Hc1 by (rewrite Hfc, zlen_cons; lia).
  set (x' := mk_as (a_desc x) (a_page x) fs).
  assert (slabs_ok (x' :: F ++ P)) as Hok'.
  { apply slabs_ok_update; [done| |by apply (slabs_ok_perm (F ++ x :: P)); [solve_Permutation|] ]. intros a Ha. apply Hxf. by right. }
  assert (live (x' :: F ++ P) ≡ₚ f :: live (F ++ x :: P)) as Hlive.
  { rewrite (live_perm (F ++ x :: P) (x :: F ++ P)) by solve_Permutation. rewrite !live_cons. unfold x'. by rewrite (live_pop x f fs Hx Ef). }
  assert (a_desc x ∉ a_desc <$> F ++ P) as Hxd by (by pose proof (ss_nodup _ Hok') as [? _]%NoDup_cons).
  rewrite fmap_app, not_elem_of_app in Hxd. destruct Hxd as [HxF HxP].
  rewrite Hpa in Hd. unfold kmem_cache_alloc. rewrite Hpa, (proj2 (Z.eqb_neq _ _) Hx0). cbn [Z.eqb negb].
  rewrite Hpa, Hd, Hfl, Hnx, Hc1.
  cbn [with_free with_counts s_free_count s_next s_total s_objects s_free_list s_bitmap slabs_partial slabs_full].
  rewrite u32_small by (unfold is_u32; lia). rewrite Hpa.
  assert (f <> NULL /\ f ∉ live (F ++ x :: P)) as [Hf0 Hfl'].
  { split; [|apply (not_live_free _ x); [done|list_in|rewrite Ef; by left] ].
    pose proof (slots_bounds _ _ (Hxf f ltac:(by left))). unfold NULL. lia. }
  destruct (Z.eqb_spec (zlen fs) 0) as [E0|E0].
  - exists f. do 2 eexists. exists (x' :: F), P. split_and!; [done| |done|done|done]. split; cbn; try done.
    + split; [done|]. eexists. split; [by rewrite lookup_insert_eq|]. split; [by repeat split|]. by apply listed_set.
    + by apply listed_set.
    + intros y [->|Hy]%elem_of_cons; [|by apply HF]. cbn [a_free x']. by apply zlen_0.
    + intros y Hy. apply HP. by right.
    + by rewrite Hin, u32_succ_zlen, Hlive, zlen_cons.
    + rewrite Htot. do 2 f_equal. rewrite zlen_cons, !zlen_app, zlen_cons. lia.
  - exists f. do 2 eexists. exists F, (x' :: P). split_and!; [done| |done|done|].
    + split; cbn; try done.
      * by apply listed_set.
      * split; [done|]. eexists. split; [rewrite Hpa; by rewrite lookup_insert_eq|]. split; [by repeat split|]. by apply listed_set.
      * intros y [->|Hy]%elem_of_cons; [|apply HP; by right]. cbn. intros ->. done.
      * by apply (slabs_ok_perm (x' :: F ++ P)); [solve_Permutation|].
      * rewrite Hin, u32_succ_zlen, (live_perm (F ++ x' :: P) (x' :: F ++ P)) by solve_Permutation.
        by rewrite Hlive, zlen_cons.
      * rewrite Htot. do 2 f_equal. rewrite !zlen_app, !zlen_cons. lia.
    + rewrite <-Hlive. apply live_perm. solve_Permutation.
Qed.

(** ** Growing *)

(** What [kmalloc] promises of the two blocks: they are not in use by a cache. *)
Record fresh (m : mem) (k1 k2 : Z) : Prop := {
  fr_desc : k1 <> NULL /\ slabs m !! k1 = None;
  fr_page : 0 < k2 /\ k2 + 4096 < 2 ^ 32;
  fr_apart : forall a d, slabs m !! a = Some d -> k2 + 4096 <= s_objects d \/ s_objects d + 4096 <= k2 }.

Lemma listed_lookup (m : mem) (a : Z) (l : list aslab) (x : aslab) :
  listed m a l -> x ∈ l -> exists d, slabs m !! a_desc x = Some d /\ describes m d x.
Proof.
  revert a. induction l as [|y l IH]; intros a; cbn [listed]; [by intros _ ?%elem_of_nil|].
  intros (-> & d & Hd & Hx & Hl) [->|Hin]%elem_of_cons; [by exists d|by apply (IH (s_next d))].
Qed.

Lemma clear_words (a k : Z) (len : Z) (m : mem) :
  ~ (a <= k < a + len) -> words (clear a len m) !! k = words m !! k.
Proof.
  intros Hk. cbn [clear words]. rewrite map_lookup_imap. destruct (words m !! k) as [w|]; [|done]. cbn.
  by replace ((a <=? k) && (k <? a + len)) with false by lia.
Qed.

Lemma thread_spec (page j : Z) (m : mem) :
  0 < page -> page + 4096 < 2 ^ 32 -> 0 <= j ->
  let '(l, m') := foldl (fun '(l, m) i => let bufctl := u32 (page + i * sz) in (bufctl, set_word bufctl l m))
                    (NULL, m) (reverse (range j n)) in
  chain (words m') l ((fun i => page + i * sz) <$> range j n) /\ slabs m' = slabs m /\
  forall k, ~ (page <= k < page + 4096) -> words m' !! k = words m !! k.
Proof.
  intros Hp Hq Hj0.
  apply (range_ind (fun j => let '(l, m') := foldl (fun '(l, m) i => let bufctl := u32 (page + i * sz) in (bufctl, set_word bufctl l m))
                    (NULL, m) (reverse (range j n)) in
    chain (words m') l ((fun i => page + i * sz) <$> range j n) /\ slabs m' = slabs m /\
    forall k, ~ (page <= k < page + 4096) -> words m' !! k = words m !! k) j n).
  - intros i Hi. rewrite range_nil by done. done.
  - intros i Hi IH. rewrite (range_cons i n), reverse_cons, foldl_app by lia. cbn [foldl].
    destruct (foldl _ _ (reverse (range (i + 1) n))) as [l m'] eqn:E. destruct IH as (Hc & Hs & Hw).
    rewrite u32_small by (unfold is_u32; nia). rewrite fmap_cons. cbn [chain set_word words slabs]. split_and!; [done| |done|].
    + exists l. split; [apply lookup_insert_eq|]. eapply chain_frame; [|done]. intros x (k & -> & Hk)%list_elem_of_fmap.
      apply elem_of_range in Hk. apply lookup_insert_ne. nia.
    + intros k Hk. rewrite lookup_insert_ne by nia. by apply Hw.
Qed.

Lemma grow_ok (c : kmem_cache) (m : mem) (F P : list aslab) (k1 k2 : Z) :
  cache_ok c m F P -> fresh m k1 k2 ->
  exists c' m' x, slab_grow k1 k2 c m = (0, c', m') /\ cache_ok c' m' F (x :: P) /\ live (F ++ x :: P) ≡ₚ live (F ++ P).
Proof.
  intros [Hs Hno Hf Hp HF HP Hok Hnof Hin Htot] [ [Hk1 Hnone] [Hk2 Hk2'] Hap].
  unfold slab_grow. rewrite (proj2 (Z.eqb_neq k1 _)) by done. rewrite (proj2 (Z.eqb_neq k2 _)) by (unfold NULL; lia).
  pose proof (thread_spec k2 0 (clear k2 SLAB_PAGE_SIZE m) Hk2 Hk2' ltac:(lia)) as Hth. unfold thread_objects. rewrite Hs, Hno.
  destruct (foldl _ _ _) as [l m1]. destruct Hth as (Hch & Hsl & Hw).
  set (x := mk_as k1 k2 (slots k2)).
  assert (forall a l', (forall y, y ∈ l' -> y ∈ F ++ P) -> listed m a l' -> listed m1 a l') as Hfr.
  { intros a l' Hsub Hl. apply (listed_frame m); [intros; by rewrite Hsl| |done]. intros y w Hy Hwy.
    destruct (listed_lookup m a l' y Hl Hy) as (d & Hd & _ & _ & Ho & _).
    pose proof (slots_bounds _ _ (so_free _ (ss_ok _ Hok y (Hsub y Hy)) w Hwy)).
    specialize (Hap _ _ Hd). rewrite Ho in Hap. rewrite Hw, clear_words; [done|unfold SLAB_PAGE_SIZE; lia|lia]. }
  assert (k1 ∉ a_desc <$> F ++ P) as Hnew.
  { intros (y & -> & Hy)%list_elem_of_fmap. apply elem_of_app in Hy as [Hy|Hy];
      [destruct (listed_lookup m _ F y Hf Hy) as (d & Hd & _)|destruct (listed_lookup m _ P y Hp Hy) as (d & Hd & _)]; congruence. }
  assert (live_of x = []) as Hlx.
  { unfold live_of. cbn [a_free a_page x]. destruct (filter _ _) as [|y ys] eqn:E; [done|exfalso].
    assert (y ∈ filter (fun a => a ∉ slots k2) (slots k2)) as [? ?]%list_elem_of_filter by (rewrite E; by left). done. }
  assert (zlen (slots k2) = n) as Hlen by (unfold slots, zlen, range; rewrite length_fmap, length_seqZ; lia).
  assert (live (F ++ x :: P) ≡ₚ live (F ++ P)) as Hlive.
  { rewrite (live_perm (F ++ x :: P) (x :: F ++ P)) by solve_Permutation. by rewrite live_cons, Hlx. }
  assert (forall y, y ∈ F ++ P -> apart x y) as Hapx.
  { intros y Hy. assert (exists d, slabs m !! a_desc y = Some d /\ s_objects d = a_page y) as (d & Hd & Ho).
    { apply elem_of_app in Hy as [Hy|Hy];
        [destruct (listed_lookup m _ F y Hf Hy) as (d & Hd & _ & _ & Ho & _)
        |destruct (listed_lookup m _ P y Hp Hy) as (d & Hd & _ & _ & Ho & _)]; by exists d. }
    specialize (Hap _ _ Hd). unfold apart. cbn [a_page x]. lia. }
  pose proof Hnew as Hnew'. rewrite fmap_app, not_elem_of_app in Hnew'. destruct Hnew' as [HnF HnP].
  do 2 eexists. exists x. split_and!; [done| |done]. split; cbn; try done.
  - apply listed_set; [done|]. apply Hfr; [list_in|done].
  - split; [done|]. eexists. split; [apply lookup_insert_eq|]. split; [by repeat split|]. apply listed_set; [done|].
    apply Hfr; [list_in|done].
  - intros y [->|Hy]%elem_of_cons; [|by apply HP]. cbn. intros E. rewrite E in Hlen. unfold zlen in Hlen. cbn in Hlen. lia.
  - apply (slabs_ok_perm (x :: F ++ P)); [solve_Permutation|]. destruct Hok as [H1 H2 H3]. split.
    + intros y [->|Hy]%elem_of_cons; [|by apply H1]. split; [done|done|apply slots_NoDup|done].
    + rewrite fmap_cons. by constructor.
    + intros y z [->|Hy]%elem_of_cons [->|Hz]%elem_of_cons Hne; [done|by apply Hapx| |by apply H3].
      destruct (Hapx y Hy); [by right|by left].
  - by rewrite Hin, Hlive.
  - rewrite Htot, !zlen_app, zlen_cons. unfold u32. rewrite Zplus_mod_idemp_l. f_equal. lia.
Qed.

Lemma alloc_grow (c : kmem_cache) (m : mem) (F : list aslab) (k1 k2 : Z) :
  cache_ok c m F [] -> fresh m k1 k2 ->
  exists obj c' m' F' P', kmem_cache_alloc k1 k2 c m = Some (obj, c', m') /\ cache_ok c' m' F' P' /\
    obj <> NULL /\ obj ∉ live F /\ live (F' ++ P') ≡ₚ obj :: live F.
Proof.
  intros Hok Hfr. destruct (grow_ok c m F [] k1 k2 Hok Hfr) as (c1 & m1 & x & Eg & Hok1 & Hl1). rewrite app_nil_r in Hl1.
  destruct (alloc_pop c1 m1 F [x] k1 k2 Hok1 ltac:(done)) as (obj & c' & m' & F' & P' & Ea & Hok' & H0 & Hni & Hl).
  exists obj, c', m', F', P'. split_and!; [|done|done|by rewrite <-Hl1|by rewrite Hl, Hl1].
  rewrite <-Ea. unfold kmem_cache_alloc. pose proof (co_partial _ _ _ _ Hok) as Hp. cbn [listed] in Hp. rewrite Hp, Eg.
  destruct (co_partial _ _ _ _ Hok1) as [E1 _]. rewrite E1.
  rewrite (proj2 (Z.eqb_neq (a_desc x) _)); [done|]. apply (so_desc x). apply (ss_ok _ (co_slabs _ _ _ _ Hok1)). list_in.
Qed.

(** ** Releasing *)

Definition in_page (obj : Z) (x : aslab) : Prop := a_page x <= obj < a_page x + 4096.

Lemma page_test (m : mem) (d : slab) (x : aslab) (obj : Z) :
  slab_ok x -> describes m d x ->
  (s_objects d <=? obj) && (obj <? u32 (s_objects d + SLAB_PAGE_SIZE)) = bool_decide (in_page obj x).
Proof.
  intros [_ [Hp Hq] _ _] (_ & _ & -> & _). unfold in_page, SLAB_PAGE_SIZE. rewrite u32_small by (unfold is_u32; lia).
  apply eq_true_iff_eq. rewrite bool_decide_eq_true. lia.
Qed.

Lemma find_hit (fuel : nat) (m : mem) (prev a obj : Z) (l1 l2 : list aslab) (x : aslab) :
  listed m a (l1 ++ x :: l2) -> (forall y, y ∈ l1 ++ x :: l2 -> slab_ok y) ->
  (forall y, y ∈ l1 -> ~ in_page obj y) -> in_page obj x -> (length l1 < fuel)%nat ->
  find_slab fuel m prev a obj = Some (List.last (a_desc <$> l1) prev, a_desc x).
Proof.
  revert fuel prev a. induction l1 as [|y l1 IH]; intros [|fuel] prev a Hl Hok Hmiss Hin Hf; cbn [length] in Hf; try lia.
  - cbn [app listed] in Hl. destruct Hl as (-> & d & Hd & Hx & _). cbn [find_slab].
    pose proof (Hok x ltac:(list_in)) as Hxok. rewrite (proj2 (Z.eqb_neq _ _) (so_desc x Hxok)), Hd.
    by rewrite (page_test m d x), bool_decide_eq_true_2.
  - cbn [app listed] in Hl. destruct Hl as (-> & d & Hd & Hy & Hl). cbn [find_slab].
    pose proof (Hok y ltac:(list_in)) as Hyok. rewrite (proj2 (Z.eqb_neq _ _) (so_desc y Hyok)), Hd.
    rewrite (page_test m d y), bool_decide_eq_false_2 by (done || apply Hmiss; by left).
    rewrite IH; [|done|intros; apply Hok; by right|intros; apply Hmiss; by right|done|lia].
    f_equal. f_equal. rewrite fmap_cons. destruct l1 as [|z l1]; [done|]. rewrite fmap_cons. cbn [List.last].
    clear. generalize (a_desc z). induction l1 as [|w l1 IH]; intros b; [done|]. rewrite fmap_cons. cbn [List.last]. apply IH.
Qed.

Lemma find_miss (fuel : nat) (m : mem) (prev a obj : Z) (l : list aslab) :
  listed m a l -> (forall y, y ∈ l -> slab_ok y) -> (forall y, y ∈ l -> ~ in_page obj y) -> (length l < fuel)%nat ->
  exists p, find_slab fuel m prev a obj = Some (p, NULL).
Proof.
  revert fuel prev a. induction l as [|y l IH]; intros [|fuel] prev a Hl Hok Hmiss Hf; cbn [length] in Hf; try lia.
  - cbn [listed] in Hl. subst a. by exists prev.
  - cbn [listed] in Hl. destruct Hl as (-> & d & Hd & Hy & Hl). cbn [find_slab].
    pose proof (Hok y ltac:(list_in)) as Hyok. rewrite (proj2 (Z.eqb_neq _ _) (so_desc y Hyok)), Hd.
    rewrite (page_test m d y), bool_decide_eq_false_2 by (done || apply Hmiss; by left).
    apply IH; [done|intros; apply Hok; by right|intros; apply Hmiss; by right|lia].
Qed.

Lemma listed_size (m : mem) (a : Z) (l : list aslab) :
  listed m a l -> NoDup (a_desc <$> l) -> (length l <= size (slabs m))%nat.
Proof.
  intros Hl Hnd. rewrite <-(length_fmap a_desc), <-(size_list_to_set (C := gset Z) _ Hnd), <-(size_dom (D := gset Z)).
  apply subseteq_size. intros y Hy%elem_of_list_to_set. apply list_elem_of_fmap in Hy as (x & -> & Hx).
  destruct (listed_lookup m a l x Hl Hx) as (d & Hd & _). by apply elem_of_dom_2 in Hd.
Qed.

(** Replacing the descriptor of one slab of a list. *)
Lemma listed_replace (m : mem) (a : Z) (l1 l2 : list aslab) (x x' : aslab) (d d' : slab) :
  listed m a (l1 ++ x :: l2) -> NoDup (a_desc <$> l1 ++ x :: l2) -> slabs m !! a_desc x = Some d ->
  a_desc x' = a_desc x -> s_next d' = s_next d -> describes m d' x' ->
  listed (set_slab (a_desc x) d' m) a (l1 ++ x' :: l2).
Proof.
  intros Hl Hnd Hd Ed Hn' Hx'. revert a Hl. induction l1 as [|y l1 IH]; intros a Hl.
  - cbn [app listed] in *. destruct Hl as (-> & d0 & Hd0 & _ & Hl). rewrite Hd in Hd0. injection Hd0 as <-.
    split; [done|]. exists d'. split; [apply lookup_insert_eq|]. split; [done|]. rewrite Hn'. apply listed_set; [|done].
    by apply NoDup_cons in Hnd as [? _].
  - cbn [app listed] in *. destruct Hl as (-> & e & He & Hy & Hl). rewrite fmap_cons in Hnd. apply NoDup_cons in Hnd as [Hyn Hnd].
    split; [done|]. exists e. split; [|split; [done|by apply IH] ]. cbn [set_slab slabs]. rewrite lookup_insert_ne; [done|].
    intros E. apply Hyn. rewrite <-E. apply list_elem_of_fmap_2. list_in.
Qed.

(** Taking a slab out of a list. *)
Lemma listed_unlink (m : mem) (a : Z) (l0 l2 : list aslab) (p x : aslab) (dp d : slab) :
  listed m a (l0 ++ p :: x :: l2) -> NoDup (a_desc <$> l0 ++ p :: x :: l2) ->
  slabs m !! a_desc p = Some dp -> slabs m !! a_desc x = Some d ->
  listed (set_slab (a_desc p) (with_next dp (s_next d)) m) a (l0 ++ p :: l2).
Proof.
  intros Hl Hnd Hp Hx. revert a Hl. induction l0 as [|y l0 IH]; intros a Hl.
  - cbn [app listed] in *. destruct Hl as (-> & e & He & (H1 & H2 & H3 & H4) & E & f & Hf & _ & Hl).
    rewrite Hp in He. injection He as <-. assert (f = d) as -> by congruence.
    split; [done|]. exists (with_next dp (s_next d)). split; [apply lookup_insert_eq|]. split; [done|].
    apply listed_set; [|done]. rewrite !fmap_cons in Hnd. apply NoDup_cons in Hnd as [Hnd _]. intros Hin. apply Hnd. by right.
  - cbn [app listed] in *. destruct Hl as (-> & e & He & Hy & Hl). rewrite fmap_cons in Hnd. apply NoDup_cons in Hnd as [Hyn Hnd].
    split; [done|]. exists e. split; [|split; [done|by apply IH] ]. cbn [set_slab slabs]. rewrite lookup_insert_ne; [done|].
    intros E. apply Hyn. rewrite <-E. apply list_elem_of_fmap_2. list_in.
Qed.

Definition pushed (x : aslab) (obj : Z) : aslab := mk_as (a_desc x) (a_page x) (obj :: a_free x).

Lemma pushed_ok (x : aslab) (l : list aslab) (obj : Z) :
  slabs_ok (x :: l) -> obj ∈ slots (a_page x) -> obj ∉ a_free x ->
  slabs_ok (pushed x obj :: l) /\ live (x :: l) ≡ₚ obj :: live (pushed x obj :: l).
Proof.
  intros Hok Hs Hf. destruct (ss_ok _ Hok x ltac:(by left)) as [_ _ Hnd Hfs]. split.
  - apply slabs_ok_update; [by constructor| |done]. intros a [->|Ha]%elem_of_cons; [done|by apply Hfs].
  - rewrite !live_cons. unfold live_of, pushed. cbn [a_free a_page].
    by rewrite (filter_out (slots (a_page x)) (a_free x) obj (slots_NoDup _) Hs Hf).
Qed.

Lemma pushed_describes (m : mem) (d : slab) (x : aslab) (obj : Z) :
  slab_ok x -> describes m d x -> obj ∈ slots (a_page x) -> obj ∉ a_free x ->
  describes (set_word obj (s_free_list d) (set_word obj NULL m)) (with_free d (u32 (s_free_count d + 1)) obj) (pushed x obj).
Proof.
  intros Hx (H1 & H2 & H3 & H4) Hs Hf. pose proof (free_len x Hx). unfold describes, pushed.
  cbn [with_free s_free_count s_total s_objects s_free_list a_free a_page chain set_word words]. split_and!; try done.
  - rewrite zlen_cons, H1, u32_small by (unfold is_u32; lia). lia.
  - exists (s_free_list d). split; [apply lookup_insert_eq|]. eapply chain_frame; [|done]. intros y Hy.
    rewrite !lookup_insert_ne by congruence. done.
Qed.

(** The page of an object is the page of one slab only. *)
Lemma page_owner (l : list aslab) (x y : aslab) (obj : Z) :
  slabs_ok l -> x ∈ l -> y ∈ l -> in_page obj x -> in_page obj y -> a_desc x = a_desc y.
Proof.
  intros [_ _ Ha] Hx Hy. unfold in_page. intros. destruct (decide (a_desc x = a_desc y)) as [|Hne]; [done|].
  destruct (Ha x y Hx Hy Hne); lia.
Qed.

Lemma live_not_free (l : list aslab) (x y : aslab) (obj : Z) :
  slabs_ok l -> x ∈ l -> y ∈ l -> obj ∈ slots (a_page x) -> obj ∉ a_free x -> obj ∉ a_free y.
Proof.
  intros Hok Hx Hy Hs Hf Hfy. apply (not_live_free l y obj Hok Hy Hfy). apply elem_of_live. by exists x.
Qed.

Lemma u32_pred_zlen (k : Z) : u32 (u32 (1 + k) - 1) = u32 k.
Proof. unfold u32. rewrite Zminus_mod_idemp_l. f_equal. lia. Qed.

Section release.
Context (c : kmem_cache) (m : mem) (F P : list aslab) (x : aslab) (obj : Z).
Hypothesis (Hc : cache_ok c m F P) (Hx : x ∈ F ++ P) (Hsl : obj ∈ slots (a_page x)) (Hnf : obj ∉ a_free x).

Lemma rel_ok : slab_ok x.
Proof. by apply (ss_ok _ (co_slabs _ _ _ _ Hc)). Qed.

Lemma rel_in : in_page obj x /\ obj <> NULL.
Proof.
  pose proof (slots_bounds _ _ Hsl). pose proof (so_page _ rel_ok). unfold in_page, NULL. lia.
Qed.

Lemma rel_frame (w a : Z) (l : list aslab) (k : mem) :
  l ⊆ F ++ P -> listed k a l -> listed (set_word obj w k) a l.
Proof.
  intros Hsub. apply listed_set_word. intros y Hy. apply (live_not_free (F ++ P) x y); auto. apply (co_slabs _ _ _ _ Hc).
Qed.

Lemma rel_miss (y : aslab) : y ∈ F ++ P -> a_desc y <> a_desc x -> ~ in_page obj y.
Proof.
  intros Hy Hne Hi. apply Hne. apply (page_owner (F ++ P) _ _ obj); try done; [apply (co_slabs _ _ _ _ Hc)|apply rel_in].
Qed.

(** The search finds the slab in the list that has it and nothing in another list. *)
Lemma rel_find (a : Z) (l1 l2 : list aslab) :
  l1 ++ x :: l2 ⊆ F ++ P -> listed m a (l1 ++ x :: l2) -> NoDup (a_desc <$> l1 ++ x :: l2) ->
  find_slab (S (size (slabs m))) (set_word obj NULL m) NULL a obj = Some (List.last (a_desc <$> l1) NULL, a_desc x).
Proof.
  intros Hsub Hl Hnd. apply (find_hit _ _ _ _ _ l1 l2 x).
  - by apply rel_frame.
  - intros y Hy. apply (ss_ok _ (co_slabs _ _ _ _ Hc)). by apply Hsub.
  - intros y Hy. apply rel_miss; [apply Hsub; list_in|]. rewrite fmap_app, fmap_cons in Hnd.
    apply NoDup_app in Hnd as (_ & Hd & _). intros E. apply (Hd (a_desc y)); [by apply list_elem_of_fmap_2|]. rewrite E. by left.
  - apply rel_in.
  - pose proof (listed_size m _ _ Hl Hnd) as Hs. rewrite length_app in Hs. lia.
Qed.

Lemma rel_nothing (a : Z) (l : list aslab) :
  l ⊆ F ++ P -> listed m a l -> NoDup (a_desc <$> l) -> a_desc x ∉ a_desc <$> l ->
  exists p, find_slab (S (size (slabs m))) (set_word obj NULL m) NULL a obj = Some (p, NULL).
Proof.
  intros Hsub Hl Hnd Hxl. apply (find_miss _ _ _ _ _ l).
  - by apply rel_frame.
  - intros y Hy. apply (ss_ok _ (co_slabs _ _ _ _ Hc)). by apply Hsub.
  - intros y Hy. apply rel_miss; [by apply Hsub|]. intros E. apply Hxl. rewrite <-E. by apply list_elem_of_fmap_2.
  - pose proof (listed_size m _ _ Hl Hnd). lia.
Qed.

(** The abstract effect, whatever list the slab ends up in. *)
Lemma rel_effect (F' P' R : list aslab) :
  F ++ P ≡ₚ x :: R -> F' ++ P' ≡ₚ pushed x obj :: R ->
  slabs_ok (F' ++ P') /\ live (F ++ P) ≡ₚ obj :: live (F' ++ P') /\ zlen (F' ++ P') = zlen (F ++ P).
Proof.
  intros E E'. destruct (pushed_ok x R obj) as [Hok' Hlive']; [|done|done|].
  { apply (slabs_ok_perm (F ++ P)); [done|apply (co_slabs _ _ _ _ Hc)]. }
  split_and!; [by apply (slabs_ok_perm (pushed x obj :: R))| |by rewrite E, E', !zlen_cons].
  by rewrite (live_perm _ _ E), (live_perm _ _ E').
Qed.

End release.

Lemma descs_split (F P : list aslab) :
  slabs_ok (F ++ P) -> NoDup (a_desc <$> F) /\ NoDup (a_desc <$> P) /\
  (forall x, x ∈ F -> a_desc x ∉ a_desc <$> P) /\ (forall x, x ∈ P -> a_desc x ∉ a_desc <$> F).
Proof.
  intros [_ Hnd _]. rewrite fmap_app in Hnd. apply NoDup_app in Hnd as (H1 & H2 & H3). split_and!; [done|done| |].
  - intros x Hx. apply H2. by apply list_elem_of_fmap_2.
  - intros x Hx Hin. apply (H2 _ Hin). by apply list_elem_of_fmap_2.
Qed.

Lemma free_partial (c : kmem_cache) (m : mem) (F l1 l2 : list aslab) (x : aslab) (obj : Z) :
  cache_ok c m F (l1 ++ x :: l2) -> obj ∈ slots (a_page x) -> obj ∉ a_free x ->
  exists c' m', kmem_cache_free obj c m = Some (c', m') /\ cache_ok c' m' F (l1 ++ pushed x obj :: l2) /\
    live (F ++ l1 ++ x :: l2) ≡ₚ obj :: live (F ++ l1 ++ pushed x obj :: l2).
Proof.
  intros Hc Hsl Hnf. set (P := l1 ++ x :: l2) in *. set (P' := l1 ++ pushed x obj :: l2).
  assert (x ∈ P) as HxP by (list_in). assert (x ∈ F ++ P) as Hx by list_in.
  destruct (rel_effect c m F P x obj Hc Hx Hsl Hnf F P' (F ++ l1 ++ l2)) as (Hok' & Hlive & Hlen); [unfold P, P'; solve_Permutation..|].
  pose proof (rel_ok c m F P x obj Hc Hx Hsl Hnf) as Hxok. destruct (rel_in c m F P x obj Hc Hx Hsl Hnf) as [_ Hobj].
  destruct (descs_split F P (co_slabs _ _ _ _ Hc)) as (HndF & HndP & _ & HPF).
  pose proof Hc as [Hs Hno Hf Hp HF HP _ Hnof Hin Htot].
  destruct (listed_lookup m _ P x Hp HxP) as (d & Hd & Hdx).
  unfold kmem_cache_free. rewrite (proj2 (Z.eqb_neq obj NULL) Hobj). cbv zeta. change (slabs (set_word obj NULL m)) with (slabs m).
  destruct (rel_nothing c m F P x obj Hc Hx Hsl Hnf (slabs_full c) F) as [p ->]; [list_in|done|done|by apply HPF|].
  cbn [Z.eqb NULL negb]. rewrite (rel_find c m F P x obj Hc Hx Hsl Hnf (slabs_partial c) l1 l2); [|list_in|done|done].
  rewrite (proj2 (Z.eqb_neq (a_desc x) NULL)), Hd by apply Hxok. cbn [negb].
  eexists _, _. split; [done|]. split; [|done]. split; cbn; try done.
  - apply listed_set; [by apply HPF|]. do 2 (apply (rel_frame c m F P x obj Hc Hx Hsl Hnf); [list_in|]). done.
  - apply (listed_replace _ _ l1 l2 x (pushed x obj) d); try done; [|by apply pushed_describes].
    do 2 (apply (rel_frame c m F P x obj Hc Hx Hsl Hnf); [list_in|]). done.
  - intros y Hy. unfold P' in Hy. apply elem_of_app in Hy as [Hy|[->|Hy]%elem_of_cons]; [|done|]; apply HP; list_in.
  - by rewrite Hin, Hlive, zlen_cons, u32_pred_zlen.
  - by rewrite Htot, Hlen.
Qed.

Lemma free_full (c : kmem_cache) (m : mem) (P l1 l2 : list aslab) (x : aslab) (obj : Z) :
  cache_ok c m (l1 ++ x :: l2) P -> obj ∈ slots (a_page x) -> obj ∉ a_free x ->
  exists c' m', kmem_cache_free obj c m = Some (c', m') /\ cache_ok c' m' (l1 ++ l2) (pushed x obj :: P) /\
    live ((l1 ++ x :: l2) ++ P) ≡ₚ obj :: live ((l1 ++ l2) ++ pushed x obj :: P).
Proof.
  intros Hc Hsl Hnf. set (F := l1 ++ x :: l2) in *.
  assert (x ∈ F) as HxF by (list_in). assert (x ∈ F ++ P) as Hx by list_in.
  destruct (rel_effect c m F P x obj Hc Hx Hsl Hnf (l1 ++ l2) (pushed x obj :: P) ((l1 ++ l2) ++ P)) as (Hok' & Hlive & Hlen);
    [unfold F; solve_Permutation..|].
  pose proof (rel_ok c m F P x obj Hc Hx Hsl Hnf) as Hxok. destruct (rel_in c m F P x obj Hc Hx Hsl Hnf) as [_ Hobj].
  destruct (descs_split F P (co_slabs _ _ _ _ Hc)) as (HndF & HndP & HFP & _).
  pose proof Hc as [Hs Hno Hf Hp HF HP _ Hnof Hin Htot].
  destruct (listed_lookup m _ F x Hf HxF) as (d & Hd & Hdx).
  unfold kmem_cache_free. rewrite (proj2 (Z.eqb_neq obj NULL) Hobj). cbv zeta. change (slabs (set_word obj NULL m)) with (slabs m).
  rewrite (rel_find c m F P x obj Hc Hx Hsl Hnf (slabs_full c) l1 l2); [|list_in|done|done].
  assert ((a_desc x =? NULL) = false) as Hx0 by (apply Z.eqb_neq, Hxok). rewrite Hx0. cbn [negb]. rewrite Hx0, Hd.
  set (d1 := with_free d (u32 (s_free_count d + 1)) obj). set (m1 := set_word obj (s_free_list d) (set_word obj NULL m)).
  pose proof (pushed_describes m d x obj Hxok Hdx Hsl Hnf) as Hpd. fold d1 m1 in Hpd.
  assert (a_desc x ∉ a_desc <$> l1 ++ l2) as Hx12.
  { unfold F in HndF. rewrite <-Permutation_middle, fmap_cons in HndF. by apply NoDup_cons in HndF as [? _]. }
  assert (forall full M, words M = words m1 -> slabs M !! a_desc x = Some (with_next d1 (slabs_partial c)) ->
    listed M full (l1 ++ l2) -> listed M (slabs_partial c) P ->
    cache_ok (with_lists (with_counts c (u32 (inuse c - 1)) (alloc_count c) (u32 (free_count c + 1))) full (a_desc x)) M
      (l1 ++ l2) (pushed x obj :: P)) as Hfin.
  { intros full M HMw HMx HMf HMp. split; cbn; try done.
    - split; [done|]. eexists. split; [done|]. split; [|done]. unfold describes in *. by rewrite HMw.
    - intros y Hy. apply HF. list_in.
    - intros y [->|Hy]%elem_of_cons; [done|by apply HP].
    - by rewrite Hin, Hlive, zlen_cons, u32_pred_zlen.
    - by rewrite Htot, Hlen. }
  destruct l1 as [|p l0 _] using rev_ind.
  - cbn [app fmap list_fmap List.last]. rewrite Z.eqb_refl. eexists _, _. split; [reflexivity|]. split; [|done].
    apply Hfin; [done|cbn [set_slab slabs]; by rewrite lookup_insert_eq| |].
    + destruct Hf as (Ex & d0 & Hd0 & _ & Hl). rewrite Ex in Hd0. rewrite Hd0 in Hd. injection Hd as ->. cbn [d1 with_free s_next].
      do 2 (apply listed_set; [done|]). do 2 (apply (rel_frame c m F P x obj Hc Hx Hsl Hnf); [list_in|]). done.
    + do 2 (apply listed_set; [by apply HFP|]). do 2 (apply (rel_frame c m F P x obj Hc Hx Hsl Hnf); [list_in|]). done.
  - rewrite fmap_app, fmap_cons, fmap_nil, last_last. assert (p ∈ F) as HpF by (list_in).
    rewrite (proj2 (Z.eqb_neq (a_desc p) NULL)) by (apply (so_desc p), (ss_ok _ (co_slabs _ _ _ _ Hc)); list_in).
    destruct (listed_lookup m _ F p Hf HpF) as (dp & Hdp & _).
    assert (a_desc x <> a_desc p) as Hxp by (intros E; apply Hx12; rewrite E; apply list_elem_of_fmap_2; list_in).
    cbn [slabs set_slab]. rewrite lookup_insert_ne by done. change (slabs m1) with (slabs m). rewrite Hdp.
    eexists _, _. split; [done|]. split; [|done]. apply Hfin; [done|cbn [set_slab slabs]; by rewrite lookup_insert_eq| |].
    + assert (listed (set_slab (a_desc p) (with_next dp (s_next d)) m) (slabs_full c) (l0 ++ p :: l2)) as Hul.
      { unfold F in *. rewrite <-app_assoc in *. by apply (listed_unlink m _ l0 l2 p x dp d). }
      rewrite <-app_assoc. eapply listed_frame; [| |exact Hul].
      * intros y Hy. cbn [set_slab slabs]. rewrite lookup_insert_ne.
        2: { intros E. apply Hx12. rewrite E, <-app_assoc. by apply list_elem_of_fmap_2. }
        destruct (decide (a_desc p = a_desc y)) as [->|Hne]; [by rewrite !lookup_insert_eq|]. rewrite !lookup_insert_ne; try done.
        intros E. apply Hx12. rewrite E, <-app_assoc. by apply list_elem_of_fmap_2.
      * intros y w Hy Hw. assert (obj ∉ a_free y) as Hny.
        { apply (live_not_free (F ++ P) x y obj (co_slabs _ _ _ _ Hc) Hx); [|done|done]. list_in. }
        cbn [set_slab words m1 set_word]. rewrite !lookup_insert_ne by (by intros ->). done.
    + apply listed_set; [by apply HFP|]. apply listed_set; [by apply HFP|]. apply listed_set; [by apply HFP|].
      do 2 (apply (rel_frame c m F P x obj Hc Hx Hsl Hnf); [list_in|]). done.
Qed.

Lemma free_ok (c : kmem_cache) (m : mem) (F P : list aslab) (obj : Z) :
  cache_ok c m F P -> obj ∈ live (F ++ P) ->
  exists c' m' F' P', kmem_cache_free obj c m = Some (c', m') /\ cache_ok c' m' F' P' /\
    live (F ++ P) ≡ₚ obj :: live (F' ++ P').
Proof.
  intros Hc (x & Hx & Hs & Hf)%elem_of_live. apply elem_of_app in Hx as [Hx|Hx]; apply list_elem_of_split in Hx as (l1 & l2 & ->).
  - destruct (free_full c m P l1 l2 x obj Hc Hs Hf) as (c' & m' & E & Hc' & Hl). by exists c', m', (l1 ++ l2), (pushed x obj :: P).
  - destruct (free_partial c m F l1 l2 x obj Hc Hs Hf) as (c' & m' & E & Hc' & Hl). by exists c', m', F, (l1 ++ pushed x obj :: l2).
Qed.

(** ** Clients *)

(** The cache and memory, with the objects a client holds. *)
Definition cstate : Type := kmem_cache * mem * list Z.

Definition kmalloc_ok (m : mem) (k1 k2 : Z) : Prop := k1 = NULL \/ k2 = NULL \/ fresh m k1 k2.

Inductive cstep : cstate -> cstate -> Prop :=
| cs_alloc (c c' : kmem_cache) (m m' : mem) (L : list Z) (k1 k2 obj : Z) :
    kmalloc_ok m k1 k2 -> kmem_cache_alloc k1 k2 c m = Some (obj, c', m') ->
    cstep (c, m, L) (c', m', if obj =? NULL then L else obj :: L)
| cs_zalloc (c c' : kmem_cache) (m m' : mem) (L : list Z) (k1 k2 obj : Z) :
    kmalloc_ok m k1 k2 -> kmem_cache_zalloc k1 k2 c m = Some (obj, c', m') ->
    cstep (c, m, L) (c', m', if obj =? NULL then L else obj :: L)
| cs_free (c c' : kmem_cache) (m m' : mem) (L L' : list Z) (obj : Z) :
    L ≡ₚ obj :: L' -> kmem_cache_free obj c m = Some (c', m') -> cstep (c, m, L) (c', m', L')
| cs_shrink (c c' : kmem_cache) (m m' : mem) (L : list Z) :
    kmem_cache_shrink c m = Some (c', m') -> cstep (c, m, L) (c', m', L)
| cs_write (c : kmem_cache) (m : mem) (L : list Z) (obj k w : Z) :
    obj ∈ L -> obj <= k < obj + obj_size c -> cstep (c, m, L) (c, set_word k w m, L).

Definition cinv (st : cstate) : Prop :=
  let '(c, m, L) := st in exists F P, cache_ok c m F P /\ live (F ++ P) ≡ₚ L.

(** A live object overlaps no free object and no other live object. *)
Lemma objects_apart (l : list aslab) (x : aslab) (obj a : Z) :
  slabs_ok l -> obj ∈ live l -> x ∈ l -> a ∈ slots (a_page x) -> a <> obj -> a + sz <= obj \/ obj + sz <= a.
Proof.
  intros Hok (y & Hy & Hs & Hf)%elem_of_live Hx Ha Hne. destruct (decide (a_desc x = a_desc y)) as [E|Hd].
  - assert (x = y) as -> by (apply (nodup_fmap_inj a_desc l); [apply Hok|done..]). by apply (slots_apart (a_page y)).
  - pose proof (slots_bounds _ _ Hs). pose proof (slots_bounds _ _ Ha). destruct (ss_apart _ Hok x y Hx Hy Hd); lia.
Qed.

Lemma cache_ok_words (c : kmem_cache) (m m' : mem) (F P : list aslab) :
  slabs m' = slabs m -> (forall x a, x ∈ F ++ P -> a ∈ a_free x -> words m' !! a = words m !! a) ->
  cache_ok c m F P -> cache_ok c m' F P.
Proof.
  intros Hs Hw []. split; try done; (eapply listed_frame; [intros; by rewrite Hs| |done]); intros x a Hx; apply Hw; list_in.
Qed.

(** Bytes of a live object may be changed freely. *)
Lemma cache_ok_object (c : kmem_cache) (m m' : mem) (F P : list aslab) (obj : Z) :
  cache_ok c m F P -> obj ∈ live (F ++ P) -> slabs m' = slabs m ->
  (forall k, ~ (obj <= k < obj + sz) -> words m' !! k = words m !! k) -> cache_ok c m' F P.
Proof.
  intros Hc Ho Hs Hw. apply (cache_ok_words c m); [done| |done]. intros x a Hx Ha. apply Hw.
  pose proof (co_slabs _ _ _ _ Hc) as Hok. assert (a <> obj) as Hne by (intros ->; by apply (not_live_free _ x obj Hok Hx Ha)).
  pose proof (so_free _ (ss_ok _ Hok x Hx) a Ha) as Hsl. pose proof (objects_apart _ x obj a Hok Ho Hx Hsl Hne). lia.
Qed.

Lemma alloc_inv (c : kmem_cache) (m : mem) (L : list Z) (k1 k2 : Z) :
  cinv (c, m, L) -> kmalloc_ok m k1 k2 ->
  exists obj c' m', kmem_cache_alloc k1 k2 c m = Some (obj, c', m') /\ obj ∉ L /\
    cinv (c', m', if obj =? NULL then L else obj :: L) /\
    (obj = NULL -> slabs_partial c = NULL /\ (k1 = NULL \/ k2 = NULL)) /\ (obj = NULL -> c' = c /\ m' = m) /\ obj_size c' = sz.
Proof.
  intros (F & P & Hc & HL) Hk.
  assert (forall obj c' m' F' P', kmem_cache_alloc k1 k2 c m = Some (obj, c', m') -> cache_ok c' m' F' P' -> obj <> NULL ->
    obj ∉ live (F ++ P) -> live (F' ++ P') ≡ₚ obj :: live (F ++ P) ->
    exists obj c' m', kmem_cache_alloc k1 k2 c m = Some (obj, c', m') /\ obj ∉ L /\
      cinv (c', m', if obj =? NULL then L else obj :: L) /\
      (obj = NULL -> slabs_partial c = NULL /\ (k1 = NULL \/ k2 = NULL)) /\ (obj = NULL -> c' = c /\ m' = m) /\ obj_size c' = sz) as Hgood.
  { intros obj c' m' F' P' E Hc' H0 Hni Hl. exists obj, c', m'. split_and!; try done; [by rewrite <-HL| |apply Hc'].
    rewrite (proj2 (Z.eqb_neq _ _) H0). exists F', P'. split; [done|]. by rewrite Hl, HL. }
  destruct P as [|x P].
  - pose proof (co_partial _ _ _ _ Hc) as Hp. cbn [listed] in Hp. rewrite app_nil_r in *. destruct (decide (k1 = NULL \/ k2 = NULL)) as [Hz|Hz].
    + exists NULL, c, m. split_and!; try done; [| |exists F, []; split; [done|by rewrite app_nil_r]|apply Hc].
      * unfold kmem_cache_alloc, slab_grow. rewrite Hp, Z.eqb_refl. destruct Hz as [->| ->]; rewrite Z.eqb_refl; [done|]. by destruct (k1 =? NULL).
      * rewrite <-HL. intros (y & Hy & Hs & _)%elem_of_live. pose proof (slots_bounds _ _ Hs).
        pose proof (so_page _ (ss_ok _ (co_slabs _ _ _ _ Hc) y ltac:(list_in))). unfold NULL in *. lia.
    + destruct (alloc_grow c m F k1 k2 Hc) as (obj & c' & m' & F' & P' & E & Hc' & H0 & Hni & Hl).
      * unfold kmalloc_ok in Hk. tauto.
      * by apply (Hgood obj c' m' F' P').
  - destruct (alloc_pop c m F (x :: P) k1 k2 Hc ltac:(done)) as (obj & c' & m' & F' & P' & E & Hc' & H0 & Hni & Hl).
    by apply (Hgood obj c' m' F' P').
Qed.

Lemma grow_inv (c c' : kmem_cache) (m m' : mem) (L : list Z) (k1 k2 r : Z) :
  cinv (c, m, L) -> kmalloc_ok m k1 k2 -> slab_grow k1 k2 c m = (r, c', m') -> cinv (c', m', L).
Proof.
  intros (F & P & Hc & HL) Hk E. destruct (decide (k1 = NULL \/ k2 = NULL)) as [Hz|Hz].
  - exists F, P. unfold slab_grow in E. destruct Hz as [->| ->]; rewrite Z.eqb_refl in E; [by injection E as <- <- <-|].
    by destruct (k1 =? NULL); injection E as <- <- <-.
  - destruct (grow_ok c m F P k1 k2 Hc) as (c1 & m1 & x & E1 & Hc1 & Hl); [unfold kmalloc_ok in Hk; tauto|].
    rewrite E1 in E. injection E as <- <- <-. exists F, (x :: P). split; [done|]. by rewrite Hl.
Qed.

Lemma cstep_inv (st st' : cstate) : cinv st -> cstep st st' -> cinv st'.
Proof.
  intros Hi Hs. destruct Hs as [c c' m m' L k1 k2 obj Hk E|c c' m m' L k1 k2 obj Hk E|c c' m m' L L' obj HL E|c c' m m' L E|c m L obj k w Ho Hr].
  - destruct (alloc_inv c m L k1 k2 Hi Hk) as (o & c1 & m1 & E1 & _ & Hi1 & _). rewrite E1 in E. by injection E as -> -> ->.
  - unfold kmem_cache_zalloc in E. destruct (alloc_inv c m L k1 k2 Hi Hk) as (o & c1 & m1 & E1 & _ & Hi1 & _ & _ & Hsize). rewrite E1 in E.
    injection E as -> -> <-. destruct (Z.eqb_spec obj NULL); [done|]. destruct Hi1 as (F & P & Hc & Hl). exists F, P. split; [|done].
    apply (cache_ok_object c' m1 _ F P obj); [done|rewrite Hl; by left|done|]. intros k Hk'. rewrite Hsize. by apply clear_words.
  - destruct Hi as (F & P & Hc & Hl). destruct (free_ok c m F P obj Hc) as (c1 & m1 & F' & P' & E1 & Hc' & Hl'); [rewrite Hl, HL; by left|].
    rewrite E1 in E. injection E as -> ->. exists F', P'. split; [done|]. apply (Permutation_cons_inv (a := obj)). by rewrite <-Hl', Hl.
  - destruct Hi as (F & P & Hc & Hl). unfold kmem_cache_shrink in E. rewrite (co_nofree _ _ _ _ Hc) in E. cbn in E. injection E as <- <-.
    exists F, P. split; [|done]. destruct Hc. split; done.
  - destruct Hi as (F & P & Hc & Hl). exists F, P. split; [|done]. apply (cache_ok_object c m _ F P obj); [done|by rewrite Hl|done|].
    intros j Hj. apply lookup_insert_ne. rewrite (co_size _ _ _ _ Hc) in Hr. lia.
Qed.

Lemma creach_inv (st st' : cstate) : cinv st -> rtc cstep st st' -> cinv st'.
Proof. intros Hi Hr. induction Hr; eauto using cstep_inv. Qed.

(** Every slab is released exactly once when the cache is destroyed. *)
Lemma free_slabs_spec (fuel : nat) (m : mem) (a : Z) (l : list aslab) :
  listed m a l -> (forall x, x ∈ l -> slab_ok x) -> NoDup (a_desc <$> l) -> (length l < fuel)%nat ->
  exists m', free_slabs fuel a m = Some m' /\ words m' = words m /\
    forall k, slabs m' !! k = if decide (k ∈ a_desc <$> l) then None else slabs m !! k.
Proof.
  revert m a fuel. induction l as [|x l IH]; intros m a [|fuel] Hl Hok Hnd Hf; cbn [length] in Hf; try lia.
  - cbn [listed] in Hl. subst a. exists m. split_and!; [done|done|]. intros k. by rewrite decide_False by apply not_elem_of_nil.
  - cbn [listed] in Hl. destruct Hl as (-> & d & Hd & Hx & Hl). cbn [free_slabs].
    rewrite (proj2 (Z.eqb_neq _ _) (so_desc x (Hok x ltac:(by left)))), Hd. rewrite fmap_cons in Hnd. apply NoDup_cons in Hnd as [Hxl Hnd].
    destruct (IH (del_slab (a_desc x) m) (s_next d) fuel) as (m' & E & Hw & Hs); [|intros; apply Hok; by right|done|lia|].
    { apply (listed_frame m); [|done|done]. intros y Hy. apply lookup_delete_ne. intros E. apply Hxl. rewrite E. by apply list_elem_of_fmap_2. }
    exists m'. split_and!; [done|by rewrite Hw|]. intros k. rewrite Hs, fmap_cons. cbn [del_slab slabs].
    destruct (decide (k = a_desc x)) as [->|Hne].
    + rewrite (decide_True (P := a_desc x ∈ a_desc x :: _)) by (by left). rewrite lookup_delete_eq. by destruct (decide _).
    + rewrite lookup_delete_ne by done. apply decide_ext. rewrite elem_of_cons. tauto.
Qed.

Lemma destroy_ok (c : kmem_cache) (m : mem) (F P : list aslab) :
  cache_ok c m F P ->
  exists c' m', kmem_cache_destroy c m = Some (c', m') /\ slabs_full c' = NULL /\ slabs_partial c' = NULL /\
    forall k, slabs m' !! k = if decide (k ∈ a_desc <$> F ++ P) then None else slabs m !! k.
Proof.
  intros Hc. destruct (descs_split F P (co_slabs _ _ _ _ Hc)) as (HF & HP & HFP & HPF).
  assert (forall x, x ∈ F ++ P -> slab_ok x) as Hok by apply (ss_ok _ (co_slabs _ _ _ _ Hc)).
  pose proof (co_full _ _ _ _ Hc) as Hf. pose proof (co_partial _ _ _ _ Hc) as Hp.
  destruct (free_slabs_spec (S (size (slabs m))) m (slabs_full c) F) as (m1 & E1 & Hw1 & Hs1); [done|intros; apply Hok; list_in|done| |].
  { pose proof (listed_size m _ F Hf HF). lia. }
  destruct (free_slabs_spec (S (size (slabs m))) m1 (slabs_partial c) P) as (m2 & E2 & Hw2 & Hs2); [|intros; apply Hok; list_in|done| |].
  { apply (listed_frame m); [|intros; by rewrite Hw1|done]. intros y Hy. rewrite Hs1, decide_False; [done|by apply HPF]. }
  { pose proof (listed_size m _ P Hp HP). lia. }
  unfold kmem_cache_destroy. rewrite E1, E2, (co_nofree _ _ _ _ Hc). cbn [free_slabs Z.eqb NULL]. eexists _, m2.
  split_and!; [done|done|done|]. intros k. rewrite Hs2, Hs1, fmap_app. destruct (decide (k ∈ _ ++ _)) as [H|H]; rewrite elem_of_app in H;
    destruct (decide (k ∈ a_desc <$> P)), (decide (k ∈ a_desc <$> F)); tauto.
Qed.

End cache.

Lemma new_cache_inv (nm : list Z) (size algn flgs : Z) (m : mem) :
  let c := new_cache nm size algn flgs in
  cinv (obj_size c) (objs_per_slab c) (c, m, []).
Proof.
  cbv zeta. exists [], []. split; [|done].
  split; [done|done|done|done|by intros ? ?%elem_of_nil|by intros ? ?%elem_of_nil| |done|done|].
  - split; [by intros ? ?%elem_of_nil|constructor|by intros ? ? ?%elem_of_nil].
  - change (0 = u32 (objs_per_slab (new_cache nm size algn flgs) * 0)). by rewrite Z.mul_0_r.
Qed.

(** The objects of a cache whose alignment is a power of two hold [size] bytes and keep the alignment. *)
Lemma new_cache_size (nm : list Z) (size k flgs : Z) :
  0 < size -> 0 <= k -> Z.max 4 size + 2 ^ k - 1 < 2 ^ 32 ->
  let c := new_cache nm size (2 ^ k) flgs in size <= obj_size c /\ 4 <= obj_size c /\ obj_size c mod 2 ^ k = 0.
Proof.
  intros Hs Hk Hb. cbn [new_cache obj_size]. unfold slab_align_size, sizeof_bufctl.
  pose proof (Z.pow_pos_nonneg 2 k ltac:(lia) Hk). rewrite (proj2 (Z.eqb_neq (2 ^ k) 0)) by lia.
  set (v := if size <? 4 then 4 else size). assert (v = Z.max 4 size) as Hv by (unfold v; destruct (Z.ltb_spec size 4); lia).
  pose proof (Kheap.align_up_spec v k Hk ltac:(lia) ltac:(lia)) as E. unfold Kheap.align_up in E. rewrite E.
  pose proof (Z.div_mod (v + 2 ^ k - 1) (2 ^ k) ltac:(lia)). pose proof (Z.mod_pos_bound (v + 2 ^ k - 1) (2 ^ k) ltac:(lia)).
  split_and!; [nia|nia|]. apply Z.mod_mul. lia.
Qed.

(** C7: However a client allocates, frees, clears and writes the objects of a cache, and
    whenever [kmalloc] fails, the allocator never follows a bad pointer and the
    objects handed out are sound: each lies in the page of a slab, no two overlap,
    and [inuse] counts them.  An allocation returns [NULL] only when no slab has a
    free object and [kmalloc] failed; the object it returns is not in use. *)
Theorem slab_safe (nm : list Z) (size algn flgs k1 k2 : Z) (m0 m : mem) (c : kmem_cache) (L : list Z) :
  4 <= obj_size (new_cache nm size algn flgs) <= 4096 -> kmalloc_ok m0 k1 k2 ->
  (let '(_, c1, m1) := slab_grow k1 k2 (new_cache nm size algn flgs) m0 in rtc cstep (c1, m1, []) (c, m, L)) ->
  NoDup L /\ inuse c = u32 (zlen L) /\
  (forall a, a ∈ L -> exists s d, slabs m !! s = Some d /\ s_objects d <= a /\ a + obj_size c <= s_objects d + 4096) /\
  (forall a b, a ∈ L -> b ∈ L -> a <> b -> a + obj_size c <= b \/ b + obj_size c <= a) /\
  (forall j1 j2, kmalloc_ok m j1 j2 -> exists obj c' m', kmem_cache_alloc j1 j2 c m = Some (obj, c', m') /\ obj ∉ L /\
     (obj = NULL -> slabs_partial c = NULL /\ (j1 = NULL \/ j2 = NULL))) /\
  (forall a, a ∈ L -> is_Some (kmem_cache_free a c m)).
Proof.
  intros Hsz Hk Hr. set (c0 := new_cache nm size algn flgs) in *. set (sz := obj_size c0) in *. set (n := objs_per_slab c0).
  assert (n = 4096 / sz) as Hn'.
  { unfold n, c0, new_cache, SLAB_PAGE_SIZE. cbn [objs_per_slab]. change (slab_align_size _ algn) with sz.
    destruct (Z.ltb_spec (4096 / sz) 1) as [H|]; [|done]. exfalso. assert (1 <= 4096 / sz) by (apply Z.div_le_lower_bound; lia). lia. }
  assert (1 <= n) as Hn by (rewrite Hn'; apply Z.div_le_lower_bound; lia).
  assert (n * sz <= 4096) as Hfit by (rewrite Hn', Z.mul_comm; apply Z.mul_div_le; lia).
  assert (cinv sz n (c, m, L)) as (F & P & Hc & HL).
  { pose proof (new_cache_inv nm size algn flgs m0) as H0. fold c0 sz n in H0. destruct (slab_grow k1 k2 c0 m0) as [ [r c1] m1] eqn:E.
    apply (creach_inv sz n ltac:(lia) Hn Hfit (c1, m1, [])); [|done]. by apply (grow_inv sz n ltac:(lia) Hn Hfit c0 c1 m0 m1 [] k1 k2 r). }
  pose proof (co_slabs _ _ _ _ _ _ Hc) as Hok. pose proof (co_size _ _ _ _ _ _ Hc) as Hs. rewrite Hs.
  split_and!.
  - rewrite <-HL. by apply (live_NoDup sz n ltac:(lia) Hn Hfit).
  - by rewrite (co_inuse _ _ _ _ _ _ Hc), HL.
  - intros a Ha. rewrite <-HL in Ha. apply (elem_of_live sz n ltac:(lia) Hn Hfit) in Ha as (x & Hx & Hsl & _).
    assert (exists d, slabs m !! a_desc x = Some d /\ describes n m d x) as (d & Hd & _ & _ & Ho & _).
    { apply elem_of_app in Hx as [Hx|Hx];
        eapply (listed_lookup sz n ltac:(lia) Hn Hfit); [apply (co_full _ _ _ _ _ _ Hc)|done|apply (co_partial _ _ _ _ _ _ Hc)|done]. }
    exists (a_desc x), d. split; [done|]. rewrite Ho. by apply (slots_bounds sz n ltac:(lia) Hn Hfit).
  - intros a b Ha Hb Hne. rewrite <-HL in Ha, Hb. pose proof Ha as Ha'. apply (elem_of_live sz n ltac:(lia) Hn Hfit) in Ha' as (x & Hx & Hsl & _).
    by apply (objects_apart sz n ltac:(lia) Hn Hfit (F ++ P) x b a).
  - intros j1 j2 Hj. destruct (alloc_inv sz n ltac:(lia) Hn Hfit c m L j1 j2) as (obj & c' & m' & E & Hni & _ & Hnull & _);
      [by exists F, P|done|]. by exists obj, c', m'.
  - intros a Ha. destruct (free_ok sz n ltac:(lia) Hn Hfit c m F P a Hc) as (c' & m' & _ & _ & E & _); [by rewrite HL|]. rewrite E. by eexists.
Qed.

(** A cache for objects of more than a page still gets pages of 4096 bytes: one object
    of 5000 bytes starts in a page of 4096. *)
Lemma large_objects_overflow :
  let '(_, c, m) := slab_grow 8192 12288 (new_cache [] 5000 4 0) (mk_mem ∅ ∅) in
  obj_size c = 5000 /\ exists c' m', kmem_cache_alloc 0 0 c m = Some (12288, c', m').
Proof. cbv zeta. split; [reflexivity|]. do 2 eexists. vm_compute. reflexivity. Qed.

(** A cache of 96-byte objects in empty memory, after one allocation. *)
Definition demo_cache : kmem_cache := new_cache [100] 96 4 0.

Lemma demo_fresh : fresh (mk_mem ∅ ∅) 8192 12288.
Proof. split; [done|done|]. intros a d H. cbn [slabs] in H. by rewrite lookup_empty in H. Qed.

Lemma slab_safe_witness :
  exists c m, inuse c = 1 /\ is_Some (kmem_cache_free 12288 c m).
Proof.
  set (g := slab_grow 8192 12288 demo_cache (mk_mem ∅ ∅)).
  destruct (kmem_cache_alloc 0 0 g.1.2 g.2) as [ [ [obj c] m]|] eqn:E; [|vm_compute in E; discriminate E].
  assert (obj = 12288) as -> by (vm_compute in E; congruence).
  pose proof (slab_safe [100] 96 4 0 8192 12288 (mk_mem ∅ ∅) m c [12288]) as H.
  destruct H as (_ & H1 & _ & _ & _ & H2).
  - vm_compute. split; discriminate.
  - right. right. exact demo_fresh.
  - change (slab_grow 8192 12288 (new_cache [100] 96 4 0) (mk_mem ∅ ∅)) with g. destruct g as [ [r c1] m1] eqn:Eg.
    apply rtc_once. change [12288] with (if 12288 =? NULL then [] else [12288]). apply (cs_alloc c1 c m1 m [] 0 0 12288); [by left|exact E].
  - exists c, m. split; [exact H1|]. apply H2. by left.
Defined.

End Slab.
