(* ===== verification/CString.v ===== *)
(** * Strings and memory blocks (src/lib/string.c)

    [Module CString]: the functions of the C library on bytes in memory.  Memory is a
    function from addresses to bytes; a pointer is an address and [NULL] is 0.  A [char]
    is signed: [schar] reads a byte as one.  A loop that runs to the terminator takes
    fuel and gives [None] when it is used up; the theorems show that the length of the
    string and one more is enough.  [malloc] is an argument of [strdup] and [strndup]. *)

From S2P Require Import Prelude.

Module CString.

Definition mem : Type := Z -> Z.
Definition upd (m : mem) (a v : Z) : mem := fun x => if x =? a then v else m x.
Definition schar (b : Z) : Z := sign 8 b.

(** ** Blocks *)

Fixpoint copy_up (n : nat) (d s : Z) (m : mem) : mem :=
  match n with O => m | S n => copy_up n (d + 1) (s + 1) (upd m d (m s)) end.

Fixpoint copy_down (n : nat) (d s : Z) (m : mem) : mem :=
  match n with O => m | S n => copy_down n (d - 1) (s - 1) (upd m (d - 1) (m (s - 1))) end.

Fixpoint fill (n : nat) (p c : Z) (m : mem) : mem :=
  match n with O => m | S n => fill n (p + 1) c (upd m p (u8 c)) end.

Definition memcpy (dst src n : Z) (m : mem) : Z * mem := (dst, copy_up (Z.to_nat n) dst src m).
Definition memset (s c n : Z) (m : mem) : Z * mem := (s, fill (Z.to_nat n) s c m).
Definition memmove (dst src n : Z) (m : mem) : Z * mem :=
  if dst <? src then (dst, copy_up (Z.to_nat n) dst src m)
  else (dst, copy_down (Z.to_nat n) (dst + n) (src + n) m).

Fixpoint compare_loop (n : nat) (a b : Z) (m : mem) : Z :=
  match n with
  | O => 0
  | S n => if negb (m a =? m b) then m a - m b else compare_loop n (a + 1) (b + 1) m
  end.
Definition memcmp (s1 s2 n : Z) (m : mem) : Z := compare_loop (Z.to_nat n) s1 s2 m.

Fixpoint memchr_loop (n : nat) (p c : Z) (m : mem) : Z :=
  match n with
  | O => NULL
  | S n => if m p =? u8 c then p else memchr_loop n (p + 1) c m
  end.
Definition memchr (s c n : Z) (m : mem) : Z := memchr_loop (Z.to_nat n) s c m.

Fixpoint memccpy_loop (n : nat) (d s c : Z) (m : mem) : Z * mem :=
  match n with
  | O => (NULL, m)
  | S n =>
      let m1 := upd m d (m s) in
      if m1 s =? u8 c then (d + 1, m1) else memccpy_loop n (d + 1) (s + 1) c m1
  end.
Definition memccpy (dest src c n : Z) (m : mem) : Z * mem := memccpy_loop (Z.to_nat n) dest src c m.

Fixpoint const_time_loop (n : nat) (a b result : Z) (m : mem) : Z :=
  match n with
  | O => result
  | S n => const_time_loop n (a + 1) (b + 1) (Z.lor result (Z.lxor (m a) (m b))) m
  end.
Definition memcmp_const_time (s1 s2 n : Z) (m : mem) : Z := const_time_loop (Z.to_nat n) s1 s2 0 m.

(** ** Strings *)

Fixpoint strlen_loop (fuel : nat) (s len : Z) (m : mem) : option Z :=
  match fuel with
  | O => None
  | S fuel => if c_true (m s) then strlen_loop fuel (s + 1) (u32 (len + 1)) m else Some len
  end.
Definition strlen (fuel : nat) (s : Z) (m : mem) : option Z := strlen_loop fuel s 0 m.

Fixpoint strnlen_loop (n : nat) (s len : Z) (m : mem) : Z :=
  match n with
  | O => len
  | S n => if c_true (m s) then strnlen_loop n (s + 1) (len + 1) m else len
  end.
Definition strnlen (s maxlen : Z) (m : mem) : Z := strnlen_loop (Z.to_nat maxlen) s 0 m.

(** Copy up to and including the terminator. *)
Fixpoint strcpy_loop (fuel : nat) (dst src : Z) (m : mem) : option mem :=
  match fuel with
  | O => None
  | S fuel =>
      let m1 := upd m dst (m src) in
      if c_true (m src) then strcpy_loop fuel (dst + 1) (src + 1) m1 else Some m1
  end.
Definition strcpy (fuel : nat) (dst src : Z) (m : mem) : option (Z * mem) :=
  match strcpy_loop fuel dst src m with Some m' => Some (dst, m') | None => None end.

(** The first loop of [strncpy]: the place after the last byte written and the rest of [n],
    which does not count a terminator that was copied. *)
Fixpoint strncpy_loop (n : nat) (dst src : Z) (m : mem) : Z * nat * mem :=
  match n with
  | O => (dst, O, m)
  | S n' =>
      let m1 := upd m dst (m src) in
      if c_true (m src) then strncpy_loop n' (dst + 1) (src + 1) m1 else (dst + 1, n, m1)
  end.
Definition strncpy (dst src n : Z) (m : mem) : Z * mem :=
  let '(d, k, m1) := strncpy_loop (Z.to_nat n) dst src m in (dst, fill k d 0 m1).

(** Skip to the terminator. *)
Fixpoint to_end (fuel : nat) (p : Z) (m : mem) : option Z :=
  match fuel with
  | O => None
  | S fuel => if c_true (m p) then to_end fuel (p + 1) m else Some p
  end.

Definition strcat (fuel : nat) (dst src : Z) (m : mem) : option (Z * mem) :=
  match to_end fuel dst m with
  | Some e => match strcpy_loop fuel e src m with Some m' => Some (dst, m') | None => None end
  | None => None
  end.

(** Copy at most [n] bytes before the terminator. *)
Fixpoint strncat_loop (n : nat) (dst src : Z) (m : mem) : Z * mem :=
  match n with
  | O => (dst, m)
  | S n => if c_true (m src) then strncat_loop n (dst + 1) (src + 1) (upd m dst (m src)) else (dst, m)
  end.
Definition strncat (fuel : nat) (dst src n : Z) (m : mem) : option (Z * mem) :=
  match to_end fuel dst m with
  | Some e => let '(d, m1) := strncat_loop (Z.to_nat n) e src m in Some (dst, upd m1 d 0)
  | None => None
  end.

Fixpoint strcmp (fuel : nat) (s1 s2 : Z) (m : mem) : option Z :=
  match fuel with
  | O => None
  | S fuel =>
      if c_true (m s1) && (m s1 =? m s2) then strcmp fuel (s1 + 1) (s2 + 1) m else Some (m s1 - m s2)
  end.

Fixpoint strncmp_loop (n : nat) (s1 s2 : Z) (m : mem) : Z :=
  match n with
  | O => 0
  | S n =>
      if c_true (m s1) && (m s1 =? m s2) then strncmp_loop n (s1 + 1) (s2 + 1) m else m s1 - m s2
  end.
Definition strncmp (s1 s2 n : Z) (m : mem) : Z := strncmp_loop (Z.to_nat n) s1 s2 m.

(** Lower case of a [char]. *)
Definition fold_case (c : Z) : Z := if (65 <=? c) && (c <=? 90) then c + 32 else c.

Fixpoint strcasecmp (fuel : nat) (s1 s2 : Z) (m : mem) : option Z :=
  match fuel with
  | O => None
  | S fuel =>
      if c_true (m s1) && c_true (m s2) then
        let c1 := fold_case (schar (m s1)) in
        let c2 := fold_case (schar (m s2)) in
        if negb (c1 =? c2) then Some (c1 - c2) else strcasecmp fuel (s1 + 1) (s2 + 1) m
      else Some (m s1 - m s2)
  end.

Fixpoint strncasecmp_loop (n : nat) (s1 s2 : Z) (m : mem) : Z :=
  match n with
  | O => 0
  | S n =>
      if c_true (m s1) && c_true (m s2) then
        let c1 := fold_case (schar (m s1)) in
        let c2 := fold_case (schar (m s2)) in
        if negb (c1 =? c2) then c1 - c2 else strncasecmp_loop n (s1 + 1) (s2 + 1) m
      else m s1 - m s2
  end.
Definition strncasecmp (s1 s2 n : Z) (m : mem) : Z := strncasecmp_loop (Z.to_nat n) s1 s2 m.

(** [(char)c] of the argument is compared with the [char] in memory. *)
Fixpoint strchr (fuel : nat) (s c : Z) (m : mem) : option Z :=
  match fuel with
  | O => None
  | S fuel =>
      if c_true (m s) then if schar (m s) =? schar c then Some s else strchr fuel (s + 1) c m
      else Some (if c =? 0 then s else NULL)
  end.

Fixpoint strrchr_loop (fuel : nat) (s c last : Z) (m : mem) : option Z :=
  match fuel with
  | O => None
  | S fuel =>
      if c_true (m s) then strrchr_loop fuel (s + 1) c (if schar (m s) =? schar c then s else last) m
      else Some (if c =? 0 then s else last)
  end.
Definition strrchr (fuel : nat) (s c : Z) (m : mem) : option Z := strrchr_loop fuel s c NULL m.

(** The inner loop of [strstr]: where it stops in the needle. *)
Fixpoint match_loop (fuel : nat) (h n : Z) (m : mem) : option Z :=
  match fuel with
  | O => None
  | S fuel =>
      if c_true (m h) && c_true (m n) && (m h =? m n) then match_loop fuel (h + 1) (n + 1) m else Some n
  end.

Fixpoint strstr_loop (fuel inner : nat) (haystack needle : Z) (m : mem) : option Z :=
  match fuel with
  | O => None
  | S fuel =>
      if c_true (m haystack) then
        match match_loop inner haystack needle m with
        | None => None
        | Some n => if m n =? 0 then Some haystack else strstr_loop fuel inner (haystack + 1) needle m
        end
      else Some NULL
  end.
Definition strstr (fuel : nat) (haystack needle : Z) (m : mem) : option Z :=
  if m needle =? 0 then Some haystack else strstr_loop fuel fuel haystack needle m.

(** Is byte [c] in the string at [d]? *)
Fixpoint in_set (fuel : nat) (c d : Z) (m : mem) : option bool :=
  match fuel with
  | O => None
  | S fuel => if c_true (m d) then if c =? m d then Some true else in_set fuel c (d + 1) m else Some false
  end.

(** The loops of [strspn], [strcspn], [strpbrk] and [strtok]: run while the bytes are in
    the set ([want] true) or not in it, and give the place where it stops. *)
Fixpoint span_loop (fuel inner : nat) (want : bool) (s set : Z) (m : mem) : option Z :=
  match fuel with
  | O => None
  | S fuel =>
      if c_true (m s) then
        match in_set inner (m s) set m with
        | None => None
        | Some b => if Bool.eqb b want then span_loop fuel inner want (s + 1) set m else Some s
        end
      else Some s
  end.

Definition strspn (fuel : nat) (s accept : Z) (m : mem) : option Z :=
  match span_loop fuel fuel true s accept m with Some e => Some (u32 (e - s)) | None => None end.
Definition strcspn (fuel : nat) (s reject : Z) (m : mem) : option Z :=
  match span_loop fuel fuel false s reject m with Some e => Some (u32 (e - s)) | None => None end.
Definition strpbrk (fuel : nat) (s accept : Z) (m : mem) : option Z :=
  match span_loop fuel fuel false s accept m with
  | Some e => Some (if c_true (m e) then e else NULL)
  | None => None
  end.

(** The token, the new value of [*saveptr] and the memory. *)
Definition strtok_r (fuel : nat) (str delim saveptr : Z) (m : mem) : option (Z * Z * mem) :=
  let str := if str =? NULL then saveptr else str in
  if str =? NULL then Some (NULL, saveptr, m)
  else
    match span_loop fuel fuel true str delim m with
    | None => None
    | Some tok =>
        if m tok =? 0 then Some (NULL, NULL, m)
        else
          match span_loop fuel fuel false tok delim m with
          | None => None
          | Some e =>
              if c_true (m e) then Some (tok, e + 1, upd m e 0) else Some (tok, NULL, m)
          end
    end.

(** [strtok] keeps the saved pointer in a static variable. *)
Definition strtok (fuel : nat) (str delim last : Z) (m : mem) : option (Z * Z * mem) := strtok_r fuel str delim last m.

(** [dup]: the result of [malloc]. *)
Definition strdup (fuel : nat) (dup s : Z) (m : mem) : option (Z * mem) :=
  match strlen fuel s m with
  | None => None
  | Some l => if dup =? NULL then Some (dup, m) else Some (dup, (memcpy dup s (u32 (l + 1)) m).2)
  end.

Definition strndup (fuel : nat) (dup s n : Z) (m : mem) : option (Z * mem) :=
  match strlen fuel s m with
  | None => None
  | Some l =>
      let len := if n <? l then n else l in
      if dup =? NULL then Some (dup, m) else Some (dup, upd (memcpy dup s len m).2 (dup + len) 0)
  end.

(** ** Blocks *)

(** Decide the comparisons of a boolean goal. *)
Ltac bsolve :=
  repeat match goal with
  | |- context [?a <=? ?b] => destruct (Z.leb_spec a b)
  | |- context [?a <? ?b] => destruct (Z.ltb_spec a b)
  end; cbn [andb]; try done; lia.

Lemma upd_eq (m : mem) (a v : Z) : upd m a v a = v.
Proof. unfold upd. by rewrite Z.eqb_refl. Qed.

Lemma upd_ne (m : mem) (a v x : Z) : x <> a -> upd m a v x = m x.
Proof. intros H. unfold upd. by rewrite (proj2 (Z.eqb_neq _ _) H). Qed.

(** Evaluate the comparisons of the goal that the context decides. *)
Ltac bnorm :=
  repeat match goal with
  | |- context [?a <=? ?b] => (rewrite (proj2 (Z.leb_le a b)) by lia) || (rewrite (proj2 (Z.leb_gt a b)) by lia)
  | |- context [?a <? ?b] => (rewrite (proj2 (Z.ltb_lt a b)) by lia) || (rewrite (proj2 (Z.ltb_ge a b)) by lia)
  end; cbn [andb].

(** [m'] is [m] with the [n] bytes from [d] on given by [f]. *)
Definition written (m m' : mem) (d n : Z) (f : Z -> Z) : Prop :=
  forall x, m' x = if (d <=? x) && (x <? d + n) then f (x - d) else m x.

Lemma copy_up_spec (n : nat) (d s : Z) (m : mem) :
  d <= s \/ s + Z.of_nat n <= d -> written m (copy_up n d s m) d (Z.of_nat n) (fun i => m (s + i)).
Proof.
  revert d s m. induction n as [|n IH]; intros d s m Hd x; cbn [copy_up].
  - by replace ((d <=? x) && (x <? d + Z.of_nat 0)) with false by bsolve.
  - rewrite (IH (d + 1) (s + 1)) by lia. destruct (decide (x = d)) as [->|Hx].
    + replace ((d + 1 <=? d) && (d <? d + 1 + Z.of_nat n)) with false by bsolve.
      replace ((d <=? d) && (d <? d + Z.of_nat (S n))) with true by bsolve. rewrite upd_eq. f_equal. lia.
    + replace ((d + 1 <=? x) && (x <? d + 1 + Z.of_nat n)) with ((d <=? x) && (x <? d + Z.of_nat (S n))) by bsolve.
      destruct (_ && _) eqn:E; [zbool|by apply upd_ne]. rewrite upd_ne by lia. f_equal. lia.
Qed.

Lemma copy_down_spec (n : nat) (d s : Z) (m : mem) :
  s <= d -> written m (copy_down n d s m) (d - Z.of_nat n) (Z.of_nat n) (fun i => m (s - Z.of_nat n + i)).
Proof.
  revert d s m. induction n as [|n IH]; intros d s m Hd x; cbn [copy_down].
  - by replace ((d - Z.of_nat 0 <=? x) && (x <? d - Z.of_nat 0 + Z.of_nat 0)) with false by bsolve.
  - rewrite (IH (d - 1) (s - 1)) by lia. destruct (decide (x = d - 1)) as [->|Hx].
    + replace ((d - 1 - Z.of_nat n <=? d - 1) && (d - 1 <? d - 1 - Z.of_nat n + Z.of_nat n)) with false by bsolve.
      replace ((d - Z.of_nat (S n) <=? d - 1) && (d - 1 <? d - Z.of_nat (S n) + Z.of_nat (S n))) with true by bsolve.
      rewrite upd_eq. f_equal. lia.
    + replace ((d - 1 - Z.of_nat n <=? x) && (x <? d - 1 - Z.of_nat n + Z.of_nat n))
        with ((d - Z.of_nat (S n) <=? x) && (x <? d - Z.of_nat (S n) + Z.of_nat (S n))) by bsolve.
      destruct (_ && _) eqn:E; [zbool|by apply upd_ne]. rewrite upd_ne by lia. f_equal. lia.
Qed.

Lemma fill_written (n : nat) (p c : Z) (m : mem) : written m (fill n p c m) p (Z.of_nat n) (fun _ => u8 c).
Proof.
  revert p m. induction n as [|n IH]; intros p m x; cbn [fill].
  - by replace ((p <=? x) && (x <? p + Z.of_nat 0)) with false by bsolve.
  - rewrite IH. destruct (decide (x = p)) as [->|Hx].
    + replace ((p + 1 <=? p) && (p <? p + 1 + Z.of_nat n)) with false by bsolve.
      replace ((p <=? p) && (p <? p + Z.of_nat (S n))) with true by bsolve. apply upd_eq.
    + replace ((p + 1 <=? x) && (x <? p + 1 + Z.of_nat n)) with ((p <=? x) && (x <? p + Z.of_nat (S n))) by bsolve.
      destruct (_ && _); [done|by apply upd_ne].
Qed.

(** [memmove] moves a block to any place, overlapping or not: afterwards the [n] bytes
    at the destination are the bytes the source had before the call and no other
    byte has changed.  [memcpy] does so when the source is not overwritten ahead of
    the copy. *)
Theorem memmove_spec (dst src n : Z) (m : mem) :
  0 <= n ->
  (memmove dst src n m).1 = dst /\ written m (memmove dst src n m).2 dst n (fun i => m (src + i)) /\
  (dst <= src \/ src + n <= dst -> written m (memcpy dst src n m).2 dst n (fun i => m (src + i))).
Proof.
  intros Hn. unfold memmove, memcpy. split_and!.
  - by destruct (dst <? src).
  - destruct (Z.ltb_spec dst src) as [H|H]; cbn [snd].
    + pose proof (copy_up_spec (Z.to_nat n) dst src m ltac:(lia)) as Hc. by rewrite Z2Nat.id in Hc.
    + pose proof (copy_down_spec (Z.to_nat n) (dst + n) (src + n) m ltac:(lia)) as Hc. rewrite Z2Nat.id in Hc by lia.
      replace (dst + n - n) with dst in Hc by lia. replace (src + n - n) with src in Hc by lia. done.
  - intros Hd. pose proof (copy_up_spec (Z.to_nat n) dst src m ltac:(lia)) as Hc. by rewrite Z2Nat.id in Hc.
Qed.

(** Bytes 1 to 5 moved up by two places. *)
Lemma memmove_spec_witness :
  map (memmove 102 100 5 (fun a => a - 99)).2 [100; 101; 102; 103; 104; 105; 106; 107] = [1; 2; 1; 2; 3; 4; 5; 8].
Proof.
  destruct (memmove_spec 102 100 5 (fun a => a - 99) ltac:(lia)) as (_ & H & _). unfold written in H. cbn [map]. by rewrite !H.
Defined.

(** ** Strings *)

Fixpoint string_at (m : mem) (a : Z) (s : list Z) : Prop :=
  match s with
  | [] => m a = 0
  | c :: s => c <> 0 /\ m a = c /\ string_at m (a + 1) s
  end.

Lemma string_frame (m m' : mem) (a : Z) (s : list Z) :
  (forall x, a <= x <= a + zlen s -> m' x = m x) -> string_at m a s -> string_at m' a s.
Proof.
  revert a. induction s as [|c s IH]; intros a Hm; cbn [string_at].
  - intros H. rewrite Hm; [done|]. change (zlen (@nil Z)) with 0. lia.
  - rewrite zlen_cons in Hm. pose proof (zlen_nonneg s). intros (Hc & Ha & Hs). split_and!; [done|rewrite Hm; [done|lia] |].
    apply IH; [|done]. intros x Hx. apply Hm. lia.
Qed.

Lemma string_test (m : mem) (a c : Z) (s : list Z) : string_at m a (c :: s) -> c_true (m a) = true.
Proof. intros (Hc & -> & _). unfold c_true. by rewrite (proj2 (Z.eqb_neq _ _) Hc). Qed.

Lemma string_end (m : mem) (a : Z) : string_at m a [] -> c_true (m a) = false.
Proof. cbn. intros ->. done. Qed.

(** The string after its first [n] bytes. *)
Lemma string_drop (m : mem) (a : Z) (s t : list Z) : string_at m a (s ++ t) -> string_at m (a + zlen s) t.
Proof.
  revert a. induction s as [|c s IH]; intros a; cbn [app string_at].
  - change (zlen (@nil Z)) with 0. by rewrite Z.add_0_r.
  - intros (_ & _ & H). rewrite zlen_cons. replace (a + (1 + zlen s)) with (a + 1 + zlen s) by lia. by apply IH.
Qed.

Lemma strlen_spec (fuel : nat) (a : Z) (m : mem) (s : list Z) :
  string_at m a s -> (length s < fuel)%nat -> zlen s < 2 ^ 32 -> strlen fuel a m = Some (zlen s).
Proof.
  assert (forall fuel a s k, string_at m a s -> (length s < fuel)%nat -> 0 <= k -> k + zlen s < 2 ^ 32 ->
    strlen_loop fuel a k m = Some (k + zlen s)) as H.
  { clear. induction fuel as [|fuel IH]; intros a s k Hs Hf Hk Hb; [lia|]. cbn [strlen_loop]. destruct s as [|c s].
    - rewrite (string_end m a Hs). change (zlen (@nil Z)) with 0. by rewrite Z.add_0_r.
    - rewrite (string_test m a c s Hs). rewrite zlen_cons in *. pose proof (zlen_nonneg s). cbn [length] in Hf.
      rewrite u32_small by (unfold is_u32; lia). rewrite IH with (s := s); [f_equal; lia|apply Hs|lia|lia|lia]. }
  intros Hs Hf Hb. unfold strlen. rewrite (H fuel a s 0); [done|done|done|lia|lia].
Qed.

Lemma strcpy_loop_spec (fuel : nat) (dst src : Z) (m : mem) (s : list Z) :
  string_at m src s -> (length s < fuel)%nat -> (dst <= src \/ src + zlen s < dst) ->
  exists m', strcpy_loop fuel dst src m = Some m' /\ written m m' dst (zlen s + 1) (fun i => m (src + i)).
Proof.
  revert dst src m s. induction fuel as [|fuel IH]; intros dst src m s Hs Hf Hd; [lia|]. cbn [strcpy_loop]. destruct s as [|c s].
  - rewrite (string_end m src Hs). eexists. split; [done|]. intros x. change (zlen (@nil Z) + 1) with 1. unfold upd.
    destruct (Z.eqb_spec x dst) as [->|Hx].
    + replace ((dst <=? dst) && (dst <? dst + 1)) with true by bsolve. f_equal. lia.
    + by replace ((dst <=? x) && (x <? dst + 1)) with false by bsolve.
  - rewrite (string_test m src c s Hs). rewrite zlen_cons in *. pose proof (zlen_nonneg s). cbn [length] in Hf.
    destruct (IH (dst + 1) (src + 1) (upd m dst (m src)) s) as (m' & E & Hw).
    { eapply string_frame; [|apply Hs]. intros x Hx. apply upd_ne. lia. } { lia. } { lia. }
    exists m'. split; [done|]. intros x. rewrite Hw. destruct (decide (x = dst)) as [->|Hx].
    + replace ((dst + 1 <=? dst) && (dst <? dst + 1 + (zlen s + 1))) with false by bsolve.
      replace ((dst <=? dst) && (dst <? dst + (1 + zlen s + 1))) with true by bsolve. rewrite upd_eq. f_equal. lia.
    + replace ((dst + 1 <=? x) && (x <? dst + 1 + (zlen s + 1))) with ((dst <=? x) && (x <? dst + (1 + zlen s + 1))) by bsolve.
      destruct (_ && _) eqn:E'; [zbool|by apply upd_ne]. rewrite upd_ne by lia. f_equal. lia.
Qed.

(** The bytes a copy writes form the string again. *)
Lemma written_string (m m' : mem) (dst src : Z) (s : list Z) (f : Z -> Z) (n : Z) :
  written m m' dst n f -> (forall i, 0 <= i <= zlen s -> f i = m (src + i)) -> zlen s < n -> string_at m src s ->
  string_at m' dst s.
Proof.
  intros Hw Hf Hn Hs.
  assert (forall t k, 0 <= k -> k + zlen t <= zlen s -> string_at m (src + k) t -> string_at m' (dst + k) t) as H.
  { clear Hs. induction t as [|c t IH]; intros k Hk Hb; cbn [string_at].
    - intros H0. change (zlen (@nil Z)) with 0 in Hb. rewrite Hw. replace ((dst <=? dst + k) && (dst + k <? dst + n)) with true by bsolve.
      by rewrite Hf, Z.add_simpl_l by lia || (replace (dst + k - dst) with k by lia; rewrite Hf by lia).
    - rewrite zlen_cons in Hb. pose proof (zlen_nonneg t). intros (Hc & Hm & Ht). split_and!; [done| |].
      + rewrite Hw. replace ((dst <=? dst + k) && (dst + k <? dst + n)) with true by bsolve.
        replace (dst + k - dst) with k by lia. by rewrite Hf by lia.
      + rewrite <-Z.add_assoc. apply IH; [lia|lia|]. by rewrite Z.add_assoc. }
  specialize (H s 0). rewrite !Z.add_0_r in H. apply H; [lia|lia|done].
Qed.

Lemma strncpy_loop_spec (n : nat) (dst src : Z) (m : mem) (s : list Z) :
  string_at m src s -> (dst + Z.of_nat n <= src \/ src + zlen s < dst) ->
  let k := Z.min (Z.of_nat n) (zlen s + 1) in
  let '(d, r, m') := strncpy_loop n dst src m in
  d = dst + k /\ Z.of_nat r = Z.of_nat n - Z.min (Z.of_nat n) (zlen s) /\ written m m' dst k (fun i => m (src + i)).
Proof.
  revert dst src m s. induction n as [|n IH]; intros dst src m s Hs Hd; cbn [strncpy_loop].
  - pose proof (zlen_nonneg s). split_and!; [lia|lia|]. intros x.
    replace ((dst <=? x) && (x <? dst + Z.min (Z.of_nat 0) (zlen s + 1))) with false by bsolve. done.
  - destruct s as [|c s].
    + rewrite (string_end m src Hs). change (zlen (@nil Z)) with 0. split_and!; [lia|lia|]. intros x. unfold upd.
      destruct (Z.eqb_spec x dst) as [->|Hx].
      * replace ((dst <=? dst) && (dst <? dst + Z.min (Z.of_nat (S n)) (0 + 1))) with true by bsolve. f_equal. lia.
      * by replace ((dst <=? x) && (x <? dst + Z.min (Z.of_nat (S n)) (0 + 1))) with false by bsolve.
    + rewrite (string_test m src c s Hs). rewrite zlen_cons in *. pose proof (zlen_nonneg s).
      specialize (IH (dst + 1) (src + 1) (upd m dst (m src)) s). cbv zeta in IH.
      destruct (strncpy_loop n (dst + 1) (src + 1) _) as [ [d r] m']. destruct IH as (-> & Hr & Hw).
      { eapply string_frame; [|apply Hs]. intros x Hx. apply upd_ne. lia. } { lia. }
      split_and!; [lia|lia|]. intros x. rewrite Hw. set (k := Z.min (Z.of_nat n) (zlen s + 1)).
      replace (Z.min (Z.of_nat (S n)) (1 + zlen s + 1)) with (k + 1) by lia. destruct (decide (x = dst)) as [->|Hx].
      * replace ((dst + 1 <=? dst) && (dst <? dst + 1 + k)) with false by bsolve.
        replace ((dst <=? dst) && (dst <? dst + (k + 1))) with true by bsolve. rewrite upd_eq. f_equal. lia.
      * replace ((dst + 1 <=? x) && (x <? dst + 1 + k)) with ((dst <=? x) && (x <? dst + (k + 1))) by bsolve.
        destruct (_ && _) eqn:E'; [zbool|by apply upd_ne]. rewrite upd_ne by lia. f_equal. lia.
Qed.

(** [strncpy] of a string of at least [n] bytes writes its first [n] bytes and no
    terminator, as it should; but for a shorter string it writes [n] + 1 bytes: the
    string and zeros up to and including the byte after the buffer, because the loop
    does not count the terminator it copies. *)
Theorem strncpy_overruns (dst src n : Z) (m : mem) (s : list Z) :
  0 <= n -> string_at m src s -> (dst + n <= src \/ src + zlen s < dst) ->
  let m' := (strncpy dst src n m).2 in
  (n <= zlen s -> written m m' dst n (fun i => m (src + i))) /\
  (zlen s < n -> written m m' dst (n + 1) (fun i => if i <? zlen s then m (src + i) else 0)).
Proof.
  intros Hn Hs Hd. unfold strncpy. pose proof (strncpy_loop_spec (Z.to_nat n) dst src m s Hs) as H. rewrite Z2Nat.id in H by lia.
  specialize (H Hd). cbv zeta in *. destruct (strncpy_loop _ dst src m) as [ [d r] m1]. destruct H as (-> & Hr & Hw). cbn [snd].
  pose proof (zlen_nonneg s). pose proof (fill_written r (dst + Z.min n (zlen s + 1)) 0 m1) as Hfill. rewrite Hr in Hfill.
  change (u8 0) with 0 in Hfill. split; intros Hlen x; rewrite Hfill, Hw.
  - rewrite (Z.min_l n (zlen s)), (Z.min_l n (zlen s + 1)) by lia.
    by replace ((dst + n <=? x) && (x <? dst + n + (n - n))) with false by bsolve.
  - rewrite (Z.min_r n (zlen s)), (Z.min_r n (zlen s + 1)) by lia.
    destruct (decide (x < dst)); [by bnorm|]. destruct (decide (x < dst + zlen s)); [by bnorm|].
    destruct (decide (x = dst + zlen s)) as [->|]; [|destruct (decide (x < dst + n + 1)); by bnorm].
    bnorm. replace (src + (dst + zlen s - dst)) with (src + zlen s) by lia.
    pose proof (string_drop m src s []) as He. rewrite app_nil_r in He. apply (He Hs).
Qed.

(** The string "ab" at 200, copied to a buffer of four bytes at 100. *)
Definition demo_mem : mem := fun a => if a =? 200 then 97 else if a =? 201 then 98 else if a =? 202 then 0 else 7.

Lemma strncpy_overruns_witness : (strncpy 100 200 4 demo_mem).2 104 = 0 /\ demo_mem 104 = 7.
Proof.
  destruct (strncpy_overruns 100 200 4 demo_mem [97; 98]) as [_ H]; [lia|repeat split; done|left; lia|].
  split; [|done]. rewrite (H ltac:(done)). done.
Defined.

(** ** Comparison *)

Fixpoint compare_strings (s t : list Z) : Z :=
  match s, t with
  | [], [] => 0
  | [], d :: _ => 0 - d
  | c :: _, [] => c - 0
  | c :: s, d :: t => if c =? d then compare_strings s t else c - d
  end.

(** [strcmp] is the difference at the first place where the strings differ, and zero
    exactly on equal strings. *)
Lemma strcmp_spec (fuel : nat) (a b : Z) (m : mem) (s t : list Z) :
  string_at m a s -> string_at m b t -> (length s < fuel)%nat ->
  strcmp fuel a b m = Some (compare_strings s t) /\ (compare_strings s t = 0 <-> s = t).
Proof.
  revert a b s t. induction fuel as [|fuel IH]; intros a b s t Hs Ht Hf; [lia|]. cbn [strcmp]. destruct s as [|c s].
  - rewrite (string_end m a Hs). cbn [andb string_at] in *. rewrite Hs. destruct t as [|d t]; cbn [string_at compare_strings] in *.
    + by rewrite Ht.
    + destruct Ht as (Hd & -> & _). split; [done|]. split; [lia|done].
  - rewrite (string_test m a c s Hs). cbn [andb]. destruct Hs as (Hc & -> & Hs). destruct t as [|d t]; cbn [string_at compare_strings] in *.
    + rewrite Ht. rewrite (proj2 (Z.eqb_neq c 0)) by done. split; [done|]. split; [lia|done].
    + destruct Ht as (Hd & -> & Ht). cbn [length] in Hf. destruct (Z.eqb_spec c d) as [->|Hne].
      * destruct (IH (a + 1) (b + 1) s t Hs Ht ltac:(lia)) as [E1 E2]. split; [done|]. rewrite E2. split; [by intros ->|by intros [= ->] ].
      * split; [done|]. split; [lia|by intros [= ? ?] ].
Qed.

(** [memcmp] and its constant-time variant are zero on the same pairs of blocks. *)
Lemma memcmp_equal (s1 s2 n : Z) (m : mem) :
  memcmp s1 s2 n m = 0 <-> memcmp_const_time s1 s2 n m = 0.
Proof.
  assert (forall k a b r, const_time_loop k a b r m = 0 <-> r = 0 /\ compare_loop k a b m = 0) as H.
  { induction k as [|k IH]; intros a b r; cbn [const_time_loop compare_loop]; [tauto|].
    rewrite IH, Z.lor_eq_0_iff, Z.lxor_eq_0_iff. destruct (Z.eqb_spec (m a) (m b)) as [E|E]; cbn [negb]; [tauto|]. lia. }
  unfold memcmp, memcmp_const_time. rewrite H. tauto.
Qed.

(** [memchr] finds the first byte. *)
Lemma memchr_spec (s c n : Z) (m : mem) :
  0 < s -> 0 <= n ->
  match memchr s c n m with
  | 0 => forall i, 0 <= i < n -> m (s + i) <> u8 c
  | p => s <= p < s + n /\ m p = u8 c /\ forall q, s <= q < p -> m q <> u8 c
  end.
Proof.
  intros Hs Hn. unfold memchr. rewrite <-(Z2Nat.id n) by done. rewrite Nat2Z.id. clear Hn. revert s Hs.
  induction (Z.to_nat n) as [|k IH]; intros s Hs; cbn [memchr_loop]; [intros i Hi; lia|].
  destruct (Z.eqb_spec (m s) (u8 c)) as [E|E].
  - destruct s as [|p|p]; [lia| |lia]. split_and!; [lia|lia|done|lia].
  - specialize (IH (s + 1) ltac:(lia)). destruct (memchr_loop k (s + 1) c m) as [|p|p].
    + intros i Hi. destruct (decide (i = 0)) as [->|]; [by rewrite Z.add_0_r|]. replace (s + i) with (s + 1 + (i - 1)) by lia. apply IH. lia.
    + destruct IH as (H1 & H2 & H3). split_and!; [lia|lia|done|]. intros q Hq. destruct (decide (q = s)) as [->|]; [done|]. apply H3. lia.
    + destruct IH as (H1 & _). lia.
Qed.

(** ** Search *)

Lemma match_loop_spec (fuel : nat) (h n : Z) (m : mem) (hs ns : list Z) :
  string_at m h hs -> string_at m n ns -> (length ns < fuel)%nat ->
  exists p, match_loop fuel h n m = Some p /\ (m p = 0 <-> ns `prefix_of` hs).
Proof.
  revert h n hs ns. induction fuel as [|fuel IH]; intros h n hs ns Hh Hn Hf; [lia|]. cbn [match_loop]. destruct ns as [|c ns].
  - rewrite (string_end m n Hn), andb_false_r. cbn [andb]. exists n. split; [done|]. split; [intros; apply prefix_nil|done].
  - rewrite (string_test m n c ns Hn), andb_true_r. pose proof Hn as (Hc & Ec & Hn'). destruct hs as [|d hs].
    + rewrite (string_end m h Hh). cbn [andb]. exists n. split; [done|]. rewrite Ec. split; [done|]. intros [k Hk]. discriminate Hk.
    + rewrite (string_test m h d hs Hh). destruct Hh as (Hd & Ed & Hh). rewrite Ed, Ec. cbn [andb length] in *.
      destruct (Z.eqb_spec d c) as [->|Hne].
      * destruct (IH (h + 1) (n + 1) hs ns Hh Hn' ltac:(lia)) as (p & E & Hp). exists p. split; [done|]. rewrite Hp.
        split; [apply prefix_cons|apply prefix_cons_inv_2].
      * exists n. split; [done|]. rewrite Ec. split; [done|]. intros Hp. by apply prefix_cons_inv_1 in Hp.
Qed.

Lemma strstr_loop_spec (fuel inner : nat) (h n : Z) (m : mem) (hs ns : list Z) :
  string_at m h hs -> string_at m n ns -> ns <> [] -> (length hs < fuel)%nat -> (length ns < inner)%nat ->
  exists p, strstr_loop fuel inner h n m = Some p /\
    ((exists i, p = h + Z.of_nat i /\ ns `prefix_of` drop i hs /\ forall j, (j < i)%nat -> ~ ns `prefix_of` drop j hs) \/
     (p = NULL /\ forall j, ~ ns `prefix_of` drop j hs)).
Proof.
  intros Hh Hn Hne. revert h hs Hh. induction fuel as [|fuel IH]; intros h hs Hh Hf Hi; [lia|]. cbn [strstr_loop]. destruct hs as [|c hs].
  - rewrite (string_end m h Hh). exists NULL. split; [done|]. right. split; [done|]. intros j. rewrite drop_nil. intros Hp. by apply prefix_nil_inv in Hp.
  - rewrite (string_test m h c hs Hh). destruct (match_loop_spec inner h n m (c :: hs) ns Hh Hn Hi) as (q & -> & Hq).
    destruct (Z.eqb_spec (m q) 0) as [E|E].
    + exists h. split; [done|]. left. exists O. split_and!; [lia|by apply Hq|lia].
    + assert (~ ns `prefix_of` c :: hs) as H0 by (intros Hp; apply E; by apply Hq).
      cbn [length] in Hf. destruct (IH (h + 1) hs) as (p & Ep & Hp); [apply Hh|lia|lia|]. exists p. split; [done|].
      destruct Hp as [(i & -> & Hpi & Hmin)|[-> Hno] ].
      * left. exists (S i). split_and!; [lia|done|]. intros [|j] Hj; [done|]. cbn [drop]. apply Hmin. lia.
      * right. split; [done|]. intros [|j]; [done|]. apply Hno.
Qed.

(** [strstr] returns a pointer to the first occurrence of the needle, and [NULL] exactly
    when there is none. *)
Theorem strstr_spec (fuel : nat) (h n : Z) (m : mem) (hs ns : list Z) :
  string_at m h hs -> string_at m n ns -> (length hs < fuel)%nat -> (length ns < fuel)%nat ->
  exists p, strstr fuel h n m = Some p /\
    ((exists i, p = h + Z.of_nat i /\ ns `prefix_of` drop i hs /\ forall j, (j < i)%nat -> ~ ns `prefix_of` drop j hs) \/
     (p = NULL /\ forall j, ~ ns `prefix_of` drop j hs)).
Proof.
  intros Hh Hn Hf1 Hf2. unfold strstr. destruct ns as [|c ns].
  - rewrite Hn. exists h. split; [done|]. left. exists O. split_and!; [lia|apply prefix_nil|lia].
  - rewrite (proj2 (Z.eqb_neq (m n) 0)) by (destruct Hn as (? & -> & _); done). by apply strstr_loop_spec.
Qed.

(** "aab" contains "ab" at its second byte. *)
Definition demo_text : mem :=
  fun a => if (a =? 100) || (a =? 101) || (a =? 200) then 97 else if (a =? 102) || (a =? 201) then 98 else 0.

Lemma strstr_spec_witness : exists p, strstr 5 100 200 demo_text = Some p /\ p = 101.
Proof.
  destruct (strstr_spec 5 100 200 demo_text [97; 97; 98] [97; 98]) as (p & E & _).
  - repeat split; done.
  - repeat split; done.
  - cbn. lia.
  - cbn. lia.
  - exists p. split; [done|]. vm_compute in E. congruence.
Defined.

(** ** Tokens *)

Lemma in_set_spec (fuel : nat) (c d : Z) (m : mem) (ds : list Z) :
  string_at m d ds -> (length ds < fuel)%nat -> in_set fuel c d m = Some (bool_decide (c ∈ ds)).
Proof.
  revert d ds. induction fuel as [|fuel IH]; intros d ds Hd Hf; [lia|]. cbn [in_set]. destruct ds as [|e ds].
  - rewrite (string_end m d Hd). by rewrite bool_decide_eq_false_2 by apply not_elem_of_nil.
  - rewrite (string_test m d e ds Hd). destruct Hd as (_ & -> & Hd). cbn [length] in Hf. destruct (Z.eqb_spec c e) as [->|Hne].
    + by rewrite bool_decide_eq_true_2 by (by left).
    + rewrite (IH (d + 1) ds Hd ltac:(lia)). f_equal. apply bool_decide_ext. rewrite elem_of_cons. tauto.
Qed.

(** The longest prefix of bytes that pass a test, and the rest. *)
Fixpoint span (f : Z -> bool) (s : list Z) : list Z * list Z :=
  match s with
  | [] => ([], [])
  | c :: s' => if f c then let '(a, b) := span f s' in (c :: a, b) else ([], s)
  end.

Lemma span_app (f : Z -> bool) (s : list Z) : (span f s).1 ++ (span f s).2 = s.
Proof. induction s as [|c s IH]; cbn [span]; [done|]. destruct (f c); [|done]. destruct (span f s) as [a b]. cbn in *. by rewrite IH. Qed.

Lemma span_Forall (f : Z -> bool) (s : list Z) : Forall (fun c => f c = true) (span f s).1.
Proof. induction s as [|c s IH]; cbn [span]; [done|]. destruct (f c) eqn:E; [|done]. destruct (span f s) as [a b]. by constructor. Qed.

Lemma span_rest (f : Z -> bool) (s : list Z) (c : Z) (t : list Z) : (span f s).2 = c :: t -> f c = false.
Proof.
  induction s as [|d s IH]; cbn [span]; [done|]. destruct (f d) eqn:E; [|by intros [= -> _] ].
  destruct (span f s) as [a b]. cbn in *. auto.
Qed.

Definition is_delim (ds : list Z) (c : Z) : bool := bool_decide (c ∈ ds).
Definition not_delim (ds : list Z) (c : Z) : bool := negb (is_delim ds c).

Lemma span_loop_spec (fuel inner : nat) (want : bool) (a d : Z) (m : mem) (s ds : list Z) :
  string_at m a s -> string_at m d ds -> (length s < fuel)%nat -> (length ds < inner)%nat ->
  span_loop fuel inner want a d m = Some (a + zlen (span (if want then is_delim ds else not_delim ds) s).1).
Proof.
  intros Hs Hd Hf Hi. revert a s Hs Hf. induction fuel as [|fuel IH]; intros a s Hs Hf; [lia|]. cbn [span_loop]. destruct s as [|c s].
  - rewrite (string_end m a Hs). cbn [span fst]. change (zlen (@nil Z)) with 0. by rewrite Z.add_0_r.
  - rewrite (string_test m a c s Hs). destruct Hs as (_ & -> & Hs). rewrite (in_set_spec inner c d m ds Hd Hi). cbn [length] in Hf.
    assert (Bool.eqb (bool_decide (c ∈ ds)) want = (if want then is_delim ds else not_delim ds) c) as ->.
    { destruct want; unfold not_delim, is_delim; by destruct (bool_decide (c ∈ ds)). }
    cbn [span]. destruct ((if want then is_delim ds else not_delim ds) c).
    + rewrite (IH (a + 1) s Hs ltac:(lia)). destruct (span _ s) as [x y]. cbn [fst]. rewrite zlen_cons. f_equal. lia.
    + cbn [fst]. change (zlen (@nil Z)) with 0. by rewrite Z.add_0_r.
Qed.

(** A string cut at a place is a string up to there. *)
Lemma string_cut (m : mem) (a : Z) (s t : list Z) : string_at m a (s ++ t) -> string_at (upd m (a + zlen s) 0) a s.
Proof.
  revert a. induction s as [|c s IH]; intros a; cbn [app string_at].
  - intros _. change (zlen (@nil Z)) with 0. rewrite Z.add_0_r. apply upd_eq.
  - intros (Hc & Ha & Hs). rewrite zlen_cons. pose proof (zlen_nonneg s). split_and!; [done|rewrite upd_ne by lia; done|].
    replace (a + (1 + zlen s)) with (a + 1 + zlen s) by lia. by apply IH.
Qed.

(** One call: the token, the saved place and what is left. *)
Lemma strtok_r_step (fuel : nat) (a d : Z) (m : mem) (s ds : list Z) :
  a <> NULL -> string_at m a s -> string_at m d ds -> (length s < fuel)%nat -> (length ds < fuel)%nat ->
  let lead := (span (is_delim ds) s).1 in
  let tok := (span (not_delim ds) (span (is_delim ds) s).2).1 in
  let rest := (span (not_delim ds) (span (is_delim ds) s).2).2 in
  let e := a + zlen lead + zlen tok in
  forall str save, (if str =? NULL then save else str) = a ->
  strtok_r fuel str d save m =
    Some (if bool_decide (tok = []) then (NULL, NULL, m)
          else match rest with [] => (a + zlen lead, NULL, m) | _ :: _ => (a + zlen lead, e + 1, upd m e 0) end).
Proof.
  intros Ha Hs Hd Hf1 Hf2 lead tok rest e str save Hstr. unfold strtok_r. rewrite Hstr, (proj2 (Z.eqb_neq a NULL) Ha).
  rewrite (span_loop_spec fuel fuel true a d m s ds Hs Hd Hf1 Hf2). fold lead. set (s1 := (span (is_delim ds) s).2) in *.
  pose proof (span_app (is_delim ds) s) as Es. fold lead s1 in Es. rewrite <-Es in Hs. pose proof (string_drop m a lead s1 Hs) as Hs1.
  pose proof (span_app (not_delim ds) s1) as Et. fold tok rest in Et.
  destruct s1 as [|c s1'] eqn:E1.
  - assert (tok = []) as -> by (by destruct tok). rewrite (bool_decide_eq_true_2 ([] = [])) by done. cbn [string_at] in Hs1. by rewrite Hs1.
  - rewrite (proj2 (Z.eqb_neq (m (a + zlen lead)) 0)) by (destruct Hs1 as (? & -> & _); done).
    assert (length (c :: s1') < fuel)%nat as Hf3 by (rewrite <-Es, length_app in Hf1; lia).
    rewrite (span_loop_spec fuel fuel false _ d m (c :: s1') ds Hs1 Hd Hf3 Hf2). fold tok. fold e.
    assert (not_delim ds c = true) as Hc.
    { unfold not_delim. by rewrite (span_rest (is_delim ds) s c s1' E1). }
    assert (tok <> []) as Ht. { unfold tok. cbn [span]. rewrite Hc. by destruct (span (not_delim ds) s1'). }
    rewrite bool_decide_eq_false_2 by done. rewrite <-Et in Hs1. pose proof (string_drop m _ tok rest Hs1) as Hr. fold e in Hr.
    destruct rest as [|r rest']; [by rewrite (string_end m e Hr)|by rewrite (string_test m e r rest' Hr)].
Qed.

(** The maximal runs of bytes that are not delimiters. *)
Fixpoint fields_from (ds cur s : list Z) : list (list Z) :=
  match s with
  | [] => if bool_decide (cur = []) then [] else [cur]
  | c :: s =>
      if is_delim ds c then if bool_decide (cur = []) then fields_from ds [] s else cur :: fields_from ds [] s
      else fields_from ds (cur ++ [c]) s
  end.
Definition fields (ds s : list Z) : list (list Z) := fields_from ds [] s.

Lemma fields_lead (ds lead t : list Z) :
  Forall (fun c => is_delim ds c = true) lead -> fields_from ds [] (lead ++ t) = fields_from ds [] t.
Proof.
  induction 1 as [|c lead Hc _ IH]; [done|]. cbn [app fields_from]. rewrite Hc. by rewrite bool_decide_eq_true_2.
Qed.

Lemma fields_token (ds cur tok t : list Z) :
  Forall (fun c => not_delim ds c = true) tok -> fields_from ds cur (tok ++ t) = fields_from ds (cur ++ tok) t.
Proof.
  intros H. revert cur. induction H as [|c tok Hc _ IH]; intros cur; [by rewrite app_nil_r|]. cbn [app fields_from].
  unfold not_delim in Hc. apply negb_true_iff in Hc. rewrite Hc, IH, <-app_assoc. done.
Qed.

Lemma fields_span (ds s : list Z) :
  fields ds s =
    let tok := (span (not_delim ds) (span (is_delim ds) s).2).1 in
    let rest := (span (not_delim ds) (span (is_delim ds) s).2).2 in
    if bool_decide (tok = []) then [] else tok :: fields ds (tail rest).
Proof.
  cbv zeta. set (s1 := (span (is_delim ds) s).2). unfold fields at 1. rewrite <-(span_app (is_delim ds) s). fold s1.
  rewrite fields_lead by apply span_Forall. rewrite <-(span_app (not_delim ds) s1) at 1.
  rewrite fields_token by apply span_Forall. cbn [app]. destruct ((span (not_delim ds) s1).2) as [|c r] eqn:E; cbn [fields_from tail].
  - by case_bool_decide.
  - pose proof (span_rest (not_delim ds) s1 c r E) as Hc. unfold not_delim in Hc. apply negb_false_iff in Hc. rewrite Hc.
    case_bool_decide as Ht; [|done]. exfalso. destruct s1 as [|b s1'] eqn:E1; [discriminate E|].
    pose proof (span_rest (is_delim ds) s b s1' E1) as Hb. cbn [span] in Ht. unfold not_delim in Ht at 1. rewrite Hb in Ht. cbn [negb] in Ht.
    by destruct (span (not_delim ds) s1').
Qed.

(** The loop of a client: the first call with the string, the others with [NULL]. *)
Fixpoint strtok_all (k fuel : nat) (str delim save : Z) (m : mem) : option (list Z * mem) :=
  match k with
  | O => None
  | S k =>
      match strtok_r fuel str delim save m with
      | None => None
      | Some (t, save', m') =>
          if t =? NULL then Some ([], m')
          else match strtok_all k fuel NULL delim save' m' with
               | Some (ts, m'') => Some (t :: ts, m'')
               | None => None
               end
      end
  end.

Lemma strtok_all_spec (k fuel : nat) (ds s : list Z) (a d str save : Z) (m : mem) :
  0 < a -> (if str =? NULL then save else str) = a -> string_at m a s -> string_at m d ds ->
  d + zlen ds < a \/ a + zlen s <= d ->
  (length s < fuel)%nat -> (length ds < fuel)%nat -> (length s + 1 < k)%nat ->
  exists ps m', strtok_all k fuel str d save m = Some (ps, m') /\ Forall2 (string_at m') ps (fields ds s) /\
    forall x, ~ (a <= x < a + zlen s) -> m' x = m x.
Proof.
  revert a str save m s. induction k as [|k IH]; intros a str save m s Ha Hstr Hs Hd Hdis Hf1 Hf2 Hk; [lia|].
  cbn [strtok_all]. rewrite fields_span. cbv zeta.
  rewrite (strtok_r_step fuel a d m s ds ltac:(unfold NULL; lia) Hs Hd Hf1 Hf2 str save Hstr).
  set (lead := (span (is_delim ds) s).1). set (s1 := (span (is_delim ds) s).2).
  set (tok := (span (not_delim ds) s1).1). set (rest := (span (not_delim ds) s1).2).
  assert (s = lead ++ tok ++ rest) as Es by (unfold tok, rest; rewrite span_app; symmetry; apply span_app).
  case_bool_decide as Ht; [by exists [], m|].
  pose proof (zlen_nonneg lead) as Hl0. pose proof (zlen_nonneg tok) as Ht0. pose proof (zlen_nonneg rest) as Hr0.
  assert (zlen s = zlen lead + zlen tok + zlen rest) as Hlen by (rewrite Es, !zlen_app; lia).
  rewrite Es in Hs. pose proof (string_drop m a lead _ Hs) as Htok. pose proof (string_drop m _ tok rest Htok) as Hrest.
  set (e := a + zlen lead + zlen tok) in *.
  assert (a + zlen lead =? NULL = false) as Hnn by (apply Z.eqb_neq; unfold NULL; lia).
  destruct rest as [|c rest'] eqn:Er.
  - rewrite Hnn. destruct k as [|k']; [lia|]. cbn [strtok_all]. unfold strtok_r. rewrite !Z.eqb_refl.
    exists [a + zlen lead], m. split_and!; [done| |done]. constructor; [by rewrite app_nil_r in Htok|constructor].
  - rewrite Hnn. rewrite zlen_cons in *. pose proof (zlen_nonneg rest').
    destruct (IH (e + 1) NULL (e + 1) (upd m e 0) rest') as (ps & m' & E & Hps & Hfr); try done.
    + lia.
    + eapply string_frame; [|apply Hrest]. intros x Hx. apply upd_ne. lia.
    + eapply string_frame; [|apply Hd]. intros x Hx. apply upd_ne. lia.
    + lia.
    + rewrite Es, !length_app in Hf1. cbn [length] in Hf1. lia.
    + rewrite Es, !length_app in Hk. cbn [length] in Hk. lia.
    + rewrite E. exists (a + zlen lead :: ps), m'. split_and!; [done| |].
      * constructor; [|done]. eapply string_frame; [|apply (string_cut m (a + zlen lead) tok (c :: rest') Htok)]. fold e.
        intros x Hx. apply Hfr. lia.
      * intros x Hx. rewrite Hfr by lia. apply upd_ne. lia.
Qed.

(** Calling [strtok_r] on a string until it returns [NULL] gives, in order, pointers to
    exactly the maximal runs of bytes that are not delimiters, each of them a
    terminated string in the memory after the last call; nothing outside the string
    is changed. *)
Theorem strtok_fields (fuel : nat) (ds s : list Z) (a d save : Z) (m : mem) :
  0 < a -> string_at m a s -> string_at m d ds -> d + zlen ds < a \/ a + zlen s <= d ->
  (length s < fuel)%nat -> (length ds < fuel)%nat ->
  exists ps m', strtok_all (length s + 2) fuel a d save m = Some (ps, m') /\ Forall2 (string_at m') ps (fields ds s) /\
    forall x, ~ (a <= x < a + zlen s) -> m' x = m x.
Proof.
  intros Ha Hs Hd Hdis Hf1 Hf2. apply strtok_all_spec; try done; [|lia]. by rewrite (proj2 (Z.eqb_neq a NULL)) by (unfold NULL; lia).
Qed.

(** "a,,b" with the delimiter ",". *)
Definition demo_list : mem :=
  fun a => if a =? 100 then 97 else if (a =? 101) || (a =? 102) || (a =? 50) then 44 else if a =? 103 then 98 else 0.

Lemma strtok_fields_witness :
  exists m', strtok_all 6 6 100 50 0 demo_list = Some ([100; 103], m') /\ string_at m' 100 [97] /\ string_at m' 103 [98].
Proof.
  destruct (strtok_fields 6 [44] [97; 44; 44; 98] 100 50 0 demo_list) as (ps & m' & E & Hps & _);
    [lia|repeat split; done|repeat split; done|left; done|cbn; lia|cbn; lia|].
  change (length [97; 44; 44; 98] + 2)%nat with 6%nat in E. exists m'.
  change (fields [44] [97; 44; 44; 98]) with [[97]; [98]] in Hps.
  assert (ps = [100; 103]) as -> by (apply (f_equal (option_map fst)) in E; vm_compute in E; congruence).
  split; [done|]. apply Forall2_cons in Hps as [H1 H2]. apply Forall2_cons in H2 as [H2 _]. done.
Defined.

End CString.
