(* ===== verification/CStdlib.v ===== *)
(** * Numbers, sorting and the environment (src/lib/stdlib.c)

    [Module CStdlib]: conversion of numbers, [qsort] and [bsearch], the pseudo-random
    generator and the environment variables.  Memory is that of CString.v.  The
    comparison function of [qsort] and [bsearch] is a parameter; a [long] has 32 bits.
    Pointers inside an array are not reduced: an array does not wrap around the address
    space. *)

From S2P Require Import Prelude CString.

Module CStdlib.
Import CString.

(** ** Numbers *)

Definition is_space (c : Z) : bool := (c =? 32) || (c =? 9) || (c =? 10) || (c =? 13).

Fixpoint skip_space (fuel : nat) (p : Z) (m : mem) : option Z :=
  match fuel with
  | O => None
  | S fuel => if is_space (m p) then skip_space fuel (p + 1) m else Some p
  end.

(** The optional sign: its value and the place after it. *)
Definition read_sign (p : Z) (m : mem) : Z * Z :=
  if m p =? 45 then (-1, p + 1) else if m p =? 43 then (1, p + 1) else (1, p).

(** [while (c >= '0' && c <= '9') result = result * 10 + (c - '0')]; a [char] above 127 is negative. *)
Fixpoint decimal_loop (fuel : nat) (p result : Z) (m : mem) : option (Z * Z) :=
  match fuel with
  | O => None
  | S fuel =>
      let c := schar (m p) in
      if (48 <=? c) && (c <=? 57) then decimal_loop fuel (p + 1) (s32 (s32 (result * 10) + (c - 48))) m
      else Some (result, p)
  end.

Definition atoi (fuel : nat) (str : Z) (m : mem) : option Z :=
  match skip_space fuel str m with
  | None => None
  | Some p =>
      let '(sgn, p) := read_sign p m in
      match decimal_loop fuel p 0 m with Some (r, _) => Some (s32 (sgn * r)) | None => None end
  end.

Definition atol (fuel : nat) (str : Z) (m : mem) : option Z := atoi fuel str m.

(** The value of a digit, [None] for another [char]. *)
Definition digit_of (c : Z) : option Z :=
  if (48 <=? c) && (c <=? 57) then Some (c - 48)
  else if (97 <=? c) && (c <=? 122) then Some (c - 97 + 10)
  else if (65 <=? c) && (c <=? 90) then Some (c - 65 + 10)
  else None.

(** The digit loop of [strtol] and [strtoul]; [wrap] is the width of the result. *)
Fixpoint digits_loop (wrap : Z -> Z) (fuel : nat) (p base result : Z) (m : mem) : option (Z * Z) :=
  match fuel with
  | O => None
  | S fuel =>
      if c_true (m p) then
        match digit_of (schar (m p)) with
        | None => Some (result, p)
        | Some d =>
            if base <=? d then Some (result, p)
            else digits_loop wrap fuel (p + 1) base (wrap (wrap (result * base) + d)) m
        end
      else Some (result, p)
  end.

(** The base and the place of the first digit. *)
Definition detect_base (p base : Z) (m : mem) : Z * Z :=
  let x := (m (p + 1) =? 120) || (m (p + 1) =? 88) in
  if base =? 0 then
    if m p =? 48 then if x then (16, p + 2) else (8, p + 1) else (10, p)
  else if base =? 16 then if (m p =? 48) && x then (base, p + 2) else (base, p)
  else (base, p).

(** The value and [*endptr]. *)
Definition strtol (fuel : nat) (str base : Z) (m : mem) : option (Z * Z) :=
  match skip_space fuel str m with
  | None => None
  | Some p =>
      let '(sgn, p) := read_sign p m in
      let '(base, p) := detect_base p base m in
      match digits_loop s32 fuel p base 0 m with Some (r, e) => Some (s32 (sgn * r), e) | None => None end
  end.

Definition strtoul (fuel : nat) (str base : Z) (m : mem) : option (Z * Z) :=
  match skip_space fuel str m with
  | None => None
  | Some p =>
      let p := if m p =? 43 then p + 1 else p in
      let '(base, p) := detect_base p base m in
      digits_loop u32 fuel p base 0 m
  end.

Definition digit_char (d : Z) : Z := if d <? 10 then 48 + d else 97 + d - 10.

(** [while (value > 0)]: the digits from the lowest; the buffer has 33 places. *)
Fixpoint digits (fuel : nat) (value base : Z) : list Z :=
  match fuel with
  | O => []
  | S fuel => if value =? 0 then [] else digit_char (value mod base) :: digits fuel (value / base) base
  end.

Definition digit_buffer (value base : Z) : list Z := if value =? 0 then [48] else digits 33 value base.

Fixpoint write_bytes (p : Z) (l : list Z) (m : mem) : mem :=
  match l with [] => m | c :: l => write_bytes (p + 1) l (upd m p c) end.

Definition utoa (value str base : Z) (m : mem) : Z * mem :=
  if (base <? 2) || (36 <? base) then (str, upd m str 0)
  else (str, write_bytes str (reverse (digit_buffer value base) ++ [0]) m).

Definition itoa (value str base : Z) (m : mem) : Z * mem :=
  if (base <? 2) || (36 <? base) then (str, upd m str 0)
  else
    let negative := (value <? 0) && (base =? 10) in
    let uv := if negative then u32 (u32 (s32 (- (value + 1))) + 1) else u32 value in
    (str, write_bytes str ((if negative then [45] else []) ++ reverse (digit_buffer uv base) ++ [0]) m).

Definition abs (n : Z) : Z := if n <? 0 then s32 (- n) else n.
Definition labs (n : Z) : Z := if n <? 0 then s32 (- n) else n.

Definition srand (seed : Z) : Z := u32 seed.
Definition rand (rand_seed : Z) : Z * Z :=
  let s := u32 (u32 (rand_seed * 1103515245) + 12345) in (Z.land (Z.shiftr s 16) 32767, s).

(** ** Sorting *)

Fixpoint swap_bytes (n : nat) (pa pb : Z) (m : mem) : mem :=
  match n with
  | O => m
  | S n => let tmp := m pa in swap_bytes n (pa + 1) (pb + 1) (upd (upd m pa (m pb)) pb tmp)
  end.

Section sorting.
Context (compar : mem -> Z -> Z -> Z) (size : Z).

(** The partition loop: [i] and the memory after the rounds for [j]. *)
Definition partition_step (arr pivot : Z) (st : Z * mem) (j : Z) : Z * mem :=
  let '(i, m) := st in
  if compar m (arr + j * size) pivot <=? 0
  then (i + 1, swap_bytes (Z.to_nat size) (arr + i * size) (arr + j * size) m) else (i, m).

Fixpoint qsort (fuel : nat) (arr nmemb : Z) (m : mem) : option mem :=
  if nmemb <=? 1 then Some m
  else
    match fuel with
    | O => None
    | S fuel =>
        let pivot := arr + (nmemb - 1) * size in
        let '(i, m1) := foldl (partition_step arr pivot) (0, m) (range 0 (nmemb - 1)) in
        let m2 := swap_bytes (Z.to_nat size) (arr + i * size) pivot m1 in
        match qsort fuel arr i m2 with
        | None => None
        | Some m3 => qsort fuel (arr + (i + 1) * size) (nmemb - i - 1) m3
        end
    end.

Fixpoint bsearch_loop (fuel : nat) (key arr lo hi : Z) (m : mem) : option Z :=
  match fuel with
  | O => None
  | S fuel =>
      if lo <? hi then
        let mid := lo + (hi - lo) / 2 in
        let elem := arr + mid * size in
        let cmp := compar m key elem in
        if cmp =? 0 then Some elem
        else if cmp <? 0 then bsearch_loop fuel key arr lo mid m
        else bsearch_loop fuel key arr (mid + 1) hi m
      else Some NULL
  end.

Definition bsearch (key base nmemb : Z) (m : mem) : option Z :=
  if (key =? NULL) || (base =? NULL) || (nmemb =? 0) || (size =? 0) then Some NULL
  else bsearch_loop 33 key base 0 nmemb m.

End sorting.

(** ** Environment variables *)

Definition MAX_ENV_VARS : Z := 64.
Definition MAX_ENV_LEN : Z := 256.

(** The strings of [env_storage] and, for each [env_ptrs], the storage it points to. *)
Record env := mk_env { env_storage : list (list Z); env_ptrs : list (option Z); env_count : Z }.

Definition env_empty : env := mk_env (replicate 64 []) (replicate 65 None) 0.

Definition env_at (e : env) (i : Z) : list Z :=
  match (env_ptrs e).[i] with Some k => (env_storage e).[k] | None => [] end.

(** The entry [name=...]: [strncmp] with the name is 0 and the next byte is [=]. *)
Definition env_is (name entry : list Z) : bool :=
  bool_decide (take (length name) entry = name) && (nth (length name) entry 0 =? 61).

Definition env_find (name : list Z) (e : env) : option Z :=
  List.find (fun i => env_is name (env_at e i)) (range 0 (env_count e)).

(** [snprintf(buf, MAX_ENV_LEN, "%s=%s", name, value)]. *)
Definition env_entry (name value : list Z) : list Z := take (Z.to_nat (MAX_ENV_LEN - 1)) (name ++ [61] ++ value).

(** A null name or value is [None]. *)
Definition setenv (name value : option (list Z)) (overwrite : bool) (e : env) : Z * env :=
  match name, value with
  | Some name, Some value =>
      match env_find name e with
      | Some i =>
          if negb overwrite then (0, e)
          else (0, mk_env ((env_storage e).[i <- env_entry name value]) ((env_ptrs e).[i <- Some i]) (env_count e))
      | None =>
          if MAX_ENV_VARS <=? env_count e then (-1, e)
          else
            let n := env_count e in
            (0, mk_env ((env_storage e).[n <- env_entry name value]) (((env_ptrs e).[n <- Some n]).[n + 1 <- None]) (n + 1))
      end
  | _, _ => (-1, e)
  end.

Definition unsetenv (name : option (list Z)) (e : env) : Z * env :=
  match name with
  | None => (-1, e)
  | Some name =>
      match env_find name e with
      | Some i =>
          let n := env_count e - 1 in
          (0, mk_env (env_storage e) (((env_ptrs e).[i <- (env_ptrs e).[n]]).[n <- None]) n)
      | None => (0, e)
      end
  end.

(** ** Multibyte characters *)

Definition mbtowc (s n : Z) (m : mem) : option Z * Z :=
  if (s =? NULL) || (n =? 0) then (None, 0) else if m s =? 0 then (None, 0) else (Some (m s), 1).

Definition wctomb (s w : Z) (m : mem) : Z * mem :=
  if s =? NULL then (0, m)
  else if w <? 128 then (1, upd m s (u8 w))
  else if w <? 2048 then
    (2, upd (upd m s (u8 (Z.lor 192 (Z.land (Z.shiftr w 6) 31)))) (s + 1) (u8 (Z.lor 128 (Z.land w 63))))
  else if w <? 65536 then
    (3, upd (upd (upd m s (u8 (Z.lor 224 (Z.land (Z.shiftr w 12) 15)))) (s + 1)
               (u8 (Z.lor 128 (Z.land (Z.shiftr w 6) 63)))) (s + 2) (u8 (Z.lor 128 (Z.land w 63))))
  else
    (4, upd (upd (upd (upd m s (u8 (Z.lor 240 (Z.land (Z.shiftr w 18) 7)))) (s + 1)
                    (u8 (Z.lor 128 (Z.land (Z.shiftr w 12) 63)))) (s + 2)
               (u8 (Z.lor 128 (Z.land (Z.shiftr w 6) 63)))) (s + 3) (u8 (Z.lor 128 (Z.land w 63)))).

(** ** Sorting is correct *)

Lemma swap_bytes_spec (n : nat) (pa pb : Z) (m : mem) (x : Z) :
  pa = pb \/ pa + Z.of_nat n <= pb \/ pb + Z.of_nat n <= pa ->
  swap_bytes n pa pb m x =
    if (pa <=? x) && (x <? pa + Z.of_nat n) then m (pb + (x - pa))
    else if (pb <=? x) && (x <? pb + Z.of_nat n) then m (pa + (x - pb)) else m x.
Proof.
  revert pa pb m. induction n as [|n IH]; intros pa pb m Hd; cbn [swap_bytes].
  - replace ((pa <=? x) && (x <? pa + Z.of_nat 0)) with false by bsolve.
    by replace ((pb <=? x) && (x <? pb + Z.of_nat 0)) with false by bsolve.
  - rewrite IH by lia. destruct (decide (x = pa)) as [->|Ha].
    + bnorm. rewrite Z.sub_diag, Z.add_0_r. destruct (decide (pa = pb)) as [->|Hab].
      * bnorm. by rewrite upd_eq.
      * destruct (decide (pb + 1 <= pa < pb + 1 + Z.of_nat n)); [lia|].
        replace ((pb + 1 <=? pa) && (pa <? pb + 1 + Z.of_nat n)) with false by bsolve.
        by rewrite upd_ne, upd_eq by done.
    + destruct (decide (pa + 1 <= x < pa + 1 + Z.of_nat n)) as [Hx|Hx].
      * bnorm. replace (pb + 1 + (x - (pa + 1))) with (pb + (x - pa)) by lia. destruct Hd as [->|Hd].
        -- rewrite upd_ne by lia. rewrite upd_ne by lia. done.
        -- rewrite upd_ne by lia. by rewrite upd_ne by lia.
      * replace ((pa + 1 <=? x) && (x <? pa + 1 + Z.of_nat n)) with false by bsolve.
        replace ((pa <=? x) && (x <? pa + Z.of_nat (S n))) with false by bsolve.
        destruct (decide (x = pb)) as [->|Hb].
        -- bnorm. rewrite upd_eq, Z.sub_diag, Z.add_0_r. done.
        -- replace ((pb + 1 <=? x) && (x <? pb + 1 + Z.of_nat n)) with ((pb <=? x) && (x <? pb + Z.of_nat (S n))) by bsolve.
           destruct (_ && _) eqn:E; [zbool|by rewrite !upd_ne by done].
           rewrite upd_ne by lia. rewrite upd_ne by lia. f_equal. lia.
Qed.

(** Exchanging two places of a sequence is a permutation of it. *)
Lemma perm_swap {A} (f g : Z -> A) (i j n : Z) :
  0 <= i <= j -> j < n -> g i = f j -> g j = f i -> (forall k, k <> i -> k <> j -> g k = f k) ->
  (g <$> range 0 n) ≡ₚ (f <$> range 0 n).
Proof.
  intros Hij Hjn Hi Hj Hk. destruct (decide (i = j)) as [->|Hne].
  - apply reflexive_eq, list_fmap_ext. intros k x _. destruct (decide (x = j)) as [->|]; [done|by apply Hk].
  - assert (forall lo hi, hi <= i \/ i < lo -> hi <= j \/ j < lo -> g <$> range lo hi = f <$> range lo hi) as Hseg.
    { intros lo hi H1 H2. apply Forall_fmap_ext_1, Forall_forall. intros x Hx%elem_of_range. apply Hk; lia. }
    rewrite (range_app 0 i n) by lia. rewrite (range_cons i n) by lia. rewrite (range_app (i + 1) j n) by lia. rewrite (range_cons j n) by lia.
    rewrite !fmap_app, !fmap_cons, !fmap_app, !fmap_cons, Hi, Hj.
    rewrite (Hseg 0 i), (Hseg (i + 1) j), (Hseg (j + 1) n) by lia. solve_Permutation.
Qed.

Section sorted.
Context (compar : mem -> Z -> Z -> Z) (size : Z) (cmp : list Z -> list Z -> Z).
Hypothesis Hsize : 0 < size.

(** The bytes of an element and the elements of an array. *)
Definition block (m : mem) (p : Z) : list Z := (fun i => m (p + i)) <$> range 0 size.
Definition elements (m : mem) (base n : Z) : list (list Z) := (fun k => block m (base + k * size)) <$> range 0 n.

(** The comparison looks at the contents only, and orders them. *)
Hypothesis Hcompar : forall m p q, compar m p q = cmp (block m p) (block m q).
Hypothesis Htotal : forall a b, cmp a b <= 0 \/ cmp b a <= 0.
Hypothesis Htrans : forall a b c, cmp a b <= 0 -> cmp b c <= 0 -> cmp a c <= 0.

Lemma block_ext (m m' : mem) (p q : Z) :
  (forall i, 0 <= i < size -> m' (p + i) = m (q + i)) -> block m' p = block m q.
Proof. intros H. unfold block. apply Forall_fmap_ext_1, Forall_forall. intros i Hi%elem_of_range. by apply H. Qed.

(** Outside [[lo, hi)] the memory is the same. *)
Definition same_outside (m m' : mem) (lo hi : Z) : Prop := forall x, x < lo \/ hi <= x -> m' x = m x.

Lemma swap_blocks (m : mem) (base i j n : Z) :
  0 <= i <= j -> j < n ->
  let m' := swap_bytes (Z.to_nat size) (base + i * size) (base + j * size) m in
  (forall k, block m' (base + k * size) =
     if k =? i then block m (base + j * size) else if k =? j then block m (base + i * size) else block m (base + k * size)) /\
  same_outside m m' base (base + n * size).
Proof using Hsize.
  intros Hij Hjn m'.
  assert (forall x, m' x = if (base + i * size <=? x) && (x <? base + i * size + size) then m (base + j * size + (x - (base + i * size)))
    else if (base + j * size <=? x) && (x <? base + j * size + size) then m (base + i * size + (x - (base + j * size))) else m x) as Hm.
  { intros x. unfold m'. rewrite swap_bytes_spec, Z2Nat.id; [done|lia|]. rewrite Z2Nat.id by lia.
    destruct (decide (i = j)) as [->|]; [by left|right; left; nia]. }
  split.
  - intros k. destruct (Z.eqb_spec k i) as [->|Hki]; [|destruct (Z.eqb_spec k j) as [->|Hkj] ]; apply block_ext; intros b Hb; rewrite Hm.
    + bnorm. f_equal. lia.
    + replace ((base + i * size <=? base + j * size + b) && (base + j * size + b <? base + i * size + size)) with false by (symmetry; apply andb_false_iff; rewrite Z.leb_gt, Z.ltb_ge; nia).
      bnorm. f_equal. lia.
    + replace ((base + i * size <=? base + k * size + b) && (base + k * size + b <? base + i * size + size)) with false
        by (symmetry; apply andb_false_iff; rewrite Z.leb_gt, Z.ltb_ge; nia).
      by replace ((base + j * size <=? base + k * size + b) && (base + k * size + b <? base + j * size + size)) with false
        by (symmetry; apply andb_false_iff; rewrite Z.leb_gt, Z.ltb_ge; nia).
  - intros x Hx. rewrite Hm.
    replace ((base + i * size <=? x) && (x <? base + i * size + size)) with false by (symmetry; apply andb_false_iff; rewrite Z.leb_gt, Z.ltb_ge; nia).
    by replace ((base + j * size <=? x) && (x <? base + j * size + size)) with false by (symmetry; apply andb_false_iff; rewrite Z.leb_gt, Z.ltb_ge; nia).
Qed.

Lemma swap_elements (m : mem) (base i j n : Z) :
  0 <= i <= j -> j < n ->
  elements (swap_bytes (Z.to_nat size) (base + i * size) (base + j * size) m) base n ≡ₚ elements m base n.
Proof using Hsize.
  intros Hij Hjn. destruct (swap_blocks m base i j n Hij Hjn) as [Hb _].
  apply (perm_swap (fun k => block m (base + k * size)) _ i j n Hij Hjn); cbv beta.
  - by rewrite Hb, Z.eqb_refl.
  - rewrite Hb, Z.eqb_refl. by destruct (Z.eqb_spec j i) as [->|].
  - intros k H1 H2. by rewrite Hb, (proj2 (Z.eqb_neq k i) H1), (proj2 (Z.eqb_neq k j) H2).
Qed.

(** What the partition loop keeps. *)
Record parted (m0 : mem) (base n : Z) (pv : list Z) (j i : Z) (m : mem) : Prop := {
  pt_bounds : 0 <= i <= j;
  pt_low : forall k, 0 <= k < i -> cmp (block m (base + k * size)) pv <= 0;
  pt_high : forall k, i <= k < j -> 0 < cmp (block m (base + k * size)) pv;
  pt_pivot : block m (base + (n - 1) * size) = pv;
  pt_perm : elements m base n ≡ₚ elements m0 base n;
  pt_same : same_outside m0 m base (base + n * size) }.

Lemma parted_step (m0 m : mem) (base n j i : Z) (pv : list Z) :
  j < n - 1 -> parted m0 base n pv j i m ->
  let '(i', m') := partition_step compar size base (base + (n - 1) * size) (i, m) j in parted m0 base n pv (j + 1) i' m'.
Proof using Hsize Hcompar.
  intros Hj [Hb Hlo Hhi Hpv Hp Hs]. unfold partition_step. rewrite Hcompar, Hpv.
  destruct (Z.leb_spec (cmp (block m (base + j * size)) pv) 0) as [Hc|Hc].
  - destruct (swap_blocks m base i j n) as [Hbl Hso]; [lia|lia|]. split; [lia| | | | |].
    + intros k Hk. rewrite Hbl. destruct (Z.eqb_spec k i); [done|]. destruct (Z.eqb_spec k j); [lia|]. apply Hlo. lia.
    + intros k Hk. rewrite Hbl. destruct (Z.eqb_spec k i); [lia|]. destruct (Z.eqb_spec k j); apply Hhi; lia.
    + rewrite Hbl. destruct (Z.eqb_spec (n - 1) i); [lia|]. destruct (Z.eqb_spec (n - 1) j); [lia|]. done.
    + etransitivity; [apply swap_elements; lia|done].
    + intros x Hx. rewrite Hso by done. by apply Hs.
  - split; try done; [lia|]. intros k Hk. destruct (decide (k = j)) as [->|]; [done|]. apply Hhi. lia.
Qed.

Lemma partition_loop (m0 : mem) (base n : Z) (k : nat) :
  Z.of_nat k <= n - 1 ->
  let '(i, m) := foldl (partition_step compar size base (base + (n - 1) * size)) (0, m0) (range 0 (Z.of_nat k)) in
  parted m0 base n (block m0 (base + (n - 1) * size)) (Z.of_nat k) i m.
Proof using Hsize Hcompar.
  induction k as [|k IH]; intros Hk.
  - rewrite range_nil by lia. cbn [foldl]. split; [lia|lia|lia|done|done|done].
  - rewrite foldl_range_S. specialize (IH ltac:(lia)). destruct (foldl _ _ _) as [i m].
    pose proof (parted_step m0 m base n (Z.of_nat k) i _ ltac:(lia) IH) as H.
    destruct (partition_step _ _ _ _ (i, m) (Z.of_nat k)) as [i' m']. by replace (Z.of_nat (S k)) with (Z.of_nat k + 1) by lia.
Qed.

Lemma elements_split (m : mem) (base n i : Z) :
  0 <= i < n ->
  elements m base n = elements m base i ++ block m (base + i * size) :: elements m (base + (i + 1) * size) (n - i - 1).
Proof.
  intros Hi. unfold elements. rewrite (range_app 0 i n), (range_cons i n), fmap_app, fmap_cons by lia. do 2 f_equal.
  unfold range. replace (i + 1) with (i + 1 + 0) at 1 by lia. rewrite <-fmap_add_seqZ, <-list_fmap_compose.
  replace (n - (i + 1)) with (n - i - 1 - 0) by lia. apply list_fmap_ext. intros k x _. cbn. f_equal. lia.
Qed.

Lemma elem_of_elements (m : mem) (base n : Z) (x : list Z) :
  x ∈ elements m base n <-> exists k, 0 <= k < n /\ x = block m (base + k * size).
Proof.
  unfold elements. rewrite list_elem_of_fmap. setoid_rewrite elem_of_range. split; intros (k & H1 & H2); exists k; auto.
Qed.

Lemma elements_same (m m' : mem) (lo hi base n : Z) :
  same_outside m m' lo hi -> base + n * size <= lo \/ hi <= base -> elements m' base n = elements m base n.
Proof using Hsize.
  intros Hs Hd. unfold elements. apply Forall_fmap_ext_1, Forall_forall. intros k Hk%elem_of_range.
  apply block_ext. intros b Hb. apply Hs. nia.
Qed.

Definition in_order (l : list (list Z)) : Prop := StronglySorted (fun a b => cmp a b <= 0) l.

Lemma in_order_app (l k : list (list Z)) :
  in_order l -> in_order k -> (forall a b, a ∈ l -> b ∈ k -> cmp a b <= 0) -> in_order (l ++ k).
Proof.
  intros Hl Hk Hlk. induction Hl as [|a l Hl IH Ha]; [done|]. cbn [app]. constructor.
  - apply IH. intros x y Hx. apply Hlk. by right.
  - apply Forall_app. split; [done|]. apply Forall_forall. intros y Hy. apply Hlk; [by left|done].
Qed.

(** The state after the partition and the last exchange: the pivot at its place. *)
Lemma partition_done (m : mem) (base n : Z) :
  1 < n ->
  let '(i, m1) := foldl (partition_step compar size base (base + (n - 1) * size)) (0, m) (range 0 (n - 1)) in
  let m2 := swap_bytes (Z.to_nat size) (base + i * size) (base + (n - 1) * size) m1 in
  let pv := block m2 (base + i * size) in
  0 <= i < n /\ elements m2 base n ≡ₚ elements m base n /\ same_outside m m2 base (base + n * size) /\
  (forall x, x ∈ elements m2 base i -> cmp x pv <= 0) /\
  (forall x, x ∈ elements m2 (base + (i + 1) * size) (n - i - 1) -> cmp pv x <= 0).
Proof using Hsize Hcompar Htotal.
  intros Hn. pose proof (partition_loop m base n (Z.to_nat (n - 1)) ltac:(lia)) as H. rewrite Z2Nat.id in H by lia.
  destruct (foldl _ _ _) as [i m1]. destruct H as [Hb Hlo Hhi Hpv Hp Hs]. cbv zeta.
  destruct (swap_blocks m1 base i (n - 1) n) as [Hbl Hso]; [lia|lia|].
  set (m2 := swap_bytes _ _ _ _) in *. assert (block m2 (base + i * size) = block m (base + (n - 1) * size)) as ->.
  { rewrite Hbl, Z.eqb_refl. done. }
  split_and!; [lia|lia| | | |].
  - etransitivity; [apply swap_elements; lia|done].
  - intros x Hx. rewrite Hso by done. by apply Hs.
  - intros x (k & Hk & ->)%elem_of_elements. rewrite Hbl. destruct (Z.eqb_spec k i); [lia|]. destruct (Z.eqb_spec k (n - 1)); [lia|].
    apply Hlo. lia.
  - intros x (k & Hk & ->)%elem_of_elements. replace (base + (i + 1) * size + k * size) with (base + (i + 1 + k) * size) by lia.
    rewrite Hbl. destruct (Z.eqb_spec (i + 1 + k) i); [lia|].
    assert (forall q, i <= q < n - 1 -> cmp (block m (base + (n - 1) * size)) (block m1 (base + q * size)) <= 0) as Hq.
    { intros q Hq. specialize (Hhi q Hq). destruct (Htotal (block m (base + (n - 1) * size)) (block m1 (base + q * size))); lia. }
    destruct (Z.eqb_spec (i + 1 + k) (n - 1)); apply Hq; lia.
Qed.

Lemma qsort_correct (fuel : nat) (m : mem) (base n : Z) :
  n <= Z.of_nat fuel ->
  exists m', qsort compar size fuel base n m = Some m' /\ in_order (elements m' base n) /\
    elements m' base n ≡ₚ elements m base n /\ same_outside m m' base (base + n * size).
Proof using Hsize Hcompar Htotal Htrans.
  revert m base n. induction fuel as [|fuel IH]; intros m base n Hf.
  - exists m. cbn [qsort]. rewrite (proj2 (Z.leb_le n 1)) by lia. split_and!; [done| |done|done].
    unfold elements. rewrite range_nil by lia. constructor.
  - cbn [qsort]. destruct (Z.leb_spec n 1) as [H1|H1].
    + exists m. split_and!; [done| |done|done]. unfold elements. destruct (decide (n <= 0)); [rewrite range_nil by lia; constructor|].
      rewrite (range_cons 0 n), (range_nil (0 + 1)) by lia. repeat constructor.
    + pose proof (partition_done m base n H1) as Hpart. destruct (foldl _ _ _) as [i m1]. cbv zeta in Hpart.
      set (m2 := swap_bytes _ _ _ m1) in *. destruct Hpart as (Hi & Hp2 & Hs2 & Hlo & Hhi).
      destruct (IH m2 base i ltac:(lia)) as (m3 & E3 & Ho3 & Hp3 & Hs3). rewrite E3.
      destruct (IH m3 (base + (i + 1) * size) (n - i - 1) ltac:(lia)) as (m4 & E4 & Ho4 & Hp4 & Hs4). exists m4.
      assert (elements m4 base i = elements m3 base i) as Eq1 by (apply (elements_same m3 m4 _ _ _ _ Hs4); nia).
      assert (elements m3 (base + (i + 1) * size) (n - i - 1) = elements m2 (base + (i + 1) * size) (n - i - 1)) as Eq2
        by (apply (elements_same m2 m3 _ _ _ _ Hs3); nia).
      assert (block m4 (base + i * size) = block m2 (base + i * size)) as Eq3.
      { apply block_ext. intros b Hb. rewrite Hs4 by nia. apply Hs3. nia. }
      rewrite Eq2 in Hp4. split_and!; [done| | |].
      * rewrite (elements_split m4 base n i) by lia. rewrite Eq1, Eq3. apply in_order_app; [done| |].
        -- constructor; [done|]. apply Forall_forall. intros x Hx. apply Hhi. by rewrite <-Hp4.
        -- intros a b Ha Hb. rewrite Hp3 in Ha. apply Hlo in Ha. apply elem_of_cons in Hb as [->|Hb]; [done|].
           rewrite Hp4 in Hb. by apply Hhi in Hb; eapply Htrans.
      * rewrite (elements_split m4 base n i) by lia. rewrite Eq1, Eq3, Hp4, Hp3, <-Hp2. by rewrite (elements_split m2 base n i) by lia.
      * intros x Hx. rewrite Hs4 by nia. rewrite Hs3 by nia. by apply Hs2.
Qed.

End sorted.

(** C38: [qsort] sorts: whatever the element size and the comparison function, as long as it
    compares the contents of the elements by a total preorder, the call returns with
    the same elements in ascending order and with the memory around the array
    untouched. *)
Theorem qsort_sorts (compar : mem -> Z -> Z -> Z) (size : Z) (cmp : list Z -> list Z -> Z) (m : mem) (base n : Z) :
  0 < size -> (forall m p q, compar m p q = cmp (block size m p) (block size m q)) ->
  (forall a b, cmp a b <= 0 \/ cmp b a <= 0) -> (forall a b c, cmp a b <= 0 -> cmp b c <= 0 -> cmp a c <= 0) ->
  exists m', qsort compar size (Z.to_nat n) base n m = Some m' /\ in_order cmp (elements size m' base n) /\
    elements size m' base n ≡ₚ elements size m base n /\ same_outside m m' base (base + n * size).
Proof. intros H1 H2 H3 H4. apply qsort_correct; try done. lia. Qed.

(** Bytes 3 1 2 at 100, compared as bytes. *)
Definition demo_bytes : mem := fun a => if a =? 100 then 3 else if a =? 101 then 1 else if a =? 102 then 2 else 0.

Lemma qsort_sorts_witness :
  exists m', qsort (fun m p q => m p - m q) 1 3 100 3 demo_bytes = Some m' /\ elements 1 m' 100 3 = [[1]; [2]; [3]].
Proof.
  destruct (qsort_sorts (fun m p q => m p - m q) 1 (fun a b => List.hd 0 a - List.hd 0 b) demo_bytes 100 3) as (m' & E & _ & Hp & _).
  - lia.
  - intros m p q. unfold block. change (range 0 1) with [0]. cbn [fmap list_fmap List.hd]. by rewrite !Z.add_0_r.
  - intros a b. lia.
  - intros a b c. lia.
  - change (Z.to_nat 3) with 3%nat in E. exists m'. split; [done|].
    assert (option_map (fun m' => elements 1 m' 100 3) (qsort (fun m p q => m p - m q) 1 3 100 3 demo_bytes) = Some [[1]; [2]; [3]]) as H
      by reflexivity.
    rewrite E in H. cbn [option_map] in H. congruence.
Defined.

(** ** Binary search *)

Section bsearch_proof.
Context (compar : mem -> Z -> Z -> Z) (size key base n : Z) (m : mem).
Definition key_cmp (k : Z) : Z := compar m key (base + k * size).

(** The array is sorted with respect to the key. *)
Hypothesis Hlt : forall k l, 0 <= k < l -> l < n -> key_cmp k < 0 -> key_cmp l < 0.
Hypothesis Hgt : forall k l, 0 <= k < l -> l < n -> 0 < key_cmp l -> 0 < key_cmp k.

Lemma bsearch_loop_spec (f : nat) (lo hi : Z) :
  0 <= lo <= hi -> hi <= n -> hi - lo < 2 ^ Z.of_nat f ->
  (forall k, 0 <= k < lo -> 0 < key_cmp k) -> (forall k, hi <= k < n -> key_cmp k < 0) ->
  exists p, bsearch_loop compar size (S f) key base lo hi m = Some p /\
    ((exists k, 0 <= k < n /\ p = base + k * size /\ key_cmp k = 0) \/ (p = NULL /\ forall k, 0 <= k < n -> key_cmp k <> 0)).
Proof using Hlt Hgt.
  revert lo hi. induction f as [|f IH]; intros lo hi Hb Hn Hw Hlo Hhi.
  - change (2 ^ Z.of_nat 0) with 1 in Hw. assert (lo = hi) as -> by lia. cbn [bsearch_loop]. rewrite Z.ltb_irrefl. exists NULL. split; [done|].
    right. split; [done|]. intros k Hk. destruct (Z.lt_ge_cases k hi); [specialize (Hlo k)|specialize (Hhi k)]; lia.
  - replace (Z.of_nat (S f)) with (1 + Z.of_nat f) in Hw by lia. rewrite Z.pow_add_r in Hw by lia. change (2 ^ 1) with 2 in Hw.
    remember (S f) as g. cbn [bsearch_loop]. subst g. cbv zeta. destruct (Z.ltb_spec lo hi) as [Hlt'|Hge].
    2: { exists NULL. split; [done|]. right. split; [done|]. intros k Hk.
         destruct (Z.lt_ge_cases k hi); [specialize (Hlo k)|specialize (Hhi k)]; lia. }
    set (mid := lo + (hi - lo) / 2). assert (lo <= mid < hi /\ mid - lo <= (hi - lo) / 2 /\ hi - (mid + 1) <= (hi - lo) / 2) as (Hm & Hm1 & Hm2)
      by (unfold mid; dlia).
    assert ((hi - lo) / 2 < 2 ^ Z.of_nat f) by (apply Z.div_lt_upper_bound; lia). change (compar m key (base + mid * size)) with (key_cmp mid).
    destruct (Z.eqb_spec (key_cmp mid) 0) as [E|E]; [eexists; split; [done|left; exists mid; split_and!; [lia|lia|done|done] ]|].
    destruct (Z.ltb_spec (key_cmp mid) 0) as [El|El].
    + apply IH; [lia|lia|lia|done|]. intros k Hk. destruct (decide (k = mid)) as [->|]; [done|]. apply (Hlt mid k); lia.
    + apply IH; [lia|lia|lia| |done]. intros k Hk. destruct (decide (k = mid)) as [->|]; [lia|]. apply (Hgt k mid); lia.
Qed.

End bsearch_proof.

(** [bsearch] on an array that is sorted with respect to the key returns a pointer to
    an element equal to the key, and [NULL] exactly when there is none; it makes at
    most 33 rounds on any array of fewer than 2^32 elements. *)
Theorem bsearch_spec (compar : mem -> Z -> Z -> Z) (size key base n : Z) (m : mem) :
  key <> NULL -> 0 < base -> 0 < size -> 0 <= n < 2 ^ 32 ->
  (forall k l, 0 <= k < l -> l < n -> compar m key (base + k * size) < 0 -> compar m key (base + l * size) < 0) ->
  (forall k l, 0 <= k < l -> l < n -> 0 < compar m key (base + l * size) -> 0 < compar m key (base + k * size)) ->
  exists p, bsearch compar size key base n m = Some p /\
    ((exists k, 0 <= k < n /\ p = base + k * size /\ compar m key p = 0) \/
     (p = NULL /\ forall k, 0 <= k < n -> compar m key (base + k * size) <> 0)).
Proof.
  intros Hk Hb Hs Hn Hlt Hgt. unfold bsearch. rewrite (proj2 (Z.eqb_neq key NULL)), (proj2 (Z.eqb_neq base NULL)), (proj2 (Z.eqb_neq size 0))
    by (unfold NULL in *; lia). cbn [orb]. destruct (Z.eqb_spec n 0) as [->|Hn0]; cbn [orb].
  - exists NULL. split; [done|]. right. split; [done|]. intros k Hk'. lia.
  - destruct (bsearch_loop_spec compar size key base n m Hlt Hgt 32 0 n) as (p & E & Hp); [lia|lia|change (Z.of_nat 32) with 32; lia|lia|lia|].
    exists p. split; [exact E|]. destruct Hp as [(k & Hk' & -> & Hc)|[-> Hno] ]; [left; by exists k|by right].
Qed.

(** The byte 2 in the sorted bytes 1 2 3 at 100. *)
Definition demo_sorted : mem := fun a => if a =? 50 then 2 else if a =? 100 then 1 else if a =? 101 then 2 else if a =? 102 then 3 else 0.

Lemma bsearch_spec_witness : exists p, bsearch (fun m p q => m p - m q) 1 50 100 3 demo_sorted = Some p /\ p = 101.
Proof.
  destruct (bsearch_spec (fun m p q => m p - m q) 1 50 100 3 demo_sorted) as (p & E & _); try (unfold NULL; lia).
  1-2: intros k l Hk Hl; assert (k = 0 /\ l = 1 \/ k = 0 /\ l = 2 \/ k = 1 /\ l = 2) as [ [-> ->] | [ [-> ->] | [-> ->] ] ] by lia;
    vm_compute; intros; congruence.
  - exists p. split; [done|]. vm_compute in E. congruence.
Defined.

(** ** Numbers come back *)

Lemma write_below (p x : Z) (l : list Z) (m : mem) : x < p -> write_bytes p l m x = m x.
Proof.
  revert p m. induction l as [|c l IH]; intros p m Hx; cbn [write_bytes]; [done|]. rewrite IH by lia. apply upd_ne. lia.
Qed.

Lemma write_string (p : Z) (s : list Z) (m : mem) :
  Forall (fun c => c <> 0) s -> string_at (write_bytes p (s ++ [0]) m) p s.
Proof.
  intros H. revert p m. induction H as [|c s Hc Hs IH]; intros p m; cbn [app write_bytes string_at]; [apply upd_eq|].
  split_and!; [done| |apply IH]. rewrite write_below by lia. apply upd_eq.
Qed.

(** The value of a digit character. *)
Definition dval (c : Z) : Z := default 0 (digit_of (schar c)).
Definition is_digit (base c : Z) : Prop := 48 <= c <= 122 /\ digit_of (schar c) = Some (dval c) /\ 0 <= dval c < base.

Lemma digit_char_spec (base d : Z) : 0 <= d < base -> base <= 36 -> is_digit base (digit_char d) /\ dval (digit_char d) = d.
Proof.
  intros Hd Hb. unfold is_digit, dval, digit_char. destruct (Z.ltb_spec d 10).
  - assert (schar (48 + d) = 48 + d) as -> by (unfold schar, sign; case_if; dlia).
    assert (digit_of (48 + d) = Some d) as -> by (unfold digit_of; bnorm; f_equal; lia). cbn [default]. unfold id. split_and!; [lia|lia|done|lia|lia|done].
  - assert (schar (97 + d - 10) = 97 + d - 10) as -> by (unfold schar, sign; case_if; dlia).
    assert (digit_of (97 + d - 10) = Some d) as ->.
    { unfold digit_of. replace ((48 <=? 97 + d - 10) && (97 + d - 10 <=? 57)) with false by bsolve. bnorm. f_equal. lia. }
    cbn [default]. unfold id. split_and!; [lia|lia|done|lia|lia|done].
Qed.

(** Reading digits from the left. *)
Definition horner (base r : Z) (s : list Z) : Z := foldl (fun r c => r * base + dval c) r s.

Lemma digits_horner (f : nat) (v base : Z) :
  2 <= base <= 36 -> 0 <= v < 2 ^ Z.of_nat f ->
  horner base 0 (reverse (digits f v base)) = v /\ Forall (is_digit base) (digits f v base) /\ (length (digits f v base) <= f)%nat.
Proof.
  intros Hb. revert v. induction f as [|f IH]; intros v Hv; cbn [digits].
  - change (2 ^ Z.of_nat 0) with 1 in Hv. assert (v = 0) as -> by lia. split_and!; [done|constructor|cbn; lia].
  - destruct (Z.eqb_spec v 0) as [->|Hne]; [split_and!; [done|constructor|cbn; lia]|].
    replace (Z.of_nat (S f)) with (1 + Z.of_nat f) in Hv by lia. rewrite Z.pow_add_r in Hv by lia. change (2 ^ 1) with 2 in Hv.
    assert (0 <= v / base < 2 ^ Z.of_nat f) as Hq.
    { split; [apply Z.div_pos; lia|]. apply Z.div_lt_upper_bound; nia. }
    destruct (IH _ Hq) as (H1 & H2 & H3). pose proof (Z.mod_pos_bound v base ltac:(lia)).
    destruct (digit_char_spec base (v mod base)) as [Hd Hval]; [lia|lia|]. split_and!.
    + unfold horner in *. rewrite reverse_cons, foldl_app, H1. cbn [foldl]. rewrite Hval. pose proof (Z.div_mod v base). lia.
    + by constructor.
    + cbn [length]. lia.
Qed.

Lemma digit_buffer_spec (v base : Z) :
  2 <= base <= 36 -> is_u32 v ->
  let s := reverse (digit_buffer v base) in
  horner base 0 s = v /\ Forall (is_digit base) s /\ s <> [] /\ (length s <= 33)%nat.
Proof.
  intros Hb Hv. cbv zeta. unfold digit_buffer. destruct (Z.eqb_spec v 0) as [->|Hne].
  - change (reverse [48]) with [48]. destruct (digit_char_spec base 0) as [Hd Hval]; [lia|lia|]. change (digit_char 0) with 48 in *.
    split_and!; [unfold horner; cbn [foldl]; lia|by constructor|done|cbn; lia].
  - destruct (digits_horner 33 v base Hb) as (H1 & H2 & H3); [unfold is_u32 in Hv; change (Z.of_nat 33) with 33; lia|].
    split_and!; [done|by apply Forall_reverse| |by rewrite length_reverse]. cbn [digits]. rewrite (proj2 (Z.eqb_neq v 0) Hne), reverse_cons.
    intros E. apply app_nil in E as [_ E]. discriminate E.
Qed.

Lemma digits_nonzero (base : Z) (s : list Z) : Forall (is_digit base) s -> Forall (fun c => c <> 0) s.
Proof. intros H. apply (Forall_impl _ _ _ H). intros c (Hc & _). lia. Qed.

Lemma u32_step (r b d : Z) : u32 (u32 (u32 r * b) + d) = u32 (r * b + d).
Proof. unfold u32. rewrite Zplus_mod_idemp_l, Zplus_mod, Zmult_mod_idemp_l, <-Zplus_mod. done. Qed.

Lemma digits_loop_spec (base : Z) (s : list Z) (fuel : nat) (p r : Z) (m : mem) :
  Forall (is_digit base) s -> string_at m p s -> (length s < fuel)%nat ->
  digits_loop u32 fuel p base (u32 r) m = Some (u32 (horner base r s), p + zlen s).
Proof.
  intros H. revert fuel p r. induction H as [|c s (Hc & Hd & Hv) _ IH]; intros [|fuel] p r Hs Hf; cbn [length] in Hf; try lia; cbn [digits_loop].
  - rewrite (string_end m p Hs). change (zlen (@nil Z)) with 0. by rewrite Z.add_0_r.
  - rewrite (string_test m p c s Hs). destruct Hs as (_ & -> & Hs). rewrite Hd. rewrite (proj2 (Z.leb_gt base (dval c))) by lia.
    rewrite u32_step, (IH fuel (p + 1)); [|done|lia]. rewrite zlen_cons. f_equal. f_equal. lia.
Qed.

Lemma utoa_strtoul (fuel : nat) (v str base : Z) (m : mem) :
  is_u32 v -> 2 <= base <= 36 -> (35 <= fuel)%nat ->
  exists s, string_at (utoa v str base m).2 str s /\ strtoul fuel str base (utoa v str base m).2 = Some (v, str + zlen s).
Proof.
  intros Hv Hb Hf. unfold utoa. replace ((base <? 2) || (36 <? base)) with false by (symmetry; apply orb_false_iff; rewrite !Z.ltb_ge; lia). cbn [snd].
  destruct (digit_buffer_spec v base Hb Hv) as (H1 & H2 & H3 & H4). set (s := reverse (digit_buffer v base)) in *.
  pose proof (write_string str s m (digits_nonzero base s H2)) as Hs. set (m' := write_bytes _ _ m) in *. exists s. split; [done|].
  unfold strtoul. destruct s as [|c s]; [done|]. pose proof Hs as (Hc0 & Ec & Hs'). pose proof H2 as H2'. apply Forall_cons in H2' as [(Hc & Hd & Hdv) H2'].
  destruct fuel as [|fuel]; [lia|]. cbn [skip_space]. rewrite Ec. unfold is_space.
  rewrite (proj2 (Z.eqb_neq c 32)), (proj2 (Z.eqb_neq c 9)), (proj2 (Z.eqb_neq c 10)), (proj2 (Z.eqb_neq c 13)) by lia. cbn [orb].
  rewrite Ec, (proj2 (Z.eqb_neq c 43)) by lia.
  assert (detect_base str base m' = (base, str)) as ->.
  { unfold detect_base. rewrite (proj2 (Z.eqb_neq base 0)) by lia. destruct (Z.eqb_spec base 16) as [->|]; [|done].
    assert ((m' (str + 1) =? 120) || (m' (str + 1) =? 88) = false) as ->; [|by rewrite andb_false_r].
    destruct s as [|d s]; [cbn [string_at] in Hs'; by rewrite Hs'|]. destruct Hs' as (_ & -> & _).
    apply Forall_cons in H2' as [(Hd1 & Hd2 & Hd3) _]. apply orb_false_iff. rewrite !Z.eqb_neq.
    split; intros ->; vm_compute in Hd3; destruct Hd3 as [_ Hd3]; discriminate Hd3. }
  change 0 with (u32 0) at 1. rewrite (digits_loop_spec base (c :: s)); [|done|done|lia]. rewrite H1. by rewrite u32_small.
Qed.

Lemma s32_step (r d : Z) : s32 (s32 (s32 r * 10) + d) = s32 (r * 10 + d).
Proof.
  apply sign_cong. rewrite Zplus_mod. unfold s32. rewrite !sign_mod, <-Zplus_mod, Zplus_mod, Zmult_mod, sign_mod, <-Zmult_mod, <-Zplus_mod. done.
Qed.

Lemma s32_mul (a b : Z) : s32 (a * s32 b) = s32 (a * b).
Proof. apply sign_cong. rewrite Zmult_mod. unfold s32. by rewrite sign_mod, <-Zmult_mod. Qed.

(** A decimal digit character. *)
Lemma decimal_char (c : Z) : is_digit 10 c -> 48 <= schar c <= 57 /\ schar c - 48 = dval c.
Proof.
  intros (Hc & Hd & Hv). unfold dval in *. assert (schar c = c) as E by (unfold schar, sign; case_if; dlia). rewrite E in *.
  unfold digit_of in *. destruct (Z.leb_spec 48 c), (Z.leb_spec c 57); cbn [andb default] in *; unfold id in *; try lia.
  destruct ((97 <=? c) && (c <=? 122)) eqn:E1; zbool; cbn [default] in *; unfold id in *; try lia.
  destruct ((65 <=? c) && (c <=? 90)) eqn:E2; zbool; cbn [default] in *; unfold id in *; try lia. discriminate Hd.
Qed.

Lemma decimal_loop_spec (s : list Z) (fuel : nat) (p r : Z) (m : mem) :
  Forall (is_digit 10) s -> string_at m p s -> (length s < fuel)%nat ->
  decimal_loop fuel p (s32 r) m = Some (s32 (horner 10 r s), p + zlen s).
Proof.
  intros H. revert fuel p r. induction H as [|c s Hc _ IH]; intros [|fuel] p r Hs Hf; cbn [length] in Hf; try lia; cbn [decimal_loop].
  - cbn [string_at] in Hs. rewrite Hs. change (zlen (@nil Z)) with 0. by rewrite Z.add_0_r.
  - destruct Hs as (_ & -> & Hs). destruct (decimal_char c Hc) as [Hr Hv]. bnorm.
    rewrite Hv, s32_step, (IH fuel (p + 1)); [|done|lia]. rewrite zlen_cons. f_equal. f_equal. lia.
Qed.

Lemma itoa_atoi (fuel : nat) (v str : Z) (m : mem) :
  - 2 ^ 31 <= v < 2 ^ 31 -> (36 <= fuel)%nat -> atoi fuel str (itoa v str 10 m).2 = Some v.
Proof.
  intros Hv Hf. unfold itoa. change ((10 <? 2) || (36 <? 10)) with false. change (10 =? 10) with true. cbv iota. cbn [snd]. rewrite andb_true_r.
  set (uv := if v <? 0 then u32 _ else _). assert (uv = Z.abs v) as Huv.
  { unfold uv, u32. destruct (Z.ltb_spec v 0); [rewrite s32_small by lia; rewrite (Z.mod_small (- (v + 1))) by lia|]; rewrite Z.mod_small; lia. }
  destruct (digit_buffer_spec uv 10) as (H1 & H2 & H3 & H4); [lia|unfold is_u32; lia|]. set (s := reverse (digit_buffer uv 10)) in *.
  assert (forall k q, string_at k q s -> decimal_loop fuel q 0 k = Some (s32 uv, q + zlen s)) as Hdec.
  { intros k q Hq. rewrite <-H1. change 0 with (s32 0) at 1. apply decimal_loop_spec; [done|done|lia]. }
  clearbody uv. unfold atoi. destruct fuel as [|fuel]; [lia|]. cbn [skip_space]. destruct (Z.ltb_spec v 0) as [Hneg|Hpos].
  - pose proof (write_string str (45 :: s) m) as Hs. change ((if true then [45] else []) ++ s ++ [0]) with ((45 :: s) ++ [0]).
    set (m' := write_bytes _ _ m) in *. destruct Hs as (_ & E & Hs); [constructor; [done|by apply (digits_nonzero 10)]|].
    rewrite E. cbn [is_space Z.eqb Pos.eqb orb]. unfold read_sign. rewrite E. cbn [Z.eqb Pos.eqb].
    rewrite Hdec by done. rewrite s32_mul, Huv, Z.abs_neq by lia. f_equal. rewrite s32_small; lia.
  - change ((if false then [45] else []) ++ s ++ [0]) with (s ++ [0]). pose proof (write_string str s m (digits_nonzero 10 s H2)) as Hs. set (m' := write_bytes _ _ m) in *.
    pose proof (Hdec m' str Hs) as Hd. destruct s as [|c s']; [done|]. destruct Hs as (_ & E & _). apply Forall_cons in H2 as [(Hc & _) _].
    rewrite E. unfold is_space.
    rewrite (proj2 (Z.eqb_neq c 32)), (proj2 (Z.eqb_neq c 9)), (proj2 (Z.eqb_neq c 10)), (proj2 (Z.eqb_neq c 13)) by lia. cbn [orb].
    unfold read_sign. rewrite E, (proj2 (Z.eqb_neq c 45)), (proj2 (Z.eqb_neq c 43)) by lia.
    rewrite Hd. rewrite Z.mul_1_l, s32_small; [f_equal; rewrite s32_small; lia|]. rewrite s32_small; lia.
Qed.

(** Numbers survive printing and reading: for every 32-bit value and every base from 2
    to 36, [strtoul] of what [utoa] writes is the value, with the end pointer at the
    terminator; and for every [int], [INT_MIN] included, [atoi] of what [itoa] writes
    in base 10 is the value. *)
Theorem number_roundtrip (fuel : nat) (v str base : Z) (m : mem) :
  (36 <= fuel)%nat -> 2 <= base <= 36 ->
  (is_u32 v -> exists s, string_at (utoa v str base m).2 str s /\
     strtoul fuel str base (utoa v str base m).2 = Some (v, str + zlen s)) /\
  (- 2 ^ 31 <= v < 2 ^ 31 -> atoi fuel str (itoa v str 10 m).2 = Some v).
Proof. intros Hf Hb. split; intros; [apply utoa_strtoul; (done || lia)|by apply itoa_atoi]. Qed.

Lemma number_roundtrip_witness :
  (exists e, strtoul 40 100 16 (utoa 48879 100 16 (fun _ => 7)).2 = Some (48879, e)) /\
  atoi 40 100 (itoa (- 2 ^ 31) 100 10 (fun _ => 7)).2 = Some (- 2 ^ 31).
Proof.
  split.
  - destruct (number_roundtrip 40 48879 100 16 (fun _ => 7) ltac:(lia) ltac:(lia)) as [H _].
    destruct H as (s & _ & E); [unfold is_u32; lia|]. by exists (100 + zlen s).
  - destruct (number_roundtrip 40 (- 2 ^ 31) 100 16 (fun _ => 7) ltac:(lia) ltac:(lia)) as [_ H]. apply H. lia.
Defined.

(** ** The environment *)

(** Removing a variable moves the last pointer into its place, but the next new variable
    is written to the storage that pointer still refers to: after A and B are set and A
    is removed, setting C destroys B. *)
Lemma unsetenv_aliases :
  let e1 := (unsetenv (Some [65]) (setenv (Some [66]) (Some [98]) true (setenv (Some [65]) (Some [97]) true env_empty).2).2).2 in
  let e2 := (setenv (Some [67]) (Some [99]) true e1).2 in
  env_find [66] e1 = Some 0 /\ env_find [66] e2 = None /\ env_at e2 0 = env_at e2 1.
Proof. vm_compute. done. Qed.

End CStdlib.
