(* ===== verification/Tcp.v ===== *)
(** * TCP: sockets, sequence numbers and segments on the wire (src/net/tcp.h, src/net/tcp.c)

    [Module Tcp]: the socket with the fields of [tcp_socket_t], the world its operations
    run in, the monad that threads both, comparison of sequence numbers, the checksum,
    the option field and the header as bytes.  TcpSend.v has the send side and
    congestion control, TcpRecv.v the receive side and the state machine, TcpTable.v the
    socket tables and the calls on them.

    The segments of the reassembly queue and of the retransmission queue belong to one
    queue each, so a queue is a list; [rtx_tail] is its last element.  The pointers that
    are shared ([next], [next_all], [parent], [accept_head]) stay addresses.  The lock of
    a socket is held around each operation and has no field.  [rtt_measure_seq] is never
    read.  [beta_cubic] and [C] hold 0 or the constants 0.7f and 0.4f: the fields count
    tenths. *)

From S2P Require Import Prelude.

Module Tcp.

Definition MSS : Z := 1460.
Definition TCP_MAX_WINDOW : Z := 65535.
Definition TCP_INITIAL_CWND : Z := 1.
Definition TCP_SLOW_START_THRESHOLD : Z := 65535.
Definition TCP_RETRANS_TIMEOUT : Z := 3000.
Definition TCP_TIME_WAIT_MS : Z := 2000.
Definition TCP_KEEPALIVE_IDLE_MS : Z := 7200000.
Definition TCP_KEEPALIVE_INTVL_MS : Z := 75000.
Definition TCP_KEEPALIVE_PROBES : Z := 9.
Definition TCP_ZERO_WINDOW_PROBE_MS : Z := 1000.
Definition TCP_DELACK_MS : Z := 40.
Definition TCP_SYN_BACKLOG_DEFAULT : Z := 16.
Definition TCP_MAX_RETRIES : Z := 12.
Definition TCP_BACKLOG_MAX : Z := 128.
Definition TCP_RCVBUF_SIZE : Z := 64 * 1024.
Definition TCP_SNDBUF_SIZE : Z := 64 * 1024.
Definition TCP_HASH_TABLE_SIZE : Z := 1024.
Definition IP_PROTO_TCP : Z := 6.

Definition TCP_FIN : Z := 1.
Definition TCP_SYN : Z := 2.
Definition TCP_RST : Z := 4.
Definition TCP_PSH : Z := 8.
Definition TCP_ACK : Z := 16.
Definition TCP_URG : Z := 32.

Definition TCP_OPT_EOL : Z := 0.
Definition TCP_OPT_NOP : Z := 1.
Definition TCP_OPT_MSS : Z := 2.
Definition TCP_OPT_WSCALE : Z := 3.
Definition TCP_OPT_SACK_OK : Z := 4.
Definition TCP_OPT_SACK : Z := 5.
Definition TCP_OPT_TIMESTAMP : Z := 8.

Definition TCP_STATE_CLOSED : Z := 0.
Definition TCP_STATE_LISTEN : Z := 1.
Definition TCP_STATE_SYN_SENT : Z := 2.
Definition TCP_STATE_SYN_RECEIVED : Z := 3.
Definition TCP_STATE_ESTABLISHED : Z := 4.
Definition TCP_STATE_FIN_WAIT1 : Z := 5.
Definition TCP_STATE_FIN_WAIT2 : Z := 6.
Definition TCP_STATE_CLOSE_WAIT : Z := 7.
Definition TCP_STATE_CLOSING : Z := 8.
Definition TCP_STATE_LAST_ACK : Z := 9.
Definition TCP_STATE_TIME_WAIT : Z := 10.

Definition TCP_SOCK_FLAG_LISTEN : Z := 2.
Definition TCP_SOCK_FLAG_CONNECTED : Z := 4.
Definition TCP_SOCK_FLAG_CLOSING : Z := 8.
Definition TCP_SOCK_FLAG_NONBLOCK : Z := 16.
Definition TCP_SOCK_FLAG_NODELAY : Z := 32.
Definition TCP_SOCK_FLAG_KEEPALIVE : Z := 64.
Definition TCP_SOCK_FLAG_NEEDS_ACK : Z := 128.
Definition TCP_SOCK_FLAG_ZERO_PROBE : Z := 256.
Definition TCP_SOCK_FLAG_PASSIVE : Z := 512.
Definition TCP_SOCK_FLAG_RST_RCVD : Z := 1024.
Definition TCP_SOCK_FLAG_URG_PRESENT : Z := 2048.

Definition TCP_CC_RENO : Z := 0.
Definition TCP_CC_NEWRENO : Z := 1.
Definition TCP_CC_CUBIC : Z := 2.

(** ** Data *)

Record tcp_segment := mk_seg {
  seq : Z;
  len : Z;
  send_ts : Z;
  seg_flags : Z;
  data : option (list Z); (* [None]: the null pointer *)
}.

Record sack_range := mk_sack { left : Z; right : Z }.

Record tcp_cubic_state := mk_cubic {
  tcp_friendliness : Z; fast_convergence : Z; beta_cubic : Z; C : Z;
  W_max : Z; W_last_max : Z; epoch_start : Z; origin_point : Z; dMin : Z;
  cwnd_cnt : Z; K : Z; last_cwnd : Z; tcp_cwnd : Z;
}.

Definition zero_cubic : tcp_cubic_state := mk_cubic 0 0 0 0 0 0 0 0 0 0 0 0 0.

Record tcp_socket := mk_socket {
  state : Z; flags : Z;
  local_port : Z; remote_port : Z; local_ip : Z; remote_ip : Z; iface : Z;
  snd_una : Z; snd_nxt : Z; snd_wnd : Z; snd_wl1 : Z; snd_wl2 : Z; rcv_nxt : Z; rcv_wnd : Z;
  rcv_adv : Z; urg_ptr : Z;
  cwnd : Z; ssthresh : Z; partial_bytes_acked : Z; dup_acks : Z; fast_recovery : Z; cc_algo : Z;
  cubic : tcp_cubic_state;
  srtt : Z; rttvar : Z; rto : Z; rto_min : Z; rto_max : Z; rtt_send_time : Z; rtt_pending : Z;
  retrans_cnt : Z; max_retries : Z; last_send_time : Z; last_ack_time : Z;
  time_wait_expire : Z; keepalive_time : Z; keepalive_probes : Z; zero_probe_time : Z;
  mss_peer : Z; mss_local : Z; wscale_local : Z; wscale_peer : Z; sack_enabled : Z;
  ts_recent : Z; ts_recent_tick : Z; ts_option : Z;
  sack_blocks : list sack_range;
  sack_count : Z;
  send_buf : list Z;
  send_buf_size : Z; send_buf_head : Z; send_buf_tail : Z; send_buf_len : Z;
  recv_buf : list Z;
  recv_buf_size : Z; recv_buf_head : Z; recv_buf_tail : Z; recv_buf_len : Z;
  ooo : list tcp_segment; rtx : list tcp_segment;
  backlog_max : Z; backlog_cur : Z; accept_head : Z; accept_tail : Z; next : Z; parent : Z;
  next_all : Z;
  owner : Z; wait_recv : Z; wait_accept : Z; wait_send : Z; wait_close : Z; refcount : Z;
}.

(** A socket whose memory is zero ([kcalloc]). *)
Definition zero_socket : tcp_socket :=
  mk_socket 0 0 0 0 0 0 0 0 0 0 0 0 0 0 0 0 0 0 0 0 0 0 zero_cubic 0 0 0 0 0 0 0 0 0 0 0 0 0 0 0 0 0 0
    0 0 0 0 0 (replicate 4 (mk_sack 0 0)) 0 [] 0 0 0 0 [] 0 0 0 0 [] [] 0 0 0 0 0 0 0 0 0 0 0 0 0.

(** The record rebuilt from its projections, and the update of one field. *)
Definition eta_socket (s : tcp_socket) : tcp_socket :=
  mk_socket (state s) (flags s) (local_port s) (remote_port s) (local_ip s) (remote_ip s) (iface s)
    (snd_una s) (snd_nxt s) (snd_wnd s) (snd_wl1 s) (snd_wl2 s) (rcv_nxt s) (rcv_wnd s)
    (rcv_adv s) (urg_ptr s) (cwnd s) (ssthresh s) (partial_bytes_acked s) (dup_acks s)
    (fast_recovery s) (cc_algo s) (cubic s) (srtt s) (rttvar s) (rto s) (rto_min s) (rto_max s)
    (rtt_send_time s) (rtt_pending s) (retrans_cnt s) (max_retries s) (last_send_time s)
    (last_ack_time s) (time_wait_expire s) (keepalive_time s) (keepalive_probes s)
    (zero_probe_time s) (mss_peer s) (mss_local s) (wscale_local s) (wscale_peer s)
    (sack_enabled s) (ts_recent s) (ts_recent_tick s) (ts_option s) (sack_blocks s)
    (sack_count s) (send_buf s) (send_buf_size s) (send_buf_head s) (send_buf_tail s)
    (send_buf_len s) (recv_buf s) (recv_buf_size s) (recv_buf_head s) (recv_buf_tail s)
    (recv_buf_len s) (ooo s) (rtx s) (backlog_max s) (backlog_cur s) (accept_head s)
    (accept_tail s) (next s) (parent s) (next_all s) (owner s) (wait_recv s) (wait_accept s)
    (wait_send s) (wait_close s) (refcount s).

Ltac upd s field v := set_field eta_socket s field v.

Definition set_state (v : Z) (s : tcp_socket) : tcp_socket := ltac:(upd s state v).
Definition set_flags (v : Z) (s : tcp_socket) : tcp_socket := ltac:(upd s flags v).
Definition set_local_port (v : Z) (s : tcp_socket) : tcp_socket := ltac:(upd s local_port v).
Definition set_remote_port (v : Z) (s : tcp_socket) : tcp_socket := ltac:(upd s remote_port v).
Definition set_local_ip (v : Z) (s : tcp_socket) : tcp_socket := ltac:(upd s local_ip v).
Definition set_remote_ip (v : Z) (s : tcp_socket) : tcp_socket := ltac:(upd s remote_ip v).
Definition set_iface (v : Z) (s : tcp_socket) : tcp_socket := ltac:(upd s iface v).
Definition set_snd_una (v : Z) (s : tcp_socket) : tcp_socket := ltac:(upd s snd_una v).
Definition set_snd_nxt (v : Z) (s : tcp_socket) : tcp_socket := ltac:(upd s snd_nxt v).
Definition set_snd_wnd (v : Z) (s : tcp_socket) : tcp_socket := ltac:(upd s snd_wnd v).
Definition set_snd_wl1 (v : Z) (s : tcp_socket) : tcp_socket := ltac:(upd s snd_wl1 v).
Definition set_snd_wl2 (v : Z) (s : tcp_socket) : tcp_socket := ltac:(upd s snd_wl2 v).
Definition set_rcv_nxt (v : Z) (s : tcp_socket) : tcp_socket := ltac:(upd s rcv_nxt v).
Definition set_rcv_wnd (v : Z) (s : tcp_socket) : tcp_socket := ltac:(upd s rcv_wnd v).
Definition set_rcv_adv (v : Z) (s : tcp_socket) : tcp_socket := ltac:(upd s rcv_adv v).
Definition set_urg_ptr (v : Z) (s : tcp_socket) : tcp_socket := ltac:(upd s urg_ptr v).
Definition set_cwnd (v : Z) (s : tcp_socket) : tcp_socket := ltac:(upd s cwnd v).
Definition set_ssthresh (v : Z) (s : tcp_socket) : tcp_socket := ltac:(upd s ssthresh v).
Definition set_partial_bytes_acked (v : Z) (s : tcp_socket) : tcp_socket := ltac:(upd s partial_bytes_acked v).
Definition set_dup_acks (v : Z) (s : tcp_socket) : tcp_socket := ltac:(upd s dup_acks v).
Definition set_fast_recovery (v : Z) (s : tcp_socket) : tcp_socket := ltac:(upd s fast_recovery v).
Definition set_cc_algo (v : Z) (s : tcp_socket) : tcp_socket := ltac:(upd s cc_algo v).
Definition set_cubic (v : tcp_cubic_state) (s : tcp_socket) : tcp_socket := ltac:(upd s cubic v).
Definition set_srtt (v : Z) (s : tcp_socket) : tcp_socket := ltac:(upd s srtt v).
Definition set_rttvar (v : Z) (s : tcp_socket) : tcp_socket := ltac:(upd s rttvar v).
Definition set_rto (v : Z) (s : tcp_socket) : tcp_socket := ltac:(upd s rto v).
Definition set_rto_min (v : Z) (s : tcp_socket) : tcp_socket := ltac:(upd s rto_min v).
Definition set_rto_max (v : Z) (s : tcp_socket) : tcp_socket := ltac:(upd s rto_max v).
Definition set_rtt_send_time (v : Z) (s : tcp_socket) : tcp_socket := ltac:(upd s rtt_send_time v).
Definition set_rtt_pending (v : Z) (s : tcp_socket) : tcp_socket := ltac:(upd s rtt_pending v).
Definition set_retrans_cnt (v : Z) (s : tcp_socket) : tcp_socket := ltac:(upd s retrans_cnt v).
Definition set_max_retries (v : Z) (s : tcp_socket) : tcp_socket := ltac:(upd s max_retries v).
Definition set_last_send_time (v : Z) (s : tcp_socket) : tcp_socket := ltac:(upd s last_send_time v).
Definition set_last_ack_time (v : Z) (s : tcp_socket) : tcp_socket := ltac:(upd s last_ack_time v).
Definition set_time_wait_expire (v : Z) (s : tcp_socket) : tcp_socket := ltac:(upd s time_wait_expire v).
Definition set_keepalive_time (v : Z) (s : tcp_socket) : tcp_socket := ltac:(upd s keepalive_time v).
Definition set_keepalive_probes (v : Z) (s : tcp_socket) : tcp_socket := ltac:(upd s keepalive_probes v).
Definition set_zero_probe_time (v : Z) (s : tcp_socket) : tcp_socket := ltac:(upd s zero_probe_time v).
Definition set_mss_peer (v : Z) (s : tcp_socket) : tcp_socket := ltac:(upd s mss_peer v).
Definition set_mss_local (v : Z) (s : tcp_socket) : tcp_socket := ltac:(upd s mss_local v).
Definition set_wscale_local (v : Z) (s : tcp_socket) : tcp_socket := ltac:(upd s wscale_local v).
Definition set_wscale_peer (v : Z) (s : tcp_socket) : tcp_socket := ltac:(upd s wscale_peer v).
Definition set_sack_enabled (v : Z) (s : tcp_socket) : tcp_socket := ltac:(upd s sack_enabled v).
Definition set_ts_recent (v : Z) (s : tcp_socket) : tcp_socket := ltac:(upd s ts_recent v).
Definition set_ts_recent_tick (v : Z) (s : tcp_socket) : tcp_socket := ltac:(upd s ts_recent_tick v).
Definition set_ts_option (v : Z) (s : tcp_socket) : tcp_socket := ltac:(upd s ts_option v).
Definition set_sack_blocks (v : list sack_range) (s : tcp_socket) : tcp_socket := ltac:(upd s sack_blocks v).
Definition set_sack_count (v : Z) (s : tcp_socket) : tcp_socket := ltac:(upd s sack_count v).
Definition set_send_buf (v : list Z) (s : tcp_socket) : tcp_socket := ltac:(upd s send_buf v).
Definition set_send_buf_size (v : Z) (s : tcp_socket) : tcp_socket := ltac:(upd s send_buf_size v).
Definition set_send_buf_head (v : Z) (s : tcp_socket) : tcp_socket := ltac:(upd s send_buf_head v).
Definition set_send_buf_tail (v : Z) (s : tcp_socket) : tcp_socket := ltac:(upd s send_buf_tail v).
Definition set_send_buf_len (v : Z) (s : tcp_socket) : tcp_socket := ltac:(upd s send_buf_len v).
Definition set_recv_buf (v : list Z) (s : tcp_socket) : tcp_socket := ltac:(upd s recv_buf v).
Definition set_recv_buf_size (v : Z) (s : tcp_socket) : tcp_socket := ltac:(upd s recv_buf_size v).
Definition set_recv_buf_head (v : Z) (s : tcp_socket) : tcp_socket := ltac:(upd s recv_buf_head v).
Definition set_recv_buf_tail (v : Z) (s : tcp_socket) : tcp_socket := ltac:(upd s recv_buf_tail v).
Definition set_recv_buf_len (v : Z) (s : tcp_socket) : tcp_socket := ltac:(upd s recv_buf_len v).
Definition set_ooo (v : list tcp_segment) (s : tcp_socket) : tcp_socket := ltac:(upd s ooo v).
Definition set_rtx (v : list tcp_segment) (s : tcp_socket) : tcp_socket := ltac:(upd s rtx v).
Definition set_backlog_max (v : Z) (s : tcp_socket) : tcp_socket := ltac:(upd s backlog_max v).
Definition set_backlog_cur (v : Z) (s : tcp_socket) : tcp_socket := ltac:(upd s backlog_cur v).
Definition set_accept_head (v : Z) (s : tcp_socket) : tcp_socket := ltac:(upd s accept_head v).
Definition set_accept_tail (v : Z) (s : tcp_socket) : tcp_socket := ltac:(upd s accept_tail v).
Definition set_next (v : Z) (s : tcp_socket) : tcp_socket := ltac:(upd s next v).
Definition set_parent (v : Z) (s : tcp_socket) : tcp_socket := ltac:(upd s parent v).
Definition set_next_all (v : Z) (s : tcp_socket) : tcp_socket := ltac:(upd s next_all v).
Definition set_owner (v : Z) (s : tcp_socket) : tcp_socket := ltac:(upd s owner v).
Definition set_wait_recv (v : Z) (s : tcp_socket) : tcp_socket := ltac:(upd s wait_recv v).
Definition set_wait_accept (v : Z) (s : tcp_socket) : tcp_socket := ltac:(upd s wait_accept v).
Definition set_wait_send (v : Z) (s : tcp_socket) : tcp_socket := ltac:(upd s wait_send v).
Definition set_wait_close (v : Z) (s : tcp_socket) : tcp_socket := ltac:(upd s wait_close v).
Definition set_refcount (v : Z) (s : tcp_socket) : tcp_socket := ltac:(upd s refcount v).

(** ** The world and the monad *)

(** The counters of [tcp_stats_t] and [tcp_cc_stats_t] that the code changes. *)
Inductive counter :=
  | active_opens | passive_opens | attempts | established | closes
  | reno_slow_starts | reno_fast_retrans | newreno_partial_acks | newreno_recoveries
  | cubic_epochs | cubic_fast_convergences | cubic_tcp_friendly_wins.

#[export] Instance counter_eq_dec : EqDecision counter.
Proof. solve_decision. Defined.

(** What the operations read and change outside one socket.  The timer, the allocator
    and the link answer from tapes: the first entry is the answer to the next call of
    [timer_get_ticks], of [kmalloc] or [kcalloc] (an address, 0 when it fails) and of
    [ip_send].  [wire]: the packets handed to [ip_send] with their destination, oldest
    first.  [woken]: the processes handed to [sched_unblock].  [store]: the other
    sockets by address.  The rest are the static variables of src/net/tcp.c. *)
Definition tape := nat -> Z.
Definition tape_next (t : tape) (n : nat) : Z := t (S n).

Record world := mk_world {
  clock : tape;
  heap : tape;
  link : tape;
  wire : list (Z * list Z);
  woken : list Z;
  counts : counter -> Z;
  store : gmap Z tcp_socket;
  sockets : Z -> Z;
  tcp_hash : Z -> Z;
  all_sockets : Z;
  next_ephemeral_port : Z;
}.

Definition set_clock (v : tape) (w : world) : world :=
  mk_world v (heap w) (link w) (wire w) (woken w) (counts w) (store w) (sockets w)
    (tcp_hash w) (all_sockets w) (next_ephemeral_port w).
Definition set_heap (v : tape) (w : world) : world :=
  mk_world (clock w) v (link w) (wire w) (woken w) (counts w) (store w) (sockets w)
    (tcp_hash w) (all_sockets w) (next_ephemeral_port w).
Definition set_link (v : tape) (p : list (Z * list Z)) (w : world) : world :=
  mk_world (clock w) (heap w) v p (woken w) (counts w) (store w) (sockets w)
    (tcp_hash w) (all_sockets w) (next_ephemeral_port w).
Definition set_woken (v : list Z) (w : world) : world :=
  mk_world (clock w) (heap w) (link w) (wire w) v (counts w) (store w) (sockets w)
    (tcp_hash w) (all_sockets w) (next_ephemeral_port w).
Definition set_counts (v : counter -> Z) (w : world) : world :=
  mk_world (clock w) (heap w) (link w) (wire w) (woken w) v (store w) (sockets w)
    (tcp_hash w) (all_sockets w) (next_ephemeral_port w).
Definition set_store (v : gmap Z tcp_socket) (w : world) : world :=
  mk_world (clock w) (heap w) (link w) (wire w) (woken w) (counts w) v (sockets w)
    (tcp_hash w) (all_sockets w) (next_ephemeral_port w).
Definition set_tables (ports hash : Z -> Z) (all : Z) (w : world) : world :=
  mk_world (clock w) (heap w) (link w) (wire w) (woken w) (counts w) (store w) ports
    hash all (next_ephemeral_port w).
Definition set_ephemeral (v : Z) (w : world) : world :=
  mk_world (clock w) (heap w) (link w) (wire w) (woken w) (counts w) (store w) (sockets w)
    (tcp_hash w) (all_sockets w) v.

(** Operations on one socket: a state monad over the socket and the world. *)
Definition M (A : Type) : Type := tcp_socket -> world -> A * tcp_socket * world.

#[export] Instance M_ret : MRet M := fun A x s w => (x, s, w).
#[export] Instance M_bind : MBind M := fun A B k m s w =>
  let '(x, s', w') := m s w in k x s' w'.

Definition gets {A} (f : tcp_socket -> A) : M A := fun s w => (f s, s, w).
Definition modify (f : tcp_socket -> tcp_socket) : M unit := fun s w => (tt, f s, w).
Definition on_world (f : world -> world) : M unit := fun s w => (tt, s, f w).
Definition when (b : bool) (m : M unit) : M unit := if b then m else mret tt.

(** The socket and the world an operation ends with. *)
Definition sock_after {A} (m : M A) (s : tcp_socket) (w : world) : tcp_socket := (m s w).1.2.
Definition world_after {A} (m : M A) (s : tcp_socket) (w : world) : world := (m s w).2.
Definition result {A} (m : M A) (s : tcp_socket) (w : world) : A := (m s w).1.1.

(** The PIT runs at 100 Hz. *)
Definition now_ms : M Z := fun s w =>
  (u32 (clock w O * 10), s, set_clock (tape_next (clock w)) w).

Definition heap_alloc : M Z := fun s w => (heap w O, s, set_heap (tape_next (heap w)) w).

Definition ip_send (dst : Z) (packet : list Z) : M Z := fun s w =>
  (link w O, s, set_link (tape_next (link w)) (wire w ++ [(dst, packet)]) w).

Definition sched_unblock (p : Z) : M unit := on_world (fun w => set_woken (woken w ++ [p]) w).

(** A static array, or the counters, with one entry changed. *)
Definition fupd {Ix} `{EqDecision Ix} (f : Ix -> Z) (i : Ix) (v : Z) : Ix -> Z :=
  fun j => if decide (j = i) then v else f j.

Definition bump (c : counter) : M unit :=
  on_world (fun w => set_counts (fupd (counts w) c (u32 (counts w c + 1))) w).

(** ** Sequence numbers *)

Definition seq_lt (a b : Z) : bool := s32 (a - b) <? 0.
Definition seq_le (a b : Z) : bool := s32 (a - b) <=? 0.
Definition seq_gt (a b : Z) : bool := 0 <? s32 (a - b).
Definition seq_ge (a b : Z) : bool := 0 <=? s32 (a - b).

(** [flags & mask] as a condition. *)
Definition has (flags mask : Z) : bool := negb (Z.land flags mask =? 0).

Definition add_flags (m : Z) : M unit := modify (fun s => set_flags (Z.lor (flags s) m) s).
Definition clear_flags (m : Z) : M unit := modify (fun s => set_flags (Z.ldiff (flags s) m) s).

(** ** Bytes *)

Definition le16 (v : Z) : list Z := [u8 v; u8 (Z.shiftr v 8)].
Definition le32 (v : Z) : list Z :=
  [u8 v; u8 (Z.shiftr v 8); u8 (Z.shiftr v 16); u8 (Z.shiftr v 24)].
Definition be32 (v : Z) : list Z :=
  [u8 (Z.shiftr v 24); u8 (Z.shiftr v 16); u8 (Z.shiftr v 8); u8 v].
Definition of_le16 (a b : Z) : Z := a + b * 256.
Definition of_le32 (a b c d : Z) : Z := a + b * 256 + c * 65536 + d * 16777216.
Definition of_be32 (a b c d : Z) : Z :=
  Z.lor (Z.lor (Z.lor (Z.shiftl a 24) (Z.shiftl b 16)) (Z.shiftl c 8)) d.

(** ** Checksum *)

(** The loop over the 16-bit words in memory order; a last odd byte counts alone. *)
Fixpoint sum_words (d : list Z) (sum : Z) : Z :=
  match d with
  | [] => sum
  | [a] => u32 (sum + a)
  | a :: b :: d => sum_words d (u32 (sum + of_le16 a b))
  end.

(** [while (sum >> 16) sum = (sum & 0xFFFF) + (sum >> 16)]; two passes are enough
    ([fold_carry_small]). *)
Fixpoint fold_carry (fuel : nat) (sum : Z) : Z :=
  match fuel with
  | O => sum
  | S fuel =>
      if c_true (Z.shiftr sum 16)
      then fold_carry fuel (u32 (Z.land sum 65535 + Z.shiftr sum 16))
      else sum
  end.

Definition tcp_checksum (src_ip dst_ip proto : Z) (d : list Z) : Z :=
  let sum := u32 (Z.land (Z.shiftr src_ip 16) 65535) in
  let sum := u32 (sum + Z.land src_ip 65535) in
  let sum := u32 (sum + Z.land (Z.shiftr dst_ip 16) 65535) in
  let sum := u32 (sum + Z.land dst_ip 65535) in
  let sum := u32 (sum + proto) in
  let sum := u32 (sum + zlen d) in
  u16 (Z.lnot (fold_carry 3 (sum_words d sum))).

(** ** The header *)

(** The packed structure has 19 bytes: the data offset and the flags share one byte. *)
Record tcp_header := mk_hdr {
  src_port : Z; dst_port : Z; seq_num : Z; ack_num : Z;
  data_offset_flags : Z; window_size : Z; checksum : Z; urgent_ptr : Z;
}.

Definition sizeof_tcp_header : Z := 19.

Definition header_bytes (h : tcp_header) : list Z :=
  le16 (src_port h) ++ le16 (dst_port h) ++ le32 (seq_num h) ++ le32 (ack_num h) ++
  [u8 (data_offset_flags h)] ++ le16 (window_size h) ++ le16 (checksum h) ++ le16 (urgent_ptr h).

(** The structure at the start of a packet. *)
Definition header_at (p : list Z) : tcp_header :=
  mk_hdr (of_le16 p.[0] p.[1]) (of_le16 p.[2] p.[3])
    (of_le32 p.[4] p.[5] p.[6] p.[7]) (of_le32 p.[8] p.[9] p.[10] p.[11])
    p.[12] (of_le16 p.[13] p.[14]) (of_le16 p.[15] p.[16]) (of_le16 p.[17] p.[18]).

Definition with_checksum (c : Z) (h : tcp_header) : tcp_header :=
  mk_hdr (src_port h) (dst_port h) (seq_num h) (ack_num h) (data_offset_flags h)
    (window_size h) c (urgent_ptr h).

(** A packet with its checksum filled in: the header, the options, the payload. *)
Definition sealed (src_ip dst_ip : Z) (h : tcp_header) (rest : list Z) : list Z :=
  let c := tcp_checksum src_ip dst_ip IP_PROTO_TCP (header_bytes (with_checksum 0 h) ++ rest) in
  header_bytes (with_checksum c h) ++ rest.

(** ** Options *)

(** The four bytes of a big-endian number at position [i]. *)
Definition be32_at (opt : list Z) (i : Z) : Z :=
  of_be32 opt.[i] opt.[i + 1] opt.[i + 2] opt.[i + 3].

(** The loop of the SACK option: block [b] is at [i + 2 + b * 8]. *)
Definition sack_parse (opt : list Z) (i count : Z) (blocks : list sack_range) : list sack_range :=
  foldl (fun bl b => aset bl b (mk_sack (be32_at opt (i + 2 + b * 8))
                                        (be32_at opt (i + 2 + b * 8 + 4))))
        blocks (range 0 count).

(** One recognised option of [olen] bytes at position [i]. *)
Definition parse_one (opt : list Z) (i kind olen : Z) : M unit :=
  if kind =? TCP_OPT_MSS then
    when (olen =? 4) (modify (fun s =>
      let v := Z.lor (Z.shiftl opt.[i + 2] 8) opt.[i + 3] in
      set_mss_peer (if v <? mss_local s then v else mss_local s) s))
  else if kind =? TCP_OPT_WSCALE then
    when (olen =? 3) (modify (set_wscale_peer (Z.land opt.[i + 2] 15)))
  else if kind =? TCP_OPT_SACK_OK then modify (set_sack_enabled 1)
  else if kind =? TCP_OPT_TIMESTAMP then
    when (olen =? 10) (
      modify (fun s => set_ts_recent (be32_at opt (i + 2)) (set_ts_option 1 s));;
      now ← now_ms;
      modify (set_ts_recent_tick now))
  else if kind =? TCP_OPT_SACK then
    when ((2 <? olen) && ((olen - 2) / 8 <=? 4)) (modify (fun s =>
      let count := (olen - 2) / 8 in
      set_sack_blocks (sack_parse opt i count (sack_blocks s)) (set_sack_count count s)))
  else mret tt.

Fixpoint parse_loop (fuel : nat) (opt : list Z) (i : Z) : M unit :=
  match fuel with
  | O => mret tt
  | S fuel =>
      if i <? zlen opt then
        let kind := opt.[i] in
        if kind =? TCP_OPT_EOL then mret tt
        else if kind =? TCP_OPT_NOP then parse_loop fuel opt (i + 1)
        else if zlen opt <=? i + 1 then mret tt
        else
          let olen := opt.[i + 1] in
          if (olen <? 2) || (zlen opt <? i + olen) then mret tt
          else parse_one opt i kind olen;; parse_loop fuel opt (i + olen)
      else mret tt
  end.

(** Every pass moves at least one byte, so the number of bytes is enough fuel
    ([parse_loop_fuel]). *)
Definition tcp_option_parse (opt : list Z) : M unit := parse_loop (S (length opt)) opt 0.

(** The bytes written to [out]; all callers pass 40 for [max_len]. *)
Definition tcp_option_build (max_len : Z) (syn : bool) : M (list Z) :=
  let eol (l : list Z) := if zlen l + 2 <=? max_len then l ++ [TCP_OPT_EOL] else l in
  if syn then
    if max_len <? 4 then mret []
    else
      mss ← gets mss_local;
      let out := [TCP_OPT_MSS; 4; u8 (Z.shiftr mss 8); u8 (Z.land mss 255);
                  TCP_OPT_NOP; TCP_OPT_WSCALE; 3; 7] in
      if max_len <? zlen out + 2 then mret out
      else
        let out := out ++ [TCP_OPT_SACK_OK; 2] in
        if max_len <? zlen out + 10 then mret out
        else
          ts ← now_ms;
          mret (eol (out ++ [TCP_OPT_TIMESTAMP; 10] ++ be32 ts ++ [0; 0; 0; 0]))
  else
    o ← gets ts_option;
    if c_true o then
      if max_len <? 12 then mret []
      else
        ts ← now_ms;
        recent ← gets ts_recent;
        mret (eol ([TCP_OPT_NOP; TCP_OPT_NOP; TCP_OPT_TIMESTAMP; 10] ++ be32 ts ++ be32 recent))
    else mret (eol []).

(** ** What an operation leaves alone *)

(** [Keeps f m]: [m] does not change [f] of the socket.  The instances follow the shape
    of the code, so the search proves it for a whole operation. *)
Class Keeps {B} (f : tcp_socket -> B) {A} (m : M A) : Prop :=
  keeps : forall s w, f (sock_after m s w) = f s.

#[export] Hint Mode Keeps - + - + : typeclass_instances.

Section keeps.
Context {B : Type} (f : tcp_socket -> B).

#[export] Instance keeps_ret {A} (x : A) : Keeps f (mret x).
Proof. done. Qed.

#[export] Instance keeps_bind {A A'} (m : M A) (k : A -> M A') :
  Keeps f m -> (forall x, Keeps f (k x)) -> Keeps f (m ≫= k).
Proof.
  intros Hm Hk s w. unfold sock_after, mbind, M_bind.
  specialize (Hm s w). unfold sock_after in Hm. destruct (m s w) as [ [x s'] w']. simpl in Hm.
  rewrite <-Hm. apply (Hk x).
Qed.

#[export] Instance keeps_gets {A} (g : tcp_socket -> A) : Keeps f (gets g).
Proof. done. Qed.

#[export] Instance keeps_on_world g : Keeps f (on_world g).
Proof. done. Qed.

#[export] Instance keeps_now : Keeps f now_ms.
Proof. done. Qed.

#[export] Instance keeps_heap_alloc : Keeps f heap_alloc.
Proof. done. Qed.

#[export] Instance keeps_ip_send d p : Keeps f (ip_send d p).
Proof. done. Qed.

#[export] Instance keeps_sched_unblock p : Keeps f (sched_unblock p).
Proof. done. Qed.

#[export] Instance keeps_bump c : Keeps f (bump c).
Proof. done. Qed.

#[export] Instance keeps_if {A} (b : bool) (m n : M A) :
  Keeps f m -> Keeps f n -> Keeps f (if b then m else n).
Proof. by destruct b. Qed.

#[export] Instance keeps_when (b : bool) (m : M unit) : Keeps f m -> Keeps f (when b m).
Proof. intros ?. unfold when. apply _. Qed.

#[export] Instance keeps_option {A C} (o : option C) (m : M A) (n : C -> M A) :
  Keeps f m -> (forall x, Keeps f (n x)) -> Keeps f (match o with None => m | Some x => n x end).
Proof. by destruct o. Qed.

#[export] Instance keeps_list {A C} (l : list C) (m : M A) (n : C -> list C -> M A) :
  Keeps f m -> (forall x l, Keeps f (n x l)) ->
  Keeps f (match l with [] => m | x :: l => n x l end).
Proof. by destruct l. Qed.

#[export] Instance keeps_pair {A C D} (p : C * D) (m : C -> D -> M A) :
  (forall x y, Keeps f (m x y)) -> Keeps f (let '(x, y) := p in m x y).
Proof. by destruct p. Qed.

Lemma keeps_modify (g : tcp_socket -> tcp_socket) :
  (forall s, f (g s) = f s) -> Keeps f (modify g).
Proof. intros H s w. apply H. Qed.

End keeps.

#[export] Hint Extern 1 (Keeps _ (modify _)) =>
  apply keeps_modify; intro; solve [reflexivity | repeat case_match; reflexivity]
  : typeclass_instances.
#[export] Hint Extern 1 (Keeps _ (add_flags _)) => unfold add_flags : typeclass_instances.
#[export] Hint Extern 1 (Keeps _ (clear_flags _)) => unfold clear_flags : typeclass_instances.
#[export] Hint Extern 2 (Keeps _ (let x := _ in _)) => cbv zeta : typeclass_instances.

(** [WKeeps g m]: [m] does not change [g] of the world. *)
Class WKeeps {B} (g : world -> B) {A} (m : M A) : Prop :=
  wkeeps : forall s w, g (world_after m s w) = g w.

#[export] Hint Mode WKeeps - + - + : typeclass_instances.

Section wkeeps.
Context {B : Type} (g : world -> B).

#[export] Instance wkeeps_ret {A} (x : A) : WKeeps g (mret x).
Proof. done. Qed.

#[export] Instance wkeeps_bind {A A'} (m : M A) (k : A -> M A') :
  WKeeps g m -> (forall x, WKeeps g (k x)) -> WKeeps g (m ≫= k).
Proof.
  intros Hm Hk s w. unfold world_after, mbind, M_bind.
  specialize (Hm s w). unfold world_after in Hm. destruct (m s w) as [ [x s'] w']. simpl in Hm.
  rewrite <-Hm. apply (Hk x).
Qed.

#[export] Instance wkeeps_gets {A} (f : tcp_socket -> A) : WKeeps g (gets f).
Proof. done. Qed.

#[export] Instance wkeeps_modify f : WKeeps g (modify f).
Proof. done. Qed.

#[export] Instance wkeeps_if {A} (b : bool) (m n : M A) :
  WKeeps g m -> WKeeps g n -> WKeeps g (if b then m else n).
Proof. by destruct b. Qed.

#[export] Instance wkeeps_when (b : bool) (m : M unit) : WKeeps g m -> WKeeps g (when b m).
Proof. intros ?. unfold when. apply _. Qed.

End wkeeps.

#[export] Hint Extern 1 (WKeeps _ now_ms) => intros ? ?; reflexivity : typeclass_instances.
#[export] Hint Extern 1 (WKeeps _ heap_alloc) => intros ? ?; reflexivity : typeclass_instances.

(** A world in which no allocation fails and the link takes every packet (which may
    still be lost on the way). *)
Definition reliable (w : world) : Prop :=
  (forall n, heap w n <> NULL) /\ (forall n, link w n = 0).

(** [Steady m]: [m] leaves a reliable world reliable. *)
Class Steady {A} (m : M A) : Prop :=
  steady : forall s w, reliable w -> reliable (world_after m s w).

#[export] Hint Mode Steady - + : typeclass_instances.

#[export] Instance steady_ret {A} (x : A) : Steady (mret x).
Proof. by intros s w H. Qed.

#[export] Instance steady_bind {A A'} (m : M A) (k : A -> M A') :
  Steady m -> (forall x, Steady (k x)) -> Steady (m ≫= k).
Proof.
  intros Hm Hk s w Hw. unfold world_after, mbind, M_bind.
  specialize (Hm s w Hw). unfold world_after in Hm. destruct (m s w) as [ [x s'] w'].
  by apply (Hk x).
Qed.

#[export] Instance steady_gets {A} (g : tcp_socket -> A) : Steady (gets g).
Proof. by intros s w H. Qed.

#[export] Instance steady_modify g : Steady (modify g).
Proof. by intros s w H. Qed.

#[export] Instance steady_add_flags m : Steady (add_flags m).
Proof. by intros s w H. Qed.

#[export] Instance steady_clear_flags m : Steady (clear_flags m).
Proof. by intros s w H. Qed.

#[export] Instance steady_now : Steady now_ms.
Proof. by intros s w H. Qed.

#[export] Instance steady_heap_alloc : Steady heap_alloc.
Proof. intros s w [H1 H2]. split; [intros n; apply (H1 (S n))|done]. Qed.

#[export] Instance steady_ip_send d p : Steady (ip_send d p).
Proof. intros s w [H1 H2]. split; [done|intros n; apply (H2 (S n))]. Qed.

#[export] Instance steady_sched_unblock p : Steady (sched_unblock p).
Proof. by intros s w H. Qed.

#[export] Instance steady_bump c : Steady (bump c).
Proof. by intros s w H. Qed.

#[export] Instance steady_if {A} (b : bool) (m n : M A) :
  Steady m -> Steady n -> Steady (if b then m else n).
Proof. by destruct b. Qed.

#[export] Instance steady_when (b : bool) (m : M unit) : Steady m -> Steady (when b m).
Proof. intros ?. unfold when. apply _. Qed.

#[export] Instance steady_option {A B} (o : option B) (m : M A) (n : B -> M A) :
  Steady m -> (forall x, Steady (n x)) -> Steady (match o with None => m | Some x => n x end).
Proof. by destruct o. Qed.

#[export] Instance steady_pair {A B C} (p : B * C) (m : B -> C -> M A) :
  (forall x y, Steady (m x y)) -> Steady (let '(x, y) := p in m x y).
Proof. by destruct p. Qed.

#[export] Instance steady_option_build max syn : Steady (tcp_option_build max syn).
Proof. unfold tcp_option_build. apply _. Qed.

(** Running a sequence. *)
Lemma sock_bind {A B} (m : M A) (k : A -> M B) s w :
  sock_after (m ≫= k) s w = sock_after (k (result m s w)) (sock_after m s w) (world_after m s w).
Proof.
  unfold sock_after, result, world_after, mbind, M_bind. by destruct (m s w) as [ [x s'] w'].
Qed.

Lemma world_bind {A B} (m : M A) (k : A -> M B) s w :
  world_after (m ≫= k) s w = world_after (k (result m s w)) (sock_after m s w) (world_after m s w).
Proof.
  unfold sock_after, result, world_after, mbind, M_bind. by destruct (m s w) as [ [x s'] w'].
Qed.

Lemma result_bind {A B} (m : M A) (k : A -> M B) s w :
  result (m ≫= k) s w = result (k (result m s w)) (sock_after m s w) (world_after m s w).
Proof.
  unfold sock_after, result, world_after, mbind, M_bind. by destruct (m s w) as [ [x s'] w'].
Qed.

Lemma sock_gets {A B} (g : tcp_socket -> A) (k : A -> M B) s w :
  sock_after (x ← gets g; k x) s w = sock_after (k (g s)) s w.
Proof. done. Qed.

Lemma sock_modify {B} g (k : unit -> M B) s w :
  sock_after (x ← modify g; k x) s w = sock_after (k tt) (g s) w.
Proof. done. Qed.

Lemma sock_bind_assoc {A B D} (m : M A) (k : A -> M B) (l : B -> M D) s w :
  sock_after (x ← m; y ← k x; l y) s w = sock_after (y ← (x ← m; k x); l y) s w.
Proof.
  unfold sock_after, mbind, M_bind. by destruct (m s w) as [ [x s'] w'].
Qed.

(** Symbolic execution: [mrun] runs the primitive steps of an operation. *)
Lemma run_ret {A} (x : A) s w :
  sock_after (mret x) s w = s /\ world_after (mret x) s w = w /\ result (mret x) s w = x.
Proof. done. Qed.

Lemma run_gets {A} (g : tcp_socket -> A) s w :
  sock_after (gets g) s w = s /\ world_after (gets g) s w = w /\ result (gets g) s w = g s.
Proof. done. Qed.

Lemma run_modify g s w :
  sock_after (modify g) s w = g s /\ world_after (modify g) s w = w.
Proof. done. Qed.

Lemma run_when_modify b g s w :
  sock_after (when b (modify g)) s w = (if b then g s else s) /\
  world_after (when b (modify g)) s w = w.
Proof. by destruct b. Qed.

Lemma run_now s w :
  sock_after now_ms s w = s /\ world_after now_ms s w = set_clock (tape_next (clock w)) w /\
  result now_ms s w = u32 (clock w O * 10).
Proof. done. Qed.

Lemma run_heap_alloc s w :
  sock_after heap_alloc s w = s /\ world_after heap_alloc s w = set_heap (tape_next (heap w)) w /\
  result heap_alloc s w = heap w O.
Proof. done. Qed.

Lemma run_ip_send d p s w :
  sock_after (ip_send d p) s w = s /\
  world_after (ip_send d p) s w = set_link (tape_next (link w)) (wire w ++ [(d, p)]) w /\
  result (ip_send d p) s w = link w O.
Proof. done. Qed.

Lemma run_bump c s w : sock_after (bump c) s w = s.
Proof. done. Qed.

Lemma run_unblock p s w : sock_after (sched_unblock p) s w = s.
Proof. done. Qed.

Ltac mrun_step :=
  first
    [ rewrite sock_bind | rewrite world_bind | rewrite result_bind
    | rewrite (proj1 (run_ret _ _ _)) | rewrite (proj1 (proj2 (run_ret _ _ _)))
    | rewrite (proj2 (proj2 (run_ret _ _ _)))
    | rewrite (proj1 (run_gets _ _ _)) | rewrite (proj1 (proj2 (run_gets _ _ _)))
    | rewrite (proj2 (proj2 (run_gets _ _ _)))
    | rewrite (proj1 (run_modify _ _ _)) | rewrite (proj2 (run_modify _ _ _))
    | rewrite (proj1 (run_when_modify _ _ _ _)) | rewrite (proj2 (run_when_modify _ _ _ _))
    | rewrite (proj1 (run_now _ _)) | rewrite (proj1 (proj2 (run_now _ _)))
    | rewrite (proj2 (proj2 (run_now _ _)))
    | rewrite (proj1 (run_heap_alloc _ _)) | rewrite (proj1 (proj2 (run_heap_alloc _ _)))
    | rewrite (proj2 (proj2 (run_heap_alloc _ _)))
    | rewrite (proj1 (run_ip_send _ _ _ _)) | rewrite (proj1 (proj2 (run_ip_send _ _ _ _)))
    | rewrite (proj2 (proj2 (run_ip_send _ _ _ _)))
    | rewrite run_bump | rewrite run_unblock ].

Ltac mrun :=
  repeat (mrun_step; cbv beta;
          cbn [heap link clock set_heap set_clock set_link]);
  repeat match goal with
         | |- context [tape_next ?t ?n] => change (tape_next t n) with (t (S n))
         end.

(** [tcp_option_build] changes nothing in the socket. *)
#[export] Instance keeps_option_build {B} (f : tcp_socket -> B) max syn :
  Keeps f (tcp_option_build max syn).
Proof. unfold tcp_option_build. apply _. Qed.

(** ** Lemmas: sequence numbers *)

Lemma s32_dist (isn p q : Z) :
  - 2 ^ 31 <= p - q < 2 ^ 31 -> s32 (u32 (isn + p) - u32 (isn + q)) = p - q.
Proof.
  intros H. rewrite <-(s32_small (p - q)) by done. apply sign_cong. unfold u32.
  rewrite <-Zminus_mod. f_equal. lia.
Qed.

(** A position of the stream that starts after the initial sequence number [isn]. *)
Notation seq_at isn p := (u32 (isn + p)) (only parsing).

Lemma seq_gt_pos (isn p q : Z) :
  - 2 ^ 31 <= p - q < 2 ^ 31 -> seq_gt (seq_at isn p) (seq_at isn q) = (q <? p).
Proof. intros H. unfold seq_gt. rewrite s32_dist by done. zbool; lia. Qed.

Lemma seq_ge_pos (isn p q : Z) :
  - 2 ^ 31 <= p - q < 2 ^ 31 -> seq_ge (seq_at isn p) (seq_at isn q) = (q <=? p).
Proof. intros H. unfold seq_ge. rewrite s32_dist by done. zbool; lia. Qed.

Lemma seq_lt_pos (isn p q : Z) :
  - 2 ^ 31 <= p - q < 2 ^ 31 -> seq_lt (seq_at isn p) (seq_at isn q) = (p <? q).
Proof. intros H. unfold seq_lt. rewrite s32_dist by done. zbool; lia. Qed.

Lemma seq_le_pos (isn p q : Z) :
  - 2 ^ 31 <= p - q < 2 ^ 31 -> seq_le (seq_at isn p) (seq_at isn q) = (p <=? q).
Proof. intros H. unfold seq_le. rewrite s32_dist by done. zbool; lia. Qed.

Lemma seq_eq_pos (isn p q : Z) :
  - 2 ^ 31 <= p - q < 2 ^ 31 -> (seq_at isn p =? seq_at isn q) = (p =? q).
Proof.
  intros H. destruct (Z.eqb_spec p q) as [->|N]; [apply Z.eqb_refl|].
  apply Z.eqb_neq. intros E. pose proof (s32_dist isn p q H) as D.
  rewrite E, Z.sub_diag in D. rewrite s32_small in D; lia.
Qed.

Lemma seq_at_add (isn p n : Z) : u32 (seq_at isn p + n) = seq_at isn (p + n).
Proof. unfold u32. rewrite Zplus_mod_idemp_l. f_equal. lia. Qed.

Lemma seq_at_sub (isn p q : Z) : 0 <= p - q < 2 ^ 32 -> u32 (seq_at isn p - seq_at isn q) = p - q.
Proof.
  intros H. unfold u32. rewrite <-Zminus_mod. replace (isn + p - (isn + q)) with (p - q) by lia.
  by apply Z.mod_small.
Qed.

(** ** Lemmas: checksum *)

Lemma u32_u32_add (a b : Z) : u32 (u32 a + b) = u32 (a + b).
Proof. unfold u32. by rewrite Zplus_mod_idemp_l. Qed.

Lemma u32_add_u32 (a b : Z) : u32 (a + u32 b) = u32 (a + b).
Proof. unfold u32. by rewrite Zplus_mod_idemp_r. Qed.

Lemma shiftr16 (z : Z) : Z.shiftr z 16 = z / 65536.
Proof. by rewrite Z.shiftr_div_pow2. Qed.

Lemma land16 (z : Z) : Z.land z 65535 = z mod 65536.
Proof. change 65535 with (Z.ones 16). by rewrite Z.land_ones. Qed.

Lemma fold_carry_step (z : Z) :
  is_u32 z -> fold_carry 2 z < 65536 /\ 0 <= fold_carry 2 z.
Proof.
  intros [H1 H2]. cbn [fold_carry]. unfold c_true. rewrite !shiftr16, !land16.
  rewrite (u32_small (z mod 65536 + _)) by (unfold is_u32; dlia).
  set (y := z mod 65536 + z / 65536). assert (0 <= y < 131071) by (subst y; dlia).
  rewrite (u32_small (y mod 65536 + _)) by (unfold is_u32; dlia).
  destruct (Z.eqb_spec (z / 65536) 0) as [E|E]; cbn [negb]; [dlia|].
  destruct (Z.eqb_spec (y / 65536) 0) as [E'|E']; cbn [negb]; dlia.
Qed.

(** The loop ends: after two passes no carry is left, and more fuel changes nothing. *)
Lemma fold_carry_small (n : nat) (z : Z) :
  is_u32 z -> is_u16 (fold_carry 2 z) /\ fold_carry (2 + n) z = fold_carry 2 z.
Proof.
  intros Hz. pose proof (fold_carry_step z Hz) as [H1 H2]. split; [by unfold is_u16|].
  assert (forall m x, 0 <= x < 65536 -> fold_carry m x = x) as Hf.
  { intros [|m] x Hx; [done|]. cbn [fold_carry]. rewrite shiftr16, Z.div_small by lia. done. }
  cbn [Nat.add]. revert H1 H2. cbn [fold_carry]. repeat case_if; intros; rewrite ?Hf by lia; done.
Qed.

Lemma sum_words_add (d : list Z) (a b : Z) :
  sum_words d (u32 (a + b)) = u32 (a + sum_words d (u32 b)).
Proof.
  revert a b. assert (forall n (d : list Z), length d <= n -> forall a b,
    sum_words d (u32 (a + b)) = u32 (a + sum_words d (u32 b)))%nat as H; [|by intros; eapply H].
  induction n as [|n IH]; intros [|x [|y l] ] Hl a b; simpl in *; try lia.
  - by rewrite u32_add_u32.
  - by rewrite u32_add_u32.
  - rewrite !u32_u32_add, u32_add_u32. f_equal. lia.
  - rewrite !u32_u32_add, <-Z.add_assoc. apply IH. lia.
Qed.

(** The order of the two addresses does not matter. *)
Lemma tcp_checksum_comm (a b proto : Z) (d : list Z) :
  tcp_checksum a b proto d = tcp_checksum b a proto d.
Proof.
  unfold tcp_checksum. repeat (rewrite <-?Z.add_assoc, u32_u32_add).
  do 4 f_equal. apply (f_equal u32). lia.
Qed.

(** ** Lemmas: bytes and header *)

Lemma u8_shift (v k : Z) : 0 <= k -> u8 (Z.shiftr v k) = v / 2 ^ k mod 256.
Proof. intros. by rewrite Z.shiftr_div_pow2. Qed.

Lemma le16_of (v : Z) : is_u16 v -> of_le16 (u8 v) (u8 (Z.shiftr v 8)) = v.
Proof. intros [H1 H2]. rewrite u8_shift by lia. unfold of_le16, u8. dlia. Qed.

Lemma le32_of (v : Z) : is_u32 v ->
  of_le32 (u8 v) (u8 (Z.shiftr v 8)) (u8 (Z.shiftr v 16)) (u8 (Z.shiftr v 24)) = v.
Proof. intros [H1 H2]. rewrite !u8_shift by lia. unfold of_le32, u8. dlia. Qed.

Record header_ok (h : tcp_header) : Prop := {
  ho_src : is_u16 (src_port h); ho_dst : is_u16 (dst_port h);
  ho_seq : is_u32 (seq_num h); ho_ack : is_u32 (ack_num h);
  ho_dof : is_u8 (data_offset_flags h); ho_win : is_u16 (window_size h);
  ho_ck : is_u16 (checksum h); ho_urg : is_u16 (urgent_ptr h);
}.

Lemma header_at_bytes (h : tcp_header) (rest : list Z) :
  header_ok h -> header_at (header_bytes h ++ rest) = h.
Proof.
  intros []. destruct h. cbn [src_port dst_port seq_num ack_num data_offset_flags window_size
    checksum urgent_ptr] in *.
  unfold header_at, header_bytes, aget. cbn [le16 le32 app].
  cbn [src_port dst_port seq_num ack_num data_offset_flags window_size checksum urgent_ptr].
  change (Z.to_nat 0) with 0%nat. repeat (rewrite le16_of by done).
  cbn. fold (u8 data_offset_flags0).
  f_equal; first [by apply le16_of | by apply le32_of | by apply u8_small].
Qed.

(** ** Lemmas: options *)

Lemma parse_loop_fuel (opt : list Z) (n m : nat) (i : Z) :
  0 <= i -> Z.of_nat n > zlen opt - i -> Z.of_nat m > zlen opt - i ->
  parse_loop n opt i = parse_loop m opt i.
Proof.
  revert m i. induction n as [|n IH]; intros [|m] i Hi Hn Hm; cbn [parse_loop].
  - done.
  - destruct (Z.ltb_spec i (zlen opt)); [lia|done].
  - destruct (Z.ltb_spec i (zlen opt)); [lia|done].
  - destruct (Z.ltb_spec i (zlen opt)); [|done].
    destruct (opt.[i] =? TCP_OPT_EOL); [done|].
    destruct (opt.[i] =? TCP_OPT_NOP); [apply IH; lia|].
    destruct (Z.leb_spec (zlen opt) (i + 1)); [done|].
    destruct (Z.ltb_spec opt.[i + 1] 2); [done|]. cbn [orb].
    destruct (Z.ltb_spec (zlen opt) (i + opt.[i + 1])); [done|].
    by rewrite (IH m) by lia.
Qed.

Lemma be32_of (v : Z) : is_u32 v ->
  of_be32 (u8 (Z.shiftr v 24)) (u8 (Z.shiftr v 16)) (u8 (Z.shiftr v 8)) (u8 v) = v.
Proof.
  intros [H1 H2]. rewrite !u8_shift by lia. unfold of_be32, u8. rewrite !Z.shiftl_mul_pow2 by lia.
  rewrite (lor_add (v / 2 ^ 24 mod 256) _ 24) by dlia.
  replace (v / 2 ^ 24 mod 256 * 2 ^ 24 + v / 2 ^ 16 mod 256 * 2 ^ 16)
    with ((v / 2 ^ 16) * 2 ^ 16) by dlia.
  rewrite (lor_add _ _ 16) by dlia.
  replace (v / 2 ^ 16 * 2 ^ 16 + v / 2 ^ 8 mod 256 * 2 ^ 8) with ((v / 2 ^ 8) * 2 ^ 8) by dlia.
  rewrite (lor_add _ _ 8) by dlia. dlia.
Qed.

Lemma be16_of (v : Z) : is_u16 v ->
  Z.lor (Z.shiftl (u8 (Z.shiftr v 8)) 8) (u8 (Z.land v 255)) = v.
Proof.
  intros [H1 H2]. rewrite u8_shift, Z.shiftl_mul_pow2 by lia. change 255 with (Z.ones 8).
  rewrite Z.land_ones by lia. unfold u8. rewrite (lor_add _ _ 8) by dlia. dlia.
Qed.

(** What the parser does to the socket when it reads the options of a SYN built with
    [mss] and [ts]. *)
Lemma parse_syn_options (mss ts : Z) (b : tcp_socket) (w : world) :
  is_u16 mss -> is_u32 ts ->
  sock_after (tcp_option_parse
    ([TCP_OPT_MSS; 4; u8 (Z.shiftr mss 8); u8 (Z.land mss 255);
      TCP_OPT_NOP; TCP_OPT_WSCALE; 3; 7; TCP_OPT_SACK_OK; 2; TCP_OPT_TIMESTAMP; 10]
      ++ be32 ts ++ [0; 0; 0; 0; TCP_OPT_EOL])) b w =
  set_ts_recent_tick (u32 (clock w 0%nat * 10)) (set_ts_recent ts (set_ts_option 1
    (set_sack_enabled 1 (set_wscale_peer 7 (set_mss_peer (if mss <? mss_local b then mss else mss_local b) b))))).
Proof.
  intros Hm%be16_of Ht%be32_of. unfold be32. revert Hm Ht.
  generalize (u8 (Z.shiftr mss 8)) (u8 (Z.land mss 255)) (u8 (Z.shiftr ts 24))
    (u8 (Z.shiftr ts 16)) (u8 (Z.shiftr ts 8)) (u8 ts). intros a1 a2 t1 t2 t3 t4 <- <-.
  reflexivity.
Qed.

Lemma parse_ts_options (ts recent : Z) (b : tcp_socket) (w : world) :
  is_u32 ts -> is_u32 recent ->
  sock_after (tcp_option_parse
    ([TCP_OPT_NOP; TCP_OPT_NOP; TCP_OPT_TIMESTAMP; 10] ++ be32 ts ++ be32 recent ++
     [TCP_OPT_EOL])) b w =
  set_ts_recent_tick (u32 (clock w 0%nat * 10)) (set_ts_recent ts (set_ts_option 1 b)).
Proof.
  intros Ht%be32_of Hr%be32_of. unfold be32. revert Ht Hr.
  generalize (u8 (Z.shiftr ts 24)) (u8 (Z.shiftr ts 16)) (u8 (Z.shiftr ts 8)) (u8 ts)
    (u8 (Z.shiftr recent 24)) (u8 (Z.shiftr recent 16)) (u8 (Z.shiftr recent 8)) (u8 recent).
  intros t1 t2 t3 t4 r1 r2 r3 r4 <- <-. reflexivity.
Qed.

(** A world in which every call succeeds. *)
Definition calm_world (t : Z) : world :=
  mk_world (fun _ => t) (fun _ => 4096) (fun _ => 0) [] [] (fun _ => 0) ∅ (fun _ => 0) (fun _ => 0)
    NULL 49152.

(** ** Theorems *)

(** The comparisons of sequence numbers compare positions in the stream: for any
    initial sequence number and any two positions less than 2^31 bytes apart, across the
    wrap of the 32-bit numbers, [seq_lt], [seq_le], [seq_gt] and [seq_ge] decide the
    order of the positions. *)
Theorem seq_compare_spec (isn p q : Z) :
  - 2 ^ 31 < p - q < 2 ^ 31 ->
  seq_lt (u32 (isn + p)) (u32 (isn + q)) = bool_decide (p < q) /\
  seq_le (u32 (isn + p)) (u32 (isn + q)) = bool_decide (p <= q) /\
  seq_gt (u32 (isn + p)) (u32 (isn + q)) = bool_decide (p > q) /\
  seq_ge (u32 (isn + p)) (u32 (isn + q)) = bool_decide (p >= q).
Proof.
  intros H. rewrite seq_lt_pos, seq_le_pos, seq_gt_pos, seq_ge_pos by lia.
  split_and!; repeat case_bool_decide; zbool; lia.
Qed.

Lemma seq_compare_spec_witness :
  seq_lt (u32 (4294967290 + 3)) (u32 (4294967290 + 20)) = bool_decide (3 < 20) /\
  seq_le (u32 (4294967290 + 3)) (u32 (4294967290 + 20)) = bool_decide (3 <= 20) /\
  seq_gt (u32 (4294967290 + 3)) (u32 (4294967290 + 20)) = bool_decide (3 > 20) /\
  seq_ge (u32 (4294967290 + 3)) (u32 (4294967290 + 20)) = bool_decide (3 >= 20).
Proof. apply (seq_compare_spec 4294967290 3 20). lia. Defined.

(** The options of a SYN survive the wire: when [b] parses the option field that
    [a] builds for a SYN, [b] ends with the smaller of the two segment sizes as its
    peer's, window scale 7, SACK and timestamps on and [a]'s clock as the recent
    timestamp, and nothing else of [b] changes but the time of that timestamp; and when
    [b] parses the option field of another segment of [a], it changes nothing, or takes
    over [a]'s clock when [a] uses timestamps. *)
Theorem tcp_options_roundtrip (a b : tcp_socket) (wa wb : world) :
  is_u16 (mss_local a) -> is_u32 (ts_recent a) ->
  let now_a := u32 (clock wa 0%nat * 10) in
  let now_b := u32 (clock wb 0%nat * 10) in
  sock_after (tcp_option_parse (result (tcp_option_build 40 true) a wa)) b wb =
    set_ts_recent_tick now_b (set_ts_recent now_a (set_ts_option 1 (set_sack_enabled 1
      (set_wscale_peer 7 (set_mss_peer (Z.min (mss_local a) (mss_local b)) b))))) /\
  sock_after (tcp_option_parse (result (tcp_option_build 40 false) a wa)) b wb =
    if c_true (ts_option a)
    then set_ts_recent_tick now_b (set_ts_recent now_a (set_ts_option 1 b)) else b.
Proof.
  intros Hm Hr now_a now_b. split.
  - replace (Z.min (mss_local a) (mss_local b))
      with (if mss_local a <? mss_local b then mss_local a else mss_local b) by (case_if; lia).
    by apply (parse_syn_options (mss_local a) now_a b wb); [|apply u32_range].
  - unfold result, tcp_option_build, gets, mbind, M_bind. simpl.
    destruct (c_true (ts_option a)); [|done].
    apply (parse_ts_options now_a (ts_recent a) b wb); [apply u32_range|done].
Qed.

Definition demo_syn_socket : tcp_socket := set_mss_local 1200 (set_ts_option 1 zero_socket).

Lemma tcp_options_roundtrip_witness :
  is_u16 (mss_local demo_syn_socket) /\
  sock_after (tcp_option_parse (result (tcp_option_build 40 true) demo_syn_socket (calm_world 77)))
    (set_mss_local 1460 zero_socket) (calm_world 5) =
  set_ts_recent_tick 50 (set_ts_recent 770 (set_ts_option 1 (set_sack_enabled 1
    (set_wscale_peer 7 (set_mss_peer 1200 (set_mss_local 1460 zero_socket)))))).
Proof.
  split; [by vm_compute|].
  apply (tcp_options_roundtrip demo_syn_socket (set_mss_local 1460 zero_socket)
           (calm_world 77) (calm_world 5)); by vm_compute.
Defined.

End Tcp.
