(* ===== verification/TcpSend.v ===== *)
(** * TCP: the send side (src/net/tcp.c)

    [Module TcpSend]: round-trip estimation, the retransmission queue, building and
    sending segments, the send buffer, congestion control (Reno, NewReno, CUBIC) and the
    processing of acknowledgements.  Lists of bytes carry their length, so [len] is not
    passed beside them.  The two expressions of CUBIC that multiply by the floating-point
    constant 0.7f are a parameter ([FloatOps]): their last bit depends on the width the
    compiler evaluates [float] expressions in. *)

From S2P Require Import Prelude Ring Tcp.

Module TcpSend.
Import Tcp.

(** [(uint32_t)((float)x * b)] and [(uint32_t)((float)x * (1.0f + b) / 2.0f)], where [b]
    counts tenths. *)
Class FloatOps := { mul_beta : Z -> Z -> Z; conv_beta : Z -> Z -> Z }.

(** The exact values, rounded down. *)
#[local] Instance exact_float : FloatOps :=
  { mul_beta x b := u32 (x * b / 10); conv_beta x b := u32 (x * (10 + b) / 20) }.

(** The updates of the CUBIC state. *)
Definition set_W (m last : Z) (c : tcp_cubic_state) : tcp_cubic_state :=
  mk_cubic (tcp_friendliness c) (fast_convergence c) (beta_cubic c) (C c) m last
    (epoch_start c) (origin_point c) (dMin c) (cwnd_cnt c) (K c) (last_cwnd c) (tcp_cwnd c).
Definition set_K (k : Z) (c : tcp_cubic_state) : tcp_cubic_state :=
  mk_cubic (tcp_friendliness c) (fast_convergence c) (beta_cubic c) (C c) (W_max c)
    (W_last_max c) (epoch_start c) (origin_point c) (dMin c) (cwnd_cnt c) k (last_cwnd c)
    (tcp_cwnd c).
Definition set_origin_point (t : Z) (c : tcp_cubic_state) : tcp_cubic_state :=
  mk_cubic (tcp_friendliness c) (fast_convergence c) (beta_cubic c) (C c) (W_max c)
    (W_last_max c) (epoch_start c) t (dMin c) (cwnd_cnt c) (K c) (last_cwnd c) (tcp_cwnd c).
Definition set_epoch_start (t : Z) (c : tcp_cubic_state) : tcp_cubic_state :=
  mk_cubic (tcp_friendliness c) (fast_convergence c) (beta_cubic c) (C c) (W_max c)
    (W_last_max c) t (origin_point c) (dMin c) (cwnd_cnt c) (K c) (last_cwnd c) (tcp_cwnd c).
Definition set_tcp_cwnd (cnt v : Z) (c : tcp_cubic_state) : tcp_cubic_state :=
  mk_cubic (tcp_friendliness c) (fast_convergence c) (beta_cubic c) (C c) (W_max c)
    (W_last_max c) (epoch_start c) (origin_point c) (dMin c) cnt (K c) (last_cwnd c) v.
Definition set_last_cwnd (v cnt : Z) (c : tcp_cubic_state) : tcp_cubic_state :=
  mk_cubic (tcp_friendliness c) (fast_convergence c) (beta_cubic c) (C c) (W_max c)
    (W_last_max c) (epoch_start c) (origin_point c) (dMin c) cnt (K c) v (tcp_cwnd c).

Definition on_cubic (f : tcp_cubic_state -> tcp_cubic_state) : M unit :=
  modify (fun s => set_cubic (f (cubic s)) s).

(** ** Round-trip time and retransmission timeout *)

Definition clamp_rto (s : tcp_socket) : tcp_socket :=
  let s := if rto s <? rto_min s then set_rto (rto_min s) s else s in
  if rto_max s <? rto s then set_rto (rto_max s) s else s.

Definition rtt_measure (measured : Z) (s : tcp_socket) : tcp_socket :=
  let s :=
    if srtt s =? 0 then set_rttvar (measured / 2) (set_srtt measured s)
    else
      let delta := s32 (s32 measured - s32 (srtt s)) in
      let delta := if delta <? 0 then s32 (- delta) else delta in
      let s := set_rttvar (u32 (3 * rttvar s + delta) / 4) s in
      set_srtt (u32 (7 * srtt s + measured) / 8) s in
  clamp_rto (set_rto (u32 (srtt s + 4 * rttvar s)) s).

Definition rto_backoff (s : tcp_socket) : tcp_socket := clamp_rto (set_rto (u32 (rto s * 2)) s).

(** ** Retransmission queue *)

Definition rtx_push (sq fl : Z) (d : list Z) : M unit :=
  p ← heap_alloc;
  if p =? NULL then mret tt
  else
    now ← now_ms;
    copy ← (if 0 <? zlen d
            then q ← heap_alloc; mret (if q =? NULL then None else Some d)
            else mret None);
    modify (fun s => set_rtx (rtx s ++ [mk_seg sq (zlen d) now fl copy]) s).

(** The sequence numbers a segment takes: its bytes, and one each for SYN and FIN. *)
Definition consumed (s : tcp_segment) : Z :=
  u32 (len s + (if has (seg_flags s) TCP_SYN then 1 else 0)
             + (if has (seg_flags s) TCP_FIN then 1 else 0)).

(** Remove the segments at the head that [ack] covers. *)
Fixpoint rtx_drop (ack : Z) (q : list tcp_segment) : list tcp_segment :=
  match q with
  | [] => []
  | s :: q' =>
      let consume := if consumed s =? 0 then 1 else consumed s in
      if seq_le (u32 (seq s + consume)) ack then rtx_drop ack q' else q
  end.

Definition rtx_advance (ack : Z) (s : tcp_socket) : tcp_socket := set_rtx (rtx_drop ack (rtx s)) s.
Definition rtx_clear (s : tcp_socket) : tcp_socket := set_rtx [] s.

(** ** Waking *)

Definition wake_one (get : tcp_socket -> Z) (clear : tcp_socket -> tcp_socket) : M unit :=
  p ← gets get;
  when (c_true p) (sched_unblock p;; modify clear).

Definition tcp_wake_owner : M unit :=
  p ← gets owner;
  if p =? NULL then mret tt
  else
    wake_one wait_recv (set_wait_recv NULL);;
    wake_one wait_accept (set_wait_accept NULL);;
    wake_one wait_send (set_wait_send NULL);;
    wake_one wait_close (set_wait_close NULL).

(** ** Sending segments *)

Definition tcp_effective_mss (s : tcp_socket) : Z :=
  let m := mss_peer s in
  let m := if m =? 0 then mss_local s else m in
  if m =? 0 then MSS else m.

(** The header fields of a segment with flags [fl], sequence number [sq] and [optlen]
    bytes of options. *)
Definition segment_header (fl sq optlen urg : Z) (s : tcp_socket) : tcp_header :=
  mk_hdr (local_port s) (remote_port s) sq (rcv_nxt s)
    (u8 (Z.lor (Z.shiftl (u8 ((sizeof_tcp_header + optlen + 3) / 4)) 4) (Z.land fl 63)))
    (if 65535 <? rcv_wnd s then 65535 else rcv_wnd s) 0
    (if has fl TCP_URG then u16 urg else 0).

Definition tcp_send_segment (fl : Z) (d : list Z) : M Z :=
  opt ← tcp_option_build 40 (has fl TCP_SYN);
  p ← heap_alloc;
  if p =? NULL then mret (-1)
  else
    s ← gets id;
    result ← ip_send (remote_ip s)
      (sealed (local_ip s) (remote_ip s)
         (segment_header fl (snd_nxt s) (zlen opt) (urg_ptr s) s) (opt ++ d));
    if result =? 0 then
      now ← now_ms;
      modify (set_last_send_time now);;
      when ((0 <? zlen d) || has fl (Z.lor TCP_SYN TCP_FIN)) (
        let consume := u32 (zlen d + (if has fl TCP_SYN then 1 else 0)
                                   + (if has fl TCP_FIN then 1 else 0)) in
        modify (fun s => set_snd_nxt (u32 (snd_nxt s + consume)) s);;
        pending ← gets rtt_pending;
        when ((pending =? 0) && (0 <? zlen d) && negb (has fl TCP_SYN)) (
          modify (fun s => set_rtt_pending 1 (set_rtt_send_time (last_send_time s) s)));;
        nxt ← gets snd_nxt;
        rtx_push (u32 (nxt - consume)) fl d);;
      mret result
    else mret result.

(** The payload of a retransmission: zeros when the copy could not be allocated. *)
Definition seg_payload (seg : tcp_segment) : list Z :=
  default (replicate (Z.to_nat (len seg)) 0) (data seg).

(** [None]: [rtx_head] is null. *)
Definition tcp_retransmit_segment (seg : option tcp_segment) : M unit :=
  match seg with
  | None => mret tt
  | Some seg =>
      i ← gets iface;
      if i =? NULL then mret tt
      else
        let fl := seg_flags seg in
        ts ← gets ts_option;
        opt ← (if has fl TCP_SYN then tcp_option_build 40 true
               else if c_true ts then tcp_option_build 40 false else mret []);
        p ← heap_alloc;
        if p =? NULL then mret tt
        else
          s ← gets id;
          ip_send (remote_ip s)
            (sealed (local_ip s) (remote_ip s)
               (segment_header fl (seq seg) (zlen opt) (urg_ptr s) s) (opt ++ seg_payload seg));;
          now ← now_ms;
          modify (set_last_send_time now)
  end.

(** ** The send buffer *)

(** [while (new_size < need) new_size *= 2]: the size is at least 64 KB and [need] at
    most 256 KB. *)
Fixpoint grow (fuel : nat) (size need : Z) : Z :=
  match fuel with
  | O => size
  | S fuel => if size <? need then grow fuel (u32 (size * 2)) need else size
  end.

(** Moving the buffered bytes to a buffer of [size] bytes; the cells after them are
    written before they are read. *)
Definition regrown (size : Z) (s : tcp_socket) : tcp_socket :=
  let first := u32 (send_buf_size s - send_buf_head s) in
  let first := if send_buf_len s <? first then send_buf_len s else first in
  let nb := take (Z.to_nat first) (drop (Z.to_nat (send_buf_head s)) (send_buf s)) ++
            take (Z.to_nat (send_buf_len s - first)) (send_buf s) ++
            replicate (Z.to_nat (size - send_buf_len s)) 0 in
  set_send_buf_tail (send_buf_len s) (set_send_buf_head 0
    (set_send_buf_size size (set_send_buf nb s))).

(** The copy loop at the end. *)
Definition buffer_bytes (d : list Z) (s : tcp_socket) : tcp_socket :=
  let '(b, tail) := ring_write (send_buf_size s) (send_buf s) (send_buf_tail s) d in
  set_send_buf_len (u32 (send_buf_len s + zlen d)) (set_send_buf_tail tail (set_send_buf b s)).

Definition tcp_send_buffered (d : list Z) : M Z :=
  s ← gets id;
  let need := u32 (send_buf_len s + zlen d) in
  if send_buf_size s <? need then
    if 256 * 1024 <? need then mret (-1)
    else
      p ← heap_alloc;
      if p =? NULL then mret (-1)
      else
        modify (regrown (grow 32 (send_buf_size s) need));;
        modify (buffer_bytes d);;
        mret (s32 (zlen d))
  else modify (buffer_bytes d);; mret (s32 (zlen d)).

(** Take [n] bytes out of the send buffer. *)
Definition take_bytes (n : Z) : M (list Z) :=
  s ← gets id;
  let '(out, head) := ring_read (send_buf_size s) (send_buf s) (send_buf_head s) (Z.to_nat n) in
  modify (fun s => set_send_buf_len (u32 (send_buf_len s - n)) (set_send_buf_head head s));;
  mret out.

(** The loop of [tcp_push_pending]: every pass takes at least one byte, so the number of
    buffered bytes is enough fuel ([push_loop_fuel]). *)
Fixpoint push_loop (fuel : nat) (mss cap flight : Z) : M unit :=
  match fuel with
  | O => mret tt
  | S fuel =>
      s ← gets id;
      if send_buf_len s =? 0 then mret tt
      else
        let to_send := if mss <? send_buf_len s then mss else send_buf_len s in
        let over := cap <? u32 (flight + to_send) in
        if over && ((cap <=? flight) || (u32 (cap - flight) =? 0)) then mret tt
        else
          let to_send := if over then u32 (cap - flight) else to_send in
          p ← heap_alloc;
          if p =? NULL then mret tt
          else
            out ← take_bytes to_send;
            tcp_send_segment (Z.lor TCP_PSH TCP_ACK) out;;
            s ← gets id;
            push_loop fuel mss cap (u32 (snd_nxt s - snd_una s))
  end.

Definition tcp_push_pending : M unit :=
  s ← gets id;
  if negb (state s =? TCP_STATE_ESTABLISHED) && negb (state s =? TCP_STATE_CLOSE_WAIT)
  then mret tt
  else if snd_wnd s =? 0 then
    when (negb (has (flags s) TCP_SOCK_FLAG_ZERO_PROBE)) (
      add_flags TCP_SOCK_FLAG_ZERO_PROBE;;
      now ← now_ms;
      modify (set_zero_probe_time (u32 (now + TCP_ZERO_WINDOW_PROBE_MS))))
  else
    clear_flags TCP_SOCK_FLAG_ZERO_PROBE;;
    let mss := tcp_effective_mss s in
    let flight := u32 (snd_nxt s - snd_una s) in
    let cap := if snd_wnd s <? cwnd s then snd_wnd s else cwnd s in
    if (cap <=? flight) && (send_buf_len s =? 0) then mret tt
    else
      let nagle_ok := (mss <=? send_buf_len s) || (snd_una s =? snd_nxt s) ||
                      has (flags s) TCP_SOCK_FLAG_NODELAY ||
                      has (flags s) TCP_SOCK_FLAG_CLOSING in
      if negb nagle_ok then mret tt
      else push_loop (Z.to_nat (send_buf_len s)) mss cap flight.

(** [data] is not null; [tcp_send] returns 0 for an empty buffer. *)
Definition tcp_send (d : list Z) : M Z :=
  s ← gets id;
  if negb (state s =? TCP_STATE_ESTABLISHED) && negb (state s =? TCP_STATE_CLOSE_WAIT)
  then mret (-1)
  else if zlen d =? 0 then mret 0
  else
    r ← tcp_send_buffered d;
    when (0 <? r) tcp_push_pending;;
    mret r.

Definition tcp_send_available (s : tcp_socket) : Z :=
  if negb (state s =? TCP_STATE_ESTABLISHED) && negb (state s =? TCP_STATE_CLOSE_WAIT) then 0
  else s32 (send_buf_size s - send_buf_len s).

(** ** Congestion control *)

(** Binary search for the integer cube root, [while (lo < hi)]; 21 passes are enough
    ([cubic_root_spec]). *)
Fixpoint cubic_search (fuel : nat) (lo hi x : Z) : Z :=
  match fuel with
  | O => lo
  | S fuel =>
      if lo <? hi then
        let mid := u32 (lo + hi + 1) / 2 in
        if u64 (u64 (mid * mid) * mid) <=? x then cubic_search fuel mid hi x
        else cubic_search fuel lo (u32 (mid - 1)) x
      else lo
  end.

Definition cubic_root (x : Z) : Z := cubic_search 22 0 2097151 x.

(** [while (acc >= win) { acc -= win; win += mss; }], the loop of congestion avoidance:
    2^17 passes are enough ([aimd_loop_exit]). *)
Fixpoint aimd_loop (fuel : nat) (mss acc win : Z) : Z * Z :=
  match fuel with
  | O => (acc, win)
  | S fuel => if win <=? acc then aimd_loop fuel mss (u32 (acc - win)) (u32 (win + mss))
              else (acc, win)
  end.

Definition aimd_fuel : nat := Z.to_nat 131072.

(** Division of an [int64_t] by a positive constant truncates. *)
Definition cubic_target (t : Z) (s : tcp_socket) : Z :=
  let dt := s32 (t - s32 (K (cubic s))) in
  let dt := if dt <? -20000 then -20000 else dt in
  let dt := if 20000 <? dt then 20000 else dt in
  let cubed := dt * dt * dt in
  let target := if 0 <=? dt then Z.quot (cubed * 4) 10000 + W_max (cubic s)
                else W_max (cubic s) - Z.quot ((- cubed) * 4) 10000 in
  let target := if target <? 2 * tcp_effective_mss s then 2 * tcp_effective_mss s else target in
  if 4294967295 <? target then 4294967295 else target.

Definition cubic_update (now : Z) : M Z :=
  s ← gets id;
  let t := s32 (now - origin_point (cubic s)) in
  let t := if t <=? 0 then 1 else t in
  let target := cubic_target t s in
  if c_true (tcp_friendliness (cubic s)) then
    let mss := tcp_effective_mss s in
    let cu := cubic s in
    let '(cnt, win) :=
      if tcp_cwnd cu <? W_max cu
      then aimd_loop aimd_fuel mss (u32 (cwnd_cnt cu + mss)) (tcp_cwnd cu)
      else (cwnd_cnt cu, tcp_cwnd cu) in
    let win := if win <? u32 (2 * mss) then u32 (2 * mss) else win in
    on_cubic (set_tcp_cwnd cnt win);;
    if target <? win then bump cubic_tcp_friendly_wins;; mret win else mret target
  else mret target.

Definition tcp_cc_init_cubic : M unit :=
  now ← now_ms;
  now' ← now_ms;
  modify (fun s => set_cubic (mk_cubic 1 1 7 4 0 0 now now' 100 0 0 0 (cwnd s)) s).

Definition tcp_cc_set_algo (algo : Z) : M unit :=
  if TCP_CC_CUBIC <? algo then mret tt
  else
    modify (set_cc_algo algo);;
    when (algo =? TCP_CC_CUBIC) tcp_cc_init_cubic.

Definition tcp_cc_on_ack (acked_bytes : Z) : M unit :=
  if acked_bytes =? 0 then mret tt
  else
    s ← gets id;
    let mss := tcp_effective_mss s in
    if cc_algo s =? TCP_CC_CUBIC then
      now ← now_ms;
      target ← cubic_update now;
      let target := if 2147483647 <? target then 2147483647 else target in
      s ← gets id;
      (if c_true (fast_recovery s) && (cwnd s <? ssthresh s) then
         let win := u32 (cwnd s + acked_bytes) in
         modify (set_cwnd (if (target <? win) && (ssthresh s <? win) then target else win))
       else if c_true (fast_recovery s) then
         when (cwnd s <? target) (modify (set_cwnd target))
       else modify (set_cwnd target));;
      s ← gets id;
      when (negb (c_true (fast_recovery s)) && (ssthresh s <=? cwnd s)) (bump reno_slow_starts);;
      on_cubic (set_last_cwnd (cwnd s) 0)
    else if cwnd s <? ssthresh s then
      modify (set_cwnd (u32 (cwnd s + acked_bytes)));;
      bump reno_slow_starts
    else
      let '(acc, win) := aimd_loop aimd_fuel mss (u32 (partial_bytes_acked s + acked_bytes)) (cwnd s) in
      modify (fun s => set_cwnd win (set_partial_bytes_acked acc s)).

(** Three quarters of the window, at least two segments. *)
Definition reduced_ssthresh (s : tcp_socket) : Z :=
  let v := u32 (cwnd s * 3) / 4 in
  let mss := tcp_effective_mss s in
  if v <? u32 (2 * mss) then u32 (2 * mss) else v.

Section cubic.
Context `{FloatOps}.

Definition cubic_ssthresh (s : tcp_socket) : Z :=
  let v := mul_beta (cwnd s) (beta_cubic (cubic s)) in
  let mss := tcp_effective_mss s in
  if v <? u32 (2 * mss) then u32 (2 * mss) else v.

(** The arm of CUBIC on the third duplicate: fast convergence, decrease, new epoch. *)
Definition cubic_fast_retransmit : M unit :=
  s ← gets id;
  let cu := cubic s in
  let mss := tcp_effective_mss s in
  (if (0 <? W_last_max cu) && (W_max cu <? W_last_max cu) then
     on_cubic (set_W (conv_beta (W_max cu) (beta_cubic cu)) (W_max cu));;
     bump cubic_fast_convergences
   else on_cubic (set_W (cwnd s) (W_max cu)));;
  modify (fun s => set_ssthresh (cubic_ssthresh s) s);;
  s ← gets id;
  let reduction := u32 (W_max (cubic s) - ssthresh s) in
  on_cubic (set_K (if (0 <? reduction) && (0 <? C (cubic s))
                   then cubic_root (u64 (reduction * 10000) / 4) else 0));;
  now ← now_ms;
  on_cubic (fun cu => set_tcp_cwnd (cwnd_cnt cu) (cwnd s) (set_origin_point now cu));;
  modify (fun s => set_fast_recovery 1 (set_cwnd (u32 (ssthresh s + 3 * mss)) s));;
  bump reno_fast_retrans;;
  q ← gets rtx;
  tcp_retransmit_segment (head q).

(** The arms of Reno and NewReno; NewReno passes through a temporary value of
    [ssthresh] and counts one more event. *)
Definition reno_fast_retransmit (newreno : bool) : M unit :=
  s ← gets id;
  let mss := tcp_effective_mss s in
  let ss := reduced_ssthresh s in
  modify (fun s => set_ssthresh ss (set_fast_recovery 1 (set_cwnd (u32 (ss + 3 * mss)) s)));;
  bump reno_fast_retrans;;
  when newreno (bump newreno_recoveries);;
  q ← gets rtx;
  tcp_retransmit_segment (head q).

Definition tcp_cc_on_dup_ack : M unit :=
  s ← gets id;
  let mss := tcp_effective_mss s in
  if (dup_acks s =? 3) && negb (bool_decide (rtx s = [])) && (fast_recovery s =? 0) then
    if cc_algo s =? TCP_CC_CUBIC then cubic_fast_retransmit
    else reno_fast_retransmit (cc_algo s =? TCP_CC_NEWRENO)
  else
    when (c_true (fast_recovery s) && (3 <? dup_acks s)) (
      modify (fun s => set_cwnd (u32 (cwnd s + mss)) s);;
      when (cc_algo s =? TCP_CC_NEWRENO) (bump newreno_partial_acks);;
      tcp_push_pending).

Definition tcp_cc_on_loss : M unit :=
  s ← gets id;
  let mss := tcp_effective_mss s in
  if cc_algo s =? TCP_CC_CUBIC then
    on_cubic (fun cu =>
      let m := cwnd s in
      let last := W_max cu in
      set_W (if c_true (fast_convergence cu) && (m <? last) then conv_beta m (beta_cubic cu) else m)
            last cu);;
    modify (fun s => set_cwnd mss (set_ssthresh (cubic_ssthresh s) s));;
    now ← now_ms;
    s ← gets id;
    let k := if ssthresh s <? W_max (cubic s)
             then cubic_root (u64 (u32 (W_max (cubic s) - ssthresh s) * 10000) / 4) else 0 in
    on_cubic (fun cu => set_tcp_cwnd (cwnd_cnt cu) (cwnd s) (set_K k (set_origin_point now cu)));;
    now ← now_ms;
    on_cubic (set_epoch_start now);;
    bump cubic_epochs
  else modify (fun s => set_cwnd mss (set_ssthresh (reduced_ssthresh s) s)).

Definition tcp_cc_on_rto : M unit := tcp_cc_on_loss.

Definition rtx_retransmit_due : M unit :=
  now ← now_ms;
  s ← gets id;
  if (state s =? TCP_STATE_CLOSED) || (state s =? TCP_STATE_LISTEN) ||
     (state s =? TCP_STATE_TIME_WAIT) then mret tt
  else if bool_decide (rtx s = []) then mret tt
  else if seq_ge (snd_una s) (snd_nxt s) && bool_decide (ooo s = []) then mret tt
  else if u32 (now - last_send_time s) <? rto s then mret tt
  else
    modify (set_rtt_pending 0);;
    tcp_cc_on_rto;;
    modify (fun s => set_retrans_cnt (u32 (retrans_cnt s + 1))
                       (set_fast_recovery 0 (set_dup_acks 0 s)));;
    s ← gets id;
    if max_retries s <? retrans_cnt s then
      add_flags TCP_SOCK_FLAG_RST_RCVD;;
      modify (set_state TCP_STATE_CLOSED);;
      tcp_wake_owner
    else
      modify rto_backoff;;
      q ← gets rtx;
      tcp_retransmit_segment (head q).

(** ** Acknowledgements *)

Definition sack_rebuild (s : tcp_socket) : tcp_socket :=
  let q := take 4 (ooo s) in
  set_sack_count (zlen q)
    (set_sack_blocks (foldl (fun bl '(i, g) => aset bl (Z.of_nat i)
                               (mk_sack (seq g) (u32 (seq g + len g))))
                            (sack_blocks s) (imap pair q)) s).

(** The branch for an acknowledgement of new data. *)
Definition ack_advance (ack : Z) : M unit :=
  modify (fun s =>
    if c_true (fast_recovery s) && (cc_algo s =? TCP_CC_RENO)
    then set_fast_recovery 0 (set_cwnd (ssthresh s) s)
    else if c_true (fast_recovery s) then set_fast_recovery 0 s else s);;
  s ← gets id;
  let acked := u32 (ack - snd_una s) in
  modify (set_snd_una ack);;
  when (c_true (rtt_pending s)) (
    now ← now_ms;
    let m := u32 (now - rtt_send_time s) in
    when ((0 <? m) && (m <? 60000)) (modify (rtt_measure m));;
    modify (set_rtt_pending 0));;
  tcp_cc_on_ack acked;;
  modify (fun s => set_retrans_cnt 0 (set_dup_acks 0 s));;
  modify (fun s => if rto_min s <? rto s then set_rto (u32 (srtt s + 4 * rttvar s)) s else s);;
  modify (fun s => if rto s <? rto_min s then set_rto (rto_min s) s else s).

Definition tcp_process_ack (ack wnd : Z) : M unit :=
  s ← gets id;
  if (ack =? snd_una s) && (wnd =? snd_wnd s) then
    modify (fun s => set_dup_acks (u32 (dup_acks s + 1)) s);;
    tcp_cc_on_dup_ack
  else
    when (seq_gt ack (snd_una s)) (ack_advance ack);;
    s ← gets id;
    when (seq_gt wnd 0 && has (flags s) TCP_SOCK_FLAG_ZERO_PROBE) (
      clear_flags TCP_SOCK_FLAG_ZERO_PROBE;;
      modify (set_zero_probe_time 0));;
    modify (set_snd_wnd wnd);;
    modify (rtx_advance ack);;
    modify (fun s => if c_true (sack_enabled s) then sack_rebuild s else s);;
    tcp_push_pending;;
    s ← gets id;
    when (c_true (wait_send s)) tcp_wake_owner.

End cubic.

(** ** Lemmas: cube root and congestion avoidance *)

Lemma cube_le (a b : Z) : 0 <= a -> a <= b -> a * a * a <= b * b * b.
Proof. intros. assert (a * a <= b * b) by nia. apply Z.mul_le_mono_nonneg; nia. Qed.

Definition cube_root_of (r x : Z) : Prop := r ^ 3 <= x < (r + 1) ^ 3.

Lemma cube_root_of_mul r x : cube_root_of r x <-> r * r * r <= x < (r + 1) * (r + 1) * (r + 1).
Proof.
  unfold cube_root_of. replace (r ^ 3) with (r * r * r) by ring.
  by replace ((r + 1) ^ 3) with ((r + 1) * (r + 1) * (r + 1)) by ring.
Qed.

Lemma cubic_search_spec (n : nat) (lo hi x : Z) :
  0 <= lo <= hi -> hi <= 2097151 -> hi - lo < 2 ^ Z.of_nat n ->
  lo * lo * lo <= x < (hi + 1) * (hi + 1) * (hi + 1) ->
  cube_root_of (cubic_search n lo hi x) x.
Proof.
  revert lo hi. induction n as [|n IH]; intros lo hi Hl Hh Hd Hx; cbn [cubic_search].
  - change (2 ^ Z.of_nat 0) with 1 in Hd. apply cube_root_of_mul. by replace hi with lo in Hx by lia.
  - destruct (Z.ltb_spec lo hi) as [Hlt|Hlt].
    2: { apply cube_root_of_mul. by replace hi with lo in Hx by lia. }
    rewrite Nat2Z.inj_succ, Z.pow_succ_r in Hd by lia.
    rewrite (u32_small (lo + hi + 1)) by (unfold is_u32; lia).
    set (mid := (lo + hi + 1) / 2). assert (lo < mid <= hi) by (subst mid; dlia).
    assert (hi - lo = 2 * (hi - mid) \/ hi - lo = 2 * (hi - mid) + 1) by (subst mid; dlia).
    assert (mid * mid * mid <= 2097151 * 2097151 * 2097151) by (apply cube_le; lia).
    assert (u64 (u64 (mid * mid) * mid) = mid * mid * mid) as ->.
    { unfold u64. rewrite (Z.mod_small (mid * mid)) by nia. rewrite Z.mod_small by nia. done. }
    rewrite (u32_small (mid - 1)) by (unfold is_u32; lia).
    destruct (Z.leb_spec (mid * mid * mid) x); apply IH; try lia.
Qed.

(** The exit of the loop of congestion avoidance, with the passes it needs. *)
Lemma aimd_loop_exit (n : nat) (mss acc win : Z) :
  0 <= acc -> 0 <= win -> 1 <= mss -> acc + mss < 2 ^ 32 ->
  2 * acc < Z.of_nat n * (2 * win + mss * (Z.of_nat n - 1)) ->
  let '(acc', win') := aimd_loop n mss acc win in
  0 <= acc' < win' /\ win <= win'.
Proof.
  revert acc win. induction n as [|n IH]; intros acc win Ha Hw Hm Hb Hn; [lia|].
  cbn [aimd_loop]. destruct (Z.leb_spec win acc) as [Hle|Hle]; [|lia].
  rewrite !u32_small by (unfold is_u32; lia).
  specialize (IH (acc - win) (win + mss)). destruct (aimd_loop _ _ _ _) as [acc' win'].
  destruct IH as [H1 H2]; [lia..|nia|]. lia.
Qed.

(** ** Lemmas: what the operations leave alone *)

(** What the receive side owns: no operation of this file but the acknowledgement of
    duplicates touches it ([sack_rebuild] is not part of it). *)
Definition rcv_view (s : tcp_socket) :=
  (rcv_nxt s, rcv_wnd s, recv_buf s, recv_buf_size s, recv_buf_head s, recv_buf_tail s,
   recv_buf_len s, ooo s).

(** The part of the socket the send stream lives in. *)
Definition snd_view (s : tcp_socket) :=
  (snd_una s, snd_nxt s, rtx s, send_buf s, send_buf_size s, send_buf_head s, send_buf_tail s,
   send_buf_len s).

Definition conn_view (s : tcp_socket) :=
  (local_port s, remote_port s, local_ip s, remote_ip s, parent s).

Lemma clamp_rto_keeps {B} (f : tcp_socket -> B) s :
  (forall s v, f (set_rto v s) = f s) -> f (clamp_rto s) = f s.
Proof. intros H. unfold clamp_rto. by repeat case_if; rewrite ?H. Qed.

Lemma rtt_measure_keeps {B} (f : tcp_socket -> B) m s :
  (forall s v, f (set_rto v s) = f s) -> (forall s v, f (set_rttvar v s) = f s) ->
  (forall s v, f (set_srtt v s) = f s) -> f (rtt_measure m s) = f s.
Proof.
  intros H1 H2 H3. unfold rtt_measure. cbv zeta. rewrite clamp_rto_keeps, H1 by done.
  case_if; by rewrite ?H2, ?H3, ?H2.
Qed.

#[export] Hint Extern 0 (Keeps _ (modify (rtt_measure _))) =>
  apply keeps_modify; intro; apply rtt_measure_keeps; reflexivity : typeclass_instances.
#[export] Hint Extern 0 (Keeps _ (modify rto_backoff)) =>
  apply keeps_modify; intro; unfold rto_backoff; rewrite clamp_rto_keeps; reflexivity
  : typeclass_instances.

#[export] Hint Extern 0 (Keeps _ (modify (buffer_bytes _))) =>
  apply keeps_modify; intro; unfold buffer_bytes; case_match; reflexivity : typeclass_instances.

(** The search unfolds the operations. *)
#[export] Hint Extern 3 (Keeps _ ?m) =>
  progress unfold tcp_wake_owner, wake_one, on_cubic, rtx_push, tcp_send_segment,
    tcp_retransmit_segment, tcp_send_buffered, take_bytes, tcp_push_pending, cubic_update,
    tcp_cc_init_cubic, tcp_cc_set_algo, tcp_cc_on_ack, cubic_fast_retransmit,
    reno_fast_retransmit, tcp_cc_on_dup_ack, tcp_cc_on_loss, tcp_cc_on_rto,
    rtx_retransmit_due, ack_advance, tcp_process_ack, tcp_send : typeclass_instances.
#[export] Hint Extern 3 (Steady ?m) =>
  progress unfold tcp_wake_owner, wake_one, on_cubic, rtx_push, tcp_send_segment,
    tcp_retransmit_segment, tcp_send_buffered, take_bytes, tcp_push_pending, cubic_update,
    tcp_cc_init_cubic, tcp_cc_set_algo, tcp_cc_on_ack, cubic_fast_retransmit,
    reno_fast_retransmit, tcp_cc_on_dup_ack, tcp_cc_on_loss, tcp_cc_on_rto,
    rtx_retransmit_due, ack_advance, tcp_process_ack, tcp_send : typeclass_instances.

#[export] Instance keeps_push_loop {B} (f : tcp_socket -> B) n mss cap fl :
  (forall out, Keeps f (tcp_send_segment (Z.lor TCP_PSH TCP_ACK) out)) ->
  (forall k, Keeps f (take_bytes k)) -> Keeps f (push_loop n mss cap fl).
Proof. intros H1 H2. revert fl. induction n as [|n IH]; intros fl; cbn [push_loop]; apply _. Qed.

#[export] Instance steady_push_loop n mss cap fl : Steady (push_loop n mss cap fl).
Proof. revert fl. induction n as [|n IH]; intros fl; cbn [push_loop]; apply _. Qed.

Section views.
Context `{FloatOps}.

#[export] Instance keeps_process_ack_rcv ack wnd : Keeps rcv_view (tcp_process_ack ack wnd).
Proof. apply _. Qed.

#[export] Instance keeps_process_ack_state ack wnd : Keeps state (tcp_process_ack ack wnd).
Proof. apply _. Qed.

#[export] Instance steady_process_ack ack wnd : Steady (tcp_process_ack ack wnd).
Proof. apply _. Qed.

#[export] Instance steady_retransmit_due : Steady rtx_retransmit_due.
Proof. apply _. Qed.

End views.

(** ** The send stream *)

(** A data segment of the retransmission queue: a copy of its bytes, no SYN, no FIN. *)
Definition data_seg (g : tcp_segment) : Prop :=
  seg_flags g = Z.lor TCP_PSH TCP_ACK /\ 0 < len g < 2 ^ 16 /\
  exists d, data g = Some d /\ zlen d = len g.

(** The segments follow each other in the stream that starts at sequence number [isn],
    from position [p] to position [e]. *)
Fixpoint chain (isn p : Z) (q : list tcp_segment) (e : Z) : Prop :=
  match q with
  | [] => p = e
  | g :: q => seq g = u32 (isn + p) /\ chain isn (p + len g) q e
  end.

Definition payloads (q : list tcp_segment) : list Z := concat (seg_payload <$> q).

(** The bytes waiting in the send buffer. *)
Definition pending (s : tcp_socket) : list Z :=
  ring_window (send_buf_size s) (send_buf s) (send_buf_head s) (send_buf_len s).

Record send_ring (s : tcp_socket) : Prop := {
  sr_len : zlen (send_buf s) = send_buf_size s;
  sr_size : 65536 <= send_buf_size s <= 2 ^ 20;
  sr_head : 0 <= send_buf_head s < send_buf_size s;
  sr_count : 0 <= send_buf_len s <= send_buf_size s;
  sr_tail : send_buf_tail s = (send_buf_head s + send_buf_len s) mod send_buf_size s;
}.

(** The send stream [acc] (all the bytes accepted so far): acknowledged up to position
    [una], sent up to [nxt]; the retransmission queue holds the bytes from [lo] (at most
    [una]) to [nxt], the send buffer those after [nxt]. *)
Record snd_ok (isn lo una nxt : Z) (acc : list Z) (s : tcp_socket) : Prop := {
  so_una : snd_una s = u32 (isn + una);
  so_nxt : snd_nxt s = u32 (isn + nxt);
  so_order : 0 <= lo <= una /\ una - lo < 2 ^ 16 /\ 0 <= nxt - una < 2 ^ 30;
  so_chain : chain isn lo (rtx s) nxt;
  so_segs : Forall data_seg (rtx s);
  so_ring : send_ring s;
  so_bytes : exists old, zlen old = lo /\ acc = old ++ payloads (rtx s) ++ pending s;
}.

Lemma chain_app isn p q g e :
  chain isn p q e -> seq g = u32 (isn + e) -> chain isn p (q ++ [g]) (e + len g).
Proof.
  revert p. induction q as [|h q IH]; intros p; simpl.
  - by intros -> ->.
  - intros [-> Hc] Hg. split; [done|]. by apply IH.
Qed.

Lemma chain_le isn p q e : Forall data_seg q -> chain isn p q e -> p <= e.
Proof.
  intros Hq. revert p. induction Hq as [|g q (_ & Hl & _) Hq IH]; intros p; simpl; [lia|].
  intros [_ Hc%IH]. lia.
Qed.

Lemma payloads_cons g q : payloads (g :: q) = seg_payload g ++ payloads q.
Proof. done. Qed.

Lemma payloads_app q q' : payloads (q ++ q') = payloads q ++ payloads q'.
Proof. unfold payloads. by rewrite fmap_app, concat_app. Qed.

Lemma data_seg_payload g : data_seg g -> zlen (seg_payload g) = len g.
Proof. intros (_ & _ & d & E & Hd). unfold seg_payload. by rewrite E. Qed.

Lemma data_seg_consumed g : data_seg g -> consumed g = len g.
Proof.
  intros (E & Hl & _). unfold consumed. rewrite E.
  change (has (Z.lor TCP_PSH TCP_ACK) TCP_SYN) with false.
  change (has (Z.lor TCP_PSH TCP_ACK) TCP_FIN) with false.
  rewrite u32_small by (unfold is_u32; lia). lia.
Qed.

(** [rtx_drop] keeps the chain: what it removes is at most what [ack] covers, and the
    first segment it leaves is not covered. *)
Lemma rtx_drop_spec isn p a e q :
  Forall data_seg q -> chain isn p q e -> p <= a <= e -> e - p < 2 ^ 31 ->
  exists old p', q = old ++ rtx_drop (u32 (isn + a)) q /\
    zlen (payloads old) = p' - p /\ p <= p' <= a /\
    chain isn p' (rtx_drop (u32 (isn + a)) q) e /\
    forall g, head (rtx_drop (u32 (isn + a)) q) = Some g -> a < p' + len g.
Proof.
  intros Hq. revert p. induction Hq as [|g q Hg Hq IH]; intros p Hc Ha He.
  - exists [], p. simpl in *. split_and!; [done|change (zlen (payloads [])) with 0; lia|lia|lia|done|done].
  - destruct Hc as [Hs Hc]. pose proof (chain_le _ _ _ _ Hq Hc).
    pose proof Hg as (_ & Hl & _). cbn [rtx_drop]. rewrite data_seg_consumed by done.
    replace (if len g =? 0 then 1 else len g) with (len g) by (case_if; lia).
    rewrite Hs, seq_at_add, seq_le_pos by lia.
    destruct (Z.leb_spec (p + len g) a) as [Hle|Hle].
    + destruct (IH (p + len g) Hc) as (old & p' & E & Hz & Hp & Hc' & Hh); [lia..|].
      exists (g :: old), p'. split_and!; [by rewrite E at 1| |lia|lia|done|done].
      rewrite payloads_cons, zlen_app, data_seg_payload, Hz by done. lia.
    + exists [], p. split_and!; [done|change (zlen (payloads [])) with 0; lia|lia|lia|by split|].
      intros h [= <-]. lia.
Qed.

Lemma rtx_push_data sq fl d s w :
  reliable w -> 0 < zlen d ->
  sock_after (rtx_push sq fl d) s w =
  set_rtx (rtx s ++ [mk_seg sq (zlen d) (u32 (clock w O * 10)) fl (Some d)]) s.
Proof.
  intros [Hh _] Hd. unfold rtx_push.
  assert (forall n, (heap w n =? NULL) = false) as Hh' by (intros n; by apply Z.eqb_neq).
  assert ((0 <? zlen d) = true) as Hd' by (apply Z.ltb_lt; lia).
  mrun. rewrite Hh', Hd'. mrun. by rewrite Hh'.
Qed.

(** One segment handed to a link that takes it: the queue and [snd_nxt] grow by it. *)
Lemma send_segment_run d s w :
  reliable w -> 0 < zlen d < 2 ^ 31 ->
  exists s1 ts, snd_nxt s1 = u32 (snd_nxt s + zlen d) /\ rtx s1 = rtx s /\
    sock_after (tcp_send_segment (Z.lor TCP_PSH TCP_ACK) d) s w =
    set_rtx (rtx s1 ++ [mk_seg (u32 (snd_nxt s1 - zlen d)) (zlen d) ts
                          (Z.lor TCP_PSH TCP_ACK) (Some d)]) s1.
Proof.
  intros Hw Hd. unfold tcp_send_segment. rewrite sock_bind.
  rewrite (keeps (f := id) s w : sock_after (tcp_option_build _ _) s w = s).
  pose proof (steady (m := tcp_option_build 40 (has (Z.lor TCP_PSH TCP_ACK) TCP_SYN)) s w Hw) as Hw1.
  set (w1 := world_after _ s w) in *. set (opt := result _ s w). clearbody w1 opt.
  destruct Hw1 as [Hh Hl].
  assert (forall n, (heap w1 n =? NULL) = false) as Hh' by (intros n; by apply Z.eqb_neq).
  assert ((0 <? zlen d) = true) as Hd' by (apply Z.ltb_lt; lia).
  mrun. rewrite Hh'. mrun. rewrite Hl. change (0 =? 0) with true. cbv iota. mrun.
  rewrite Hd'. cbn [orb]. unfold when at 1. mrun.
  change (has (Z.lor TCP_PSH TCP_ACK) TCP_SYN) with false.
  change (has (Z.lor TCP_PSH TCP_ACK) TCP_FIN) with false. rewrite !Z.add_0_r.
  rewrite rtx_push_data; [|split; intros n; [apply (Hh (S n))|apply (Hl (S n))]|lia].
  rewrite (u32_small (zlen d)) by (unfold is_u32; lia).
  match goal with |- context [if ?b then set_rtt_pending ?x ?y else ?z] =>
    set (s1 := if b then set_rtt_pending x y else z) end.
  exists s1, (u32 (clock w1 1%nat * 10)).
  split_and!; [subst s1; by case_match|subst s1; by case_match|reflexivity].
Qed.

(** One segment handed to a link that takes it: the queue and [snd_nxt] grow by it. *)
Lemma send_segment_data d s w :
  reliable w -> is_u32 (snd_nxt s) -> 0 < zlen d < 2 ^ 31 ->
  let s' := sock_after (tcp_send_segment (Z.lor TCP_PSH TCP_ACK) d) s w in
  snd_nxt s' = u32 (snd_nxt s + zlen d) /\
  exists ts, rtx s' = rtx s ++ [mk_seg (snd_nxt s) (zlen d) ts (Z.lor TCP_PSH TCP_ACK) (Some d)].
Proof.
  intros Hw Hn Hd s'. destruct (send_segment_run d s w Hw Hd) as (s1 & ts & E1 & E2 & E).
  subst s'. rewrite E. split; [done|]. exists ts. cbn [rtx set_rtx]. rewrite E1, E2.
  do 3 f_equal. unfold u32. rewrite Zminus_mod_idemp_l, Z.add_simpl_r. by apply u32_small.
Qed.

(** Taking bytes out of the send buffer. *)
Lemma take_bytes_spec n s w :
  send_ring s -> 0 <= n <= send_buf_len s ->
  let s' := sock_after (take_bytes n) s w in
  send_ring s' /\ pending s = result (take_bytes n) s w ++ pending s' /\
  zlen (result (take_bytes n) s w) = n /\ send_buf_len s' = send_buf_len s - n /\
  world_after (take_bytes n) s w = w.
Proof.
  intros Hr Hn. pose proof Hr as []. unfold take_bytes. mrun. unfold id.
  rewrite ring_read_spec by lia. mrun. rewrite Z2Nat.id by lia.
  rewrite u32_small by (unfold is_u32; lia).
  set (h := (send_buf_head s + n) mod send_buf_size s).
  assert (0 <= h < send_buf_size s) by (apply ring_pos_range; lia).
  split_and!; [|unfold pending|by apply zlen_ring_window; lia|done|done].
  - constructor; try done.
    + change (0 <= send_buf_len s - n <= send_buf_size s). lia.
    + change (send_buf_tail s = (h + (send_buf_len s - n)) mod send_buf_size s).
      subst h. rewrite sr_tail0, ring_step. f_equal. lia.
  - change (ring_window (send_buf_size s) (send_buf s) (send_buf_head s) (send_buf_len s) =
      ring_window (send_buf_size s) (send_buf s) (send_buf_head s) n ++
      ring_window (send_buf_size s) (send_buf s) h (send_buf_len s - n)).
    subst h. rewrite ring_window_mod, <-ring_window_app by lia. f_equal. lia.
Qed.

(** Moving the bytes [d] at the front of the send buffer to the wire. *)
Lemma snd_ok_send isn lo una nxt acc s n w :
  snd_ok isn lo una nxt acc s -> reliable w -> 0 < n <= send_buf_len s -> n < 2 ^ 16 ->
  nxt + n - una < 2 ^ 30 ->
  let m := out ← take_bytes n; tcp_send_segment (Z.lor TCP_PSH TCP_ACK) out in
  snd_ok isn lo una (nxt + n) acc (sock_after m s w) /\
  send_buf_len (sock_after m s w) = send_buf_len s - n /\ reliable (world_after m s w).
Proof.
  intros Hok Hw Hn Hn' Hf m. pose proof Hok as []. destruct so_bytes0 as (old & Hold & Hacc).
  destruct (take_bytes_spec n s w so_ring0) as (Hr & Hp & Hl & Hlen & Hw'); [lia|].
  subst m. rewrite !sock_bind, !world_bind, Hw'.
  set (s1 := sock_after (take_bytes n) s w) in *. set (out := result (take_bytes n) s w) in *.
  assert (snd_una s1 = snd_una s /\ snd_nxt s1 = snd_nxt s /\ rtx s1 = rtx s) as (E1 & E2 & E3).
  { assert ((snd_una s1, snd_nxt s1, rtx s1) = (snd_una s, snd_nxt s, rtx s)) as [= -> -> ->].
    { apply (keeps (f := fun s => (snd_una s, snd_nxt s, rtx s)) s w). }
    done. }
  assert (is_u32 (snd_nxt s1)) as Hu by (rewrite E2, so_nxt0; apply u32_range).
  destruct (send_segment_data out s1 w Hw Hu) as [Hn1 [ts Hq] ]; [lia|].
  set (s2 := sock_after (tcp_send_segment _ out) s1 w) in *.
  assert ((snd_una s2, send_buf s2, send_buf_size s2, send_buf_head s2, send_buf_tail s2,
           send_buf_len s2) = (snd_una s1, send_buf s1, send_buf_size s1, send_buf_head s1,
           send_buf_tail s1, send_buf_len s1)) as [= F1 F2 F3 F4 F5 F6].
  { apply (keeps (f := fun s => (snd_una s, send_buf s, send_buf_size s, send_buf_head s,
      send_buf_tail s, send_buf_len s)) s1 w). }
  split_and!; [|by rewrite F6|by apply steady].
  constructor.
  - by rewrite F1, E1.
  - by rewrite Hn1, E2, so_nxt0, Hl, seq_at_add.
  - lia.
  - rewrite Hq, E3. apply (chain_app isn lo (rtx s) (mk_seg (snd_nxt s1) (zlen out) ts
      (Z.lor TCP_PSH TCP_ACK) (Some out)) nxt) in so_chain0; [|by rewrite E2].
    by replace (nxt + n) with (nxt + zlen out) by lia.
  - rewrite Hq, E3. apply Forall_app. split; [done|]. apply Forall_singleton.
    split; [done|]. cbn [len data]. split; [lia|]. by exists out.
  - destruct Hr. constructor; rewrite ?F2, ?F3, ?F4, ?F5, ?F6; done.
  - exists old. split; [done|]. rewrite Hacc, Hp, Hq, E3, payloads_app. unfold pending.
    rewrite F2, F3, F4, F6. change (payloads [_]) with (out ++ []). by rewrite app_nil_r, <-!app_assoc.
Qed.

Lemma push_loop_spec (n : nat) mss cap isn lo una nxt acc s w :
  snd_ok isn lo una nxt acc s -> reliable w -> 1 <= mss < 2 ^ 16 -> cap < 2 ^ 30 ->
  send_buf_len s <= Z.of_nat n ->
  let m := push_loop n mss cap (nxt - una) in
  exists nxt', snd_ok isn lo una nxt' acc (sock_after m s w) /\ nxt <= nxt' /\
    nxt' - una <= Z.max (nxt - una) cap /\
    (send_buf_len (sock_after m s w) = 0 \/ cap <= nxt' - una).
Proof.
  revert nxt s w. induction n as [|n IH]; intros nxt s w Hok Hw Hm Hc Hn m; subst m;
    pose proof Hok as []; pose proof (sr_count _ so_ring0) as Hcnt.
  { exists nxt. split_and!; [done|lia|lia|left; cbn; lia]. }
  cbn [push_loop]. mrun. unfold id. destruct (Z.eqb_spec (send_buf_len s) 0) as [E|E].
  { exists nxt. split_and!; [done|lia|lia|by left]. }
  set (k := if mss <? send_buf_len s then mss else send_buf_len s).
  assert (1 <= k < 2 ^ 16 /\ k <= send_buf_len s) as [Hk Hk'] by (subst k; case_if; lia).
  rewrite (u32_small (nxt - una + k)) by (unfold is_u32; lia).
  set (over := cap <? nxt - una + k).
  destruct (over && ((cap <=? nxt - una) || (u32 (cap - (nxt - una)) =? 0))) eqn:Hstop.
  { exists nxt. split_and!; [done|lia|lia|right]. subst over.
    apply andb_true_iff in Hstop as [Ho Hf]. apply orb_true_iff in Hf as [Hf|Hf]; [lia|].
    destruct (Z.leb_spec cap (nxt - una)); [done|].
    rewrite u32_small in Hf by (unfold is_u32; lia). lia. }
  set (j := if over then u32 (cap - (nxt - una)) else k).
  assert (0 < j <= k /\ nxt + j - una <= cap) as [Hj Hj'].
  { subst j over. destruct (Z.ltb_spec cap (nxt - una + k)); cbn [andb] in Hstop; [|lia].
    apply orb_false_iff in Hstop as [Hs1 Hs2]. zbool.
    rewrite u32_small in * by (unfold is_u32; lia). lia. }
  rewrite (sock_bind heap_alloc).
  assert ((result heap_alloc s w =? NULL) = false) as -> by (apply Z.eqb_neq; apply Hw). cbv iota.
  pose proof (steady (m := heap_alloc) s w Hw) as Hw1. set (w1 := world_after heap_alloc s w) in *.
  change (sock_after heap_alloc s w) with s.
  destruct (snd_ok_send isn lo una nxt acc s j w1 Hok Hw1) as (Hok' & Hlen & Hw'); [lia..|].
  rewrite sock_bind_assoc, sock_bind. set (s2 := sock_after _ s w1) in *.
  set (w2 := world_after _ s w1) in *. clearbody s2 w2. mrun. unfold id.
  rewrite (so_nxt _ _ _ _ _ _ Hok'), (so_una _ _ _ _ _ _ Hok'), seq_at_sub by lia.
  destruct (IH (nxt + j) s2 w2 Hok' Hw' Hm Hc) as (nxt' & H1 & H2 & H3 & H4); [lia|].
  exists nxt'. split_and!; [done|lia|lia|done].
Qed.

(** The limits the peer sets. *)
Definition snd_env (s : tcp_socket) : Prop :=
  0 <= snd_wnd s < 2 ^ 30 /\ is_u16 (mss_peer s) /\ is_u16 (mss_local s).

Lemma effective_mss_range s : snd_env s -> 1 <= tcp_effective_mss s < 2 ^ 16.
Proof.
  intros (_ & [H1 H2] & [H3 H4]). unfold tcp_effective_mss, MSS. repeat case_if; lia.
Qed.

(** The invariant depends on the send view only. *)
Lemma snd_ok_view isn lo una nxt acc s s' :
  snd_view s' = snd_view s -> snd_ok isn lo una nxt acc s -> snd_ok isn lo una nxt acc s'.
Proof.
  intros [= E1 E2 E3 E4 E5 E6 E7 E8] []. destruct so_ring0.
  constructor; rewrite ?E1, ?E2, ?E3; try done.
  - constructor; by rewrite ?E4, ?E5, ?E6, ?E7, ?E8.
  - unfold pending in *. by rewrite E4, E5, E6, E8.
Qed.

(** May the buffered bytes be sent now (Nagle)? *)
Definition may_push (s : tcp_socket) : bool :=
  ((state s =? TCP_STATE_ESTABLISHED) || (state s =? TCP_STATE_CLOSE_WAIT)) &&
  negb (snd_wnd s =? 0) &&
  ((tcp_effective_mss s <=? send_buf_len s) || (snd_una s =? snd_nxt s) ||
   has (flags s) TCP_SOCK_FLAG_NODELAY || has (flags s) TCP_SOCK_FLAG_CLOSING).

Lemma push_pending_ok isn lo una nxt acc s w :
  snd_ok isn lo una nxt acc s -> reliable w -> snd_env s ->
  let s' := sock_after tcp_push_pending s w in
  let cap := Z.min (snd_wnd s) (cwnd s) in
  exists nxt', snd_ok isn lo una nxt' acc s' /\ nxt <= nxt' /\
    nxt' - una <= Z.max (nxt - una) cap /\
    (may_push s = true -> send_buf_len s' = 0 \/ cap <= nxt' - una).
Proof.
  intros Hok Hw He s' cap. pose proof (effective_mss_range s He) as Hmss.
  pose proof Hok as []. pose proof (sr_count _ so_ring0).
  assert (forall s1, snd_view s1 = snd_view s ->
    (may_push s = true -> send_buf_len s1 = 0 \/ cap <= nxt - una) ->
    exists nxt', snd_ok isn lo una nxt' acc s1 /\ nxt <= nxt' /\
      nxt' - una <= Z.max (nxt - una) cap /\
      (may_push s = true -> send_buf_len s1 = 0 \/ cap <= nxt' - una)) as Hstay.
  { intros s1 Hv Hp. exists nxt. split_and!; [by eapply snd_ok_view|lia|lia|done]. }
  subst s'. unfold tcp_push_pending. rewrite sock_bind. change (result (gets id) s w) with s.
  change (sock_after (gets id) s w) with s. change (world_after (gets id) s w) with w.
  rewrite <-negb_orb.
  destruct (_ || _) eqn:Est; cbn [negb].
  2: { apply Hstay; [done|]. unfold may_push. by rewrite Est. }
  destruct (snd_wnd s =? 0) eqn:Ewnd.
  { apply Hstay; [apply (keeps (f := snd_view) s w)|]. unfold may_push. rewrite Ewnd.
    cbn [negb]. by rewrite andb_false_r. }
  rewrite sock_bind. set (s1 := sock_after (clear_flags _) s w).
  change (world_after (clear_flags _) s w) with w.
  assert (snd_view s1 = snd_view s) as Hv by apply (keeps (f := snd_view) s w).
  assert (send_buf_len s1 = send_buf_len s) as El by apply (keeps (f := send_buf_len) s w).
  clearbody s1.
  rewrite so_nxt0, so_una0, seq_at_sub by lia.
  replace (if snd_wnd s <? cwnd s then snd_wnd s else cwnd s) with cap by (subst cap; case_if; lia).
  destruct ((cap <=? nxt - una) && (send_buf_len s =? 0)) eqn:Estop.
  { apply andb_true_iff in Estop as [Hc _]. apply Hstay; [done|]. intros _. right. lia. }
  rewrite <-so_nxt0, <-so_una0.
  destruct (_ || has (flags s) TCP_SOCK_FLAG_CLOSING) eqn:Enagle; cbn [negb].
  2: { apply Hstay; [done|]. unfold may_push. rewrite Enagle. by rewrite andb_false_r. }
  destruct (push_loop_spec (Z.to_nat (send_buf_len s)) (tcp_effective_mss s) cap isn lo una nxt acc
    s1 w) as (nxt' & H1 & H2 & H3 & H4); [by eapply snd_ok_view|done|lia| |lia|].
  { subst cap. destruct He as [ [He1 He2] _]. lia. }
  exists nxt'. by split_and!.
Qed.

Definition env_view (s : tcp_socket) := (snd_wnd s, mss_peer s, mss_local s).

Lemma snd_env_view s s' : env_view s' = env_view s -> snd_env s -> snd_env s'.
Proof. intros [= E1 E2 E3]. unfold snd_env. by rewrite E1, E2, E3. Qed.

(** What [ack_advance] does to the send view: it moves [snd_una]. *)
Lemma ack_advance_view ack s w :
  snd_view (sock_after (ack_advance ack) s w) = snd_view (set_snd_una ack s) /\
  env_view (sock_after (ack_advance ack) s w) = env_view s.
Proof.
  split; [|apply (keeps (f := env_view) s w)].
  assert (forall s1, snd_view s1 = snd_view s ->
            snd_view (set_snd_una ack s1) = snd_view (set_snd_una ack s)) as Hset.
  { by intros s1 [= E1 E2 E3 E4 E5 E6 E7 E8]; unfold snd_view; cbn; rewrite E2, E3, E4, E5, E6, E7, E8. }
  unfold ack_advance. rewrite sock_bind.
  set (s1 := sock_after (modify _) s w).
  assert (snd_view s1 = snd_view s) as H1 by apply (keeps (f := snd_view) s w).
  clearbody s1. set (w1 := world_after _ s w). clearbody w1.
  rewrite (sock_bind (gets id)), (sock_bind (modify _)).
  set (s2 := sock_after (modify (set_snd_una ack)) _ _).
  change s2 with (set_snd_una ack s1). clear s2.
  etransitivity; [|apply Hset, H1].
  match goal with |- snd_view (sock_after ?m ?s ?w) = _ => apply (keeps (f := snd_view) (m := m) s w) end.
Qed.

Lemma rtx_drop_old isn p a e q :
  Forall data_seg q -> chain isn p q e -> a < p -> p - a < 2 ^ 29 -> e - p < 2 ^ 30 + 2 ^ 16 ->
  rtx_drop (u32 (isn + a)) q = q.
Proof.
  intros Hq Hc Ha Hp He. destruct Hq as [|g q Hg Hq]; [done|]. destruct Hc as [Hs Hc].
  pose proof Hg as (_ & Hl & _). cbn [rtx_drop]. rewrite data_seg_consumed by done.
  replace (if len g =? 0 then 1 else len g) with (len g) by (case_if; lia).
  pose proof (chain_le _ _ _ _ Hq Hc).
  rewrite Hs, seq_at_add, seq_le_pos by lia. destruct (Z.leb_spec (p + len g) a); [lia|done].
Qed.

(** Dropping what an acknowledgement in [una .. nxt], or an older one, covers. *)
Lemma rtx_advance_ok isn lo una nxt acc a s :
  snd_ok isn lo una nxt acc s -> una - 2 ^ 29 < a <= una ->
  exists lo', snd_ok isn lo' una nxt acc (rtx_advance (u32 (isn + a)) s).
Proof.
  intros [] Ha. destruct so_bytes0 as (old & Hold & Hacc).
  destruct (Z.lt_ge_cases a lo) as [Hlo|Hlo].
  { exists lo. apply (snd_ok_view _ _ _ _ _ s); [|by constructor; eauto].
    unfold rtx_advance. rewrite (rtx_drop_old isn lo a nxt) by (done || lia). by destruct s. }
  destruct (rtx_drop_spec isn lo a nxt (rtx s)) as (dr & p & E & Hz & Hp & Hc & Hh);
    [done|done|lia|lia|].
  exists p. constructor; try done.
  - lia.
  - change (Forall data_seg (rtx_drop (u32 (isn + a)) (rtx s))).
    rewrite E in so_segs0. by apply Forall_app in so_segs0 as [_ ?].
  - destruct so_ring0. by constructor.
  - exists (old ++ payloads dr). split; [rewrite zlen_app; lia|].
    change (pending (rtx_advance _ s)) with (pending s).
    change (rtx (rtx_advance _ s)) with (rtx_drop (u32 (isn + a)) (rtx s)).
    rewrite Hacc, E at 1. by rewrite payloads_app, <-!app_assoc.
Qed.

(** Moving [una] forward, then dropping what it covers. *)
Lemma rtx_advance_una_ok isn lo una nxt acc a s s' :
  snd_ok isn lo una nxt acc s -> una <= a <= nxt ->
  snd_view s' = snd_view (set_snd_una (u32 (isn + a)) s) ->
  exists lo', snd_ok isn lo' a nxt acc (rtx_advance (u32 (isn + a)) s').
Proof.
  intros [] Ha Hv. destruct so_bytes0 as (old & Hold & Hacc).
  destruct (rtx_drop_spec isn lo a nxt (rtx s)) as (dr & p & E & Hz & Hp & Hc & Hh);
    [done|done|lia|lia|].
  injection Hv as E1 E2 E3 E4 E5 E6 E7 E8. cbn [snd_una snd_nxt rtx send_buf send_buf_size send_buf_head
    send_buf_tail send_buf_len set_snd_una] in *.
  exists p. unfold rtx_advance. rewrite E3. constructor; cbn [snd_una snd_nxt rtx set_rtx]; try done.
  - by rewrite E2.
  - assert (a - p < 2 ^ 16); [|lia].
    rewrite E in so_segs0. apply Forall_app in so_segs0 as [_ Hs].
    destruct (rtx_drop _ _) as [|g q]; [simpl in Hc; lia|].
    specialize (Hh g eq_refl). apply Forall_cons in Hs as [(_ & Hl & _) _]. lia.
  - rewrite E in so_segs0. by apply Forall_app in so_segs0 as [_ ?].
  - destruct so_ring0. constructor; cbn [send_buf send_buf_size send_buf_head
      send_buf_tail send_buf_len set_rtx]; by rewrite ?E4, ?E5, ?E6, ?E7, ?E8.
  - exists (old ++ payloads dr). split; [rewrite zlen_app; lia|].
    unfold pending in *. cbn [send_buf send_buf_size send_buf_head send_buf_tail send_buf_len set_rtx].
    rewrite E4, E5, E6, E8, Hacc, E at 1. by rewrite payloads_app, <-!app_assoc.
Qed.

(** ** Growing the send buffer *)

Lemma grow_spec (n : nat) size need :
  65536 <= size <= 2 ^ 20 -> need <= 256 * 1024 -> need <= size * 2 ^ Z.of_nat n ->
  need <= grow n size need <= 2 ^ 20 /\ size <= grow n size need.
Proof.
  revert size. induction n as [|n IH]; intros size Hs Hn Hp; cbn [grow].
  - change (2 ^ Z.of_nat 0) with 1 in Hp. lia.
  - rewrite Nat2Z.inj_succ, Z.pow_succ_r in Hp by lia.
    destruct (Z.ltb_spec size need) as [H|H]; [|lia].
    rewrite u32_small by (unfold is_u32; lia). destruct (IH (size * 2)) as [H1 H2]; [lia..|]. lia.
Qed.

Lemma regrown_ok size s :
  send_ring s -> send_buf_len s < size -> 65536 <= size <= 2 ^ 20 ->
  send_ring (regrown size s) /\ pending (regrown size s) = pending s /\
  (snd_una (regrown size s), snd_nxt (regrown size s), rtx (regrown size s),
   send_buf_len (regrown size s)) = (snd_una s, snd_nxt s, rtx s, send_buf_len s).
Proof.
  intros [] Hl Hs. unfold regrown. rewrite u32_small by (unfold is_u32; lia).
  replace (if send_buf_len s <? _ then _ else _)
    with (Z.min (send_buf_len s) (send_buf_size s - send_buf_head s)) by (case_if; lia).
  set (f := Z.min _ _). set (nb := _ ++ _ ++ _).
  pose proof (ring_window_split (send_buf_size s) ltac:(lia) (send_buf s) (send_buf_head s)
    (send_buf_len s) sr_len0 ltac:(lia) ltac:(lia)) as Hw. cbv zeta in Hw. fold f in Hw.
  assert (nb = pending s ++ replicate (Z.to_nat (size - send_buf_len s)) 0) as Hnb.
  { subst nb. unfold pending. by rewrite Hw, <-app_assoc. }
  assert (zlen (pending s) = send_buf_len s) as Hp by (apply zlen_ring_window; lia).
  assert (zlen nb = size) as Hz.
  { rewrite Hnb, zlen_app, Hp. unfold zlen. rewrite length_replicate. lia. }
  split_and!; [|unfold pending|done].
  - constructor; cbn [send_buf send_buf_size send_buf_head send_buf_tail send_buf_len set_send_buf_tail
      set_send_buf_head set_send_buf_size set_send_buf]; [done|lia|lia|lia|].
    by rewrite Z.mod_small by lia.
  - change (ring_window size nb 0 (send_buf_len s) = pending s).
    rewrite (ring_window_slice size) by lia. rewrite drop_0, Hnb, take_app_length'; [done|].
    unfold zlen in Hp. lia.
Qed.

Lemma buffer_bytes_ok d s :
  send_ring s -> send_buf_len s + zlen d <= send_buf_size s ->
  send_ring (buffer_bytes d s) /\ pending (buffer_bytes d s) = pending s ++ d /\
  (snd_una (buffer_bytes d s), snd_nxt (buffer_bytes d s), rtx (buffer_bytes d s)) =
  (snd_una s, snd_nxt s, rtx s).
Proof.
  intros [] Hd. pose proof (zlen_nonneg d). unfold buffer_bytes.
  pose proof (ring_write_spec (send_buf_size s) ltac:(lia) d (send_buf s) (send_buf_head s)
    (send_buf_len s) sr_len0 ltac:(lia) ltac:(lia) Hd) as Hw.
  rewrite <-sr_tail0 in Hw. destruct (ring_write _ _ _ _) as [b q]. destruct Hw as (H1 & H2 & H3).
  rewrite u32_small by (unfold is_u32; lia).
  split_and!; [|exact H3|done].
  constructor; cbn [send_buf send_buf_size send_buf_head send_buf_tail send_buf_len set_send_buf_tail
      set_send_buf_len set_send_buf]; [done|done|done|lia|]. rewrite H2. f_equal. lia.
Qed.

(** Adding bytes at the end of the stream. *)
Lemma snd_ok_buffer isn lo una nxt acc s s' d :
  snd_ok isn lo una nxt acc s -> send_ring s' -> pending s' = pending s ++ d ->
  (snd_una s', snd_nxt s', rtx s') = (snd_una s, snd_nxt s, rtx s) ->
  snd_ok isn lo una nxt (acc ++ d) s'.
Proof.
  intros [] Hr Hp [= E1 E2 E3]. constructor; rewrite ?E1, ?E2, ?E3; try done.
  destruct so_bytes0 as (old & Ho & ->). exists old. split; [done|].
  by rewrite Hp, <-!app_assoc.
Qed.

(** [tcp_send_buffered] takes all of the bytes or none of them. *)
Lemma send_buffered_ok isn lo una nxt acc d s w :
  snd_ok isn lo una nxt acc s -> 0 < zlen d < 2 ^ 31 ->
  let r := result (tcp_send_buffered d) s w in
  let s' := sock_after (tcp_send_buffered d) s w in
  (r = zlen d /\ snd_ok isn lo una nxt (acc ++ d) s') \/ (r = -1 /\ s' = s).
Proof.
  intros Hok Hd. pose proof Hok as []. pose proof so_ring0 as []. unfold tcp_send_buffered.
  rewrite (sock_bind (gets id)), (result_bind (gets id)). change (result (gets id) s w) with s.
  change (sock_after (gets id) s w) with s. set (w1 := world_after (gets id) s w).
  rewrite u32_small by (unfold is_u32; lia). rewrite s32_small by lia.
  destruct (Z.ltb_spec (send_buf_size s) (send_buf_len s + zlen d)) as [Hg|Hg].
  - destruct (Z.ltb_spec (256 * 1024) (send_buf_len s + zlen d)) as [Hb|Hb]; [by right|].
    rewrite (sock_bind heap_alloc), (result_bind heap_alloc). change (sock_after heap_alloc s w1) with s.
    destruct (result heap_alloc s w1 =? NULL); [by right|]. left. mrun. split; [done|].
    destruct (grow_spec 32 (send_buf_size s) (send_buf_len s + zlen d)) as [G1 G2]; [lia..|].
    set (size := grow 32 _ _) in *.
    destruct (regrown_ok size s so_ring0) as (R1 & R2 & R3); [lia..|].
    destruct (buffer_bytes_ok d (regrown size s) R1) as (B1 & B2 & B3).
    { change (send_buf_len s + zlen d <= size). lia. }
    apply (snd_ok_buffer _ _ _ _ _ s); [done|done|by rewrite B2, R2|].
    by rewrite B3.
  - left. mrun. split; [done|].
    destruct (buffer_bytes_ok d s so_ring0) as (B1 & B2 & B3); [lia|].
    by apply (snd_ok_buffer _ _ _ _ _ s).
Qed.

(** ** Every operation on the send stream *)

Section send_ops.
Context `{FloatOps}.

Lemma cc_on_dup_ack_ok isn lo una nxt acc s w :
  snd_ok isn lo una nxt acc s -> reliable w -> snd_env s ->
  let s' := sock_after tcp_cc_on_dup_ack s w in
  (exists nxt', snd_ok isn lo una nxt' acc s' /\ nxt <= nxt') /\ snd_env s'.
Proof.
  intros Hok Hw He s'. split.
  2: { eapply snd_env_view; [|exact He]. apply (keeps (f := env_view) s w). }
  subst s'. unfold tcp_cc_on_dup_ack.
  rewrite (sock_bind (gets id)). change (result (gets id) s w) with s.
  change (sock_after (gets id) s w) with s. change (world_after (gets id) s w) with w.
  destruct (_ && (fast_recovery s =? 0)).
  { exists nxt. split; [|lia]. apply (snd_ok_view _ _ _ _ _ s); [|done].
    match goal with |- snd_view (sock_after ?m s w) = _ => apply (keeps (f := snd_view) (m := m) s w) end. }
  unfold when at 1. destruct (_ && _); [|by exists nxt].
  rewrite !sock_bind.
  set (s1 := sock_after (modify _) s w). set (w1 := world_after (modify _) s w).
  set (s2 := sock_after _ s1 w1). set (w2 := world_after _ s1 w1).
  assert (snd_view s2 = snd_view s) as Hv.
  { transitivity (snd_view s1); [apply (keeps (f := snd_view) s1 w1)|apply (keeps (f := snd_view) s w)]. }
  assert (env_view s2 = env_view s) as Hv'.
  { transitivity (env_view s1); [apply (keeps (f := env_view) s1 w1)|apply (keeps (f := env_view) s w)]. }
  assert (reliable w2) as Hw2 by (apply steady, steady; done). clearbody s2 w2.
  destruct (push_pending_ok isn lo una nxt acc s2 w2) as (nxt' & H1 & H2 & _);
    [by eapply snd_ok_view|done|by eapply snd_env_view|]. by exists nxt'.
Qed.

(** An acknowledgement, new or old (by less than 2^29 bytes). *)
Lemma process_ack_ok isn lo una nxt acc a wnd s w :
  snd_ok isn lo una nxt acc s -> reliable w -> snd_env s ->
  una - 2 ^ 29 < a <= nxt -> 0 <= wnd < 2 ^ 30 ->
  let s' := sock_after (tcp_process_ack (u32 (isn + a)) wnd) s w in
  (exists lo' nxt', snd_ok isn lo' (Z.max una a) nxt' acc s' /\ nxt <= nxt') /\ snd_env s'.
Proof.
  intros Hok Hw He Ha Hwnd s'. subst s'. pose proof (so_una _ _ _ _ _ _ Hok) as Eu.
  pose proof (so_order _ _ _ _ _ _ Hok) as Ho. unfold tcp_process_ack.
  rewrite (sock_bind (gets id)). change (result (gets id) s w) with s.
  change (sock_after (gets id) s w) with s. change (world_after (gets id) s w) with w.
  rewrite Eu, seq_eq_pos, seq_gt_pos by lia.
  destruct ((a =? una) && (wnd =? snd_wnd s)) eqn:Edup.
  { apply andb_true_iff in Edup as [Ea _]. zbool. subst a. rewrite Z.max_id.
    rewrite sock_bind. set (s1 := sock_after (modify _) s w). set (w1 := world_after (modify _) s w).
    destruct (cc_on_dup_ack_ok isn lo una nxt acc s1 w1) as [(nxt' & H1 & H2) H3];
      [by eapply (snd_ok_view _ _ _ _ _ s)|done|by eapply (snd_env_view s)|].
    split; [by exists lo, nxt'|done]. }
  clear Edup. rewrite sock_bind. set (w1 := world_after (when _ _) s w).
  assert (reliable w1) as Hw1 by (by apply steady).
  assert (exists lo' s1, sock_after (when (una <? a) (ack_advance (u32 (isn + a)))) s w = s1 /\
    snd_ok isn lo' (Z.max una a) nxt acc (rtx_advance (u32 (isn + a)) s1) /\ snd_env s1)
    as (lo' & s1 & -> & Hok1 & He1).
  { destruct (Z.ltb_spec una a) as [Hlt|Hle]; cbn [when].
    - destruct (ack_advance_view (u32 (isn + a)) s w) as [V1 V2].
      destruct (rtx_advance_una_ok isn lo una nxt acc a s _ Hok ltac:(lia) V1) as [lo' Hl].
      exists lo'. eexists. split; [done|]. rewrite Z.max_r by lia. split; [done|].
      by eapply snd_env_view.
    - destruct (rtx_advance_ok isn lo una nxt acc a s Hok ltac:(lia)) as [lo' Hl].
      exists lo', s. rewrite Z.max_l by lia. done. }
  clearbody w1. rewrite sock_gets, sock_bind.
  set (s2 := sock_after (when _ _) s1 w1). set (w2 := world_after (when _ _) s1 w1).
  assert (snd_view s2 = snd_view s1) as V2 by apply (keeps (f := snd_view) s1 w1).
  assert (env_view s2 = env_view s1) as V3 by apply (keeps (f := env_view) s1 w1).
  assert (reliable w2) as Hw2 by (by apply steady). clearbody s2 w2.
  rewrite !sock_modify.
  match goal with |- context [sock_after (tcp_push_pending ≫= ?k) ?x w2] =>
    set (s5 := x); set (k5 := k) end.
  assert (snd_view s5 = snd_view (rtx_advance (u32 (isn + a)) s1)) as V5.
  { transitivity (snd_view (rtx_advance (u32 (isn + a)) s2)).
    - subst s5. by case_match.
    - unfold snd_view in *. unfold rtx_advance. cbn. by injection V2 as -> -> -> -> -> -> -> ->. }
  assert (env_view s5 = (wnd, mss_peer s1, mss_local s1)) as V6.
  { transitivity (env_view (set_snd_wnd wnd s2)).
    - subst s5. by case_match.
    - injection V3 as _ E2 E3. unfold env_view. cbn. by rewrite E2, E3. }
  assert (snd_env s5) as He5.
  { injection V6 as E1 E2 E3. destruct He1 as (_ & ? & ?). unfold snd_env. by rewrite E1, E2, E3. }
  clearbody s5. rewrite sock_bind. set (w6 := world_after _ s5 w2).
  destruct (push_pending_ok isn lo' (Z.max una a) nxt acc s5 w2) as (nxt' & H1 & H2 & _);
    [by eapply snd_ok_view|done|done|]. set (s6 := sock_after tcp_push_pending s5 w2) in *.
  assert (env_view s6 = env_view s5) as V7 by apply (keeps (f := env_view) s5 w2).
  set (s7 := sock_after _ s6 w6).
  assert (snd_view s7 = snd_view s6) as V8 by apply (keeps (f := snd_view) s6 w6).
  assert (env_view s7 = env_view s6) as V9 by apply (keeps (f := env_view) s6 w6).
  split; [exists lo', nxt'; split; [by eapply snd_ok_view|done]|].
  apply (snd_env_view s5); [congruence|done].
Qed.

(** The retransmission timer. *)
Lemma retransmit_due_ok isn lo una nxt acc s w :
  snd_ok isn lo una nxt acc s -> snd_env s ->
  let s' := sock_after rtx_retransmit_due s w in snd_ok isn lo una nxt acc s' /\ snd_env s'.
Proof.
  intros Hok He. split.
  - eapply snd_ok_view; [|done]. apply (keeps (f := snd_view) s w).
  - eapply snd_env_view; [|done]. apply (keeps (f := env_view) s w).
Qed.

(** [tcp_send] accepts all the bytes or none. *)
Lemma tcp_send_ok isn lo una nxt acc d s w :
  snd_ok isn lo una nxt acc s -> reliable w -> snd_env s -> zlen d < 2 ^ 31 ->
  let r := result (tcp_send d) s w in
  let s' := sock_after (tcp_send d) s w in
  (exists nxt', snd_ok isn lo una nxt' (acc ++ take (Z.to_nat r) d) s' /\ nxt <= nxt') /\
  snd_env s' /\ (r = zlen d \/ r = -1).
Proof.
  intros Hok Hw He Hd r s'. pose proof (zlen_nonneg d).
  assert (snd_env s') as He'.
  { eapply snd_env_view; [|done]. apply (keeps (f := env_view) s w). }
  cut ((exists nxt', snd_ok isn lo una nxt' (acc ++ take (Z.to_nat r) d) s' /\ nxt <= nxt') /\
       (r = zlen d \/ r = -1)); [tauto|]. clear He'. revert r s'.
  unfold tcp_send. rewrite sock_gets, result_bind. change (result (gets id) s w) with s.
  change (sock_after (gets id) s w) with s. change (world_after (gets id) s w) with w.
  unfold id. rewrite <-!negb_orb. destruct (_ || _); cbn [negb].
  2: { split; [|by right]. exists nxt. cbv zeta. change (take _ d) with (@nil Z). rewrite app_nil_r.
       split; [done|lia]. }
  destruct (Z.eqb_spec (zlen d) 0) as [E|E].
  { split; [|by left]. exists nxt. cbv zeta. change (take _ d) with (@nil Z). rewrite app_nil_r.
       split; [done|lia]. }
  rewrite sock_bind, result_bind.
  set (s1 := sock_after (tcp_send_buffered d) s w). set (w1 := world_after (tcp_send_buffered d) s w).
  set (r := result (tcp_send_buffered d) s w).
  assert (reliable w1) as Hw1 by (by apply steady).
  assert (env_view s1 = env_view s) as Hv by apply (keeps (f := env_view) s w).
  pose proof (send_buffered_ok isn lo una nxt acc d s w Hok ltac:(lia)) as Hb. cbv zeta in Hb.
  fold r s1 in Hb. clearbody s1 w1 r. rewrite sock_bind, result_bind.
  destruct Hb as [ [-> Hok1] | [-> ->] ].
  - destruct (Z.ltb_spec 0 (zlen d)); [|lia]. cbn [when].
    destruct (push_pending_ok isn lo una nxt (acc ++ d) s1 w1) as (nxt' & G1 & G2 & _);
      [done|done|by eapply snd_env_view|].
    split; [exists nxt'|by left]. cbv zeta.
    change (result (mret (zlen d)) _ _) with (zlen d). rewrite take_ge by (unfold zlen; lia). done.
  - split; [exists nxt|by right]. cbv zeta. change (take _ d) with (@nil Z). rewrite app_nil_r.
    split; [done|lia].
Qed.

End send_ops.

(** ** Runs of the send side *)

(** A socket, its world, the bytes accepted so far and the position acknowledged so far. *)
Definition sconf : Type := tcp_socket * world * list Z * Z.

(** One step: the process sends, an acknowledgement of a position that has been sent
    arrives (old ones too), or the retransmission timer runs. *)
Inductive send_step `{FloatOps} (isn : Z) : sconf -> sconf -> Prop :=
  | step_send d s w acc una :
      zlen d < 2 ^ 31 ->
      send_step isn (s, w, acc, una)
        (sock_after (tcp_send d) s w, world_after (tcp_send d) s w,
         acc ++ take (Z.to_nat (result (tcp_send d) s w)) d, una)
  | step_ack a wnd s w acc una :
      una - 2 ^ 29 < a -> a - una <= u32 (snd_nxt s - snd_una s) -> 0 <= wnd < 2 ^ 30 ->
      send_step isn (s, w, acc, una)
        (sock_after (tcp_process_ack (u32 (isn + a)) wnd) s w,
         world_after (tcp_process_ack (u32 (isn + a)) wnd) s w, acc, Z.max una a)
  | step_timer s w acc una :
      send_step isn (s, w, acc, una)
        (sock_after rtx_retransmit_due s w, world_after rtx_retransmit_due s w, acc, una).

Definition sconf_ok (isn : Z) (c : sconf) : Prop :=
  let '(s, w, acc, una) := c in
  reliable w /\ snd_env s /\ exists lo nxt, snd_ok isn lo una nxt acc s.

Lemma send_step_ok `{FloatOps} isn c c' : send_step isn c c' -> sconf_ok isn c -> sconf_ok isn c'.
Proof.
  destruct 1 as [d s w acc una Hd|a wnd s w acc una Ha1 Ha2 Hwnd|s w acc una];
    intros (Hw & He & lo & nxt & Hok).
  - destruct (tcp_send_ok isn lo una nxt acc d s w Hok Hw He Hd) as [(nxt' & H1 & _) [H2 _] ].
    split; [by apply steady|]. split; [done|]. by exists lo, nxt'.
  - pose proof (so_order _ _ _ _ _ _ Hok).
    rewrite (so_una _ _ _ _ _ _ Hok), (so_nxt _ _ _ _ _ _ Hok), seq_at_sub in Ha2 by lia.
    destruct (process_ack_ok isn lo una nxt acc a wnd s w Hok Hw He) as [(lo' & nxt' & H1 & _) H2];
      [lia|done|]. split; [by apply steady|]. split; [done|]. by exists lo', nxt'.
  - destruct (retransmit_due_ok isn lo una nxt acc s w Hok He) as [H1 H2].
    split; [by apply steady|]. split; [done|]. by exists lo, nxt.
Qed.

(** The start of the data phase: nothing sent, nothing buffered. *)
Record fresh_sender (isn : Z) (s : tcp_socket) : Prop := {
  fs_una : snd_una s = u32 isn;
  fs_nxt : snd_nxt s = u32 isn;
  fs_rtx : rtx s = [];
  fs_ring : send_ring s;
  fs_empty : send_buf_len s = 0;
}.

Lemma fresh_sender_ok isn s : fresh_sender isn s -> snd_ok isn 0 0 0 [] s.
Proof.
  intros []. constructor; rewrite ?fs_rtx0, ?Z.add_0_r; try done.
  exists []. split; [done|]. unfold pending. by rewrite fs_empty0.
Qed.

Definition demo_sender : tcp_socket :=
  set_state TCP_STATE_ESTABLISHED (set_snd_wnd 4096 (set_cwnd 3000 (set_rto 3000 (set_rto_min 200
    (set_rto_max 60000 (set_max_retries 12 (set_mss_local 1460 (set_mss_peer 536 (set_iface 4096
    (set_snd_una 4294967290 (set_snd_nxt 4294967290
    (set_send_buf_size 65536 (set_send_buf (replicate (Z.to_nat 65536) 0) zero_socket))))))))))))).

Lemma demo_sender_fresh : fresh_sender 4294967290 demo_sender.
Proof.
  constructor; [done..| |done]. constructor.
  - change (zlen (replicate (Z.to_nat 65536) 0) = 65536). unfold zlen. by rewrite length_replicate.
  - change (65536 <= 65536 <= 2 ^ 20). lia.
  - change (0 <= 0 < 65536). lia.
  - change (0 <= 0 <= 65536). lia.
  - done.
Qed.

Lemma calm_reliable t : reliable (calm_world t).
Proof. by split. Qed.

(** Congestion avoidance adds one segment per window of acknowledged bytes; the fuel is
    enough for all 32-bit counts. *)
Lemma aimd_fuel_enough mss acc win :
  0 <= acc -> 0 <= win -> 1 <= mss -> acc + mss < 2 ^ 32 ->
  let '(acc', win') := aimd_loop aimd_fuel mss acc win in 0 <= acc' < win' /\ win <= win'.
Proof.
  intros Ha Hw Hm Hb. apply aimd_loop_exit; [done..|].
  unfold aimd_fuel. rewrite Z2Nat.id by lia. nia.
Qed.

(** ** Theorems *)





(** [cubic_root] is the integer cube root: for every argument below 2^63 the search
    ends with the largest [r] whose cube is at most the argument, and none of its 64-bit
    products overflows. *)
Theorem cubic_root_spec (x : Z) :
  0 <= x < 2 ^ 63 ->
  cubic_root x ^ 3 <= x < (cubic_root x + 1) ^ 3.
Proof.
  intros Hx. apply (cubic_search_spec 22 0 2097151 x); lia.
Qed.

Lemma cubic_root_spec_witness : cubic_root 1000000 ^ 3 <= 1000000 < (cubic_root 1000000 + 1) ^ 3.
Proof. apply (cubic_root_spec 1000000). lia. Defined.

(** ** Where the send side loses bytes *)

(** [demo_sender] with three bytes buffered. *)
Definition demo_buffered : tcp_socket := buffer_bytes [7; 8; 9] demo_sender.

(** The world in which the link refuses the first packet. *)
Definition link_down : world :=
  set_link (fun n => if (n =? 0)%nat then -1 else 0) [] (calm_world 3).

(** Bytes taken out of the send buffer for a segment the link refuses are gone: they are
    neither in the buffer nor on the retransmission queue, and [snd_nxt] has not moved, so
    the next bytes take their sequence numbers. *)
Lemma push_pending_drops :
  pending demo_buffered = [7; 8; 9] /\
  let s := sock_after tcp_push_pending demo_buffered link_down in
  pending s = [] /\ rtx s = [] /\ snd_nxt s = snd_nxt demo_buffered.
Proof. vm_compute. done. Qed.

(** The world in which the third allocation fails: the copy for the retransmission
    queue (after the segment's bytes, the packet and the queue entry). *)
Definition copy_fails : world :=
  set_heap (fun n => if (n =? 3)%nat then NULL else 4096) (calm_world 3).

(** A segment whose copy could not be allocated is retransmitted with zeros for data and
    a valid checksum. *)
Lemma retransmits_zeros :
  let s := sock_after tcp_push_pending demo_buffered copy_fails in
  let w := world_after (tcp_retransmit_segment (head (rtx s))) s (calm_world 9) in
  exists p, wire w = [(0, p)] /\ drop 19 p = [0; 0; 0].
Proof. eexists. split; vm_compute; reflexivity. Qed.

(** Clamping the timeout. *)
Lemma clamp_rto_range lo hi s :
  rto_min s = lo -> rto_max s = hi -> lo <= hi -> lo <= rto (clamp_rto s) <= hi.
Proof.
  intros <- <- H. unfold clamp_rto.
  destruct (Z.ltb_spec (rto s) (rto_min s)); cbn [rto rto_min rto_max set_rto]; case_if;
    cbn [rto rto_min rto_max set_rto]; lia.
Qed.

(** The retransmission timeout stays within its limits: after a measurement of the
    round-trip time and after a back-off it is between [rto_min] and [rto_max], whatever
    the estimator's values and whatever overflows in computing them. *)
Theorem rto_bounds (measured : Z) (s : tcp_socket) :
  rto_min s <= rto_max s ->
  rto_min s <= rto (rtt_measure measured s) <= rto_max s /\
  rto_min s <= rto (rto_backoff s) <= rto_max s.
Proof.
  intros H. split.
  - unfold rtt_measure. cbv zeta. destruct (srtt s =? 0); by apply clamp_rto_range.
  - by apply clamp_rto_range.
Qed.

Lemma rto_bounds_witness :
  200 <= rto (rtt_measure 100000 demo_sender) <= 60000 /\
  200 <= rto (rto_backoff demo_sender) <= 60000.
Proof. apply (rto_bounds 100000 demo_sender). by vm_compute. Defined.

(** An acknowledgement recomputes the timeout without the upper limit: one slow sample
    leaves it three times above [rto_max]. *)
Lemma ack_exceeds_rto_max :
  let s := set_rtt_pending 1 (set_rtt_send_time 0 (set_snd_nxt 100 (set_snd_una 0 demo_sender))) in
  rto (sock_after (ack_advance 100) s (calm_world 5999)) = 179970 /\ rto_max s = 60000.
Proof. vm_compute. done. Qed.

End TcpSend.
