(* ===== verification/TcpRecv.v ===== *)
(** * TCP: the receive side and the state machine (src/net/tcp.c, src/net/tcp_state.c)

    [Module TcpRecv]: the receive buffer and the reassembly queue, acknowledgements with
    SACK, the parsing of a segment and the handling of a segment by a connection in each
    state, [tcp_recv], [tcp_peek] and [tcp_shutdown].  The code between [spinlock_lock]
    and [spinlock_unlock] is one step; a pass of [tcp_recv] that has to wait is the
    outcome [None]. *)

From S2P Require Import Prelude Ring Tcp TcpSend.

Module TcpRecv.
Import Tcp TcpSend.

(** ** Receive buffer *)

Definition recv_buf_push (d : list Z) (s : tcp_socket) : tcp_socket :=
  if zlen d =? 0 then s
  else if u32 (recv_buf_size s - recv_buf_len s) <? zlen d then s
  else
    let '(b, tail) := ring_write (recv_buf_size s) (recv_buf s) (recv_buf_tail s) d in
    set_recv_buf_len (u32 (recv_buf_len s + zlen d)) (set_recv_buf_tail tail (set_recv_buf b s)).

(** ** Acknowledgements *)

(** The option bytes: none, or two NOPs, the kind, the length and the blocks. *)
Definition rtx_emit_sack (s : tcp_socket) : list Z :=
  if (sack_enabled s =? 0) || (sack_count s =? 0) then []
  else [TCP_OPT_NOP; TCP_OPT_NOP; TCP_OPT_SACK; u8 (2 + 8 * sack_count s)] ++
       concat ((fun b => be32 (left b) ++ be32 (right b)) <$>
               take (Z.to_nat (sack_count s)) (sack_blocks s)).

Definition tcp_send_ack : M Z :=
  s ← gets id;
  let opt := rtx_emit_sack s in
  p ← heap_alloc;
  if p =? NULL then mret (-1)
  else
    r ← ip_send (remote_ip s)
          (sealed (local_ip s) (remote_ip s) (segment_header TCP_ACK (snd_nxt s) (zlen opt) 0 s) opt);
    when (r =? 0) (
      now ← now_ms;
      modify (set_last_send_time now);;
      clear_flags TCP_SOCK_FLAG_NEEDS_ACK;;
      modify (set_last_ack_time now));;
    mret r.

(** [tcp_sack_build_option]: the option alone, for at most [max_blocks] blocks. *)
Definition tcp_sack_build_option (max_len max_blocks : Z) (s : tcp_socket) : Z * list Z :=
  if (sack_enabled s =? 0) || (sack_count s =? 0) then (0, [])
  else
    let n := if 4 <? max_blocks then 4 else max_blocks in
    let n := if sack_count s <? n then sack_count s else n in
    let need := n * 8 + 2 in
    if max_len <? need then (0, [])
    else (need, [TCP_OPT_SACK; u8 need] ++
                concat ((fun b => be32 (left b) ++ be32 (right b)) <$>
                        take (Z.to_nat n) (sack_blocks s))).

(** ** Reassembly *)

(** The loop moves the segments at the head of the queue that continue the stream. *)
Fixpoint deliver_loop (q : list tcp_segment) (s : tcp_socket) : tcp_socket :=
  match q with
  | [] => set_ooo [] s
  | g :: q' =>
      if seq g =? rcv_nxt s
      then deliver_loop q' (let s := recv_buf_push (seg_payload g) s in
                            set_rcv_nxt (u32 (rcv_nxt s + len g)) s)
      else set_ooo q s
  end.

Definition tcp_deliver_data : M unit :=
  modify (fun s => deliver_loop (ooo s) s);;
  s ← gets id;
  when ((0 <? recv_buf_len s) && c_true (wait_recv s)) tcp_wake_owner.

(** [while ( *pp && seq_gt(( *pp)->seq, seq)) pp = &( *pp)->next]: the segments before the
    place of the new one, and those after it. *)
Fixpoint ooo_split (sq : Z) (q : list tcp_segment) : list tcp_segment * list tcp_segment :=
  match q with
  | [] => ([], [])
  | g :: q' => if seq_gt (seq g) sq
               then let '(a, b) := ooo_split sq q' in (g :: a, b)
               else ([], q)
  end.

Definition ooo_insert (sq : Z) (d : list Z) : M unit :=
  if zlen d =? 0 then mret tt
  else
    p ← heap_alloc;
    if p =? NULL then mret tt
    else
      p' ← heap_alloc;
      if p' =? NULL then mret tt
      else
        s ← gets id;
        let '(before, after) := ooo_split sq (ooo s) in
        let g := mk_seg sq (zlen d) 0 0 (Some d) in
        match after with
        | n :: after' =>
            if u32 (sq + zlen d) =? seq n then
              nb ← heap_alloc;
              modify (set_ooo (before ++
                (if nb =? NULL then g :: after
                 else mk_seg sq (u32 (zlen d + len n)) 0 0 (Some (d ++ seg_payload n)) :: after')))
            else modify (set_ooo (before ++ g :: after))
        | [] => modify (set_ooo (before ++ [g]))
        end.

(** ** State machine *)

(** [sock->parent] is another socket: it is in the store. *)
Definition tcp_transition_to_established : M unit :=
  modify (set_state TCP_STATE_ESTABLISHED);;
  add_flags TCP_SOCK_FLAG_CONNECTED;;
  bump established;;
  p ← gets parent;
  when (c_true p) (on_world (fun w =>
    match store w !! p with
    | None => w
    | Some l =>
        let l := set_backlog_cur (u8 (backlog_cur l - 1)) l in
        if c_true (owner l) && c_true (wait_accept l)
        then set_woken (woken w ++ [wait_accept l])
               (set_store (<[p := set_wait_accept NULL l]> (store w)) w)
        else set_store (<[p := l]> (store w)) w
    end));;
  s ← gets id;
  when (c_true (wait_accept s)) tcp_wake_owner;;
  tcp_push_pending.

(** The reset has the flags RST and ACK, data offset 5 and no acknowledgement number. *)
Definition rst_packet (local_ip remote_ip lport rport sq : Z) : list Z :=
  sealed local_ip remote_ip
    (mk_hdr lport rport sq 0 (u8 (Z.lor (Z.shiftl 5 4) (Z.lor TCP_RST TCP_ACK))) 0 0 0) [].

(** ** Receiving a segment *)

(** The first part of [tcp_receive]: the length and checksum tests, and the header, the
    flags, the options and the payload of the segment. *)
Definition tcp_parse (my_ip src_ip : Z) (p : list Z) :
    option (tcp_header * Z * list Z * list Z) :=
  if zlen p <? sizeof_tcp_header then None
  else
    let h := header_at p in
    let fl := Z.land (data_offset_flags h) 63 in
    let hdr_len := Z.land (Z.shiftr (data_offset_flags h) 4) 15 * 4 in
    if (hdr_len <? sizeof_tcp_header) || (zlen p <? hdr_len) then None
    else
      let calc := tcp_checksum my_ip src_ip IP_PROTO_TCP (p.[15 <- 0].[16 <- 0]) in
      if negb (checksum h =? calc) then None
      else Some (h, fl, take (Z.to_nat (hdr_len - sizeof_tcp_header)) (drop 19 p),
                 drop (Z.to_nat hdr_len) p).

Definition scaled_window (h : tcp_header) (s : tcp_socket) : Z :=
  if c_true (wscale_peer s) then u32 (Z.shiftl (window_size h) (wscale_peer s)) else window_size h.

Definition recv_payload (h : tcp_header) (d : list Z) : M unit :=
  s ← gets id;
  if seq_num h =? rcv_nxt s then
    modify (recv_buf_push d);;
    modify (fun s => set_rcv_nxt (u32 (rcv_nxt s + zlen d)) s);;
    tcp_deliver_data;;
    add_flags TCP_SOCK_FLAG_NEEDS_ACK
  else if seq_gt (seq_num h) (rcv_nxt s) then
    ooo_insert (seq_num h) d;;
    modify sack_rebuild;;
    add_flags TCP_SOCK_FLAG_NEEDS_ACK
  else
    let trim := u32 (rcv_nxt s - seq_num h) in
    when (trim <? zlen d) (
      modify (recv_buf_push (drop (Z.to_nat trim) d));;
      modify (fun s => set_rcv_nxt (u32 (rcv_nxt s + (zlen d - trim))) s);;
      tcp_deliver_data);;
    add_flags TCP_SOCK_FLAG_NEEDS_ACK.

(** The send window moves with the newest segment. *)
Definition recv_window (h : tcp_header) (s : tcp_socket) : tcp_socket :=
  if seq_gt (seq_num h) (snd_wl1 s) ||
     ((seq_num h =? snd_wl1 s) && seq_ge (ack_num h) (snd_wl2 s))
  then set_snd_wl2 (ack_num h) (set_snd_wl1 (seq_num h) (set_snd_wnd (scaled_window h s) s))
  else s.

Definition start_time_wait : M unit :=
  now ← now_ms;
  modify (set_time_wait_expire (u32 (now + TCP_TIME_WAIT_MS))).

Definition recv_fin (h : tcp_header) (fl : Z) (d : list Z) : M unit :=
  s ← gets id;
  (if (state s =? TCP_STATE_ESTABLISHED) || (state s =? TCP_STATE_SYN_RECEIVED) then
     when (u32 (seq_num h + zlen d) =? rcv_nxt s) (
       modify (fun s => set_state TCP_STATE_CLOSE_WAIT (set_rcv_nxt (u32 (rcv_nxt s + 1)) s)))
   else if state s =? TCP_STATE_FIN_WAIT1 then
     modify (fun s => set_rcv_nxt (u32 (rcv_nxt s + 1)) s);;
     if has fl TCP_ACK then modify (set_state TCP_STATE_TIME_WAIT);; start_time_wait
     else modify (set_state TCP_STATE_CLOSING)
   else if state s =? TCP_STATE_FIN_WAIT2 then
     modify (fun s => set_rcv_nxt (u32 (rcv_nxt s + 1)) s);;
     modify (set_state TCP_STATE_TIME_WAIT);;
     start_time_wait
   else when (state s =? TCP_STATE_TIME_WAIT) start_time_wait);;
  add_flags TCP_SOCK_FLAG_NEEDS_ACK.

(** The delayed acknowledgement. *)
Definition recv_delayed_ack : M unit :=
  s ← gets id;
  when (has (flags s) TCP_SOCK_FLAG_NEEDS_ACK) (
    now ← now_ms;
    when (TCP_DELACK_MS <=? s32 (now - last_ack_time s)) (tcp_send_ack;; mret tt)).

Section input.
Context `{FloatOps}.

(** The states from ESTABLISHED on. *)
Definition recv_synchronized (h : tcp_header) (fl : Z) (d : list Z) : M unit :=
  when (has fl TCP_URG) (
    modify (set_urg_ptr (urgent_ptr h));;
    add_flags TCP_SOCK_FLAG_URG_PRESENT);;
  when (has fl TCP_ACK) (s ← gets id; tcp_process_ack (ack_num h) (scaled_window h s));;
  when (0 <? zlen d) (recv_payload h d);;
  when (has fl TCP_ACK) (modify (recv_window h));;
  when (has fl TCP_FIN) (recv_fin h fl d);;
  recv_delayed_ack;;
  tcp_wake_owner.

Definition recv_syn_sent (h : tcp_header) (fl : Z) : M unit :=
  (if Z.land fl (Z.lor TCP_SYN TCP_ACK) =? Z.lor TCP_SYN TCP_ACK then
     modify (fun s => set_snd_wl2 (ack_num h) (set_snd_wl1 (seq_num h)
       (set_snd_wnd (window_size h) (set_snd_una (ack_num h)
         (set_rcv_nxt (u32 (seq_num h + 1)) s)))));;
     modify (fun s => rtx_advance (snd_una s) s);;
     tcp_transition_to_established
   else when (has fl TCP_SYN) (
     modify (fun s => set_state TCP_STATE_SYN_RECEIVED (set_snd_una (ack_num h)
       (set_rcv_nxt (u32 (seq_num h + 1)) s)));;
     tcp_send_segment (Z.lor TCP_SYN TCP_ACK) [];; mret tt));;
  tcp_wake_owner.

Definition recv_syn_received (h : tcp_header) (fl : Z) : M unit :=
  s ← gets id;
  when (has fl TCP_ACK && seq_ge (ack_num h) (snd_una s) && seq_le (ack_num h) (snd_nxt s)) (
    modify (fun s => set_rcv_nxt (u32 (seq_num h + 1)) (set_snd_wl2 (ack_num h)
      (set_snd_wl1 (seq_num h) (set_snd_wnd (scaled_window h s) (set_snd_una (ack_num h) s)))));;
    modify (fun s => rtx_advance (snd_una s) s);;
    tcp_send_ack;;
    tcp_transition_to_established).

(** The part of [tcp_receive] that runs with the socket's lock held. *)
Definition tcp_input (h : tcp_header) (fl : Z) (opt d : list Z) : M unit :=
  when (0 <? zlen opt) (tcp_option_parse opt);;
  s ← gets id;
  if state s =? TCP_STATE_SYN_SENT then recv_syn_sent h fl
  else if state s =? TCP_STATE_SYN_RECEIVED then recv_syn_received h fl
  else when ((TCP_STATE_ESTABLISHED <=? state s) && (state s <=? TCP_STATE_TIME_WAIT))
         (recv_synchronized h fl d).

(** A reset closes the connection before anything else is looked at. *)
Definition tcp_input_rst : M unit :=
  add_flags TCP_SOCK_FLAG_RST_RCVD;;
  modify (set_state TCP_STATE_CLOSED);;
  modify rtx_clear;;
  tcp_wake_owner.

End input.

(** ** The calls of the process *)

(** The bytes at the front of the receive buffer. *)
Definition tcp_peek (n : Z) (s : tcp_socket) : Z * list Z :=
  let k := if n <? recv_buf_len s then n else recv_buf_len s in
  (s32 k, ring_window (recv_buf_size s) (recv_buf s) (recv_buf_head s) k).

(** One pass of [tcp_recv]: [None] when it goes to sleep. *)
Definition tcp_recv (current n : Z) : M (option (list Z)) :=
  s ← gets id;
  if n =? 0 then mret (Some [])
  else if negb (state s =? TCP_STATE_TIME_WAIT) && negb (state s =? TCP_STATE_CLOSED) &&
          (recv_buf_len s =? 0) then
    if has (flags s) TCP_SOCK_FLAG_NONBLOCK || (state s =? TCP_STATE_CLOSE_WAIT)
    then mret (Some [])
    else modify (set_wait_recv current);; mret None
  else
    let k := if n <? recv_buf_len s then n else recv_buf_len s in
    let '(out, head) := ring_read (recv_buf_size s) (recv_buf s) (recv_buf_head s) (Z.to_nat k) in
    modify (fun s => set_recv_buf_len (u32 (recv_buf_len s - k)) (set_recv_buf_head head s));;
    modify (fun s => set_rcv_wnd (u32 (recv_buf_size s - recv_buf_len s)) s);;
    mret (Some out).

Definition tcp_recv_available (s : tcp_socket) : Z := s32 (recv_buf_len s).

Definition tcp_shutdown (how : Z) : M unit :=
  s ← gets id;
  when ((how =? 0) || (how =? 2)) (
    if state s =? TCP_STATE_ESTABLISHED then
      tcp_send_segment (Z.lor TCP_FIN TCP_ACK) [];;
      modify (set_state TCP_STATE_FIN_WAIT1)
    else when (state s =? TCP_STATE_CLOSE_WAIT) (
      tcp_send_segment (Z.lor TCP_FIN TCP_ACK) [];;
      modify (set_state TCP_STATE_LAST_ACK)));;
  when ((how =? 1) || (how =? 2)) (
    modify (fun s => set_recv_buf_tail 0 (set_recv_buf_head 0 (set_recv_buf_len 0 s)))).

Definition tcp_set_nodelay (on : bool) : M unit :=
  if on then add_flags TCP_SOCK_FLAG_NODELAY else clear_flags TCP_SOCK_FLAG_NODELAY.

Definition tcp_set_keepalive (on : bool) : M unit :=
  if on then
    add_flags TCP_SOCK_FLAG_KEEPALIVE;;
    now ← now_ms;
    modify (set_keepalive_time (u32 (now + TCP_KEEPALIVE_IDLE_MS)))
  else clear_flags TCP_SOCK_FLAG_KEEPALIVE.

Definition tcp_set_nonblock (on : bool) : M unit :=
  if on then add_flags TCP_SOCK_FLAG_NONBLOCK else clear_flags TCP_SOCK_FLAG_NONBLOCK.

Definition tcp_set_mss (mss : Z) (s : tcp_socket) : Z * tcp_socket :=
  if (mss <? 64) || (MSS <? mss) then (-1, s) else (0, set_mss_local mss s).

Definition tcp_mark_error : M unit := add_flags TCP_SOCK_FLAG_RST_RCVD.

(** ** The names of the states (src/net/tcp_state.c) *)

Definition tcp_state_is_connecting (st : Z) : bool :=
  (st =? TCP_STATE_SYN_SENT) || (st =? TCP_STATE_SYN_RECEIVED).
Definition tcp_state_is_connected (st : Z) : bool := st =? TCP_STATE_ESTABLISHED.
Definition tcp_state_is_closing (st : Z) : bool :=
  bool_decide (st ∈ [TCP_STATE_FIN_WAIT1; TCP_STATE_FIN_WAIT2; TCP_STATE_CLOSE_WAIT;
                     TCP_STATE_CLOSING; TCP_STATE_LAST_ACK; TCP_STATE_TIME_WAIT]).

(** ** Lemmas: what the operations leave alone *)

#[export] Hint Extern 3 (Keeps _ ?m) =>
  progress unfold tcp_send_ack, tcp_deliver_data, ooo_insert, tcp_transition_to_established,
    recv_payload, start_time_wait, recv_fin, recv_delayed_ack, recv_synchronized, recv_syn_sent,
    recv_syn_received, tcp_input, tcp_input_rst, tcp_recv, tcp_shutdown, tcp_set_nodelay,
    tcp_set_keepalive, tcp_set_nonblock, tcp_mark_error : typeclass_instances.

#[export] Instance keeps_parse_loop {B} (f : tcp_socket -> B) n opt i :
  (forall i kind olen, Keeps f (parse_one opt i kind olen)) -> Keeps f (parse_loop n opt i).
Proof. intros H. revert i. induction n as [|n IH]; intros i; cbn [parse_loop]; apply _. Qed.

#[export] Hint Extern 3 (Keeps _ (tcp_option_parse _)) => unfold tcp_option_parse : typeclass_instances.
#[export] Hint Extern 3 (Keeps _ (parse_one _ _ _ _)) => unfold parse_one : typeclass_instances.

Lemma recv_buf_push_keeps {B} (f : tcp_socket -> B) d s :
  (forall s v, f (set_recv_buf v s) = f s) -> (forall s v, f (set_recv_buf_tail v s) = f s) ->
  (forall s v, f (set_recv_buf_len v s) = f s) -> f (recv_buf_push d s) = f s.
Proof. intros H1 H2 H3. unfold recv_buf_push. repeat case_match; by rewrite ?H3, ?H2, ?H1. Qed.

Lemma deliver_loop_keeps {B} (f : tcp_socket -> B) q s :
  (forall s v, f (set_recv_buf v s) = f s) -> (forall s v, f (set_recv_buf_tail v s) = f s) ->
  (forall s v, f (set_recv_buf_len v s) = f s) -> (forall s v, f (set_ooo v s) = f s) ->
  (forall s v, f (set_rcv_nxt v s) = f s) -> f (deliver_loop q s) = f s.
Proof.
  intros H1 H2 H3 H4 H5. revert s. induction q as [|g q IH]; intros s; cbn [deliver_loop]; [by rewrite H4|].
  case_match; [|by rewrite H4]. by rewrite IH, H5, recv_buf_push_keeps.
Qed.

#[export] Hint Extern 0 (Keeps _ (modify (recv_buf_push _))) =>
  apply keeps_modify; intro; apply recv_buf_push_keeps; reflexivity : typeclass_instances.
#[export] Hint Extern 0 (Keeps _ (modify (fun s => deliver_loop _ _))) =>
  apply keeps_modify; intro; apply deliver_loop_keeps; reflexivity : typeclass_instances.
#[export] Hint Extern 0 (Keeps _ (modify (recv_window _))) =>
  apply keeps_modify; intro; unfold recv_window; case_match; reflexivity : typeclass_instances.

(** ** The receive stream *)

(** [n] bytes of the stream from position [p]. *)
Definition slice (str : list Z) (p n : Z) : list Z := take (Z.to_nat n) (drop (Z.to_nat p) str).

(** The bytes in the receive buffer. *)
Definition received (s : tcp_socket) : list Z :=
  ring_window (recv_buf_size s) (recv_buf s) (recv_buf_head s) (recv_buf_len s).

Record recv_ring (s : tcp_socket) : Prop := {
  rr_len : zlen (recv_buf s) = recv_buf_size s;
  rr_size : 0 < recv_buf_size s < 2 ^ 31;
  rr_head : 0 <= recv_buf_head s < recv_buf_size s;
  rr_count : 0 <= recv_buf_len s <= recv_buf_size s;
  rr_tail : recv_buf_tail s = (recv_buf_head s + recv_buf_len s) mod recv_buf_size s;
}.

(** A segment that carries bytes of the stream, ending at or before position [lim]. *)
Definition stream_seg (irs : Z) (str : list Z) (lim : Z) (g : tcp_segment) : Prop :=
  exists q, seq g = u32 (irs + q) /\ 0 <= q /\ 0 < len g /\ q + len g <= zlen str /\
    q + len g <= lim /\ seg_payload g = slice str q (len g).

(** The receive side of a connection on which the peer sends the bytes [str] after
    sequence number [irs]: [rd] bytes have been handed to the process, the buffer holds
    the next ones, [rcv_nxt] is the position after them, or one further when the FIN has
    been taken, and the reassembly queue holds pieces of the stream. *)
Record rcv_ok (irs : Z) (str : list Z) (rd : Z) (fin : bool) (s : tcp_socket) : Prop := {
  ro_nxt : rcv_nxt s = u32 (irs + (rd + recv_buf_len s + (if fin then 1 else 0)));
  ro_ring : recv_ring s;
  ro_rd : 0 <= rd /\ rd + recv_buf_len s <= zlen str;
  ro_fin : fin = true -> rd + recv_buf_len s = zlen str;
  ro_buf : received s = slice str rd (recv_buf_len s);
  ro_ooo : Forall (stream_seg irs str (rd + recv_buf_size s)) (ooo s);
}.

Lemma slice_app str p n m :
  0 <= p -> 0 <= n -> 0 <= m -> slice str p (n + m) = slice str p n ++ slice str (p + n) m.
Proof.
  intros Hp Hn Hm. unfold slice. rewrite !Z2Nat.inj_add by lia.
  by rewrite <-take_take_drop, drop_drop.
Qed.

Lemma zlen_slice str p n : 0 <= p -> 0 <= n -> p + n <= zlen str -> zlen (slice str p n) = n.
Proof.
  intros Hp Hn Hl. unfold slice, zlen in *. rewrite length_take, length_drop. lia.
Qed.

Lemma slice_drop str p n k :
  0 <= p -> 0 <= k <= n -> drop (Z.to_nat k) (slice str p n) = slice str (p + k) (n - k).
Proof.
  intros Hp Hk. unfold slice.
  replace (Z.to_nat n) with (Z.to_nat k + Z.to_nat (n - k))%nat by lia.
  rewrite <-take_drop_commute, drop_drop. do 2 f_equal. lia.
Qed.

(** The invariant depends on the receive view only. *)
Lemma rcv_ok_view irs str rd fin s s' :
  rcv_view s' = rcv_view s -> rcv_ok irs str rd fin s -> rcv_ok irs str rd fin s'.
Proof.
  intros [= E1 E2 E3 E4 E5 E6 E7 E8] []. destruct ro_ring0.
  constructor; rewrite ?E1, ?E4, ?E7, ?E8; try done.
  - constructor; by rewrite ?E3, ?E4, ?E5, ?E6, ?E7.
  - unfold received in *. by rewrite E3, E4, E5, E7.
Qed.

(** Appending the next [n] bytes of the stream, when they fit. *)
Lemma rcv_push irs str rd s n :
  rcv_ok irs str rd false s -> 0 < n -> rd + recv_buf_len s + n <= zlen str ->
  recv_buf_len s + n <= recv_buf_size s ->
  let s' := recv_buf_push (slice str (rd + recv_buf_len s) n) s in
  rcv_ok irs str rd false (set_rcv_nxt (u32 (rcv_nxt s + n)) s') /\
  rcv_nxt s' = rcv_nxt s /\ ooo s' = ooo s.
Proof.
  intros [] Hn Hl Hs s'. pose proof ro_ring0 as []. subst s'.
  assert (zlen (slice str (rd + recv_buf_len s) n) = n) as Hz by (apply zlen_slice; lia).
  set (d := slice str _ n) in *. unfold recv_buf_push. rewrite Hz.
  destruct (Z.eqb_spec n 0); [lia|]. rewrite (u32_small (recv_buf_size s - _)) by (unfold is_u32; lia).
  destruct (Z.ltb_spec (recv_buf_size s - recv_buf_len s) n); [lia|].
  pose proof (ring_write_spec (recv_buf_size s) ltac:(lia) d (recv_buf s) (recv_buf_head s)
    (recv_buf_len s) rr_len0 ltac:(lia) ltac:(lia) ltac:(lia)) as Hw.
  rewrite <-rr_tail0, Hz in Hw. destruct (ring_write _ _ _ _) as [b q]. destruct Hw as (W1 & W2 & W3).
  rewrite (u32_small (recv_buf_len s + n)) by (unfold is_u32; lia). split_and!; [|done|done].
  constructor; cbn [rcv_nxt recv_buf recv_buf_size recv_buf_head recv_buf_tail recv_buf_len ooo
    set_rcv_nxt set_recv_buf_len set_recv_buf_tail set_recv_buf]; try done.
  - rewrite ro_nxt0, seq_at_add. f_equal. lia.
  - constructor; cbn [rcv_nxt recv_buf recv_buf_size recv_buf_head recv_buf_tail recv_buf_len ooo
    set_rcv_nxt set_recv_buf_len set_recv_buf_tail set_recv_buf]; [done|done|done|lia|].
    rewrite W2. f_equal. lia.
  - lia.
  - unfold received in *. cbn [recv_buf recv_buf_size recv_buf_head recv_buf_tail recv_buf_len
      set_rcv_nxt set_recv_buf_len set_recv_buf_tail set_recv_buf].
    rewrite W3, ro_buf0. subst d. by rewrite <-slice_app by lia.
Qed.

Lemma rcv_ok_ooo irs str rd fin s q :
  rcv_ok irs str rd fin s -> Forall (stream_seg irs str (rd + recv_buf_size s)) q ->
  rcv_ok irs str rd fin (set_ooo q s).
Proof. intros [] Hq. destruct ro_ring0. constructor; try done. Qed.

Lemma deliver_loop_ok irs str rd q s :
  zlen str < 2 ^ 31 -> rcv_ok irs str rd false s ->
  Forall (stream_seg irs str (rd + recv_buf_size s)) q ->
  rcv_ok irs str rd false (deliver_loop q s).
Proof.
  intros HL. revert s. induction q as [|g q IH]; intros s Hok Hq; cbn [deliver_loop].
  { by apply rcv_ok_ooo. }
  pose proof Hq as [Hg Hq']%Forall_cons. destruct Hg as (p & Es & Hp & Hlen & Hlim & Hwin & Ed).
  pose proof Hok as [En Hr Hrd _ Hb _]. pose proof (rr_count _ Hr). pose proof (rr_size _ Hr).
  cbv iota in En. rewrite Z.add_0_r in En.
  replace (seq g =? rcv_nxt s) with (p =? rd + recv_buf_len s)
    by (rewrite Es, En, seq_eq_pos by lia; done).
  destruct (Z.eqb_spec p (rd + recv_buf_len s)) as [->|N].
  2: { by apply rcv_ok_ooo. }
  destruct (rcv_push irs str rd s (len g) Hok) as (P1 & P2 & P3); [lia..|].
  rewrite Ed. cbv zeta. rewrite P2. apply IH; [done|].
  assert (recv_buf_size (recv_buf_push (slice str (rd + recv_buf_len s) (len g)) s) = recv_buf_size s)
    as E by (by apply recv_buf_push_keeps).
  cbn [recv_buf_size set_rcv_nxt]. by rewrite E.
Qed.

Lemma ooo_split_app sq q : (ooo_split sq q).1 ++ (ooo_split sq q).2 = q.
Proof.
  induction q as [|g q IH]; [done|]. cbn [ooo_split]. case_match; [|done].
  destruct (ooo_split sq q) as [a b]. simpl in *. by rewrite IH.
Qed.

(** A segment of the stream goes on the queue. *)
Lemma ooo_insert_ok irs str rd fin q d s w :
  rcv_ok irs str rd fin s -> zlen str < 2 ^ 31 -> 0 <= q -> q + zlen d <= zlen str ->
  q + zlen d <= rd + recv_buf_size s -> d = slice str q (zlen d) ->
  rcv_ok irs str rd fin (sock_after (ooo_insert (u32 (irs + q)) d) s w).
Proof.
  intros Hok HL Hq Hqd Hlim Hd. pose proof (zlen_nonneg d). unfold ooo_insert.
  destruct (Z.eqb_spec (zlen d) 0); [done|].
  rewrite sock_bind. change (sock_after heap_alloc s w) with s.
  case_match; [done|]. rewrite sock_bind. change (sock_after heap_alloc s _) with s.
  case_match; [done|]. rewrite sock_gets. unfold id.
  pose proof (ro_ooo _ _ _ _ _ Hok) as Hall. rewrite <-(ooo_split_app (u32 (irs + q))) in Hall.
  destruct (ooo_split _ _) as [before after]. simpl in Hall. apply Forall_app in Hall as [Hb Ha].
  assert (stream_seg irs str (rd + recv_buf_size s) (mk_seg (u32 (irs + q)) (zlen d) 0 0 (Some d))) as Hg.
  { exists q. cbn. split_and!; [done|lia..|done]. }
  destruct after as [|g after].
  { apply rcv_ok_ooo; [done|]. apply Forall_app. split; [done|]. by apply Forall_singleton. }
  pose proof Ha as [Hn Ha']%Forall_cons.
  destruct Hn as (p & Es & Hp & Hlen & Hl1 & Hl2 & Ed).
  rewrite Es, seq_at_add, seq_eq_pos by lia.
  destruct (Z.eqb_spec (q + zlen d) p) as [<-|N].
  2: { apply rcv_ok_ooo; [done|]. apply Forall_app. split; [done|]. by constructor. }
  rewrite sock_bind. apply rcv_ok_ooo; [done|]. apply Forall_app. split; [done|].
  case_match; [by constructor|]. constructor; [|done].
  rewrite (u32_small (zlen d + len g)) by (unfold is_u32; lia). exists q. cbn [seq len seg_payload data default].
  change (sock_after heap_alloc s _) with s. unfold id.
  split_and!; [done|lia..|]. rewrite slice_app, <-Hd by lia. by rewrite Ed.
Qed.

Lemma deliver_data_ok irs str rd s w :
  zlen str < 2 ^ 31 -> rcv_ok irs str rd false s ->
  rcv_ok irs str rd false (sock_after tcp_deliver_data s w).
Proof.
  intros HL Hok. unfold tcp_deliver_data. rewrite sock_modify. set (s1 := deliver_loop _ _).
  assert (rcv_ok irs str rd false s1) as H1 by (by apply deliver_loop_ok; [done..|apply Hok]).
  clearbody s1. apply (rcv_ok_view _ _ _ _ s1); [|done]. apply (keeps (f := rcv_view) s1 w).
Qed.

(** A header whose sequence number and payload are a piece of the stream that ends
    before [lim]. *)
Record carries (irs : Z) (str : list Z) (lim : Z) (h : tcp_header) (d : list Z) (q : Z) : Prop := {
  ca_seq : seq_num h = u32 (irs + q);
  ca_pos : 0 <= q;
  ca_end : q + zlen d <= zlen str;
  ca_win : q + zlen d <= lim;
  ca_data : d = slice str q (zlen d);
}.

Lemma recv_payload_ok irs str rd fin h d q s w :
  zlen str < 2 ^ 31 - 1 -> rcv_ok irs str rd fin s -> 0 < zlen d ->
  carries irs str (rd + recv_buf_size s) h d q ->
  rcv_ok irs str rd fin (sock_after (recv_payload h d) s w).
Proof.
  intros HL Hok Hd []. pose proof Hok as []. pose proof (rr_count _ ro_ring0).
  pose proof (rr_size _ ro_ring0). unfold recv_payload. rewrite sock_gets. unfold id.
  rewrite ca_seq0, ro_nxt0. set (nx := rd + recv_buf_len s + (if fin then 1 else 0)) in *.
  assert (rd + recv_buf_len s <= nx <= rd + recv_buf_len s + 1 /\ nx <= zlen str + 1) as Hnx.
  { subst nx. destruct fin; [specialize (ro_fin0 eq_refl)|]; lia. }
  rewrite seq_eq_pos, seq_gt_pos by lia.
  assert (forall v s1 w1, rcv_ok irs str rd fin s1 -> rcv_ok irs str rd fin (sock_after (add_flags v) s1 w1))
    as Hflag by (intros v s1 w1 H1; apply (rcv_ok_view _ _ _ _ s1); [done|done]).
  destruct (Z.eqb_spec q nx) as [->|Nq].
  { destruct fin; [specialize (ro_fin0 eq_refl); subst nx; lia|].
    assert (nx = rd + recv_buf_len s) as Enx by (subst nx; lia).
    rewrite !sock_modify, sock_bind. apply Hflag. apply deliver_data_ok; [lia|].
    destruct (rcv_push irs str rd s (zlen d) Hok) as (P1 & P2 & P3); [lia..|].
    rewrite Enx in ca_data0. rewrite <-ca_data0 in P1, P2. by rewrite P2. }
  destruct (Z.ltb_spec nx q) as [Hq|Hq].
  { rewrite sock_bind. set (s1 := sock_after (ooo_insert _ _) s w).
    assert (rcv_ok irs str rd fin s1) as H1 by (apply ooo_insert_ok; done || lia).
    rewrite sock_modify. apply Hflag. by apply (rcv_ok_view _ _ _ _ s1). }
  rewrite seq_at_sub by lia. rewrite sock_bind. apply Hflag.
  destruct (Z.ltb_spec (nx - q) (zlen d)) as [Ht|Ht]; cbn [when]; [|done].
  destruct fin; [specialize (ro_fin0 eq_refl); subst nx; lia|].
  assert (nx = rd + recv_buf_len s) as Enx by (subst nx; lia).
  rewrite !sock_modify. apply deliver_data_ok; [lia|].
  rewrite ca_data0, slice_drop, zlen_slice by lia.
  replace (q + (nx - q)) with (rd + recv_buf_len s) by lia.
  destruct (rcv_push irs str rd s (zlen d - (nx - q)) Hok) as (P1 & P2 & P3); [lia..|].
  by rewrite P2.
Qed.

(** The states of a connection whose process has not closed it. *)
Definition open_state (fin : bool) (st : Z) : Prop :=
  (st = TCP_STATE_ESTABLISHED /\ fin = false) \/ st = TCP_STATE_CLOSE_WAIT \/ st = TCP_STATE_CLOSED.

Lemma recv_fin_ok irs str rd fin h fl d q s w :
  zlen str < 2 ^ 31 - 1 -> rcv_ok irs str rd fin s -> open_state fin (state s) ->
  carries irs str (rd + recv_buf_size s) h d q -> q + zlen d = zlen str ->
  exists fin', rcv_ok irs str rd fin' (sock_after (recv_fin h fl d) s w) /\
    open_state fin' (state (sock_after (recv_fin h fl d) s w)).
Proof.
  intros HL Hok Hst [] Hend. pose proof Hok as []. pose proof (rr_count _ ro_ring0).
  unfold recv_fin. rewrite sock_gets, sock_bind. unfold id.
  assert (forall v s1 w1 fin', rcv_ok irs str rd fin' s1 -> open_state fin' (state s1) ->
     rcv_ok irs str rd fin' (sock_after (add_flags v) s1 w1) /\
     open_state fin' (state (sock_after (add_flags v) s1 w1)))
    as Hflag by (intros v s1 w1 f1 H1 H2; split; [by apply (rcv_ok_view _ _ _ _ s1)|done]).
  destruct Hst as [ [E ->] | [E|E] ]; rewrite E.
  - change (TCP_STATE_ESTABLISHED =? TCP_STATE_ESTABLISHED) with true. cbn [orb].
    rewrite ca_seq0, seq_at_add, ro_nxt0, Z.add_0_r, seq_eq_pos by lia.
    destruct (Z.eqb_spec (q + zlen d) (rd + recv_buf_len s)) as [Eq|Nq]; cbn [when].
    2: { exists false. apply Hflag; [done|]. by left. }
    exists true. apply Hflag; [|by right; left]. destruct ro_ring0.
    constructor; try done.
    + change (u32 (rcv_nxt s + 1) = u32 (irs + (rd + recv_buf_len s + 1))).
      by rewrite ro_nxt0, Z.add_0_r, seq_at_add.
    + intros _. change (rd + recv_buf_len s = zlen str). lia.
  - exists fin. apply Hflag; [done|]. right. by left.
  - exists fin. apply Hflag; [done|]. right. by right.
Qed.

Definition conn_ok (irs : Z) (str : list Z) (rd : Z) (s : tcp_socket) : Prop :=
  exists fin, rcv_ok irs str rd fin s /\ open_state fin (state s).

Lemma conn_ok_view irs str rd s s' :
  rcv_view s' = rcv_view s -> state s' = state s -> conn_ok irs str rd s -> conn_ok irs str rd s'.
Proof.
  intros Hv Hs (fin & H1 & H2). exists fin. rewrite Hs. split; [|done]. by eapply rcv_ok_view.
Qed.

(** An operation that keeps the receive view and the state keeps the connection. *)
Lemma conn_ok_keeps irs str rd {A} (m : M A) s w :
  Keeps rcv_view m -> Keeps state m -> conn_ok irs str rd s -> conn_ok irs str rd (sock_after m s w).
Proof. intros H1 H2. apply conn_ok_view; [apply H1|apply H2]. Qed.

Section recv_ops.
Context `{FloatOps}.

Lemma recv_synchronized_ok irs str rd h fl d q s w :
  zlen str < 2 ^ 31 - 1 -> conn_ok irs str rd s ->
  carries irs str (rd + recv_buf_size s) h d q ->
  (has fl TCP_FIN = true -> q + zlen d = zlen str) ->
  conn_ok irs str rd (sock_after (recv_synchronized h fl d) s w).
Proof.
  intros HL Hok Hc Hfin. unfold recv_synchronized.
  (* the segment before the payload *)
  rewrite sock_bind. set (s1 := sock_after _ s w). set (w1 := world_after _ s w).
  assert (conn_ok irs str rd s1 /\ recv_buf_size s1 = recv_buf_size s) as [H1 E1].
  { split; [by apply conn_ok_keeps; [apply _..|]|]. apply (keeps (f := recv_buf_size) s w). }
  clearbody s1 w1. rewrite sock_bind. set (s2 := sock_after _ s1 w1). set (w2 := world_after _ s1 w1).
  assert (conn_ok irs str rd s2 /\ recv_buf_size s2 = recv_buf_size s) as [H2 E2].
  { split; [by apply conn_ok_keeps; [apply _..|]|]. rewrite <-E1. apply (keeps (f := recv_buf_size) s1 w1). }
  clearbody s2 w2. rewrite sock_bind. set (s3 := sock_after _ s2 w2). set (w3 := world_after _ s2 w2).
  assert (conn_ok irs str rd s3 /\ recv_buf_size s3 = recv_buf_size s) as [H3 E3].
  { split; [|rewrite <-E2; apply (keeps (f := recv_buf_size) s2 w2)].
    destruct H2 as (fin & Hr & Ho). exists fin.
    assert (state s3 = state s2) as -> by apply (keeps (f := state) s2 w2). split; [|done].
    subst s3. destruct (Z.ltb_spec 0 (zlen d)); cbn [when]; [|done].
    apply (recv_payload_ok irs str rd fin h d q); [done|done|done|by rewrite E2]. }
  clearbody s3 w3. rewrite sock_bind. set (s4 := sock_after _ s3 w3). set (w4 := world_after _ s3 w3).
  assert (conn_ok irs str rd s4 /\ recv_buf_size s4 = recv_buf_size s) as [H4 E4].
  { split; [by apply conn_ok_keeps; [apply _..|]|]. rewrite <-E3. apply (keeps (f := recv_buf_size) s3 w3). }
  clearbody s4 w4. rewrite sock_bind. set (s5 := sock_after _ s4 w4). set (w5 := world_after _ s4 w4).
  assert (conn_ok irs str rd s5) as H5.
  { subst s5. destruct (has fl TCP_FIN); cbn [when]; [|done]. destruct H4 as (fin & Hr & Ho).
    apply (recv_fin_ok irs str rd fin h fl d q); [done|done|done|by rewrite E4|by apply Hfin]. }
  clearbody s5 w5. by apply conn_ok_keeps; [apply _..|].
Qed.

Lemma tcp_input_ok irs str rd h fl opt d q s w :
  zlen str < 2 ^ 31 - 1 -> conn_ok irs str rd s ->
  carries irs str (rd + recv_buf_size s) h d q ->
  (has fl TCP_FIN = true -> q + zlen d = zlen str) ->
  conn_ok irs str rd (sock_after (tcp_input h fl opt d) s w).
Proof.
  intros HL Hok Hc Hfin. unfold tcp_input. rewrite sock_bind.
  set (s1 := sock_after _ s w). set (w1 := world_after _ s w).
  assert (conn_ok irs str rd s1 /\ recv_buf_size s1 = recv_buf_size s) as [H1 E1].
  { split; [by apply conn_ok_keeps; [apply _..|]|]. apply (keeps (f := recv_buf_size) s w). }
  clearbody s1 w1. rewrite sock_gets. unfold id. pose proof H1 as (fin & _ & Ho).
  assert (forall b (m : M unit), conn_ok irs str rd (sock_after m s1 w1) ->
            conn_ok irs str rd (sock_after (when b m) s1 w1)) as Hwhen by (by intros []).
  destruct Ho as [ [E _] | [E|E] ]; rewrite E; try done.
  - apply (recv_synchronized_ok irs str rd h fl d q); [done|done|by rewrite E1|done].
  - apply (recv_synchronized_ok irs str rd h fl d q); [done|done|by rewrite E1|done].
Qed.

End recv_ops.

(** A read takes the next bytes of the stream. *)
Lemma tcp_recv_ok irs str rd current n s w :
  conn_ok irs str rd s -> is_u32 n ->
  let out := default [] (result (tcp_recv current n) s w) in
  conn_ok irs str (rd + zlen out) (sock_after (tcp_recv current n) s w) /\
  out = slice str rd (zlen out) /\ rd + zlen out <= zlen str.
Proof.
  intros Hok [Hn _]. pose proof Hok as (fin & Hr & Ho). pose proof Hr as [].
  pose proof ro_ring0 as []. unfold tcp_recv. rewrite sock_gets, result_bind.
  change (result (gets id) s w) with s. change (sock_after (gets id) s w) with s. unfold id.
  assert (forall s1, rcv_view s1 = rcv_view s -> state s1 = state s ->
    conn_ok irs str (rd + zlen (@nil Z)) s1 /\ [] = slice str rd (zlen (@nil Z)) /\
    rd + zlen (@nil Z) <= zlen str) as Hnone.
  { intros s1 V1 V2. change (zlen []) with 0. rewrite Z.add_0_r.
    split_and!; [by eapply conn_ok_view|done|lia]. }
  destruct (Z.eqb_spec n 0) as [->|N]; [by apply Hnone|].
  destruct (_ && (recv_buf_len s =? 0)) eqn:Ew.
  { destruct (_ || (state s =? TCP_STATE_CLOSE_WAIT)); by apply Hnone. }
  set (k := if n <? recv_buf_len s then n else recv_buf_len s).
  assert (0 <= k <= recv_buf_len s) as Hk by (subst k; case_if; lia).
  rewrite ring_read_spec, Z2Nat.id by lia.
  set (out := ring_window (recv_buf_size s) (recv_buf s) (recv_buf_head s) k).
  assert (zlen out = k) as Hz by (apply zlen_ring_window; lia).
  change (result _ s _) with (Some out). cbn [default]. unfold id. rewrite Hz.
  assert (received s = out ++ ring_window (recv_buf_size s) (recv_buf s) (recv_buf_head s + k)
            (recv_buf_len s - k)) as Hsplit.
  { unfold received. replace (recv_buf_len s) with (k + (recv_buf_len s - k)) at 1 by lia.
    by rewrite ring_window_app by lia. }
  assert (slice str rd (recv_buf_len s) =
    slice str rd k ++ slice str (rd + k) (recv_buf_len s - k)) as Hsl.
  { rewrite <-slice_app by lia. f_equal. lia. }
  rewrite ro_buf0, Hsl in Hsplit. apply app_inj_1 in Hsplit as [Eo Er].
  2: { assert (zlen (slice str rd k) = zlen out) as E; [|unfold zlen in E; lia].
       rewrite zlen_slice by lia. lia. }
  split_and!; [|by rewrite Eo|lia].
  rewrite !sock_modify, (u32_small (recv_buf_len s - k)) by (unfold is_u32; lia).
  exists fin. split; [|exact Ho].
  constructor; cbn [rcv_nxt recv_buf recv_buf_size recv_buf_head recv_buf_tail recv_buf_len ooo
    set_rcv_wnd set_recv_buf_len set_recv_buf_head].
  - change (rcv_nxt _) with (rcv_nxt s). change (recv_buf_len _) with (recv_buf_len s - k).
    rewrite ro_nxt0. f_equal. lia.
  - constructor.
    + done.
    + done.
    + change (0 <= (recv_buf_head s + k) mod recv_buf_size s < recv_buf_size s).
      apply ring_pos_range. lia.
    + change (0 <= recv_buf_len s - k <= recv_buf_size s). lia.
    + change (recv_buf_tail s = ((recv_buf_head s + k) mod recv_buf_size s + (recv_buf_len s - k))
        mod recv_buf_size s). rewrite rr_tail0, ring_step. f_equal. lia.
  - change (recv_buf_len _) with (recv_buf_len s - k). lia.
  - intros Ef. specialize (ro_fin0 Ef). change (recv_buf_len _) with (recv_buf_len s - k). lia.
  - change (ring_window (recv_buf_size s) (recv_buf s) ((recv_buf_head s + k) mod recv_buf_size s)
      (recv_buf_len s - k) = slice str (rd + k) (recv_buf_len s - k)).
    by rewrite ring_window_mod, Er.
  - change (Forall (stream_seg irs str (rd + k + recv_buf_size s)) (ooo s)).
    eapply Forall_impl; [exact ro_ooo0|]. intros g (p & ? & ? & ? & ? & ? & ?).
    exists p. split_and!; done || lia.
Qed.

(** ** Runs of the receive side *)

Section runs.
Context `{FloatOps}.

(** One step of a connection that the process keeps open: a segment of the stream
    arrives (any part of it, any number of times, in any order) whose end is within the
    space of the receive buffer, a FIN only at the end of the stream; a reset arrives; the
    process reads (and the bytes returned are appended to the output) or sends; the
    retransmission timer runs. *)
Inductive recv_step (irs : Z) (str : list Z) :
    tcp_socket * world * list Z -> tcp_socket * world * list Z -> Prop :=
  | rs_segment h fl opt d q s w out :
      carries irs str (zlen out + recv_buf_size s) h d q ->
      (has fl TCP_FIN = true -> q + zlen d = zlen str) ->
      recv_step irs str (s, w, out)
        (sock_after (tcp_input h fl opt d) s w, world_after (tcp_input h fl opt d) s w, out)
  | rs_reset s w out :
      recv_step irs str (s, w, out)
        (sock_after tcp_input_rst s w, world_after tcp_input_rst s w, out)
  | rs_recv current n s w out :
      is_u32 n ->
      recv_step irs str (s, w, out)
        (sock_after (tcp_recv current n) s w, world_after (tcp_recv current n) s w,
         out ++ default [] (result (tcp_recv current n) s w))
  | rs_send d s w out :
      recv_step irs str (s, w, out)
        (sock_after (tcp_send d) s w, world_after (tcp_send d) s w, out)
  | rs_timer s w out :
      recv_step irs str (s, w, out)
        (sock_after rtx_retransmit_due s w, world_after rtx_retransmit_due s w, out).

Definition recv_conf_ok (irs : Z) (str : list Z) (c : tcp_socket * world * list Z) : Prop :=
  let '(s, w, out) := c in
  conn_ok irs str (zlen out) s /\ out = slice str 0 (zlen out) /\ zlen out <= zlen str.

(** The timer keeps the receive view and the state, or closes the connection. *)
Lemma timer_state s w :
  rcv_view (sock_after rtx_retransmit_due s w) = rcv_view s /\
  (state (sock_after rtx_retransmit_due s w) = state s \/
   state (sock_after rtx_retransmit_due s w) = TCP_STATE_CLOSED).
Proof.
  split; [apply (keeps (f := rcv_view) s w)|].
  unfold rtx_retransmit_due. rewrite sock_bind, sock_gets.
  change (sock_after now_ms s w) with s. repeat (case_match; [by left|]).
  set (w1 := world_after now_ms s w). rewrite sock_modify, sock_bind.
  set (s1 := sock_after _ (set_rtt_pending 0 s) w1).
  assert (state s1 = state s) as E1 by apply (keeps (f := state) (set_rtt_pending 0 s) w1).
  set (w2 := world_after _ _ w1). clearbody s1 w2. rewrite sock_modify, sock_gets.
  set (s2 := set_retrans_cnt _ _). assert (state s2 = state s) as E2 by done.
  clearbody s2. case_match.
  - right. rewrite sock_bind, sock_modify.
    match goal with |- state (sock_after ?m ?s ?w) = _ =>
      etransitivity; [apply (keeps (f := state) (m := m) s w)|done] end.
  - left. rewrite <-E2.
    match goal with |- state (sock_after ?m ?s ?w) = _ => apply (keeps (f := state) (m := m) s w) end.
Qed.

Lemma conn_ok_closed irs str rd s s' :
  rcv_view s' = rcv_view s -> state s' = TCP_STATE_CLOSED -> conn_ok irs str rd s -> conn_ok irs str rd s'.
Proof.
  intros Hv Hs (fin & H1 & _). exists fin. split; [by eapply rcv_ok_view|]. right. by right.
Qed.

Lemma recv_step_ok irs str c c' :
  zlen str < 2 ^ 31 - 1 -> recv_step irs str c c' -> recv_conf_ok irs str c -> recv_conf_ok irs str c'.
Proof.
  intros HL. destruct 1 as [h fl opt d q s w out Hc Hf|s w out|cur n s w out Hn|d s w out|s w out];
    intros (Hok & Ho & Hle).
  - split; [|done]. by eapply tcp_input_ok.
  - split; [|done]. eapply conn_ok_closed; [apply (keeps (f := rcv_view) s w)| |done].
    unfold tcp_input_rst. rewrite sock_bind, !sock_modify.
    match goal with |- state (sock_after ?m ?s ?w) = _ =>
      etransitivity; [apply (keeps (f := state) (m := m) s w)|done] end.
  - destruct (tcp_recv_ok irs str (zlen out) cur n s w Hok Hn) as (H1 & H2 & H3).
    set (d := default [] _) in *. clearbody d. pose proof (zlen_nonneg d). pose proof (zlen_nonneg out).
    unfold recv_conf_ok. rewrite zlen_app. split_and!; [done| |done].
    rewrite slice_app, Z.add_0_l, <-Ho, <-H2 by lia. done.
  - split; [|done]. by apply conn_ok_keeps; [apply _..|].
  - split; [|done]. destruct (timer_state s w) as [Hv [Hs|Hs] ].
    + by eapply conn_ok_view.
    + by eapply conn_ok_closed.
Qed.

End runs.

(** The start of the data phase: an empty buffer, nothing queued. *)
Record fresh_receiver (irs : Z) (s : tcp_socket) : Prop := {
  fr_nxt : rcv_nxt s = u32 irs;
  fr_ring : recv_ring s;
  fr_empty : recv_buf_len s = 0;
  fr_ooo : ooo s = [];
  fr_state : state s = TCP_STATE_ESTABLISHED;
}.

Lemma fresh_receiver_ok irs str s : fresh_receiver irs s -> conn_ok irs str 0 s.
Proof.
  intros []. exists false. split; [|by left]. constructor; rewrite ?fr_empty0, ?Z.add_0_r; try done.
  - pose proof (zlen_nonneg str). lia.
  - unfold received. by rewrite fr_empty0.
  - by rewrite fr_ooo0.
Qed.

Definition demo_receiver : tcp_socket :=
  set_state TCP_STATE_ESTABLISHED (set_rcv_nxt 4294967294 (set_recv_buf_size 16
    (set_recv_buf (replicate 16 0) (set_snd_wnd 4096 (set_cwnd 3000 (set_mss_peer 536
      (set_flags TCP_SOCK_FLAG_NONBLOCK zero_socket))))))).

Lemma demo_receiver_fresh : fresh_receiver 4294967294 demo_receiver.
Proof. constructor; [done| |done..]. constructor; vm_compute; split_and?; congruence. Qed.

(** ** Theorems *)


#[local] Existing Instance exact_float.


(** ** The wire *)

Lemma clear_checksum h rest :
  (header_bytes h ++ rest).[15 <- 0].[16 <- 0] = header_bytes (with_checksum 0 h) ++ rest.
Proof. reflexivity. Qed.

Lemma checksum_u16 a b p d : is_u16 (tcp_checksum a b p d).
Proof. unfold tcp_checksum, u16. apply Z.mod_pos_bound. lia. Qed.

(** A sealed packet whose data offset is that of its header and options is parsed back:
    the checksum is right whichever end computes it. *)
Lemma parse_sealed a b h fl opt d words :
  header_ok h -> checksum h = 0 ->
  Z.land (data_offset_flags h) 63 = fl -> Z.land (Z.shiftr (data_offset_flags h) 4) 15 = words ->
  words * 4 = sizeof_tcp_header + zlen opt ->
  exists c, tcp_parse b a (sealed a b h (opt ++ d)) = Some (with_checksum c h, fl, opt, d).
Proof.
  intros Hh Hz Hf Hw Hl. unfold sealed.
  set (c := tcp_checksum _ _ _ _). assert (header_ok (with_checksum c h)) as Hc.
  { destruct Hh. constructor; try done. apply checksum_u16. }
  exists c. unfold tcp_parse. rewrite header_at_bytes by done.
  pose proof (zlen_nonneg opt). pose proof (zlen_nonneg d).
  assert (zlen (header_bytes (with_checksum c h) ++ opt ++ d) = 19 + zlen opt + zlen d) as Hlen.
  { rewrite !zlen_app. change (zlen (header_bytes _)) with 19. lia. }
  rewrite Hlen. unfold sizeof_tcp_header in *.
  destruct (Z.ltb_spec (19 + zlen opt + zlen d) 19); [lia|].
  cbn [data_offset_flags with_checksum checksum].
  rewrite Hf, Hw, Hl.
  destruct (Z.ltb_spec (19 + zlen opt) 19); [lia|].
  destruct (Z.ltb_spec (19 + zlen opt + zlen d) (19 + zlen opt)); [lia|]. cbn [orb].
  rewrite clear_checksum. change (with_checksum 0 (with_checksum c h)) with (with_checksum 0 h).
  rewrite (tcp_checksum_comm b a). fold c. rewrite Z.eqb_refl. cbn [negb].
  change (drop 19 (header_bytes (with_checksum c h) ++ opt ++ d)) with (opt ++ d).
  replace (19 + zlen opt - 19) with (zlen opt) by lia.
  rewrite take_app_length' by (unfold zlen; lia). do 2 f_equal.
  replace (Z.to_nat (19 + zlen opt)) with (19 + length opt)%nat by (unfold zlen; lia).
  rewrite <-drop_drop.
  change (drop 19 (header_bytes (with_checksum c h) ++ opt ++ d)) with (opt ++ d).
  by rewrite drop_app_length.
Qed.

(** What the wire gets from [tcp_send_segment]. *)
Lemma send_segment_wire d s w :
  reliable w -> ts_option s = 0 ->
  wire (world_after (tcp_send_segment (Z.lor TCP_PSH TCP_ACK) d) s w) =
  wire w ++ [(remote_ip s, sealed (local_ip s) (remote_ip s)
    (segment_header (Z.lor TCP_PSH TCP_ACK) (snd_nxt s) 1 (urg_ptr s) s) ([TCP_OPT_EOL] ++ d))].
Proof.
  intros [Hh Hl] Hts. unfold tcp_send_segment.
  assert (tcp_option_build 40 (has (Z.lor TCP_PSH TCP_ACK) TCP_SYN) s w = ([TCP_OPT_EOL], s, w)) as Eo.
  { unfold tcp_option_build, gets, mbind, M_bind. simpl. by rewrite Hts. }
  assert ((heap w 0%nat =? NULL) = false) as Hh' by (by apply Z.eqb_neq).
  set (b := tcp_option_build _ _) in *.
  assert (result b s w = [TCP_OPT_EOL]) as E1 by (unfold result; by rewrite Eo).
  assert (sock_after b s w = s) as E2 by (unfold sock_after; by rewrite Eo).
  assert (world_after b s w = w) as E3 by (unfold world_after; by rewrite Eo).
  rewrite world_bind, E1, E2, E3.
  rewrite world_bind. change (result heap_alloc s w) with (heap w 0%nat). rewrite Hh'.
  rewrite !world_bind. change (result (ip_send _ _) _ _) with (link w 0%nat). rewrite Hl.
  match goal with |- wire (world_after ?m ?s ?w) = _ =>
    rewrite (wkeeps (g := wire) (m := m) s w) end.
  reflexivity.
Qed.

(** The header of a data segment without options but the end mark. *)
Lemma data_header_ok s :
  is_u16 (local_port s) -> is_u16 (remote_port s) -> is_u32 (snd_nxt s) -> is_u32 (rcv_nxt s) ->
  0 <= rcv_wnd s ->
  header_ok (segment_header (Z.lor TCP_PSH TCP_ACK) (snd_nxt s) 1 (urg_ptr s) s).
Proof.
  intros H1 H2 H3 H4 H5. constructor; try done.
  cbn [window_size segment_header]. unfold is_u16. case_if; lia.
Qed.


Definition demo_segment_sender : tcp_socket :=
  set_local_port 5000 (set_remote_port 80 (set_local_ip 167772161 (set_remote_ip 167772162
    (set_snd_nxt 4000000000 (set_rcv_nxt 77 (set_rcv_wnd 70000 zero_socket)))))).


(** ** Segments this stack builds and does not accept *)

(** The packets an operation hands to the link. *)
Definition sent {A} (m : M A) (s : tcp_socket) : list (list Z) :=
  (wire (world_after m s (calm_world 4))).*2.

(** The data offset and the flags share one byte, so the ACK bit of a SYN-ACK turns its
    data offset of 10 words into 11, more than the packet has: the peer drops it.  A bare
    acknowledgement has 19 bytes and claims 20: the peer drops it.  With timestamps the
    ACK bit makes the data offset 9 words instead of 8, and the peer loses the first four
    bytes of the payload. *)
Lemma segments_not_accepted :
  let p := tcp_parse 167772162 167772161 in
  (p <$> sent (tcp_send_segment (Z.lor TCP_SYN TCP_ACK) []) demo_segment_sender) = [None] /\
  (p <$> sent tcp_send_ack demo_segment_sender) = [None] /\
  (fmap snd ∘ p <$> sent (tcp_send_segment (Z.lor TCP_PSH TCP_ACK) [1; 2; 3; 4; 5; 6])
                      (set_ts_option 1 demo_segment_sender)) = [Some [5; 6] ].
Proof. vm_compute. done. Qed.

(** ** The state machine *)

(** The state after a segment with flags [fl] in state [st], where [acked] says whether its
    acknowledgement number is between [snd_una] and [snd_nxt], and [in_order] whether its
    end is [rcv_nxt] once its payload has been taken. *)
Definition next_state (st fl : Z) (acked in_order : bool) : Z :=
  if st =? TCP_STATE_SYN_SENT then
    if has fl TCP_SYN then
      if has fl TCP_ACK then TCP_STATE_ESTABLISHED else TCP_STATE_SYN_RECEIVED
    else st
  else if st =? TCP_STATE_SYN_RECEIVED then
    if has fl TCP_ACK && acked then TCP_STATE_ESTABLISHED else st
  else if st =? TCP_STATE_ESTABLISHED then
    if has fl TCP_FIN && in_order then TCP_STATE_CLOSE_WAIT else st
  else if st =? TCP_STATE_FIN_WAIT1 then
    if has fl TCP_FIN then
      if has fl TCP_ACK then TCP_STATE_TIME_WAIT else TCP_STATE_CLOSING
    else st
  else if st =? TCP_STATE_FIN_WAIT2 then
    if has fl TCP_FIN then TCP_STATE_TIME_WAIT else st
  else st.

Section machine.
Context `{FloatOps}.

Lemma syn_ack_flags fl :
  (Z.land fl (Z.lor TCP_SYN TCP_ACK) =? Z.lor TCP_SYN TCP_ACK) = has fl TCP_SYN && has fl TCP_ACK.
Proof.
  unfold has, TCP_SYN, TCP_ACK. change (Z.lor 2 16) with 18.
  assert (Z.land fl 18 = Z.lor (Z.land fl 2) (Z.land fl 16)) as E
    by (change 18 with (Z.lor 2 16); apply Z.land_lor_distr_r).
  assert (forall k, 0 <= k -> Z.land fl (2 ^ k) = if Z.testbit fl k then 2 ^ k else 0) as Hb.
  { intros k Hk. apply Z.bits_inj'. intros n Hn. rewrite Z.land_spec, Z.pow2_bits_eqb by done.
    destruct (Z.eqb_spec k n) as [->|N].
    - destruct (Z.testbit fl n); [by rewrite Z.pow2_bits_true|by rewrite Z.bits_0].
    - rewrite andb_false_r. destruct (Z.testbit fl k); [|by rewrite Z.bits_0].
      by rewrite Z.pow2_bits_false. }
  rewrite E, (Hb 1 ltac:(lia) : Z.land fl 2 = _), (Hb 4 ltac:(lia) : Z.land fl 16 = _).
  by destruct (Z.testbit fl 1), (Z.testbit fl 4).
Qed.

Lemma transition_established_state s w :
  state (sock_after tcp_transition_to_established s w) = TCP_STATE_ESTABLISHED.
Proof.
  unfold tcp_transition_to_established. rewrite sock_modify.
  match goal with |- state (sock_after ?m ?s ?w) = _ =>
    etransitivity; [apply (keeps (f := state) (m := m) s w)|done] end.
Qed.

Lemma recv_syn_sent_state h fl s w :
  state s = TCP_STATE_SYN_SENT ->
  state (sock_after (recv_syn_sent h fl) s w) = next_state TCP_STATE_SYN_SENT fl false false.
Proof.
  intros Hs. unfold recv_syn_sent. rewrite sock_bind, (keeps (f := state) (m := tcp_wake_owner)).
  rewrite syn_ack_flags. unfold next_state. simpl.
  destruct (has fl TCP_SYN), (has fl TCP_ACK); cbn [andb when]; try done.
  - rewrite !sock_modify. apply transition_established_state.
  - rewrite sock_modify.
    match goal with |- state (sock_after ?m ?s ?w) = _ =>
      etransitivity; [apply (keeps (f := state) (m := m) s w)|done] end.
Qed.

Lemma recv_syn_received_state h fl s w :
  state s = TCP_STATE_SYN_RECEIVED ->
  state (sock_after (recv_syn_received h fl) s w) = next_state TCP_STATE_SYN_RECEIVED fl
    (seq_ge (ack_num h) (snd_una s) && seq_le (ack_num h) (snd_nxt s)) false.
Proof.
  intros Hs. unfold recv_syn_received. rewrite sock_gets. unfold next_state, id. simpl.
  rewrite <-andb_assoc. destruct (has fl TCP_ACK && _); cbn [when]; [|done].
  rewrite !sock_modify, sock_bind. apply transition_established_state.
Qed.

Lemma recv_fin_state h fl d s w :
  has fl TCP_FIN = true -> TCP_STATE_ESTABLISHED <= state s ->
  state (sock_after (recv_fin h fl d) s w) =
  next_state (state s) fl false (u32 (seq_num h + zlen d) =? rcv_nxt s).
Proof.
  intros Hf Hs. unfold recv_fin. rewrite sock_gets, sock_bind. unfold id.
  rewrite (keeps (f := state) (m := add_flags TCP_SOCK_FLAG_NEEDS_ACK)).
  unfold next_state. rewrite Hf.
  destruct (Z.eqb_spec (state s) TCP_STATE_SYN_SENT) as [E|_]; [by rewrite E in Hs|].
  destruct (Z.eqb_spec (state s) TCP_STATE_SYN_RECEIVED) as [E|_]; [by rewrite E in Hs|].
  rewrite orb_false_r. destruct (Z.eqb_spec (state s) TCP_STATE_ESTABLISHED) as [E|_]; cbn [andb].
  { destruct (_ =? rcv_nxt s); done. }
  destruct (Z.eqb_spec (state s) TCP_STATE_FIN_WAIT1) as [E|_].
  { rewrite sock_modify. destruct (has fl TCP_ACK); done. }
  destruct (Z.eqb_spec (state s) TCP_STATE_FIN_WAIT2) as [E|_]; [done|].
  by destruct (state s =? TCP_STATE_TIME_WAIT).
Qed.

(** Skip a step that keeps the state. *)
Ltac skip_state :=
  rewrite sock_bind;
  match goal with |- context [sock_after ?k (sock_after ?m ?x ?y) ?z] =>
    let E := fresh "E" in
    assert (state (sock_after m x y) = state x) as E by apply (keeps (f := state) (m := m) x y);
    let s' := fresh "s'" in let w' := fresh "w'" in
    set (s' := sock_after m x y) in *; set (w' := z); clearbody s' w'; rewrite <-E in *;
    clear E x y; rename s' into x; rename w' into y
  end.

Lemma next_state_idle st fl a b :
  TCP_STATE_ESTABLISHED <= st -> has fl TCP_FIN = false -> next_state st fl a b = st.
Proof.
  intros Hs Hf. unfold next_state. rewrite Hf. unfold TCP_STATE_ESTABLISHED in *.
  destruct (Z.eqb_spec st TCP_STATE_SYN_SENT) as [E|_]; [unfold TCP_STATE_SYN_SENT in E; lia|].
  destruct (Z.eqb_spec st TCP_STATE_SYN_RECEIVED) as [E|_]; [unfold TCP_STATE_SYN_RECEIVED in E; lia|].
  cbn [andb]. by repeat case_match.
Qed.

Lemma recv_synchronized_state h fl d s w :
  TCP_STATE_ESTABLISHED <= state s ->
  exists in_order, state (sock_after (recv_synchronized h fl d) s w) =
    next_state (state s) fl false in_order.
Proof.
  intros Hs. unfold recv_synchronized. do 4 skip_state. rewrite sock_bind.
  match goal with |- context [state (sock_after ?m ?x ?y)] =>
    rewrite (keeps (f := state) (m := m) x y) end.
  destruct (has fl TCP_FIN) eqn:Hf; cbn [when].
  - eexists. by apply recv_fin_state.
  - exists false. symmetry. by apply next_state_idle.
Qed.


End machine.

(** ** Where the receive side goes wrong *)

(** A segment for the demonstrations. *)
Definition demo_hdr (sq : Z) : tcp_header := mk_hdr 80 5000 sq 0 0 4096 0 0.
Definition feed (l : list (Z * list Z)) (s : tcp_socket) : tcp_socket :=
  foldl (fun s '(sq, d) => sock_after (tcp_input (demo_hdr sq) TCP_PSH [] d) s (calm_world 1)) s l.

(** The reassembly queue is sorted with the largest sequence number first, while only its
    head is tried: when the second and third of three segments arrive before the first,
    the first is delivered alone, although the queue holds the other two. *)
Lemma reassembly_stalls :
  let s := feed [(101, [3; 4]); (103, [5; 6]); (99, [1; 2])] (set_rcv_nxt 99 demo_receiver) in
  received s = [1; 2] /\ rcv_nxt s = 101 /\ (seq <$> ooo s) = [103; 101].
Proof. vm_compute. done. Qed.

(** A segment in order that does not fit in the receive buffer is dropped and
    acknowledged: [rcv_nxt] moves over bytes the process never gets.  The window the
    socket advertises does not prevent it, since receiving does not lower [rcv_wnd]. *)
Lemma overflow_acknowledged :
  let s0 := set_rcv_nxt 99 (set_rcv_wnd 16 demo_receiver) in
  let s := feed [(99, replicate 10 7); (109, replicate 10 8)] s0 in
  received s = replicate 10 7 /\ rcv_nxt s = 119 /\ rcv_wnd s = 16.
Proof. vm_compute. done. Qed.

(** The acknowledgement that completes a passive open moves [rcv_nxt] one further although
    it takes no sequence number: the first byte of the peer's data is cut off. *)
Lemma passive_open_loses_byte :
  let s0 := set_state TCP_STATE_SYN_RECEIVED (set_rcv_nxt 101 (set_snd_una 50 (set_snd_nxt 51 demo_receiver))) in
  let s1 := sock_after (tcp_input (mk_hdr 80 5000 101 51 0 4096 0 0) TCP_ACK [] []) s0 (calm_world 1) in
  state s1 = TCP_STATE_ESTABLISHED /\ received (feed [(101, [1; 2; 3])] s1) = [2; 3].
Proof. vm_compute. done. Qed.

(** A FIN that overtakes data moves [rcv_nxt] in FIN_WAIT1 without being in order, and the
    byte it skips is lost. *)
Lemma fin_wait_takes_early_fin :
  let s0 := set_state TCP_STATE_FIN_WAIT1 (set_rcv_nxt 99 demo_receiver) in
  let s1 := sock_after (tcp_input (demo_hdr 102) (Z.lor TCP_FIN TCP_ACK) [] []) s0 (calm_world 1) in
  state s1 = TCP_STATE_TIME_WAIT /\ received (feed [(99, [1; 2; 3])] s1) = [2; 3].
Proof. vm_compute. done. Qed.

End TcpRecv.
