(* ===== verification/TcpTable.v ===== *)
(** * TCP: socket tables and calls on sockets (src/net/tcp.c)

    [Module TcpTable]: the hash table of connections, the table of local ports, the list
    of all sockets, the allocation of ephemeral ports, creation and release of sockets,
    [tcp_listen], [tcp_accept], the opening and closing of connections, the dispatch of a
    received packet and the periodic tick.  Sockets are addresses in [store]; the links
    [next] and [next_all] are fields of the sockets, as in the code, so a socket that is
    put on two lists by the same link is on one of them only.  A result [None] is an
    access to an address that holds no socket, or a list that has a cycle (the walks have
    as many passes as there are sockets).  The table lock is held around each operation. *)

From S2P Require Import Prelude Ring Tcp TcpSend TcpRecv.

Module TcpTable.
Import Tcp TcpSend TcpRecv.

(** ** Access to the store *)

(** Run an operation on the socket at [p]; the other sockets stay in the store. *)
Definition run_on {A} (p : Z) (m : M A) (w : world) : option (A * world) :=
  s ← store w !! p;
  let '(x, s', w') := m s (set_store (delete p (store w)) w) in
  Some (x, set_store (<[p := s']> (store w')) w').

Definition field (f : tcp_socket -> Z) (p : Z) (w : world) : option Z := f <$> store w !! p.

Definition alter_sock (f : tcp_socket -> tcp_socket) (p : Z) (w : world) : option world :=
  s ← store w !! p; Some (set_store (<[p := f s]> (store w)) w).

Definition walk_fuel (w : world) : nat := S (size (store w)).

(** The first socket on the chain from [p] that satisfies [test], or [NULL]. *)
Fixpoint chain_find (fuel : nat) (link : tcp_socket -> Z) (test : tcp_socket -> bool)
    (w : world) (p : Z) : option Z :=
  if p =? NULL then Some NULL
  else match fuel with
       | O => None
       | S fuel =>
           s ← store w !! p;
           if test s then Some p else chain_find fuel link test w (link s)
       end.

(** [while ( *pp) { if ( *pp == p) ...; pp = &( *pp)->link; }] from the socket [q], which is
    not [p]: whether [p] was found, and the world with its predecessor's link changed. *)
Fixpoint unlink_after (fuel : nat) (get : tcp_socket -> Z) (set : Z -> tcp_socket -> tcp_socket)
    (p q : Z) (w : world) : option (bool * world) :=
  match fuel with
  | O => None
  | S fuel =>
      s ← store w !! q;
      if get s =? NULL then Some (false, w)
      else if get s =? p then
        sp ← store w !! p;
        w ← alter_sock (set (get sp)) q w;
        Some (true, w)
      else unlink_after fuel get set p (get s) w
  end.

(** The same from the head of a list: also the new head. *)
Definition chain_unlink (get : tcp_socket -> Z) (set : Z -> tcp_socket -> tcp_socket)
    (p head : Z) (w : world) : option (bool * Z * world) :=
  if head =? NULL then Some (false, head, w)
  else if head =? p then sp ← store w !! p; Some (true, get sp, w)
  else '(found, w) ← unlink_after (walk_fuel w) get set p head w; Some (found, head, w).

(** ** Hash table *)

Definition hash_func (lp rp lip rip : Z) : Z :=
  let h := u32 (lp * 31 + rp) in
  let h := Z.lxor h (u32 (lip * 2654435761)) in
  let h := Z.lxor h (u32 (rip * 2246822519)) in
  h mod TCP_HASH_TABLE_SIZE.

Definition sock_hash (s : tcp_socket) : Z :=
  hash_func (local_port s) (remote_port s) (local_ip s) (remote_ip s).

Definition set_hash (h v : Z) (w : world) : world :=
  set_tables (sockets w) (fupd (tcp_hash w) h v) (all_sockets w) w.

Definition hash_insert (p : Z) (w : world) : option world :=
  s ← store w !! p;
  let h := sock_hash s in
  w ← alter_sock (set_next (tcp_hash w h)) p w;
  Some (set_hash h p w).

(** The socket's link is cleared when it was found. *)
Definition hash_remove (p : Z) (w : world) : option world :=
  s ← store w !! p;
  let h := sock_hash s in
  '(found, q, w) ← chain_unlink next set_next p (tcp_hash w h) w;
  let w := set_hash h q w in
  if (found : bool) then alter_sock (set_next NULL) p w else Some w.

(** ** Registration *)

Definition set_port (port v : Z) (w : world) : world :=
  set_tables (fupd (sockets w) port v) (tcp_hash w) (all_sockets w) w.

Definition set_all (v : Z) (w : world) : world :=
  set_tables (sockets w) (tcp_hash w) v w.

Definition tcp_register (p : Z) (w : world) : option world :=
  s ← store w !! p;
  let w := if c_true (local_port s) then set_port (local_port s) p w else w in
  w ← hash_insert p w;
  w ← alter_sock (set_next_all (all_sockets w)) p w;
  Some (set_all p w).

Definition tcp_unregister (p : Z) (w : world) : option world :=
  s ← store w !! p;
  let w := if c_true (local_port s) && (sockets w (local_port s) =? p)
           then set_port (local_port s) NULL w else w in
  w ← hash_remove p w;
  '(_, q, w) ← chain_unlink next_all set_next_all p (all_sockets w) w;
  alter_sock (set_next_all NULL) p (set_all q w).

(** ** Ephemeral ports *)

Fixpoint ephemeral_loop (tries : nat) (w : world) : Z * world :=
  match tries with
  | O => (0, w)
  | S tries =>
      let p := next_ephemeral_port w in
      let n := u16 (p + 1) in
      let w := set_ephemeral (if n <? 49152 then 49152 else n) w in
      if p =? 0 then ephemeral_loop tries w
      else if sockets w p =? NULL then (p, w)
      else ephemeral_loop tries w
  end.

Definition alloc_ephemeral (w : world) : Z * world := ephemeral_loop (Z.to_nat 65536) w.

(** ** Creating and releasing sockets *)

(** The socket's fields after [tcp_socket_create]; [now]: the time of creation. *)
Definition new_socket (now : Z) : tcp_socket :=
  set_snd_wnd TCP_MAX_WINDOW (set_rcv_wnd TCP_RCVBUF_SIZE (set_rcv_adv TCP_RCVBUF_SIZE
  (set_cwnd (TCP_INITIAL_CWND * MSS) (set_ssthresh TCP_SLOW_START_THRESHOLD
  (set_cc_algo TCP_CC_NEWRENO (set_rto TCP_RETRANS_TIMEOUT (set_rto_min 200 (set_rto_max 60000
  (set_max_retries TCP_MAX_RETRIES (set_mss_local MSS (set_mss_peer 536 (set_last_ack_time now
  (set_backlog_max TCP_SYN_BACKLOG_DEFAULT (set_send_buf_size TCP_SNDBUF_SIZE
  (set_recv_buf_size TCP_RCVBUF_SIZE
  (set_send_buf (replicate (Z.to_nat TCP_SNDBUF_SIZE) 0)
  (set_recv_buf (replicate (Z.to_nat TCP_RCVBUF_SIZE) 0)
  (set_refcount 1 zero_socket)))))))))))))))))).

(** [tcp_socket_create]: the address, [NULL] when an allocation fails.  The buffers are
    not initialised; a cell is written before it is read. *)
Definition tcp_socket_create (w : world) : Z * world :=
  let p := heap w O in
  let w := set_heap (tape_next (heap w)) w in
  if p =? NULL then (NULL, w)
  else
    let now := u32 (clock w O * 10) in
    let w := set_clock (tape_next (clock w)) w in
    let snd := heap w O in
    let rcv := heap w 1%nat in
    let w := set_heap (tape_next (tape_next (heap w))) w in
    if (snd =? NULL) || (rcv =? NULL) then (NULL, w)
    else (p, set_store (<[p := new_socket now]> (store w)) w).

Definition now_w (w : world) : Z * world :=
  (u32 (clock w O * 10), set_clock (tape_next (clock w)) w).

Definition count (c : counter) (w : world) : world :=
  set_counts (fupd (counts w) c (u32 (counts w c + 1))) w.

(** [sock_release]: drop a reference; the last one frees the socket, its queues, and the
    sockets on its accept queue. *)
Fixpoint sock_release (fuel : nat) (p : Z) (w : world) : option world :=
  if p =? NULL then Some w
  else match fuel with
       | O => None
       | S fuel =>
           s ← store w !! p;
           let s := if 0 <? refcount s then set_refcount (refcount s - 1) s else s in
           let w := set_store (<[p := s]> (store w)) w in
           if negb (refcount s =? 0) then Some w
           else
             w ← release_queue fuel (accept_head s) w;
             Some (set_store (delete p (store w)) w)
       end
with release_queue (fuel : nat) (c : Z) (w : world) : option world :=
  if c =? NULL then Some w
  else match fuel with
       | O => None
       | S fuel =>
           n ← field next c w;
           w ← sock_release fuel c w;
           release_queue fuel n w
       end.

Definition release (p : Z) (w : world) : option world :=
  sock_release (2 * walk_fuel w) p w.

(** ** Listening and accepting *)

Definition tcp_listen (port : Z) (w : world) : option (Z * world) :=
  let '(p, w) := tcp_socket_create w in
  if p =? NULL then Some (NULL, w)
  else
    w ← alter_sock (fun s => set_backlog_max TCP_SYN_BACKLOG_DEFAULT
          (set_flags (Z.lor (flags s) TCP_SOCK_FLAG_LISTEN)
            (set_state TCP_STATE_LISTEN (set_local_port port s)))) p w;
    w ← tcp_register p w;
    Some (p, count passive_opens w).

Definition tcp_listen_with_backlog (backlog : Z) (s : tcp_socket) : Z * tcp_socket :=
  if negb (state s =? TCP_STATE_CLOSED) then (-1, s)
  else
    let b := if backlog <? 1 then 1 else backlog in
    let b := if TCP_BACKLOG_MAX <? b then TCP_BACKLOG_MAX else b in
    (0, set_backlog_max (u8 b) (set_flags (Z.lor (flags s) TCP_SOCK_FLAG_LISTEN)
          (set_state TCP_STATE_LISTEN (set_local_port 0 s)))).

Definition accept_from_listener (l : Z) (w : world) : option (Z * world) :=
  ls ← store w !! l;
  let child := accept_head ls in
  if child =? NULL then Some (NULL, w)
  else
    cs ← store w !! child;
    w ← alter_sock (fun ls =>
          let ls := set_accept_head (next cs) ls in
          let ls := if next cs =? NULL then set_accept_tail NULL ls else ls in
          set_backlog_cur (u8 (backlog_cur ls - 1)) ls) l w;
    w ← alter_sock (set_next NULL) child w;
    Some (child, w).

Definition tcp_accept_nonblock (l : Z) (w : world) : option (Z * world) :=
  if l =? NULL then Some (NULL, w)
  else
    ls ← store w !! l;
    if negb (state ls =? TCP_STATE_LISTEN) then Some (NULL, w) else accept_from_listener l w.

(** One pass of the loop of [tcp_accept]: [inl] the result, [inr] when the process goes
    to sleep; [deadline] was set on entry. *)
Definition tcp_accept (current deadline l : Z) (w : world) : option ((Z + unit) * world) :=
  if l =? NULL then Some (inl NULL, w)
  else
    ls ← store w !! l;
    if negb (state ls =? TCP_STATE_LISTEN) then Some (inl NULL, w)
    else if c_true (accept_head ls) then
      '(c, w) ← accept_from_listener l w; Some (inl c, w)
    else
      let '(now, w) := now_w w in
      if 0 <=? s32 (now - deadline) then Some (inl NULL, w)
      else if has (flags ls) TCP_SOCK_FLAG_NONBLOCK then Some (inl NULL, w)
      else w ← alter_sock (set_wait_accept current) l w; Some (inr tt, w).

(** ** Opening *)

(** [tcp_connect] up to the wait: the new socket, [NULL] when something fails.
    [ifip]: the address of the interface. *)
Definition tcp_connect (ifp ifip dst dst_port src_port : Z) (w : world) : option (Z * world) :=
  if ifp =? NULL then Some (NULL, w)
  else
    let '(p, w) := tcp_socket_create w in
    if p =? NULL then Some (NULL, w)
    else
      let '(src_port, w) := if src_port =? 0 then alloc_ephemeral w else (src_port, w) in
      if src_port =? 0 then w ← release p w; Some (NULL, w)
      else
        let '(now, w) := now_w w in
        let '(now', w) := now_w w in
        let isn := Z.lxor (u32 (now * 23)) (u32 p) in
        w ← alter_sock (fun s =>
              set_keepalive_time (u32 (now' + TCP_KEEPALIVE_IDLE_MS))
              (set_state TCP_STATE_SYN_SENT (set_rcv_nxt 0 (set_snd_nxt isn (set_snd_una isn
              (set_remote_port dst_port (set_local_port src_port (set_remote_ip dst
              (set_local_ip ifip (set_iface ifp s)))))))))) p w;
        w ← tcp_register p w;
        let w := count attempts (count active_opens w) in
        '(r, w) ← run_on p (tcp_send_segment TCP_SYN []) w;
        if r <? 0 then
          w ← tcp_unregister p w; w ← release p w; Some (NULL, w)
        else Some (p, w).

(** What [tcp_connect] does when the wait is over. *)
Definition tcp_connect_done (p : Z) (w : world) : option (Z * world) :=
  s ← store w !! p;
  if negb (state s =? TCP_STATE_ESTABLISHED) then
    w ← tcp_unregister p w; w ← release p w; Some (NULL, w)
  else Some (p, w).

(** ** Closing *)

Definition close_now (p : Z) (w : world) : option world :=
  w ← alter_sock (set_state TCP_STATE_CLOSED) p w;
  w ← tcp_unregister p w;
  release p w.

Definition tcp_close_internal (p : Z) (w : world) : option world :=
  s ← store w !! p;
  if state s =? TCP_STATE_CLOSED then Some w
  else if (state s =? TCP_STATE_LISTEN) || (state s =? TCP_STATE_SYN_SENT) then close_now p w
  else if state s =? TCP_STATE_ESTABLISHED then
    '(_, w) ← run_on p (
        tcp_send_segment (Z.lor TCP_FIN TCP_ACK) [];;
        modify (set_state TCP_STATE_FIN_WAIT1);;
        add_flags TCP_SOCK_FLAG_CLOSING;;
        start_time_wait) w;
    Some w
  else if state s =? TCP_STATE_CLOSE_WAIT then
    '(_, w) ← run_on p (
        tcp_send_segment (Z.lor TCP_FIN TCP_ACK) [];;
        modify (set_state TCP_STATE_LAST_ACK);;
        add_flags TCP_SOCK_FLAG_CLOSING) w;
    Some w
  else if state s =? TCP_STATE_TIME_WAIT then
    '(_, w) ← run_on p start_time_wait w; Some w
  else close_now p w.

(** The lock of the socket is released after [tcp_close_internal]. *)
Definition tcp_close (p : Z) (w : world) : option (Z * world) :=
  if p =? NULL then Some (-1, w)
  else
    _ ← store w !! p;
    w ← tcp_close_internal p w;
    _ ← store w !! p;
    Some (0, count closes w).

(** ** Receiving *)

Definition address_match (lp rp lip rip : Z) (s : tcp_socket) : bool :=
  (local_port s =? lp) && (remote_port s =? rp) && (local_ip s =? lip) && (remote_ip s =? rip).

(** The connection with the four addresses, or [NULL]. *)
Definition find_socket (lp rp lip rip : Z) (w : world) : option Z :=
  chain_find (walk_fuel w) next (address_match lp rp lip rip) w (tcp_hash w (hash_func lp rp lip rip)).

Definition listener_match (port ip : Z) (s : tcp_socket) : bool :=
  (state s =? TCP_STATE_LISTEN) && (local_port s =? port) && ((local_ip s =? 0) || (local_ip s =? ip)).

(** The buckets in order; [None] when a bucket's walk fails. *)
Fixpoint find_bucket (buckets : list Z) (port ip : Z) (w : world) : option Z :=
  match buckets with
  | [] => Some NULL
  | b :: buckets =>
      p ← chain_find (walk_fuel w) next (listener_match port ip) w (tcp_hash w b);
      if p =? NULL then find_bucket buckets port ip w else Some p
  end.

Definition find_listener (port ip : Z) (w : world) : option Z :=
  find_bucket (range 0 TCP_HASH_TABLE_SIZE) port ip w.

(** A SYN for a listening socket: the child in SYN_RECEIVED on the accept queue. *)
Definition spawn_child (ifp my_ip src_ip l : Z) (h : tcp_header) (opt : list Z) (w : world) :
    option world :=
  ls ← store w !! l;
  if backlog_max ls <=? backlog_cur ls then Some w
  else
    let '(p, w) := tcp_socket_create w in
    if p =? NULL then Some w
    else
      let '(now, w) := now_w w in
      let isn := Z.lxor (u32 (now * 31)) (u32 p) in
      w ← alter_sock (fun s =>
            set_backlog_max 1 (set_parent l
            (set_flags (Z.lor (flags s) TCP_SOCK_FLAG_PASSIVE) (set_state TCP_STATE_SYN_RECEIVED
            (set_snd_wl2 (ack_num h) (set_snd_wl1 (seq_num h) (set_snd_wnd (window_size h)
            (set_rcv_nxt (u32 (seq_num h + 1)) (set_snd_nxt isn (set_snd_una isn
            (set_remote_port (src_port h) (set_local_port (dst_port h) (set_remote_ip src_ip
            (set_local_ip (if c_true (local_ip ls) then local_ip ls else my_ip)
              (set_iface ifp s))))))))))))))) p w;
      let '(now, w) := now_w w in
      w ← alter_sock (set_keepalive_time (u32 (now + TCP_KEEPALIVE_IDLE_MS))) p w;
      '(_, w) ← run_on p (when (0 <? zlen opt) (tcp_option_parse opt)) w;
      head ← field accept_head l w;
      w ← alter_sock (set_next head) p w;
      w ← alter_sock (fun ls =>
            let ls := set_accept_head p (set_backlog_cur (u8 (backlog_cur ls + 1)) ls) in
            if accept_tail ls =? NULL then set_accept_tail p ls else ls) l w;
      w ← tcp_register p w;
      '(_, w) ← run_on p (tcp_send_segment (Z.lor TCP_SYN TCP_ACK) []) (count passive_opens w);
      Some w.

(** [tcp_receive] on the packet [pkt] that came in on the interface at [ifp] with address
    [my_ip] from [src_ip]. *)
Definition tcp_receive `{FloatOps} (ifp my_ip src_ip : Z) (pkt : list Z) (w : world) : option world :=
  match tcp_parse my_ip src_ip pkt with
  | None => Some w
  | Some (h, fl, opt, d) =>
      p ← find_socket (dst_port h) (src_port h) my_ip src_ip w;
      if has fl TCP_RST then
        if p =? NULL then Some w else '(_, w) ← run_on p tcp_input_rst w; Some w
      else if p =? NULL then
        if has fl TCP_SYN then
          l ← find_listener (dst_port h) my_ip w;
          if l =? NULL then
            Some (set_link (tape_next (link w))
                    (wire w ++ [(src_ip, rst_packet my_ip src_ip (dst_port h) (src_port h)
                                           (ack_num h))]) w)
          else spawn_child ifp my_ip src_ip l h opt w
        else Some w
      else '(_, w) ← run_on p (tcp_input h fl opt d) w; Some w
  end.

(** ** The tick *)

(** The work on one socket after the retransmission: keep-alive, zero-window probe, the
    pending round-trip sample and the delayed acknowledgement. *)
Definition tick_keepalive : M unit :=
  s ← gets id;
  when (has (flags s) TCP_SOCK_FLAG_KEEPALIVE && (state s =? TCP_STATE_ESTABLISHED) &&
        c_true (keepalive_time s)) (
    now ← now_ms;
    when (0 <=? s32 (now - keepalive_time s)) (
      if TCP_KEEPALIVE_PROBES <=? keepalive_probes s then
        add_flags TCP_SOCK_FLAG_RST_RCVD;;
        modify (set_state TCP_STATE_CLOSED);;
        tcp_wake_owner
      else
        tcp_send_segment TCP_ACK [];;
        modify (fun s => set_keepalive_probes (u32 (keepalive_probes s + 1)) s);;
        now ← now_ms;
        modify (set_keepalive_time (u32 (now + TCP_KEEPALIVE_INTVL_MS))))).

Definition tick_zero_probe : M unit :=
  s ← gets id;
  when (has (flags s) TCP_SOCK_FLAG_ZERO_PROBE && c_true (zero_probe_time s)) (
    now ← now_ms;
    when ((0 <=? s32 (now - zero_probe_time s)) && (state s =? TCP_STATE_ESTABLISHED)) (
      tcp_send_segment (Z.lor TCP_PSH TCP_ACK) [];;
      now ← now_ms;
      modify (set_zero_probe_time (u32 (now + TCP_ZERO_WINDOW_PROBE_MS))))).

Definition tick_rtt : M unit :=
  s ← gets id;
  when (c_true (rtt_pending s)) (
    now ← now_ms;
    when (rto s <? u32 (now - rtt_send_time s)) (modify (set_rtt_pending 0))).

Definition tick_delayed_ack : M unit :=
  s ← gets id;
  when (has (flags s) TCP_SOCK_FLAG_NEEDS_ACK && (state s =? TCP_STATE_ESTABLISHED)) (
    now ← now_ms;
    when (TCP_DELACK_MS <=? s32 (now - last_ack_time s)) (tcp_send_ack;; mret tt)).

(** [true] when the socket is in TIME_WAIT and its time is over. *)
Definition tick_expired : M bool :=
  s ← gets id;
  if (state s =? TCP_STATE_TIME_WAIT) && c_true (time_wait_expire s) then
    now ← now_ms;
    mret (0 <=? s32 (now - time_wait_expire s))
  else mret false.

Section tick.
Context `{FloatOps}.

(** A bucket from the socket [p] on.  After an expired socket the walk stops ([s = NULL;
    continue] ends the loop). *)
Fixpoint tick_bucket (fuel : nat) (p : Z) (w : world) : option world :=
  if p =? NULL then Some w
  else match fuel with
       | O => None
       | S fuel =>
           n ← field next p w;
           '(expired, w) ← run_on p (rtx_retransmit_due;; tick_expired) w;
           if (expired : bool) then
             w ← alter_sock (set_state TCP_STATE_CLOSED) p w;
             w ← tcp_unregister p w;
             release p w
           else
             '(_, w) ← run_on p (tick_keepalive;; tick_zero_probe;; tick_rtt;; tick_delayed_ack) w;
             tick_bucket fuel n w
       end.

Definition tcp_tick (w : world) : option world :=
  let '(_, w) := now_w w in
  foldl (fun ow b => w ← ow; tick_bucket (walk_fuel w) (tcp_hash w b) w)
        (Some w) (range 0 TCP_HASH_TABLE_SIZE).

End tick.

(** ** Errors and wake-ups from outside *)

(** Apply [m] to every socket on the list from [p] that satisfies [test]. *)
Fixpoint walk_all (fuel : nat) (get : tcp_socket -> Z) (test : tcp_socket -> bool) (m : M unit)
    (p : Z) (w : world) : option world :=
  if p =? NULL then Some w
  else match fuel with
       | O => None
       | S fuel =>
           s ← store w !! p;
           w ← (if test s then '(_, w) ← run_on p m w; Some w else Some w);
           walk_all fuel get test m (get s) w
       end.

Definition ICMP_TYPE_DEST_UNREACH : Z := 3.

Definition tcp_handle_icmp_error (type : Z) (w : world) : option world :=
  if negb (type =? ICMP_TYPE_DEST_UNREACH) then Some w
  else walk_all (walk_fuel w) next_all (fun s => state s =? TCP_STATE_ESTABLISHED) tcp_mark_error
         (all_sockets w) w.

Definition tcp_wakeup (proc : Z) (w : world) : option world :=
  foldl (fun ow b => w ← ow; walk_all (walk_fuel w) next (fun s => owner s =? proc) tcp_wake_owner
                               (tcp_hash w b) w)
        (Some w) (range 0 TCP_HASH_TABLE_SIZE).

(** The sockets on the list of all sockets. *)
Fixpoint all_list (fuel : nat) (p : Z) (w : world) : option (list tcp_socket) :=
  if p =? NULL then Some []
  else match fuel with
       | O => None
       | S fuel => s ← store w !! p; l ← all_list fuel (next_all s) w; Some (s :: l)
       end.

Definition tcp_get_socket_count (w : world) : option Z :=
  zlen <$> all_list (walk_fuel w) (all_sockets w) w.

Definition tcp_listener_count (w : world) : option Z :=
  zcount (fun s => state s =? TCP_STATE_LISTEN) <$> all_list (walk_fuel w) (all_sockets w) w.

(** ** Lemmas: ephemeral ports *)

(** The port after [p] in the cycle 49152 .. 65535. *)
Definition next_port (p : Z) : Z := if u16 (p + 1) <? 49152 then 49152 else u16 (p + 1).

Lemma next_port_range p : 49152 <= p <= 65535 ->
  next_port p = (if p =? 65535 then 49152 else p + 1).
Proof.
  intros Hp. unfold next_port, u16. destruct (Z.eqb_spec p 65535) as [->|N]; [done|].
  rewrite Z.mod_small by lia. case_if; lia.
Qed.

(** The port [k] steps after [p]. *)
Lemma ports_cycle p k : 49152 <= p <= 65535 -> 0 <= k ->
  let q := 49152 + (p - 49152 + k) mod 16384 in
  next_port q = 49152 + (p - 49152 + (k + 1)) mod 16384.
Proof.
  intros Hp Hk q. assert (49152 <= q <= 65535) by (subst q; dlia).
  rewrite next_port_range by done. subst q. case_if; dlia.
Qed.

Lemma ephemeral_loop_spec n p k w :
  49152 <= p <= 65535 -> 0 <= k ->
  next_ephemeral_port w = 49152 + (p - 49152 + k) mod 16384 ->
  let '(r, w') := ephemeral_loop n w in
  sockets w' = sockets w /\
  49152 <= next_ephemeral_port w' <= 65535 /\
  ((r = 0 /\ forall j, k <= j < k + Z.of_nat n ->
     sockets w (49152 + (p - 49152 + j) mod 16384) <> NULL) \/
   (49152 <= r <= 65535 /\ sockets w r = NULL)).
Proof.
  intros Hp. revert k w. induction n as [|n IH]; intros k w Hk Hw; cbn [ephemeral_loop].
  - split; [done|]. split; [rewrite Hw; dlia|]. left. split; [done|]. lia.
  - set (q := next_ephemeral_port w) in *.
    assert (49152 <= q <= 65535) as Hq by (rewrite Hw; dlia).
    destruct (Z.eqb_spec q 0); [lia|]. fold (next_port q).
    change (sockets (set_ephemeral (next_port q) w)) with (sockets w).
    destruct (Z.eqb_spec (sockets w q) NULL) as [E|E].
    + split; [done|]. split; [|by right].
      change (next_ephemeral_port (set_ephemeral (next_port q) w)) with (next_port q).
      rewrite next_port_range by done. case_if; lia.
    + specialize (IH (k + 1) (set_ephemeral (next_port q) w)).
      change (sockets (set_ephemeral (next_port q) w)) with (sockets w) in IH.
      destruct (ephemeral_loop n _) as [r w']. destruct IH as (I1 & I2 & I3); [lia| |].
      { change (next_ephemeral_port (set_ephemeral (next_port q) w)) with (next_port q).
        rewrite Hw. by apply ports_cycle. }
      split; [done|]. split; [done|]. destruct I3 as [ [-> I3] |I3]; [left|by right].
      split; [done|]. intros j Hj. destruct (Z.eq_dec j k) as [->|]; [by rewrite <-Hw|].
      apply I3. lia.
Qed.

(** ** Lemmas: chains *)

(** The chain of [get] links from [p] visits exactly the addresses [l]. *)
Fixpoint is_chain (get : tcp_socket -> Z) (w : world) (p : Z) (l : list Z) : Prop :=
  match l with
  | [] => p = NULL
  | a :: l => p = a /\ a <> NULL /\ exists s, store w !! a = Some s /\ is_chain get w (get s) l
  end.

(** The hash table holds the sockets [T h] in bucket [h], in chain order. *)
Record table_ok (w : world) (T : Z -> list Z) : Prop := {
  to_chain : forall h, is_chain next w (tcp_hash w h) (T h);
  to_hash : forall h a s, a ∈ T h -> store w !! a = Some s -> sock_hash s = h;
  to_nodup : forall h, NoDup (T h);
}.

Lemma is_chain_elem get w p l a : is_chain get w p l -> a ∈ l -> exists s, store w !! a = Some s.
Proof.
  revert p. induction l as [|b l IH]; intros p; [set_solver|].
  intros (_ & _ & s & Hs & Hc) [->|Ha]%elem_of_cons; eauto.
Qed.

(** A chain survives a change of a socket that is not on it. *)
Lemma is_chain_frame get w p l q s :
  is_chain get w p l -> q ∉ l -> is_chain get (set_store (<[q := s]> (store w)) w) p l.
Proof.
  revert p. induction l as [|a l IH]; intros p; [done|].
  intros (-> & Ha & sa & Hs & Hc) Hq. apply not_elem_of_cons in Hq as [Hn Hq].
  split; [done|]. split; [done|]. exists sa. split; [|by apply IH].
  change (<[q:=s]> (store w) !! a = Some sa). by rewrite lookup_insert_ne.
Qed.

(** Chains look at the store only. *)
Lemma is_chain_store get w w' p l : store w' = store w -> is_chain get w p l -> is_chain get w' p l.
Proof.
  intros E. revert p. induction l as [|a l IH]; intros p; [done|].
  intros (-> & Ha & sa & Hs & Hc). split; [done|]. split; [done|]. exists sa. rewrite E.
  split; [done|]. by apply IH.
Qed.

Lemma chain_find_spec get test w p l fuel :
  is_chain get w p l -> (length l < fuel)%nat ->
  chain_find fuel get test w p =
  Some (default NULL (List.find (fun a => default false (test <$> store w !! a)) l)).
Proof.
  revert p fuel. induction l as [|a l IH]; intros p fuel; cbn [chain_find is_chain].
  - intros -> _. by destruct fuel.
  - intros (-> & Ha & s & Hs & Hc) Hf. destruct fuel as [|fuel]; [simpl in Hf; lia|].
    cbn [chain_find]. destruct (Z.eqb_spec a NULL); [done|]. simpl. rewrite Hs. simpl.
    destruct (test s); [done|]. apply IH; [done|]. simpl in Hf. lia.
Qed.

Lemma chain_length get w p l : is_chain get w p l -> NoDup l -> (length l < walk_fuel w)%nat.
Proof.
  intros Hc Hn. unfold walk_fuel. apply Nat.lt_succ_r.
  assert (list_to_set l ⊆ dom (store w)) as Hs.
  { intros a Ha%elem_of_list_to_set. apply elem_of_dom.
    destruct (is_chain_elem _ _ _ _ _ Hc Ha) as [s Hs]. by rewrite Hs. }
  apply subseteq_size in Hs. rewrite size_list_to_set, size_dom in Hs by done. done.
Qed.

(** Two worlds whose sockets at [a] have the same addresses. *)
Definition same_keys (w w' : world) : Prop :=
  (tcp_hash w' = tcp_hash w) /\
  forall a s', store w' !! a = Some s' -> exists s, store w !! a = Some s /\ sock_hash s' = sock_hash s.

(** Unlinking [p] from the middle of a chain. *)
Lemma unlink_after_spec w p q l1 l2 fuel :
  is_chain next w q (q :: l1 ++ p :: l2) -> NoDup (q :: l1 ++ p :: l2) -> (length l1 < fuel)%nat ->
  exists w', unlink_after fuel next set_next p q w = Some (true, w') /\
    is_chain next w' q (q :: l1 ++ l2) /\ same_keys w w' /\
    (forall a, a ∉ q :: l1 -> store w' !! a = store w !! a).
Proof.
  revert q fuel. induction l1 as [|b l1 IH]; intros q fuel Hc Hn Hf;
    (destruct fuel as [|fuel]; [simpl in Hf; lia|]); cbn [unlink_after].
  - destruct Hc as (_ & Hq & s & Hs & Hp). cbn [app] in *. destruct Hp as (Ep & Hp & sp & Hsp & Hc).
    rewrite Hs. cbn [mbind option_bind]. rewrite Ep.
    destruct (Z.eqb_spec p NULL); [done|]. rewrite Z.eqb_refl, Hsp. cbn [mbind option_bind].
    unfold alter_sock. rewrite Hs. cbn [mbind option_bind]. eexists. split; [done|].
    apply NoDup_cons in Hn as [Hn1 Hn2].
    split_and!.
    + split; [done|]. split; [done|]. exists (set_next (next sp) s).
      split; [apply lookup_insert_eq|]. apply is_chain_frame; [done|]. set_solver.
    + split; [done|]. intros a s'. cbn [store set_store].
      destruct (decide (a = q)) as [->|].
      * rewrite lookup_insert_eq. intros [= <-]. exists s. done.
      * rewrite lookup_insert_ne by done. eauto.
    + intros a Ha. change (<[q:=set_next (next sp) s]> (store w) !! a = store w !! a).
      rewrite lookup_insert_ne by set_solver. done.
  - destruct Hc as (_ & Hq & s & Hs & Hb). rewrite Hs. cbn [mbind option_bind].
    pose proof Hb as (Eb & Nb & _). rewrite Eb. destruct (Z.eqb_spec b NULL); [done|].
    apply NoDup_cons in Hn as [Hn1 Hn2].
    destruct (Z.eqb_spec b p) as [->|N].
    { exfalso. apply NoDup_cons in Hn2 as [Hn2 _]. set_solver. }
    rewrite Eb in Hb.
    destruct (IH b fuel Hb Hn2) as (w' & Hw & Hc' & Hk & Hst); [simpl in Hf; lia|].
    exists w'. split_and!; [done| |done|].
    + split; [done|]. split; [done|]. exists s. rewrite Hst, Eb by set_solver. done.
    + intros a Ha. apply Hst. set_solver.
Qed.

(** ** Lemmas: the hash table *)

Definition tupd (T : Z -> list Z) (h : Z) (l : list Z) : Z -> list Z :=
  fun k => if decide (k = h) then l else T k.

Lemma hash_insert_ok w T p s :
  table_ok w T -> store w !! p = Some s -> p <> NULL -> (forall h, p ∉ T h) ->
  exists w', hash_insert p w = Some w' /\ table_ok w' (tupd T (sock_hash s) (p :: T (sock_hash s))) /\
    same_keys (set_hash (sock_hash s) p w) w'.
Proof.
  intros [] Hs Hp Hn. unfold hash_insert, alter_sock. rewrite Hs. cbn [mbind option_bind].
  set (h := sock_hash s). eexists. split; [done|]. split; [constructor|split; [done|]].
  - intros k. cbn [tcp_hash set_hash set_tables set_store]. unfold fupd, tupd.
    destruct (decide (k = h)) as [->|Nk].
    + split; [done|]. split; [done|]. eexists. split; [apply lookup_insert_eq|].
      apply (is_chain_store _ (set_store (<[p:=set_next (tcp_hash w h) s]> (store w)) w)); [done|].
      apply is_chain_frame; [apply to_chain0|apply Hn].
    + apply (is_chain_store _ (set_store (<[p:=set_next (tcp_hash w h) s]> (store w)) w)); [done|].
      apply is_chain_frame; [apply to_chain0|apply Hn].
  - intros k a sa Ha. cbn [store set_hash set_tables set_store]. unfold tupd in Ha.
    destruct (decide (a = p)) as [->|Na].
    + rewrite lookup_insert_eq. intros [= <-]. destruct (decide (k = h)) as [->|]; [done|].
      by apply Hn in Ha.
    + rewrite lookup_insert_ne by done. intros Hsa. apply (to_hash0 k a); [|done].
      destruct (decide (k = h)) as [->|]; [|done]. by apply elem_of_cons in Ha as [?|?].
  - intros k. unfold tupd. destruct (decide (k = h)) as [->|]; [|done].
    apply NoDup_cons. done.
  - intros a sa. cbn [store set_hash set_tables set_store].
    destruct (decide (a = p)) as [->|Na].
    + rewrite lookup_insert_eq. intros [= <-]. by exists s.
    + rewrite lookup_insert_ne by done. eauto.
Qed.

Lemma NoDup_middle {A} (l1 l2 : list A) (p : A) :
  NoDup (l1 ++ p :: l2) -> NoDup (l1 ++ l2) /\ p ∉ l1 /\ p ∉ l2.
Proof.
  intros (H1 & Hd & [Hp H2]%NoDup_cons)%NoDup_app. split_and!.
  - apply NoDup_app. split_and!; [done| |done]. intros a Ha Ha'. specialize (Hd a Ha). set_solver.
  - intros Hin. specialize (Hd p Hin). set_solver.
  - done.
Qed.

(** Unlinking [p] from a chain. *)
Lemma chain_unlink_spec w p s q l1 l2 :
  is_chain next w q (l1 ++ p :: l2) -> NoDup (l1 ++ p :: l2) -> store w !! p = Some s ->
  exists q' w', chain_unlink next set_next p q w = Some (true, q', w') /\
    is_chain next w' q' (l1 ++ l2) /\ same_keys w w' /\ store w' !! p = Some s /\
    (forall a, a ∉ l1 -> store w' !! a = store w !! a).
Proof.
  intros Hc Hn Hs. pose proof (NoDup_middle _ _ _ Hn) as (_ & Hp1 & _). unfold chain_unlink.
  destruct l1 as [|b l1].
  - destruct Hc as (-> & Hp & s' & Hs' & Hc).
    destruct (Z.eqb_spec p NULL); [done|]. rewrite Z.eqb_refl, Hs'. cbn [mbind option_bind].
    eexists _, _. split; [done|]. split_and!; try done. by split; eauto.
  - pose proof Hc as (-> & Hb & _). destruct (Z.eqb_spec b NULL); [done|].
    destruct (Z.eqb_spec b p) as [->|Nb]; [set_solver|].
    pose proof (chain_length _ _ _ _ Hc Hn) as Hl. rewrite length_app in Hl. cbn [length] in Hl.
    destruct (unlink_after_spec w p b l1 l2 (walk_fuel w) Hc Hn) as (w' & Hw & Hc' & Hk & Hst); [lia|].
    rewrite Hw. cbn [mbind option_bind]. eexists _, _. split; [done|]. split_and!; try done.
    by rewrite Hst.
Qed.

(** A chain whose sockets are as before. *)
Lemma is_chain_ext get w w' p l :
  is_chain get w p l -> (forall a, a ∈ l -> store w' !! a = store w !! a) -> is_chain get w' p l.
Proof.
  revert p. induction l as [|a l IH]; intros p; [done|]. intros (-> & Ha & sa & Hsa & Hcl) Hd.
  split; [done|]. split; [done|]. exists sa. rewrite Hd by set_solver.
  split; [done|]. apply IH; [done|]. intros x Hx. apply Hd. set_solver.
Qed.

(** Removing a socket that is on the table. *)
Lemma hash_remove_ok w T p s l1 l2 :
  table_ok w T -> store w !! p = Some s -> T (sock_hash s) = l1 ++ p :: l2 ->
  exists w', hash_remove p w = Some w' /\ table_ok w' (tupd T (sock_hash s) (l1 ++ l2)).
Proof.
  intros Hok Hs HT. pose proof Hok as []. set (h := sock_hash s) in *.
  pose proof (to_chain0 h) as Hc. pose proof (to_nodup0 h) as Hn. rewrite HT in Hc, Hn.
  assert (forall k, k <> h -> p ∉ T k) as Hother.
  { intros k Nk Hk. apply Nk. symmetry. by apply (to_hash0 k p s). }
  destruct (chain_unlink_spec w p s _ l1 l2 Hc Hn Hs) as (q & w1 & Hu & Hc1 & [Hh Hk] & Hp1 & Hst).
  pose proof (NoDup_middle _ _ _ Hn) as (Hn' & Hp2 & Hp3).
  unfold hash_remove. rewrite Hs. cbn [mbind option_bind]. fold h. rewrite Hu. cbn [mbind option_bind].
  unfold alter_sock. change (store (set_hash h q w1)) with (store w1). rewrite Hp1.
  cbn [mbind option_bind]. eexists. split; [done|]. constructor.
  - intros k. cbn [tcp_hash set_hash set_tables set_store]. unfold fupd, tupd.
    apply (is_chain_store _ (set_store (<[p:=set_next NULL s]> (store w1)) w1)); [done|].
    destruct (decide (k = h)) as [->|Nk]; [apply is_chain_frame; set_solver|].
    apply is_chain_frame; [|by apply Hother]. rewrite Hh.
    apply (is_chain_ext _ w); [done|]. intros a Ha. apply Hst. intros Hl. apply Nk.
    assert (a ∈ T h) as Ha' by (rewrite HT; set_solver).
    destruct (is_chain_elem _ _ _ _ _ (to_chain0 k) Ha) as [sa Hsa].
    rewrite <-(to_hash0 k a sa Ha Hsa). by apply (to_hash0 h a).
  - intros k a sa Ha. cbn [store set_hash set_tables set_store].
    assert (a ∈ T k) as Ha'.
    { unfold tupd in Ha. destruct (decide (k = h)) as [->|]; [|done]. rewrite HT. set_solver. }
    destruct (decide (a = p)) as [->|Na].
    + rewrite lookup_insert_eq. intros [= <-]. by apply (to_hash0 k p s).
    + rewrite lookup_insert_ne by done. intros Hsa. destruct (Hk a sa Hsa) as (s0 & Hs0 & ->).
      by apply (to_hash0 k a).
  - intros k. unfold tupd. by destruct (decide (k = h)) as [->|].
Qed.

Lemma find_socket_spec w T lp rp lip rip :
  table_ok w T ->
  exists a, find_socket lp rp lip rip w = Some a /\
    (a <> NULL -> exists s, store w !! a = Some s /\ a ∈ T (sock_hash s) /\
                            address_match lp rp lip rip s = true) /\
    (a = NULL -> forall b s, b ∈ T (sock_hash s) -> store w !! b = Some s ->
                             address_match lp rp lip rip s = false).
Proof.
  intros Hok. pose proof Hok as []. set (h := hash_func lp rp lip rip).
  pose proof (chain_find_spec next (address_match lp rp lip rip) w _ (T h) (walk_fuel w)
    (to_chain0 h) (chain_length _ _ _ _ (to_chain0 h) (to_nodup0 h))) as Hf.
  eexists. split; [exact Hf|]. destruct (List.find _ (T h)) as [a|] eqn:E; cbn [default]; unfold id.
  - apply List.find_some in E as [Hin Hm]. apply list_elem_of_In in Hin.
    destruct (is_chain_elem _ _ _ _ _ (to_chain0 h) Hin) as [s Hs]. rewrite Hs in Hm. simpl in Hm.
    split.
    + intros _. exists s. split; [done|]. split; [|done]. by rewrite (to_hash0 h a s).
    + intros ->. exfalso. pose proof (to_chain0 h) as Hc. clear -Hc Hin.
      revert Hc. generalize (tcp_hash w h). induction (T h) as [|b l IH]; intros q Hc; [set_solver|].
      destruct Hc as (_ & Hb & s & _ & Hc). apply elem_of_cons in Hin as [<-|Hin]; [done|]. by eapply IH.
  - split; [done|]. intros _ b s Hb Hs. destruct (address_match lp rp lip rip s) eqn:Em; [|done].
    assert (sock_hash s = h) as Eh.
    { unfold address_match in Em. rewrite !andb_true_iff in Em. destruct Em as [ [ [E1 E2] E3] E4].
      zbool. unfold sock_hash, h. congruence. }
    rewrite Eh in Hb. apply list_elem_of_In in Hb.
    apply (List.find_none _ _ E) in Hb. rewrite Hs in Hb. simpl in Hb. congruence.
Qed.

(** ** Demonstration worlds *)

(** A world whose allocator hands out distinct addresses. *)
Definition fresh_world : world :=
  set_heap (fun n => 4096 * (Z.of_nat n + 1)) (calm_world 5).

(** A listening socket and two peers that have sent a SYN. *)
Definition demo_syn (port : Z) : tcp_header := mk_hdr port 80 1000 0 0 4096 0 0.

Definition two_pending : option (Z * world) :=
  '(l, w) ← tcp_listen 80 fresh_world;
  w ← spawn_child 1 167772161 167772170 l (demo_syn 5001) [] w;
  w ← spawn_child 1 167772161 167772171 l (demo_syn 5002) [] w;
  Some (l, w).

(** The accept queue and the hash chain use the same link: registering a child overwrites
    its place on the accept queue.  Of two connections that wait to be accepted, only the
    last one can be; the counter says that one is left. *)
Lemma accept_queue_loses :
  ('(l, w) ← two_pending;
   '(c1, w) ← tcp_accept_nonblock l w;
   '(c2, w) ← tcp_accept_nonblock l w;
   b ← field backlog_cur l w;
   Some (bool_decide (c1 <> NULL), c2, b)) = Some (true, NULL, 1).
Proof. vm_compute. reflexivity. Qed.

(** Closing a listening socket frees it while its lock is held; the lock is released in
    freed memory. *)
Lemma close_listener_faults :
  ('(l, w) ← tcp_listen 80 fresh_world; '(r, _) ← tcp_close l w; Some r) = None.
Proof. vm_compute. reflexivity. Qed.

(** A table with one connection. *)
Definition demo_conn : tcp_socket :=
  set_local_port 80 (set_remote_port 5001 (set_local_ip 167772161 (set_remote_ip 167772170 zero_socket))).

Definition demo_table : world :=
  set_hash (sock_hash demo_conn) 100 (set_store {[100 := demo_conn]} fresh_world).

Definition demo_sets : Z -> list Z := tupd (fun _ => []) (sock_hash demo_conn) [100].

Lemma demo_table_ok : table_ok demo_table demo_sets.
Proof.
  constructor; unfold demo_sets, tupd.
  - intros h. change (tcp_hash demo_table h) with (fupd (fun _ => 0) (sock_hash demo_conn) 100 h).
    unfold fupd. destruct (decide (h = sock_hash demo_conn)); [|done].
    split; [done|]. split; [done|]. exists demo_conn. by split.
  - intros h a s Ha Hs. destruct (decide (h = sock_hash demo_conn)) as [->|]; [|set_solver].
    apply list_elem_of_singleton in Ha as ->. by injection Hs as <-.
  - intros h. case_decide; [apply NoDup_singleton|apply NoDup_nil_2].
Qed.

(** ** Theorems *)

(** [alloc_ephemeral] returns a free port of 49152 .. 65535 whenever there is one, and
    0 only when all of them are taken, from any position of the cursor; it changes no
    table, and the cursor stays in the range. *)
Theorem alloc_ephemeral_spec w :
  49152 <= next_ephemeral_port w <= 65535 ->
  let '(p, w') := alloc_ephemeral w in
  sockets w' = sockets w /\ 49152 <= next_ephemeral_port w' <= 65535 /\
  ((p = 0 /\ forall port, 49152 <= port <= 65535 -> sockets w port <> NULL) \/
   (49152 <= p <= 65535 /\ sockets w p = NULL)).
Proof.
  intros Hp. pose proof (ephemeral_loop_spec (Z.to_nat 65536) (next_ephemeral_port w) 0 w Hp) as H.
  unfold alloc_ephemeral. destruct (ephemeral_loop _ w) as [p w'].
  destruct H as (H1 & H2 & H3); [lia|rewrite Z.add_0_r, Z.mod_small; lia|].
  split; [done|]. split; [done|]. destruct H3 as [ [-> H3] |H3]; [left|by right].
  split; [done|]. intros port Hport.
  specialize (H3 ((port - next_ephemeral_port w) mod 16384)).
  replace (49152 + _) with port in H3 by dlia. apply H3. dlia.
Qed.

Lemma alloc_ephemeral_spec_witness :
  let '(p, w') := alloc_ephemeral fresh_world in
  sockets w' = sockets fresh_world /\ 49152 <= next_ephemeral_port w' <= 65535 /\
  ((p = 0 /\ forall port, 49152 <= port <= 65535 -> sockets fresh_world port <> NULL) \/
   (49152 <= p <= 65535 /\ sockets fresh_world p = NULL)).
Proof. apply (alloc_ephemeral_spec fresh_world). by vm_compute. Defined.

(** The hash table is the set of registered connections: [find_socket] ends, and
    returns a registered socket with exactly the four addresses asked for, or [NULL] when
    no registered socket has them; [hash_insert] adds a socket to the set and
    [hash_remove] takes it out, whatever other sockets share its bucket. *)
Theorem tcp_hash_refines w T :
  table_ok w T ->
  (forall lp rp lip rip, exists a, find_socket lp rp lip rip w = Some a /\
     (a <> NULL -> exists s, store w !! a = Some s /\ a ∈ T (sock_hash s) /\
                             address_match lp rp lip rip s = true) /\
     (a = NULL -> forall b s, b ∈ T (sock_hash s) -> store w !! b = Some s ->
                              address_match lp rp lip rip s = false)) /\
  (forall p s, store w !! p = Some s -> p <> NULL -> (forall h, p ∉ T h) ->
     exists w', hash_insert p w = Some w' /\
       table_ok w' (tupd T (sock_hash s) (p :: T (sock_hash s)))) /\
  (forall p s l1 l2, store w !! p = Some s -> T (sock_hash s) = l1 ++ p :: l2 ->
     exists w', hash_remove p w = Some w' /\ table_ok w' (tupd T (sock_hash s) (l1 ++ l2))).
Proof.
  intros Hok. split_and!.
  - intros. by apply find_socket_spec.
  - intros p s Hs Hp Hn. destruct (hash_insert_ok w T p s Hok Hs Hp Hn) as (w' & H1 & H2 & _). eauto.
  - intros p s l1 l2 Hs HT. by apply (hash_remove_ok w T p s).
Qed.

Lemma tcp_hash_refines_witness :
  (exists a, find_socket 80 5001 167772161 167772170 demo_table = Some a /\ a <> NULL) /\
  exists w', hash_remove 100 demo_table = Some w' /\
    table_ok w' (tupd demo_sets (sock_hash demo_conn) ([] ++ [])).
Proof.
  destruct (tcp_hash_refines demo_table demo_sets demo_table_ok) as (Hf & _ & Hr). split.
  - destruct (Hf 80 5001 167772161 167772170) as (a & Ha & _ & Hn). exists a. split; [exact Ha|].
    intros ->. specialize (Hn eq_refl 100 demo_conn). discriminate Hn; [|reflexivity].
    vm_compute. constructor.
  - apply (Hr 100 demo_conn [] []); reflexivity.
Defined.

End TcpTable.
