(* ===== verification/FaultM.v ===== *)
(** * Operations that can fault

    A state monad with failure for the kernel code that works through pointers and array
    indices: an operation ends with a result and a new state, or in a fault (an access
    outside an array, an address that holds no object, a lock taken twice, a list without
    an end).  [wp m Q s] is total correctness: [m] started in [s] does not fault and its
    result and final state satisfy [Q].  Sched.v uses the monad. *)

From S2P Require Import Prelude.

Definition FM (St A : Type) : Type := St -> option (A * St).

#[export] Instance FM_ret {St} : MRet (FM St) := fun A x s => Some (x, s).
#[export] Instance FM_bind {St} : MBind (FM St) := fun A B k m s =>
  match m s with
  | Some (x, s') => k x s'
  | None => None
  end.

Section ops.
Context {St : Type}.

Definition fault {A} : FM St A := fun _ => None.
Definition gets {A} (f : St -> A) : FM St A := fun s => Some (f s, s).
Definition modify (f : St -> St) : FM St unit := fun s => Some (tt, f s).
Definition when (b : bool) (m : FM St unit) : FM St unit := if b then m else mret tt.
Definition of_option {A} (o : option A) : FM St A :=
  match o with Some x => mret x | None => fault end.

(** [for (x : xs) body(x)] *)
Fixpoint for_each {X} (xs : list X) (body : X -> FM St unit) : FM St unit :=
  match xs with
  | [] => mret tt
  | x :: xs => body x ;; for_each xs body
  end.

(** The first of the attempts [f x] that does not return [NULL]; [NULL] when all do. *)
Fixpoint first_nonnull {X} (xs : list X) (f : X -> FM St Z) : FM St Z :=
  match xs with
  | [] => mret NULL
  | x :: xs => p ← f x; if p =? NULL then first_nonnull xs f else mret p
  end.

Definition wp {A} (m : FM St A) (Q : A -> St -> Prop) (s : St) : Prop :=
  match m s with
  | Some (x, s') => Q x s'
  | None => False
  end.

Lemma wp_ret {A} (x : A) Q s : Q x s -> wp (mret x) Q s.
Proof. done. Qed.

Lemma wp_bind {A B} (m : FM St A) (k : A -> FM St B) Q s :
  wp m (fun x => wp (k x) Q) s -> wp (m ≫= k) Q s.
Proof. unfold wp, mbind, FM_bind. by destruct (m s) as [ [x s'] |]. Qed.

Lemma wp_mono {A} (m : FM St A) (Q Q' : A -> St -> Prop) s :
  wp m Q s -> (forall x s', m s = Some (x, s') -> Q x s' -> Q' x s') -> wp m Q' s.
Proof. unfold wp. destruct (m s) as [ [x s'] |]; [|done]. eauto. Qed.

(** A step whose effect is known by a lemma, and the rest of the code. *)
Lemma wp_seq {A B} (m : FM St A) (k : A -> FM St B) (P : A -> St -> Prop) Q s :
  wp m P s -> (forall x s', P x s' -> wp (k x) Q s') -> wp (m ≫= k) Q s.
Proof. intros Hm Hk. apply wp_bind. eapply wp_mono; [exact Hm|]. eauto. Qed.

(** The first two or three steps of a sequence taken together. *)
Lemma wp_assoc2 {A B C} (m1 : FM St A) (m2 : FM St B) (k : FM St C) Q s :
  wp ((m1 ;; m2) ;; k) Q s -> wp (m1 ;; m2 ;; k) Q s.
Proof. unfold wp, mbind, FM_bind. by destruct (m1 s) as [ [x s'] |]. Qed.

Lemma wp_assoc3 {A B C D} (m1 : FM St A) (m2 : FM St B) (m3 : FM St C) (k : FM St D) Q s :
  wp ((m1 ;; m2 ;; m3) ;; k) Q s -> wp (m1 ;; m2 ;; m3 ;; k) Q s.
Proof.
  unfold wp, mbind, FM_bind. destruct (m1 s) as [ [x s'] |]; [|done].
  by destruct (m2 s') as [ [y s''] |].
Qed.

Lemma wp_gets {A} (f : St -> A) Q s : Q (f s) s -> wp (gets f) Q s.
Proof. done. Qed.

Lemma wp_modify f Q s : Q tt (f s) -> wp (modify f) Q s.
Proof. done. Qed.

Lemma wp_of_option {A} (o : option A) x Q s : o = Some x -> Q x s -> wp (of_option o) Q s.
Proof. by intros ->. Qed.

Lemma wp_when (b : bool) (m : FM St unit) Q s :
  (b = true -> wp m Q s) -> (b = false -> Q tt s) -> wp (when b m) Q s.
Proof. intros Ht Hf. destruct b; [by apply Ht|by apply Hf]. Qed.

Lemma wp_run {A} (m : FM St A) Q s : wp m Q s -> exists x s', m s = Some (x, s') /\ Q x s'.
Proof. unfold wp. destruct (m s) as [ [x s'] |]; [|done]. eauto. Qed.

Lemma wp_intro {A} (m : FM St A) (Q : A -> St -> Prop) s x s' :
  m s = Some (x, s') -> Q x s' -> wp m Q s.
Proof. unfold wp. by intros ->. Qed.

Lemma first_nonnull_app {X} (xs ys : list X) (f : X -> FM St Z) s :
  first_nonnull (xs ++ ys) f s =
    (p ← first_nonnull xs f; if p =? NULL then first_nonnull ys f else mret p) s.
Proof.
  unfold mbind, FM_bind. revert s. induction xs as [|x xs IH]; intros s; [done|].
  simpl. unfold mbind, FM_bind. destruct (f x s) as [ [p s'] |]; [|done].
  destruct (Z.eqb_spec p NULL) as [|Hp]; [apply IH|]. simpl.
  by rewrite (proj2 (Z.eqb_neq p NULL) Hp).
Qed.

(** A loop keeps an invariant of the items done and the state. *)
Lemma wp_for_each {X} (Inv : list X -> St -> Prop) (xs : list X) (body : X -> FM St unit) s :
  (forall done x rest s, xs = done ++ x :: rest -> Inv done s ->
     wp (body x) (fun _ => Inv (done ++ [x])) s) ->
  Inv [] s -> wp (for_each xs body) (fun _ => Inv xs) s.
Proof.
  intros Hb H0.
  assert (forall rest pre s, xs = pre ++ rest -> Inv pre s ->
    wp (for_each rest body) (fun _ => Inv xs) s) as H; [|by apply (H xs [])].
  induction rest as [|x rest IH]; intros pre s' Hxs Hi.
  - rewrite app_nil_r in Hxs. subst. by apply wp_ret.
  - simpl. apply (wp_seq _ _ (fun _ => Inv (pre ++ [x]))); [by eapply Hb|].
    intros _ s'' Hi'. apply (IH (pre ++ [x])); [|done]. by rewrite <-app_assoc.
Qed.
End ops.

#[global] Arguments fault : simpl never.

(** One step of the symbolic execution of a goal [wp m Q s]. *)
Ltac wp_step :=
  lazymatch goal with
  | |- wp (mbind _ _) _ _ => apply wp_bind
  | |- wp (mret _) _ _ => apply wp_ret
  | |- wp (gets _) _ _ => apply wp_gets
  | |- wp (modify _) _ _ => apply wp_modify
  end; cbv beta.
Ltac wp_run := repeat wp_step.
