(* ===== verification/Dll.v ===== *)
(** * Doubly linked lists

    The chains that src/kernel/sched.c threads through its objects (ready queues and the
    process list through [pcb_t], the deadline queue through its nodes): [links] gives
    the [prev] and [next] pointers of the object at an address, and [dseg links p l n]
    says that the objects of [l] form a chain between [p] and [n].  Appending, pushing
    and unlinking change a few pointers; the lemmas say which list results. *)

From S2P Require Import Prelude.

Section dll.
Context {A : Type} `{EqDecision A} (nul : A).
Implicit Types (links : A -> option (A * A)) (l k : list A) (a b p n : A).

(** The first and the last element, or the pointer given when the list is empty. *)
Definition first_of (n : A) (l : list A) : A := default n (head l).
Definition last_of (p : A) (l : list A) : A := default p (last l).

Fixpoint dseg (links : A -> option (A * A)) (p : A) (l : list A) (n : A) : Prop :=
  match l with
  | [] => True
  | a :: l => links a = Some (p, first_of n l) /\ dseg links a l n
  end.

(** A whole list. *)
Definition dll links l : Prop := dseg links nul l nul.

Lemma last_of_cons p a l : last_of p (a :: l) = last_of a l.
Proof. unfold last_of. rewrite last_cons. by destruct (last l). Qed.

Lemma last_of_snoc p l a : last_of p (l ++ [a]) = a.
Proof. unfold last_of. by rewrite last_snoc. Qed.

Lemma first_of_app n l k : first_of n (l ++ k) = first_of (first_of n k) l.
Proof. by destruct l. Qed.

Lemma last_of_app p l k : last_of p (l ++ k) = last_of (last_of p l) k.
Proof. revert p. induction l as [|a l IH]; intros p; [done|]. simpl. by rewrite !last_of_cons. Qed.

Lemma first_of_elem n l : l <> [] -> first_of n l ∈ l.
Proof. destruct l; [done|]. intros _. left. Qed.

Lemma last_of_elem p l : l <> [] -> last_of p l ∈ l.
Proof. destruct l as [|a l _] using rev_ind; [done|]. rewrite last_of_snoc. set_solver. Qed.

Lemma dseg_app links p l k n :
  dseg links p (l ++ k) n <-> dseg links p l (first_of n k) /\ dseg links (last_of p l) k n.
Proof.
  revert p. induction l as [|a l IH]; intros p; simpl; [naive_solver|].
  rewrite IH, last_of_cons, first_of_app. naive_solver.
Qed.

Lemma dseg_ext links links' p l n :
  (forall a, a ∈ l -> links' a = links a) -> dseg links p l n -> dseg links' p l n.
Proof.
  revert p. induction l as [|a l IH]; intros p He; simpl; [done|]. intros [Ha Hl].
  rewrite He by left. split; [done|]. apply IH; [|done]. intros b Hb. apply He. by right.
Qed.

Lemma dseg_links links p l n a : dseg links p l n -> a ∈ l -> is_Some (links a).
Proof.
  revert p. induction l as [|b l IH]; intros p; [set_solver|]. simpl.
  intros [Hb Hl] [->|Ha]%elem_of_cons; eauto.
Qed.

(** The pointers of one element. *)
Lemma dseg_middle links p l a k n :
  dseg links p (l ++ a :: k) n -> links a = Some (last_of p l, first_of n k).
Proof. intros [_ Ha]%dseg_app. by destruct Ha. Qed.

(** Changing what precedes or follows a segment. *)
Lemma dseg_prev links links' p p' l n :
  NoDup l ->
  (forall a, a ∈ l -> links' a = (fun '(x, y) => (if decide (Some a = head l) then p' else x, y)) <$> links a) ->
  dseg links p l n -> dseg links' p' l n.
Proof.
  destruct l as [|a l]; [done|]. intros [Ha _]%NoDup_cons He [Hl Hs]. simpl. split.
  - rewrite He by left. rewrite Hl. simpl. by rewrite decide_True.
  - eapply dseg_ext; [|exact Hs]. intros b Hb. rewrite He by (by right).
    destruct (links b) as [ [x y] |]; [|done]. simpl. rewrite decide_False; [done|].
    intros [= ->]. done.
Qed.

Lemma dseg_next links links' p l n n' :
  NoDup l ->
  (forall a, a ∈ l -> links' a = (fun '(x, y) => (x, if decide (Some a = last l) then n' else y)) <$> links a) ->
  dseg links p l n -> dseg links' p l n'.
Proof.
  destruct l as [|a l _] using rev_ind; [done|]. intros Hnd He [Hl Hs]%dseg_app.
  apply NoDup_app in Hnd as (_ & Hd & _). apply dseg_app. split.
  - eapply dseg_ext; [|exact Hl]. intros b Hb. rewrite He by set_solver.
    destruct (links b) as [ [x y] |]; [|done]. simpl. rewrite decide_False; [done|].
    rewrite last_snoc. intros [= ->]. apply (Hd a Hb). set_solver.
  - destruct Hs as [Hs _]. simpl. split; [|done]. rewrite He by set_solver. rewrite Hs. simpl.
    by rewrite decide_True by (by rewrite last_snoc).
Qed.

(** [a] linked in behind the last element. *)
Lemma dll_snoc links links' l a :
  NoDup l -> a ∉ l ->
  links' a = Some (last_of nul l, nul) ->
  (forall b, b ∈ l -> links' b = (fun '(x, y) => (x, if decide (Some b = last l) then a else y)) <$> links b) ->
  dll links l -> dll links' (l ++ [a]).
Proof.
  intros Hnd Ha Hla He Hl. apply dseg_app. split; [|simpl; done].
  eapply dseg_next; [done|exact He|exact Hl].
Qed.

(** [a] linked in before the first element. *)
Lemma dll_push links links' l a :
  NoDup l -> a ∉ l ->
  links' a = Some (nul, first_of nul l) ->
  (forall b, b ∈ l -> links' b = (fun '(x, y) => (if decide (Some b = head l) then a else x, y)) <$> links b) ->
  dll links l -> dll links' (a :: l).
Proof.
  intros Hnd Ha Hla He Hl. simpl. split; [done|].
  eapply dseg_prev; [done|exact He|exact Hl].
Qed.

(** [a] unlinked: its neighbours point to each other. *)
Lemma dll_unlink links links' l a k :
  NoDup (l ++ a :: k) ->
  (forall b, b ∈ l -> links' b = (fun '(x, y) => (x, if decide (Some b = last l) then first_of nul k else y)) <$> links b) ->
  (forall b, b ∈ k -> links' b = (fun '(x, y) => (if decide (Some b = head k) then last_of nul l else x, y)) <$> links b) ->
  dll links (l ++ a :: k) -> dll links' (l ++ k).
Proof.
  intros (Hl & Hd & [_ Hk]%NoDup_cons)%NoDup_app Hel Hek [Hsl Hsa]%dseg_app. apply dseg_app. split.
  - eapply dseg_next; [done|exact Hel|exact Hsl].
  - destruct Hsa as [_ Hsk]. eapply dseg_prev; [done|exact Hek|exact Hsk].
Qed.

(** Two chains with the same first element and the same pointers are the same list. *)
Lemma dll_unique links l k :
  nul ∉ l -> nul ∉ k -> dll links l -> dll links k ->
  first_of nul l = first_of nul k -> l = k.
Proof.
  unfold dll. generalize nul at 3 5 as p. intros p. revert p k.
  induction l as [|a l IH]; intros p [|b k] Hl Hk Hsl Hsk He; simpl in *; [done|set_solver..|].
  unfold first_of in He. simpl in He. subst b. destruct Hsl as [H1 Hsl], Hsk as [H2 Hsk].
  rewrite H1 in H2. injection H2 as He. f_equal. apply (IH a); [set_solver..|done|done|done].
Qed.
End dll.

#[global] Arguments first_of : simpl never.
#[global] Arguments last_of : simpl never.

(** ** Chains in finite maps

    The pointers of all objects as a map; the null pointer has no object, so a write
    through it changes nothing. *)

Lemma lookup_alter_if {B} (f : B -> B) (m : gmap Z B) (i j : Z) :
  alter f i m !! j = (if decide (j = i) then f else id) <$> m !! j.
Proof.
  case_decide as E; [subst; apply lookup_alter_eq|]. rewrite lookup_alter_ne by done.
  by destruct (m !! j).
Qed.

Lemma alter_absent {B} (f : B -> B) (m : gmap Z B) (i : Z) : m !! i = None -> alter f i m = m.
Proof.
  intros Hi. apply map_eq. intros j. rewrite lookup_alter_if. case_decide as E; [subst; by rewrite Hi|].
  by destruct (m !! j).
Qed.

Lemma fmap_alter_same {B C} (v : B -> C) (f : B -> B) (i : Z) (m : gmap Z B) :
  (forall x, v (f x) = v x) -> v <$> alter f i m = v <$> m.
Proof.
  intros Hf. apply map_eq. intros j. rewrite !lookup_fmap, lookup_alter_if.
  destruct (m !! j); [|done]. simpl. case_decide; simpl; by rewrite ?Hf.
Qed.

Lemma fmap_alter_view {B C} (v : B -> C) (f : B -> B) (g : C -> C) (i : Z) (m : gmap Z B) :
  (forall x, v (f x) = g (v x)) -> v <$> alter f i m = alter g i (v <$> m).
Proof.
  intros Hf. apply map_eq. intros j. rewrite lookup_alter_if, !lookup_fmap, lookup_alter_if.
  destruct (m !! j); [|done]. simpl. case_decide; simpl; by rewrite ?Hf.
Qed.

Section link_maps.
Implicit Types (lk : gmap Z (Z * Z)) (l k : list Z).

Definition with_prev (p : Z) (x : Z * Z) : Z * Z := (p, x.2).
Definition with_next (n : Z) (x : Z * Z) : Z * Z := (x.1, n).

Lemma head_iff (b : Z) l : b ∈ l -> (b = first_of NULL l <-> Some b = head l).
Proof. destruct l as [|c l]; [set_solver|]. intros _. unfold first_of. simpl. naive_solver. Qed.
Lemma last_iff (b : Z) l : b ∈ l -> (b = last_of NULL l <-> Some b = last l).
Proof.
  destruct l as [|c l _] using rev_ind; [set_solver|]. intros _.
  rewrite last_snoc, last_of_snoc. naive_solver.
Qed.

(** The first or last element of a list without [b] is not [b]. *)
Lemma first_of_other (b : Z) l : b <> NULL -> b ∉ l -> b <> first_of NULL l.
Proof. intros Hb Hl ->. destruct l; [done|]. by apply Hl, first_of_elem. Qed.
Lemma last_of_other (b : Z) l : b <> NULL -> b ∉ l -> b <> last_of NULL l.
Proof. intros Hb Hl ->. destruct l; [done|]. by apply Hl, last_of_elem. Qed.

Lemma chain_nonnull lk l : lk !! NULL = None -> dll NULL (lk !!.) l -> NULL ∉ l.
Proof. intros Hn Hd Hin. destruct (dseg_links _ _ _ _ _ Hd Hin) as [x Hx]. by rewrite Hn in Hx. Qed.

Lemma map_unlink lk l a k :
  lk !! NULL = None -> NoDup (l ++ a :: k) -> dll NULL (lk !!.) (l ++ a :: k) ->
  dll NULL (alter (with_prev (last_of NULL l)) (first_of NULL k)
              (alter (with_next (first_of NULL k)) (last_of NULL l) lk) !!.) (l ++ k).
Proof.
  intros Hn Hnd Hd. pose proof (chain_nonnull lk _ Hn Hd) as Hnn.
  assert (forall b, b ∈ l ++ a :: k -> b <> NULL) as Hne by (intros b Hb ->; done).
  pose proof Hnd as (_ & Hdis & [Hak _]%NoDup_cons)%NoDup_app.
  eapply dll_unlink; [exact Hnd| | |exact Hd]; intros b Hb; rewrite !lookup_alter_if.
  - rewrite (decide_False (P := b = first_of NULL k)) by (apply first_of_other; [apply Hne|]; set_solver).
    destruct (lk !! b) as [ [x y] |]; [|done]. simpl. pose proof (last_iff b l Hb).
    unfold with_next, id. repeat case_decide; (done || naive_solver).
  - rewrite (decide_False (P := b = last_of NULL l)) by (apply last_of_other; [apply Hne|]; set_solver).
    destruct (lk !! b) as [ [x y] |]; [|done]. simpl. pose proof (head_iff b k Hb).
    unfold with_prev, id. repeat case_decide; (done || naive_solver).
Qed.

Lemma map_push lk l a :
  lk !! NULL = None -> NoDup l -> a ∉ l -> is_Some (lk !! a) -> dll NULL (lk !!.) l ->
  dll NULL (alter (with_prev a) (first_of NULL l) (alter (fun _ => (NULL, first_of NULL l)) a lk) !!.) (a :: l).
Proof.
  intros Hn Hnd Ha [x Hx] Hd. pose proof (chain_nonnull lk _ Hn Hd) as Hnn.
  assert (a <> NULL) as Han by (intros ->; by rewrite Hn in Hx).
  eapply dll_push; [exact Hnd|exact Ha| | |exact Hd].
  - rewrite !lookup_alter_if, (decide_False (P := a = first_of NULL l)) by (by apply first_of_other).
    rewrite decide_True by done. by rewrite Hx.
  - intros b Hb. rewrite !lookup_alter_if, (decide_False (P := b = a)) by set_solver.
    destruct (lk !! b) as [ [y z] |]; [|done]. simpl. pose proof (head_iff b l Hb).
    unfold with_prev, id. repeat case_decide; (done || naive_solver).
Qed.

(** A write outside the chain. *)
Lemma map_frame lk lk' l : (forall b, b ∈ l -> lk' !! b = lk !! b) -> dll NULL (lk !!.) l -> dll NULL (lk' !!.) l.
Proof. intros He. by apply dseg_ext. Qed.
End link_maps.
