(* ===== verification/Sched.v ===== *)
(** * The scheduler (src/kernel/sched.c, src/kernel/sched.h)

    [Module Sched]: process control blocks with the fields of [pcb_t] that the scheduler
    uses, its queues and tables, and its operations as a state monad with faults
    (FaultM.v).  SchedQueue.v proves that the queues are lists, SchedInv.v the invariant of
    the operations, SchedFair.v that no process starves, SchedCfs.v the fair
    queue, SchedExt.v has the tables beside the queues.

    A control block is named by its address; [procs] is the memory that holds them, and
    access to an address without one is a fault, as is an index outside an array, taking
    [sched.lock] when it is held and a list that does not end.  Pointers to the nodes of
    the fair and of the deadline queue are indices into their arrays, [NIL] the null
    pointer.  [hw] records what [schedule] does to the processor, oldest first: the
    assembly routines and the FPU are outside the model.  [kernel_esp] is read and
    written by [context_switch] only and has no field. *)

From S2P Require Import Prelude FaultM Sync.

Module Sched.
Export Sync.

Definition SCHED_QUEUE_COUNT : Z := 8.
Definition SCHED_RT_QUEUE_COUNT : Z := 2.
Definition SCHED_PRIORITY_MAX : Z := 100.
Definition SCHED_DEFAULT_PRIORITY : Z := 50.

Definition PROCESS_REAL_TIME : Z := 1.
Definition PROCESS_NORMAL : Z := 2.
Definition PROCESS_IDLE : Z := 4.
Definition PROCESS_CFS : Z := 8.
Definition PROCESS_DEADLINE : Z := 16.
Definition PROCESS_BATCH : Z := 32.
Definition PROCESS_IDLE_PRIO : Z := 64.

Definition BLOCK_REASON_NONE : Z := 0.
Definition BLOCK_REASON_SLEEP : Z := 2.

Definition SCHED_AIO_TICK_DIV : Z := 8.
Definition SCHED_BOOST_INTERVAL : Z := 500.
Definition CFS_MAX_PROCS : Z := 256.
Definition sched_min_granularity : Z := 10.
Definition sched_latency : Z := 20.
Definition sched_wakeup_granularity : Z := 4.
Definition SCHED_DL_MAX_PROCS : Z := 64.
Definition MAX_PROCESSES : Z := 256.
Definition SCHED_LOAD_WINDOW : Z := 100.
Definition MAX_PROCESS_GROUPS : Z := 16.
Definition BATCH_MAX_JOBS : Z := 32.

(** ** Data *)

Inductive proc_state :=
  | PROCESS_UNUSED | PROCESS_READY | PROCESS_RUNNING | PROCESS_BLOCKED | PROCESS_ZOMBIE.

#[export] Instance proc_state_eq_dec : EqDecision proc_state.
Proof. solve_decision. Defined.

Definition PROCESS_USER : Z := 1.

Record pcb := mk_pcb {
  pid : Z; ptype : Z; state : proc_state; page_dir : Z; kernel_stack : Z; next : Z; prev : Z;
  queue_next : Z; queue_prev : Z; time_slice : Z; priority : Z; original_priority : Z;
  effective_priority : Z; sched_policy : Z; queue_level : Z; ticks_used : Z; cpu_time : Z;
  last_run_time : Z; wake_time : Z; blocked_reason : Z; vruntime : Z; pgid : Z;
  need_resched : Z; exec_start : Z;
}.

(** A control block whose memory is zero ([kcalloc]). *)
Definition zero_pcb : pcb :=
  mk_pcb 0 0 PROCESS_UNUSED 0 0 0 0 0 0 0 0 0 0 0 0 0 0 0 0 0 0 0 0 0.

Definition eta_pcb (p : pcb) : pcb :=
  mk_pcb
    (pid p) (ptype p) (state p) (page_dir p) (kernel_stack p) (next p) (prev p)
    (queue_next p) (queue_prev p) (time_slice p) (priority p) (original_priority p)
    (effective_priority p) (sched_policy p) (queue_level p) (ticks_used p) (cpu_time p)
    (last_run_time p) (wake_time p) (blocked_reason p) (vruntime p) (pgid p) (need_resched p)
    (exec_start p).

Definition set_pid (v : Z) (p : pcb) : pcb := ltac:(set_field eta_pcb p pid v).
Definition set_state (v : proc_state) (p : pcb) : pcb := ltac:(set_field eta_pcb p state v).
Definition set_next (v : Z) (p : pcb) : pcb := ltac:(set_field eta_pcb p next v).
Definition set_prev (v : Z) (p : pcb) : pcb := ltac:(set_field eta_pcb p prev v).
Definition set_queue_next (v : Z) (p : pcb) : pcb := ltac:(set_field eta_pcb p queue_next v).
Definition set_queue_prev (v : Z) (p : pcb) : pcb := ltac:(set_field eta_pcb p queue_prev v).
Definition set_time_slice (v : Z) (p : pcb) : pcb := ltac:(set_field eta_pcb p time_slice v).
Definition set_priority (v : Z) (p : pcb) : pcb := ltac:(set_field eta_pcb p priority v).
Definition set_original_priority (v : Z) (p : pcb) : pcb := ltac:(set_field eta_pcb p original_priority v).
Definition set_effective_priority (v : Z) (p : pcb) : pcb := ltac:(set_field eta_pcb p effective_priority v).
Definition set_sched_policy (v : Z) (p : pcb) : pcb := ltac:(set_field eta_pcb p sched_policy v).
Definition set_queue_level (v : Z) (p : pcb) : pcb := ltac:(set_field eta_pcb p queue_level v).
Definition set_ticks_used (v : Z) (p : pcb) : pcb := ltac:(set_field eta_pcb p ticks_used v).
Definition set_cpu_time (v : Z) (p : pcb) : pcb := ltac:(set_field eta_pcb p cpu_time v).
Definition set_last_run_time (v : Z) (p : pcb) : pcb := ltac:(set_field eta_pcb p last_run_time v).
Definition set_wake_time (v : Z) (p : pcb) : pcb := ltac:(set_field eta_pcb p wake_time v).
Definition set_blocked_reason (v : Z) (p : pcb) : pcb := ltac:(set_field eta_pcb p blocked_reason v).
Definition set_vruntime (v : Z) (p : pcb) : pcb := ltac:(set_field eta_pcb p vruntime v).
Definition set_pgid (v : Z) (p : pcb) : pcb := ltac:(set_field eta_pcb p pgid v).
Definition set_need_resched (v : Z) (p : pcb) : pcb := ltac:(set_field eta_pcb p need_resched v).
Definition set_exec_start (v : Z) (p : pcb) : pcb := ltac:(set_field eta_pcb p exec_start v).

Record sched_queue := mk_queue { q_head : Z; q_tail : Z; q_count : Z; q_priority : Z }.

(** The null pointer of the node arrays. *)
Definition NIL : Z := -1.

Record cfs_node := mk_cfs_node { n_proc : Z; n_vruntime : Z; n_next : Z }.
Record cfs_rq_t := mk_cfs_rq { c_head : Z; c_curr : Z; min_vruntime : Z; c_nr_running : Z }.

Record deadline_params := mk_params {
  runtime : Z; deadline : Z; period : Z; remaining_runtime : Z; current_deadline : Z; active : Z;
}.
Record dl_node := mk_dl_node { d_proc : Z; params : deadline_params; d_next : Z; d_prev : Z }.
Record dl_rq_t := mk_dl_rq { d_head : Z; d_tail : Z; d_nr_running : Z; running_bw : Z }.

Record pi_info := mk_pi { pi_owner : Z; pi_original : Z; boosted_priority : Z; boosted : Z }.

Record load_stat := mk_load { cpu_load : list Z; window_pos : Z; avg_load : Z }.
Record process_group := mk_group {
  g_pgid : Z; leader_pid : Z; member_count : Z; cpu_share : Z; g_used : Z;
}.
Record cpu_affinity := mk_affinity { cpumask : Z; cpu_count : Z }.
Record sched_stat := mk_stat {
  sched_count : Z; total_runtime : Z; max_runtime : Z; min_runtime : Z; avg_runtime : Z;
  wait_time : Z; context_switches : Z; voluntary_ctx : Z; involuntary_ctx : Z;
  last_sched_time : Z;
}.
Record sched_global_stats := mk_gstats {
  total_context_switches : Z; total_ticks : Z; idle_ticks : Z; user_ticks : Z;
  kernel_ticks : Z; preempt_count : Z; yield_count : Z;
}.
Record batch_job := mk_job { j_pid : Z; j_priority : Z; est_runtime : Z; j_used : Z }.
Record energy_profile := mk_energy {
  current_freq : Z; max_freq : Z; min_freq : Z; idle_percent : Z; energy_perf_bias : Z;
  power_save_mode : Z; idle_cycles : Z; busy_cycles : Z;
}.
Record sched_tunables_t := mk_tunables {
  sched_min_granularity_ns : Z; sched_latency_ns : Z; sched_wakeup_granularity_ns : Z;
  sched_migration_cost_ns : Z; sched_nr_migrate : Z; sched_cfs_bandwidth_slice_us : Z;
  sched_rt_period_us : Z; sched_rt_runtime_us : Z; sched_child_runs_first : Z;
}.
Record sched_domain := mk_domain {
  domain_id : Z; dom_type : Z; cpu_mask : Z; nr_cpus : Z; dom_load : Z; capacity : Z;
}.

(** The tables that only the operations of SchedExt.v use. *)
Record sched_tables := mk_tables {
  load_stats : load_stat; pg_table : list process_group; sched_debug_level : Z;
  proc_affinity : list cpu_affinity; proc_stats : list sched_stat;
  global_stats : sched_global_stats; batch_jobs : list batch_job; batch_job_count : Z;
  energy_prof : energy_profile; sched_tunables : sched_tunables_t;
  root_domain : sched_domain;
}.

Definition eta_sched_tables (t : sched_tables) : sched_tables :=
  mk_tables
    (load_stats t) (pg_table t) (sched_debug_level t) (proc_affinity t) (proc_stats t)
    (global_stats t) (batch_jobs t) (batch_job_count t) (energy_prof t) (sched_tunables t)
    (root_domain t).

Definition set_load_stats (v : load_stat) (t : sched_tables) : sched_tables := ltac:(set_field eta_sched_tables t load_stats v).
Definition set_pg_table (v : list process_group) (t : sched_tables) : sched_tables := ltac:(set_field eta_sched_tables t pg_table v).
Definition set_sched_debug_level (v : Z) (t : sched_tables) : sched_tables := ltac:(set_field eta_sched_tables t sched_debug_level v).
Definition set_proc_affinity (v : list cpu_affinity) (t : sched_tables) : sched_tables := ltac:(set_field eta_sched_tables t proc_affinity v).
Definition set_proc_stats (v : list sched_stat) (t : sched_tables) : sched_tables := ltac:(set_field eta_sched_tables t proc_stats v).
Definition set_global_stats (v : sched_global_stats) (t : sched_tables) : sched_tables := ltac:(set_field eta_sched_tables t global_stats v).
Definition set_batch_jobs (v : list batch_job) (t : sched_tables) : sched_tables := ltac:(set_field eta_sched_tables t batch_jobs v).
Definition set_batch_job_count (v : Z) (t : sched_tables) : sched_tables := ltac:(set_field eta_sched_tables t batch_job_count v).
Definition set_energy_prof (v : energy_profile) (t : sched_tables) : sched_tables := ltac:(set_field eta_sched_tables t energy_prof v).
Definition set_sched_tunables (v : sched_tunables_t) (t : sched_tables) : sched_tables := ltac:(set_field eta_sched_tables t sched_tunables v).
Definition set_root_domain (v : sched_domain) (t : sched_tables) : sched_tables := ltac:(set_field eta_sched_tables t root_domain v).

(** What [schedule] does to the processor, and the calls of the hook for asynchronous I/O. *)
Inductive hw_event :=
  | FpuSave (process : Z)
  | LoadCr3 (page_dir : Z)
  | SetTss (esp0 : Z)
  | ContextSwitch (from to : Z)
  | AioTick (hook : Z).

(** The static variables of src/kernel/sched.c and the control blocks. *)
Record sched := mk_sched {
  procs : gmap Z pcb; rt_queues : list sched_queue; mlfq_queues : list sched_queue;
  idle_task : Z; current : Z; lock : spinlock; tick_count : Z; in_schedule : Z;
  process_list : Z; g_aio_tick_fn : Z; cfs_runqueue : list cfs_node; cfs_rq : cfs_rq_t;
  cfs_tick_granularity : Z; dl_nodes : list dl_node; dl_rq : dl_rq_t;
  pi_table : list pi_info; tables : sched_tables; hw : list hw_event;
}.

Definition eta_sched (s : sched) : sched :=
  mk_sched
    (procs s) (rt_queues s) (mlfq_queues s) (idle_task s) (current s) (lock s) (tick_count s)
    (in_schedule s) (process_list s) (g_aio_tick_fn s) (cfs_runqueue s) (cfs_rq s)
    (cfs_tick_granularity s) (dl_nodes s) (dl_rq s) (pi_table s) (tables s) (hw s).

Definition set_procs (v : gmap Z pcb) (s : sched) : sched := ltac:(set_field eta_sched s procs v).
Definition set_rt_queues (v : list sched_queue) (s : sched) : sched := ltac:(set_field eta_sched s rt_queues v).
Definition set_mlfq_queues (v : list sched_queue) (s : sched) : sched := ltac:(set_field eta_sched s mlfq_queues v).
Definition set_idle_task (v : Z) (s : sched) : sched := ltac:(set_field eta_sched s idle_task v).
Definition set_current (v : Z) (s : sched) : sched := ltac:(set_field eta_sched s current v).
Definition set_lock (v : spinlock) (s : sched) : sched := ltac:(set_field eta_sched s lock v).
Definition set_tick_count (v : Z) (s : sched) : sched := ltac:(set_field eta_sched s tick_count v).
Definition set_in_schedule (v : Z) (s : sched) : sched := ltac:(set_field eta_sched s in_schedule v).
Definition set_process_list (v : Z) (s : sched) : sched := ltac:(set_field eta_sched s process_list v).
Definition set_g_aio_tick_fn (v : Z) (s : sched) : sched := ltac:(set_field eta_sched s g_aio_tick_fn v).
Definition set_cfs_runqueue (v : list cfs_node) (s : sched) : sched := ltac:(set_field eta_sched s cfs_runqueue v).
Definition set_cfs_rq (v : cfs_rq_t) (s : sched) : sched := ltac:(set_field eta_sched s cfs_rq v).
Definition set_cfs_tick_granularity (v : Z) (s : sched) : sched := ltac:(set_field eta_sched s cfs_tick_granularity v).
Definition set_dl_nodes (v : list dl_node) (s : sched) : sched := ltac:(set_field eta_sched s dl_nodes v).
Definition set_dl_rq (v : dl_rq_t) (s : sched) : sched := ltac:(set_field eta_sched s dl_rq v).
Definition set_pi_table (v : list pi_info) (s : sched) : sched := ltac:(set_field eta_sched s pi_table v).
Definition set_tables (v : sched_tables) (s : sched) : sched := ltac:(set_field eta_sched s tables v).
Definition set_hw (v : list hw_event) (s : sched) : sched := ltac:(set_field eta_sched s hw v).

#[export] Instance pcb_inhabited : Inhabited pcb := populate zero_pcb.
#[export] Instance queue_inhabited : Inhabited sched_queue := populate (mk_queue 0 0 0 0).
#[export] Instance cfs_node_inhabited : Inhabited cfs_node := populate (mk_cfs_node 0 0 NIL).
Definition zero_params : deadline_params := mk_params 0 0 0 0 0 0.
#[export] Instance dl_node_inhabited : Inhabited dl_node :=
  populate (mk_dl_node 0 zero_params NIL NIL).
#[export] Instance pi_inhabited : Inhabited pi_info := populate (mk_pi 0 0 0 0).

(** ** Access to memory *)

Notation M := (FM sched).

(** [proc->...] for reading and for writing. *)
Definition deref (a : Z) : M pcb := p ← gets (fun s => procs s !! a); of_option p.
Definition store (a : Z) (p : pcb) : M unit := modify (fun s => set_procs (<[a := p]> (procs s)) s).
Definition update (a : Z) (f : pcb -> pcb) : M unit := p ← deref a; store a (f p).

Definition spinlock_irq_save : M unit :=
  l ← gets lock;
  match spinlock_try l with
  | (true, l') => modify (set_lock l')
  | (false, _) => fault
  end.
Definition spinlock_irq_restore : M unit :=
  modify (fun s => set_lock (spinlock_unlock (lock s)) s).

(** A pointer to one of the queues. *)
Inductive qref := Rt (i : Z) | Mlfq (i : Z).

#[export] Instance qref_eq_dec : EqDecision qref.
Proof. solve_decision. Defined.

Definition in_range (i n : Z) : bool := (0 <=? i) && (i <? n).

Definition get_queue (q : qref) : M sched_queue :=
  match q with
  | Rt i => if in_range i SCHED_RT_QUEUE_COUNT then gets (fun s => (rt_queues s).[i]) else fault
  | Mlfq i => if in_range i SCHED_QUEUE_COUNT then gets (fun s => (mlfq_queues s).[i]) else fault
  end.
Definition put_queue (q : qref) (v : sched_queue) : M unit :=
  match q with
  | Rt i => modify (fun s => set_rt_queues ((rt_queues s).[i <- v]) s)
  | Mlfq i => modify (fun s => set_mlfq_queues ((mlfq_queues s).[i <- v]) s)
  end.

(** [policy & flag] as a condition. *)
Definition has (policy flag : Z) : bool := negb (Z.land policy flag =? 0).

(** [while (proc) { body(proc); proc = proc->next; }] from [a].  The control blocks are
    more than the processes of a list without a cycle. *)
Fixpoint walk (fuel : nat) (a : Z) (body : Z -> M unit) : M unit :=
  if a =? NULL then mret tt else
  match fuel with
  | O => fault
  | S fuel => body a ;; p ← deref a; walk fuel (next p) body
  end.
Definition for_processes (body : Z -> M unit) : M unit :=
  fuel ← gets (fun s => size (procs s)); a ← gets process_list; walk fuel a body.

(** ** Queues *)

Definition queue_add (q : qref) (proc : Z) : M unit :=
  queue ← get_queue q;
  update proc (fun p => set_queue_prev (q_tail queue) (set_queue_next NULL p)) ;;
  (if q_tail queue =? NULL then mret tt else update (q_tail queue) (set_queue_next proc)) ;;
  put_queue q (mk_queue (if q_tail queue =? NULL then proc else q_head queue) proc
                        (u32 (q_count queue + 1)) (q_priority queue)).

Definition queue_remove (q : qref) (proc : Z) : M Z :=
  if proc =? NULL then mret NULL else
  queue ← get_queue q;
  p ← deref proc;
  if negb (q_head queue =? proc) && (queue_prev p =? NULL) && (queue_next p =? NULL)
  then mret proc else
  (if queue_prev p =? NULL then mret tt
   else update (queue_prev p) (set_queue_next (queue_next p))) ;;
  (if queue_next p =? NULL then mret tt
   else update (queue_next p) (set_queue_prev (queue_prev p))) ;;
  update proc (fun p => set_queue_prev NULL (set_queue_next NULL p)) ;;
  put_queue q (mk_queue (if queue_prev p =? NULL then queue_next p else q_head queue)
                        (if queue_next p =? NULL then queue_prev p else q_tail queue)
                        (u32 (q_count queue - 1)) (q_priority queue)) ;;
  mret proc.

Definition queue_pop_front (q : qref) : M Z :=
  queue ← get_queue q;
  if q_head queue =? NULL then mret NULL else queue_remove q (q_head queue).

Definition calculate_timeslice (priority : Z) : Z :=
  let max_slice := 100 in
  let min_slice := 10 in
  u32 (min_slice + u32 (u32 (SCHED_PRIORITY_MAX - priority) * (max_slice - min_slice)) / SCHED_PRIORITY_MAX).

(** The level of a real-time process, and of the others where the code bounds it. *)
Definition rt_level (p : pcb) : Z :=
  let l := priority p / 50 in
  if SCHED_RT_QUEUE_COUNT <=? l then SCHED_RT_QUEUE_COUNT - 1 else l.
Definition mlfq_level (p : pcb) : Z :=
  let l := s32 (queue_level p) in
  if SCHED_QUEUE_COUNT <=? l then SCHED_QUEUE_COUNT - 1 else l.

(** ** The fair queue *)

Definition set_node (i : Z) (n : cfs_node) : M unit :=
  modify (fun s => set_cfs_runqueue ((cfs_runqueue s).[i <- n]) s).

Definition sched_slice (nr_running : Z) : Z :=
  let nr := u32 (nr_running + 1) in
  let nr := if nr <? 1 then 1 else nr in
  let slice := sched_latency / nr in
  if slice <? sched_min_granularity then sched_min_granularity else slice.

(** [0] or [1]; [curr] is [rq->curr]. *)
Definition wakeup_preempt (curr se : Z) : M Z :=
  if (curr =? NULL) || (curr =? se) then mret 0 else
  c ← deref curr;
  p ← deref se;
  mret (if u64 (vruntime p + sched_wakeup_granularity) <? vruntime c then 1 else 0).

Definition cfs_alloc_node : M Z :=
  gets (fun s => default NIL (List.find (fun i => n_proc (cfs_runqueue s).[i] =? NULL)
                                        (range 0 CFS_MAX_PROCS))).

Definition cfs_free_node (i : Z) : M unit := set_node i (mk_cfs_node NULL 0 NIL).

(** The loop of [enqueue_entity] over the nodes before the place of a new one: the last
    node it passes. *)
Fixpoint cfs_place (fuel : nat) (nodes : list cfs_node) (v prev curr : Z) : option Z :=
  if curr =? NIL then Some prev
  else if n_vruntime nodes.[curr] <? v then
    match fuel with
    | O => None
    | S fuel => cfs_place fuel nodes v curr (n_next nodes.[curr])
    end
  else Some prev.

Definition enqueue_entity (se : Z) : M unit :=
  if se =? NULL then mret tt else
  node ← cfs_alloc_node;
  if node =? NIL then mret tt else
  rq ← gets cfs_rq;
  p ← deref se;
  now ← gets tick_count;
  let v := if min_vruntime rq <? vruntime p then vruntime p else min_vruntime rq in
  old ← gets (fun s => (cfs_runqueue s).[node]);
  set_node node (mk_cfs_node se v (n_next old)) ;;
  update se (set_exec_start now) ;;
  nodes ← gets cfs_runqueue;
  prev ← of_option (cfs_place (Z.to_nat CFS_MAX_PROCS) nodes v NIL (c_head rq));
  (if prev =? NIL then set_node node (mk_cfs_node se v (c_head rq))
   else set_node node (mk_cfs_node se v (n_next nodes.[prev])) ;;
        set_node prev (mk_cfs_node (n_proc nodes.[prev]) (n_vruntime nodes.[prev]) node)) ;;
  modify (set_cfs_rq (mk_cfs_rq (if prev =? NIL then node else c_head rq) (c_curr rq)
                        (min_vruntime rq) (u32 (c_nr_running rq + 1)))) ;;
  if c_curr rq =? se then mret tt else
  preempt ← wakeup_preempt (c_curr rq) se;
  if c_true preempt then
    (if c_curr rq =? NULL then mret tt else update (c_curr rq) (set_need_resched 1))
  else
    curr_v ← (if c_curr rq =? NULL then mret 0 else c ← deref (c_curr rq); mret (vruntime c));
    if (u64 (v + sched_wakeup_granularity) <? curr_v) && negb (c_curr rq =? NULL)
    then update (c_curr rq) (set_need_resched 1)
    else mret tt.

(** Both branches of the code return the first process. *)
Definition pick_next_entity : M Z :=
  rq ← gets cfs_rq;
  nodes ← gets cfs_runqueue;
  if (c_nr_running rq =? 0) || (c_head rq =? NIL) then mret NULL else
  (if (c_curr rq =? NULL) || (n_proc nodes.[c_head rq] =? c_curr rq) then mret tt
   else _ ← deref (c_curr rq); mret tt) ;;
  mret (n_proc nodes.[c_head rq]).

Definition sched_calc_vruntime (p : pcb) (delta_exec : Z) : Z :=
  let priority := effective_priority p in
  let weight := 1024 in
  let weight :=
    if SCHED_DEFAULT_PRIORITY <? priority then
      u64 (weight + u32 ((priority - SCHED_DEFAULT_PRIORITY) * 10))
    else if priority <? SCHED_DEFAULT_PRIORITY then
      let w := u64 (weight - u32 ((SCHED_DEFAULT_PRIORITY - priority) * 5)) in
      if w <? 100 then 100 else w
    else weight in
  u64 (delta_exec * 1024) / weight.

Definition task_tick_fair (curr : Z) : M unit :=
  if curr =? NULL then mret tt else
  p ← deref curr;
  now ← gets tick_count;
  gran ← gets cfs_tick_granularity;
  rq ← gets cfs_rq;
  let delta_exec := u64 (now - exec_start p) in
  update curr (set_vruntime (u64 (vruntime p + sched_calc_vruntime p gran))) ;;
  if sched_slice (c_nr_running rq) <=? delta_exec
  then update curr (set_need_resched 1) else mret tt.

Definition sched_cfs_enqueue (proc : Z) : M unit := enqueue_entity proc.

(** The node of [proc] and the one before it. *)
Fixpoint cfs_find_from (fuel : nat) (nodes : list cfs_node) (proc prev curr : Z) : option (Z * Z) :=
  if curr =? NIL then Some (NIL, NIL)
  else if n_proc nodes.[curr] =? proc then Some (curr, prev)
  else match fuel with
       | O => None
       | S fuel => cfs_find_from fuel nodes proc curr (n_next nodes.[curr])
       end.
Definition cfs_find_node (proc : Z) : M (Z * Z) :=
  rq ← gets cfs_rq;
  nodes ← gets cfs_runqueue;
  of_option (cfs_find_from (Z.to_nat CFS_MAX_PROCS) nodes proc NIL (c_head rq)).

Definition sched_cfs_dequeue : M Z :=
  rq ← gets cfs_rq;
  if (c_nr_running rq =? 0) || (c_head rq =? NIL) then mret NULL else
  nxt ← pick_next_entity;
  if nxt =? NULL then mret NULL else
  found ← cfs_find_node nxt;
  let '(node, prev) := found in
  if node =? NIL then mret NULL else
  nodes ← gets cfs_runqueue;
  let n := nodes.[node] in
  (if prev =? NIL then mret tt
   else set_node prev (mk_cfs_node (n_proc nodes.[prev]) (n_vruntime nodes.[prev]) (n_next n))) ;;
  cfs_free_node node ;;
  modify (set_cfs_rq (mk_cfs_rq (if prev =? NIL then n_next n else c_head rq) (c_curr rq)
    (if min_vruntime rq <? n_vruntime n then n_vruntime n else min_vruntime rq)
    (u32 (c_nr_running rq - 1)))) ;;
  mret (n_proc n).

(** ** The deadline queue *)

Definition set_dl_node (i : Z) (n : dl_node) : M unit :=
  modify (fun s => set_dl_nodes ((dl_nodes s).[i <- n]) s).
Definition update_dl (i : Z) (f : dl_node -> dl_node) : M unit :=
  modify (fun s => set_dl_nodes ((dl_nodes s).[i <- f (dl_nodes s).[i]]) s).

Definition with_d_next (v : Z) (n : dl_node) : dl_node := mk_dl_node (d_proc n) (params n) v (d_prev n).
Definition with_d_prev (v : Z) (n : dl_node) : dl_node := mk_dl_node (d_proc n) (params n) (d_next n) v.
Definition with_params (v : deadline_params) (n : dl_node) : dl_node :=
  mk_dl_node (d_proc n) v (d_next n) (d_prev n).

Definition dl_alloc_node : M Z :=
  gets (fun s => default NIL (List.find (fun i => d_proc (dl_nodes s).[i] =? NULL)
                                        (range 0 SCHED_DL_MAX_PROCS))).

Definition dl_free_node (i : Z) : M unit :=
  if i =? NIL then mret tt
  else update_dl i (fun n => mk_dl_node NULL (params n) NIL NIL).

Fixpoint dl_find_from (fuel : nat) (nodes : list dl_node) (proc node : Z) : option Z :=
  if node =? NIL then Some NIL
  else if d_proc nodes.[node] =? proc then Some node
  else match fuel with
       | O => None
       | S fuel => dl_find_from fuel nodes proc (d_next nodes.[node])
       end.
Definition dl_find_node (proc : Z) : M Z :=
  rq ← gets dl_rq;
  nodes ← gets dl_nodes;
  of_option (dl_find_from (Z.to_nat SCHED_DL_MAX_PROCS) nodes proc (d_head rq)).

(** The loop of [dl_insert_sorted]: the nodes between which the new one goes. *)
Fixpoint dl_place (fuel : nat) (nodes : list dl_node) (dl prev curr : Z) : option (Z * Z) :=
  if curr =? NIL then Some (prev, curr)
  else if current_deadline (params nodes.[curr]) <=? dl then
    match fuel with
    | O => None
    | S fuel => dl_place fuel nodes dl curr (d_next nodes.[curr])
    end
  else Some (prev, curr).

Definition dl_insert_sorted (node : Z) : M unit :=
  rq ← gets dl_rq;
  nodes ← gets dl_nodes;
  place ← of_option (dl_place (Z.to_nat SCHED_DL_MAX_PROCS) nodes
                       (current_deadline (params nodes.[node])) NIL (d_head rq));
  let '(prev, curr) := place in
  update_dl node (fun n => with_d_prev prev (with_d_next curr n)) ;;
  (if prev =? NIL then mret tt else update_dl prev (with_d_next node)) ;;
  (if curr =? NIL then mret tt else update_dl curr (with_d_prev node)) ;;
  modify (set_dl_rq (mk_dl_rq (if prev =? NIL then node else d_head rq)
                              (if curr =? NIL then node else d_tail rq)
                              (d_nr_running rq) (running_bw rq))).

Definition sched_dl_enqueue (proc : Z) : M unit :=
  if proc =? NULL then mret tt else
  node ← dl_find_node proc;
  if node =? NIL then mret tt else
  now ← gets tick_count;
  update_dl node (fun n =>
    let q := params n in
    let q := if remaining_runtime q =? 0
             then mk_params (runtime q) (deadline q) (period q) (runtime q)
                            (u64 (now + deadline q)) (active q)
             else q in
    with_params (mk_params (runtime q) (deadline q) (period q) (remaining_runtime q)
                           (current_deadline q) 1) n) ;;
  dl_insert_sorted node ;;
  modify (fun s => let rq := dl_rq s in
    set_dl_rq (mk_dl_rq (d_head rq) (d_tail rq) (u32 (d_nr_running rq + 1)) (running_bw rq)) s).

Definition sched_dl_dequeue : M Z :=
  rq ← gets dl_rq;
  if d_head rq =? NIL then mret NULL else
  nodes ← gets dl_nodes;
  let node := d_head rq in
  let n := nodes.[node] in
  (if d_next n =? NIL then mret tt else update_dl (d_next n) (with_d_prev NIL)) ;;
  update_dl node (fun n => with_d_prev NIL (with_d_next NIL n)) ;;
  modify (set_dl_rq (mk_dl_rq (d_next n) (if d_next n =? NIL then NIL else d_tail rq)
                              (u32 (d_nr_running rq - 1)) (running_bw rq))) ;;
  mret (d_proc n).

Definition sched_dl_tick (proc : Z) : M unit :=
  if proc =? NULL then mret tt else
  node ← dl_find_node proc;
  if node =? NIL then mret tt else
  nodes ← gets dl_nodes;
  let q := params nodes.[node] in
  let left := u64 (remaining_runtime q - 1) in
  update_dl node (with_params (mk_params (runtime q) (deadline q) (period q) left
                                 (current_deadline q) (if left =? 0 then 0 else active q))) ;;
  if left =? 0 then update proc (set_need_resched 1) else mret tt.

Definition sched_dl_check_preempt (curr new_proc : Z) : M Z :=
  if (curr =? NULL) || (new_proc =? NULL) then mret 0 else
  c ← deref curr;
  if negb (has (sched_policy c) PROCESS_DEADLINE) then mret 1 else
  n ← deref new_proc;
  if negb (has (sched_policy n) PROCESS_DEADLINE) then mret 0 else
  curr_node ← dl_find_node curr;
  new_node ← dl_find_node new_proc;
  if (curr_node =? NIL) || (new_node =? NIL) then mret 0 else
  nodes ← gets dl_nodes;
  mret (if current_deadline (params nodes.[new_node]) <? current_deadline (params nodes.[curr_node])
        then 1 else 0).

(** ** Processes and queues *)

Definition add_to_queue (proc : Z) : M unit :=
  p ← deref proc;
  if has (sched_policy p) PROCESS_REAL_TIME then queue_add (Rt (rt_level p)) proc
  else if has (sched_policy p) PROCESS_CFS then enqueue_entity proc
  else if has (sched_policy p) PROCESS_DEADLINE then sched_dl_enqueue proc
  else queue_add (Mlfq (mlfq_level p)) proc.

Definition rt_refs : list qref := Rt <$> range 0 SCHED_RT_QUEUE_COUNT.
Definition mlfq_refs : list qref := Mlfq <$> range 0 SCHED_QUEUE_COUNT.

Definition pick_next_process : M Z :=
  proc ← first_nonnull rt_refs queue_pop_front;
  if negb (proc =? NULL) then mret proc else
  proc ← first_nonnull mlfq_refs queue_pop_front;
  if negb (proc =? NULL) then mret proc else
  gets idle_task.

(** The body of the loop of [sched_boost_all]. *)
Definition boost_one (proc : Z) : M unit :=
  p ← deref proc;
  if has (sched_policy p) PROCESS_NORMAL && negb (queue_level p =? 0) then
    if decide (state p = PROCESS_READY) then
      queue_remove (Mlfq (queue_level p)) proc ;;
      update proc (set_queue_level 0) ;;
      queue_add (Mlfq 0) proc
    else update proc (set_queue_level 0)
  else mret tt.
Definition sched_boost_all : M unit :=
  spinlock_irq_save ;; for_processes boost_one ;; spinlock_irq_restore.

Definition sched_init : M unit :=
  for_each (range 0 SCHED_RT_QUEUE_COUNT) (fun i => put_queue (Rt i) (mk_queue NULL NULL 0 i)) ;;
  for_each (range 0 SCHED_QUEUE_COUNT) (fun i => put_queue (Mlfq i) (mk_queue NULL NULL 0 i)) ;;
  modify (fun s => set_in_schedule 0 (set_tick_count 0 (set_idle_task NULL (set_current NULL
    (set_lock spinlock_init s))))).

Definition scheduler_set_aio_tick (fn : Z) : M unit := modify (set_g_aio_tick_fn fn).

(** [idle]: what [process_create_kernel] returns. *)
Definition sched_create_idle_task (idle : Z) : M unit :=
  if idle =? NULL then mret tt else modify (set_idle_task idle).

(** The queue that [add_to_queue] selects for a process outside the fair and the
    deadline queue. *)
Definition home (p : pcb) : qref :=
  if has (sched_policy p) PROCESS_REAL_TIME then Rt (rt_level p) else Mlfq (mlfq_level p).

Definition sched_set_current (proc : Z) : M unit :=
  (if proc =? NULL then mret tt else
   spinlock_irq_save ;;
   p ← deref proc;
   queue_remove (home p) proc ;;
   spinlock_irq_restore ;;
   update proc (set_state PROCESS_RUNNING)) ;;
  modify (set_current proc).

Definition sched_add (proc : Z) : M unit :=
  if proc =? NULL then mret tt else
  spinlock_irq_save ;;
  now ← gets tick_count;
  update proc (fun p => set_last_run_time now (set_state PROCESS_READY p)) ;;
  first ← gets process_list;
  (if first =? NULL then
     modify (set_process_list proc) ;;
     update proc (fun p => set_next NULL (set_prev NULL p))
   else
     update proc (fun p => set_prev NULL (set_next first p)) ;;
     update first (set_prev proc) ;;
     modify (set_process_list proc)) ;;
  add_to_queue proc ;;
  spinlock_irq_restore.

(** The removal from a queue in [sched_remove], [sched_block] and [sched_set_priority]:
    the level is used as it is. *)
Definition remove_from_queue (proc : Z) : M unit :=
  p ← deref proc;
  (if has (sched_policy p) PROCESS_REAL_TIME then queue_remove (Rt (rt_level p)) proc
   else queue_remove (Mlfq (queue_level p)) proc) ;;
  mret tt.

Definition sched_remove (proc : Z) : M unit :=
  if proc =? NULL then mret tt else
  spinlock_irq_save ;;
  remove_from_queue proc ;;
  p ← deref proc;
  (if prev p =? NULL then mret tt else update (prev p) (set_next (next p))) ;;
  (if next p =? NULL then mret tt else update (next p) (set_prev (prev p))) ;;
  first ← gets process_list;
  (if first =? proc then modify (set_process_list (next p)) else mret tt) ;;
  spinlock_irq_restore.

Definition emit (e : hw_event) : M unit := modify (fun s => set_hw (hw s ++ [e]) s).

(** The part of [schedule] from the choice of the next process on. *)
Definition switch_to (prev next : Z) : M unit :=
  update next (fun p => set_ticks_used 0 (set_time_slice (calculate_timeslice (effective_priority p))
                          (set_state PROCESS_RUNNING p))) ;;
  modify (set_current next) ;;
  n ← deref next;
  (if (prev =? NULL) || (prev =? next) then mret tt else emit (FpuSave prev)) ;;
  (if prev =? NULL then mret tt else
   p ← deref prev;
   if page_dir p =? page_dir n then mret tt else emit (LoadCr3 (page_dir n))) ;;
  (if kernel_stack n =? 0 then mret tt else emit (SetTss (kernel_stack n))) ;;
  modify (set_in_schedule 0) ;;
  spinlock_irq_restore ;;
  if (prev =? NULL) || (prev =? next) then mret tt else emit (ContextSwitch prev next).

Definition schedule : M unit :=
  spinlock_irq_save ;;
  busy ← gets in_schedule;
  if c_true busy then spinlock_irq_restore else
  modify (set_in_schedule 1) ;;
  prev ← gets current;
  idle ← gets idle_task;
  (if prev =? NULL then mret tt else
   p ← deref prev;
   if bool_decide (state p = PROCESS_RUNNING) && negb (prev =? idle) then
     update prev (set_state PROCESS_READY) ;; add_to_queue prev
   else mret tt) ;;
  picked ← pick_next_process;
  let next := if picked =? NULL then idle else picked in
  if next =? NULL then
    (if prev =? NULL then mret tt else
     update prev (set_state PROCESS_RUNNING) ;; modify (set_current prev)) ;;
    modify (set_in_schedule 0) ;;
    spinlock_irq_restore
  else switch_to prev next.

(** The body of the loop of [sched_wakeup_sleepers]. *)
Definition wake_one (proc : Z) : M unit :=
  p ← deref proc;
  now ← gets tick_count;
  if bool_decide (state p = PROCESS_BLOCKED) && (blocked_reason p =? BLOCK_REASON_SLEEP) &&
     (wake_time p <=? now)
  then update proc (fun p => set_blocked_reason BLOCK_REASON_NONE (set_state PROCESS_READY p)) ;;
       add_to_queue proc
  else mret tt.
Definition sched_wakeup_sleepers : M unit :=
  spinlock_irq_save ;; for_processes wake_one ;; spinlock_irq_restore.

(** The part of [sched_tick] that accounts the tick to the running process. *)
Definition tick_current (current : Z) : M unit :=
  update current (fun p => set_time_slice (u32 (time_slice p - 1))
    (set_cpu_time (u32 (cpu_time p + 1)) (set_ticks_used (u32 (ticks_used p + 1)) p))) ;;
  idle ← gets idle_task;
  if current =? idle then schedule else
  p ← deref current;
  if has (sched_policy p) PROCESS_NORMAL then
    if time_slice p <=? 0 then
      (if queue_level p <? SCHED_QUEUE_COUNT - 1
       then update current (set_queue_level (queue_level p + 1)) else mret tt) ;;
      schedule
    else mret tt
  else if has (sched_policy p) PROCESS_REAL_TIME then
    if time_slice p <=? 0 then schedule else mret tt
  else mret tt.

Definition sched_tick : M unit :=
  modify (fun s => set_tick_count (u64 (tick_count s + 1)) s) ;;
  sched_wakeup_sleepers ;;
  now ← gets tick_count;
  (if now mod SCHED_BOOST_INTERVAL =? 0 then sched_boost_all else mret tt) ;;
  hook ← gets g_aio_tick_fn;
  (if negb (hook =? NULL) && (now mod SCHED_AIO_TICK_DIV =? 0)
   then emit (AioTick hook) else mret tt) ;;
  cur ← gets current;
  if cur =? NULL then schedule else tick_current cur.

Definition sched_block (proc reason : Z) : M unit :=
  if proc =? NULL then mret tt else
  spinlock_irq_save ;;
  p ← deref proc;
  if decide (state p = PROCESS_RUNNING) then
    update proc (fun p => set_blocked_reason reason (set_state PROCESS_BLOCKED p)) ;;
    spinlock_irq_restore ;;
    schedule
  else if decide (state p = PROCESS_READY) then
    remove_from_queue proc ;;
    update proc (fun p => set_blocked_reason reason (set_state PROCESS_BLOCKED p)) ;;
    spinlock_irq_restore
  else spinlock_irq_restore.

Definition sched_unblock (proc : Z) : M unit :=
  if proc =? NULL then mret tt else
  p ← deref proc;
  if negb (bool_decide (state p = PROCESS_BLOCKED)) then mret tt else
  spinlock_irq_save ;;
  update proc (fun p => set_blocked_reason BLOCK_REASON_NONE (set_state PROCESS_READY p)) ;;
  add_to_queue proc ;;
  spinlock_irq_restore.

Definition sched_get_current : M Z := gets current.

Definition sched_block_current (reason : Z) : M unit :=
  p ← sched_get_current; if p =? NULL then mret tt else sched_block p reason.

Definition sched_set_priority (proc prio : Z) : M Z :=
  if proc =? NULL then mret (-1) else
  let prio := if SCHED_PRIORITY_MAX <? prio then SCHED_PRIORITY_MAX else prio in
  spinlock_irq_save ;;
  p ← deref proc;
  (if decide (state p = PROCESS_READY) then remove_from_queue proc else mret tt) ;;
  update proc (fun p => set_effective_priority prio (set_original_priority prio (set_priority prio p))) ;;
  (if decide (state p = PROCESS_READY) then add_to_queue proc else mret tt) ;;
  spinlock_irq_restore ;;
  mret 0.

Definition sched_yield : M unit :=
  cur ← sched_get_current;
  if cur =? NULL then mret tt else
  p ← deref cur;
  (if has (sched_policy p) PROCESS_NORMAL && (0 <? queue_level p) &&
      (ticks_used p <? time_slice p / 2)
   then update cur (set_queue_level (queue_level p - 1)) else mret tt) ;;
  schedule.

Definition sched_sleep (milliseconds : Z) : M unit :=
  cur ← sched_get_current;
  if cur =? NULL then mret tt else
  now ← gets tick_count;
  update cur (set_wake_time (u64 (now + u32 (milliseconds + 9) / 10))) ;;
  sched_block cur BLOCK_REASON_SLEEP.

(** The first process of the list with the number [pid]. *)
Fixpoint find_from (fuel : nat) (ps : gmap Z pcb) (a wanted : Z) : option Z :=
  if a =? NULL then Some NULL else
  match ps !! a, fuel with
  | Some p, S fuel => if pid p =? wanted then Some a else find_from fuel ps (next p) wanted
  | _, _ => None
  end.
Definition sched_find_process (wanted : Z) : M Z :=
  spinlock_irq_save ;;
  found ← gets (fun s => find_from (S (size (procs s))) (procs s) (process_list s) wanted);
  a ← of_option found;
  spinlock_irq_restore ;;
  mret a.

Definition sched_set_policy (proc policy : Z) : M Z :=
  if proc =? NULL then mret (-1) else
  spinlock_irq_save ;;
  p ← deref proc;
  (if decide (state p = PROCESS_READY) then
     if has (sched_policy p) PROCESS_REAL_TIME then queue_remove (Rt (rt_level p)) proc ;; mret tt
     else if has (sched_policy p) PROCESS_CFS then sched_cfs_dequeue ;; mret tt
     else if has (sched_policy p) PROCESS_DEADLINE then sched_dl_dequeue ;; mret tt
     else queue_remove (Mlfq (queue_level p)) proc ;; mret tt
   else mret tt) ;;
  update proc (fun p => set_queue_level 0 (set_sched_policy policy p)) ;;
  (if decide (state p = PROCESS_READY) then add_to_queue proc else mret tt) ;;
  spinlock_irq_restore ;;
  mret 0.

Definition sched_get_tick_count : M Z := n ← gets tick_count; mret (u32 n).

(** ** Operations of the fair queue that schedule *)

Definition sched_cfs_init : M unit :=
  modify (fun s => set_cfs_runqueue ((fun _ => mk_cfs_node NULL 0 NIL) <$> range 0 CFS_MAX_PROCS) s) ;;
  modify (fun s => set_cfs_tick_granularity 1 (set_cfs_rq (mk_cfs_rq NIL NULL 0 0) s)).

Definition sched_cfs_tick (proc : Z) : M unit :=
  if proc =? NULL then mret tt else
  task_tick_fair proc ;;
  p ← deref proc;
  if c_true (need_resched p) && bool_decide (state p = PROCESS_RUNNING) then
    update proc (fun p => set_state PROCESS_READY (set_need_resched 0 p)) ;;
    enqueue_entity proc ;;
    schedule
  else mret tt.

Definition sched_set_policy_cfs (proc : Z) : M Z :=
  if proc =? NULL then mret (-1) else
  spinlock_irq_save ;;
  p ← deref proc;
  (if decide (state p = PROCESS_READY) then
     if has (sched_policy p) PROCESS_REAL_TIME then queue_remove (Rt (rt_level p)) proc ;; mret tt
     else if has (sched_policy p) (Z.lor (Z.lor PROCESS_NORMAL PROCESS_BATCH) PROCESS_IDLE_PRIO)
     then queue_remove (Mlfq (queue_level p)) proc ;; mret tt
     else if has (sched_policy p) PROCESS_DEADLINE then sched_dl_dequeue ;; mret tt
     else mret tt
   else mret tt) ;;
  rq ← gets cfs_rq;
  now ← gets tick_count;
  update proc (fun p => set_exec_start now (set_need_resched 0 (set_vruntime (min_vruntime rq)
                          (set_sched_policy PROCESS_CFS p)))) ;;
  (if decide (state p = PROCESS_READY) then enqueue_entity proc
   else if decide (state p = PROCESS_RUNNING) then
     modify (set_cfs_rq (mk_cfs_rq (c_head rq) proc (min_vruntime rq) (c_nr_running rq)))
   else mret tt) ;;
  spinlock_irq_restore ;;
  mret 0.

(** ** Operations of the deadline queue *)

Definition sched_dl_init : M unit :=
  modify (fun s => set_dl_nodes ((fun _ => mk_dl_node NULL zero_params NIL NIL) <$> range 0 SCHED_DL_MAX_PROCS) s) ;;
  modify (fun s => set_dl_rq (mk_dl_rq NIL NIL 0 0) s).

(** The share of the processor a deadline process asks for, in thousandths. *)
Definition task_bandwidth (rt pd : Z) : Z :=
  if (0 <? rt) && (0 <? pd) then u32 (u64 (rt * 1000) / pd) else 0.

Definition sched_set_policy_deadline (proc rt dl pd : Z) : M Z :=
  if (proc =? NULL) || (rt =? 0) || (dl =? 0) || (pd =? 0) then mret (-1) else
  if pd <? dl then mret (-1) else
  if dl <? rt then mret (-1) else
  spinlock_irq_save ;;
  p ← deref proc;
  (if decide (state p = PROCESS_READY) then
     if has (sched_policy p) PROCESS_REAL_TIME then queue_remove (Rt (rt_level p)) proc ;; mret tt
     else if has (sched_policy p) PROCESS_CFS then sched_cfs_dequeue ;; mret tt
     else queue_remove (Mlfq (queue_level p)) proc ;; mret tt
   else mret tt) ;;
  update proc (set_sched_policy PROCESS_DEADLINE) ;;
  node ← dl_alloc_node;
  if node =? NIL then spinlock_irq_restore ;; mret (-1) else
  now ← gets tick_count;
  update_dl node (fun n => mk_dl_node proc (mk_params rt dl pd rt (u64 (now + dl)) 1) (d_next n) (d_prev n)) ;;
  rq ← gets dl_rq;
  let new_total_bw := u32 (running_bw rq + task_bandwidth rt pd) in
  if (new_total_bw <? running_bw rq) || (1000 <? new_total_bw) then
    update_dl node (fun n => mk_dl_node NULL (params n) (d_next n) (d_prev n)) ;;
    spinlock_irq_restore ;; mret (-1)
  else
    modify (set_dl_rq (mk_dl_rq (d_head rq) (d_tail rq) (d_nr_running rq) new_total_bw)) ;;
    (if decide (state p = PROCESS_READY) then sched_dl_enqueue proc else mret tt) ;;
    spinlock_irq_restore ;;
    mret 0.

(** ** Priority inheritance *)

Definition sched_pi_init : M unit :=
  modify (fun s => set_pi_table ((fun _ => mk_pi NULL 0 0 0) <$> range 0 MAX_PROCESSES) s).

(** [&pi_table[pid]]: the code refuses numbers above the table and not below it. *)
Definition get_pi (i : Z) : M pi_info :=
  if in_range i MAX_PROCESSES then gets (fun s => (pi_table s).[i]) else fault.
Definition put_pi (i : Z) (v : pi_info) : M unit :=
  modify (fun s => set_pi_table ((pi_table s).[i <- v]) s).

Definition sched_pi_boost (proc new_priority : Z) : M Z :=
  if proc =? NULL then mret (-1) else
  p ← deref proc;
  if MAX_PROCESSES <=? pid p then mret (-1) else
  let new_priority := if SCHED_PRIORITY_MAX <? new_priority then SCHED_PRIORITY_MAX else new_priority in
  pi ← get_pi (pid p);
  let pi := if boosted pi =? 0
            then mk_pi (pi_owner pi) (effective_priority p) (boosted_priority pi) 1 else pi in
  put_pi (pid p) pi ;;
  (if boosted_priority pi <? new_priority then
     put_pi (pid p) (mk_pi (pi_owner pi) (pi_original pi) new_priority (boosted pi)) ;;
     sched_set_priority proc new_priority ;; mret tt
   else mret tt) ;;
  mret 0.

Definition sched_pi_unboost (proc : Z) : M Z :=
  if proc =? NULL then mret (-1) else
  p ← deref proc;
  if MAX_PROCESSES <=? pid p then mret (-1) else
  pi ← get_pi (pid p);
  if boosted pi =? 0 then mret 0 else
  sched_set_priority proc (pi_original pi) ;;
  put_pi (pid p) (mk_pi (pi_owner pi) 0 0 0) ;;
  mret 0.

Definition sched_pi_mutex_lock (holder waiter : Z) : M Z :=
  if (holder =? NULL) || (waiter =? NULL) then mret (-1) else
  h ← deref holder;
  w ← deref waiter;
  if (MAX_PROCESSES <=? pid h) || (MAX_PROCESSES <=? pid w) then mret (-1) else
  (if effective_priority h <? effective_priority w
   then sched_pi_boost holder (effective_priority w) ;; mret tt else mret tt) ;;
  mret 0.

Definition sched_pi_mutex_unlock (holder : Z) : M Z :=
  if holder =? NULL then mret (-1) else sched_pi_unboost holder.

(** ** The end of a kernel thread (src/kernel/process.c) *)

(** [kernel_thread_exit] of the running process; it does not come back from [schedule],
    and the processor halts when no process runs.  [process_lock] is not taken by the
    scheduler and has no field; nor has [exit_status]. *)
Definition kernel_thread_exit : M unit :=
  curr ← sched_get_current;
  if curr =? NULL then fault else
  update curr (set_state PROCESS_ZOMBIE) ;;
  sched_remove curr ;;
  schedule.

End Sched.
