(* ===== verification/SchedExt.v ===== *)
(** * The tables beside the run queues (src/kernel/sched.c)

    [Module SchedExt]: load average, process groups, processor affinity, statistics,
    batch jobs, the table of policies, frequency, tunable parameters and the scheduling
    domain, with what each keeps: the average is that of the last hundred samples, an
    affinity counts the bits of its mask, the statistics of a process are those of its
    runs, the frequency stays in its bounds.  The functions that only print are left
    out. *)

From Stdlib Require Import String.
From S2P Require Import Prelude FaultM Sync Sched.

Module SchedExt.
Export Sched.
Open Scope Z_scope.

#[export] Instance group_inhabited : Inhabited process_group := populate (mk_group 0 0 0 0 0).
#[export] Instance affinity_inhabited : Inhabited cpu_affinity := populate (mk_affinity 0 0).
Definition zero_stat : sched_stat := mk_stat 0 0 0 0 0 0 0 0 0 0.
#[export] Instance stat_inhabited : Inhabited sched_stat := populate zero_stat.
#[export] Instance job_inhabited : Inhabited batch_job := populate (mk_job 0 0 0 0).

Definition on_tables (f : sched_tables -> sched_tables) : M unit :=
  modify (fun s => set_tables (f (tables s)) s).
Definition get_tables {A} (f : sched_tables -> A) : M A := gets (fun s => f (tables s)).

(** ** Load *)

Definition sched_load_init : M unit :=
  on_tables (set_load_stats (mk_load (replicate 100 0) 0 0)).

Definition load_sample (load : Z) (l : load_stat) : load_stat :=
  let load := if 100 <? load then 100 else load in
  let window := (cpu_load l).[window_pos l <- load] in
  let pos := (window_pos l + 1) mod SCHED_LOAD_WINDOW in
  let sum := foldl (fun sum i => u64 (sum + window.[i])) 0 (range 0 SCHED_LOAD_WINDOW) in
  mk_load window pos (u32 (sum / SCHED_LOAD_WINDOW)).
Definition sched_load_sample (load : Z) : M unit :=
  on_tables (fun t => set_load_stats (load_sample load (load_stats t)) t).

Definition sched_get_avg_load : M Z := get_tables (fun t => avg_load (load_stats t)).

(** ** Process groups *)

Definition sched_pg_init : M unit :=
  on_tables (set_pg_table (replicate 16 (mk_group 0 0 0 1024 0))).

Definition put_group (i : Z) (g : process_group) : M unit :=
  on_tables (fun t => set_pg_table ((pg_table t).[i <- g]) t).
Definition group_used (g : process_group) : bool := c_true (g_used g).

Definition sched_create_process_group (leader : Z) : M Z :=
  groups ← get_tables pg_table;
  match List.find (fun i => negb (group_used groups.[i])) (range 0 MAX_PROCESS_GROUPS) with
  | Some i => put_group i (mk_group leader leader 1 1024 1) ;; mret leader
  | None => mret (-1)
  end.

(** The group with the number [wanted]. *)
Definition find_group (groups : list process_group) (wanted : Z) : option Z :=
  List.find (fun i => group_used groups.[i] && (g_pgid groups.[i] =? wanted)) (range 0 MAX_PROCESS_GROUPS).

Definition sched_add_to_group (pid pgid : Z) : M Z :=
  groups ← get_tables pg_table;
  match find_group groups pgid with
  | Some i =>
      let g := groups.[i] in
      put_group i (mk_group (g_pgid g) (leader_pid g) (u32 (member_count g + 1)) (cpu_share g) (g_used g)) ;;
      proc ← sched_find_process pid;
      (if proc =? NULL then mret tt else update proc (set_pgid pgid)) ;;
      mret 0
  | None => mret (-1)
  end.

(** The body of the loop of [sched_remove_from_group]: is the search over? *)
Definition leave_group (number i : Z) : M bool :=
  g ← get_tables (fun t => (pg_table t).[i]);
  if negb (group_used g) then mret false else
  proc ← sched_find_process number;
  if proc =? NULL then mret false else
  p ← deref proc;
  if negb (pgid p =? g_pgid g) then mret false else
  let count := u32 (member_count g - 1) in
  put_group i (if count =? 0 then mk_group 0 0 count (cpu_share g) 0
               else mk_group (g_pgid g) (leader_pid g) count (cpu_share g) (g_used g)) ;;
  update proc (set_pgid 0) ;;
  mret true.
Fixpoint leave_groups (pid : Z) (rest : list Z) : M Z :=
  match rest with
  | [] => mret (-1)
  | i :: rest => found ← leave_group pid i; if (found : bool) then mret 0 else leave_groups pid rest
  end.
Definition sched_remove_from_group (pid : Z) : M Z := leave_groups pid (range 0 MAX_PROCESS_GROUPS).

(** A pointer into the table, [NIL] for none. *)
Definition sched_get_group (pgid : Z) : M Z :=
  groups ← get_tables pg_table; mret (default NIL (find_group groups pgid)).

(** ** Debugging *)

Definition sched_set_debug_level (level : Z) : M unit :=
  if (0 <=? level) && (level <=? 2) then on_tables (set_sched_debug_level level) else mret tt.
Definition sched_get_debug_level : M Z := get_tables sched_debug_level.

(** ** Processor affinity *)

Definition bit_set (mask i : Z) : bool := negb (Z.land mask (u32 (Z.shiftl 1 i)) =? 0).

(** [&proc_affinity[pid]] and [&proc_stats[pid]]: a negative number is outside the table. *)
Definition put_affinity (i : Z) (a : cpu_affinity) : M unit :=
  if in_range i MAX_PROCESSES then on_tables (fun t => set_proc_affinity ((proc_affinity t).[i <- a]) t) else fault.

Definition sched_set_affinity (proc mask : Z) : M Z :=
  if (proc =? NULL) || (mask =? 0) then mret (-1) else
  p ← deref proc;
  if MAX_PROCESSES <=? pid p then mret (-1) else
  put_affinity (pid p)
    (mk_affinity mask (foldl (fun n i => if bit_set mask i then u32 (n + 1) else n) 0 (range 0 32))) ;;
  mret 0.

Definition sched_get_affinity (proc : Z) : M Z :=
  if proc =? NULL then mret 0 else
  p ← deref proc;
  if MAX_PROCESSES <=? pid p then mret 0 else
  if in_range (pid p) MAX_PROCESSES then get_tables (fun t => cpumask (proc_affinity t).[pid p]) else fault.

Definition sched_set_affinity_pid (number mask : Z) : M Z :=
  proc ← sched_find_process number; if proc =? NULL then mret (-1) else sched_set_affinity proc mask.
Definition sched_get_affinity_pid (number : Z) : M Z :=
  proc ← sched_find_process number; if proc =? NULL then mret 0 else sched_get_affinity proc.

(** ** Statistics *)

Definition fresh_stat : sched_stat := mk_stat 0 0 0 (2 ^ 64 - 1) 0 0 0 0 0 0.
Definition zero_global : sched_global_stats := mk_gstats 0 0 0 0 0 0 0.

Definition sched_stats_init : M unit :=
  on_tables (fun t => set_global_stats zero_global (set_proc_stats (replicate 256 fresh_stat) t)).
Definition sched_stats_reset : M unit :=
  on_tables (fun t => set_proc_stats (replicate 256 fresh_stat) (set_global_stats zero_global t)).

(** What [sched_stats_account] does to the entry of the process; [now] is the tick count. *)
Definition account_stat (ticks_used : Z) (voluntary : bool) (now : Z) (st : sched_stat) : sched_stat :=
  let ticks := u64 ticks_used in
  let count := u64 (sched_count st + 1) in
  let total := u64 (total_runtime st + ticks) in
  mk_stat count total
    (if max_runtime st <? ticks then ticks else max_runtime st)
    (if ticks <? min_runtime st then ticks else min_runtime st)
    (if 0 <? count then total / count else avg_runtime st)
    (wait_time st) (u64 (context_switches st + 1))
    (if voluntary then u64 (voluntary_ctx st + 1) else voluntary_ctx st)
    (if voluntary then involuntary_ctx st else u64 (involuntary_ctx st + 1))
    now.
Definition account_global (ticks_used : Z) (voluntary user : bool) (g : sched_global_stats) : sched_global_stats :=
  mk_gstats (u64 (total_context_switches g + 1)) (u64 (total_ticks g + ticks_used)) (idle_ticks g)
    (if user then u64 (user_ticks g + ticks_used) else user_ticks g)
    (if user then kernel_ticks g else u64 (kernel_ticks g + ticks_used))
    (if voluntary then preempt_count g else u64 (preempt_count g + 1))
    (if voluntary then u64 (yield_count g + 1) else yield_count g).

Definition sched_stats_account (proc ticks_used voluntary : Z) : M unit :=
  if proc =? NULL then mret tt else
  p ← deref proc;
  if MAX_PROCESSES <=? pid p then mret tt else
  if negb (in_range (pid p) MAX_PROCESSES) then fault else
  now ← gets tick_count;
  on_tables (fun t =>
    set_global_stats (account_global ticks_used (c_true voluntary) (ptype p =? PROCESS_USER) (global_stats t))
      (set_proc_stats ((proc_stats t).[pid p <- account_stat ticks_used (c_true voluntary) now (proc_stats t).[pid p]]) t)).

(** A pointer into the table, [NIL] for none. *)
Definition sched_get_proc_stats (number : Z) : Z := if MAX_PROCESSES <=? number then NIL else number.
Definition sched_get_global_stats : M sched_global_stats := get_tables global_stats.

(** ** Batch jobs *)

Definition sched_batch_init : M unit :=
  on_tables (fun t => set_batch_job_count 0 (set_batch_jobs (replicate 32 (mk_job 0 0 0 0)) t)).

Definition put_job (i count : Z) (j : batch_job) : M unit :=
  on_tables (fun t => set_batch_job_count count (set_batch_jobs ((batch_jobs t).[i <- j]) t)).
Definition job_used (j : batch_job) : bool := c_true (j_used j).

Definition sched_batch_add (number prio est : Z) : M Z :=
  jobs ← get_tables batch_jobs;
  count ← get_tables batch_job_count;
  match List.find (fun i => negb (job_used jobs.[i])) (range 0 BATCH_MAX_JOBS) with
  | Some i =>
      put_job i (u32 (count + 1)) (mk_job number prio est 1) ;;
      proc ← sched_find_process number;
      (if proc =? NULL then mret tt else
       update proc (fun p => set_sched_policy (Z.lor (sched_policy p) PROCESS_BATCH) p) ;;
       if prio <? SCHED_PRIORITY_MAX then sched_set_priority proc prio ;; mret tt else mret tt) ;;
      mret 0
  | None => mret (-1)
  end.

Definition sched_batch_remove (number : Z) : M Z :=
  jobs ← get_tables batch_jobs;
  count ← get_tables batch_job_count;
  match List.find (fun i => job_used jobs.[i] && (j_pid jobs.[i] =? number)) (range 0 BATCH_MAX_JOBS) with
  | Some i => put_job i (u32 (count - 1)) (mk_job 0 (j_priority jobs.[i]) (est_runtime jobs.[i]) 0) ;; mret 0
  | None => mret (-1)
  end.

(** Both branches of the code do nothing. *)
Definition sched_batch_tick : M unit := _ ← sched_get_avg_load; mret tt.

(** ** Policies *)

Definition pick_next_rt : M Z := first_nonnull rt_refs queue_pop_front.
Definition pick_next_mlfq : M Z := first_nonnull mlfq_refs queue_pop_front.

Definition enqueue_rt (proc : Z) : M unit := p ← deref proc; queue_add (Rt (rt_level p)) proc.
Definition enqueue_mlfq (proc : Z) : M unit := p ← deref proc; queue_add (Mlfq (mlfq_level p)) proc.
Definition dequeue_rt (proc : Z) : M unit := p ← deref proc; queue_remove (Rt (rt_level p)) proc ;; mret tt.
Definition dequeue_mlfq (proc : Z) : M unit := p ← deref proc; queue_remove (Mlfq (queue_level p)) proc ;; mret tt.

Definition tick_rt (proc : Z) : M unit := p ← deref proc; if time_slice p <=? 0 then schedule else mret tt.
Definition tick_mlfq (proc : Z) : M unit :=
  p ← deref proc;
  if time_slice p <=? 0 then
    (if queue_level p <? SCHED_QUEUE_COUNT - 1 then update proc (set_queue_level (queue_level p + 1)) else mret tt) ;;
    schedule
  else mret tt.

Definition task_new_generic (proc : Z) : M unit := mret tt.
Definition task_wakeup_generic (proc : Z) : M unit :=
  if proc =? NULL then mret tt else
  p ← deref proc;
  if 0 <? queue_level p then update proc (set_queue_level (queue_level p - 1)) else mret tt.

(** [None] is a null function pointer; the description is left out. *)
Record policy := mk_policy {
  po_name : string; policy_flag : Z; pick_next : option (M Z); enqueue : option (Z -> M unit);
  dequeue : option (Z -> M unit); task_tick : option (Z -> M unit); task_new : Z -> M unit;
  task_wakeup : Z -> M unit; time_granularity : Z; wakeup_granularity : Z; latency : Z; preemptible : Z;
}.

Definition sched_policies : list policy :=
  [mk_policy "RT" PROCESS_REAL_TIME (Some pick_next_rt) (Some enqueue_rt) (Some dequeue_rt) (Some tick_rt)
     task_new_generic task_wakeup_generic 1 1 1 1;
   mk_policy "Normal" PROCESS_NORMAL (Some pick_next_mlfq) (Some enqueue_mlfq) (Some dequeue_mlfq) (Some tick_mlfq)
     task_new_generic task_wakeup_generic sched_min_granularity sched_wakeup_granularity sched_latency 1;
   mk_policy "CFS" PROCESS_CFS (Some sched_cfs_dequeue) (Some sched_cfs_enqueue) None (Some sched_cfs_tick)
     task_new_generic task_wakeup_generic sched_min_granularity sched_wakeup_granularity sched_latency 1;
   mk_policy "Deadline" PROCESS_DEADLINE (Some sched_dl_dequeue) (Some sched_dl_enqueue) None (Some sched_dl_tick)
     task_new_generic task_wakeup_generic 1 1 1 1;
   mk_policy "Batch" PROCESS_BATCH (Some pick_next_mlfq) (Some enqueue_mlfq) (Some dequeue_mlfq) (Some tick_mlfq)
     task_new_generic task_wakeup_generic 50 20 100 0;
   mk_policy "Idle" PROCESS_IDLE_PRIO None None None None task_new_generic task_wakeup_generic 100 100 100 0].

Definition sched_get_policy_by_flag (flag : Z) : option policy :=
  List.find (fun p => has (policy_flag p) flag) sched_policies.
Definition sched_get_policy_name (flag : Z) : string :=
  match sched_get_policy_by_flag flag with Some p => po_name p | None => "Unknown" end.

(** ** Frequency *)

Definition SCHED_ENERGY_PERF_BIAS_BALANCED : Z := 6.

Definition on_energy (f : energy_profile -> energy_profile) : M unit :=
  on_tables (fun t => set_energy_prof (f (energy_prof t)) t).

Definition sched_energy_init : M unit :=
  on_energy (fun _ => mk_energy 100 100 50 0 SCHED_ENERGY_PERF_BIAS_BALANCED 0 0 0).

Definition account_energy (is_busy : bool) (e : energy_profile) : energy_profile :=
  let busy := if is_busy then u64 (busy_cycles e + 1) else busy_cycles e in
  let idle := if is_busy then idle_cycles e else u64 (idle_cycles e + 1) in
  let total := u64 (busy + idle) in
  let percent := if 100 <? total then u32 (u64 (idle * 100) / total) else idle_percent e in
  let freq :=
    if c_true (power_save_mode e) then
      if (70 <? percent) && (min_freq e <? current_freq e) then current_freq e - 1
      else if (percent <? 30) && (current_freq e <? max_freq e) then current_freq e + 1
      else current_freq e
    else current_freq e in
  mk_energy freq (max_freq e) (min_freq e) percent (energy_perf_bias e) (power_save_mode e) idle busy.
Definition sched_energy_account_tick (is_busy : Z) : M unit := on_energy (account_energy (c_true is_busy)).

Definition sched_energy_estimate_capacity : M Z :=
  get_tables (fun t => u32 (1024 * current_freq (energy_prof t)) / 100).

Definition perf_bias (bias : Z) (e : energy_profile) : energy_profile :=
  let bias := if bias <? 0 then 0 else bias in
  let bias := if 15 <? bias then 15 else bias in
  mk_energy
    (if bias <=? 3 then max_freq e
     else if 12 <=? bias then u32 (min_freq e + 10)
     else u32 (min_freq e + u32 (u32 (max_freq e - min_freq e) * (15 - bias)) / 15))
    (max_freq e) (min_freq e) (idle_percent e) bias (power_save_mode e) (idle_cycles e) (busy_cycles e).
Definition sched_set_energy_perf_bias (bias : Z) : M unit := on_energy (perf_bias bias).
Definition sched_get_energy_perf_bias : M Z := get_tables (fun t => s32 (energy_perf_bias (energy_prof t))).

Definition sched_set_power_save (enable : Z) : M unit :=
  on_energy (fun e => mk_energy (current_freq e) (max_freq e) (min_freq e) (idle_percent e)
    (energy_perf_bias e) enable (idle_cycles e) (busy_cycles e)).

Definition sched_power_idle_tick : M unit :=
  spinlock_irq_save ;;
  cur ← gets current;
  idle ← gets idle_task;
  sched_energy_account_tick (c_bool (negb (cur =? NULL) && negb (cur =? idle))) ;;
  spinlock_irq_restore.

(** ** Tunable parameters and the domain *)

Definition sched_tunables_init : M unit :=
  on_tables (set_sched_tunables
    (mk_tunables 10000000 20000000 4000000 500000 32 5000 1000000 950000 0)).

(** The parameter of each name that the code accepts; the name is not null. *)
Definition set_tunable (name : string) (v : Z) (t : sched_tunables_t) : option sched_tunables_t :=
  let 'mk_tunables mg la wg mc nm bs rp rr cf := t in
  if String.eqb name "min_granularity" then Some (mk_tunables v la wg mc nm bs rp rr cf)
  else if String.eqb name "latency" then Some (mk_tunables mg v wg mc nm bs rp rr cf)
  else if String.eqb name "wakeup_granularity" then Some (mk_tunables mg la v mc nm bs rp rr cf)
  else if String.eqb name "migration_cost" then Some (mk_tunables mg la wg v nm bs rp rr cf)
  else if String.eqb name "nr_migrate" then Some (mk_tunables mg la wg mc v bs rp rr cf)
  else if String.eqb name "rt_period" then Some (mk_tunables mg la wg mc nm bs v rr cf)
  else if String.eqb name "rt_runtime" then Some (mk_tunables mg la wg mc nm bs rp v cf)
  else None.
Definition sched_set_tunable (name : string) (v : Z) : M Z :=
  t ← get_tables sched_tunables;
  match set_tunable name v t with
  | Some t' => on_tables (set_sched_tunables t') ;; mret 0
  | None => mret (-1)
  end.

Definition sched_domain_init : M unit := on_tables (set_root_domain (mk_domain 0 0 1 1 0 1024)).

(** ** Initialisation of all the tables *)

Definition sched_extended_init : M unit :=
  sched_cfs_init ;; sched_load_init ;; sched_pg_init ;; sched_dl_init ;; sched_pi_init ;;
  sched_stats_init ;; sched_batch_init ;; sched_energy_init ;; sched_tunables_init ;;
  sched_domain_init ;;
  on_tables (set_proc_affinity (replicate 256 (mk_affinity 1 1))).

(** ** The load average *)

(** The samples in the window, oldest first. *)
Definition recent (l : load_stat) : list Z :=
  drop (Z.to_nat (window_pos l)) (cpu_load l) ++ take (Z.to_nat (window_pos l)) (cpu_load l).

Definition clip (load : Z) : Z := if 100 <? load then 100 else load.

Record load_ok (l : load_stat) : Prop := {
  lo_len : length (cpu_load l) = 100%nat;
  lo_pos : 0 <= window_pos l < SCHED_LOAD_WINDOW;
  lo_val : Forall (fun x => 0 <= x <= 100) (cpu_load l);
}.

Lemma zsum_bounds (b : Z) (l : list Z) : Forall (fun x => 0 <= x <= b) l -> 0 <= zsum l <= b * zlen l.
Proof. induction 1 as [|x l Hx _ IH]; [unfold zlen, zsum; simpl; lia|]. rewrite zsum_cons, zlen_cons. lia. Qed.

(** The summing loop does not wrap. *)
Lemma sum_loop (w : list Z) :
  length w = 100%nat -> Forall (fun x => 0 <= x <= 100) w ->
  foldl (fun sum i => u64 (sum + w.[i])) 0 (range 0 SCHED_LOAD_WINDOW) = zsum w.
Proof.
  intros Hl Hw. change SCHED_LOAD_WINDOW with (Z.of_nat 100).
  assert (forall n, (n <= 100)%nat -> foldl (fun sum i => u64 (sum + w.[i])) 0 (range 0 (Z.of_nat n)) = zsum (take n w)) as H.
  { induction n as [|n IH]; intros Hn; [done|]. rewrite foldl_range_S, IH by lia.
    destruct (lookup_lt_is_Some_2 w n) as [x Hx]; [lia|].
    rewrite (take_S_r w n x), zsum_app by done. unfold aget. rewrite Nat2Z.id, (list_lookup_total_correct _ _ x) by done.
    change (zsum [x]) with (x + 0). rewrite Z.add_0_r. unfold u64. apply Z.mod_small.
    pose proof (zsum_bounds 100 (take n w) ltac:(by apply Forall_take)) as Hs.
    assert (zlen (take n w) <= 100) by (unfold zlen; rewrite length_take; lia).
    pose proof (Forall_lookup_1 _ w n x Hw Hx) as Hb. simpl in Hb. lia. }
  rewrite H, take_ge by lia. done.
Qed.

Lemma clip_bounds (load : Z) : 0 <= load -> 0 <= clip load <= 100.
Proof. intros H. unfold clip. case_if; lia. Qed.

Lemma zsum_rotate (l : list Z) (n : nat) : zsum (drop n l ++ take n l) = zsum l.
Proof. rewrite zsum_app, Z.add_comm, <-zsum_app. by rewrite take_drop. Qed.

(** Replacing the oldest sample. *)
Lemma rotate_insert (w : list Z) (n : nat) (x : Z) :
  (n < length w)%nat ->
  drop (S n) (<[n := x]> w) ++ take (S n) (<[n := x]> w) = tail (drop n w ++ take n w) ++ [x].
Proof.
  intros Hn. destruct (lookup_lt_is_Some_2 w n Hn) as [y Hy].
  rewrite (drop_S w y n Hy). rewrite drop_insert_lt by lia.
  rewrite (take_S_r _ n x) by (by apply list_lookup_insert_eq). rewrite take_insert_ge by lia. simpl. by rewrite app_assoc.
Qed.

Lemma load_sample_spec (load : Z) (l : load_stat) :
  0 <= load -> load_ok l ->
  load_ok (load_sample load l) /\ recent (load_sample load l) = tail (recent l) ++ [clip load] /\
  avg_load (load_sample load l) = zsum (recent (load_sample load l)) / 100.
Proof.
  intros Hx [Hl Hp Hv]. unfold SCHED_LOAD_WINDOW in *.
  set (w := (cpu_load l).[window_pos l <- clip load]).
  assert (length w = 100%nat) as Hlw by (unfold w, aset; by rewrite length_insert).
  assert (Forall (fun x => 0 <= x <= 100) w) as Hw by (apply aset_Forall; [done|by apply clip_bounds]).
  assert (load_ok (load_sample load l)) as Hok.
  { constructor; [exact Hlw| |exact Hw]. apply Z.mod_pos_bound. unfold SCHED_LOAD_WINDOW. lia. }
  split_and!; [exact Hok| |].
  - change (drop (Z.to_nat ((window_pos l + 1) mod 100)) w ++ take (Z.to_nat ((window_pos l + 1) mod 100)) w = tail (recent l) ++ [clip load]).
    unfold recent. rewrite <-(rotate_insert (cpu_load l)) by (rewrite Hl; lia). change (<[_ := _]> (cpu_load l)) with w.
    destruct (Z.eq_dec (window_pos l) 99) as [E|E].
    + rewrite E. change (drop 0 w ++ take 0 w = drop 100 w ++ take 100 w).
      rewrite (drop_ge w 100), (take_ge w 100) by lia. change (drop 0 w ++ take 0 w) with (w ++ []). by rewrite app_nil_r.
    + rewrite Z.mod_small by lia. by rewrite <-Z2Nat.inj_succ by lia.
  - unfold recent. rewrite zsum_rotate.
    change (u32 (foldl (fun sum i => u64 (sum + w.[i])) 0 (range 0 SCHED_LOAD_WINDOW) / 100) = zsum w / 100).
    rewrite sum_loop by done. pose proof (zsum_bounds 100 w Hw) as Hb. unfold zlen in Hb. rewrite Hlw in Hb.
    apply u32_small. unfold is_u32. dlia.
Qed.

(** The samples of a run, newest last. *)
Definition sampled (loads : list Z) (l : load_stat) : load_stat := foldl (fun l x => load_sample x l) l loads.

Lemma sampled_recent (loads : list Z) (l : load_stat) :
  Forall (fun x => 0 <= x) loads -> load_ok l ->
  load_ok (sampled loads l) /\ recent (sampled loads l) = drop (length loads) (recent l ++ (clip <$> loads)).
Proof.
  intros Hx Hl. revert l Hl. induction Hx as [|x loads Hx _ IH]; intros l Hl.
  - split; [done|]. simpl. by rewrite app_nil_r.
  - destruct (load_sample_spec x l Hx Hl) as (Hok & Hr & _). destruct (IH _ Hok) as [Hok' Hr'].
    split; [done|]. simpl. rewrite Hr', Hr, <-app_assoc.
    assert (length (recent l) = 100%nat) as Hlen.
    { unfold recent. rewrite length_app, length_drop, length_take, (lo_len l Hl).
      pose proof (lo_pos l Hl). unfold SCHED_LOAD_WINDOW in *. lia. }
    destruct (recent l) as [|y r] eqn:E; [done|]. done.
Qed.

(** The average after any samples: the mean of the last hundred, idle time before the first
    sample counting as samples of zero. *)
Lemma load_average_spec (loads : list Z) (x : Z) :
  Forall (fun x => 0 <= x) (loads ++ [x]) ->
  let l := sampled (loads ++ [x]) (mk_load (replicate 100 0) 0 0) in
  avg_load l = zsum (drop (length (loads ++ [x])) (replicate 100 0 ++ (clip <$> loads ++ [x]))) / 100 /\
  0 <= avg_load l <= 100.
Proof.
  intros Hx. assert (load_ok (mk_load (replicate 100 0) 0 0)) as H0.
  { constructor; [done|unfold SCHED_LOAD_WINDOW; simpl; lia|]. apply Forall_replicate. lia. }
  destruct (sampled_recent (loads ++ [x]) _ Hx H0) as [Hok Hr].
  apply Forall_app in Hx as [Hl Hx]. rewrite Forall_singleton in Hx.
  destruct (sampled_recent loads _ Hl H0) as [Hok' _].
  cbv zeta. change (replicate 100 0) with (recent (mk_load (replicate 100 0) 0 0)) at 2.
  rewrite <-Hr. unfold sampled in *. rewrite foldl_snoc in *.
  destruct (load_sample_spec x _ Hx Hok') as (_ & _ & Ha). split; [done|]. rewrite Ha.
  unfold recent. rewrite zsum_rotate. pose proof (zsum_bounds 100 _ (lo_val _ Hok)) as Hb.
  unfold zlen in Hb. rewrite (lo_len _ Hok) in Hb. dlia.
Qed.

(** ** Affinity *)

Lemma affinity_bit (mask i : Z) : is_u32 mask -> 0 <= i < 32 -> bit_set mask i = Z.testbit mask i.
Proof.
  intros Hm Hi. unfold bit_set. rewrite u32_small.
  2: { unfold is_u32. rewrite Z.shiftl_1_l. split; [apply Z.pow_nonneg; lia|apply Z.pow_lt_mono_r; lia]. }
  destruct (Z.testbit mask i) eqn:Eb.
  - apply negb_true_iff, Z.eqb_neq. intros E. apply (f_equal (fun z => Z.testbit z i)) in E.
    rewrite Z.land_spec, Eb, testbit_one_shl, Z.bits_0, Z.eqb_refl in E by lia. done.
  - apply negb_false_iff, Z.eqb_eq. apply Z.bits_inj_0. intros j.
    rewrite Z.land_spec. destruct (Z.lt_ge_cases j 0) as [Hj|Hj]; [by rewrite Z.testbit_neg_r|].
    rewrite testbit_one_shl by lia. destruct (Z.eqb_spec i j) as [<-|]; [by rewrite Eb|apply andb_false_r].
Qed.

(** The counting loop counts the bits of the mask. *)
Lemma affinity_count (mask : Z) :
  is_u32 mask ->
  foldl (fun n i => if bit_set mask i then u32 (n + 1) else n) 0 (range 0 32) = zcount (Z.testbit mask) (range 0 32).
Proof.
  intros Hm. assert (forall l n, 0 <= n -> n + zlen l < 2 ^ 32 -> (forall i, i ∈ l -> 0 <= i < 32) ->
    foldl (fun n i => if bit_set mask i then u32 (n + 1) else n) n l = n + zcount (Z.testbit mask) l) as H.
  { induction l as [|i l IH]; intros n Hn Hb Hl; [unfold zcount, zlen; simpl; lia|].
    rewrite zlen_cons in Hb. pose proof (zlen_nonneg l). rewrite zcount_cons. simpl.
    rewrite affinity_bit by (done || apply Hl; left). destruct (Z.testbit mask i).
    - rewrite u32_small by (unfold is_u32; lia). rewrite IH; [lia|lia|lia|]. intros j Hj. apply Hl. by right.
    - rewrite IH; [lia|lia|lia|]. intros j Hj. apply Hl. by right. }
  rewrite H; [lia|lia|by vm_compute|]. intros i Hi. by apply elem_of_range.
Qed.

(** ** Statistics *)

(** The runs of a process, each with its length and whether it ended voluntarily. *)
Definition accounted (runs : list (Z * bool)) (now : Z) : sched_stat :=
  foldl (fun st r => account_stat r.1 r.2 now st) fresh_stat runs.

Record stat_of (runs : list (Z * bool)) (st : sched_stat) : Prop := {
  so_count : sched_count st = zlen runs;
  so_switches : context_switches st = zlen runs;
  so_total : total_runtime st = zsum (fst <$> runs);
  so_voluntary : voluntary_ctx st = zcount snd runs;
  so_involuntary : voluntary_ctx st + involuntary_ctx st = zlen runs;
  so_max : Forall (fun r => r.1 <= max_runtime st) runs;
  so_min : Forall (fun r => min_runtime st <= r.1) runs;
  so_range : Forall (fun r => 0 <= r.1 < 2 ^ 31) runs;
}.

Lemma zcount_snoc {A} (f : A -> bool) (l : list A) (x : A) :
  zcount f (l ++ [x]) = zcount f l + (if f x then 1 else 0).
Proof. unfold zcount. rewrite List.filter_app, zlen_app. simpl. by destruct (f x). Qed.

Lemma account_stat_of (runs : list (Z * bool)) (st : sched_stat) (t now : Z) (v : bool) :
  stat_of runs st -> 0 <= t < 2 ^ 31 -> zlen runs < 2 ^ 32 -> stat_of (runs ++ [(t, v)]) (account_stat t v now st).
Proof.
  intros [Hc Hs Ht Hv Hi Hx Hm Hr] Hb Hn. pose proof (zlen_nonneg runs) as H0.
  assert (0 <= zsum (fst <$> runs) <= (2 ^ 31 - 1) * zlen runs) as Hsum.
  { replace (zlen runs) with (zlen (fst <$> runs)) by (unfold zlen; by rewrite length_fmap).
    apply zsum_bounds. apply Forall_fmap.
    eapply Forall_impl; [exact Hr|]. intros [a w]; simpl. lia. }
  pose proof (zcount_bounds snd runs) as Hz. unfold account_stat. rewrite Hc, Hs, Ht, Hv.
  assert (u64 t = t) as -> by (unfold u64; apply Z.mod_small; lia).
  assert (u64 (zlen runs + 1) = zlen runs + 1) as -> by (unfold u64; apply Z.mod_small; lia).
  assert (u64 (zsum (fst <$> runs) + t) = zsum (fst <$> runs) + t) as -> by (unfold u64; apply Z.mod_small; lia).
  constructor; cbn [sched_count context_switches total_runtime voluntary_ctx involuntary_ctx max_runtime min_runtime].
  - by rewrite zlen_app.
  - by rewrite zlen_app.
  - rewrite fmap_app, zsum_app. change (zsum (fst <$> [(t, v)])) with (t + 0). lia.
  - rewrite zcount_snoc. simpl. destruct v; [unfold u64; apply Z.mod_small; lia|lia].
  - rewrite zlen_app. change (zlen [(t, v)]) with 1. destruct v.
    + unfold u64. rewrite Z.mod_small by lia. lia.
    + unfold u64. rewrite Z.mod_small by lia. lia.
  - apply Forall_app. split; [|apply Forall_singleton; simpl; case_if; lia].
    eapply Forall_impl; [exact Hx|]. intros r; simpl. case_if; lia.
  - apply Forall_app. split; [|apply Forall_singleton; simpl; case_if; lia].
    eapply Forall_impl; [exact Hm|]. intros r; simpl. case_if; lia.
  - apply Forall_app. split; [done|]. by apply Forall_singleton.
Qed.

(** ** Frequency *)

Record energy_ok (e : energy_profile) : Prop := {
  en_min : 0 <= min_freq e;
  en_max : min_freq e + 10 <= max_freq e <= 2 ^ 20;
  en_freq : min_freq e <= current_freq e <= max_freq e;
}.

Lemma account_energy_ok (busy : bool) (e : energy_profile) : energy_ok e -> energy_ok (account_energy busy e).
Proof.
  intros [H1 H2 H3]. unfold account_energy. constructor; cbn [min_freq max_freq current_freq]; [lia|lia|].
  destruct (c_true _); [|lia]. repeat (case_if; zbool); lia.
Qed.

Lemma perf_bias_ok (bias : Z) (e : energy_profile) : energy_ok e -> energy_ok (perf_bias bias e).
Proof.
  intros [H1 H2 H3]. unfold perf_bias. constructor; cbn [min_freq max_freq current_freq]; [lia|lia|].
  set (b := if 15 <? _ then 15 else _).
  assert (0 <= b <= 15) as Hb by (unfold b; repeat case_if; lia). clearbody b.
  case_if; [lia|]. case_if; [rewrite u32_small by (unfold is_u32; lia); lia|].
  rewrite (u32_small (max_freq e - min_freq e)) by (unfold is_u32; lia).
  rewrite (u32_small ((max_freq e - min_freq e) * (15 - b))) by (unfold is_u32; nia).
  assert (0 <= (max_freq e - min_freq e) * (15 - b) / 15 <= max_freq e - min_freq e) as Hq by (split; [apply Z.div_pos|apply Z.div_le_upper_bound]; nia).
  rewrite u32_small by (unfold is_u32; lia). lia.
Qed.

(** ** Batch jobs *)

Definition jobs_ok (t : sched_tables) : Prop :=
  length (batch_jobs t) = 32%nat /\ batch_job_count t = zcount job_used (batch_jobs t).

Lemma zcount_insert {A} (f : A -> bool) (l : list A) (i : nat) (x y : A) :
  l !! i = Some x -> zcount f (<[i := y]> l) = zcount f l - (if f x then 1 else 0) + (if f y then 1 else 0).
Proof.
  intros Hx. rewrite <-(take_drop_middle l i x Hx) at 2.
  rewrite insert_take_drop by (by eapply lookup_lt_Some). unfold zcount.
  rewrite !List.filter_app, !zlen_app. simpl. destruct (f x), (f y); rewrite ?zlen_cons; lia.
Qed.

(** Storing a job over a free entry, or clearing an entry in use, keeps the count. *)
Lemma put_job_ok (t : sched_tables) (i : Z) (j : batch_job) (d : Z) :
  jobs_ok t -> 0 <= i < 32 ->
  d = (if job_used j then 1 else 0) - (if job_used (batch_jobs t).[i] then 1 else 0) ->
  jobs_ok (set_batch_job_count (u32 (batch_job_count t + d)) (set_batch_jobs ((batch_jobs t).[i <- j]) t)).
Proof.
  intros [Hl Hc] Hi Hd. split; cbn; unfold aset; [by rewrite length_insert|].
  destruct (lookup_lt_is_Some_2 (batch_jobs t) (Z.to_nat i)) as [x Hx]; [lia|].
  unfold aget in Hd. rewrite (list_lookup_total_correct _ _ x) in Hd by done.
  rewrite (zcount_insert _ _ _ x), Hc by done. pose proof (zcount_bounds job_used (<[Z.to_nat i := j]> (batch_jobs t))) as Hb.
  rewrite (zcount_insert _ _ _ x) in Hb by done. unfold zlen in Hb. rewrite length_insert, Hl in Hb.
  rewrite u32_small; [lia|]. unfold is_u32. lia.
Qed.
End SchedExt.
