(* ===== verification/SchedQueue.v ===== *)
(** * The ready queues of the scheduler are lists

    [queued s qs]: the head, tail and count of each queue of src/kernel/sched.c and the
    [queue_next] and [queue_prev] pointers of the control blocks represent the lists [qs]
    (the two real-time queues, then the eight queues of the feedback scheduler), no
    process is in two places, and a process outside the queues has null pointers, which
    the membership test of [queue_remove] relies on.  Each queue operation is a list
    operation, and changes nothing but queues and queue pointers ([strip]). *)

From S2P Require Import Prelude FaultM Dll Sync Sched.

(** ** Lists of disjoint lists *)

Lemma NoDup_concat_inj {A} (qs : list (list A)) (i j : nat) (l k : list A) (a : A) :
  NoDup (concat qs) -> qs !! i = Some l -> qs !! j = Some k -> a ∈ l -> a ∈ k -> i = j.
Proof.
  revert i j. induction qs as [|q qs IH]; intros i j Hnd Hi Hj Ha Hb; [done|].
  simpl in Hnd. apply NoDup_app in Hnd as (_ & Hd & Hnd).
  assert (forall n m, qs !! n = Some m -> a ∈ m -> a ∈ concat qs) as Hin.
  { intros n m Hm Ham. apply list_elem_of_In, in_concat. exists m.
    split; apply list_elem_of_In; [by eapply list_elem_of_lookup_2|done]. }
  destruct i as [|i], j as [|j]; simplify_eq/=; [done|exfalso..|f_equal; eauto].
  - apply (Hd a Ha). eauto.
  - apply (Hd a Hb). eauto.
Qed.

Lemma concat_insert_Permutation {A} (qs : list (list A)) (i : nat) (l k : list A) :
  qs !! i = Some l -> concat (<[i := k]> qs) ++ l ≡ₚ concat qs ++ k.
Proof.
  revert i. induction qs as [|q qs IH]; intros [|i] H; simplify_eq/=.
  - solve_Permutation.
  - rewrite <-!app_assoc. by rewrite (IH i H).
Qed.

Lemma elem_of_concat_lookup {A} (qs : list (list A)) (a : A) :
  a ∈ concat qs <-> exists i l, qs !! i = Some l /\ a ∈ l.
Proof.
  rewrite list_elem_of_In, in_concat. split.
  - intros (l & Hl & Ha). apply list_elem_of_In, list_elem_of_lookup in Hl as [i Hi].
    apply list_elem_of_In in Ha. eauto.
  - intros (i & l & Hi & Ha). exists l. split; apply list_elem_of_In; [|done].
    by eapply list_elem_of_lookup_2.
Qed.

(** A list without repetition of keys of a map is not longer than the map. *)
Lemma alive_length {B} (ps : gmap Z B) (l : list Z) :
  NoDup l -> (forall a, a ∈ l -> is_Some (ps !! a)) -> (length l <= size ps)%nat.
Proof.
  intros Hnd Hl. rewrite <-(size_list_to_set (C := gset Z)) by done. rewrite <-(size_dom (D := gset Z)).
  apply subseteq_size. intros a Ha%elem_of_list_to_set. by apply elem_of_dom, Hl.
Qed.

Module SchedQueue.
Export Sched.

(** ** Representation *)

Definition valid_ref (q : qref) : Prop :=
  match q with
  | Rt i => 0 <= i < SCHED_RT_QUEUE_COUNT
  | Mlfq i => 0 <= i < SCHED_QUEUE_COUNT
  end.

Definition qindex (q : qref) : nat :=
  match q with
  | Rt i => Z.to_nat i
  | Mlfq i => Z.to_nat (SCHED_RT_QUEUE_COUNT + i)
  end.

Definition queue_of (s : sched) (q : qref) : sched_queue :=
  match q with
  | Rt i => (rt_queues s).[i]
  | Mlfq i => (mlfq_queues s).[i]
  end.

(** The list of a queue. *)
Definition ready (qs : list (list Z)) (q : qref) : list Z := qs !!! qindex q.
Definition set_ready (q : qref) (l : list Z) (qs : list (list Z)) : list (list Z) := <[qindex q := l]> qs.

Definition qlinks (ps : gmap Z pcb) (a : Z) : option (Z * Z) :=
  (fun p => (queue_prev p, queue_next p)) <$> ps !! a.

Record represents (s : sched) (q : qref) (l : list Z) : Prop := {
  rep_head : q_head (queue_of s q) = first_of NULL l;
  rep_tail : q_tail (queue_of s q) = last_of NULL l;
  rep_count : q_count (queue_of s q) = u32 (zlen l);
  rep_dll : dll NULL (qlinks (procs s)) l;
}.

Record queued (s : sched) (qs : list (list Z)) : Prop := {
  qd_rt : zlen (rt_queues s) = SCHED_RT_QUEUE_COUNT;
  qd_mlfq : zlen (mlfq_queues s) = SCHED_QUEUE_COUNT;
  qd_len : length qs = 10%nat;
  qd_rep : forall q, valid_ref q -> represents s q (ready qs q);
  qd_nodup : NoDup (concat qs);
  qd_null : procs s !! NULL = None;
  qd_free : forall a, is_Some (procs s !! a) -> a ∉ concat qs -> qlinks (procs s) a = Some (NULL, NULL);
}.

(** A control block, and a scheduler, without queues. *)
Definition unlink (p : pcb) : pcb := set_queue_prev NULL (set_queue_next NULL p).
Definition strip (s : sched) : sched :=
  set_procs (unlink <$> procs s) (set_rt_queues [] (set_mlfq_queues [] s)).

(** ** References and lists *)

Lemma qindex_lt (q : qref) : valid_ref q -> (qindex q < 10)%nat.
Proof. destruct q; simpl; unfold SCHED_RT_QUEUE_COUNT, SCHED_QUEUE_COUNT; lia. Qed.

Lemma qindex_inj (q q' : qref) : valid_ref q -> valid_ref q' -> qindex q = qindex q' -> q = q'.
Proof.
  destruct q, q'; simpl; unfold SCHED_RT_QUEUE_COUNT, SCHED_QUEUE_COUNT;
    intros; first [f_equal; lia|exfalso; lia].
Qed.

Lemma ready_lookup (qs : list (list Z)) (q : qref) :
  length qs = 10%nat -> valid_ref q -> qs !! qindex q = Some (ready qs q).
Proof. intros Hl Hq. apply list_lookup_lookup_total_lt. pose proof (qindex_lt q Hq). lia. Qed.

Lemma ready_set_eq (qs : list (list Z)) (q : qref) (l : list Z) :
  length qs = 10%nat -> valid_ref q -> ready (set_ready q l qs) q = l.
Proof.
  intros Hl Hq. unfold ready, set_ready. apply list_lookup_total_insert_eq.
  pose proof (qindex_lt q Hq). lia.
Qed.

Lemma ready_set_ne (qs : list (list Z)) (q q' : qref) (l : list Z) :
  valid_ref q -> valid_ref q' -> q <> q' -> ready (set_ready q l qs) q' = ready qs q'.
Proof.
  intros Hq Hq' Hn. unfold ready, set_ready. apply list_lookup_total_insert_ne.
  intros He. by apply Hn, qindex_inj.
Qed.

Lemma length_set_ready (q : qref) (l : list Z) (qs : list (list Z)) :
  length (set_ready q l qs) = length qs.
Proof. apply length_insert. Qed.

Lemma elem_of_ready (qs : list (list Z)) (q : qref) (a : Z) :
  length qs = 10%nat -> valid_ref q -> a ∈ ready qs q -> a ∈ concat qs.
Proof. intros Hl Hq Ha. apply elem_of_concat_lookup. eauto using ready_lookup. Qed.

Lemma qref_of_index (i : nat) : (i < 10)%nat -> exists q, valid_ref q /\ qindex q = i.
Proof.
  intros Hi. destruct (decide (i < 2)%nat).
  - exists (Rt (Z.of_nat i)). simpl. unfold SCHED_RT_QUEUE_COUNT. lia.
  - exists (Mlfq (Z.of_nat i - 2)). simpl. unfold SCHED_RT_QUEUE_COUNT, SCHED_QUEUE_COUNT. lia.
Qed.

Lemma elem_of_queues (qs : list (list Z)) (a : Z) :
  length qs = 10%nat -> a ∈ concat qs <-> exists q, valid_ref q /\ a ∈ ready qs q.
Proof.
  intros Hl. split; [|intros (q & Hq & Ha); by eapply elem_of_ready].
  intros (i & l & Hi & Ha)%elem_of_concat_lookup.
  destruct (qref_of_index i) as (q & Hq & Hqi); [rewrite <-Hl; by eapply lookup_lt_Some|].
  exists q. split; [done|]. unfold ready. rewrite Hqi. by rewrite (list_lookup_total_correct _ _ _ Hi).
Qed.

Lemma ready_inj (qs : list (list Z)) (q q' : qref) (a : Z) :
  length qs = 10%nat -> NoDup (concat qs) -> valid_ref q -> valid_ref q' ->
  a ∈ ready qs q -> a ∈ ready qs q' -> q = q'.
Proof.
  intros Hl Hnd Hq Hq' Ha Ha'. apply qindex_inj; [done|done|].
  eapply NoDup_concat_inj; eauto using ready_lookup.
Qed.

Lemma NoDup_ready (qs : list (list Z)) (q : qref) :
  length qs = 10%nat -> NoDup (concat qs) -> valid_ref q -> NoDup (ready qs q).
Proof.
  intros Hl Hnd Hq. pose proof (concat_insert_Permutation qs (qindex q) _ [] (ready_lookup qs q Hl Hq)) as HP.
  rewrite app_nil_r in HP. rewrite <-HP in Hnd. by apply NoDup_app in Hnd as (_ & _ & ?).
Qed.

Lemma set_ready_Permutation (qs : list (list Z)) (q : qref) (l : list Z) :
  length qs = 10%nat -> valid_ref q -> concat (set_ready q l qs) ++ ready qs q ≡ₚ concat qs ++ l.
Proof. intros. by apply concat_insert_Permutation, ready_lookup. Qed.

(** ** Queues with one list changed *)

Lemma put_queue_same (s : sched) (q : qref) (v : sched_queue) :
  zlen (rt_queues s) = SCHED_RT_QUEUE_COUNT -> zlen (mlfq_queues s) = SCHED_QUEUE_COUNT ->
  valid_ref q ->
  exists s', put_queue q v s = Some (tt, s') /\ queue_of s' q = v /\
    (forall q', valid_ref q' -> q' <> q -> queue_of s' q' = queue_of s q') /\
    procs s' = procs s /\ strip s' = strip s /\
    zlen (rt_queues s') = SCHED_RT_QUEUE_COUNT /\ zlen (mlfq_queues s') = SCHED_QUEUE_COUNT.
Proof.
  intros Hr Hm Hq. destruct q as [i|i]; eexists; (split; [reflexivity|]); simpl in *.
  all: rewrite zlen_aset, aget_aset_eq by lia.
  all: split; [done|]; split; [|done].
  all: intros [j|j] Hj Hn; simpl in *; try done.
  all: apply aget_aset_ne; [lia..|]; by intros ->.
Qed.

Lemma get_queue_spec (s : sched) (q : qref) :
  valid_ref q -> get_queue q s = Some (queue_of s q, s).
Proof.
  destruct q as [i|i]; simpl; unfold in_range; intros Hi;
    destruct (Z.leb_spec 0 i), (Z.ltb_spec i SCHED_RT_QUEUE_COUNT), (Z.ltb_spec i SCHED_QUEUE_COUNT);
    (done || lia).
Qed.

Lemma represents_frame (s s' : sched) (q : qref) (l : list Z) :
  represents s q l -> queue_of s' q = queue_of s q ->
  (forall a, a ∈ l -> qlinks (procs s') a = qlinks (procs s) a) -> represents s' q l.
Proof.
  intros [H1 H2 H3 H4] He Hl. split; [by rewrite He..|]. by eapply dseg_ext.
Qed.

Lemma strip_dom (s s' : sched) (a : Z) :
  strip s' = strip s -> is_Some (procs s' !! a) <-> is_Some (procs s !! a).
Proof.
  intros He. assert (unlink <$> procs s' = unlink <$> procs s) as Hp.
  { change (procs (strip s') = procs (strip s)). by rewrite He. }
  rewrite <-(fmap_is_Some unlink), <-lookup_fmap, Hp, lookup_fmap. apply fmap_is_Some.
Qed.

Lemma queued_change (s s' : sched) (qs : list (list Z)) (q : qref) (l : list Z) :
  queued s qs -> valid_ref q -> strip s' = strip s ->
  zlen (rt_queues s') = SCHED_RT_QUEUE_COUNT -> zlen (mlfq_queues s') = SCHED_QUEUE_COUNT ->
  (forall q', valid_ref q' -> q' <> q -> queue_of s' q' = queue_of s q') ->
  represents s' q l -> NoDup l ->
  (forall a, a ∈ l -> a ∈ concat qs -> a ∈ ready qs q) ->
  (forall a, a ∉ l -> qlinks (procs s') a =
     if decide (a ∈ ready qs q) then Some (NULL, NULL) else qlinks (procs s) a) ->
  queued s' (set_ready q l qs).
Proof.
  intros [Hr Hm Hl Hrep Hnd Hnull Hfree] Hq Hs Hr' Hm' Hoth Hrq Hndl Hsub Hlk.
  assert (forall q' a, valid_ref q' -> q' <> q -> a ∈ ready qs q' -> a ∉ ready qs q /\ a ∉ l) as Hdis.
  { intros q' a Hq' Hn Ha. assert (a ∉ ready qs q) by (intros Ha'; eapply Hn, (ready_inj qs q' q a); done).
    split; [done|]. intros Hal. apply (Hsub a) in Hal; [done|]. by eapply elem_of_ready. }
  assert (concat (set_ready q l qs) ++ ready qs q ≡ₚ concat qs ++ l) as HP
    by (by apply set_ready_Permutation).
  constructor; try done.
  - by rewrite length_set_ready.
  - intros q' Hq'. destruct (decide (q' = q)) as [->|Hn]; [by rewrite ready_set_eq|].
    rewrite ready_set_ne by (try done; congruence).
    eapply represents_frame; [by apply Hrep|by apply Hoth|]. intros a Ha.
    destruct (Hdis q' a Hq' Hn Ha). rewrite Hlk by done. by rewrite decide_False.
  - pose proof (set_ready_Permutation qs q [] Hl Hq) as HP0. rewrite app_nil_r in HP0.
    assert (concat (set_ready q l qs) ≡ₚ concat (set_ready q [] qs) ++ l) as HP1.
    { apply (Permutation_app_inv_r (ready qs q)). rewrite HP, <-HP0. solve_Permutation. }
    rewrite <-HP0 in Hnd. apply NoDup_app in Hnd as (Hnd0 & Hd0 & _).
    rewrite HP1. apply NoDup_app. split_and!; [done| |done].
    intros a Ha Hal. apply (Hd0 a Ha). apply Hsub; [done|]. rewrite <-HP0. set_solver.
  - assert (¬ is_Some (procs s' !! NULL)) as Hno by (rewrite (strip_dom s s') by done; rewrite Hnull; by intros [? ?]).
    destruct (procs s' !! NULL); [|done]. by destruct Hno.
  - intros a Ha Hna. assert (a ∉ l) as Hal.
    { intros Hal. apply Hna, (elem_of_ready _ q); [by rewrite length_set_ready|done|].
      by rewrite ready_set_eq. }
    rewrite Hlk by done. destruct (decide (a ∈ ready qs q)); [done|].
    apply Hfree; [by rewrite <-(strip_dom s s')|]. intros Hac.
    assert (a ∈ concat (set_ready q l qs) ++ ready qs q) as Hin by (rewrite HP; set_solver).
    set_solver.
Qed.

(** ** Symbolic execution *)

Lemma wp_deref (a : Z) (p : pcb) (Q : pcb -> sched -> Prop) (s : sched) :
  procs s !! a = Some p -> Q p s -> wp (deref a) Q s.
Proof. intros Hp HQ. unfold deref. wp_run. by eapply wp_of_option. Qed.

Lemma wp_update (a : Z) (f : pcb -> pcb) (p : pcb) (Q : unit -> sched -> Prop) (s : sched) :
  procs s !! a = Some p -> Q tt (set_procs (<[a := f p]> (procs s)) s) -> wp (update a f) Q s.
Proof. intros Hp HQ. unfold update, store. wp_run. eapply wp_deref; [done|]. by wp_run. Qed.

Lemma wp_get_queue (q : qref) (Q : sched_queue -> sched -> Prop) (s : sched) :
  valid_ref q -> Q (queue_of s q) s -> wp (get_queue q) Q s.
Proof. intros Hq HQ. eapply wp_intro; [by apply get_queue_spec|done]. Qed.

(** ** Queue operations *)

Lemma strip_store (s : sched) (a : Z) (p p' : pcb) :
  procs s !! a = Some p -> unlink p' = unlink p ->
  strip (set_procs (<[a := p']> (procs s)) s) = strip s.
Proof.
  intros Hp Hu. change (set_procs (unlink <$> <[a := p']> (procs s)) (strip s) = strip s).
  rewrite fmap_insert, Hu, insert_id; [done|]. by rewrite lookup_fmap, Hp.
Qed.

Lemma qlinks_insert (ps : gmap Z pcb) (a b : Z) (p : pcb) :
  qlinks (<[a := p]> ps) b =
    if decide (b = a) then Some (queue_prev p, queue_next p) else qlinks ps b.
Proof.
  unfold qlinks. destruct (decide (b = a)) as [->|]; [by rewrite lookup_insert_eq|].
  by rewrite lookup_insert_ne by done.
Qed.

Lemma queued_alive (s : sched) (qs : list (list Z)) (a : Z) :
  queued s qs -> a ∈ concat qs -> exists p, procs s !! a = Some p.
Proof.
  intros [_ _ Hl Hrep _ _ _] Ha. apply elem_of_queues in Ha as (q & Hq & Ha); [|done].
  destruct (Hrep q Hq) as [_ _ _ Hd]. eapply dseg_links in Hd as [x Hx]; [|done].
  apply fmap_Some in Hx as (p & Hp & _). eauto.
Qed.

Lemma queued_nonnull (s : sched) (qs : list (list Z)) : queued s qs -> NULL ∉ concat qs.
Proof. intros Hq Ha. destruct (queued_alive s qs NULL Hq Ha) as [p Hp]. by rewrite (qd_null s qs Hq) in Hp. Qed.

Lemma queued_qlinks (s : sched) (qs : list (list Z)) (q : qref) (l k : list Z) (a : Z) :
  queued s qs -> valid_ref q -> ready qs q = l ++ a :: k ->
  exists p, procs s !! a = Some p /\ queue_prev p = last_of NULL l /\ queue_next p = first_of NULL k.
Proof.
  intros Hqs Hq He. destruct (qd_rep s qs Hqs q Hq) as [_ _ _ Hd]. rewrite He in Hd.
  apply dseg_middle in Hd. apply fmap_Some in Hd as (p & Hp & [= -> ->]). eauto.
Qed.

(** The ends of a list are null or in the list. *)
Lemma first_of_cases (l : list Z) : first_of NULL l = NULL \/ first_of NULL l ∈ l.
Proof. destruct l; [by left|]. right. by apply first_of_elem. Qed.

Lemma last_of_cases (l : list Z) : last_of NULL l = NULL \/ last_of NULL l ∈ l.
Proof. destruct l; [by left|]. right. by apply last_of_elem. Qed.

Lemma last_of_null_nil (l : list Z) : NULL ∉ l -> (last_of NULL l =? NULL) = bool_decide (l = []).
Proof.
  intros Hn. case_bool_decide as Hl; [by rewrite Hl|]. apply Z.eqb_neq. intros He. apply Hn.
  rewrite <-He. by apply last_of_elem.
Qed.

Lemma first_of_null_nil (l : list Z) : NULL ∉ l -> (first_of NULL l =? NULL) = bool_decide (l = []).
Proof.
  intros Hn. case_bool_decide as Hl; [by rewrite Hl|]. apply Z.eqb_neq. intros He. apply Hn.
  rewrite <-He. by apply first_of_elem.
Qed.

(** A write to an element of [l], or to nothing, does not reach the others. *)
Lemma qlinks_skip (ps : gmap Z pcb) (b c : Z) (l : list Z) (g : Z * Z -> Z * Z) :
  ps !! NULL = None -> b = NULL \/ b ∈ l -> c ∉ l ->
  (if decide (c = b) then g else id) <$> qlinks ps c = qlinks ps c.
Proof.
  intros Hn Hb Hc. destruct (decide (c = b)) as [->|]; [|by rewrite option_fmap_id].
  destruct Hb as [->|]; [|done]. unfold qlinks. by rewrite Hn.
Qed.

Lemma some_eq_last (b : Z) (l : list Z) : b ∈ l -> Some b = last l <-> b = last_of NULL l.
Proof.
  destruct l as [|c l _] using rev_ind; [set_solver|]. intros _.
  rewrite last_snoc, last_of_snoc. naive_solver.
Qed.

Lemma some_eq_head (b : Z) (l : list Z) : b ∈ l -> Some b = head l <-> b = first_of NULL l.
Proof. destruct l as [|c l]; [set_solver|]. intros _. unfold first_of. simpl. naive_solver. Qed.

(** Between two steps of a queue operation only queue pointers differ. *)
Record relinked (s s' : sched) : Prop := {
  rl_strip : strip s' = strip s;
  rl_rt : rt_queues s' = rt_queues s;
  rl_mlfq : mlfq_queues s' = mlfq_queues s;
}.

#[export] Instance relinked_preorder : PreOrder relinked.
Proof.
  split; [done|]. intros s1 s2 s3 [H1 H2 H3] [H4 H5 H6]. constructor; congruence.
Qed.

(** A write to the queue pointers of the control block at [b], skipped when [b] is null:
    [g] is what the write does to the pair of pointers. *)
Lemma wp_relink (s : sched) (b : Z) (f : pcb -> pcb) (g : Z * Z -> Z * Z) :
  procs s !! NULL = None -> (b <> NULL -> is_Some (procs s !! b)) ->
  (forall p, unlink (f p) = unlink p) ->
  (forall p, (queue_prev (f p), queue_next (f p)) = g (queue_prev p, queue_next p)) ->
  wp (if b =? NULL then mret tt else update b f) (fun _ s' => relinked s s' /\
    procs s' !! NULL = None /\
    forall c, qlinks (procs s') c = (if decide (c = b) then g else id) <$> qlinks (procs s) c) s.
Proof.
  intros Hnull Hb Hu Hg. destruct (Z.eqb_spec b NULL) as [->|Hne].
  - apply wp_ret. split_and!; [done|done|]. intros c. unfold qlinks.
    destruct (decide (c = NULL)) as [->|]; [by rewrite Hnull|]. by rewrite option_fmap_id.
  - destruct (Hb Hne) as [p Hp]. eapply wp_update; [done|]. split_and!.
    + constructor; [by eapply strip_store|done|done].
    + simpl. by rewrite lookup_insert_ne.
    + intros c. simpl. rewrite qlinks_insert. destruct (decide (c = b)) as [->|].
      * unfold qlinks. rewrite Hp, Hg. done.
      * by rewrite option_fmap_id.
Qed.

Lemma relinked_alive (s s' : sched) (a : Z) :
  relinked s s' -> is_Some (procs s !! a) -> is_Some (procs s' !! a).
Proof. intros [Hs _ _]. by rewrite (strip_dom s s'). Qed.

(** The last step of a queue operation: the queue of [l] is written. *)
Lemma wp_put_queue (s0 s : sched) (qs : list (list Z)) (q : qref) (l : list Z) (v : sched_queue) :
  queued s0 qs -> valid_ref q -> relinked s0 s ->
  q_head v = first_of NULL l -> q_tail v = last_of NULL l -> q_count v = u32 (zlen l) ->
  dll NULL (qlinks (procs s)) l -> NoDup l ->
  (forall a, a ∈ l -> a ∈ concat qs -> a ∈ ready qs q) ->
  (forall a, a ∉ l -> qlinks (procs s) a =
     if decide (a ∈ ready qs q) then Some (NULL, NULL) else qlinks (procs s0) a) ->
  wp (put_queue q v) (fun _ s' => queued s' (set_ready q l qs) /\ strip s' = strip s0) s.
Proof.
  intros Hqs Hq [Hst Hr Hm] Hh Ht Hc Hd Hnd Hsub Hlk.
  destruct (put_queue_same s q v) as (s' & Hput & Hself & Hoth & Hps & Hst' & Hr' & Hm');
    [rewrite Hr; apply Hqs|rewrite Hm; apply Hqs|done|].
  eapply wp_intro; [exact Hput|]. split; [|by rewrite Hst'].
  eapply queued_change; try done; [by rewrite Hst'| | |].
  - intros q' Hq' Hn. rewrite Hoth by done. destruct q'; simpl; by rewrite ?Hr, ?Hm.
  - constructor; by rewrite ?Hself, ?Hps.
  - by rewrite Hps.
Qed.

(** The facts about one queue that the operations on it use. *)
Lemma queued_ready (s : sched) (qs : list (list Z)) (q : qref) :
  queued s qs -> valid_ref q ->
  represents s q (ready qs q) /\ NULL ∉ ready qs q /\ NoDup (ready qs q) /\
  (forall b, b ∈ ready qs q -> b ∈ concat qs) /\ (forall b, b ∈ ready qs q -> is_Some (procs s !! b)).
Proof.
  intros Hqs Hq.
  assert (forall b, b ∈ ready qs q -> b ∈ concat qs) as Hin by (intros b; apply elem_of_ready; [apply Hqs|done]).
  split_and!; [by apply Hqs| | |done|].
  - intros ?. eapply queued_nonnull; eauto.
  - apply NoDup_ready; [apply Hqs|apply Hqs|done].
  - intros b Hb. edestruct queued_alive as [p Hp]; eauto.
Qed.

Lemma queue_add_spec (s : sched) (qs : list (list Z)) (q : qref) (a : Z) :
  queued s qs -> valid_ref q -> is_Some (procs s !! a) -> a ∉ concat qs ->
  wp (queue_add q a) (fun _ s' =>
    queued s' (set_ready q (ready qs q ++ [a]) qs) /\ strip s' = strip s) s.
Proof.
  intros Hqs Hq Ha Hna.
  destruct (queued_ready s qs q Hqs Hq) as ([Hhd Htl Hct Hd] & Hnl & Hndl & Hin & Halive).
  set (l := ready qs q) in *. assert (a ∉ l) as Hal by auto. pose proof (qd_null s qs Hqs) as Hnull.
  assert (a <> NULL) as Hanull by (intros ->; rewrite Hnull in Ha; by destruct Ha).
  unfold queue_add. apply wp_bind, wp_get_queue; [done|]. rewrite Htl.
  pose proof (wp_relink s a (fun p => set_queue_prev (last_of NULL l) (set_queue_next NULL p))
    (fun _ => (last_of NULL l, NULL)) Hnull (fun _ => Ha) (fun _ => eq_refl) (fun _ => eq_refl)) as H1.
  rewrite (proj2 (Z.eqb_neq a NULL) Hanull) in H1.
  eapply wp_seq; [exact H1|]. intros _ s1 (Hr1 & Hn1 & Hlk1). eapply wp_seq.
  { apply (wp_relink s1 (last_of NULL l) (set_queue_next a) (fun '(x, _) => (x, a)) Hn1); [|done..].
    intros Hne. eapply relinked_alive, Halive; [done|]. by destruct (last_of_cases l). }
  intros _ s2 (Hr2 & Hn2 & Hlk2).
  eapply wp_put_queue; [done|done|by etrans|..]; cbn [q_head q_tail q_count].
  - rewrite first_of_app, last_of_null_nil, Hhd by done. case_bool_decide as Hl; [by rewrite Hl|].
    by destruct l.
  - by rewrite last_of_snoc.
  - rewrite Hct, zlen_app. unfold u32. by rewrite Zplus_mod_idemp_l.
  - eapply dll_snoc; [done|done| | |exact Hd].
    + rewrite Hlk2, (qlinks_skip _ _ _ l), Hlk1, decide_True by (done || apply last_of_cases).
      destruct Ha as [p Hp]. unfold qlinks. by rewrite Hp.
    + intros b Hb. rewrite Hlk2, Hlk1, (qlinks_skip _ a b [a]) by (done || set_solver).
      destruct (qlinks (procs s) b) as [ [x y] |]; [|done]. simpl. pose proof (some_eq_last b l Hb).
      repeat case_decide; (done || naive_solver).
  - apply NoDup_app. split_and!; [done|set_solver|]. apply NoDup_singleton.
  - intros b [?|?]%elem_of_app Hbc; set_solver.
  - intros b Hb. fold l. apply not_elem_of_app in Hb as [Hb Hba].
    rewrite Hlk2, (qlinks_skip _ _ _ l), Hlk1, (qlinks_skip _ a b [a]), decide_False
      by (done || apply last_of_cases || set_solver). done.
Qed.

(** A process in no queue is left alone. *)
Lemma queue_remove_absent (s : sched) (qs : list (list Z)) (q : qref) (a : Z) :
  queued s qs -> valid_ref q -> is_Some (procs s !! a) -> a ∉ concat qs ->
  queue_remove q a s = Some (a, s).
Proof.
  intros Hqs Hq [p Hp] Hna. pose proof (qd_null s qs Hqs) as Hnull.
  assert (a <> NULL) as Ha by (intros ->; by rewrite Hnull in Hp).
  assert (wp (queue_remove q a) (fun r s' => r = a /\ s' = s) s) as (x & s' & Hrun & -> & ->)%wp_run; [|done].
  unfold queue_remove. rewrite (proj2 (Z.eqb_neq a NULL) Ha).
  apply wp_bind, wp_get_queue; [done|]. apply wp_bind. eapply wp_deref; [done|].
  pose proof (qd_free s qs Hqs a ltac:(eauto) Hna) as Hl. unfold qlinks in Hl. rewrite Hp in Hl.
  injection Hl as -> ->. rewrite (rep_head _ _ _ (qd_rep s qs Hqs q Hq)).
  destruct (Z.eqb_spec (first_of NULL (ready qs q)) a) as [He|]; [|done]. exfalso.
  apply Hna, (elem_of_ready qs q); [apply Hqs|done|]. rewrite <-He.
  destruct (first_of_cases (ready qs q)) as [Hn|]; [|done]. by rewrite Hn in He.
Qed.

(** The three writes of [queue_remove] to an element of a list. *)
Lemma wp_unlink (s : sched) (l k : list Z) (a : Z) :
  procs s !! NULL = None -> (forall b, b ∈ l ++ a :: k -> is_Some (procs s !! b)) ->
  a <> NULL -> NoDup (l ++ a :: k) ->
  dll NULL (qlinks (procs s)) (l ++ a :: k) ->
  wp ((if last_of NULL l =? NULL then mret tt
       else update (last_of NULL l) (set_queue_next (first_of NULL k))) ;;
      (if first_of NULL k =? NULL then mret tt
       else update (first_of NULL k) (set_queue_prev (last_of NULL l))) ;;
      update a (fun p => set_queue_prev NULL (set_queue_next NULL p)))
    (fun _ s' => relinked s s' /\ dll NULL (qlinks (procs s')) (l ++ k) /\
       qlinks (procs s') a = Some (NULL, NULL) /\
       forall b, b ∉ l ++ a :: k -> qlinks (procs s') b = qlinks (procs s) b) s.
Proof.
  intros Hnull Hal Ha Hnd Hd. eapply wp_seq.
  { apply (wp_relink s _ (set_queue_next (first_of NULL k)) (fun '(x, _) => (x, first_of NULL k)) Hnull); [|done..].
    intros Hne. apply Hal. destruct (last_of_cases l); set_solver. }
  intros _ s1 (Hr1 & Hn1 & Hlk1). eapply wp_seq.
  { apply (wp_relink s1 _ (set_queue_prev (last_of NULL l)) (fun '(_, y) => (last_of NULL l, y)) Hn1); [|done..].
    intros Hne. eapply relinked_alive, Hal; [done|]. destruct (first_of_cases k); set_solver. }
  intros _ s2 (Hr2 & Hn2 & Hlk2).
  pose proof (wp_relink s2 a (fun p => set_queue_prev NULL (set_queue_next NULL p)) (fun _ => (NULL, NULL)) Hn2)
    as H3. rewrite (proj2 (Z.eqb_neq a NULL) Ha) in H3.
  assert (is_Some (procs s2 !! a)) as Ha2 by (eapply relinked_alive, Hal; [by etrans|set_solver]).
  eapply wp_mono; [by apply H3|]. intros _ s3 _ (Hr3 & Hn3 & Hlk3).
  pose proof Hnd as (Hl & Hdis & [Hak Hk]%NoDup_cons)%NoDup_app.
  split_and!.
  - by do 2 etrans.
  - eapply dll_unlink; [done| | |done]; intros b Hb.
    + rewrite Hlk3, (qlinks_skip _ a b [a]), Hlk2, (qlinks_skip _ _ b k), Hlk1
        by (done || apply first_of_cases || set_solver).
      pose proof (some_eq_last b l Hb). destruct (qlinks (procs s) b) as [ [x y] |]; [|done]. simpl.
      repeat case_decide; (done || naive_solver).
    + rewrite Hlk3, (qlinks_skip _ a b [a]), Hlk2, Hlk1, (qlinks_skip _ _ b l)
        by (done || apply last_of_cases || set_solver).
      pose proof (some_eq_head b k Hb). destruct (qlinks (procs s) b) as [ [x y] |]; [|done]. simpl.
      repeat case_decide; (done || naive_solver).
  - rewrite Hlk3, decide_True by done. destruct Ha2 as [p Hp]. unfold qlinks. by rewrite Hp.
  - intros b Hb. rewrite Hlk3, (qlinks_skip _ a b [a]), Hlk2, (qlinks_skip _ _ b k), Hlk1, (qlinks_skip _ _ b l)
      by (done || apply first_of_cases || apply last_of_cases || set_solver). done.
Qed.

Lemma queue_remove_spec (s : sched) (qs : list (list Z)) (q : qref) (l k : list Z) (a : Z) :
  queued s qs -> valid_ref q -> ready qs q = l ++ a :: k ->
  wp (queue_remove q a) (fun r s' =>
    r = a /\ queued s' (set_ready q (l ++ k) qs) /\ strip s' = strip s) s.
Proof.
  intros Hqs Hq He. destruct (queued_qlinks s qs q l k a Hqs Hq He) as (p & Hp & Hpv & Hnx).
  destruct (queued_ready s qs q Hqs Hq) as ([Hhd Htl Hct Hd] & Hnl & Hndl & Hin & Halive).
  rewrite He in *. pose proof (qd_null s qs Hqs) as Hnull.
  assert (a <> NULL) as Ha by set_solver.
  assert (NULL ∉ l /\ NULL ∉ k) as [Hl Hk] by set_solver.
  unfold queue_remove. rewrite (proj2 (Z.eqb_neq a NULL) Ha).
  apply wp_bind, wp_get_queue; [done|]. apply wp_bind. eapply wp_deref; [done|].
  rewrite Hpv, Hnx, Hhd, Htl, Hct.
  replace (negb (first_of NULL (l ++ a :: k) =? a) && (last_of NULL l =? NULL)) with false.
  2: { rewrite last_of_null_nil by done. case_bool_decide as E; [|by rewrite andb_false_r].
       rewrite E. simpl. unfold first_of. simpl. by rewrite Z.eqb_refl. }
  cbn [andb]. apply wp_assoc3. eapply wp_seq; [by apply wp_unlink|].
  intros _ s' (Hr & Hdl & Hla & Hlo). 
  apply (wp_seq _ _ (fun _ s2 => queued s2 (set_ready q (l ++ k) qs) /\ strip s2 = strip s));
    [|by intros [] s2 H; apply wp_ret].
  eapply wp_put_queue; [done|done|done|..]; cbn [q_head q_tail q_count].
  - rewrite last_of_null_nil, !first_of_app by done. case_bool_decide as E; [by rewrite E|by destruct l].
  - rewrite first_of_null_nil, !last_of_app, last_of_cons by done.
    case_bool_decide as E; [by rewrite E|]. destruct k; [done|]. by rewrite !last_of_cons.
  - rewrite !zlen_app, zlen_cons. unfold u32. rewrite Zminus_mod_idemp_l. f_equal. lia.
  - done.
  - apply NoDup_app in Hndl as (? & ? & [? ?]%NoDup_cons). apply NoDup_app. set_solver.
  - rewrite He. set_solver.
  - intros b Hb. rewrite He. destruct (decide (b = a)) as [->|]; [by rewrite decide_True by set_solver|].
    rewrite decide_False by set_solver. apply Hlo. set_solver.
Qed.

Lemma queue_pop_front_spec (s : sched) (qs : list (list Z)) (q : qref) :
  queued s qs -> valid_ref q ->
  wp (queue_pop_front q) (fun r s' => strip s' = strip s /\
    r = first_of NULL (ready qs q) /\ queued s' (set_ready q (tail (ready qs q)) qs)) s.
Proof.
  intros Hqs Hq. destruct (queued_ready s qs q Hqs Hq) as ([Hhd _ _ _] & Hnl & _ & _ & _).
  unfold queue_pop_front. apply wp_bind, wp_get_queue; [done|]. rewrite Hhd, first_of_null_nil by done.
  case_bool_decide as E.
  - apply wp_ret. split_and!; [done|by rewrite E|]. rewrite E. unfold set_ready.
    rewrite list_insert_id; [done|]. rewrite (ready_lookup qs q), E by (apply Hqs || done). done.
  - destruct (ready qs q) as [|a l] eqn:El; [done|].
    eapply wp_mono; [by apply (queue_remove_spec s qs q [] l a)|].
    intros x s' _ (-> & Hq' & Hs). by split_and!.
Qed.

(** ** The choice of a process *)

(** The queues without the first process of the first queue that has one. *)
Fixpoint drop_first (qs : list (list Z)) : list (list Z) :=
  match qs with
  | [] => []
  | [] :: qs => [] :: drop_first qs
  | (_ :: l) :: qs => l :: qs
  end.

Lemma concat_drop_first (qs : list (list Z)) : concat (drop_first qs) = tail (concat qs).
Proof. induction qs as [|[|a l] qs IH]; [done|done|done]. Qed.

Lemma length_drop_first (qs : list (list Z)) : length (drop_first qs) = length qs.
Proof. induction qs as [|[|a l] qs IH]; simpl; auto. Qed.

Lemma drop_first_at (qs : list (list Z)) (i : nat) (a : Z) (l : list Z) :
  (forall j, (j < i)%nat -> qs !! j = Some []) -> qs !! i = Some (a :: l) ->
  drop_first qs = <[i := l]> qs /\ concat qs = a :: concat (<[i := l]> qs).
Proof.
  revert i. induction qs as [|q qs IH]; intros [|i] Hj Hi; simplify_eq/=; [done|].
  pose proof (Hj 0%nat ltac:(lia)) as [= ->]. simpl.
  destruct (IH i) as [H1 H2]; [|done|by rewrite H1, H2].
  intros j Hlt. apply (Hj (S j)). lia.
Qed.

Definition all_refs : list qref := rt_refs ++ mlfq_refs.

Lemma all_refs_lookup (i : nat) (q : qref) : all_refs !! i = Some q -> valid_ref q /\ qindex q = i.
Proof.
  change all_refs with [Rt 0; Rt 1; Mlfq 0; Mlfq 1; Mlfq 2; Mlfq 3; Mlfq 4; Mlfq 5; Mlfq 6; Mlfq 7].
  intros H. do 10 (destruct i as [|i]; [injection H as <-; split; [|done];
    simpl; unfold SCHED_RT_QUEUE_COUNT, SCHED_QUEUE_COUNT; lia|]). done.
Qed.

Lemma all_refs_ready (qs : list (list Z)) (i : nat) (q : qref) :
  length qs = 10%nat -> all_refs !! i = Some q -> qs !! i = Some (ready qs q).
Proof. intros Hl [Hq <-]%all_refs_lookup. by apply ready_lookup. Qed.

Lemma pop_refs_spec (s : sched) (qs : list (list Z)) (pre refs : list qref) :
  queued s qs -> all_refs = pre ++ refs -> Forall (fun q => ready qs q = []) pre ->
  wp (first_nonnull refs queue_pop_front) (fun r s' => strip s' = strip s /\
    r = first_of NULL (concat qs) /\ queued s' (drop_first qs)) s.
Proof.
  revert s pre. induction refs as [|q refs IH]; intros s pre Hqs He Hpre.
  - apply wp_ret. rewrite app_nil_r in He. subst pre.
    assert (concat qs = [] /\ drop_first qs = qs) as [-> ->]; [|by split_and!].
    assert (Forall (eq []) qs) as Hf.
    { apply Forall_lookup. intros i l Hi.
      destruct (lookup_lt_is_Some_2 all_refs i) as [q Hq].
      { apply lookup_lt_Some in Hi. by rewrite (qd_len s qs Hqs) in Hi. }
      rewrite (all_refs_ready qs i q) in Hi by (apply Hqs || done).
      injection Hi as <-. symmetry. by eapply Forall_lookup_1 in Hpre. }
    clear -Hf. induction Hf as [|? ? <- ? [IH1 IH2] ]; [done|]. simpl. by rewrite IH2.
  - assert (all_refs !! length pre = Some q) as Hi by (rewrite He; by apply list_lookup_middle).
    pose proof (all_refs_lookup _ _ Hi) as [Hq Hix]. simpl.
    eapply wp_seq; [by apply queue_pop_front_spec|]. intros r s1 (Hs1 & -> & Hq1).
    destruct (queued_ready s qs q Hqs Hq) as (_ & Hnl & _ & _ & _).
    rewrite first_of_null_nil by done. case_bool_decide as E.
    + rewrite E in Hq1. unfold set_ready in Hq1. rewrite list_insert_id in Hq1
        by (rewrite ready_lookup, E by (apply Hqs || done); done).
      eapply wp_mono; [apply (IH s1 (pre ++ [q])); [done|by rewrite <-app_assoc|]|].
      * apply Forall_app. by split; [|constructor].
      * intros r s2 _ (Hs2 & Hr2). by rewrite Hs2, Hs1.
    + apply wp_ret. destruct (ready qs q) as [|a l] eqn:El; [done|].
      destruct (drop_first_at qs (qindex q) a l) as [Hdf Hcc].
      * intros j Hj. rewrite Hix in Hj. destruct (lookup_lt_is_Some_2 pre j Hj) as [q' Hq'].
        rewrite (all_refs_ready qs j q') by (apply Hqs || (rewrite He; by apply lookup_app_l_Some)).
        f_equal. by eapply Forall_lookup_1 in Hpre.
      * rewrite ready_lookup by (apply Hqs || done). by rewrite El.
      * rewrite Hdf, Hcc. by split_and!.
Qed.

Lemma pick_next_process_spec (s : sched) (qs : list (list Z)) :
  queued s qs ->
  wp pick_next_process (fun r s' => strip s' = strip s /\
    r = first_of (idle_task s) (concat qs) /\ queued s' (drop_first qs)) s.
Proof.
  intros Hqs. assert (wp (first_nonnull all_refs queue_pop_front) (fun r s' => strip s' = strip s /\
    r = first_of NULL (concat qs) /\ queued s' (drop_first qs)) s) as H
    by (apply (pop_refs_spec s qs []); [done|done|constructor]).
  pose proof (queued_nonnull s qs Hqs) as Hn.
  unfold wp in H. unfold all_refs in H. rewrite first_nonnull_app in H. revert H.
  unfold pick_next_process, wp, mbind, FM_bind.
  destruct (first_nonnull rt_refs queue_pop_front s) as [ [r s1] |]; [|done].
  destruct (Z.eqb_spec r NULL) as [->|Hr]; cbn [negb].
  - destruct (first_nonnull mlfq_refs queue_pop_front s1) as [ [r2 s2] |]; [|done].
    intros (Hs & -> & Hq2). rewrite first_of_null_nil by done. case_bool_decide as E; simpl.
    + rewrite E. split_and!; [done| |done]. change (idle_task (strip s2) = idle_task (strip s)). by rewrite Hs.
    + split_and!; [done| |done]. by destruct (concat qs).
  - intros (Hs & -> & Hq2). split_and!; [done| |done]. by destruct (concat qs).
Qed.
End SchedQueue.
