(* ===== verification/SchedCfs.v ===== *)
(** * The fair queue and the deadline queue (src/kernel/sched.c)

    [Module SchedCfs]: the nodes linked from [cfs_rq.head] are a list in order of virtual
    run time.  [enqueue_entity], [sched_cfs_dequeue] and [task_tick_fair] refine a
    priority queue of pairs (virtual run time, process) ([cfs_refines]), so the process
    taken out is always one that has run least.  A deadline process never gets into the
    deadline queue ([sched_dl_enqueue_empty]). *)

From S2P Require Import Prelude FaultM Dll Sync Sched SchedQueue.

Module SchedCfs.
Export SchedQueue.

(** ** The linked nodes *)

Fixpoint lchain (nodes : list cfs_node) (i : Z) (l : list Z) : Prop :=
  match l with
  | [] => i = NIL
  | a :: l => i = a /\ 0 <= a < CFS_MAX_PROCS /\ lchain nodes (n_next nodes.[a]) l
  end.

Definition entry (nodes : list cfs_node) (i : Z) : Z * Z := (n_vruntime nodes.[i], n_proc nodes.[i]).

Record fair_queue (s : sched) (l : list Z) : Prop := {
  fq_len : zlen (cfs_runqueue s) = CFS_MAX_PROCS;
  fq_chain : lchain (cfs_runqueue s) (c_head (cfs_rq s)) l;
  fq_nodup : NoDup l;
  fq_used : forall i, 0 <= i < CFS_MAX_PROCS -> (n_proc (cfs_runqueue s).[i] <> NULL <-> i ∈ l);
  fq_count : c_nr_running (cfs_rq s) = zlen l;
}.

Lemma lchain_range nodes i l a : lchain nodes i l -> a ∈ l -> 0 <= a < CFS_MAX_PROCS.
Proof.
  revert i. induction l as [|b l IH]; intros i; [by intros _ ?%not_elem_of_nil|].
  intros (_ & Hb & Hl) [->|Ha]%elem_of_cons; eauto.
Qed.

(** Distinct nodes are at most the array. *)
Lemma lchain_length nodes i l : lchain nodes i l -> NoDup l -> zlen l <= CFS_MAX_PROCS.
Proof.
  intros Hc Hn. change CFS_MAX_PROCS with (CFS_MAX_PROCS - 0). rewrite <-(zlen_range 0 CFS_MAX_PROCS) by done.
  unfold zlen. apply Nat2Z.inj_le, submseteq_length, NoDup_submseteq; [done|].
  intros a Ha. apply elem_of_range. by eapply lchain_range.
Qed.

(** Writing a node outside the chain. *)
Lemma lchain_frame nodes i l j n :
  0 <= j -> j ∉ l -> lchain nodes i l -> lchain (nodes.[j <- n]) i l.
Proof.
  intros Hj. revert i. induction l as [|a l IH]; intros i; [done|].
  intros [Hn Hl]%not_elem_of_cons (-> & Ha & Hc). split_and!; [done|lia|lia|].
  rewrite aget_aset_ne by lia. auto.
Qed.

Lemma entry_frame nodes (l : list Z) j n :
  0 <= j -> j ∉ l -> (forall a, a ∈ l -> 0 <= a) -> entry (nodes.[j <- n]) <$> l = entry nodes <$> l.
Proof.
  intros Hj Hn Hp. apply list_fmap_ext. intros k a Ha%list_elem_of_lookup_2. unfold entry.
  by rewrite aget_aset_ne by (auto; set_solver).
Qed.

(** ** The place of a new node *)

Lemma last_cons_default {A} (a d : A) (l : list A) : List.last (a :: l) d = List.last l a.
Proof. revert a d. induction l as [|b l IH]; intros a d; [done|]. change (List.last (b :: l) d = List.last (b :: l) a). by rewrite !IH. Qed.

Lemma cfs_place_spec nodes v l curr prv fuel :
  lchain nodes curr l -> (length l <= fuel)%nat ->
  exists l1 l2, l = l1 ++ l2 /\ cfs_place fuel nodes v prv curr = Some (List.last l1 prv) /\
    Forall (fun i => n_vruntime nodes.[i] < v) l1 /\
    match l2 with [] => True | i :: _ => v <= n_vruntime nodes.[i] end.
Proof.
  revert curr prv fuel. induction l as [|a l IH]; intros curr prv fuel Hc Hf.
  - simpl in Hc. subst. exists [], []. by destruct fuel.
  - destruct Hc as (-> & Ha & Hc). assert ((a =? NIL) = false) as E by (unfold NIL; lia).
    destruct fuel as [|fuel]; simpl in Hf; [lia|]. simpl. rewrite E.
    destruct (Z.ltb_spec (n_vruntime nodes.[a]) v) as [Hlt|Hge].
    + destruct (IH _ a fuel Hc) as (l1 & l2 & -> & Hp & H1 & H2); [lia|].
      exists (a :: l1), l2. split_and!; [done| |by constructor|done].
      by rewrite Hp, last_cons_default.
    + by exists [], (a :: l).
Qed.

(** The abstract insertion: before the first entry that has run at least as long. *)
Fixpoint place (e : Z * Z) (es : list (Z * Z)) : list (Z * Z) :=
  match es with
  | [] => [e]
  | e' :: es' => if e'.1 <? e.1 then e' :: place e es' else e :: es
  end.

Lemma place_app (e : Z * Z) (es1 es2 : list (Z * Z)) :
  Forall (fun e' => e'.1 < e.1) es1 -> match es2 with [] => True | e' :: _ => e.1 <= e'.1 end ->
  place e (es1 ++ es2) = es1 ++ e :: es2.
Proof.
  intros H1 H2. induction H1 as [|e' es1 He _ IH]; simpl.
  - destruct es2; [done|]. simpl. by rewrite (proj2 (Z.ltb_ge _ _)).
  - by rewrite (proj2 (Z.ltb_lt _ _) He), IH.
Qed.

(** Linking the node [j] after [l1]: [nodes] already holds its process and time. *)
Definition linked (nodes : list cfs_node) (l1 : list Z) (head j se v : Z) : list cfs_node :=
  match l1 with
  | [] => nodes.[j <- mk_cfs_node se v head]
  | _ => let prv := List.last l1 NIL in
         nodes.[j <- mk_cfs_node se v (n_next nodes.[prv])]
              .[prv <- mk_cfs_node (n_proc nodes.[prv]) (n_vruntime nodes.[prv]) j]
  end.

Lemma lchain_linked nodes l1 l2 i j se v :
  zlen nodes = CFS_MAX_PROCS -> 0 <= j < CFS_MAX_PROCS -> NoDup (l1 ++ l2) -> j ∉ l1 ++ l2 ->
  lchain nodes i (l1 ++ l2) ->
  lchain (linked nodes l1 i j se v) (match l1 with [] => j | _ => i end) (l1 ++ j :: l2).
Proof.
  intros Hlen Hj Hnd Hnj Hc.
  assert (forall a, a ∈ l1 ++ l2 -> 0 <= a < CFS_MAX_PROCS) as Hr by (intros a; by apply (lchain_range nodes i)).
  destruct l1 as [|b l1 _] using rev_ind.
  - simpl. split_and!; [done|lia|lia|]. rewrite aget_aset_eq by lia. apply lchain_frame; [lia|done|done].
  - assert (linked nodes (l1 ++ [b]) i j se v =
      nodes.[j <- mk_cfs_node se v (n_next nodes.[b])].[b <- mk_cfs_node (n_proc nodes.[b]) (n_vruntime nodes.[b]) j]) as ->.
    { unfold linked. rewrite List.last_last. by destruct l1. }
    replace (match l1 ++ [b] with [] => j | _ => i end) with i by (by destruct l1).
    clear -Hlen Hj Hnd Hnj Hc Hr. revert i Hc Hnd Hnj Hr. induction l1 as [|a l1 IH]; intros i Hc Hnd Hnj Hr.
    + destruct Hc as (-> & Hb & Hc). simpl in *. apply NoDup_cons in Hnd as [Hb2 Hnd].
      apply not_elem_of_cons in Hnj as [Hjb Hj2]. split; [done|split; [lia|] ].
      rewrite aget_aset_eq by (rewrite zlen_aset; lia). simpl. split; [done|split; [lia|] ].
      rewrite aget_aset_ne, aget_aset_eq by lia. simpl.
      apply lchain_frame; [lia|done|]. apply lchain_frame; [lia|done|done].
    + destruct Hc as (-> & Ha & Hc). simpl in *. apply NoDup_cons in Hnd as [Ha2 Hnd].
      apply not_elem_of_cons in Hnj as [Hja Hj2]. split; [done|split; [lia|] ].
      assert (b <> a) by set_solver. assert (0 <= b) by (apply (Hr b); set_solver).
      rewrite !aget_aset_ne by lia. apply IH; [done|done|done|]. set_solver.
Qed.

Lemma last_elem {A} (a d : A) (l : list A) : List.last (a :: l) d ∈ a :: l.
Proof.
  revert a. induction l as [|b l IH]; intros a; [by left|].
  change (List.last (b :: l) d ∈ a :: b :: l). right. apply IH.
Qed.

Lemma zlen_linked nodes l1 i j se v : zlen (linked nodes l1 i j se v) = zlen nodes.
Proof. unfold linked. destruct l1; by rewrite ?zlen_aset. Qed.

Lemma linked_other nodes l1 i j se v a :
  0 <= a -> 0 <= j -> (forall b, b ∈ l1 -> 0 <= b < zlen nodes) -> j ∉ l1 -> a <> j ->
  entry (linked nodes l1 i j se v) a = entry nodes a.
Proof.
  intros Ha Hj Hr Hn Hne. unfold linked, entry. destruct l1 as [|b l1]; [by rewrite aget_aset_ne by lia|].
  set (prv := List.last (b :: l1) NIL).
  assert (prv ∈ b :: l1) as Hp by apply last_elem.
  pose proof (Hr prv Hp). destruct (Z.eq_dec a prv) as [->|Hap].
  - rewrite aget_aset_eq by (rewrite zlen_aset; lia). done.
  - by rewrite !aget_aset_ne by (set_solver || lia).
Qed.

Lemma linked_new nodes l1 i j se v :
  0 <= j < zlen nodes -> (forall b, b ∈ l1 -> 0 <= b < zlen nodes) -> j ∉ l1 ->
  entry (linked nodes l1 i j se v) j = (v, se).
Proof.
  intros Hj Hr Hn. unfold linked, entry. destruct l1 as [|b l1]; [by rewrite aget_aset_eq by lia|].
  set (prv := List.last (b :: l1) NIL).
  assert (prv ∈ b :: l1) as Hp by apply last_elem.
  pose proof (Hr prv Hp). rewrite aget_aset_ne, aget_aset_eq by (set_solver || lia). done.
Qed.

(** ** The abstract queue *)

(** [times]: the virtual run time of each process and what a tick adds to it; [pq]: the
    waiting processes; [least]: the virtual time of the queue. *)
Record fair := mk_fair { times : gmap Z (Z * Z); pq : list (Z * Z); least : Z }.

Inductive cfs_op := CEnqueue (se : Z) | CDequeue | CTick (curr : Z).

Definition a_cfs (op : cfs_op) (f : fair) : Z * fair :=
  match op with
  | CEnqueue se =>
      (NULL, if zlen (pq f) <? CFS_MAX_PROCS
             then mk_fair (times f) (place (Z.max (times f !!! se).1 (least f), se) (pq f)) (least f) else f)
  | CDequeue =>
      match pq f with
      | [] => (NULL, f)
      | (v, p) :: es => (p, mk_fair (times f) es (Z.max v (least f)))
      end
  | CTick curr => (NULL, mk_fair (alter (fun t => (u64 (t.1 + t.2), t.2)) curr (times f)) (pq f) (least f))
  end.

Definition run_cfs (op : cfs_op) : M Z :=
  match op with
  | CEnqueue se => enqueue_entity se ;; mret NULL
  | CDequeue => sched_cfs_dequeue
  | CTick curr => task_tick_fair curr ;; mret NULL
  end.

Definition times_of (gran : Z) (ps : gmap Z pcb) : gmap Z (Z * Z) :=
  (fun p => (vruntime p, sched_calc_vruntime p gran)) <$> ps.

Record fair_rep (s : sched) (f : fair) : Prop := {
  fr_null : procs s !! NULL = None;
  fr_queue : exists l, fair_queue s l /\ pq f = entry (cfs_runqueue s) <$> l;
  fr_least : least f = min_vruntime (cfs_rq s);
  fr_times : times f = times_of (cfs_tick_granularity s) (procs s);
  fr_curr : c_curr (cfs_rq s) = NULL \/ is_Some (procs s !! c_curr (cfs_rq s));
}.

(** Changes of the other fields of a process. *)
Lemma fair_rep_update (s : sched) (f : fair) (a : Z) (p : pcb) (g : pcb -> pcb) :
  fair_rep s f -> procs s !! a = Some p ->
  (forall gran, (vruntime (g p), sched_calc_vruntime (g p) gran) = (vruntime p, sched_calc_vruntime p gran)) ->
  fair_rep (set_procs (<[a := g p]> (procs s)) s) f.
Proof.
  intros [Hn Hq Hl Ht Hc] Hp Hg. constructor; cbn; [| |done| |].
  - rewrite lookup_insert_ne; [done|]. intros ->. by rewrite Hn in Hp.
  - destruct Hq as (l & [] & ?). exists l. split; [by constructor|done].
  - rewrite Ht. unfold times_of. rewrite fmap_insert, Hg. symmetry. apply insert_id.
    by rewrite lookup_fmap, Hp.
  - destruct Hc as [?|Hc]; [by left|right]. destruct (decide (c_curr (cfs_rq s) = a)) as [->|].
    + rewrite lookup_insert_eq. eauto.
    + by rewrite lookup_insert_ne.
Qed.

(** ** Marking the running process *)

Lemma mark_curr_spec (s : sched) (f : fair) :
  fair_rep s f -> c_curr (cfs_rq s) <> NULL ->
  wp (update (c_curr (cfs_rq s)) (set_need_resched 1)) (fun _ s' => fair_rep s' f) s.
Proof.
  intros Hf Hc. destruct (fr_curr s f Hf) as [?|[p Hp] ]; [done|].
  eapply wp_update; [exact Hp|]. by apply fair_rep_update.
Qed.

(** The end of [enqueue_entity]. *)
Lemma enqueue_preempt_spec (s : sched) (f : fair) (se v : Z) :
  fair_rep s f -> is_Some (procs s !! se) ->
  wp (let rq := cfs_rq s in
      if c_curr rq =? se then mret tt else
      preempt ← wakeup_preempt (c_curr rq) se;
      if c_true preempt then
        (if c_curr rq =? NULL then mret tt else update (c_curr rq) (set_need_resched 1))
      else
        curr_v ← (if c_curr rq =? NULL then mret 0 else c ← deref (c_curr rq); mret (vruntime c));
        if (u64 (v + sched_wakeup_granularity) <? curr_v) && negb (c_curr rq =? NULL)
        then update (c_curr rq) (set_need_resched 1)
        else mret tt) (fun _ s' => fair_rep s' f) s.
Proof.
  intros Hf [p Hp]. cbv zeta. destruct (Z.eqb_spec (c_curr (cfs_rq s)) se) as [|Hse]; [by apply wp_ret|].
  unfold wakeup_preempt.
  destruct (Z.eqb_spec (c_curr (cfs_rq s)) NULL) as [E|E].
  - rewrite E. cbn [orb]. wp_run. cbn [c_true negb Z.eqb]. wp_run. rewrite andb_false_r. by apply wp_ret.
  - destruct (fr_curr s f Hf) as [?|[c Hc] ]; [done|].
    rewrite (proj2 (Z.eqb_neq _ _) Hse). cbn [orb]. wp_run. eapply wp_deref; [exact Hc|]. wp_run.
    eapply wp_deref; [exact Hp|]. wp_run. destruct (_ <? vruntime c).
    + cbn. by apply mark_curr_spec.
    + cbn. wp_run. eapply wp_deref; [exact Hc|]. wp_run. rewrite andb_true_r.
      case_if; [by apply mark_curr_spec|by apply wp_ret].
Qed.

(** ** Insertion *)

Lemma alloc_spec (s : sched) (l : list Z) :
  fair_queue s l ->
  match List.find (fun i => n_proc (cfs_runqueue s).[i] =? NULL) (range 0 CFS_MAX_PROCS) with
  | Some j => 0 <= j < CFS_MAX_PROCS /\ j ∉ l /\ zlen l < CFS_MAX_PROCS
  | None => zlen l = CFS_MAX_PROCS
  end.
Proof.
  intros [Hlen Hc Hnd Hu Hn]. pose proof (find_range (fun i => n_proc (cfs_runqueue s).[i] =? NULL) 0 CFS_MAX_PROCS) as H.
  pose proof (lchain_length _ _ _ Hc Hnd) as Hle.
  destruct (List.find _ _) as [j|].
  - destruct H as (Hj & Hf%Z.eqb_eq & _).
    assert (j ∉ l) as Hjl by (intros Hjl; by apply (Hu j Hj) in Hjl). split_and!; [lia|lia|done|].
    assert (zlen (j :: l) <= zlen (range 0 CFS_MAX_PROCS)) as H.
    { unfold zlen. apply Nat2Z.inj_le, submseteq_length, NoDup_submseteq; [by constructor|].
      intros a [->|Ha]%elem_of_cons; apply elem_of_range; [lia|]. by eapply lchain_range. }
    rewrite zlen_cons, zlen_range in H by done. lia.
  - assert (zlen (range 0 CFS_MAX_PROCS) <= zlen l) as H'.
    { unfold zlen. apply Nat2Z.inj_le, submseteq_length, NoDup_submseteq; [apply NoDup_range|].
      intros a Ha%elem_of_range. apply (Hu a Ha). specialize (H a Ha). by apply Z.eqb_neq. }
    rewrite zlen_range in H' by done. lia.
Qed.

(** The queue after linking the node [j], which the array holds already. *)
Lemma fair_queue_linked (s s' : sched) (l1 l2 : list Z) (j se v nx : Z) :
  fair_queue s (l1 ++ l2) -> 0 <= j < CFS_MAX_PROCS -> j ∉ l1 ++ l2 -> zlen (l1 ++ l2) < CFS_MAX_PROCS -> se <> NULL ->
  cfs_runqueue s' = linked ((cfs_runqueue s).[j <- mk_cfs_node se v nx]) l1 (c_head (cfs_rq s)) j se v ->
  c_head (cfs_rq s') = (match l1 with [] => j | _ => c_head (cfs_rq s) end) ->
  c_nr_running (cfs_rq s') = u32 (c_nr_running (cfs_rq s) + 1) ->
  fair_queue s' (l1 ++ j :: l2) /\
  entry (cfs_runqueue s') <$> l1 ++ j :: l2 =
    (entry (cfs_runqueue s) <$> l1) ++ (v, se) :: (entry (cfs_runqueue s) <$> l2).
Proof.
  intros [Hlen Hc Hnd Hu Hn] Hj Hjl Hlt Hse Hq Hh Hr. set (nodes := (cfs_runqueue s).[j <- mk_cfs_node se v nx]) in *.
  assert (zlen nodes = CFS_MAX_PROCS) as Hln by (unfold nodes; by rewrite zlen_aset).
  assert (forall a, a ∈ l1 ++ l2 -> 0 <= a < CFS_MAX_PROCS) as Hra by (intros a; by eapply lchain_range).
  assert (forall a, 0 <= a -> a <> j -> entry (cfs_runqueue s') a = entry (cfs_runqueue s) a) as Ho.
  { intros a Ha Hne. rewrite Hq, linked_other; [|lia|lia| |set_solver|done].
    - unfold entry, nodes. by rewrite aget_aset_ne by lia.
    - intros b Hb. rewrite Hln. apply Hra. set_solver. }
  assert (entry (cfs_runqueue s') j = (v, se)) as Hnew.
  { rewrite Hq. apply linked_new; [by rewrite Hln| |set_solver]. intros b Hb. rewrite Hln. apply Hra. set_solver. }
  split.
  - constructor.
    + by rewrite Hq, zlen_linked.
    + rewrite Hq, Hh. apply lchain_linked; [done|done|done|done|]. apply lchain_frame; [lia|done|done].
    + apply NoDup_app in Hnd as (H1 & H12 & H2). apply NoDup_app. split_and!; [done| |constructor; [set_solver|done] ].
      intros a Ha. rewrite not_elem_of_cons. split; [set_solver|auto].
    + intros i Hi. destruct (Z.eq_dec i j) as [->|Hne].
      * unfold entry in Hnew. injection Hnew as _ ->. set_solver.
      * specialize (Ho i ltac:(lia) Hne). unfold entry in Ho. injection Ho as _ ->. rewrite (Hu i Hi). set_solver.
    + rewrite Hr, Hn, !zlen_app, zlen_cons. rewrite zlen_app in Hlt. unfold CFS_MAX_PROCS in *.
      pose proof (zlen_nonneg l1). pose proof (zlen_nonneg l2).
      rewrite u32_small by (unfold is_u32; lia). lia.
  - rewrite fmap_app, fmap_cons, Hnew.
    f_equal; [|f_equal]; apply list_fmap_ext; intros k a Ha%list_elem_of_lookup_2;
      (apply Ho; [apply Hra; set_solver|set_solver]).
Qed.

Lemma lookup_times (s : sched) (f : fair) (a : Z) (p : pcb) :
  fair_rep s f -> procs s !! a = Some p ->
  times f !!! a = (vruntime p, sched_calc_vruntime p (cfs_tick_granularity s)).
Proof.
  intros Hf Hp. rewrite (fr_times s f Hf). unfold times_of.
  by rewrite lookup_total_alt, lookup_fmap, Hp.
Qed.

Lemma null_ne (s : sched) (f : fair) (a : Z) : fair_rep s f -> is_Some (procs s !! a) -> a <> NULL.
Proof. intros Hf [p Hp] ->. by rewrite (fr_null s f Hf) in Hp. Qed.

(** The state between the insertion and the end of [enqueue_entity]. *)
Lemma fair_rep_linked (s s' : sched) (f : fair) (l1 l2 : list Z) (j se nx : Z) (p : pcb) :
  let v := if min_vruntime (cfs_rq s) <? vruntime p then vruntime p else min_vruntime (cfs_rq s) in
  fair_rep s f -> procs s !! se = Some p -> fair_queue s (l1 ++ l2) ->
  pq f = entry (cfs_runqueue s) <$> l1 ++ l2 -> 0 <= j < CFS_MAX_PROCS -> j ∉ l1 ++ l2 ->
  zlen (l1 ++ l2) < CFS_MAX_PROCS ->
  Forall (fun i => n_vruntime (cfs_runqueue s).[i] < v) l1 ->
  match l2 with [] => True | i :: _ => v <= n_vruntime (cfs_runqueue s).[i] end ->
  procs s' = <[se := set_exec_start (tick_count s) p]> (procs s) ->
  cfs_tick_granularity s' = cfs_tick_granularity s ->
  cfs_runqueue s' = linked ((cfs_runqueue s).[j <- mk_cfs_node se v nx]) l1 (c_head (cfs_rq s)) j se v ->
  cfs_rq s' = mk_cfs_rq (match l1 with [] => j | _ => c_head (cfs_rq s) end) (c_curr (cfs_rq s))
                (min_vruntime (cfs_rq s)) (u32 (c_nr_running (cfs_rq s) + 1)) ->
  fair_rep s' (a_cfs (CEnqueue se) f).2.
Proof.
  intros v Hf Hp Hq Hpq Hj Hjl Hlt H1 H2 Hprocs Hgran Hnodes Hrq.
  destruct (fair_queue_linked s s' l1 l2 j se v nx) as [Hq' He]; try done; [|by rewrite Hrq..|].
  { apply (null_ne s f); [done|]. eauto. }
  assert (zlen (pq f) <? CFS_MAX_PROCS = true) as Hc.
  { rewrite Hpq. unfold zlen in *. rewrite length_fmap. by apply Z.ltb_lt. }
  cbn [a_cfs snd]. rewrite Hc, (lookup_times s f se p) by done. cbn [fst].
  rewrite (fr_least s f Hf). replace (Z.max (vruntime p) (min_vruntime (cfs_rq s))) with v by (unfold v; case_if; lia).
  pose proof (fair_rep_update s f se p (set_exec_start (tick_count s)) Hf Hp ltac:(done)) as Hf'.
  constructor; cbn [pq least times].
  - rewrite Hprocs. apply Hf'.
  - exists (l1 ++ j :: l2). split; [done|]. rewrite He, Hpq, fmap_app. apply place_app; [by apply Forall_fmap|by destruct l2].
  - by rewrite Hrq.
  - rewrite Hprocs, Hgran. apply Hf'.
  - rewrite Hrq, Hprocs. apply Hf'.
Qed.

Lemma enqueue_entity_spec (s : sched) (f : fair) (se : Z) :
  fair_rep s f -> is_Some (procs s !! se) ->
  wp (enqueue_entity se) (fun _ s' => fair_rep s' (a_cfs (CEnqueue se) f).2) s.
Proof.
  intros Hf Hse. pose proof (null_ne s f se Hf Hse) as Hnn. destruct Hse as [p Hp].
  destruct (fr_queue s f Hf) as (l & Hq & Hpq). unfold enqueue_entity, cfs_alloc_node.
  rewrite (proj2 (Z.eqb_neq se NULL) Hnn). wp_run. pose proof (alloc_spec s l Hq) as Ha.
  destruct (List.find _ _) as [j|]; cbn [default from_option id].
  2: { assert (zlen (pq f) = CFS_MAX_PROCS) as E by (rewrite Hpq; unfold zlen in *; by rewrite length_fmap).
       rewrite Z.eqb_refl. apply wp_ret. cbn [a_cfs snd]. rewrite E. done. }
  destruct Ha as (Hj & Hjl & Hlt). rewrite (proj2 (Z.eqb_neq j NIL)) by (unfold NIL; lia).
  wp_run. eapply wp_deref; [exact Hp|]. wp_run. set (v := if _ <? vruntime p then _ else _).
  unfold set_node. wp_run. eapply wp_update; [exact Hp|]. wp_run.
  set (n0 := mk_cfs_node se v _). set (nodes := (cfs_runqueue s).[j <- n0]).
  assert (lchain nodes (c_head (cfs_rq s)) l) as Hc by (apply lchain_frame; [lia|done|apply Hq]).
  destruct (cfs_place_spec nodes v l (c_head (cfs_rq s)) NIL (Z.to_nat CFS_MAX_PROCS) Hc)
    as (l1 & l2 & -> & Hpl & H1 & H2); [unfold zlen in Hlt; lia|].
  eapply wp_of_option; [exact Hpl|].
  assert (forall i, i ∈ l1 ++ l2 -> nodes.[i] = (cfs_runqueue s).[i]) as Hsame.
  { intros i Hi. unfold nodes. apply aget_aset_ne; [lia| |congruence].
    pose proof (lchain_range _ _ _ i Hc Hi). lia. }
  assert (Forall (fun i => n_vruntime (cfs_runqueue s).[i] < v) l1) as H1'.
  { apply Forall_forall. intros i Hi. rewrite <-(Hsame i) by (apply elem_of_app; by left).
    rewrite Forall_forall in H1. by apply H1. }
  assert (match l2 with [] => True | i :: _ => v <= n_vruntime (cfs_runqueue s).[i] end) as H2'.
  { destruct l2 as [|i l2]; [done|]. rewrite <-(Hsame i); [done|]. apply elem_of_app. right. by left. }
  destruct l1 as [|b l1].
  - cbn [List.last]. rewrite Z.eqb_refl. wp_run.
    lazymatch goal with |- wp _ _ ?st =>
      refine (enqueue_preempt_spec st _ se v (fair_rep_linked s st f [] l2 j se (n_next n0) p Hf Hp Hq Hpq Hj Hjl Hlt
        H1' H2' eq_refl eq_refl eq_refl eq_refl) _) end.
    cbn. rewrite lookup_insert_eq. eauto.
  - pose proof (last_elem b NIL l1) as Hlast.
    assert (List.last (b :: l1) NIL <> NIL) as Hnil.
    { pose proof (lchain_range _ _ _ (List.last (b :: l1) NIL) Hc ltac:(apply elem_of_app; by left)). unfold NIL at 2. lia. }
    rewrite (proj2 (Z.eqb_neq _ _) Hnil). wp_run.
    lazymatch goal with |- wp _ _ ?st =>
      refine (enqueue_preempt_spec st _ se v (fair_rep_linked s st f (b :: l1) l2 j se (n_next n0) p Hf Hp Hq Hpq Hj Hjl Hlt
        H1' H2' eq_refl eq_refl eq_refl eq_refl) _) end.
    cbn. rewrite lookup_insert_eq. eauto.
Qed.

(** ** Removal *)

Lemma fair_queue_head (s : sched) (a : Z) (l : list Z) :
  fair_queue s (a :: l) -> c_head (cfs_rq s) = a /\ 0 <= a < CFS_MAX_PROCS /\ a ∉ l /\
  lchain (cfs_runqueue s) (n_next (cfs_runqueue s).[a]) l /\ n_proc (cfs_runqueue s).[a] <> NULL.
Proof.
  intros [_ (Hh & Ha & Hc) [Hn _]%NoDup_cons Hu _]. split_and!; [done|lia|lia|done|done|].
  apply (Hu a Ha). by left.
Qed.
Lemma pick_next_entity_spec (s : sched) (f : fair) (a : Z) (l : list Z) :
  fair_rep s f -> fair_queue s (a :: l) ->
  wp pick_next_entity (fun r s' => r = n_proc (cfs_runqueue s).[a] /\ s' = s) s.
Proof.
  intros Hf Hq. destruct (fair_queue_head s a l Hq) as (Hh & Ha & _ & _ & _).
  unfold pick_next_entity. wp_run. rewrite (fq_count s _ Hq), Hh, zlen_cons.
  pose proof (zlen_nonneg l). rewrite (proj2 (Z.eqb_neq (1 + zlen l) 0)), (proj2 (Z.eqb_neq a NIL)) by (unfold NIL; lia).
  cbn [orb]. wp_run. destruct (Z.eqb_spec (c_curr (cfs_rq s)) NULL) as [E|E]; cbn [orb]; [by wp_run|].
  case_if; wp_run; [done|].
  destruct (fr_curr s f Hf) as [?|[c Hc] ]; [done|]. eapply wp_deref; [exact Hc|]. by wp_run.
Qed.

Lemma dequeued_rep (s s' : sched) (f : fair) (a : Z) (l : list Z) :
  fair_rep s f -> fair_queue s (a :: l) -> pq f = entry (cfs_runqueue s) <$> a :: l ->
  procs s' = procs s -> cfs_tick_granularity s' = cfs_tick_granularity s ->
  cfs_runqueue s' = (cfs_runqueue s).[a <- mk_cfs_node NULL 0 NIL] ->
  cfs_rq s' = mk_cfs_rq (n_next (cfs_runqueue s).[a]) (c_curr (cfs_rq s))
    (if min_vruntime (cfs_rq s) <? n_vruntime (cfs_runqueue s).[a] then n_vruntime (cfs_runqueue s).[a]
     else min_vruntime (cfs_rq s)) (u32 (c_nr_running (cfs_rq s) - 1)) ->
  fair_rep s' (a_cfs CDequeue f).2.
Proof.
  intros Hf Hq Hpq Hp Hg Hn Hrq. destruct (fair_queue_head s a l Hq) as (Hh & Ha & Hal & Hc & _).
  cbn [a_cfs]. rewrite Hpq, fmap_cons. unfold entry at 1. cbn [snd].
  pose proof Hq as [Hlen _ Hnd Hu Hcnt]. constructor; cbn [pq least times].
  - rewrite Hp. apply Hf.
  - exists l. split; [constructor|].
    + by rewrite Hn, zlen_aset.
    + rewrite Hn, Hrq. apply lchain_frame; [lia|done|done].
    + by apply NoDup_cons in Hnd as [_ ?].
    + intros i Hi. rewrite Hn. destruct (Z.eq_dec i a) as [->|Hne].
      * rewrite aget_aset_eq by lia. cbn. done.
      * rewrite aget_aset_ne, (Hu i Hi), elem_of_cons by lia. naive_solver.
    + rewrite Hrq. cbn. rewrite Hcnt, zlen_cons. pose proof (lchain_length _ _ _ Hc ltac:(by apply NoDup_cons in Hnd as [_ ?])).
      pose proof (zlen_nonneg l). unfold CFS_MAX_PROCS in *. rewrite u32_small by (unfold is_u32; lia). lia.
    + rewrite Hn. symmetry. apply entry_frame; [lia|done|]. intros b Hb. by eapply lchain_range.
  - rewrite Hrq, (fr_least s f Hf). cbn. case_if; lia.
  - rewrite Hp, Hg. apply Hf.
  - rewrite Hrq, Hp. apply Hf.
Qed.

Lemma sched_cfs_dequeue_spec (s : sched) (f : fair) :
  fair_rep s f ->
  wp sched_cfs_dequeue (fun r s' => r = (a_cfs CDequeue f).1 /\ fair_rep s' (a_cfs CDequeue f).2) s.
Proof.
  intros Hf. destruct (fr_queue s f Hf) as (l & Hq & Hpq). unfold sched_cfs_dequeue. wp_run.
  destruct l as [|a l].
  - rewrite (fq_count s _ Hq). cbn [zlen length]. wp_run. cbn [a_cfs]. rewrite Hpq. done.
  - destruct (fair_queue_head s a l Hq) as (Hh & Ha & Hal & Hc & Hnn).
    rewrite (fq_count s _ Hq), Hh, zlen_cons. pose proof (zlen_nonneg l).
    rewrite (proj2 (Z.eqb_neq (1 + zlen l) 0)), (proj2 (Z.eqb_neq a NIL)) by (unfold NIL; lia).
    cbn [orb]. eapply wp_seq; [by eapply pick_next_entity_spec|]. intros x s1 [-> ->].
    rewrite (proj2 (Z.eqb_neq _ NULL) Hnn). unfold cfs_find_node. wp_run.
    assert (cfs_find_from (Z.to_nat CFS_MAX_PROCS) (cfs_runqueue s) (n_proc (cfs_runqueue s).[a]) NIL (c_head (cfs_rq s)) = Some (a, NIL)) as E.
    { rewrite Hh. destruct (Z.to_nat CFS_MAX_PROCS); simpl;
        by rewrite (proj2 (Z.eqb_neq a NIL)), Z.eqb_refl by (unfold NIL; lia). }
    eapply wp_of_option; [exact E|]. cbv beta iota. rewrite (proj2 (Z.eqb_neq a NIL)) by (unfold NIL; lia).
    wp_run. rewrite Z.eqb_refl. wp_run. unfold cfs_free_node, set_node. wp_run. split.
    + cbn [a_cfs]. rewrite Hpq, fmap_cons. done.
    + apply (dequeued_rep s _ f a l Hf Hq Hpq); try done. cbn. by rewrite (fq_count s _ Hq), zlen_cons.
Qed.

(** ** Ticks *)

Lemma task_tick_fair_spec (s : sched) (f : fair) (curr : Z) :
  fair_rep s f -> is_Some (procs s !! curr) ->
  wp (task_tick_fair curr) (fun _ s' => fair_rep s' (a_cfs (CTick curr) f).2) s.
Proof.
  intros Hf Hs. pose proof (null_ne s f curr Hf Hs) as Hnn. destruct Hs as [p Hp].
  unfold task_tick_fair. rewrite (proj2 (Z.eqb_neq curr NULL) Hnn). wp_run. eapply wp_deref; [exact Hp|]. wp_run.
  set (p' := set_vruntime (u64 (vruntime p + sched_calc_vruntime p (cfs_tick_granularity s))) p).
  eapply (wp_update curr _ p); [exact Hp|]. fold p'.
  assert (fair_rep (set_procs (<[curr := p']> (procs s)) s) (a_cfs (CTick curr) f).2) as Hf'.
  { destruct Hf as [Hn (l & [] & Hpq) Hl Ht Hc]. constructor; cbn.
    - by rewrite lookup_insert_ne.
    - exists l. split; [by constructor|done].
    - done.
    - rewrite Ht. unfold times_of. apply map_eq. intros b. rewrite !lookup_fmap.
      destruct (decide (b = curr)) as [->|].
      + by rewrite lookup_alter_eq, lookup_insert_eq, lookup_fmap, Hp.
      + by rewrite lookup_alter_ne, lookup_insert_ne, lookup_fmap by done.
    - destruct Hc as [?|Hc]; [by left|right]. destruct (decide (c_curr (cfs_rq s) = curr)) as [->|].
      + rewrite lookup_insert_eq. eauto.
      + by rewrite lookup_insert_ne. }
  case_if; [|by wp_run]. eapply wp_update; [by apply lookup_insert_eq|]. by apply fair_rep_update; [|apply lookup_insert_eq|].
Qed.

(** ** Sequences of operations *)

Definition known (ts : gmap Z (Z * Z)) (op : cfs_op) : Prop :=
  match op with
  | CEnqueue a | CTick a => is_Some (ts !! a)
  | CDequeue => True
  end.

Fixpoint cfs_exec (ops : list cfs_op) : M (list Z) :=
  match ops with
  | [] => mret []
  | op :: ops => r ← run_cfs op; rs ← cfs_exec ops; mret (r :: rs)
  end.
Fixpoint a_cfs_exec (ops : list cfs_op) (f : fair) : list Z * fair :=
  match ops with
  | [] => ([], f)
  | op :: ops => let '(r, f) := a_cfs op f in let '(rs, f) := a_cfs_exec ops f in (r :: rs, f)
  end.

Lemma known_procs (s : sched) (f : fair) (a : Z) : fair_rep s f -> is_Some (times f !! a) -> is_Some (procs s !! a).
Proof. intros Hf. rewrite (fr_times s f Hf). unfold times_of. rewrite lookup_fmap. by intros [? (p & Hp & _)%fmap_Some]. Qed.

Lemma known_kept (op op' : cfs_op) (f : fair) : known (times f) op' -> known (times (a_cfs op f).2) op'.
Proof.
  intros H. assert (forall a, is_Some (times f !! a) -> is_Some (times (a_cfs op f).2 !! a)) as Hk.
  { intros a Ha. destruct op; cbn; [by case_if|by destruct (pq f) as [|[] ]|]. by apply lookup_alter_is_Some. }
  destruct op'; cbn in *; auto.
Qed.

Lemma run_cfs_spec (op : cfs_op) (s : sched) (f : fair) :
  fair_rep s f -> known (times f) op ->
  wp (run_cfs op) (fun r s' => r = (a_cfs op f).1 /\ fair_rep s' (a_cfs op f).2) s.
Proof.
  intros Hf Hk. destruct op as [se| |c]; cbn [run_cfs].
  - eapply wp_seq; [by apply (enqueue_entity_spec s f se), (known_procs s f)|]. intros [] s' H. by apply wp_ret.
  - by apply sched_cfs_dequeue_spec.
  - eapply wp_seq; [by apply (task_tick_fair_spec s f c), (known_procs s f)|]. intros [] s' H. by apply wp_ret.
Qed.

Lemma cfs_exec_spec (ops : list cfs_op) (s : sched) (f : fair) :
  fair_rep s f -> Forall (known (times f)) ops ->
  wp (cfs_exec ops) (fun rs s' => rs = (a_cfs_exec ops f).1 /\ fair_rep s' (a_cfs_exec ops f).2) s.
Proof.
  revert s f. induction ops as [|op ops IH]; intros s f Hf Hk; [by apply wp_ret|].
  apply Forall_cons in Hk as [Hop Hk]. cbn [cfs_exec a_cfs_exec].
  eapply wp_seq; [by apply (run_cfs_spec op s f)|]. intros r s1 [-> Hf1].
  destruct (a_cfs op f) as [r f1] eqn:E. cbn [fst snd] in *.
  eapply wp_seq; [apply (IH s1 f1 Hf1)|].
  - eapply Forall_impl; [exact Hk|]. intros op' Hop'. apply (known_kept op) in Hop'. by rewrite E in Hop'.
  - intros rs s2 [-> Hf2]. apply wp_ret. by destruct (a_cfs_exec ops f1).
Qed.

(** *** Order *)

Definition before (e e' : Z * Z) : Prop := e.1 <= e'.1.

Lemma place_elem (e e' : Z * Z) (es : list (Z * Z)) : e' ∈ place e es <-> e' = e \/ e' ∈ es.
Proof.
  induction es as [|e1 es IH]; simpl; [set_solver|]. case_if; [|set_solver].
  rewrite !elem_of_cons, IH. naive_solver.
Qed.

Lemma place_sorted (e : Z * Z) (es : list (Z * Z)) : StronglySorted before es -> StronglySorted before (place e es).
Proof.
  induction 1 as [|e1 es Hs IH Hf]; simpl; [repeat constructor|].
  destruct (Z.ltb_spec e1.1 e.1) as [Hlt|Hge].
  - constructor; [done|]. apply Forall_forall. intros e' [->|He]%place_elem; unfold before; [lia|].
    rewrite Forall_forall in Hf. by apply Hf.
  - constructor; [by constructor|]. constructor; [done|].
    eapply Forall_impl; [exact Hf|]. unfold before. intros e'. lia.
Qed.

Lemma a_cfs_exec_sorted (ops : list cfs_op) (f : fair) :
  StronglySorted before (pq f) -> StronglySorted before (pq (a_cfs_exec ops f).2).
Proof.
  revert f. induction ops as [|op ops IH]; intros f Hs; [done|]. cbn [a_cfs_exec].
  assert (StronglySorted before (pq (a_cfs op f).2)) as H1.
  { destruct op; cbn; [case_if; [by apply place_sorted|done]| |done].
    destruct (pq f) as [|[v p] es] eqn:E; cbn; [by rewrite E|]. by inversion Hs. }
  destruct (a_cfs op f) as [r f1]. specialize (IH f1 H1). by destruct (a_cfs_exec ops f1).
Qed.

(** ** The deadline class *)

(** The queue is empty at first, and then it stays so: a process is put into it only if its
    node is there already. *)
Lemma sched_dl_enqueue_empty (s : sched) (proc : Z) :
  d_head (dl_rq s) = NIL -> sched_dl_enqueue proc s = Some (tt, s).
Proof.
  intros E. unfold sched_dl_enqueue. destruct (proc =? NULL); [done|].
  unfold dl_find_node, mbind, FM_bind, gets. cbv beta iota. by rewrite E.
Qed.

(** ** The theorem *)

(** C13: from [sched_cfs_init] on, any sequence of insertions, removals and ticks of the
    fair class succeeds and returns what a priority queue ordered by virtual run time
    returns; the waiting processes are kept in that order, so a removal takes one that
    has run least. *)
Theorem cfs_refines (s : sched) (ops : list cfs_op) :
  procs s !! NULL = None -> Forall (known (times_of 1 (procs s))) ops ->
  let f' := (a_cfs_exec ops (mk_fair (times_of 1 (procs s)) [] 0)).2 in
  exists rs s', (sched_cfs_init ;; cfs_exec ops) s = Some (rs, s') /\
    rs = (a_cfs_exec ops (mk_fair (times_of 1 (procs s)) [] 0)).1 /\ fair_rep s' f' /\
    StronglySorted before (pq f').
Proof.
  intros Hn Hk f'. set (f := mk_fair (times_of 1 (procs s)) [] 0).
  assert (wp (sched_cfs_init ;; cfs_exec ops) (fun rs s' => rs = (a_cfs_exec ops f).1 /\ fair_rep s' (a_cfs_exec ops f).2) s) as H.
  { unfold sched_cfs_init. wp_run. apply cfs_exec_spec; [|done]. constructor; cbn; [done| |done|done|by left].
    exists []. split; [|done]. constructor; try done; [apply NoDup_nil_2|]. cbn.
    intros i Hi. split; [|by intros ?%not_elem_of_nil]. intros Hp. exfalso. apply Hp.
    unfold aget. destruct (lookup_lt_is_Some_2 (range 0 CFS_MAX_PROCS) (Z.to_nat i)) as [k Hi'].
    { pose proof (zlen_range 0 CFS_MAX_PROCS) as E. unfold zlen, CFS_MAX_PROCS in *. lia. }
    rewrite (list_lookup_total_correct _ _ (mk_cfs_node NULL 0 NIL)); [done|]. by rewrite list_lookup_fmap, Hi'. }
  destruct (wp_run _ _ _ H) as (rs & s' & Hrun & Hrs & Hf). exists rs, s'.
  split_and!; [done|done|done|]. apply a_cfs_exec_sorted. constructor.
Qed.

Definition cfs_sample (v1 v2 : Z) : sched :=
  mk_sched (list_to_map [(101, set_vruntime v1 (set_effective_priority 50 zero_pcb));
                         (102, set_vruntime v2 (set_effective_priority 90 zero_pcb))])
    [] [] NULL NULL (mk_spinlock 0) 0 0 NULL NULL [] (mk_cfs_rq NIL NULL 0 0) 0 [] (mk_dl_rq NIL NIL 0 0) []
    (mk_tables (mk_load [] 0 0) [] 0 [] [] (mk_gstats 0 0 0 0 0 0 0) [] 0 (mk_energy 0 0 0 0 0 0 0 0)
       (mk_tunables 0 0 0 0 0 0 0 0 0) (mk_domain 0 0 0 0 0 0)) [].

Lemma cfs_refines_witness :
  exists s', (sched_cfs_init ;; cfs_exec [CEnqueue 101; CTick 102; CEnqueue 102; CDequeue; CDequeue; CDequeue])
               (cfs_sample 20 5) = Some ([NULL; NULL; NULL; 102; 101; NULL], s').
Proof.
  destruct (cfs_refines (cfs_sample 20 5) [CEnqueue 101; CTick 102; CEnqueue 102; CDequeue; CDequeue; CDequeue])
    as (rs & s' & Hrun & Hrs & _).
  - reflexivity.
  - repeat constructor; by eexists.
  - exists s'. rewrite Hrun, Hrs. vm_compute. reflexivity.
Defined.
End SchedCfs.
