(* ===== verification/SchedInv.v ===== *)
(** * The invariant of the scheduler

    [consistent s qs pl]: [pl] is the process list, a process of the list is in a queue
    exactly when it is [PROCESS_READY], and then in the queue of its level, and only the
    current process is [PROCESS_RUNNING].  [enq] and [deq] are the abstract operations on
    the queues.  [Module SchedInv] proves what each operation of src/kernel/sched.c does
    to the lists, that none of them faults or takes the lock twice, and that all keep the
    invariant, for processes outside the fair and the deadline queue. *)

From S2P Require Import Prelude FaultM Dll Sync Sched SchedQueue.

Module SchedInv.
Export SchedQueue.

(** ** Abstract queue operations *)

Definition enq (q : qref) (a : Z) (qs : list (list Z)) : list (list Z) :=
  set_ready q (ready qs q ++ [a]) qs.
Definition deq (a : Z) (qs : list (list Z)) : list (list Z) := filter (fun b => b <> a) <$> qs.

Lemma length_enq (q : qref) (a : Z) (qs : list (list Z)) : length (enq q a qs) = length qs.
Proof. apply length_set_ready. Qed.

Lemma length_deq (a : Z) (qs : list (list Z)) : length (deq a qs) = length qs.
Proof. apply length_fmap. Qed.

Lemma elem_of_enq (q q' : qref) (a b : Z) (qs : list (list Z)) :
  length qs = 10%nat -> valid_ref q -> valid_ref q' ->
  b ∈ ready (enq q a qs) q' <-> b ∈ ready qs q' \/ (b = a /\ q' = q).
Proof.
  intros Hl Hq Hq'. unfold enq. destruct (decide (q' = q)) as [->|Hn].
  - rewrite ready_set_eq by done. set_solver.
  - rewrite ready_set_ne by (done || congruence). naive_solver.
Qed.

Lemma ready_deq (a : Z) (q : qref) (qs : list (list Z)) :
  length qs = 10%nat -> valid_ref q -> ready (deq a qs) q = filter (fun b => b <> a) (ready qs q).
Proof.
  intros Hl Hq. unfold ready. apply list_lookup_total_correct. unfold deq. rewrite list_lookup_fmap.
  by rewrite (ready_lookup qs q Hl Hq).
Qed.

Lemma elem_of_deq (a b : Z) (q : qref) (qs : list (list Z)) :
  length qs = 10%nat -> valid_ref q -> b ∈ ready (deq a qs) q <-> b <> a /\ b ∈ ready qs q.
Proof. intros. rewrite ready_deq by done. by rewrite list_elem_of_filter. Qed.

Lemma filter_not_elem (a : Z) (l : list Z) : a ∉ l -> filter (fun b => b <> a) l = l.
Proof. intros Ha. apply filter_id, Forall_forall. by intros b Hb ->. Qed.

Lemma deq_absent (a : Z) (qs : list (list Z)) : a ∉ concat qs -> deq a qs = qs.
Proof.
  intros Ha. unfold deq. rewrite <-(list_fmap_id qs) at 2. apply list_fmap_ext. intros i l Hi.
  apply filter_not_elem. intros Hal. apply Ha, elem_of_concat_lookup. eauto.
Qed.

Lemma filter_middle (a : Z) (l k : list Z) :
  NoDup (l ++ a :: k) -> filter (fun b => b <> a) (l ++ a :: k) = l ++ k.
Proof.
  intros (_ & Hd & [Ha _]%NoDup_cons)%NoDup_app. rewrite filter_app, filter_cons_False by naive_solver.
  rewrite !filter_not_elem; [done|done|]. intros Hal. apply (Hd a Hal). set_solver.
Qed.

Lemma deq_middle (a : Z) (q : qref) (l k : list Z) (qs : list (list Z)) :
  length qs = 10%nat -> NoDup (concat qs) -> valid_ref q -> ready qs q = l ++ a :: k ->
  deq a qs = set_ready q (l ++ k) qs.
Proof.
  intros Hl Hnd Hq He. apply list_eq. intros i. unfold deq, set_ready. rewrite list_lookup_fmap.
  destruct (decide (i = qindex q)) as [->|Hi].
  - rewrite list_lookup_insert_eq by (rewrite Hl; by apply qindex_lt).
    rewrite ready_lookup, He by done. simpl. f_equal. apply filter_middle. rewrite <-He. by apply NoDup_ready.
  - rewrite list_lookup_insert_ne by done. destruct (qs !! i) as [m|] eqn:Hm; [|done]. simpl. f_equal.
    apply filter_not_elem. intros Ham. apply Hi.
    eapply NoDup_concat_inj; [done|done|by apply ready_lookup|done|]. rewrite He. set_solver.
Qed.

(** Taking the first process off is removing it. *)
Lemma drop_first_deq (qs : list (list Z)) (d : Z) :
  NoDup (concat qs) -> d ∉ concat qs -> drop_first qs = deq (first_of d (concat qs)) qs.
Proof.
  induction qs as [|[|a l] qs IH]; intros Hnd Hd; [done| |].
  - simpl in *. rewrite IH by done. done.
  - unfold first_of. simpl in *. apply NoDup_cons in Hnd as [Ha (_ & Hdis & _)%NoDup_app].
    apply not_elem_of_app in Ha as [Hal Haq]. f_equal.
    + rewrite filter_cons_False by naive_solver. by rewrite filter_not_elem.
    + symmetry. by apply deq_absent.
Qed.

(** ** Consistency *)

(** Policies that the ready queues serve: real-time without the flag of the feedback
    scheduler, or neither fair nor deadline. *)
Definition plain (policy : Z) : bool :=
  if has policy PROCESS_REAL_TIME then negb (has policy PROCESS_NORMAL)
  else negb (has policy PROCESS_CFS) && negb (has policy PROCESS_DEADLINE).

Record wf_pcb (p : pcb) : Prop := {
  wf_policy : plain (sched_policy p) = true;
  wf_level : 0 <= queue_level p < SCHED_QUEUE_COUNT;
  wf_prio : 0 <= priority p <= SCHED_PRIORITY_MAX;
  wf_eff : 0 <= effective_priority p <= SCHED_PRIORITY_MAX;
}.

Lemma wf_pcb_same (p p' : pcb) :
  wf_pcb p -> sched_policy p' = sched_policy p -> queue_level p' = queue_level p ->
  priority p' = priority p -> effective_priority p' = effective_priority p -> wf_pcb p'.
Proof. intros [H1 H2 H3 H4] E1 E2 E3 E4. constructor; congruence. Qed.

Definition plinks (ps : gmap Z pcb) (a : Z) : option (Z * Z) :=
  (fun p => (prev p, next p)) <$> ps !! a.

Record listed (s : sched) (pl : list Z) : Prop := {
  ls_head : process_list s = first_of NULL pl;
  ls_dll : dll NULL (plinks (procs s)) pl;
  ls_nodup : NoDup pl;
}.

Record consistent (s : sched) (qs : list (list Z)) (pl : list Z) : Prop := {
  co_listed : listed s pl;
  co_queued : forall q a, valid_ref q -> a ∈ ready qs q ->
    a ∈ pl /\ exists p, procs s !! a = Some p /\ state p = PROCESS_READY /\ home p = q;
  co_ready : forall a p, a ∈ pl -> procs s !! a = Some p -> state p = PROCESS_READY -> a ∈ concat qs;
  co_running : forall a p, a ∈ pl -> procs s !! a = Some p -> state p = PROCESS_RUNNING -> a = current s;
  co_current : current s = NULL \/ exists p, procs s !! current s = Some p /\
    (state p = PROCESS_RUNNING -> current s ∈ pl \/ current s = idle_task s);
  co_idle : is_Some (procs s !! idle_task s) /\ idle_task s ∉ pl;
  co_wf : forall a p, a ∈ pl -> procs s !! a = Some p -> wf_pcb p;
}.

Definition unlocked (s : sched) : Prop := lock s = mk_spinlock 0 /\ in_schedule s = 0.

(** The invariant between operations. *)
Definition sched_inv (s : sched) : Prop :=
  exists qs pl, queued s qs /\ consistent s qs pl /\ unlocked s.

(** ** Frames *)

Lemma queued_frame (s s' : sched) (qs : list (list Z)) :
  procs s' = procs s -> rt_queues s' = rt_queues s -> mlfq_queues s' = mlfq_queues s ->
  queued s qs -> queued s' qs.
Proof.
  intros Hp Hr Hm [H1 H2 H3 H4 H5 H6 H7]. constructor; rewrite ?Hp, ?Hr, ?Hm; try done.
  intros q Hq. eapply represents_frame; [by apply H4| |by rewrite Hp].
  destruct q; simpl; by rewrite ?Hr, ?Hm.
Qed.

Lemma consistent_frame (s s' : sched) (qs : list (list Z)) (pl : list Z) :
  procs s' = procs s -> process_list s' = process_list s -> current s' = current s ->
  idle_task s' = idle_task s -> consistent s qs pl -> consistent s' qs pl.
Proof.
  intros Hp Hl Hc Hi [ [A B C] H2 H3 H4 H5 H6 H7].
  constructor; rewrite ?Hp, ?Hl, ?Hc, ?Hi; try done. constructor; by rewrite ?Hp, ?Hl.
Qed.

Lemma strip_lookup (s s' : sched) (a : Z) (p' : pcb) :
  strip s' = strip s -> procs s' !! a = Some p' ->
  exists p, procs s !! a = Some p /\ unlink p = unlink p'.
Proof.
  intros Hs Hp. assert (unlink <$> procs s' = unlink <$> procs s) as He.
  { change (procs (strip s') = procs (strip s)). by rewrite Hs. }
  assert ((unlink <$> procs s) !! a = Some (unlink p')) as Hl by (by rewrite <-He, lookup_fmap, Hp).
  rewrite lookup_fmap in Hl. apply fmap_Some in Hl as (p & Hp' & Hu). eauto.
Qed.

(** Any field but the queue pointers can be read off [unlink]. *)
Lemma unlink_field {A} (f : pcb -> A) (p p' : pcb) :
  (forall p, f (unlink p) = f p) -> unlink p = unlink p' -> f p' = f p.
Proof. intros Hf Hu. by rewrite <-(Hf p'), <-Hu, Hf. Qed.

Lemma strip_field {A} (f : pcb -> A) (s s' : sched) (a : Z) :
  (forall p, f (unlink p) = f p) -> strip s' = strip s -> f (procs s' !!! a) = f (procs s !!! a).
Proof.
  intros Hf Hs. rewrite !lookup_total_alt. destruct (procs s' !! a) as [p'|] eqn:Hp'.
  - destruct (strip_lookup s s' a p' Hs Hp') as (p & -> & Hu). simpl. by apply (unlink_field f p p').
  - destruct (procs s !! a) as [p|] eqn:Hp; [|done].
    destruct (strip_lookup s' s a p) as (p' & Hp2 & _); [done|done|]. by rewrite Hp' in Hp2.
Qed.

(** A variable that [strip] keeps. *)
Lemma strip_var {A} (f : sched -> A) (s s' : sched) :
  (forall s, f (strip s) = f s) -> strip s' = strip s -> f s' = f s.
Proof. intros Hf Hs. by rewrite <-(Hf s'), Hs, Hf. Qed.

Lemma plinks_strip (s s' : sched) (a : Z) :
  strip s' = strip s -> plinks (procs s') a = plinks (procs s) a.
Proof.
  intros Hs. unfold plinks. destruct (procs s' !! a) as [p'|] eqn:Hp'.
  - destruct (strip_lookup s s' a p' Hs Hp') as (p & -> & Hu). simpl. f_equal.
    by apply (unlink_field (fun p => (prev p, next p))).
  - destruct (procs s !! a) as [p|] eqn:Hp; [|done].
    destruct (strip_lookup s' s a p) as (p' & Hp2 & _); [done|done|]. by rewrite Hp' in Hp2.
Qed.

(** Consistency does not depend on the queue pointers. *)
Lemma consistent_strip (s s' : sched) (qs : list (list Z)) (pl : list Z) :
  strip s' = strip s -> consistent s qs pl -> consistent s' qs pl.
Proof.
  intros Hs [ [A B C] H2 H3 H4 H5 H6 H7].
  assert (process_list s' = process_list s) as El by (change (process_list (strip s') = process_list (strip s)); by rewrite Hs).
  assert (current s' = current s) as Ec by (change (current (strip s') = current (strip s)); by rewrite Hs).
  assert (idle_task s' = idle_task s) as Ei by (change (idle_task (strip s') = idle_task (strip s)); by rewrite Hs).
  constructor; rewrite ?El, ?Ec, ?Ei.
  - constructor; [by rewrite El| |done]. eapply dseg_ext; [|exact B]. intros a _. by apply plinks_strip.
  - intros q a Hq Ha. destruct (H2 q a Hq Ha) as (Hl & p & Hp & Hst & Hh). split; [done|].
    destruct (strip_lookup s' s a p) as (p' & Hp' & Hu); [done|done|]. exists p'.
    rewrite (unlink_field state p p'), (unlink_field home p p') by (done || by symmetry). done.
  - intros a p' Ha Hp' Hst. destruct (strip_lookup s s' a p' Hs Hp') as (p & Hp & Hu).
    apply (H3 a p Ha Hp). by rewrite (unlink_field state p' p) by (done || by symmetry).
  - intros a p' Ha Hp' Hst. destruct (strip_lookup s s' a p' Hs Hp') as (p & Hp & Hu).
    apply (H4 a p Ha Hp). by rewrite (unlink_field state p' p) by (done || by symmetry).
  - destruct H5 as [?|(p & Hp & Hi)]; [by left|right].
    destruct (strip_lookup s' s (current s) p) as (p' & Hp' & Hu); [done|done|]. exists p'.
    split; [done|]. rewrite (unlink_field state p p') by (done || by symmetry). done.
  - by rewrite (strip_dom s s').
  - intros a p' Ha Hp'. destruct (strip_lookup s s' a p' Hs Hp') as (p & Hp & Hu).
    destruct (H7 a p Ha Hp) as [W1 W2 W3 W4]. constructor.
    + by rewrite (unlink_field sched_policy p p').
    + by rewrite (unlink_field queue_level p p').
    + by rewrite (unlink_field priority p p').
    + by rewrite (unlink_field effective_priority p p').
Qed.

(** ** One control block changes *)

Lemma queued_store (s : sched) (qs : list (list Z)) (a : Z) (p p' : pcb) :
  queued s qs -> procs s !! a = Some p ->
  queue_prev p' = queue_prev p -> queue_next p' = queue_next p ->
  queued (set_procs (<[a := p']> (procs s)) s) qs.
Proof.
  intros Hqs Hp Hpv Hnx.
  assert (forall b, qlinks (<[a := p']> (procs s)) b = qlinks (procs s) b) as Hlk.
  { intros b. rewrite qlinks_insert. destruct (decide (b = a)) as [->|]; [|done].
    unfold qlinks. rewrite Hp. simpl. by rewrite Hpv, Hnx. }
  destruct Hqs as [H1 H2 H3 H4 H5 H6 H7]. constructor; simpl; try done.
  - intros q Hq. eapply represents_frame; [by apply H4|by destruct q|]. intros b _. apply Hlk.
  - rewrite lookup_insert_ne; [done|]. intros ->. by rewrite H6 in Hp.
  - intros b Hb Hnb. rewrite Hlk. apply H7; [|done]. destruct (decide (b = a)) as [->|]; [eauto|].
    by rewrite lookup_insert_ne in Hb.
Qed.

(** The control block of [a] becomes [p'], the queues become [qs'] and the current process
    [cur]: the other processes keep their place. *)
Lemma consistent_change (s s' : sched) (qs qs' : list (list Z)) (pl : list Z) (a : Z) (p p' : pcb) :
  consistent s qs pl -> procs s !! a = Some p -> procs s' = <[a := p']> (procs s) ->
  process_list s' = process_list s -> idle_task s' = idle_task s ->
  prev p' = prev p -> next p' = next p -> (a ∈ pl -> wf_pcb p') ->
  length qs = 10%nat -> length qs' = 10%nat ->
  (forall q b, valid_ref q -> b <> a -> b ∈ ready qs' q <-> b ∈ ready qs q) ->
  (forall q, valid_ref q -> a ∈ ready qs' q -> a ∈ pl /\ state p' = PROCESS_READY /\ home p' = q) ->
  (a ∈ pl -> state p' = PROCESS_READY -> a ∈ concat qs') ->
  (a ∈ pl -> state p' = PROCESS_RUNNING -> a = current s') ->
  (state p' = PROCESS_RUNNING -> a = current s' -> a ∈ pl \/ a = idle_task s) ->
  current s' = current s \/
    (current s' = a /\ forall b q, b ∈ pl -> b <> a -> procs s !! b = Some q -> state q <> PROCESS_RUNNING) ->
  consistent s' qs' pl.
Proof.
  intros [ [A B C] H2 H3 H4 H5 [H6 H6'] H7] Hp Hps Hl Hi Hpv Hnx Hwf Hlq Hlq' Hoth Hq Hr Hrun Hcur Hc.
  assert (forall b, b <> a -> procs s' !! b = procs s !! b) as Hne by (intros; rewrite Hps; by apply lookup_insert_ne).
  assert (procs s' !! a = Some p') as Ha by (rewrite Hps; apply lookup_insert_eq).
  constructor; rewrite ?Hi.
  - constructor; [by rewrite Hl| |done]. eapply dseg_ext; [|exact B]. intros b _. unfold plinks.
    destruct (decide (b = a)) as [->|]; [|by rewrite Hne]. rewrite Ha, Hp. simpl. by rewrite Hpv, Hnx.
  - intros q b Hvq Hb. destruct (decide (b = a)) as [->|Hn].
    + destruct (Hq q Hvq Hb) as (? & ? & ?). split; [done|]. by exists p'.
    + rewrite Hne by done. by apply H2, Hoth.
  - intros b pb Hb Hpb Hst. destruct (decide (b = a)) as [->|Hn]; [rewrite Ha in Hpb; simplify_eq; by apply Hr|].
    rewrite Hne in Hpb by done. pose proof (H3 b pb Hb Hpb Hst) as Hbq.
    apply elem_of_queues in Hbq as (q & Hvq & Hbq); [|done]. apply elem_of_queues; [done|].
    exists q. split; [done|]. by apply Hoth.
  - intros b pb Hb Hpb Hst. destruct (decide (b = a)) as [->|Hn]; [rewrite Ha in Hpb; simplify_eq; by apply Hrun|].
    rewrite Hne in Hpb by done. destruct Hc as [->|[_ Hno] ]; [by eapply H4|]. by apply (Hno b pb) in Hst.
  - destruct (decide (current s' = a)) as [Hca|Hca].
    { right. rewrite Hca. exists p'. split; [done|]. intros. by apply Hcur. }
    destruct Hc as [Hc|[? _] ]; [|done]. rewrite Hc in *. rewrite Hne by done. done.
  - split; [|done]. destruct (decide (idle_task s = a)) as [->|]; [by rewrite Ha|by rewrite Hne].
  - intros b pb Hb Hpb. destruct (decide (b = a)) as [->|Hn]; [rewrite Ha in Hpb; simplify_eq; by apply Hwf|].
    rewrite Hne in Hpb by done. by eapply H7.
Qed.

(** ** Queue operations on a process *)

(** A write to one control block, as a step on states. *)
Definition alter_proc (a : Z) (f : pcb -> pcb) (s : sched) : sched := set_procs (alter f a (procs s)) s.

Lemma alter_insert_eq (ps : gmap Z pcb) (a : Z) (f : pcb -> pcb) (p : pcb) :
  ps !! a = Some p -> alter f a ps = <[a := f p]> ps.
Proof.
  intros Hp. apply map_eq. intros b. destruct (decide (b = a)) as [->|].
  - by rewrite lookup_alter_eq, lookup_insert_eq, Hp.
  - by rewrite lookup_alter_ne, lookup_insert_ne.
Qed.

Lemma wp_alter (a : Z) (f : pcb -> pcb) (Q : unit -> sched -> Prop) (s : sched) :
  is_Some (procs s !! a) -> Q tt (alter_proc a f s) -> wp (update a f) Q s.
Proof.
  intros [p Hp] HQ. eapply wp_update; [done|]. unfold alter_proc in HQ.
  by rewrite (alter_insert_eq _ _ _ p Hp) in HQ.
Qed.

Lemma strip_alter (a : Z) (f : pcb -> pcb) (s : sched) :
  (forall p, unlink (f p) = f (unlink p)) -> strip (alter_proc a f s) = alter_proc a f (strip s).
Proof.
  intros Hf. change (set_procs (unlink <$> alter f a (procs s)) (strip s) = alter_proc a f (strip s)).
  unfold alter_proc. f_equal. apply fmap_alter. intros. apply Hf.
Qed.

Lemma queued_alter (s : sched) (qs : list (list Z)) (a : Z) (f : pcb -> pcb) :
  queued s qs -> is_Some (procs s !! a) ->
  (forall p, queue_prev (f p) = queue_prev p) -> (forall p, queue_next (f p) = queue_next p) ->
  queued (alter_proc a f s) qs.
Proof.
  intros Hqs [p Hp] Hpv Hnx. unfold alter_proc. rewrite (alter_insert_eq _ _ _ p Hp).
  by eapply queued_store.
Qed.

Lemma mlfq_level_wf (p : pcb) : wf_pcb p -> mlfq_level p = queue_level p.
Proof.
  intros [_ [Hl1 Hl2] _ _]. unfold mlfq_level. unfold SCHED_QUEUE_COUNT in *. rewrite s32_small by lia.
  destruct (Z.leb_spec 8 (queue_level p)); lia.
Qed.

Lemma home_valid (p : pcb) : wf_pcb p -> valid_ref (home p).
Proof.
  intros Hwf. unfold home. destruct (has _ _); simpl.
  - destruct Hwf as [_ _ [Hp1 Hp2] _]. unfold rt_level, SCHED_RT_QUEUE_COUNT.
    destruct (Z.leb_spec 2 (priority p / 50)); [lia|]. split; [apply Z.div_pos; lia|lia].
  - rewrite mlfq_level_wf by done. apply Hwf.
Qed.

Lemma queue_remove_deq (s : sched) (qs : list (list Z)) (q : qref) (a : Z) :
  queued s qs -> valid_ref q -> is_Some (procs s !! a) -> (a ∈ concat qs -> a ∈ ready qs q) ->
  wp (queue_remove q a) (fun r s' => r = a /\ queued s' (deq a qs) /\ strip s' = strip s) s.
Proof.
  intros Hqs Hq Ha Hin. destruct (decide (a ∈ concat qs)) as [Hc|Hc].
  - pose proof (Hin Hc) as (l & k & He)%list_elem_of_split.
    rewrite (deq_middle a q l k) by (apply Hqs || done). by apply queue_remove_spec.
  - rewrite deq_absent by done. eapply wp_intro; [by eapply queue_remove_absent|done].
Qed.

Lemma remove_from_queue_spec (s : sched) (qs : list (list Z)) (a : Z) (p : pcb) :
  queued s qs -> procs s !! a = Some p -> wf_pcb p -> (a ∈ concat qs -> a ∈ ready qs (home p)) ->
  wp (remove_from_queue a) (fun _ s' => queued s' (deq a qs) /\ strip s' = strip s) s.
Proof.
  intros Hqs Hp Hwf Hin. unfold remove_from_queue. apply wp_bind. eapply wp_deref; [done|].
  apply (wp_seq _ _ (fun r s' => r = a /\ queued s' (deq a qs) /\ strip s' = strip s));
    [|by intros x s' (_ & ? & ?)].
  pose proof (home_valid p Hwf) as Hv. unfold home in *. rewrite (mlfq_level_wf p Hwf) in *.
  destruct (has _ _); apply queue_remove_deq; eauto.
Qed.

Lemma add_to_queue_spec (s : sched) (qs : list (list Z)) (a : Z) (p : pcb) :
  queued s qs -> procs s !! a = Some p -> wf_pcb p -> a ∉ concat qs ->
  wp (add_to_queue a) (fun _ s' => queued s' (enq (home p) a qs) /\ strip s' = strip s) s.
Proof.
  intros Hqs Hp Hwf Hna. unfold add_to_queue. apply wp_bind. eapply wp_deref; [done|].
  pose proof (home_valid p Hwf) as Hv. unfold home in *. pose proof (wf_policy p Hwf) as Hpl.
  unfold plain in Hpl. destruct (has _ PROCESS_REAL_TIME); [by eapply queue_add_spec|].
  apply andb_true_iff in Hpl as [H1 H2]. apply negb_true_iff in H1, H2. rewrite H1, H2.
  by eapply queue_add_spec.
Qed.

(** A process of a consistent state is where its control block says. *)
Lemma consistent_home (s : sched) (qs : list (list Z)) (pl : list Z) (a : Z) (p : pcb) :
  queued s qs -> consistent s qs pl -> procs s !! a = Some p -> a ∈ concat qs ->
  a ∈ ready qs (home p) /\ a ∈ pl /\ state p = PROCESS_READY.
Proof.
  intros Hqs Hco Hp Ha. apply elem_of_queues in Ha as (q & Hq & Ha); [|apply Hqs].
  destruct (co_queued _ _ _ Hco q a Hq Ha) as (Hl & p' & Hp' & Hst & Hh). simplify_eq. done.
Qed.

(** What a step may do to a control block without disturbing lists and queues. *)
Record keeps_links (f : pcb -> pcb) : Prop := {
  kl_unlink : forall p, unlink (f p) = f (unlink p);
  kl_qprev : forall p, queue_prev (f p) = queue_prev p;
  kl_qnext : forall p, queue_next (f p) = queue_next p;
  kl_prev : forall p, prev (f p) = prev p;
  kl_next : forall p, next (f p) = next p;
}.

#[local] Hint Extern 1 (keeps_links _) => constructor; reflexivity : core.
#[local] Hint Extern 1 (wf_pcb _) =>
  eapply wf_pcb_same; [eassumption|reflexivity|reflexivity|reflexivity|reflexivity] : core.

(** A process outside the queues is made ready and enqueued. *)
Lemma make_ready_spec (s : sched) (qs : list (list Z)) (pl : list Z) (a : Z) (p : pcb) (f : pcb -> pcb) :
  queued s qs -> consistent s qs pl -> procs s !! a = Some p -> a ∈ pl -> a ∉ concat qs ->
  keeps_links f -> state (f p) = PROCESS_READY -> wf_pcb (f p) ->
  wp (update a f ;; add_to_queue a) (fun _ s' => queued s' (enq (home (f p)) a qs) /\
    consistent s' (enq (home (f p)) a qs) pl /\ strip s' = alter_proc a f (strip s)) s.
Proof.
  intros Hqs Hco Hp Ha Hna [Hu Hqp Hqn Hpv Hnx] Hst Hwf.
  apply wp_bind, wp_alter; [eauto|]. set (s1 := alter_proc a f s).
  assert (procs s1 !! a = Some (f p)) as Hp1 by (simpl; by rewrite lookup_alter_eq, Hp).
  assert (queued s1 qs) as Hq1 by (apply queued_alter; eauto).
  eapply wp_mono; [by eapply add_to_queue_spec|]. intros _ s2 _ [Hq2 Hs2].
  pose proof (home_valid (f p) Hwf) as Hv. pose proof (qd_len _ _ Hqs) as Hlen.
  split_and!; [done| |by rewrite Hs2; apply strip_alter].
  eapply consistent_strip; [exact Hs2|].
  eapply (consistent_change s s1 qs (enq (home (f p)) a qs) pl a p (f p)); try done.
  - unfold s1, alter_proc. simpl. by apply alter_insert_eq.
  - by rewrite length_enq.
  - intros q b Hq Hb. rewrite elem_of_enq by done. naive_solver.
  - intros q Hq. rewrite elem_of_enq by done. intros [Hin|[_ ->] ]; [|done].
    exfalso. by eapply Hna, elem_of_ready.
  - intros _ _. apply (elem_of_ready _ (home (f p))); [by rewrite length_enq|done|].
    apply elem_of_enq; auto.
  - by rewrite Hst.
  - by rewrite Hst.
  - by left.
Qed.

(** A process is taken off its queue and stops being ready. *)
Lemma make_unready_spec (s : sched) (qs : list (list Z)) (pl : list Z) (a : Z) (p : pcb) (f : pcb -> pcb) :
  queued s qs -> consistent s qs pl -> procs s !! a = Some p -> a ∈ pl ->
  keeps_links f -> state (f p) <> PROCESS_READY -> state (f p) <> PROCESS_RUNNING -> wf_pcb (f p) ->
  wp (remove_from_queue a ;; update a f) (fun _ s' => queued s' (deq a qs) /\
    consistent s' (deq a qs) pl /\ strip s' = alter_proc a f (strip s)) s.
Proof.
  intros Hqs Hco Hp Ha [Hu Hqp Hqn Hpv Hnx] Hst Hst' Hwf. pose proof (qd_len _ _ Hqs) as Hlen.
  eapply wp_seq; [eapply remove_from_queue_spec; [done|done|by eapply co_wf|]|].
  { intros Hc. by apply (consistent_home s qs pl a p). }
  intros _ s1 [Hq1 Hs1]. assert (is_Some (procs s1 !! a)) as Ha1 by (rewrite (strip_dom s s1); eauto).
  apply wp_alter; [done|].
  assert (strip (alter_proc a f s1) = strip (alter_proc a f s)) as Hs2 by (by rewrite !strip_alter, Hs1).
  split_and!; [by apply queued_alter| |by rewrite Hs2, strip_alter].
  eapply consistent_strip; [exact Hs2|].
  eapply (consistent_change s (alter_proc a f s) qs (deq a qs) pl a p (f p)); try done.
  - unfold alter_proc. simpl. by apply alter_insert_eq.
  - by rewrite length_deq.
  - intros q b Hq Hb. rewrite elem_of_deq by done. naive_solver.
  - intros q Hq. rewrite elem_of_deq by done. naive_solver.
  - by left.
Qed.

(** ** [schedule] *)

Lemma wp_irq_save (Q : unit -> sched -> Prop) (s : sched) :
  lock s = mk_spinlock 0 -> Q tt (set_lock (mk_spinlock 1) s) -> wp spinlock_irq_save Q s.
Proof. intros Hl HQ. unfold spinlock_irq_save. wp_run. by rewrite Hl. Qed.

Lemma wp_irq_restore (Q : unit -> sched -> Prop) (s : sched) :
  Q tt (set_lock (mk_spinlock 0) s) -> wp spinlock_irq_restore Q s.
Proof. done. Qed.

(** A step that touches neither control blocks nor lists. *)
Ltac frame :=
  match goal with
  | H : queued ?s ?qs |- queued ?s' ?qs => apply (queued_frame s s' qs); [reflexivity..|exact H]
  | H : consistent ?s ?qs ?pl |- consistent ?s' ?qs ?pl =>
      apply (consistent_frame s s' qs pl); [reflexivity..|exact H]
  end.

(** The process that runs and can be preempted. *)
Definition runs (s : sched) : bool :=
  negb (current s =? NULL) && bool_decide (state (procs s !!! current s) = PROCESS_RUNNING) &&
  negb (current s =? idle_task s).

(** The queues when the running process is behind the others of its level, the process
    chosen from them, and the queues without it. *)
Definition requeued (s : sched) (qs : list (list Z)) : list (list Z) :=
  if runs s then enq (home (procs s !!! current s)) (current s) qs else qs.
Definition next_of (s : sched) (qs : list (list Z)) : Z :=
  first_of (idle_task s) (concat (requeued s qs)).
Definition after_schedule (s : sched) (qs : list (list Z)) : list (list Z) :=
  deq (next_of s qs) (requeued s qs).

Definition dispatch (p : pcb) : pcb :=
  set_ticks_used 0 (set_time_slice (calculate_timeslice (effective_priority p))
    (set_state PROCESS_RUNNING p)).

Definition switch_events (ps : gmap Z pcb) (prev next : Z) : list hw_event :=
  let p := ps !!! prev in
  let n := ps !!! next in
  let away := (prev =? NULL) || (prev =? next) in
  (if away then [] else [FpuSave prev]) ++
  (if (prev =? NULL) || (page_dir p =? page_dir n) then [] else [LoadCr3 (page_dir n)]) ++
  (if kernel_stack n =? 0 then [] else [SetTss (kernel_stack n)]) ++
  (if away then [] else [ContextSwitch prev next]).

(** The state after [schedule], up to the queue pointers. *)
Definition preempted (s : sched) : sched :=
  if runs s then alter_proc (current s) (set_state PROCESS_READY) s else s.
Definition switched (prev next : Z) (s : sched) : sched :=
  set_hw (hw s ++ switch_events (procs s) prev next)
    (set_in_schedule 0 (set_lock (mk_spinlock 0) (set_current next (alter_proc next dispatch s)))).
Definition scheduled (s : sched) (qs : list (list Z)) : sched :=
  switched (current s) (next_of s qs) (preempted s).

Lemma lookup_total_Some (ps : gmap Z pcb) (a : Z) (p : pcb) : ps !! a = Some p -> ps !!! a = p.
Proof. intros H. by rewrite lookup_total_alt, H. Qed.

Lemma lookup_alter_field {A} (f : pcb -> pcb) (g : pcb -> A) (ps : gmap Z pcb) (a b : Z) (p : pcb) :
  (forall p, g (f p) = g p) -> ps !! b = Some p ->
  exists p', alter f a ps !! b = Some p' /\ g p' = g p.
Proof.
  intros Hg Hp. destruct (decide (b = a)) as [->|].
  - rewrite lookup_alter_eq, Hp. simpl. eauto.
  - rewrite lookup_alter_ne by done. eauto.
Qed.

Lemma switch_to_spec (prev next : Z) (s : sched) :
  is_Some (procs s !! next) -> prev = NULL \/ is_Some (procs s !! prev) ->
  switch_to prev next s = Some (tt, switched prev next s).
Proof.
  intros [n Hn] Hprev.
  assert (wp (switch_to prev next) (fun _ s' => s' = switched prev next s) s) as ([] & s' & -> & ->)%wp_run; [|done].
  unfold switch_to, emit, spinlock_irq_restore. apply wp_bind, wp_alter; [eauto|]. wp_run.
  destruct (lookup_alter_field dispatch (fun p => (page_dir p, kernel_stack p)) (procs s) next next n)
    as (n' & Hn' & [= Hpd Hks]); [done|done|].
  eapply wp_deref; [exact Hn'|]. rewrite Hks.
  unfold switched, switch_events. rewrite (lookup_total_Some _ _ _ Hn).
  destruct (Z.eqb_spec prev NULL) as [->|Hnn]; simpl.
  - destruct (kernel_stack n =? 0); wp_run; [by rewrite app_nil_r|done].
  - destruct Hprev as [?|[p Hp] ]; [done|]. rewrite (lookup_total_Some _ _ _ Hp).
    destruct (lookup_alter_field dispatch page_dir (procs s) next prev p) as (p' & Hp' & Hpd'); [done|done|].
    apply wp_bind. destruct (Z.eqb_spec prev next) as [->|Hd]; simpl.
    + wp_run. eapply wp_deref; [exact Hp'|]. rewrite Hpd', Hpd.
      rewrite Hn in Hp. injection Hp as ->. rewrite Z.eqb_refl. wp_run.
      destruct (kernel_stack p =? 0); wp_run; by rewrite ?app_nil_r.
    + wp_run. eapply wp_deref; [exact Hp'|]. rewrite Hpd', Hpd.
      destruct (page_dir p =? page_dir n), (kernel_stack n =? 0); wp_run; simpl; by rewrite <-?app_assoc.
Qed.

(** The running process goes behind the others of its level. *)
Lemma preempt_spec (s : sched) (qs : list (list Z)) (pl : list Z) :
  queued s qs -> consistent s qs pl ->
  wp (if current s =? NULL then mret tt else
      p ← deref (current s);
      if bool_decide (state p = PROCESS_RUNNING) && negb (current s =? idle_task s)
      then update (current s) (set_state PROCESS_READY) ;; add_to_queue (current s) else mret tt)
    (fun _ s' => queued s' (requeued s qs) /\ consistent s' (requeued s qs) pl /\
       strip s' = strip (preempted s) /\
       forall b p, b ∈ pl -> procs s' !! b = Some p -> state p <> PROCESS_RUNNING) s.
Proof.
  intros Hqs Hco. unfold requeued, preempted, runs.
  destruct (Z.eqb_spec (current s) NULL) as [Hc|Hc]; simpl.
  - apply wp_ret. split_and!; [done|done|done|]. intros b p Hb Hp Hst.
    pose proof (co_running _ _ _ Hco b p Hb Hp Hst) as ->. by rewrite Hc, (qd_null s qs Hqs) in Hp.
  - destruct (co_current _ _ _ Hco) as [?|(p & Hp & Hrun)]; [done|].
    rewrite (lookup_total_Some _ _ _ Hp). apply wp_bind. eapply wp_deref; [done|].
    case_bool_decide as Hst; simpl.
    + specialize (Hrun Hst). destruct (Z.eqb_spec (current s) (idle_task s)) as [Hi|Hi]; simpl.
      * apply wp_ret. split_and!; [done|done|done|]. intros b pb Hb Hpb Hstb.
        pose proof (co_running _ _ _ Hco b pb Hb Hpb Hstb) as ->. rewrite Hi in Hb.
        by apply (co_idle _ _ _ Hco) in Hb.
      * destruct Hrun as [Hl|?]; [|done].
        assert (current s ∉ concat qs) as Hna.
        { intros Hin. destruct (consistent_home s qs pl (current s) p) as (_ & _ & E); [done..|]. congruence. }
        pose proof (co_wf _ _ _ Hco _ _ Hl Hp) as Hwf.
        change (home p) with (home (set_state PROCESS_READY p)).
        eapply wp_mono; [apply (make_ready_spec s qs pl (current s) p (set_state PROCESS_READY)); auto|].
        intros _ s' _ (Hq' & Hc' & Hs'). split_and!; [done|done|by rewrite Hs', strip_alter|].
        intros b pb Hb Hpb Hstb. pose proof (co_running _ _ _ Hc' b pb Hb Hpb Hstb) as Hbc.
        assert (current s' = current s) as Ecur by (change (current (strip s') = current s); by rewrite Hs').
        assert (state <$> procs (strip s') !! current s = Some PROCESS_READY) as E.
        { rewrite Hs'. unfold alter_proc. simpl. rewrite lookup_alter_eq, lookup_fmap, Hp. done. }
        unfold strip in E. simpl in E. rewrite lookup_fmap, <-Ecur, <-Hbc, Hpb in E. simpl in E. congruence.
    + apply wp_ret. split_and!; [done|done|done|]. intros b pb Hb Hpb Hstb.
      pose proof (co_running _ _ _ Hco b pb Hb Hpb Hstb) as ->. congruence.
Qed.

Lemma first_of_concat (qs : list (list Z)) (d : Z) :
  (concat qs = [] /\ first_of d (concat qs) = d) \/ first_of d (concat qs) ∈ concat qs.
Proof. destruct (concat qs) eqn:E; [by left|right]. by apply first_of_elem. Qed.

Lemma strip_switched (prev next : Z) (s s' : sched) :
  strip s' = strip s -> strip (switched prev next s') = strip (switched prev next s).
Proof.
  intros Hs.
  assert (switch_events (procs s') prev next = switch_events (procs s) prev next) as He.
  { unfold switch_events. rewrite !(strip_field page_dir s s'), (strip_field kernel_stack s s') by done. done. }
  unfold switched. rewrite He.
  assert (strip (alter_proc next dispatch s') = strip (alter_proc next dispatch s)) as Ha by (by rewrite !strip_alter, Hs).
  assert (hw s' = hw s) as Eh by (change (hw (strip s') = hw (strip s)); by rewrite Hs). rewrite Eh.
  change (set_hw (hw s ++ switch_events (procs s) prev next) (set_in_schedule 0 (set_lock (mk_spinlock 0)
    (set_current next (strip (alter_proc next dispatch s'))))) = set_hw (hw s ++ switch_events (procs s) prev next)
    (set_in_schedule 0 (set_lock (mk_spinlock 0) (set_current next (strip (alter_proc next dispatch s)))))).
  by rewrite Ha.
Qed.

(** The chosen process is dispatched: no other process of the list was running. *)
Lemma dispatch_consistent (s : sched) (qs : list (list Z)) (pl : list Z) (prev nxt : Z) :
  queued s (deq nxt qs) -> consistent s qs pl -> length qs = 10%nat ->
  nxt ∈ concat qs \/ nxt = idle_task s ->
  (forall b p, b ∈ pl -> procs s !! b = Some p -> state p <> PROCESS_RUNNING) ->
  queued (switched prev nxt s) (deq nxt qs) /\ consistent (switched prev nxt s) (deq nxt qs) pl.
Proof.
  intros Hqs Hco Hlen Hin Hno.
  assert (exists p, procs s !! nxt = Some p) as [p Hp].
  { destruct Hin as [Hin| ->]; [|apply Hco]. apply elem_of_queues in Hin as (q & Hq & Ha); [|done].
    destruct (co_queued _ _ _ Hco q nxt Hq Ha) as (_ & p & Hp & _). eauto. }
  assert (nxt ∈ pl \/ nxt = idle_task s) as Hin'.
  { destruct Hin as [Hin|?]; [left|by right]. apply elem_of_queues in Hin as (q & Hq & Ha); [|done].
    by destruct (co_queued _ _ _ Hco q nxt Hq Ha). }
  split.
  - assert (queued (alter_proc nxt dispatch s) (deq nxt qs)) as Hq by (apply queued_alter; eauto).
    unfold switched. frame.
  - eapply (consistent_change s (switched prev nxt s) qs (deq nxt qs) pl nxt p (dispatch p)); try done.
    + simpl. by apply alter_insert_eq.
    + intros Hl. pose proof (co_wf _ _ _ Hco _ _ Hl Hp). auto.
    + by rewrite length_deq.
    + intros q b Hq Hb. rewrite elem_of_deq by done. naive_solver.
    + intros q Hq. rewrite elem_of_deq by done. naive_solver.
    + right. split; [done|]. intros b pb Hb _. by apply Hno.
Qed.

Lemma schedule_spec (s : sched) (qs : list (list Z)) (pl : list Z) :
  queued s qs -> consistent s qs pl -> unlocked s ->
  wp schedule (fun _ s' => queued s' (after_schedule s qs) /\
    consistent s' (after_schedule s qs) pl /\ unlocked s' /\ strip s' = strip (scheduled s qs)) s.
Proof.
  intros Hqs Hco [Hlock Hbusy]. unfold schedule. apply wp_bind, wp_irq_save; [done|].
  apply wp_bind, wp_gets. simpl. rewrite Hbusy. cbn [c_true Z.eqb negb]. wp_run.
  set (s0 := set_in_schedule 1 _).
  eapply wp_mono; [apply (preempt_spec s0 qs pl); frame|].
  change (requeued s0 qs) with (requeued s qs). set (qs1 := requeued s qs).
  intros _ s1 _ (Hq1 & Hc1 & Hs1 & Hno1).
  assert (idle_task s1 = idle_task s) as Ei.
  { change (idle_task (strip s1) = idle_task s). rewrite Hs1. unfold preempted. by destruct (runs s0). }
  eapply wp_seq; [by apply pick_next_process_spec|]. rewrite Ei. change (idle_task s0) with (idle_task s).
  intros nxt s2 (Hs2 & -> & Hq2). change (first_of (idle_task s) (concat qs1)) with (next_of s qs).
  set (nxt := next_of s qs) in *.
  pose proof (first_of_concat qs1 (idle_task s)) as Hcases. change (first_of (idle_task s) (concat qs1)) with nxt in Hcases.
  pose proof (co_idle _ _ _ Hc1) as [Hia Hip]. rewrite Ei in Hia, Hip.
  assert (idle_task s ∉ concat qs1) as Hiq.
  { intros Hin. apply elem_of_queues in Hin as (q & Hq & Ha); [|apply Hq1].
    by destruct (co_queued _ _ _ Hc1 q _ Hq Ha). }
  rewrite (drop_first_deq qs1 (idle_task s)) in Hq2 by (done || apply Hq1).
  change (first_of (idle_task s) (concat qs1)) with nxt in Hq2.
  assert (is_Some (procs s2 !! nxt)) as Hn2.
  { rewrite (strip_dom s1 s2) by done. destruct Hcases as [ [_ ->]|Hin]; [done|].
    destruct (queued_alive s1 qs1 nxt Hq1 Hin). eauto. }
  assert (nxt =? NULL = false) as Hnn.
  { apply Z.eqb_neq. intros E. rewrite E, (qd_null _ _ Hq2) in Hn2. by destruct Hn2. }
  rewrite Hnn. cbn [negb]. rewrite Hnn. eapply wp_intro.
  { apply switch_to_spec; [done|]. destruct (co_current _ _ _ Hco) as [?|(p & Hp & _)]; [by left|right].
    rewrite (strip_dom s1 s2), (strip_dom (preempted s0) s1) by done. unfold preempted.
    destruct (runs s0); [|eauto]. simpl. rewrite lookup_alter_eq, Hp. eauto. }
  destruct (dispatch_consistent s2 qs1 pl (current s0) nxt) as [Hq3 Hc3]; [done| |apply Hq1| | |].
  - by eapply consistent_strip.
  - destruct Hcases as [ [_ ?]|?]; [right|by left]. by change (nxt = idle_task (strip s2)); rewrite Hs2; change (nxt = idle_task s1); rewrite Ei.
  - intros b p' Hb Hp' Hst. destruct (strip_lookup s1 s2 b p' Hs2 Hp') as (p & Hp & Hu).
    apply (Hno1 b p Hb Hp). by rewrite (unlink_field state p' p) by (done || by symmetry).
  - split_and!; [done|done|done|]. rewrite (strip_switched _ _ (preempted s0)) by (by rewrite Hs2).
    unfold scheduled, preempted. change (runs s0) with (runs s). by destruct (runs s).
Qed.

(** The result of [schedule] does not depend on the queue pointers. *)
Lemma runs_strip (s s' : sched) : strip s' = strip s -> runs s' = runs s.
Proof.
  intros Hs. unfold runs. rewrite (strip_var current s s'), (strip_var idle_task s s') by done.
  by rewrite (strip_field state s s').
Qed.

Lemma requeued_strip (s s' : sched) (qs : list (list Z)) :
  strip s' = strip s -> requeued s' qs = requeued s qs.
Proof.
  intros Hs. unfold requeued. rewrite (runs_strip s s'), (strip_var current s s') by done.
  by rewrite (strip_field home s s').
Qed.

Lemma next_of_strip (s s' : sched) (qs : list (list Z)) :
  strip s' = strip s -> next_of s' qs = next_of s qs.
Proof.
  intros Hs. unfold next_of. by rewrite (requeued_strip s s'), (strip_var idle_task s s').
Qed.

Lemma scheduled_strip (s s' : sched) (qs : list (list Z)) :
  strip s' = strip s -> strip (scheduled s' qs) = strip (scheduled s qs).
Proof.
  intros Hs. unfold scheduled. rewrite (next_of_strip s s'), (strip_var current s s') by done.
  apply strip_switched. unfold preempted. rewrite (runs_strip s s'), (strip_var current s s') by done.
  destruct (runs s); [|done]. by rewrite !strip_alter, Hs.
Qed.
End SchedInv.
