(* ===== verification/SchedRefine.v ===== *)
(** * The scheduler refines a scheduler on lists

    [Module SchedRefine]: the abstract scheduler keeps a list per queue and the list of
    processes ([abs]); each operation of src/kernel/sched.c has an abstract counterpart
    [a_...] without pointers.  [rep A st]: the state [st] represents [A], with the
    invariant of SchedInv.v.  The refinement theorem says that an operation started in a
    state that represents [A] does not fault and ends in a state that represents the
    result of the abstract operation. *)

From S2P Require Import Prelude FaultM Dll Sync Sched SchedQueue SchedInv.

Module SchedRefine.
Export SchedInv.

(** The control blocks and variables (their queue pointers do not matter), the queues and
    the process list. *)
Record abs := mk_abs { core : sched; queues : list (list Z); plist : list Z }.

Record rep (A : abs) (st : sched) : Prop := {
  rp_queued : queued st (queues A);
  rp_consistent : consistent st (queues A) (plist A);
  rp_strip : strip st = strip (core A);
}.

Definition on_core (f : sched -> sched) (A : abs) : abs := mk_abs (f (core A)) (queues A) (plist A).

(** The control block of a process. *)
Definition pc (A : abs) (a : Z) : pcb := procs (core A) !!! a.

(** ** Abstract operations *)

Definition a_schedule (A : abs) : abs :=
  mk_abs (scheduled (core A) (queues A)) (after_schedule (core A) (queues A)) (plist A).

Definition due (A : abs) (b : Z) : bool :=
  bool_decide (state (pc A b) = PROCESS_BLOCKED) && (blocked_reason (pc A b) =? BLOCK_REASON_SLEEP) &&
  (wake_time (pc A b) <=? tick_count (core A)).

Definition wake (p : pcb) : pcb := set_blocked_reason BLOCK_REASON_NONE (set_state PROCESS_READY p).

Definition a_ready (f : pcb -> pcb) (b : Z) (A : abs) : abs :=
  mk_abs (alter_proc b f (core A)) (enq (home (f (pc A b))) b (queues A)) (plist A).
Definition a_wake (A : abs) (b : Z) : abs := if due A b then a_ready wake b A else A.

(** A change of the attributes that decide the queue of a process. *)
Definition a_reclass (f : pcb -> pcb) (a : Z) (A : abs) : abs :=
  mk_abs (alter_proc a f (core A))
    (if decide (state (pc A a) = PROCESS_READY)
     then enq (home (f (pc A a))) a (deq a (queues A)) else queues A) (plist A).

Definition a_boost (A : abs) (b : Z) : abs :=
  if has (sched_policy (pc A b)) PROCESS_NORMAL && negb (queue_level (pc A b) =? 0)
  then a_reclass (set_queue_level 0) b A else A.

Definition a_tick_current (cur : Z) (A : abs) : abs :=
  let A := on_core (alter_proc cur (fun p => set_time_slice (u32 (time_slice p - 1))
    (set_cpu_time (u32 (cpu_time p + 1)) (set_ticks_used (u32 (ticks_used p + 1)) p)))) A in
  let p := pc A cur in
  if cur =? idle_task (core A) then a_schedule A
  else if has (sched_policy p) PROCESS_NORMAL then
    if time_slice p <=? 0 then
      a_schedule (if queue_level p <? SCHED_QUEUE_COUNT - 1
                  then on_core (alter_proc cur (set_queue_level (queue_level p + 1))) A else A)
    else A
  else if has (sched_policy p) PROCESS_REAL_TIME && (time_slice p <=? 0) then a_schedule A
  else A.

Definition a_timers (A : abs) : abs :=
  let A := on_core (fun s => set_tick_count (u64 (tick_count s + 1)) s) A in
  let A := foldl a_wake A (plist A) in
  let now := tick_count (core A) in
  let A := if now mod SCHED_BOOST_INTERVAL =? 0 then foldl a_boost A (plist A) else A in
  let hook := g_aio_tick_fn (core A) in
  if negb (hook =? NULL) && (now mod SCHED_AIO_TICK_DIV =? 0)
  then on_core (fun s => set_hw (hw s ++ [AioTick hook]) s) A else A.

Definition a_tick (A : abs) : abs :=
  let A := a_timers A in
  let cur := current (core A) in
  if cur =? NULL then a_schedule A else a_tick_current cur A.

Definition block (reason : Z) (p : pcb) : pcb := set_blocked_reason reason (set_state PROCESS_BLOCKED p).

Definition a_block (a reason : Z) (A : abs) : abs :=
  match state (pc A a) with
  | PROCESS_RUNNING => a_schedule (on_core (alter_proc a (block reason)) A)
  | PROCESS_READY => mk_abs (alter_proc a (block reason) (core A)) (deq a (queues A)) (plist A)
  | _ => A
  end.

Definition a_unblock (a : Z) (A : abs) : abs :=
  if decide (state (pc A a) = PROCESS_BLOCKED) then a_ready wake a A else A.

Definition with_priority (prio : Z) (p : pcb) : pcb :=
  set_effective_priority prio (set_original_priority prio (set_priority prio p)).
Definition a_set_priority (a prio : Z) : abs -> abs :=
  a_reclass (with_priority (if SCHED_PRIORITY_MAX <? prio then SCHED_PRIORITY_MAX else prio)) a.

Definition with_policy (policy : Z) (p : pcb) : pcb := set_queue_level 0 (set_sched_policy policy p).
Definition a_set_policy (a policy : Z) : abs -> abs := a_reclass (with_policy policy) a.

Definition a_yield (A : abs) : abs :=
  let cur := current (core A) in
  let p := pc A cur in
  if cur =? NULL then A else
  a_schedule (if has (sched_policy p) PROCESS_NORMAL && (0 <? queue_level p) && (ticks_used p <? time_slice p / 2)
              then on_core (alter_proc cur (set_queue_level (queue_level p - 1))) A else A).

Definition a_sleep (ms : Z) (A : abs) : abs :=
  let cur := current (core A) in
  if cur =? NULL then A else
  a_block cur BLOCK_REASON_SLEEP
    (on_core (alter_proc cur (set_wake_time (u64 (tick_count (core A) + u32 (ms + 9) / 10)))) A).

(** ** Reading through the representation *)

Lemma rep_lookup (A : abs) (st : sched) (a : Z) (p : pcb) :
  rep A st -> procs st !! a = Some p -> procs (core A) !! a = Some (pc A a) /\ unlink (pc A a) = unlink p.
Proof.
  intros [_ _ Hs] Hp. destruct (strip_lookup (core A) st a p Hs Hp) as (p' & Hp' & Hu).
  unfold pc. by rewrite (lookup_total_Some _ _ _ Hp').
Qed.

Lemma rep_alive (A : abs) (st : sched) (a : Z) :
  rep A st -> is_Some (procs (core A) !! a) -> exists p, procs st !! a = Some p.
Proof. intros [_ _ Hs] Ha. by apply (strip_dom (core A) st) in Ha as [p Hp]; eauto. Qed.

Lemma rep_field {B} (f : pcb -> B) (A : abs) (st : sched) (a : Z) (p : pcb) :
  (forall p, f (unlink p) = f p) -> rep A st -> procs st !! a = Some p -> f p = f (pc A a).
Proof.
  intros Hf Hr Hp. destruct (rep_lookup A st a p Hr Hp) as [_ Hu]. by apply (unlink_field f (pc A a) p).
Qed.

Lemma rep_core {B} (f : sched -> B) (A : abs) (st : sched) :
  (forall s, f (strip s) = f s) -> rep A st -> f st = f (core A).
Proof. intros Hf [_ _ Hs]. by rewrite <-(Hf st), Hs, Hf. Qed.

Lemma rep_listed (A : abs) (st : sched) (a : Z) :
  rep A st -> a ∈ plist A -> exists p, procs st !! a = Some p /\ wf_pcb p.
Proof.
  intros [_ Hc _] Ha. destruct (co_listed _ _ _ Hc) as [_ Hd _].
  eapply dseg_links in Hd as [x Hx]; [|done]. apply fmap_Some in Hx as (p & Hp & _).
  exists p. split; [done|]. by eapply co_wf.
Qed.

(** Setting variables outside the queues and the lists. *)
Lemma abs_frame (A : abs) (st : sched) (f : sched -> sched) :
  (forall s, procs (f s) = procs s) -> (forall s, rt_queues (f s) = rt_queues s) ->
  (forall s, mlfq_queues (f s) = mlfq_queues s) -> (forall s, process_list (f s) = process_list s) ->
  (forall s, current (f s) = current s) -> (forall s, idle_task (f s) = idle_task s) ->
  (forall s, strip (f s) = f (strip s)) ->
  rep A st -> rep (on_core f A) (f st).
Proof.
  intros Hp Hr Hm Hl Hc Hi Hf [Hq Hco Hs]. constructor; simpl.
  - by apply (queued_frame st (f st)).
  - by apply (consistent_frame st (f st)).
  - by rewrite !Hf, Hs.
Qed.

(** ** Operations *)

Lemma rep_schedule (A : abs) (st : sched) :
  rep A st -> unlocked (core A) -> wp schedule (fun _ st' => rep (a_schedule A) st') st.
Proof.
  intros Hr Hu. pose proof Hr as [Hq Hc Hs].
  assert (unlocked st) as Hu' by (unfold unlocked; by rewrite (rep_core lock A st), (rep_core in_schedule A st)).
  eapply wp_mono; [by apply schedule_spec|]. intros _ st' _ (Hq' & Hc' & _ & Hs').
  unfold after_schedule in *. rewrite (next_of_strip (core A) st), (requeued_strip (core A) st) in Hq', Hc' by done.
  constructor; [done|done|]. simpl. rewrite Hs'. by apply scheduled_strip.
Qed.

(** *** The lock *)

Definition lockd (A : abs) : abs := on_core (set_lock (mk_spinlock 1)) A.

Lemma set_lock_id (s : sched) (l : spinlock) : lock s = l -> set_lock l s = s.
Proof. destruct s. simpl. by intros ->. Qed.

Lemma rep_irq_save (A : abs) (st : sched) (Q : unit -> sched -> Prop) :
  rep A st -> lock (core A) = mk_spinlock 0 -> (forall st', rep (lockd A) st' -> Q tt st') ->
  wp spinlock_irq_save Q st.
Proof.
  intros Hr Hl HQ. apply wp_irq_save; [by rewrite (rep_core lock A st)|].
  apply HQ. by apply (abs_frame A st (set_lock (mk_spinlock 1))).
Qed.

Lemma rep_irq_restore (A : abs) (st : sched) (Q : unit -> sched -> Prop) :
  rep (lockd A) st -> lock (core A) = mk_spinlock 0 -> (forall st', rep A st' -> Q tt st') ->
  wp spinlock_irq_restore Q st.
Proof.
  intros Hr Hl HQ. apply wp_irq_restore, HQ.
  pose proof (abs_frame _ st (set_lock (mk_spinlock 0)) ltac:(done) ltac:(done) ltac:(done) ltac:(done)
    ltac:(done) ltac:(done) ltac:(done) Hr) as H.
  unfold lockd, on_core in H. simpl in H. destruct A as [c q l]. simpl in *.
  change (set_lock (mk_spinlock 0) (set_lock (mk_spinlock 1) c)) with (set_lock (mk_spinlock 0) c) in H.
  by rewrite (set_lock_id c _ Hl) in H.
Qed.

(** *** Loops over the processes *)

Lemma plist_size (A : abs) (st : sched) : rep A st -> (length (plist A) <= size (procs st))%nat.
Proof.
  intros Hr. pose proof (ls_nodup _ _ (co_listed _ _ _ (rp_consistent A st Hr))) as Hnd.
  apply alive_length; [done|]. intros a Ha. destruct (rep_listed A st a Hr Ha) as (p & -> & _). eauto.
Qed.

Lemma rep_null (A : abs) (st : sched) : rep A st -> NULL ∉ plist A.
Proof.
  intros Hr Hn. destruct (rep_listed A st NULL Hr Hn) as (p & Hp & _).
  by rewrite (qd_null _ _ (rp_queued A st Hr)) in Hp.
Qed.

Lemma rep_next (A : abs) (st : sched) (pre rest : list Z) (a : Z) (p : pcb) :
  rep A st -> plist A = pre ++ a :: rest -> procs st !! a = Some p -> next p = first_of NULL rest.
Proof.
  intros Hr He Hp. destruct (co_listed _ _ _ (rp_consistent A st Hr)) as [_ Hd _]. rewrite He in Hd.
  apply dseg_middle in Hd. unfold plinks in Hd. rewrite Hp in Hd. by injection Hd as _ ->.
Qed.

Section loop.
Variables (body : Z -> FM sched unit) (F : abs -> Z -> abs).
Hypothesis F_plist : forall A b, plist (F A b) = plist A.
Hypothesis F_body : forall A st b, rep A st -> b ∈ plist A -> wp (body b) (fun _ st' => rep (F A b) st') st.

Lemma foldl_plist (A : abs) (l : list Z) : plist (foldl F A l) = plist A.
Proof using F_plist. revert A. induction l as [|b l IH]; intros A; [done|]. simpl. by rewrite IH. Qed.

Lemma rep_walk (A : abs) (st : sched) (fuel : nat) (pre rest : list Z) :
  rep A st -> plist A = pre ++ rest -> (length rest <= fuel)%nat ->
  wp (walk fuel (first_of NULL rest) body) (fun _ st' => rep (foldl F A rest) st') st.
Proof using F_plist F_body.
  revert A st fuel pre. induction rest as [|a rest IH]; intros A st fuel pre Hr He Hf.
  - by destruct fuel; apply wp_ret.
  - change (first_of NULL (a :: rest)) with a. pose proof (rep_null A st Hr) as Hn.
    destruct fuel as [|fuel]; simpl in *; [lia|].
    destruct (Z.eqb_spec a NULL) as [->|_]; [rewrite He in Hn; set_solver|].
    eapply wp_seq; [apply F_body; [done|rewrite He; set_solver]|]. intros [] st1 Hr1.
    destruct (rep_listed (F A a) st1 a Hr1) as (p & Hp & _); [rewrite F_plist, He; set_solver|].
    apply wp_bind. eapply wp_deref; [done|].
    rewrite (rep_next (F A a) st1 pre rest a p) by (done || by rewrite F_plist).
    apply (IH (F A a) st1 fuel (pre ++ [a])); [done|by rewrite F_plist, <-app_assoc|lia].
Qed.

Lemma rep_for_processes (A : abs) (st : sched) :
  rep A st -> wp (for_processes body) (fun _ st' => rep (foldl F A (plist A)) st') st.
Proof using F_plist F_body.
  intros Hr. unfold for_processes. wp_run.
  rewrite (ls_head _ _ (co_listed _ _ _ (rp_consistent A st Hr))).
  apply (rep_walk A st _ []); [done|done|by apply plist_size].
Qed.
End loop.

(** *** Processes that become ready *)

Lemma rep_unready (A : abs) (st : sched) (a : Z) :
  rep A st -> state (pc A a) <> PROCESS_READY -> a ∉ concat (queues A).
Proof.
  intros Hr Hst Hin. destruct (queued_alive st (queues A) a (rp_queued A st Hr) Hin) as [p Hp].
  destruct (consistent_home st (queues A) (plist A) a p) as (_ & _ & E); [apply Hr|apply Hr|done|done|].
  by rewrite (rep_field state A st a p) in E.
Qed.

Lemma rep_ready (A : abs) (st : sched) (a : Z) (f : pcb -> pcb) :
  rep A st -> a ∈ plist A -> state (pc A a) <> PROCESS_READY -> keeps_links f ->
  (forall p, state (f p) = PROCESS_READY) -> (forall p, wf_pcb p -> wf_pcb (f p)) ->
  wp (update a f ;; add_to_queue a) (fun _ st' => rep (a_ready f a A) st') st.
Proof.
  intros Hr Ha Hst Hk Hf Hwf. destruct (rep_listed A st a Hr Ha) as (p & Hp & Hw).
  pose proof Hr as [Hq Hc Hs]. eapply wp_mono.
  { apply (make_ready_spec st (queues A) (plist A) a p f); auto. by apply (rep_unready A st). }
  assert (home (f p) = home (f (pc A a))) as Hh.
  { apply (rep_field (fun p => home (f p)) A st a p); [|done|done]. intros q. by rewrite <-(kl_unlink f Hk). }
  intros _ st' _ (Hq' & Hc' & Hs'). rewrite Hh in Hq', Hc'. constructor; [done|done|].
  simpl. by rewrite Hs', Hs, <-strip_alter by apply Hk.
Qed.

(** *** Changes of one control block *)

(** The process keeps its place, or leaves the processor. *)
Lemma rep_alter (A : abs) (st : sched) (a : Z) (f : pcb -> pcb) :
  rep A st -> is_Some (procs (core A) !! a) -> keeps_links f ->
  (a ∈ plist A -> forall p, wf_pcb p -> wf_pcb (f p)) ->
  (a ∈ plist A -> state (pc A a) = PROCESS_READY -> forall p, home (f p) = home p) ->
  (forall p, state (f p) = state p) \/
    (state (pc A a) = PROCESS_RUNNING /\
     forall p, state (f p) = PROCESS_BLOCKED \/ state (f p) = PROCESS_ZOMBIE) ->
  rep (on_core (alter_proc a f) A) (alter_proc a f st).
Proof.
  intros Hr Ha Hk Hwf Hh Hst. destruct (rep_alive A st a Hr Ha) as [p Hp]. pose proof Hr as [Hq Hc Hs].
  constructor; simpl.
  - apply queued_alter; [done|eauto|apply Hk|apply Hk].
  - assert (state (f p) = state p \/ (state p = PROCESS_RUNNING /\ state (f p) <> PROCESS_READY /\
      state (f p) <> PROCESS_RUNNING)) as Hsp.
    { destruct Hst as [Hst|[Hrun Hst] ]; [by left|right]. rewrite (rep_field state A st a p) by done.
      by destruct (Hst p) as [-> | ->]. }
    eapply (consistent_change st _ (queues A) (queues A) (plist A) a p (f p)); try done;
      try apply Hq; try apply Hk.
    + simpl. by apply alter_insert_eq.
    + intros Hl. by eapply Hwf, co_wf.
    + intros q Hv Hin.
      destruct (consistent_home st (queues A) (plist A) a p) as (Hin' & Hl & Hrd);
        [done|done|done|eapply elem_of_ready; [apply Hq|done|done]|].
      split; [done|]. destruct Hsp as [E|[E _] ]; [|by rewrite Hrd in E].
      split; [by rewrite E|]. rewrite Hh by (done || by rewrite <-(rep_field state A st a p)).
      eapply ready_inj; [apply Hq|apply Hq|by eapply home_valid, co_wf|done|done|done].
    + intros Hl E. eapply co_ready; [done|done|done|]. destruct Hsp as [E'|(_ & ? & ?)]; congruence.
    + intros Hl E. apply (co_running st _ _ Hc a p Hl Hp). destruct Hsp as [E'|(_ & ? & ?)]; congruence.
    + intros E Hcur. change (a = current st) in Hcur.
      destruct (co_current _ _ _ Hc) as [Hn|(p' & Hp' & Hrun)].
      { rewrite <-Hcur in Hn. by rewrite Hn, (qd_null _ _ Hq) in Hp. }
      rewrite <-Hcur in *. simplify_eq. apply Hrun. destruct Hsp as [E'|(_ & ? & ?)]; congruence.
    + by left.
  - by rewrite !strip_alter, Hs by apply Hk.
Qed.

Lemma abs_update (A : abs) (st : sched) (a : Z) (f : pcb -> pcb) :
  rep A st -> is_Some (procs (core A) !! a) -> keeps_links f ->
  (a ∈ plist A -> forall p, wf_pcb p -> wf_pcb (f p)) ->
  (a ∈ plist A -> state (pc A a) = PROCESS_READY -> forall p, home (f p) = home p) ->
  (forall p, state (f p) = state p) \/
    (state (pc A a) = PROCESS_RUNNING /\
     forall p, state (f p) = PROCESS_BLOCKED \/ state (f p) = PROCESS_ZOMBIE) ->
  wp (update a f) (fun _ st' => rep (on_core (alter_proc a f) A) st') st.
Proof.
  intros Hr Ha. intros. apply wp_alter; [|by apply rep_alter]. destruct (rep_alive A st a Hr Ha). eauto.
Qed.

(** A ready process leaves its queue, is changed by [f] and joins the queue of its new
    attributes: [remove] and [add] are the steps of the operation that do it. *)
Lemma rep_requeue {B} (A : abs) (st : sched) (a : Z) (f : pcb -> pcb) (remove : FM sched B) (add : FM sched unit) :
  rep A st -> a ∈ plist A -> state (pc A a) = PROCESS_READY -> keeps_links f ->
  (forall p, state (f p) = state p) -> (forall p, wf_pcb p -> wf_pcb (f p)) ->
  (forall p, procs st !! a = Some p -> wf_pcb p -> a ∈ ready (queues A) (home p) ->
     unlink (pc A a) = unlink p ->
     wp remove (fun _ s' => queued s' (deq a (queues A)) /\ strip s' = strip st) st) ->
  (forall s p qs, queued s qs -> procs s !! a = Some p -> wf_pcb p -> a ∉ concat qs ->
     unlink p = unlink (f (pc A a)) ->
     wp add (fun _ s' => queued s' (enq (home p) a qs) /\ strip s' = strip s) s) ->
  wp (remove ;; update a f ;; add) (fun _ st' => rep (a_reclass f a A) st') st.
Proof.
  intros Hr Ha Hst Hk Hf Hwf Hrem Hadd. destruct (rep_listed A st a Hr Ha) as (p & Hp & Hw).
  pose proof Hr as [Hq Hc Hs]. destruct (rep_lookup A st a p Hr Hp) as [_ Hu].
  assert (state p = PROCESS_READY) as Hsp by (by rewrite (rep_field state A st a p)).
  assert (a ∈ ready (queues A) (home p)) as Hin.
  { apply (consistent_home st (queues A) (plist A)); [done..|]. by apply (co_ready st _ (plist A) Hc a p). }
  pose proof (qd_len _ _ Hq) as Hlen.
  apply (wp_seq _ _ (fun _ s' => queued s' (deq a (queues A)) /\ strip s' = strip st)); [by eapply Hrem|].
  intros _ s1 [Hq1 Hs1].
  destruct (strip_lookup s1 st a p) as (p1 & Hp1 & Hu1); [by symmetry|done|].
  apply wp_bind, wp_alter; [eauto|].
  assert (home (f p1) = home (f (pc A a))) as Hh.
  { apply (unlink_field home); [done|]. by rewrite !(kl_unlink f Hk), Hu1, Hu. }
  assert (wf_pcb (f (pc A a))) as Hw'.
  { apply Hwf. eapply wf_pcb_same; [exact Hw|..]; by apply (unlink_field _ p (pc A a)). }
  assert (wf_pcb (f p1)) as Hw1.
  { apply Hwf. eapply wf_pcb_same; [exact Hw|..]; apply (unlink_field _ p p1); (done || by symmetry). }
  eapply wp_mono.
  { apply (Hadd _ (f p1) (deq a (queues A))); [apply queued_alter; [done|eauto|apply Hk..]| |done| |].
    - simpl. by rewrite lookup_alter_eq, Hp1.
    - intros Hin'. apply elem_of_queues in Hin' as (q & Hv & Hin'); [|by rewrite length_deq].
      by apply elem_of_deq in Hin' as [? _].
    - by rewrite !(kl_unlink f Hk), Hu1, Hu. }
  intros [] s2 _ [Hq2 Hs2]. rewrite Hh in Hq2. unfold a_reclass. rewrite decide_True by done.
  pose proof (home_valid _ Hw') as Hv.
  assert (strip s2 = strip (alter_proc a f st)) as Hs3 by (by rewrite Hs2, !strip_alter, Hs1 by apply Hk).
  constructor; simpl; [done| |by rewrite Hs3, !strip_alter, Hs by apply Hk].
  eapply consistent_strip; [exact Hs3|].
  eapply (consistent_change st _ (queues A) _ (plist A) a p (f p)); try done; try apply Hk.
  - simpl. by apply alter_insert_eq.
  - auto.
  - by rewrite length_enq, length_deq.
  - intros q b Hvq Hb. rewrite elem_of_enq, elem_of_deq by (done || by rewrite length_deq). naive_solver.
  - intros q Hvq. rewrite elem_of_enq, elem_of_deq by (done || by rewrite length_deq).
    intros [ [? _] |[_ ->] ]; [done|]. rewrite Hf. split_and!; [done|done|].
    apply (unlink_field home); [done|]. by rewrite !(kl_unlink f Hk), Hu.
  - intros _ _. apply (elem_of_ready _ (home (f (pc A a)))); [by rewrite length_enq, length_deq|done|].
    apply elem_of_enq; [by rewrite length_deq|done|done|]. by right.
  - rewrite Hf, Hsp. done.
  - rewrite Hf, Hsp. done.
  - by left.
Qed.

#[local] Hint Extern 1 (keeps_links _) => constructor; reflexivity : core.
#[local] Hint Extern 1 (wf_pcb _) =>
  eapply wf_pcb_same; [eassumption|reflexivity|reflexivity|reflexivity|reflexivity] : core.

(** *** Timer work *)

Lemma rep_wake_one (A : abs) (st : sched) (b : Z) :
  rep A st -> b ∈ plist A -> wp (wake_one b) (fun _ st' => rep (a_wake A b) st') st.
Proof.
  intros Hr Hb. destruct (rep_listed A st b Hr Hb) as (p & Hp & _).
  unfold wake_one. apply wp_bind. eapply wp_deref; [done|]. wp_run.
  rewrite (rep_field state A st b p), (rep_field blocked_reason A st b p),
    (rep_field wake_time A st b p), (rep_core tick_count A st) by done.
  unfold a_wake. change (_ && _ && _) with (due A b). destruct (due A b) eqn:E; [|by apply wp_ret].
  apply rep_ready; auto. unfold due in E. apply andb_true_iff in E as [ [E _]%andb_true_iff _].
  apply bool_decide_eq_true in E. by rewrite E.
Qed.

Lemma home_normal (p : pcb) :
  wf_pcb p -> has (sched_policy p) PROCESS_NORMAL = true -> home p = Mlfq (queue_level p).
Proof.
  intros Hwf Hn. unfold home. rewrite (mlfq_level_wf p Hwf). pose proof (wf_policy p Hwf) as Hp.
  unfold plain in Hp. destruct (has _ PROCESS_REAL_TIME); [|done]. by rewrite Hn in Hp.
Qed.

Lemma wf_set_level (v : Z) (p : pcb) : 0 <= v < SCHED_QUEUE_COUNT -> wf_pcb p -> wf_pcb (set_queue_level v p).
Proof. intros Hv [H1 H2 H3 H4]. by constructor. Qed.

Lemma rep_boost_one (A : abs) (st : sched) (b : Z) :
  rep A st -> b ∈ plist A -> wp (boost_one b) (fun _ st' => rep (a_boost A b) st') st.
Proof.
  intros Hr Hb. destruct (rep_listed A st b Hr Hb) as (p & Hp & Hw).
  unfold boost_one. apply wp_bind. eapply wp_deref; [done|].
  assert (unlink (pc A b) = unlink p) as Hu by (by apply (rep_lookup A st)).
  unfold a_boost. rewrite <-(rep_field sched_policy A st b p), <-(rep_field queue_level A st b p) by done.
  destruct (has (sched_policy p) PROCESS_NORMAL && negb (queue_level p =? 0)) eqn:E; [|by apply wp_ret].
  apply andb_true_iff in E as [Hn _].
  assert (forall p, wf_pcb p -> wf_pcb (set_queue_level 0 p)) as Hwf0
    by (intros; apply wf_set_level; [unfold SCHED_QUEUE_COUNT; lia|done]).
  destruct (decide (state p = PROCESS_READY)) as [Hst|Hst]; rewrite (rep_field state A st b p) in Hst by done.
  - apply (rep_requeue A st b (set_queue_level 0)); auto.
    + intros p' Hp' Hw' Hin _. simplify_eq. rewrite (home_normal p Hw Hn) in Hin.
      eapply wp_mono; [apply (queue_remove_deq st (queues A)); [apply Hr|apply Hw|eauto|done]|].
      by intros r s' _ (_ & ? & ?).
    + intros s p' qs Hq Hp' Hw' Hna Hu'.
      assert (home p' = Mlfq 0) as ->; [|apply queue_add_spec; [done|apply (wf_set_level 0 p' ltac:(done) Hw')|eauto|done] ].
      rewrite home_normal; [|done|].
      * by rewrite (unlink_field queue_level (set_queue_level 0 (pc A b)) p') by (done || by symmetry).
      * rewrite (unlink_field sched_policy (set_queue_level 0 (pc A b)) p') by (done || by symmetry).
        by rewrite (rep_field sched_policy A st b p) in Hn.
  - unfold a_reclass. rewrite decide_False by done. apply abs_update; auto; [|done].
    destruct (rep_lookup A st b p Hr Hp) as [-> _]. eauto.
Qed.

Lemma foldl_lockd (F : abs -> Z -> abs) (A : abs) (l : list Z) :
  (forall A b, F (lockd A) b = lockd (F A b)) -> foldl F (lockd A) l = lockd (foldl F A l).
Proof. intros HF. revert A. induction l as [|b l IH]; intros A; [done|]. simpl. by rewrite HF, IH. Qed.

Lemma a_wake_lockd (A : abs) (b : Z) : a_wake (lockd A) b = lockd (a_wake A b).
Proof. unfold a_wake. change (due (lockd A) b) with (due A b). by destruct (due A b). Qed.

Lemma a_boost_lockd (A : abs) (b : Z) : a_boost (lockd A) b = lockd (a_boost A b).
Proof. unfold a_boost. change (pc (lockd A) b) with (pc A b). by destruct (has _ _ && _). Qed.

Lemma a_wake_plist (A : abs) (b : Z) : plist (a_wake A b) = plist A.
Proof. unfold a_wake. by destruct (due A b). Qed.

Lemma a_boost_plist (A : abs) (b : Z) : plist (a_boost A b) = plist A.
Proof. unfold a_boost. by destruct (has _ _ && _). Qed.

(** A variable that neither loop writes. *)
Lemma foldl_var {B} (f : sched -> B) (F : abs -> Z -> abs) (A : abs) (l : list Z) :
  (forall A b, f (core (F A b)) = f (core A)) -> f (core (foldl F A l)) = f (core A).
Proof. intros HF. revert A. induction l as [|b l IH]; intros A; [done|]. simpl. by rewrite IH. Qed.

Lemma a_wake_var {B} (f : sched -> B) (A : abs) (b : Z) :
  (forall a g s, f (alter_proc a g s) = f s) -> f (core (a_wake A b)) = f (core A).
Proof. intros Hf. unfold a_wake. destruct (due A b); [|done]. apply Hf. Qed.

Lemma a_boost_var {B} (f : sched -> B) (A : abs) (b : Z) :
  (forall a g s, f (alter_proc a g s) = f s) -> f (core (a_boost A b)) = f (core A).
Proof. intros Hf. unfold a_boost. destruct (has _ _ && _); [|done]. apply Hf. Qed.

(** A loop over the processes under the lock. *)
Lemma rep_locked_loop (body : Z -> FM sched unit) (F : abs -> Z -> abs) (A : abs) (st : sched) :
  (forall A b, plist (F A b) = plist A) -> (forall A b, F (lockd A) b = lockd (F A b)) ->
  (forall A b, lock (core (F A b)) = lock (core A)) ->
  (forall A st b, rep A st -> b ∈ plist A -> wp (body b) (fun _ st' => rep (F A b) st') st) ->
  rep A st -> lock (core A) = mk_spinlock 0 ->
  wp (spinlock_irq_save ;; for_processes body ;; spinlock_irq_restore)
    (fun _ st' => rep (foldl F A (plist A)) st') st.
Proof.
  intros Hpl Hlk Hfl Hb Hr Hl. apply wp_bind. eapply rep_irq_save; [done|done|]. intros s1 Hr1.
  eapply wp_seq; [by apply (rep_for_processes body F Hpl Hb (lockd A))|]. intros [] s2 Hr2.
  cbv beta in Hr2. rewrite foldl_lockd in Hr2 by done. eapply rep_irq_restore; [exact Hr2| |done].
  by rewrite (foldl_var lock).
Qed.

Lemma rep_wakeup_sleepers (A : abs) (st : sched) :
  rep A st -> lock (core A) = mk_spinlock 0 ->
  wp sched_wakeup_sleepers (fun _ st' => rep (foldl a_wake A (plist A)) st') st.
Proof.
  intros. apply rep_locked_loop; auto using a_wake_plist, a_wake_lockd, rep_wake_one.
  intros. by apply (a_wake_var lock).
Qed.

Lemma rep_boost_all (A : abs) (st : sched) :
  rep A st -> lock (core A) = mk_spinlock 0 ->
  wp sched_boost_all (fun _ st' => rep (foldl a_boost A (plist A)) st') st.
Proof.
  intros. apply rep_locked_loop; auto using a_boost_plist, a_boost_lockd, rep_boost_one.
  intros. by apply (a_boost_var lock).
Qed.

(** *** [sched_tick] *)

Lemma a_timers_var {B} (f : sched -> B) (A : abs) :
  (forall a g s, f (alter_proc a g s) = f s) -> (forall v s, f (set_hw v s) = f s) ->
  (forall v s, f (set_tick_count v s) = f s) -> f (core (a_timers A)) = f (core A).
Proof.
  intros Hf Hh Ht. unfold a_timers. set (A1 := on_core _ A).
  assert (f (core (foldl a_wake A1 (plist A1))) = f (core A)) as E.
  { rewrite (foldl_var f) by (intros; by apply a_wake_var). apply Ht. }
  set (A2 := foldl a_wake A1 (plist A1)) in *. set (A3 := if _ =? 0 then _ else A2).
  assert (f (core A3) = f (core A)) as E3.
  { unfold A3. destruct (_ =? 0); [|done]. rewrite (foldl_var f) by (intros; by apply a_boost_var). done. }
  destruct (_ && _); [|done]. simpl. by rewrite Hh.
Qed.

Lemma rep_timers (A : abs) (st : sched) {B} (k : FM sched B) (Q : B -> sched -> Prop) :
  rep A st -> lock (core A) = mk_spinlock 0 ->
  (forall st', rep (a_timers A) st' -> wp k Q st') ->
  wp (modify (fun s => set_tick_count (u64 (tick_count s + 1)) s) ;;
      sched_wakeup_sleepers ;;
      now ← gets tick_count;
      (if now mod SCHED_BOOST_INTERVAL =? 0 then sched_boost_all else mret tt) ;;
      hook ← gets g_aio_tick_fn;
      (if negb (hook =? NULL) && (now mod SCHED_AIO_TICK_DIV =? 0)
       then emit (AioTick hook) else mret tt) ;; k) Q st.
Proof.
  intros Hr Hl Hk. unfold a_timers in Hk. wp_run.
  eapply wp_mono; [apply (rep_wakeup_sleepers (on_core (fun s => set_tick_count (u64 (tick_count s + 1)) s) A))|].
  { by apply (abs_frame A st (fun s => set_tick_count (u64 (tick_count s + 1)) s)). }
  { done. }
  set (A1 := on_core _ A) in *. set (A2 := foldl a_wake A1 (plist A1)) in *. intros [] s2 _ Hr2. wp_run.
  assert (lock (core A2) = mk_spinlock 0) as Hl2.
  { unfold A2. rewrite (foldl_var lock) by (intros; by apply (a_wake_var lock)). done. }
  rewrite (rep_core tick_count A2 s2) by done. set (now := tick_count (core A2)) in *.
  set (A3 := if now mod SCHED_BOOST_INTERVAL =? 0 then _ else A2) in *.
  apply (wp_mono _ (fun _ s3 => rep A3 s3)).
  { unfold A3. destruct (_ =? 0); [by apply rep_boost_all|by apply wp_ret]. }
  intros [] s3 _ Hr3. wp_run. rewrite (rep_core g_aio_tick_fn A3 s3) by done.
  destruct (_ && _); [|wp_run; by apply Hk]. unfold emit. wp_run. apply Hk.
  by apply (abs_frame A3 s3 (fun s => set_hw (hw s ++ [AioTick (g_aio_tick_fn (core A3))]) s)).
Qed.

Lemma rep_current (A : abs) (st : sched) :
  rep A st -> current (core A) <> NULL -> is_Some (procs (core A) !! current (core A)).
Proof.
  intros Hr Hn. destruct (co_current _ _ _ (rp_consistent A st Hr)) as [E|(p & Hp & _)];
    rewrite (rep_core current A st) in * by done; [done|].
  destruct (rep_lookup A st _ p Hr Hp) as [-> _]. eauto.
Qed.

(** Between operations the current process runs, unless it has left the process list. *)
Definition settled (A : abs) : Prop :=
  current (core A) ∈ plist A -> state (pc A (current (core A))) = PROCESS_RUNNING.

Lemma pc_alter (A : abs) (a b : Z) (f : pcb -> pcb) :
  is_Some (procs (core A) !! a) ->
  pc (on_core (alter_proc b f) A) a = if decide (a = b) then f (pc A a) else pc A a.
Proof.
  intros [p Hp]. unfold pc. simpl. rewrite !lookup_total_alt. destruct (decide (a = b)) as [->|].
  - by rewrite lookup_alter_eq, Hp.
  - by rewrite lookup_alter_ne.
Qed.

Lemma pc_alter_ne (A : abs) (a b : Z) (f : pcb -> pcb) :
  a <> b -> pc (on_core (alter_proc b f) A) a = pc A a.
Proof. intros Hn. unfold pc. simpl. by rewrite !lookup_total_alt, lookup_alter_ne. Qed.

Lemma pc_alter_field {B} (g : pcb -> B) (A : abs) (a b : Z) (f : pcb -> pcb) :
  (forall p, g (f p) = g p) -> g (pc (on_core (alter_proc b f) A) a) = g (pc A a).
Proof.
  intros Hg. destruct (decide (a = b)) as [->|]; [|by rewrite pc_alter_ne]. unfold pc. simpl.
  rewrite !lookup_total_alt, lookup_alter_eq. destruct (procs (core A) !! b); [|done]. apply Hg.
Qed.

(** A step that keeps the states of the processes keeps the current one running, and so
    does one on another process. *)
Lemma settled_alter (A : abs) (qs : list (list Z)) (b : Z) (f : pcb -> pcb) :
  (forall p, state (f p) = state p) \/ b <> current (core A) ->
  settled A -> settled (mk_abs (alter_proc b f (core A)) qs (plist A)).
Proof.
  intros Hf Hs Hin. change (state (pc (on_core (alter_proc b f) A) (current (core A))) = PROCESS_RUNNING).
  destruct Hf as [Hf|Hn]; [rewrite pc_alter_field by done|rewrite pc_alter_ne by congruence]; by apply Hs.
Qed.

Lemma settled_timers (A : abs) : settled A -> settled (a_timers A).
Proof.
  intros Hs. unfold a_timers. set (A1 := on_core _ A). assert (settled A1) as Hs1 by done.
  assert (forall l A, (forall b, b ∈ l -> b ∈ plist A) -> settled A -> settled (foldl a_wake A l)) as Hw.
  { induction l as [|b l IH]; intros B Hl HB; [done|]. simpl. apply IH.
    - intros c Hc. rewrite a_wake_plist. apply Hl. by right.
    - unfold a_wake. destruct (due B b) eqn:E; [|done]. apply settled_alter; [|done]. right. intros Hb.
      unfold due in E. apply andb_true_iff in E as [ [E _]%andb_true_iff _]. apply bool_decide_eq_true in E.
      rewrite Hb in E. rewrite HB in E; [done|]. rewrite <-Hb. apply Hl. by left. }
  assert (forall l A, settled A -> settled (foldl a_boost A l)) as Hb.
  { induction l as [|b l IH]; intros B HB; [done|]. simpl. apply IH.
    unfold a_boost. destruct (has _ _ && _); [|done]. apply settled_alter; [by left|done]. }
  set (A2 := foldl a_wake A1 (plist A1)). assert (settled A2) as Hs2 by (by apply Hw).
  set (A3 := if _ =? 0 then _ else A2). assert (settled A3) as Hs3 by (unfold A3; destruct (_ =? 0); auto).
  by destruct (_ && _).
Qed.

Lemma rep_tick_current (A : abs) (st : sched) :
  rep A st -> unlocked (core A) -> settled A -> current (core A) <> NULL ->
  wp (tick_current (current (core A))) (fun _ st' => rep (a_tick_current (current (core A)) A) st') st.
Proof.
  intros Hr Hu Hse Hn. pose proof (rep_current A st Hr Hn) as Ha. set (cur := current (core A)) in *.
  unfold tick_current, a_tick_current.
  set (f := fun p => set_time_slice _ _). set (A1 := on_core (alter_proc cur f) A).
  assert (settled A1) as Hse1 by (apply settled_alter; [by left|done]).
  apply (wp_seq _ _ (fun _ s1 => rep A1 s1)); [apply abs_update; auto|]. intros [] s1 Hr1. wp_run.
  rewrite (rep_core idle_task A1 s1) by done. change (idle_task (core A1)) with (idle_task (core A)).
  destruct (cur =? idle_task (core A)); [by apply rep_schedule|].
  pose proof (rep_current A1 s1 Hr1 Hn) as Ha1. change (current (core A1)) with cur in Ha1.
  destruct (rep_alive A1 s1 cur Hr1 Ha1) as [p Hp].
  apply wp_bind. eapply wp_deref; [done|].
  rewrite (rep_field sched_policy A1 s1 cur p), (rep_field time_slice A1 s1 cur p),
    (rep_field queue_level A1 s1 cur p) by done.
  destruct (has _ PROCESS_NORMAL).
  - destruct (_ <=? 0); [|by apply wp_ret].
    destruct (Z.ltb_spec (queue_level (pc A1 cur)) (SCHED_QUEUE_COUNT - 1)) as [Hlt|]; [|wp_run; by apply rep_schedule].
    eapply wp_seq; [apply abs_update; [done|done|auto| | |by left]|].
    + intros Hin q. apply wf_set_level. destruct (rep_listed A1 s1 cur Hr1 Hin) as (p' & Hp' & [_ Hl _ _]).
      rewrite (rep_field queue_level A1 s1 cur p') in Hl by done. lia.
    + intros Hin E. specialize (Hse1 Hin). change (current (core A1)) with cur in Hse1. by rewrite Hse1 in E.
    + intros [] s2 Hr2. by apply rep_schedule.
  - destruct (has _ PROCESS_REAL_TIME); [|by apply wp_ret]. simpl.
    destruct (_ <=? 0); [by apply rep_schedule|by apply wp_ret].
Qed.

Lemma rep_tick (A : abs) (st : sched) :
  rep A st -> unlocked (core A) -> settled A -> wp sched_tick (fun _ st' => rep (a_tick A) st') st.
Proof.
  intros Hr [Hl Hi] Hs. unfold sched_tick, a_tick. apply (rep_timers A st); [done|done|]. intros s1 Hr1.
  assert (unlocked (core (a_timers A))) as Hu1 by (split; by rewrite a_timers_var).
  wp_run. rewrite (rep_core current (a_timers A) s1) by done.
  destruct (Z.eqb_spec (current (core (a_timers A))) NULL); [by apply rep_schedule|].
  apply rep_tick_current; auto using settled_timers.
Qed.

(** *** Blocking *)

Lemma plist_nonnull (A : abs) (st : sched) (a : Z) : rep A st -> a ∈ plist A -> (a =? NULL) = false.
Proof. intros Hr Ha. apply Z.eqb_neq. intros ->. by apply (rep_null A st Hr). Qed.

Lemma rep_listed_core (A : abs) (st : sched) (a : Z) :
  rep A st -> a ∈ plist A -> is_Some (procs (core A) !! a) /\ wf_pcb (pc A a).
Proof.
  intros Hr Ha. destruct (rep_listed A st a Hr Ha) as (p & Hp & Hw).
  destruct (rep_lookup A st a p Hr Hp) as [Hc Hu]. split; [eauto|].
  eapply wf_pcb_same; [exact Hw|..]; by apply (unlink_field _ p (pc A a)).
Qed.

(** Removal from the queue of a ready process that blocks. *)
Lemma rep_dequeue (A : abs) (st : sched) (a : Z) (f : pcb -> pcb) :
  rep A st -> a ∈ plist A -> keeps_links f -> (forall p, state (f p) = PROCESS_BLOCKED) ->
  (forall p, wf_pcb p -> wf_pcb (f p)) ->
  wp (remove_from_queue a ;; update a f) (fun _ st' =>
    rep (mk_abs (alter_proc a f (core A)) (deq a (queues A)) (plist A)) st') st.
Proof.
  intros Hr Ha Hk Hf Hwf. destruct (rep_listed A st a Hr Ha) as (p & Hp & Hw).
  pose proof Hr as [Hq Hc Hs]. eapply wp_mono.
  { apply (make_unready_spec st (queues A) (plist A) a p f); auto; by rewrite Hf. }
  intros [] st' _ (Hq' & Hc' & Hs'). constructor; [done|done|]. simpl.
  by rewrite Hs', Hs, <-strip_alter by apply Hk.
Qed.

Lemma rep_block (A : abs) (st : sched) (a reason : Z) :
  rep A st -> unlocked (core A) -> a ∈ plist A ->
  wp (sched_block a reason) (fun _ st' => rep (a_block a reason A) st') st.
Proof.
  intros Hr [Hl Hi] Ha. unfold sched_block, a_block. rewrite (plist_nonnull A st) by done.
  apply wp_bind. eapply rep_irq_save; [done|done|]. intros s1 Hr1.
  destruct (rep_listed (lockd A) s1 a Hr1 Ha) as (p & Hp & Hw).
  destruct (rep_listed_core A st a Hr Ha) as [Hal Hwf].
  apply wp_bind. eapply wp_deref; [done|]. rewrite (rep_field state (lockd A) s1 a p) by done.
  change (pc (lockd A) a) with (pc A a).
  destruct (decide (state (pc A a) = PROCESS_RUNNING)) as [Hst|Hnr].
  - rewrite Hst. eapply wp_seq; [apply (abs_update (lockd A)); auto|].
    intros [] s2 Hr2. apply wp_bind.
    apply (rep_irq_restore (on_core (alter_proc a (block reason)) A)); [done|done|]. intros s3 Hr3.
    by apply rep_schedule.
  - destruct (decide (state (pc A a) = PROCESS_READY)) as [Hst|Hnrd].
    + rewrite Hst.
      apply wp_assoc2. eapply wp_seq; [by apply (rep_dequeue (lockd A) s1 a (block reason)); auto|].
      intros [] s2 Hr2. by apply (rep_irq_restore (mk_abs (alter_proc a (block reason) (core A)) (deq a (queues A)) (plist A))).
    + destruct (state (pc A a)); try done; by apply (rep_irq_restore A).
Qed.

Lemma rep_unblock (A : abs) (st : sched) (a : Z) :
  rep A st -> unlocked (core A) -> a ∈ plist A ->
  wp (sched_unblock a) (fun _ st' => rep (a_unblock a A) st') st.
Proof.
  intros Hr [Hl Hi] Ha. unfold sched_unblock, a_unblock. rewrite (plist_nonnull A st) by done.
  destruct (rep_listed A st a Hr Ha) as (p & Hp & Hw).
  apply wp_bind. eapply wp_deref; [done|]. rewrite (rep_field state A st a p) by done.
  destruct (decide (state (pc A a) = PROCESS_BLOCKED)) as [Hst|Hst].
  2: { rewrite bool_decide_eq_false_2 by done. by apply wp_ret. }
  rewrite bool_decide_eq_true_2 by done. simpl.
  apply wp_bind. eapply rep_irq_save; [done|done|]. intros s1 Hr1. apply wp_assoc2.
  eapply wp_seq; [apply (rep_ready (lockd A) s1 a wake); auto|].
  - change (pc (lockd A) a) with (pc A a). by rewrite Hst.
  - intros [] s2 Hr2. by apply (rep_irq_restore (a_ready wake a A)).
Qed.

(** *** Priorities and policies *)

(** [remove] is what the operation does to a ready process before the change. *)
Lemma rep_reclass (A : abs) (st : sched) (a : Z) (f : pcb -> pcb) (remove : FM sched unit) (p : pcb) :
  rep (lockd A) st -> lock (core A) = mk_spinlock 0 -> a ∈ plist A -> keeps_links f ->
  (forall p, state (f p) = state p) -> (forall p, wf_pcb p -> wf_pcb (f p)) ->
  procs st !! a = Some p ->
  (wf_pcb p -> a ∈ ready (queues A) (home p) ->
     wp remove (fun _ s' => queued s' (deq a (queues A)) /\ strip s' = strip st) st) ->
  wp ((if decide (state p = PROCESS_READY) then remove else mret tt) ;;
      update a f ;;
      (if decide (state p = PROCESS_READY) then add_to_queue a else mret tt) ;;
      spinlock_irq_restore ;; mret 0)
    (fun r st' => r = 0 /\ rep (a_reclass f a A) st') st.
Proof.
  intros Hr Hl Ha Hk Hf Hwf Hp Hrem. destruct (rep_listed_core (lockd A) st a Hr Ha) as [Hal Hw].
  apply wp_assoc3. apply (wp_seq _ _ (fun _ s2 => rep (lockd (a_reclass f a A)) s2)).
  - pose proof (rep_field state (lockd A) st a p ltac:(done) Hr Hp) as Hst.
    change (lockd (a_reclass f a A)) with (a_reclass f a (lockd A)).
    destruct (decide (state p = PROCESS_READY)) as [Hrd|Hrd].
    + apply (rep_requeue (lockd A) st a f); auto; [by rewrite <-Hst| |].
      * intros p' Hp' Hw' Hin _. simplify_eq. by apply Hrem.
      * intros s q qs Hq Hpq Hwq Hna _. by apply add_to_queue_spec.
    + apply wp_bind, wp_ret. unfold a_reclass. rewrite decide_False by (by rewrite <-Hst).
      eapply wp_seq; [apply (abs_update (lockd A)); auto; by rewrite <-Hst|].
      intros [] s2 Hr2. by apply wp_ret.
  - intros [] s2 Hr2. apply wp_bind. apply (rep_irq_restore (a_reclass f a A)); [done|done|].
    intros s3 Hr3. by apply wp_ret.
Qed.

Lemma wf_with_priority (prio : Z) (p : pcb) :
  0 <= prio -> wf_pcb p ->
  wf_pcb (with_priority (if SCHED_PRIORITY_MAX <? prio then SCHED_PRIORITY_MAX else prio) p).
Proof.
  intros Hp [H1 H2 H3 H4]. constructor; [done|done|..]; simpl;
    destruct (Z.ltb_spec SCHED_PRIORITY_MAX prio); unfold SCHED_PRIORITY_MAX in *; lia.
Qed.

Lemma wf_with_policy (policy : Z) (p : pcb) : plain policy = true -> wf_pcb p -> wf_pcb (with_policy policy p).
Proof.
  intros Hp [H1 H2 H3 H4]. constructor; [done|unfold SCHED_QUEUE_COUNT; simpl; lia|done|done].
Qed.

Lemma rep_set_priority (A : abs) (st : sched) (a prio : Z) :
  rep A st -> unlocked (core A) -> a ∈ plist A -> 0 <= prio ->
  wp (sched_set_priority a prio) (fun r st' => r = 0 /\ rep (a_set_priority a prio A) st') st.
Proof.
  intros Hr [Hl Hi] Ha Hpr. unfold sched_set_priority, a_set_priority. rewrite (plist_nonnull A st) by done.
  apply wp_bind. eapply rep_irq_save; [done|done|]. intros s1 Hr1.
  destruct (rep_listed (lockd A) s1 a Hr1 Ha) as (p & Hp & Hw).
  apply wp_bind. eapply wp_deref; [done|].
  apply (rep_reclass A s1 a (with_priority _) (remove_from_queue a) p); auto using wf_with_priority.
  - intros _ Hin. eapply remove_from_queue_spec; [apply Hr1|done|done|done].
Qed.

Lemma rep_set_policy (A : abs) (st : sched) (a policy : Z) :
  rep A st -> unlocked (core A) -> a ∈ plist A -> plain policy = true ->
  wp (sched_set_policy a policy) (fun r st' => r = 0 /\ rep (a_set_policy a policy A) st') st.
Proof.
  intros Hr [Hl Hi] Ha Hpl. unfold sched_set_policy, a_set_policy. rewrite (plist_nonnull A st) by done.
  apply wp_bind. eapply rep_irq_save; [done|done|]. intros s1 Hr1.
  destruct (rep_listed (lockd A) s1 a Hr1 Ha) as (p & Hp & Hw).
  apply wp_bind. eapply wp_deref; [done|].
  apply (rep_reclass A s1 a (with_policy policy) _ p); auto using wf_with_policy.
  - intros _ Hin. pose proof (wf_policy p Hw) as Hpp. pose proof (home_valid p Hw) as Hv. unfold plain in Hpp.
    unfold home in Hin, Hv. rewrite (mlfq_level_wf p Hw) in Hin, Hv. destruct (has _ PROCESS_REAL_TIME).
    2: apply andb_true_iff in Hpp as [H1%negb_true_iff H2%negb_true_iff]; rewrite H1, H2.
    all: eapply wp_seq; [apply (queue_remove_deq s1 (queues A)); [apply Hr1|done|eauto|done]|];
      intros x s2 (_ & Hq2 & Hs2); by apply wp_ret.
Qed.

(** *** The running process gives up the processor *)

Lemma rep_yield (A : abs) (st : sched) :
  rep A st -> unlocked (core A) -> settled A ->
  wp sched_yield (fun _ st' => rep (a_yield A) st') st.
Proof.
  intros Hr Hu Hs. unfold sched_yield, sched_get_current, a_yield. wp_run.
  rewrite (rep_core current A st) by done. set (cur := current (core A)).
  destruct (Z.eqb_spec cur NULL) as [|Hn]; [by apply wp_ret|].
  pose proof (rep_current A st Hr Hn) as Ha. destruct (rep_alive A st cur Hr Ha) as [p Hp].
  apply wp_bind. eapply wp_deref; [done|].
  rewrite (rep_field sched_policy A st cur p), (rep_field queue_level A st cur p),
    (rep_field ticks_used A st cur p), (rep_field time_slice A st cur p) by done.
  destruct (has _ _ && _ && _) eqn:E; [|wp_run; by apply rep_schedule].
  apply andb_true_iff in E as [ [_ Hlv%Z.ltb_lt]%andb_true_iff _].
  eapply wp_seq; [apply abs_update; [done|done|auto| | |by left]|].
  - intros Hin q. apply wf_set_level. destruct (rep_listed_core A st cur Hr Hin) as [_ [_ Hl _ _] ]. lia.
  - intros Hin E. pose proof (Hs Hin) as E2. fold cur in E2. congruence.
  - intros [] s2 Hr2. by apply rep_schedule.
Qed.

Lemma rep_sleep (A : abs) (st : sched) (ms : Z) :
  rep A st -> unlocked (core A) -> current (core A) ∈ plist A ->
  wp (sched_sleep ms) (fun _ st' => rep (a_sleep ms A) st') st.
Proof.
  intros Hr Hu Ha. unfold sched_sleep, sched_get_current, a_sleep. wp_run.
  rewrite (rep_core current A st) by done. rewrite (plist_nonnull A st) by done. wp_run.
  rewrite (rep_core tick_count A st) by done. destruct (rep_listed_core A st _ Hr Ha) as [Hal _].
  eapply wp_mono; [apply (abs_update A); auto|]. intros [] s2 _ Hr2. by apply rep_block.
Qed.

Lemma rep_block_current (A : abs) (st : sched) (reason : Z) :
  rep A st -> unlocked (core A) -> current (core A) ∈ plist A ->
  wp (sched_block_current reason) (fun _ st' => rep (a_block (current (core A)) reason A) st') st.
Proof.
  intros Hr Hu Ha. unfold sched_block_current, sched_get_current. wp_run.
  rewrite (rep_core current A st) by done. rewrite (plist_nonnull A st) by done. by apply rep_block.
Qed.
End SchedRefine.
