(* ===== verification/SchedList.v ===== *)
(** * The process list of the scheduler

    [Module SchedList]: [sched_add] pushes a process on the list that starts at
    [process_list] and enqueues it, [sched_remove] unlinks it from its queue and from the
    list, [sched_set_current] adopts the running process, [kernel_thread_exit] ends it.
    With the operations of SchedRefine.v these are all ways the queues change; [run] and
    [a_run] are one operation on a state and on its abstraction, and [run_refines] is
    the refinement of all of them. *)

From S2P Require Import Prelude FaultM Dll Sync Sched SchedQueue SchedInv SchedRefine.

Module SchedList.
Export SchedRefine.

(** A control block without list pointers. *)
Definition unlist (p : pcb) : pcb := set_prev NULL (set_next NULL p).

Lemma unlist_field {B} (f : pcb -> B) (ps ps' : gmap Z pcb) (b : Z) (p' : pcb) :
  (forall p, f (unlist p) = f p) -> unlist <$> ps' !! b = unlist <$> ps !! b -> ps' !! b = Some p' ->
  exists p, ps !! b = Some p /\ f p = f p'.
Proof.
  intros Hf He Hp'. rewrite Hp' in He. simpl in He. symmetry in He.
  apply fmap_Some in He as (p & Hp & Hu). exists p. split; [done|]. by rewrite <-Hf, <-Hu, Hf.
Qed.

(** The process [a] enters or leaves the list: the others keep all but list pointers. *)
Lemma consistent_relist (s s' : sched) (qs qs' : list (list Z)) (pl pl' : list Z) (a : Z) (p' : pcb) :
  consistent s qs pl -> listed s' pl' -> length qs = 10%nat -> length qs' = 10%nat ->
  (forall b, b <> a -> b ∈ pl' <-> b ∈ pl) ->
  (forall b, b <> a -> unlist <$> procs s' !! b = unlist <$> procs s !! b) ->
  (forall q b, valid_ref q -> b <> a -> b ∈ ready qs' q <-> b ∈ ready qs q) ->
  current s' = current s -> idle_task s' = idle_task s -> a <> idle_task s ->
  procs s' !! a = Some p' -> state p' <> PROCESS_RUNNING ->
  (a ∈ pl' -> wf_pcb p' /\ (state p' = PROCESS_READY -> a ∈ concat qs')) ->
  (forall q, valid_ref q -> a ∈ ready qs' q -> a ∈ pl' /\ state p' = PROCESS_READY /\ home p' = q) ->
  consistent s' qs' pl'.
Proof.
  intros Hco Hls Hlq Hlq' Hpl Hps Hq Hcur Hidle Hai Hp' Hrun Ha Haq.
  assert (forall b pb, b <> a -> procs s' !! b = Some pb -> exists pb0, procs s !! b = Some pb0 /\
    state pb0 = state pb /\ home pb0 = home pb /\ (wf_pcb pb0 -> wf_pcb pb)) as Hold.
  { intros b pb Hn Hpb. destruct (unlist_field (fun p => (state p, home p, (sched_policy p, queue_level p,
      (priority p, effective_priority p)))) (procs s) (procs s') b pb) as (p0 & Hp0 & [= E1 E2 E3 E4 E5 E6]);
      [done|by apply Hps|done|]. exists p0. split_and!; [done|done|done|].
    intros Hw. by eapply wf_pcb_same. }
  constructor; rewrite ?Hcur, ?Hidle; try done.
  - intros q b Hv Hb. destruct (decide (b = a)) as [->|Hn].
    + destruct (Haq q Hv Hb) as (? & ? & ?). eauto.
    + apply Hq in Hb; [|done..]. destruct (co_queued _ _ _ Hco q b Hv Hb) as (Hl & p & Hp & Hst & Hh).
      split; [by apply Hpl|]. destruct (unlist_field (fun p => (state p, home p)) (procs s') (procs s) b p)
        as (pb & Hpb & [= E1 E2]); [done|by rewrite Hps|done|]. exists pb. by rewrite E1, E2.
  - intros b pb Hb Hpb Hst. destruct (decide (b = a)) as [->|Hn]; [simplify_eq; by apply Ha|].
    destruct (Hold b pb Hn Hpb) as (p0 & Hp0 & E1 & _ & _). rewrite <-E1 in Hst.
    pose proof (co_ready _ _ _ Hco b p0 ltac:(by apply Hpl) Hp0 Hst) as Hin.
    apply elem_of_queues in Hin as (q & Hv & Hin); [|done]. apply elem_of_queues; [done|].
    exists q. split; [done|]. by apply Hq.
  - intros b pb Hb Hpb Hst. destruct (decide (b = a)) as [->|Hn]; [by simplify_eq|].
    destruct (Hold b pb Hn Hpb) as (p0 & Hp0 & E1 & _ & _). rewrite <-E1 in Hst.
    by apply (co_running _ _ _ Hco b p0 ltac:(by apply Hpl)).
  - destruct (decide (current s = a)) as [->|Hn]; [right; exists p'; by split|].
    destruct (co_current _ _ _ Hco) as [?|(p & Hp & Hi)]; [by left|right].
    destruct (unlist_field state (procs s') (procs s) (current s) p) as (pb & Hpb & E1); [done|by rewrite Hps|done|].
    exists pb. split; [done|]. rewrite E1. intros Hst. destruct (Hi Hst); [left|by right]. by apply Hpl.
  - destruct (co_idle _ _ _ Hco) as [ [p Hp] Hni]. split; [|by rewrite Hpl].
    destruct (unlist_field state (procs s') (procs s) (idle_task s) p) as (pb & Hpb & _);
      [done|rewrite Hps; congruence|done|]. eauto.
  - intros b pb Hb Hpb. destruct (decide (b = a)) as [->|Hn]; [simplify_eq; by apply Ha|].
    destruct (Hold b pb Hn Hpb) as (p0 & Hp0 & _ & _ & Hw). apply Hw.
    eapply co_wf; [done|by apply Hpl|done].
Qed.

(** ** [sched_add] *)

Definition enter (now : Z) (p : pcb) : pcb := set_last_run_time now (set_state PROCESS_READY p).
Definition link_first (first : Z) (p : pcb) : pcb := set_prev NULL (set_next first p).

(** The process [a] in front of the list that starts at [first]. *)
Definition push (a first : Z) (s : sched) : sched :=
  let s := alter_proc a (link_first first) (alter_proc a (enter (tick_count s)) s) in
  set_process_list a (if first =? NULL then s else alter_proc first (set_prev a) s).

Definition a_add (a : Z) (A : abs) : abs :=
  mk_abs (push a (first_of NULL (plist A)) (core A)) (enq (home (pc A a)) a (queues A)) (a :: plist A).

Lemma push_procs (a first b : Z) (s : sched) (p : pcb) :
  procs s !! a = Some p -> a <> first -> procs s !! NULL = None ->
  procs (push a first s) !! b =
    if decide (b = a) then Some (link_first first (enter (tick_count s) p))
    else (if decide (b = first) then set_prev a else id) <$> procs s !! b.
Proof.
  intros Hp Hn Hnull. unfold push. destruct (Z.eqb_spec first NULL) as [->|Hf]; simpl.
  - destruct (decide (b = a)) as [->|Hb]; [by rewrite !lookup_alter_eq, Hp|].
    rewrite !lookup_alter_ne by done. destruct (decide (b = NULL)) as [->|]; [by rewrite Hnull|].
    by rewrite option_fmap_id.
  - destruct (decide (b = a)) as [->|Hb]; [by rewrite lookup_alter_ne, !lookup_alter_eq, Hp|].
    destruct (decide (b = first)) as [->|Hbf]; [by rewrite lookup_alter_eq, !lookup_alter_ne|].
    by rewrite !lookup_alter_ne, option_fmap_id.
Qed.

Lemma strip_push (a first : Z) (s : sched) : strip (push a first s) = push a first (strip s).
Proof.
  unfold push. change (strip (set_process_list a ?x)) with (set_process_list a (strip x)).
  destruct (first =? NULL); by rewrite !strip_alter.
Qed.

Lemma queued_push (a first : Z) (s : sched) (qs : list (list Z)) :
  queued s qs -> is_Some (procs s !! a) -> (first <> NULL -> is_Some (procs s !! first)) ->
  queued (push a first s) qs.
Proof.
  intros Hq Ha Hf.
  assert (queued (alter_proc a (link_first first) (alter_proc a (enter (tick_count s)) s)) qs) as H1.
  { apply queued_alter; [by apply queued_alter| |done|done]. simpl. rewrite lookup_alter_eq.
    by apply fmap_is_Some. }
  unfold push. destruct (Z.eqb_spec first NULL) as [E|E].
  - apply (queued_frame (alter_proc a (link_first first) (alter_proc a (enter (tick_count s)) s))); done.
  - apply (queued_frame (alter_proc first (set_prev a)
      (alter_proc a (link_first first) (alter_proc a (enter (tick_count s)) s)))); [done..|].
    apply queued_alter; [done| |done|done]. simpl.
    destruct (decide (first = a)) as [->|].
    + rewrite !lookup_alter_eq. rewrite !fmap_is_Some. auto.
    + rewrite !lookup_alter_ne by done. auto.
Qed.

Lemma consistent_push (a : Z) (s : sched) (qs : list (list Z)) (pl : list Z) (p : pcb) :
  queued s qs -> consistent s qs pl -> procs s !! a = Some p -> a ∉ pl -> a <> idle_task s -> wf_pcb p ->
  consistent (push a (first_of NULL pl) s) (enq (home p) a qs) (a :: pl).
Proof.
  intros Hq Hc Hp Hna Hai Hw. pose proof (qd_null _ _ Hq) as Hnull. pose proof (qd_len _ _ Hq) as Hlen.
  assert (a <> first_of NULL pl) as Hnf.
  { intros E. destruct (first_of_cases pl) as [E'|Hin]; [|by rewrite <-E in Hin].
    by rewrite E, E', Hnull in Hp. }
  pose proof (fun b => push_procs a (first_of NULL pl) b s p Hp Hnf Hnull) as Hps.
  assert (a ∉ concat qs) as Hnq.
  { intros Hin. apply elem_of_queues in Hin as (q & Hv & Hin); [|done].
    by destruct (co_queued _ _ _ Hc q a Hv Hin). }
  pose proof (home_valid p Hw) as Hv.
  eapply (consistent_relist s _ qs _ pl (a :: pl) a (link_first (first_of NULL pl) (enter (tick_count s) p)));
    try done.
  - destruct Hc as [ [Hh Hd Hnd] _ _ _ _ _ _]. constructor; [done| |by constructor].
    eapply dll_push; [done|done| | |exact Hd].
    + unfold plinks. by rewrite Hps, decide_True.
    + intros b Hb. unfold plinks. rewrite Hps, decide_False by (by intros ->).
      pose proof (some_eq_head b pl Hb). destruct (procs s !! b) as [pb|]; [|by repeat case_decide].
      repeat case_decide; (done || naive_solver).
  - by rewrite length_enq.
  - set_solver.
  - intros b Hb. rewrite Hps, decide_False by done. destruct (procs s !! b); by case_decide.
  - intros q b Hvq Hb. rewrite elem_of_enq by done. naive_solver.
  - unfold push. by destruct (_ =? _).
  - unfold push. by destruct (_ =? _).
  - by rewrite Hps, decide_True.
  - intros _. split; [by eapply wf_pcb_same|]. intros _.
    apply (elem_of_ready _ (home p)); [by rewrite length_enq|done|]. apply elem_of_enq; auto.
  - intros q Hvq. rewrite elem_of_enq by done. intros [Hin|[_ ->] ]; [|set_solver].
    exfalso. by eapply Hnq, elem_of_ready.
Qed.

Lemma rep_add (A : abs) (st : sched) (a : Z) :
  rep A st -> unlocked (core A) -> is_Some (procs (core A) !! a) -> a ∉ plist A ->
  a <> idle_task (core A) -> wf_pcb (pc A a) ->
  wp (sched_add a) (fun _ st' => rep (a_add a A) st') st.
Proof.
  intros Hr [Hl Hi] Ha Hna Hai Hw. destruct (rep_alive A st a Hr Ha) as [p0 Hp0].
  unfold sched_add. rewrite (proj2 (Z.eqb_neq a NULL)) by (intros ->; by rewrite (qd_null _ _ (rp_queued A st Hr)) in Hp0).
  apply wp_bind. eapply rep_irq_save; [done|done|]. intros s1 Hr1. pose proof Hr1 as [Hq1 Hc1 Hs1].
  destruct (rep_alive (lockd A) s1 a Hr1 Ha) as [p Hp]. clear Hp0 p0.
  assert (wf_pcb p) as Hwp.
  { destruct (rep_lookup (lockd A) s1 a p Hr1 Hp) as [_ Hu].
    eapply wf_pcb_same; [exact Hw|..]; by apply (unlink_field _ (pc A a) p). }
  wp_run. eapply wp_alter; [eauto|]. wp_run.
  change (process_list (alter_proc a ?f s1)) with (process_list s1).
  rewrite (ls_head _ _ (co_listed _ _ _ Hc1)). change (plist (lockd A)) with (plist A). set (first := first_of NULL (plist A)) in *.
  assert (first <> NULL -> is_Some (procs s1 !! first)) as Hf.
  { intros Hne. destruct (first_of_cases (plist A)) as [|Hin]; [done|].
    destruct (rep_listed (lockd A) s1 first Hr1 Hin) as (q & Hq & _). eauto. }
  apply (wp_mono _ (fun _ s2 => s2 = push a first s1)).
  { unfold push. destruct (Z.eqb_spec first NULL) as [E|E]; wp_run.
    - eapply wp_alter; [simpl; rewrite lookup_alter_eq, Hp; eauto|]. by rewrite E.
    - eapply wp_alter; [simpl; rewrite lookup_alter_eq, Hp; eauto|]. wp_run.
      eapply wp_alter; [|by wp_run]. simpl. destruct (decide (first = a)) as [->|].
      + rewrite !lookup_alter_eq, Hp. eauto.
      + rewrite !lookup_alter_ne by done. auto. }
  intros [] s2 _ ->. assert (a <> first) as Hnf.
  { intros E. destruct (first_of_cases (plist A)) as [E'|Hin]; [|by rewrite E in Hna].
    by rewrite E in Hp; unfold first in Hp; rewrite E', (qd_null _ _ Hq1) in Hp. }
  pose proof (push_procs a first a s1 p Hp Hnf (qd_null _ _ Hq1)) as Hpa. rewrite decide_True in Hpa by done.
  assert (a ∉ concat (queues A)) as Hnq.
  { intros Hin. apply elem_of_queues in Hin as (q & Hv & Hin); [|apply Hq1].
    by destruct (co_queued _ _ _ Hc1 q a Hv Hin). }
  eapply wp_seq.
  { apply (add_to_queue_spec _ (queues A)); [|exact Hpa| |done].
    - apply queued_push; [done|eauto|done].
    - by eapply wf_pcb_same. }
  intros [] s3 [Hq3 Hs3]. apply (rep_irq_restore (a_add a A)); [|by unfold a_add, push; simpl; destruct (_ =? _)|done].
  assert (home p = home (pc A a)) as Hh by (by apply (rep_field home (lockd A) s1 a p)).
  constructor; simpl.
  - rewrite <-Hh. exact Hq3.
  - eapply consistent_strip; [exact Hs3|]. rewrite <-Hh. apply consistent_push; try done.
    by rewrite (rep_core idle_task (lockd A) s1).
  - rewrite Hs3, strip_push, Hs1. change (strip (set_lock ?l ?x)) with (set_lock l (strip x)).
    rewrite strip_push. unfold push. by destruct (_ =? _).
Qed.

(** ** [sched_remove] *)

(** A write through a pointer that may be null. *)
Definition alter_opt (a : Z) (f : pcb -> pcb) (s : sched) : sched := if a =? NULL then s else alter_proc a f s.

Lemma wp_alter_opt (a : Z) (f : pcb -> pcb) (Q : unit -> sched -> Prop) (s : sched) :
  (a <> NULL -> is_Some (procs s !! a)) -> Q tt (alter_opt a f s) ->
  wp (if a =? NULL then mret tt else update a f) Q s.
Proof.
  unfold alter_opt. destruct (Z.eqb_spec a NULL); intros Ha HQ; [by apply wp_ret|]. apply wp_alter; auto.
Qed.

Lemma alter_opt_procs (a b : Z) (f : pcb -> pcb) (s : sched) :
  procs s !! NULL = None ->
  procs (alter_opt a f s) !! b = (if decide (b = a) then f else id) <$> procs s !! b.
Proof.
  intros Hn. unfold alter_opt. destruct (Z.eqb_spec a NULL) as [->|]; simpl.
  - destruct (decide (b = NULL)) as [->|]; [by rewrite Hn|by rewrite option_fmap_id].
  - destruct (decide (b = a)) as [->|]; [apply lookup_alter_eq|]. by rewrite lookup_alter_ne, option_fmap_id.
Qed.

Lemma strip_alter_opt (a : Z) (f : pcb -> pcb) (s : sched) :
  (forall p, unlink (f p) = f (unlink p)) -> strip (alter_opt a f s) = alter_opt a f (strip s).
Proof. intros Hf. unfold alter_opt. destruct (_ =? _); [done|]. by apply strip_alter. Qed.

Lemma alter_opt_var {B} (g : sched -> B) (a : Z) (f : pcb -> pcb) (s : sched) :
  (forall a f s, g (alter_proc a f s) = g s) -> g (alter_opt a f s) = g s.
Proof. intros Hg. unfold alter_opt. destruct (_ =? _); [done|]. apply Hg. Qed.

Lemma queued_alter_opt (a : Z) (f : pcb -> pcb) (s : sched) (qs : list (list Z)) :
  queued s qs -> (a <> NULL -> is_Some (procs s !! a)) -> keeps_links f \/
    (forall p, queue_prev (f p) = queue_prev p) /\ (forall p, queue_next (f p) = queue_next p) ->
  queued (alter_opt a f s) qs.
Proof.
  intros Hq Ha Hf. unfold alter_opt. destruct (Z.eqb_spec a NULL); [done|].
  apply queued_alter; [done|auto|..]; destruct Hf as [ []|[] ]; auto.
Qed.

(** The neighbours [pv] and [nx] of a removed process point to each other. *)
Definition bypass (pv nx : Z) (s : sched) : sched :=
  alter_opt nx (set_prev pv) (alter_opt pv (set_next nx) s).
Definition set_first (a nx : Z) (s : sched) : sched := if process_list s =? a then set_process_list nx s else s.
Definition pull (a : Z) (s : sched) : sched :=
  let p := procs s !!! a in set_first a (next p) (bypass (prev p) (next p) s).

Definition a_remove (a : Z) (A : abs) : abs :=
  mk_abs (pull a (core A)) (deq a (queues A)) (filter (fun b => b <> a) (plist A)).

Lemma set_first_var {B} (g : sched -> B) (a nx : Z) (s : sched) :
  (forall v s, g (set_process_list v s) = g s) -> g (set_first a nx s) = g s.
Proof. intros Hg. unfold set_first. by destruct (_ =? _). Qed.

Lemma pull_var {B} (g : sched -> B) (a : Z) (s : sched) :
  (forall a f s, g (alter_proc a f s) = g s) -> (forall v s, g (set_process_list v s) = g s) ->
  g (pull a s) = g s.
Proof. intros Ha Hl. unfold pull, bypass. by rewrite set_first_var, !alter_opt_var. Qed.

Lemma bypass_procs (pv nx b : Z) (s : sched) :
  procs s !! NULL = None ->
  procs (bypass pv nx s) !! b = (if decide (b = nx) then set_prev pv else id) <$>
    ((if decide (b = pv) then set_next nx else id) <$> procs s !! b).
Proof.
  intros Hn. unfold bypass. rewrite alter_opt_procs; rewrite alter_opt_procs by done; [done|].
  by rewrite Hn.
Qed.

Lemma strip_pull (a : Z) (s : sched) : strip (pull a s) = pull a (strip s).
Proof.
  unfold pull. assert (prev (procs (strip s) !!! a) = prev (procs s !!! a) /\
    next (procs (strip s) !!! a) = next (procs s !!! a)) as [-> ->].
  { rewrite !lookup_total_alt. simpl. rewrite lookup_fmap. by destruct (procs s !! a). }
  assert (forall pv nx, strip (bypass pv nx s) = bypass pv nx (strip s)) as Hb
    by (intros; unfold bypass; by rewrite !strip_alter_opt).
  unfold set_first. rewrite <-Hb. change (process_list (strip ?x)) with (process_list x). by destruct (_ =? _).
Qed.

Lemma pull_lock (a : Z) (l : spinlock) (s : sched) : pull a (set_lock l s) = set_lock l (pull a s).
Proof.
  assert (forall b f s, alter_opt b f (set_lock l s) = set_lock l (alter_opt b f s)) as Ho
    by (intros; unfold alter_opt; by destruct (_ =? _)).
  unfold pull, bypass. change (procs (set_lock l s)) with (procs s). rewrite !Ho. unfold set_first.
  change (process_list (set_lock l ?x)) with (process_list x). by destruct (_ =? _).
Qed.

Lemma consistent_pull (a : Z) (s : sched) (qs : list (list Z)) (pl : list Z) (p : pcb) :
  queued s (deq a qs) -> consistent s qs pl -> length qs = 10%nat -> procs s !! a = Some p -> a ∈ pl ->
  state p <> PROCESS_RUNNING ->
  consistent (pull a s) (deq a qs) (filter (fun b => b <> a) pl).
Proof.
  intros Hq Hc Hlen Hp Hin Hst. pose proof (qd_null _ _ Hq) as Hnull.
  destruct (co_listed _ _ _ Hc) as [Hh Hd Hnd].
  apply list_elem_of_split in Hin as (l & k & ->).
  pose proof (dseg_middle _ _ _ _ _ _ Hd) as Hla. unfold plinks in Hla. rewrite Hp in Hla. injection Hla as Hpv Hnx.
  rewrite filter_middle by done. pose proof Hnd as (Hndl & Hdis & [Hak Hndk]%NoDup_cons)%NoDup_app.
  assert (forall b, b ∈ l ++ a :: k -> b <> NULL) as Hnn.
  { intros b Hb ->. eapply dseg_links in Hd as [x Hx]; [|exact Hb]. unfold plinks in Hx. by rewrite Hnull in Hx. }
  unfold pull. rewrite (lookup_total_Some _ _ _ Hp), Hpv, Hnx.
  assert (a <> last_of NULL l /\ a <> first_of NULL k) as [Hal Haf].
  { split; intros E; [destruct (last_of_cases l) as [E'|Hi]|destruct (first_of_cases k) as [E'|Hi] ].
    - apply (Hnn a); [set_solver|congruence].
    - rewrite <-E in Hi. apply (Hdis a Hi). set_solver.
    - apply (Hnn a); [set_solver|congruence].
    - by rewrite <-E in Hi. }
  pose proof (fun b => bypass_procs (last_of NULL l) (first_of NULL k) b s Hnull) as Hps.
  assert (forall b, procs (set_first a (first_of NULL k) (bypass (last_of NULL l) (first_of NULL k) s)) !! b =
    procs (bypass (last_of NULL l) (first_of NULL k) s) !! b) as Hsf by (intros; by rewrite set_first_var).
  eapply (consistent_relist s _ qs _ _ (l ++ k) a p); try done.
  - constructor; [| |apply NoDup_app; set_solver].
    + unfold set_first, bypass. rewrite !(alter_opt_var process_list) by done. rewrite Hh.
      destruct l as [|b l]; [change (first_of NULL ([] ++ a :: k)) with a; by rewrite Z.eqb_refl|].
      change (first_of NULL ((b :: l) ++ a :: k)) with b in *. destruct (Z.eqb_spec b a) as [->|]; [exfalso; apply (Hdis a); set_solver|].
      rewrite !(alter_opt_var process_list) by done. by rewrite Hh.
    + eapply dll_unlink; [exact Hnd| | |exact Hd]; intros b Hb; unfold plinks; rewrite Hsf, Hps.
      * assert (b <> first_of NULL k) as Hbk.
        { intros E. destruct (first_of_cases k) as [E'|Hi]; [apply (Hnn b); [set_solver|congruence]|].
          rewrite <-E in Hi. apply (Hdis b Hb). by right. }
        pose proof (some_eq_last b l Hb). rewrite (decide_False (P := b = first_of NULL k)) by done.
        rewrite option_fmap_id. destruct (procs s !! b); [|done]. simpl. repeat case_decide; (done || naive_solver).
      * assert (b <> last_of NULL l) as Hbl.
        { intros E. destruct (last_of_cases l) as [E'|Hi]; [apply (Hnn b); [set_solver|congruence]|].
          rewrite <-E in Hi. apply (Hdis b Hi). by right. }
        pose proof (some_eq_head b k Hb). rewrite (decide_False (P := b = last_of NULL l)) by done.
        rewrite option_fmap_id. destruct (procs s !! b); [|done]. simpl. repeat case_decide; (done || naive_solver).
  - by rewrite length_deq.
  - set_solver.
  - intros b Hb. rewrite Hsf, Hps. destruct (procs s !! b); [|done]. simpl. by repeat case_decide.
  - intros q b Hv Hb. rewrite elem_of_deq by done. naive_solver.
  - rewrite (set_first_var current) by done. unfold bypass. by rewrite !(alter_opt_var current).
  - rewrite (set_first_var idle_task) by done. unfold bypass. by rewrite !(alter_opt_var idle_task).
  - intros E. destruct (co_idle _ _ _ Hc) as [_ Hni]. apply Hni. rewrite <-E. set_solver.
  - rewrite Hsf, Hps, Hp. by rewrite !decide_False.
  - intros Hin. exfalso. apply elem_of_app in Hin as [Hi|Hi]; [|done]. apply (Hdis a Hi). by left.
  - intros q Hv. rewrite elem_of_deq by done. naive_solver.
Qed.

Lemma rep_remove (A : abs) (st : sched) (a : Z) :
  rep A st -> unlocked (core A) -> a ∈ plist A -> state (pc A a) <> PROCESS_RUNNING ->
  wp (sched_remove a) (fun _ st' => rep (a_remove a A) st') st.
Proof.
  intros Hr [Hl Hi] Ha Hst. unfold sched_remove. rewrite (plist_nonnull A st) by done.
  apply wp_bind. eapply rep_irq_save; [done|done|]. intros s1 Hr1. pose proof Hr1 as [Hq1 Hc1 Hs1].
  destruct (rep_listed (lockd A) s1 a Hr1 Ha) as (p1 & Hp1 & Hw1).
  eapply wp_seq; [eapply remove_from_queue_spec; [done|done|done|]|].
  { intros Hin. by apply (consistent_home s1 _ (plist A) a p1 Hq1 Hc1 Hp1). }
  intros [] s2 [Hq2 Hs2].
  assert (consistent s2 (queues A) (plist A)) as Hc2 by (by eapply consistent_strip).
  destruct (strip_lookup s2 s1 a p1) as (p & Hp & Hu); [by symmetry|done|].
  assert (state p <> PROCESS_RUNNING) as Hsp.
  { rewrite (unlink_field state p1 p), (rep_field state (lockd A) s1 a p1) by (done || by symmetry). done. }
  apply wp_bind. eapply wp_deref; [done|].
  assert (forall b, b = prev p \/ b = next p -> b <> NULL -> is_Some (procs s2 !! b)) as Hnb.
  { intros b Hb Hn. destruct (co_listed _ _ _ Hc2) as [_ Hd _].
    apply list_elem_of_split in Ha as (l & k & He). rewrite He in Hd.
    pose proof (dseg_middle _ _ _ _ _ _ Hd) as Hla. unfold plinks in Hla. rewrite Hp in Hla. injection Hla as Hpv Hnx.
    assert (b ∈ l ++ a :: k) as Hbl.
    { rewrite Hpv, Hnx in Hb. destruct (last_of_cases l), (first_of_cases k), Hb as [->| ->]; set_solver. }
    eapply dseg_links in Hd as [x Hx]; [|exact Hbl]. apply fmap_Some in Hx as (q & Hqb & _). eauto. }
  apply wp_bind, wp_alter_opt; [eauto|].
  assert (procs s2 !! NULL = None) as Hn2 by apply Hq2.
  apply wp_bind, wp_alter_opt.
  { intros Hn. rewrite alter_opt_procs by done. rewrite fmap_is_Some. eauto. }
  change (alter_opt _ _ (alter_opt _ _ s2)) with (bypass (prev p) (next p) s2). wp_run.
  apply (wp_mono _ (fun _ s3 => s3 = pull a s2)).
  { unfold pull, set_first. rewrite (lookup_total_Some _ _ _ Hp). by destruct (_ =? _); wp_run. }
  intros [] s3 _ ->. apply (rep_irq_restore (a_remove a A)); [|by simpl; rewrite pull_var|done].
  constructor; simpl.
  - unfold pull. rewrite (lookup_total_Some _ _ _ Hp).
    apply (queued_frame (bypass (prev p) (next p) s2)); [by rewrite set_first_var..|].
    apply queued_alter_opt; [apply queued_alter_opt; [done|eauto|by right]| |by right].
    intros Hn. rewrite alter_opt_procs by done. rewrite fmap_is_Some. eauto.
  - apply (consistent_pull a s2 (queues A) (plist A) p); auto. apply Hq1.
  - rewrite strip_pull, Hs2, Hs1. change (strip (set_lock ?l ?x)) with (set_lock l (strip x)).
    rewrite strip_pull. simpl. change (strip (set_lock ?l ?x)) with (set_lock l (strip x)). by rewrite pull_lock.
Qed.

(** ** The running process *)

Definition a_set_current (a : Z) (A : abs) : abs :=
  mk_abs (set_current a (alter_proc a (set_state PROCESS_RUNNING) (core A))) (deq a (queues A)) (plist A).

Lemma rep_set_current (A : abs) (st : sched) (a : Z) :
  rep A st -> unlocked (core A) -> a ∈ plist A -> current (core A) = NULL ->
  wp (sched_set_current a) (fun _ st' => rep (a_set_current a A) st') st.
Proof.
  intros Hr [Hl Hi] Ha Hcur. unfold sched_set_current. rewrite (plist_nonnull A st) by done.
  apply wp_bind, wp_bind. eapply rep_irq_save; [done|done|]. intros s1 Hr1. pose proof Hr1 as [Hq1 Hc1 Hs1].
  destruct (rep_listed (lockd A) s1 a Hr1 Ha) as (p1 & Hp1 & Hw1).
  apply wp_bind. eapply wp_deref; [done|].
  eapply wp_seq; [apply (queue_remove_deq s1 (queues A)); [done|by apply home_valid|eauto|]|].
  { intros Hin. by apply (consistent_home s1 _ (plist A) a p1 Hq1 Hc1 Hp1). }
  intros x s2 (_ & Hq2 & Hs2).
  assert (consistent s2 (queues A) (plist A)) as Hc2 by (by eapply consistent_strip).
  destruct (strip_lookup s2 s1 a p1) as (p & Hp & Hu); [by symmetry|done|].
  assert (current s2 = NULL) as Hcur2.
  { rewrite (strip_var current s1 s2), (rep_core current (lockd A) s1) by done. exact Hcur. }
  apply wp_bind, wp_irq_restore. apply wp_alter; [eauto|]. apply wp_modify.
  constructor; simpl.
  - apply (queued_frame (alter_proc a (set_state PROCESS_RUNNING) s2)); [done..|]. apply queued_alter; eauto.
  - eapply (consistent_change s2 _ (queues A) (deq a (queues A)) (plist A) a p (set_state PROCESS_RUNNING p)); try done.
    + simpl. by apply alter_insert_eq.
    + intros _. eapply wf_pcb_same; [by eapply co_wf|done..].
    + apply Hq1.
    + rewrite length_deq. apply Hq1.
    + intros q b Hv Hb. rewrite elem_of_deq by (done || apply Hq1). naive_solver.
    + intros q Hv. rewrite elem_of_deq by (done || apply Hq1). naive_solver.
    + by left.
    + right. split; [done|]. intros b q Hb _ Hpb Hst.
      pose proof (co_running _ _ _ Hc2 b q Hb Hpb Hst) as ->. rewrite Hcur2 in Hb. by apply (rep_null A st Hr).
  - change (set_current a (set_lock (mk_spinlock 0) (strip (alter_proc a (set_state PROCESS_RUNNING) s2))) =
      set_current a (strip (alter_proc a (set_state PROCESS_RUNNING) (core A)))).
    rewrite !strip_alter, Hs2, Hs1 by done.
    change (set_current a (alter_proc a (set_state PROCESS_RUNNING) (set_lock (mk_spinlock 0) (strip (core A)))) =
      set_current a (alter_proc a (set_state PROCESS_RUNNING) (strip (core A)))).
    by rewrite set_lock_id.
Qed.

(** The end of the running thread: [A] with the thread marked dead and unlinked, and the
    choice of the next process. *)
Definition a_exit (A : abs) : abs :=
  let cur := current (core A) in
  a_schedule (a_remove cur (on_core (alter_proc cur (set_state PROCESS_ZOMBIE)) A)).

Lemma rep_exit (A : abs) (st : sched) :
  rep A st -> unlocked (core A) -> settled A -> current (core A) ∈ plist A ->
  wp kernel_thread_exit (fun _ st' => rep (a_exit A) st') st.
Proof.
  intros Hr Hu Hs Ha. unfold kernel_thread_exit, sched_get_current, a_exit. wp_run.
  rewrite (rep_core current A st), (plist_nonnull A st) by done. specialize (Hs Ha).
  destruct (rep_listed_core A st _ Hr Ha) as [Hal Hw].
  eapply wp_seq.
  { apply (abs_update A); [done|done|by constructor| | |].
    - intros _ p Hp. by eapply wf_pcb_same.
    - intros _ E. by rewrite Hs in E.
    - right. split; [done|]. by right. }
  intros [] s1 Hr1. set (A1 := on_core _ A) in *.
  assert (pc A1 (current (core A)) = set_state PROCESS_ZOMBIE (pc A (current (core A)))) as Hpc.
  { unfold A1. rewrite pc_alter by done. by rewrite decide_True. }
  eapply wp_seq; [apply (rep_remove A1); [done|done|done|by rewrite Hpc]|].
  intros [] s2 Hr2. apply rep_schedule; [done|]. destruct Hu. split; by simpl; rewrite pull_var.
Qed.

(** ** All operations *)

Inductive sched_op :=
  | OpTick | OpSchedule | OpYield | OpSleep (ms : Z) | OpBlockCurrent (reason : Z)
  | OpBlock (a reason : Z) | OpUnblock (a : Z) | OpSetPriority (a prio : Z)
  | OpSetPolicy (a policy : Z) | OpAdd (a : Z) | OpRemove (a : Z) | OpSetCurrent (a : Z) | OpExit.

Definition run (op : sched_op) : FM sched unit :=
  match op with
  | OpTick => sched_tick
  | OpSchedule => schedule
  | OpYield => sched_yield
  | OpSleep ms => sched_sleep ms
  | OpBlockCurrent reason => sched_block_current reason
  | OpBlock a reason => sched_block a reason
  | OpUnblock a => sched_unblock a
  | OpSetPriority a prio => sched_set_priority a prio ;; mret tt
  | OpSetPolicy a policy => sched_set_policy a policy ;; mret tt
  | OpAdd a => sched_add a
  | OpRemove a => sched_remove a
  | OpSetCurrent a => sched_set_current a
  | OpExit => kernel_thread_exit
  end.

Definition a_run (op : sched_op) (A : abs) : abs :=
  match op with
  | OpTick => a_tick A
  | OpSchedule => a_schedule A
  | OpYield => a_yield A
  | OpSleep ms => a_sleep ms A
  | OpBlockCurrent reason => a_block (current (core A)) reason A
  | OpBlock a reason => a_block a reason A
  | OpUnblock a => a_unblock a A
  | OpSetPriority a prio => a_set_priority a prio A
  | OpSetPolicy a policy => a_set_policy a policy A
  | OpAdd a => a_add a A
  | OpRemove a => a_remove a A
  | OpSetCurrent a => a_set_current a A
  | OpExit => a_exit A
  end.

(** What the callers in the kernel see to: operations name processes of the list, new
    processes are outside it, a process is marked dead before it is removed, the first
    process is adopted when none runs, and policies are served by the ready queues. *)
Definition allowed (op : sched_op) (A : abs) : Prop :=
  match op with
  | OpTick | OpSchedule | OpYield => True
  | OpSleep _ | OpBlockCurrent _ | OpExit => current (core A) ∈ plist A
  | OpBlock a _ | OpUnblock a => a ∈ plist A
  | OpSetPriority a prio => a ∈ plist A /\ 0 <= prio
  | OpSetPolicy a policy => a ∈ plist A /\ plain policy = true
  | OpAdd a => is_Some (procs (core A) !! a) /\ a ∉ plist A /\ a <> idle_task (core A) /\
      a <> current (core A) /\ wf_pcb (pc A a)
  | OpRemove a => a ∈ plist A /\ state (pc A a) <> PROCESS_RUNNING
  | OpSetCurrent a => a ∈ plist A /\ current (core A) = NULL
  end.

Record inv (A : abs) (st : sched) : Prop := {
  inv_rep : rep A st;
  inv_unlocked : unlocked (core A);
  inv_settled : settled A;
}.

Lemma state_alter (ps : gmap Z pcb) (a c : Z) (f : pcb -> pcb) :
  (forall p, state (f p) = state p) \/ a <> c -> state (alter f a ps !!! c) = state (ps !!! c).
Proof.
  intros Hf. rewrite !lookup_total_alt. destruct (decide (c = a)) as [->|].
  - rewrite lookup_alter_eq. destruct Hf as [Hf|?]; [|done]. by destruct (ps !! a); simpl.
  - by rewrite lookup_alter_ne.
Qed.

Lemma settled_schedule (A : abs) (st : sched) : rep A st -> settled (a_schedule A).
Proof.
  intros Hr Hin. change (next_of (core A) (queues A) ∈ plist A) in Hin.
  destruct (rep_listed_core A st _ Hr Hin) as [Ha _]. unfold pc. simpl. rewrite lookup_total_alt, lookup_alter_eq.
  assert (is_Some (procs (preempted (core A)) !! next_of (core A) (queues A))) as [p ->]; [|done].
  unfold preempted. destruct (runs (core A)); [|done]. simpl. by apply lookup_alter_is_Some.
Qed.

Lemma settled_not_current (A : abs) (a : Z) :
  settled A -> a ∈ plist A -> state (pc A a) <> PROCESS_RUNNING -> a <> current (core A).
Proof. intros Hs Ha Hst ->. by apply Hst, Hs. Qed.

Lemma state_alter_opt (s : sched) (a c : Z) (f : pcb -> pcb) :
  (forall p, state (f p) = state p) -> state (procs (alter_opt a f s) !!! c) = state (procs s !!! c).
Proof. intros Hf. unfold alter_opt. destruct (_ =? _); [done|]. apply state_alter. by left. Qed.

Lemma settled_add (A : abs) (a : Z) : settled A -> a <> current (core A) -> settled (a_add a A).
Proof.
  intros Hs Hn Hin. assert (current (core (a_add a A)) = current (core A)) as Ec.
  { unfold a_add, push. simpl. by destruct (_ =? _). }
  rewrite Ec in *. apply elem_of_cons in Hin as [?|Hin]; [done|].
  rewrite <-(Hs Hin). unfold pc, a_add, push. simpl.
  destruct (_ =? _); simpl; rewrite ?state_alter; auto.
Qed.

Lemma settled_remove (A : abs) (a : Z) : settled A -> settled (a_remove a A).
Proof.
  intros Hs Hin. change (current (core (a_remove a A))) with (current (pull a (core A))) in *.
  rewrite pull_var in * by done. apply list_elem_of_filter in Hin as [_ Hin]. rewrite <-(Hs Hin).
  unfold pc, a_remove, pull. simpl. rewrite set_first_var by done. unfold bypass. by rewrite !state_alter_opt.
Qed.

(** The invariant of the abstract state, operation by operation. *)
Lemma calm_block (A : abs) (st : sched) (a reason : Z) :
  rep A st -> unlocked (core A) -> settled A -> a ∈ plist A ->
  unlocked (core (a_block a reason A)) /\ settled (a_block a reason A).
Proof.
  intros Hr Hu Hs Ha. unfold a_block. destruct (state (pc A a)) eqn:E; try done.
  - split; [done|]. apply settled_alter; [|done]. right. apply settled_not_current; [done|done|by rewrite E].
  - split; [done|]. destruct (rep_listed_core A st a Hr Ha) as [Hal _].
    apply (settled_schedule _ (alter_proc a (block reason) st)). apply rep_alter; try done.
    + intros _ p Hp. by eapply wf_pcb_same.
    + right. split; [done|]. by left.
Qed.

Lemma calm_schedule_alter (A : abs) (st : sched) (cur : Z) (f : pcb -> pcb) (b : bool) :
  rep A st -> (b = true -> rep (on_core (alter_proc cur f) A) (alter_proc cur f st)) ->
  unlocked (core (a_schedule (if b then on_core (alter_proc cur f) A else A))) /\
  settled (a_schedule (if b then on_core (alter_proc cur f) A else A)).
Proof.
  intros Hr Hb. split; [done|]. destruct b; [by eapply settled_schedule, Hb|by eapply settled_schedule].
Qed.

Lemma calm_reclass (A : abs) (a : Z) (f : pcb -> pcb) :
  (forall p, state (f p) = state p) -> unlocked (core A) -> settled A ->
  unlocked (core (a_reclass f a A)) /\ settled (a_reclass f a A).
Proof. intros Hf Hu Hs. split; [done|]. apply settled_alter; auto. Qed.

(** Every result of [schedule] is settled. *)
Lemma calm_tick_current (A : abs) (st : sched) :
  rep A st -> unlocked (core A) -> settled A -> current (core A) <> NULL ->
  unlocked (core (a_tick_current (current (core A)) A)) /\ settled (a_tick_current (current (core A)) A).
Proof.
  intros Hr Hu Hs Hn. pose proof (rep_current A st Hr Hn) as Ha. set (cur := current (core A)) in *.
  unfold a_tick_current. set (f := fun p => set_time_slice _ _). set (A1 := on_core (alter_proc cur f) A).
  assert (settled A1) as Hs1 by (apply settled_alter; [by left|done]).
  assert (rep A1 (alter_proc cur f st)) as Hr1.
  { apply rep_alter; try done; [|by left]. intros _ p Hp. by eapply wf_pcb_same. }
  pose proof (settled_schedule A1 _ Hr1) as Hsch.
  destruct (cur =? _); [done|]. destruct (has _ PROCESS_NORMAL); [|by destruct (has _ _ && _)].
  destruct (_ <=? 0); [|done]. apply (calm_schedule_alter A1 _ _ _ _ Hr1). intros Hlt%Z.ltb_lt.
  pose proof (rep_current A1 _ Hr1 Hn) as Ha1.
  apply rep_alter; [done|done|by constructor| | |by left].
  - intros Hin q. apply wf_set_level. destruct (rep_listed_core A1 _ cur Hr1 Hin) as [_ [_ Hl _ _] ]. lia.
  - intros Hin E. pose proof (Hs1 Hin) as E2. change (current (core A1)) with cur in E2. congruence.
Qed.

Lemma timers_rep (A : abs) (st : sched) :
  rep A st -> lock (core A) = mk_spinlock 0 -> exists st', rep (a_timers A) st'.
Proof.
  intros Hr Hl. pose proof (rep_timers A st (mret tt) (fun _ st' => rep (a_timers A) st') Hr Hl
    (fun st' H => wp_ret tt _ st' H)) as (x & st' & _ & H)%wp_run. eauto.
Qed.

Lemma calm_tick (A : abs) (st : sched) :
  rep A st -> unlocked (core A) -> settled A -> unlocked (core (a_tick A)) /\ settled (a_tick A).
Proof.
  intros Hr [Hl Hi] Hs. destruct (timers_rep A st Hr Hl) as [s1 Hr1]. unfold a_tick.
  assert (unlocked (core (a_timers A))) as Hu1 by (split; by rewrite a_timers_var).
  destruct (Z.eqb_spec (current (core (a_timers A))) NULL) as [|Hn].
  - split; [done|]. by eapply settled_schedule.
  - eapply calm_tick_current; eauto using settled_timers.
Qed.

Lemma calm_yield (A : abs) (st : sched) :
  rep A st -> unlocked (core A) -> settled A -> unlocked (core (a_yield A)) /\ settled (a_yield A).
Proof.
  intros Hr Hu Hs. unfold a_yield. destruct (Z.eqb_spec (current (core A)) NULL) as [|Hn]; [done|].
  apply (calm_schedule_alter A st); [done|].
  intros [ [_ Hlv%Z.ltb_lt]%andb_true_iff _]%andb_true_iff.
  apply rep_alter; [done|by eapply rep_current|by constructor| | |by left].
  - intros Hin q. apply wf_set_level. destruct (rep_listed_core A st _ Hr Hin) as [_ [_ Hl _ _] ]. lia.
  - intros Hin E. by rewrite (Hs Hin) in E.
Qed.

Lemma calm_sleep (A : abs) (st : sched) (ms : Z) :
  rep A st -> unlocked (core A) -> settled A -> current (core A) ∈ plist A ->
  unlocked (core (a_sleep ms A)) /\ settled (a_sleep ms A).
Proof.
  intros Hr Hu Hs Ha. unfold a_sleep. rewrite (plist_nonnull A st) by done.
  set (f := set_wake_time _). destruct (rep_listed_core A st _ Hr Ha) as [Hal _].
  eapply (calm_block (on_core (alter_proc (current (core A)) f) A) (alter_proc (current (core A)) f st)); [|done| |done].
  - apply rep_alter; try done; [|by left]. intros _ p Hp. by eapply wf_pcb_same.
  - apply settled_alter; [by left|done].
Qed.

Lemma calm_exit (A : abs) (st : sched) :
  rep A st -> unlocked (core A) -> settled A -> current (core A) ∈ plist A ->
  unlocked (core (a_exit A)) /\ settled (a_exit A).
Proof.
  intros Hr Hu Hs Ha. split; [done|]. destruct (rep_listed_core A st _ Hr Ha) as [Hal _].
  set (f := set_state PROCESS_ZOMBIE). set (cur := current (core A)) in *.
  assert (rep (on_core (alter_proc cur f) A) (alter_proc cur f st)) as Hr1.
  { apply rep_alter; [done|done|by constructor| | |].
    - intros _ p Hp. by eapply wf_pcb_same.
    - intros _ E. pose proof (Hs Ha) as E2. fold cur in E2. congruence.
    - right. split; [exact (Hs Ha)|]. by right. }
  pose proof (rep_remove (on_core (alter_proc cur f) A) _ cur Hr1 Hu Ha) as (x & s2 & _ & Hr2)%wp_run.
  - by eapply settled_schedule.
  - rewrite pc_alter by done. by rewrite decide_True.
Qed.

Lemma run_refines (A : abs) (st : sched) (op : sched_op) :
  inv A st -> allowed op A ->
  exists st', run op st = Some (tt, st') /\ inv (a_run op A) st'.
Proof.
  intros [Hr Hu Hs] Hal.
  assert (wp (run op) (fun _ st' => rep (a_run op A) st') st) as ([] & st' & Hrun & Hr')%wp_run.
  { destruct op; simpl in *.
    - by apply rep_tick.
    - by apply rep_schedule.
    - by apply rep_yield.
    - by apply rep_sleep.
    - by apply rep_block_current.
    - by apply rep_block.
    - by apply rep_unblock.
    - destruct Hal. eapply wp_seq; [by apply rep_set_priority|]. intros x s' [_ Hx]. by apply wp_ret.
    - destruct Hal. eapply wp_seq; [by apply rep_set_policy|]. intros x s' [_ Hx]. by apply wp_ret.
    - destruct Hal as (? & ? & ? & ? & ?). by apply rep_add.
    - destruct Hal. by apply rep_remove.
    - destruct Hal. by apply rep_set_current.
    - by apply rep_exit. }
  exists st'. split; [done|].
  assert (unlocked (core (a_run op A)) /\ settled (a_run op A)) as []; [|done].
  destruct op; simpl in *.
  - by eapply calm_tick.
  - split; [done|]. by eapply settled_schedule.
  - by eapply calm_yield.
  - by eapply calm_sleep.
  - by eapply calm_block.
  - by eapply calm_block.
  - unfold a_unblock. destruct (decide _) as [E|]; [|done]. split; [done|]. apply settled_alter; [|done].
    right. apply settled_not_current; [done|done|by rewrite E].
  - by apply calm_reclass.
  - by apply calm_reclass.
  - split; [unfold push; by destruct (_ =? _)|].
    destruct Hal as (_ & _ & _ & ? & _). by apply settled_add.
  - destruct Hu. split; [|by apply settled_remove]. split; by rewrite pull_var.
  - split; [done|]. intros _. destruct Hal as [Ha _]. destruct (rep_listed_core A st a Hr Ha) as [Hla _].
    change (state (pc (on_core (alter_proc a (set_state PROCESS_RUNNING)) A) a) = PROCESS_RUNNING).
    rewrite pc_alter by done. by rewrite decide_True.
  - by eapply calm_exit.
Qed.
End SchedList.
