(* ===== verification/SchedFair.v ===== *)
(** * No ready process starves

    [Module SchedFair]: in a system of processes with the normal policy, every ready
    process runs after a bounded number of timer ticks, whatever the other processes do
    in the meantime ([mlfq_no_starvation]).  A process in the first queue waits for those
    before it, each for one time slice; a process further down reaches the first queue
    with the next priority boost.  The argument is a measure on the abstract scheduler of
    SchedRefine.v that decreases with each tick and grows with no operation. *)

From S2P Require Import Prelude FaultM Dll Sync Sched SchedQueue SchedInv SchedRefine SchedList.

Module SchedFair.
Export SchedList.

(** ** Time slices *)

Lemma calculate_timeslice_bounds (prio : Z) :
  0 <= prio <= SCHED_PRIORITY_MAX -> 10 <= calculate_timeslice prio <= 100.
Proof.
  unfold calculate_timeslice, SCHED_PRIORITY_MAX. intros H.
  rewrite (u32_small (100 - prio)), (u32_small ((100 - prio) * (100 - 10))) by (unfold is_u32; lia).
  rewrite u32_small by (unfold is_u32; dlia). dlia.
Qed.

(** ** The place of a process in the first queue *)

(** [l]: the processes before [x]. *)
Definition waits (x : Z) (l : list Z) (qs : list (list Z)) : Prop :=
  exists r, ready qs (Mlfq 0) = l ++ x :: r.

Lemma valid_mlfq0 : valid_ref (Mlfq 0).
Proof. simpl. unfold SCHED_QUEUE_COUNT. lia. Qed.

Lemma waits_enq (x a : Z) (l : list Z) (q : qref) (qs : list (list Z)) :
  length qs = 10%nat -> valid_ref q -> waits x l qs -> waits x l (enq q a qs).
Proof.
  intros Hl Hq [r Hr]. unfold waits, enq. destruct (decide (q = Mlfq 0)) as [->|Hn].
  - rewrite ready_set_eq, Hr by done. exists (r ++ [a]). by rewrite <-app_assoc.
  - rewrite ready_set_ne by (done || apply valid_mlfq0). eauto.
Qed.

Lemma waits_deq (x a : Z) (l : list Z) (qs : list (list Z)) :
  length qs = 10%nat -> a <> x -> waits x l qs -> waits x (filter (fun b => b <> a) l) (deq a qs).
Proof.
  intros Hl Hn [r Hr]. exists (filter (fun b => b <> a) r).
  rewrite ready_deq, Hr, filter_app, filter_cons_True by (done || congruence || apply valid_mlfq0). done.
Qed.

Lemma zlen_filter (P : Z -> Prop) `{!forall x, Decision (P x)} (l : list Z) : zlen (filter P l) <= zlen l.
Proof. unfold zlen. pose proof (length_filter P l). lia. Qed.

(** ** Systems of normal processes *)

Definition all_normal (A : abs) : Prop :=
  forall a, a ∈ plist A -> has (sched_policy (pc A a)) PROCESS_NORMAL = true.

Record normal (A : abs) : Prop := {
  no_policy : all_normal A;
  no_current : current (core A) = NULL \/ current (core A) = idle_task (core A) \/ current (core A) ∈ plist A;
  no_slice : current (core A) ∈ plist A -> 1 <= time_slice (pc A (current (core A))) <= 100;
}.

(** The ticks left to the running process. *)
Definition slice (A : abs) : Z :=
  if decide (current (core A) ∈ plist A) then time_slice (pc A (current (core A))) else 0.

Definition measure (l : list Z) (A : abs) : Z := 101 * zlen l + slice A.

Lemma slice_bounds (A : abs) : normal A -> 0 <= slice A <= 100.
Proof. intros [_ _ Hs]. unfold slice. destruct (decide _) as [Hin|]; [specialize (Hs Hin)|]; lia. Qed.

(** The first process of the queues is the first of queue 0. *)
Lemma first_of_waits (qs : list (list Z)) (x d : Z) (l : list Z) :
  length qs = 10%nat -> ready qs (Rt 0) = [] -> ready qs (Rt 1) = [] -> waits x l qs ->
  first_of d (concat qs) = first_of x l.
Proof.
  intros Hl H0 H1 [r Hr]. destruct qs as [|q0 [|q1 [|q2 qs] ] ]; try (simpl in Hl; lia).
  change (q0 = []) in H0. change (q1 = []) in H1. change (q2 = l ++ x :: r) in Hr. subst. by destruct l.
Qed.

(** ** [schedule] *)

Lemma queues_length (A : abs) (st : sched) : rep A st -> length (queues A) = 10%nat.
Proof. intros Hr. by eapply qd_len, rp_queued. Qed.

Lemma runs_listed (A : abs) (st : sched) :
  rep A st -> runs (core A) = true -> current (core A) ∈ plist A.
Proof.
  intros Hr [ [Hn%negb_true_iff%Z.eqb_neq Hst%bool_decide_eq_true]%andb_true_iff Hi%negb_true_iff%Z.eqb_neq]%andb_true_iff.
  destruct (co_current _ _ _ (rp_consistent A st Hr)) as [E|(p & Hp & H)].
  - by rewrite (rep_core current A st) in E.
  - rewrite (rep_core current A st), (rep_core idle_task A st) in H by done.
    rewrite (rep_core current A st) in Hp by done.
    destruct H as [?|?]; [|done|done]. by rewrite (rep_field state A st (current (core A)) p).
Qed.

(** The queues that [schedule] chooses from. *)
Lemma requeued_waits (A : abs) (st : sched) (x : Z) (l : list Z) :
  rep A st -> all_normal A -> waits x l (queues A) ->
  waits x l (requeued (core A) (queues A)) /\ length (requeued (core A) (queues A)) = 10%nat /\
  ready (requeued (core A) (queues A)) (Rt 0) = [] /\ ready (requeued (core A) (queues A)) (Rt 1) = [].
Proof.
  intros Hr Hn Hw. pose proof (queues_length A st Hr) as Hl.
  assert (forall i, valid_ref (Rt i) -> ready (queues A) (Rt i) = []) as Hrt.
  { intros i Hv. destruct (ready (queues A) (Rt i)) as [|a k] eqn:E; [done|exfalso].
    assert (a ∈ ready (queues A) (Rt i)) as Hin by (rewrite E; left).
    destruct (co_queued _ _ _ (rp_consistent A st Hr) _ a Hv Hin) as (Ha & p & Hp & _ & Hh).
    rewrite (rep_field home A st a p), home_normal in Hh; try done; [by eapply rep_listed_core|by apply Hn]. }
  assert (valid_ref (Rt 0) /\ valid_ref (Rt 1)) as [H0 H1] by (simpl; unfold SCHED_RT_QUEUE_COUNT; lia).
  unfold requeued. destruct (runs (core A)) eqn:Er; [|by auto].
  pose proof (runs_listed A st Hr Er) as Hin. destruct (rep_listed_core A st _ Hr Hin) as [_ Hwf].
  assert (home (procs (core A) !!! current (core A)) = Mlfq (queue_level (pc A (current (core A))))) as Hh.
  { apply home_normal; [done|by apply Hn]. }
  pose proof (home_valid _ Hwf) as Hv. unfold pc in Hv. rewrite Hh in Hv. rewrite Hh.
  split_and!; [by apply waits_enq|by rewrite length_enq|..]; unfold enq; rewrite ready_set_ne by done; auto.
Qed.

Lemma requeued_rep (A : abs) (st : sched) :
  rep A st -> exists s', queued s' (requeued (core A) (queues A)) /\
    consistent s' (requeued (core A) (queues A)) (plist A).
Proof.
  intros Hr. pose proof Hr as [Hq Hc Hs]. pose proof (preempt_spec st _ _ Hq Hc) as (x & s' & _ & Hq' & Hc' & _)%wp_run.
  rewrite (requeued_strip (core A) st) in Hq', Hc' by done. eauto.
Qed.

Lemma pc_schedule_field {B} (g : pcb -> B) (A : abs) (a : Z) :
  (forall p, g (dispatch p) = g p) -> (forall p, g (set_state PROCESS_READY p) = g p) ->
  g (pc (a_schedule A) a) = g (pc A a).
Proof.
  intros Hd Hs. change (pc (a_schedule A) a) with
    (pc (on_core (alter_proc (next_of (core A) (queues A)) dispatch) (on_core preempted A)) a).
  rewrite pc_alter_field by done. unfold preempted. unfold on_core at 1. simpl. unfold pc. simpl.
  destruct (runs (core A)); [|done].
  change (g (pc (on_core (alter_proc (current (core A)) (set_state PROCESS_READY)) A) a) = g (pc A a)).
  by apply pc_alter_field.
Qed.

Lemma pc_dispatched (A : abs) (st : sched) :
  rep A st -> next_of (core A) (queues A) ∈ plist A ->
  time_slice (pc (a_schedule A) (next_of (core A) (queues A))) =
    calculate_timeslice (effective_priority (pc A (next_of (core A) (queues A)))).
Proof.
  intros Hr Hin. set (nxt := next_of (core A) (queues A)) in *.
  destruct (rep_listed_core A st nxt Hr Hin) as [Ha _].
  assert (is_Some (procs (preempted (core A)) !! nxt)) as Ha'.
  { unfold preempted. destruct (runs (core A)); [|done]. simpl. by apply lookup_alter_is_Some. }
  rewrite <-(pc_schedule_field effective_priority A nxt) by done.
  change (pc (a_schedule A) nxt) with (pc (on_core (alter_proc nxt dispatch) (on_core preempted A)) nxt).
  rewrite pc_alter by done. by rewrite decide_True.
Qed.

Lemma schedule_normal (A : abs) (st : sched) : rep A st -> all_normal A -> normal (a_schedule A).
Proof.
  intros Hr Hn. constructor.
  - intros a Ha. rewrite pc_schedule_field by done. by apply Hn.
  - right. destruct (requeued_rep A st Hr) as (s' & Hq & Hc).
    change (next_of (core A) (queues A) = idle_task (core (a_schedule A)) \/ next_of (core A) (queues A) ∈ plist A).
    replace (idle_task (core (a_schedule A))) with (idle_task (core A))
      by (simpl; unfold preempted; by destruct (runs (core A))).
    destruct (first_of_concat (requeued (core A) (queues A)) (idle_task (core A))) as [ [_ E]|Hin]; [by left|right].
    apply elem_of_queues in Hin as (q & Hv & Hin); [|apply Hq]. by destruct (co_queued _ _ _ Hc q _ Hv Hin).
  - intros Hin. change (current (core (a_schedule A))) with (next_of (core A) (queues A)) in *.
    rewrite (pc_dispatched A st) by done. destruct (rep_listed_core A st _ Hr Hin) as [_ [_ _ _ He] ].
    pose proof (calculate_timeslice_bounds _ He). lia.
Qed.

(** [schedule] runs [x] or a process before it. *)
Lemma schedule_waits (A : abs) (st : sched) (x : Z) (l : list Z) :
  rep A st -> all_normal A -> waits x l (queues A) ->
  current (core (a_schedule A)) = first_of x l /\ (l <> [] -> waits x (tail l) (queues (a_schedule A))).
Proof.
  intros Hr Hn Hw. destruct (requeued_waits A st x l Hr Hn Hw) as ([r Hw'] & Hl & H0 & H1).
  assert (next_of (core A) (queues A) = first_of x l) as Hnext by (apply first_of_waits; eauto; by exists r).
  split; [done|]. intros Hne. destruct l as [|y l]; [done|]. simpl.
  change (waits x l (deq (next_of (core A) (queues A)) (requeued (core A) (queues A)))). rewrite Hnext.
  change (first_of x (y :: l)) with y. destruct (requeued_rep A st Hr) as (s' & Hq & _).
  exists r. rewrite ready_deq, Hw' by (done || apply valid_mlfq0). apply (filter_middle y [] (l ++ x :: r)).
  change ([] ++ y :: l ++ x :: r) with ((y :: l) ++ x :: r). rewrite <-Hw'.
  apply NoDup_ready; [done|apply Hq|apply valid_mlfq0].
Qed.

Lemma schedule_measure (A : abs) (st : sched) (x : Z) (l : list Z) :
  rep A st -> all_normal A -> waits x l (queues A) ->
  current (core (a_schedule A)) = x \/
  exists l', waits x l' (queues (a_schedule A)) /\ measure l' (a_schedule A) + 1 <= 101 * zlen l.
Proof.
  intros Hr Hn Hw. destruct (schedule_waits A st x l Hr Hn Hw) as [Hc Hw'].
  destruct l as [|y l]; [by left|right]. exists l. split; [by apply Hw'|].
  pose proof (slice_bounds _ (schedule_normal A st Hr Hn)). unfold measure. rewrite zlen_cons. lia.
Qed.

(** ** Steps between two calls of [schedule] *)

(** A process of the list that waits for the processor. *)
Definition pending (x : Z) (A : abs) : Prop := x ∈ plist A /\ state (pc A x) = PROCESS_READY.

(** No process gets before [x] in the first queue, [x] stays ready and all stay normal. *)
Record gentle (x : Z) (A A' : abs) : Prop := {
  ge_waits : forall l, waits x l (queues A) -> exists l', zlen l' <= zlen l /\ waits x l' (queues A');
  ge_normal : all_normal A -> all_normal A';
  ge_pending : pending x A -> pending x A';
}.

(** Besides, the same process runs and has as much of its time slice left. *)
Record mild (x : Z) (A A' : abs) : Prop := {
  mi_gentle : gentle x A A';
  mi_current : current (core A') = current (core A);
  mi_idle : idle_task (core A') = idle_task (core A);
  mi_listed : current (core A) ∈ plist A' <-> current (core A) ∈ plist A;
  mi_slice : time_slice (pc A' (current (core A))) = time_slice (pc A (current (core A)));
}.

#[export] Instance gentle_preorder (x : Z) : PreOrder (gentle x).
Proof.
  split.
  - intros A. split; [|done|done]. intros l Hl. exists l. split; [lia|done].
  - intros A B C [H1 H2 H5] [H3 H4 H6]. split; [|auto|auto]. intros l Hl. destruct (H1 l Hl) as (l1 & Hle & Hl1).
    destruct (H3 l1 Hl1) as (l2 & Hle2 & Hl2). exists l2. split; [lia|done].
Qed.

#[export] Instance mild_preorder (x : Z) : PreOrder (mild x).
Proof.
  split.
  - intros A. by split.
  - intros A B C [H1 H2 H3 H4 H5] [H6 H7 H8 H9 H10]. rewrite H2 in *.
    split; [by etrans|congruence|congruence|by rewrite H9|congruence].
Qed.

Lemma mild_slice (x : Z) (A A' : abs) : mild x A A' -> slice A' = slice A.
Proof.
  intros [_ Hc _ Hl Hs]. unfold slice. rewrite Hc, Hs. by destruct (decide _), (decide _); naive_solver.
Qed.

Lemma mild_normal (x : Z) (A A' : abs) : mild x A A' -> normal A -> normal A'.
Proof.
  intros [ [_ Hn _] Hc Hi Hl Hs] [N1 N2 N3]. constructor; rewrite ?Hc, ?Hi, ?Hl, ?Hs; auto.
Qed.

Lemma mild_measure (x : Z) (l : list Z) (A A' : abs) :
  mild x A A' -> waits x l (queues A) ->
  exists l', waits x l' (queues A') /\ measure l' A' <= measure l A.
Proof.
  intros Hm Hw. destruct (ge_waits _ _ _ (mi_gentle _ _ _ Hm) l Hw) as (l' & Hle & Hw').
  exists l'. split; [done|]. unfold measure. rewrite (mild_slice x A A' Hm). lia.
Qed.

(** A change of one control block and of the queues. *)
Lemma gentle_alter (x a : Z) (A : abs) (f : pcb -> pcb) (qs : list (list Z)) :
  (forall p, has (sched_policy p) PROCESS_NORMAL = true -> has (sched_policy (f p)) PROCESS_NORMAL = true) ->
  (forall p, state (f p) = state p) \/ (pending x A -> a <> x) ->
  (forall l, waits x l (queues A) -> exists l', zlen l' <= zlen l /\ waits x l' qs) ->
  gentle x A (mk_abs (alter_proc a f (core A)) qs (plist A)).
Proof.
  intros Hp Hst Hw. split; [done| |].
  - intros Hn b Hb. specialize (Hn b Hb).
    change (has (sched_policy (pc (on_core (alter_proc a f) A) b)) PROCESS_NORMAL = true).
    unfold pc in *. simpl. rewrite lookup_total_alt in *. destruct (decide (b = a)) as [->|].
    + rewrite lookup_alter_eq. destruct (procs (core A) !! a); [by apply Hp|done].
    + by rewrite lookup_alter_ne.
  - intros Hpx. split; [apply Hpx|]. rewrite <-(proj2 Hpx). apply state_alter.
    destruct Hst as [?|Hst]; [by left|right]. by apply Hst.
Qed.

Lemma mild_alter (x a : Z) (A : abs) (f : pcb -> pcb) (qs : list (list Z)) :
  (forall p, has (sched_policy p) PROCESS_NORMAL = true -> has (sched_policy (f p)) PROCESS_NORMAL = true) ->
  (forall p, state (f p) = state p) \/ (pending x A -> a <> x) ->
  (forall p, time_slice (f p) = time_slice p) ->
  (forall l, waits x l (queues A) -> exists l', zlen l' <= zlen l /\ waits x l' qs) ->
  mild x A (mk_abs (alter_proc a f (core A)) qs (plist A)).
Proof.
  intros Hp Hst Ht Hw. split; [by apply gentle_alter|done|done|done|].
  change (time_slice (pc (on_core (alter_proc a f) A) (current (core A))) = time_slice (pc A (current (core A)))).
  by apply pc_alter_field.
Qed.

(** The ways the queues change. *)
Lemma keep_same (x : Z) (qs : list (list Z)) (l : list Z) :
  waits x l qs -> exists l', zlen l' <= zlen l /\ waits x l' qs.
Proof. intros Hw. exists l. split; [lia|done]. Qed.

Lemma keep_enq (x a : Z) (q : qref) (qs : list (list Z)) (l : list Z) :
  length qs = 10%nat -> valid_ref q -> waits x l qs -> exists l', zlen l' <= zlen l /\ waits x l' (enq q a qs).
Proof. intros Hl Hq Hw. exists l. split; [lia|by apply waits_enq]. Qed.

Lemma keep_deq (x a : Z) (qs : list (list Z)) (l : list Z) :
  length qs = 10%nat -> a <> x -> waits x l qs -> exists l', zlen l' <= zlen l /\ waits x l' (deq a qs).
Proof.
  intros Hl Hn Hw. exists (filter (fun b => b <> a) l). split; [apply zlen_filter|by apply waits_deq].
Qed.

Lemma keep_move (x a : Z) (q : qref) (qs : list (list Z)) (l : list Z) :
  length qs = 10%nat -> valid_ref q -> a <> x -> waits x l qs ->
  exists l', zlen l' <= zlen l /\ waits x l' (enq q a (deq a qs)).
Proof.
  intros Hl Hq Hn Hw. exists (filter (fun b => b <> a) l). split; [apply zlen_filter|].
  apply waits_enq; [by rewrite length_deq|done|by apply waits_deq].
Qed.

Lemma mild_reclass (x a : Z) (A : abs) (st : sched) (f : pcb -> pcb) :
  rep A st -> a ∈ plist A -> (forall p, wf_pcb p -> wf_pcb (f p)) ->
  (forall p, has (sched_policy p) PROCESS_NORMAL = true -> has (sched_policy (f p)) PROCESS_NORMAL = true) ->
  (forall p, state (f p) = state p) -> (forall p, time_slice (f p) = time_slice p) ->
  (a = x -> forall l, waits x l (queues A) -> state (pc A a) <> PROCESS_READY) ->
  mild x A (a_reclass f a A).
Proof.
  intros Hr Ha Hwf Hp Hst Ht Hx. destruct (rep_listed_core A st a Hr Ha) as [_ Hw].
  apply mild_alter; [done|by left|done|]. intros l Hl. destruct (decide _) as [E|E]; [|by apply keep_same].
  apply keep_move; [by eapply queues_length|by apply home_valid, Hwf| |done]. intros ->. by eapply Hx.
Qed.

Lemma mild_wake (x b : Z) (A : abs) (st : sched) : rep A st -> b ∈ plist A -> mild x A (a_wake A b).
Proof.
  intros Hr Hb. unfold a_wake. destruct (due A b) eqn:E; [|done]. destruct (rep_listed_core A st b Hr Hb) as [_ Hw].
  apply andb_true_iff in E as [ [E%bool_decide_eq_true _]%andb_true_iff _].
  apply mild_alter; [done|right; intros [_ Hx] ->; congruence|done|]. intros l Hl. apply keep_enq; [by eapply queues_length| |done].
  apply home_valid. by eapply wf_pcb_same.
Qed.

Lemma waits_ready (x : Z) (l : list Z) (A : abs) (st : sched) :
  rep A st -> waits x l (queues A) -> x ∈ plist A /\ state (pc A x) = PROCESS_READY /\ home (pc A x) = Mlfq 0.
Proof.
  intros Hr [r Hw]. assert (x ∈ ready (queues A) (Mlfq 0)) as Hin by (rewrite Hw; set_solver).
  destruct (co_queued _ _ _ (rp_consistent A st Hr) _ x valid_mlfq0 Hin) as (Ha & p & Hp & Hst & Hh).
  by rewrite (rep_field state A st x p) in Hst; [rewrite (rep_field home A st x p) in Hh|..].
Qed.

Lemma mild_boost (x b : Z) (A : abs) (st : sched) : rep A st -> b ∈ plist A -> mild x A (a_boost A b).
Proof.
  intros Hr Hb. unfold a_boost. destruct (has _ _ && _) eqn:E; [|done].
  apply andb_true_iff in E as [Hn Hl%negb_true_iff%Z.eqb_neq].
  eapply mild_reclass; try done.
  - intros p. apply wf_set_level. unfold SCHED_QUEUE_COUNT. lia.
  - intros -> l Hw _. destruct (waits_ready x l A st Hr Hw) as (Ha & _ & Hh).
    destruct (rep_listed_core A st x Hr Ha) as [_ Hwf]. rewrite home_normal in Hh by done. congruence.
Qed.

(** A loop over the processes. *)
Lemma mild_foldl (x : Z) (body : Z -> FM sched unit) (F : abs -> Z -> abs) (A : abs) (st : sched) (l : list Z) :
  (forall A b, plist (F A b) = plist A) ->
  (forall A st b, rep A st -> b ∈ plist A -> wp (body b) (fun _ st' => rep (F A b) st') st) ->
  (forall A st b, rep A st -> b ∈ plist A -> mild x A (F A b)) ->
  rep A st -> (forall b, b ∈ l -> b ∈ plist A) -> mild x A (foldl F A l) /\ exists st', rep (foldl F A l) st'.
Proof.
  intros Hpl Hb Hm. revert A st. induction l as [|b l IH]; intros A st Hr Hin; [split; [done|eauto]|]. simpl.
  assert (b ∈ plist A) as Hbl by (apply Hin; left).
  pose proof (Hb A st b Hr Hbl) as (y & st1 & _ & Hr1)%wp_run.
  destruct (IH (F A b) st1 Hr1) as [Hm1 Hex].
  - intros c Hc. rewrite Hpl. apply Hin. by right.
  - split; [|done]. etrans; [by eapply Hm|done].
Qed.

Lemma mild_timers (x : Z) (A : abs) (st : sched) : rep A st -> mild x A (a_timers A).
Proof.
  intros Hr. unfold a_timers. set (tick := fun s => set_tick_count _ s). set (A1 := on_core tick A).
  assert (rep A1 (tick st)) as Hr1 by (by apply (abs_frame A st tick)).
  destruct (mild_foldl x wake_one a_wake A1 (tick st) (plist A1)) as [H2 [s2 Hr2] ];
    eauto using a_wake_plist, rep_wake_one, mild_wake.
  set (A2 := foldl a_wake A1 (plist A1)) in *. set (A3 := if _ =? 0 then _ else A2).
  assert (mild x A2 A3) as H3.
  { unfold A3. destruct (_ =? 0); [|done].
    eapply (mild_foldl x boost_one a_boost A2 s2); eauto using a_boost_plist, rep_boost_one, mild_boost. }
  assert (mild x A A1) as H1.
  { split; [|done..]. split; [|done|done]. intros l. apply keep_same. }
  assert (mild x A A3) as H by (do 2 etrans; done).
  etrans; [exact H|]. destruct (_ && _); [|done]. split; [|done..]. split; [|done|done]. intros l. apply keep_same.
Qed.

(** ** One operation *)

(** What the other processes may do: anything but to [x], with normal policies. *)
Definition fair (x : Z) (op : sched_op) (A : abs) : Prop :=
  match op with
  | OpBlock a _ | OpSetPriority a _ | OpRemove a => a <> x
  | OpSetPolicy a policy => a <> x /\ has policy PROCESS_NORMAL = true
  | OpAdd a => has (sched_policy (pc A a)) PROCESS_NORMAL = true
  | OpSetCurrent _ => False
  | _ => True
  end.

Definition ticks_of (op : sched_op) : Z := match op with OpTick => 1 | _ => 0 end.

(** The progress of [x] from [A] to [A'] in [n] ticks: it runs, or it is still ready and
    its measure has gone down by [n]. *)
Definition progress (x n : Z) (A A' : abs) : Prop :=
  normal A' /\ (current (core A') = x \/
    (pending x A' /\ forall l, waits x l (queues A) ->
       exists l', waits x l' (queues A') /\ measure l' A' + n <= measure l A)).

Lemma progress_mild (x : Z) (A A' : abs) :
  normal A -> pending x A -> mild x A A' -> progress x 0 A A'.
Proof.
  intros Hn Hp Hm. split; [by eapply mild_normal|right]. split; [by apply (mi_gentle _ _ _ Hm)|].
  intros l Hw. destruct (mild_measure x l A A' Hm Hw) as (l' & Hw' & Hle). exists l'. split; [done|lia].
Qed.

Lemma progress_trans (x n : Z) (A B C : abs) :
  mild x A B -> progress x n B C -> progress x n A C.
Proof.
  intros Hm [Hn HC]. split; [done|]. destruct HC as [?|[Hp HC] ]; [by left|right]. split; [done|].
  intros l Hw. destruct (mild_measure x l A B Hm Hw) as (l1 & Hw1 & Hle1).
  destruct (HC l1 Hw1) as (l2 & Hw2 & Hle2). exists l2. split; [done|lia].
Qed.

Lemma schedule_pending (x : Z) (A : abs) :
  pending x A -> current (core (a_schedule A)) = x \/ pending x (a_schedule A).
Proof.
  intros [Hl Hst]. change (current (core (a_schedule A))) with (next_of (core A) (queues A)).
  destruct (decide (next_of (core A) (queues A) = x)) as [|Hn]; [by left|right]. split; [done|].
  rewrite <-Hst. unfold pc. simpl. rewrite state_alter by (by right). unfold preempted.
  destruct (runs (core A)) eqn:E; [|done]. simpl. apply state_alter. right. intros <-.
  apply andb_true_iff in E as [ [_ E%bool_decide_eq_true]%andb_true_iff _]. unfold pc in Hst. congruence.
Qed.

Lemma progress_schedule (x n : Z) (A A1 : abs) (st1 : sched) :
  n <= 1 -> normal A -> pending x A -> gentle x A A1 -> rep A1 st1 -> progress x n A (a_schedule A1).
Proof.
  intros Hle Hn Hp [Hg1 Hg2 Hg3] Hr1.
  pose proof (Hg2 (no_policy _ Hn)) as Hn1. split; [by eapply schedule_normal|].
  destruct (decide (current (core (a_schedule A1)) = x)) as [|Hne]; [by left|right].
  destruct (schedule_pending x A1 (Hg3 Hp)) as [?|Hp']; [done|]. split; [done|].
  intros l Hw. destruct (Hg1 l Hw) as (l1 & Hl1 & Hw1).
  destruct (schedule_measure A1 st1 x l1 Hr1 Hn1 Hw1) as [?|(l' & Hw' & Hm)]; [done|].
  exists l'. split; [done|]. pose proof (slice_bounds A Hn). unfold measure in *. lia.
Qed.

(** The part of a tick after the timers. *)
Definition a_rest (A : abs) : abs :=
  if current (core A) =? NULL then a_schedule A else a_tick_current (current (core A)) A.

Lemma rest_progress (x : Z) (A : abs) (st : sched) :
  rep A st -> settled A -> normal A -> pending x A -> progress x 1 A (a_rest A).
Proof.
  intros Hr Hs Hn Hpx. unfold a_rest. destruct (Z.eqb_spec (current (core A)) NULL) as [|Hnn].
  { by eapply progress_schedule. }
  pose proof (rep_current A st Hr Hnn) as Ha. unfold a_tick_current.
  set (cur := current (core A)) in *. set (f := fun p => set_time_slice _ _). set (B := on_core (alter_proc cur f) A).
  assert (rep B (alter_proc cur f st)) as HrB.
  { apply rep_alter; try done; [|by left]. intros _ p Hp. by eapply wf_pcb_same. }
  assert (gentle x A B) as Hg by (apply gentle_alter; [done|by left|]; intros k; apply keep_same).
  destruct (Z.eqb_spec cur (idle_task (core B))) as [|Hni]; [by eapply progress_schedule|].
  assert (cur ∈ plist A) as Hin.
  { destruct (no_current A Hn) as [?|[?|?] ]; [done|exfalso; by apply Hni|done]. }
  assert (has (sched_policy (pc B cur)) PROCESS_NORMAL = true) as ->.
  { unfold B. rewrite pc_alter_field by done. by apply (no_policy A Hn). }
  pose proof (no_slice A Hn Hin) as Hsl. fold cur in Hsl.
  assert (time_slice (pc B cur) = time_slice (pc A cur) - 1) as Hts.
  { unfold B. rewrite pc_alter, decide_True by done. unfold f. simpl. apply u32_small. unfold is_u32. lia. }
  rewrite Hts. destruct (Z.leb_spec (time_slice (pc A cur) - 1) 0) as [Hz|Hz].
  - destruct (Z.ltb_spec (queue_level (pc B cur)) (SCHED_QUEUE_COUNT - 1)); [|by eapply progress_schedule].
    pose proof (rep_current B _ HrB Hnn) as Ha1.
    eapply (progress_schedule _ _ _ _ (alter_proc cur (set_queue_level (queue_level (pc B cur) + 1)) _));
      [lia|done|done| |].
    + etrans; [exact Hg|]. apply gentle_alter; [done|by left|]. intros k. apply keep_same.
    + apply rep_alter; [exact HrB|done|by constructor| | |by left].
      * intros Hin1 q. apply wf_set_level. destruct (rep_listed_core B _ cur HrB Hin1) as [_ [_ Hlv _ _] ]. lia.
      * intros Hin1 E. unfold B in E. rewrite pc_alter_field in E by done. pose proof (Hs Hin1) as E2.
        fold cur in E2. congruence.
  - split.
    + constructor; [apply (ge_normal _ _ _ Hg), Hn|right; by right|].
      intros _. change (current (core B)) with cur. rewrite Hts. lia.
    + right. split; [by apply Hg|]. intros l Hw. exists l. split; [done|].
      unfold measure, slice. change (current (core B)) with cur. change (plist B) with (plist A).
      fold cur. rewrite !decide_True by done. rewrite Hts. lia.
Qed.

Lemma tick_progress (x : Z) (A : abs) (st : sched) :
  rep A st -> unlocked (core A) -> settled A -> normal A -> pending x A -> progress x 1 A (a_tick A).
Proof.
  intros Hr [Hl _] Hs Hn Hp. destruct (timers_rep A st Hr Hl) as [s1 Hr1].
  pose proof (mild_timers x A st Hr) as Hm. eapply progress_trans; [exact Hm|].
  eapply (rest_progress x (a_timers A)); [done|by apply settled_timers|by eapply mild_normal|by apply (mi_gentle _ _ _ Hm)].
Qed.

Lemma block_progress (x : Z) (A : abs) (st : sched) (a reason : Z) :
  rep A st -> normal A -> pending x A -> a ∈ plist A -> a <> x -> progress x 0 A (a_block a reason A).
Proof.
  intros Hr Hn Hp Ha Hx. pose proof (queues_length A st Hr) as Hlen. unfold a_block.
  destruct (state (pc A a)) eqn:E; try (by apply progress_mild).
  - apply progress_mild; [done|done|]. apply mild_alter; [done|by right|done|]. intros k. by apply keep_deq.
  - destruct (rep_listed_core A st a Hr Ha) as [Hal _].
    eapply (progress_schedule _ _ _ _ (alter_proc a (block reason) st)); [lia|done|done| |].
    + apply gentle_alter; [done|by right|]. intros k. apply keep_same.
    + apply rep_alter; try done; [|right; split; [done|]; by left]. intros _ p Hpp. by eapply wf_pcb_same.
Qed.

Lemma procs_alter_field {B} (g : pcb -> B) (s : sched) (a b : Z) (f : pcb -> pcb) :
  (forall p, g (f p) = g p) -> g (procs (alter_proc a f s) !!! b) = g (procs s !!! b).
Proof. intros Hg. by apply (pc_alter_field g (mk_abs s [] []) b a f). Qed.

Lemma add_mild (x : Z) (A : abs) (st : sched) (a : Z) :
  rep A st -> pending x A -> allowed (OpAdd a) A -> fair x (OpAdd a) A -> mild x A (a_add a A).
Proof.
  intros Hr Hx (Ha & Hna & Hai & Hac & Hwf) Hf. pose proof (queues_length A st Hr) as Hlen.
  assert (forall (g : pcb -> Z) b, (forall now p, g (enter now p) = g p) -> (forall f p, g (link_first f p) = g p) ->
    (forall v p, g (set_prev v p) = g p) -> g (pc (a_add a A) b) = g (pc A b)) as Hg.
  { intros g b H1 H2 H3. unfold a_add, push, pc, core at 1. change (procs (set_process_list a ?s)) with (procs s).
    destruct (_ =? _); by rewrite !procs_alter_field. }
  split.
  - split; [intros k; apply keep_enq; [done|by apply home_valid]| |].
    + intros Hnn b [->|Hb]%elem_of_cons; rewrite (Hg sched_policy) by done; auto.
    + intros [Hl Hst]. split; [by right|]. rewrite <-Hst. unfold a_add, push, pc, core at 1.
      change (procs (set_process_list a ?s)) with (procs s).
      destruct (_ =? _); simpl; rewrite !state_alter; auto; right; by intros ->.
  - unfold a_add, push. simpl. by destruct (_ =? _).
  - unfold a_add, push. simpl. by destruct (_ =? _).
  - simpl. rewrite elem_of_cons. naive_solver.
  - by apply (Hg time_slice).
Qed.

Lemma remove_field {B} (g : pcb -> B) (A : abs) (a b : Z) :
  (forall v p, g (set_prev v p) = g p) -> (forall v p, g (set_next v p) = g p) ->
  g (pc (a_remove a A) b) = g (pc A b).
Proof.
  intros H1 H2. unfold a_remove, pull, pc, core at 1. rewrite (set_first_var procs) by done. unfold bypass, alter_opt.
  repeat destruct (_ =? _); by rewrite ?(procs_alter_field g).
Qed.

Lemma remove_gentle (x : Z) (A : abs) (st : sched) (a : Z) :
  rep A st -> a <> x -> gentle x A (a_remove a A).
Proof.
  intros Hr Hx. split; [intros l; apply keep_deq; [by eapply queues_length|done]| |].
  - intros Hn b [_ Hb]%list_elem_of_filter. rewrite (remove_field sched_policy) by done. by apply Hn.
  - intros [Hl Hst]. split; [apply list_elem_of_filter; auto|]. by rewrite (remove_field state).
Qed.

Lemma remove_mild (x : Z) (A : abs) (st : sched) (a : Z) :
  rep A st -> a <> x -> a <> current (core A) -> mild x A (a_remove a A).
Proof.
  intros Hr Hx Hc. split; [by eapply remove_gentle|by apply (pull_var current)|by apply (pull_var idle_task)| |].
  - simpl. rewrite list_elem_of_filter. naive_solver.
  - by rewrite (remove_field time_slice).
Qed.

Lemma exit_progress (x : Z) (A : abs) (st : sched) :
  rep A st -> unlocked (core A) -> settled A -> normal A -> pending x A ->
  current (core A) ∈ plist A -> current (core A) <> x -> progress x 0 A (a_exit A).
Proof.
  intros Hr Hu Hs Hn Hp Ha Hx. unfold a_exit. set (cur := current (core A)) in *.
  destruct (rep_listed_core A st _ Hr Ha) as [Hal _]. set (f := set_state PROCESS_ZOMBIE).
  assert (rep (on_core (alter_proc cur f) A) (alter_proc cur f st)) as Hr1.
  { apply rep_alter; [done|done|by constructor| | |].
    - intros _ p Hpp. by eapply wf_pcb_same.
    - intros _ E. pose proof (Hs Ha) as E2. fold cur in E2. congruence.
    - right. split; [exact (Hs Ha)|]. by right. }
  pose proof (rep_remove (on_core (alter_proc cur f) A) _ cur Hr1 Hu Ha) as (y & s2 & _ & Hr2)%wp_run.
  2: { rewrite pc_alter by done. by rewrite decide_True. }
  eapply progress_schedule; [lia|done|done| |exact Hr2].
  etrans; [|by eapply remove_gentle]. apply gentle_alter; [done|by right|]. intros k. apply keep_same.
Qed.

Lemma yield_progress (x : Z) (A : abs) (st : sched) :
  rep A st -> settled A -> normal A -> pending x A -> progress x 0 A (a_yield A).
Proof.
  intros Hr Hs Hn Hp. unfold a_yield.
  destruct (Z.eqb_spec (current (core A)) NULL) as [|Hnn]; [by apply progress_mild|].
  destruct (has _ _ && _ && _) eqn:E; [|by eapply progress_schedule].
  apply andb_true_iff in E as [ [_ Hlv%Z.ltb_lt]%andb_true_iff _].
  eapply (progress_schedule _ _ _ _ (alter_proc (current (core A)) _ st)); [lia|done|done| |].
  - apply gentle_alter; [done|by left|]. intros k. apply keep_same.
  - apply rep_alter; [done|by eapply rep_current|by constructor| | |by left].
    + intros Hin q. apply wf_set_level. destruct (rep_listed_core A st _ Hr Hin) as [_ [_ Hl _ _] ]. lia.
    + intros Hin E. by rewrite (Hs Hin) in E.
Qed.

Lemma sleep_progress (x : Z) (A : abs) (st : sched) (ms : Z) :
  rep A st -> normal A -> pending x A -> current (core A) ∈ plist A -> current (core A) <> x ->
  progress x 0 A (a_sleep ms A).
Proof.
  intros Hr Hn Hp Ha Hx. unfold a_sleep. rewrite (plist_nonnull A st) by done. set (f := set_wake_time _).
  destruct (rep_listed_core A st _ Hr Ha) as [Hla _].
  assert (mild x A (on_core (alter_proc (current (core A)) f) A)) as Hm.
  { apply mild_alter; [done|by left|done|]. intros k. apply keep_same. }
  eapply progress_trans; [exact Hm|].
  eapply (block_progress _ _ (alter_proc (current (core A)) f st)); [|by eapply mild_normal|by apply Hm|done|done].
  apply rep_alter; try done; [|by left]. intros _ p Hpp. by eapply wf_pcb_same.
Qed.

Lemma op_progress (x : Z) (A : abs) (st : sched) (op : sched_op) :
  inv A st -> normal A -> allowed op A -> fair x op A -> pending x A ->
  progress x (ticks_of op) A (a_run op A).
Proof.
  intros [Hr Hu Hs] Hn Hal Hf Hp.
  assert (current (core A) ∈ plist A -> current (core A) <> x) as Hcx.
  { intros Hin E. specialize (Hs Hin). destruct Hp as [_ Hp]. congruence. }
  destruct op; simpl in *.
  - by eapply tick_progress.
  - by eapply progress_schedule.
  - by eapply yield_progress.
  - eapply sleep_progress; eauto.
  - eapply block_progress; eauto.
  - eapply block_progress; eauto.
  - apply progress_mild; [done|done|]. unfold a_unblock. destruct (decide _) as [E|]; [|done].
    destruct (rep_listed_core A st a Hr Hal) as [_ Hwf].
    apply mild_alter; [done|right; intros [_ Hx] ->; congruence|done|]. intros k.
    apply keep_enq; [by eapply queues_length|]. apply home_valid. by eapply wf_pcb_same.
  - destruct Hal as [Ha Hpr]. apply progress_mild; [done|done|]. eapply mild_reclass; try done.
    intros q. by apply wf_with_priority.
  - destruct Hal as [Ha Hpl], Hf as [Hax Hpol]. apply progress_mild; [done|done|]. eapply mild_reclass; try done.
    intros q. by apply wf_with_policy.
  - apply progress_mild; [done|done|]. by eapply add_mild.
  - destruct Hal as [Ha Hst]. apply progress_mild; [done|done|]. eapply remove_mild; [done|done|].
    by apply settled_not_current.
  - done.
  - eapply exit_progress; eauto.
Qed.

(** ** Executions *)

Fixpoint exec (ops : list sched_op) : FM sched unit :=
  match ops with
  | [] => mret tt
  | op :: ops => run op ;; exec ops
  end.

(** The operations are allowed and fair to [x] where they happen, and there are never more
    than [n] processes. *)
Fixpoint admissible (x n : Z) (ops : list sched_op) (A : abs) : Prop :=
  zlen (plist A) <= n /\
  match ops with
  | [] => True
  | op :: ops => allowed op A /\ fair x op A /\ admissible x n ops (a_run op A)
  end.

Definition ticks (ops : list sched_op) : Z := zsum (ticks_of <$> ops).

(** [x] runs at some point of the execution. *)
Definition gets_to_run (x : Z) (ops : list sched_op) (st : sched) : Prop :=
  exists ops1 ops2 st1, ops = ops1 ++ ops2 /\ exec ops1 st = Some (tt, st1) /\ current st1 = x.

Lemma gets_to_run_step (x : Z) (op : sched_op) (ops : list sched_op) (st st' : sched) :
  run op st = Some (tt, st') -> gets_to_run x ops st' -> gets_to_run x (op :: ops) st.
Proof.
  intros Hrun (ops1 & ops2 & st1 & -> & Hex & Hc). exists (op :: ops1), ops2, st1.
  split_and!; [done| |done]. simpl. unfold mbind, FM_bind. by rewrite Hrun.
Qed.

Lemma gets_to_run_now (x : Z) (ops : list sched_op) (st : sched) : current st = x -> gets_to_run x ops st.
Proof. intros Hc. exists [], ops, st. by split_and!. Qed.

Lemma ticks_cons (op : sched_op) (ops : list sched_op) : ticks (op :: ops) = ticks_of op + ticks ops.
Proof. unfold ticks. by rewrite fmap_cons, zsum_cons. Qed.

Lemma first_queue_runs (x n : Z) (ops : list sched_op) (A : abs) (st : sched) (l : list Z) :
  inv A st -> normal A -> admissible x n ops A -> waits x l (queues A) -> measure l A < ticks ops ->
  gets_to_run x ops st.
Proof.
  revert A st l. induction ops as [|op ops IH]; intros A st l Hi Hn Ha Hw Hlt.
  - exfalso. pose proof (slice_bounds A Hn). pose proof (zlen_nonneg l). unfold measure in Hlt.
    change (ticks []) with 0 in Hlt. lia.
  - destruct Ha as (_ & Hal & Hf & Ha). rewrite ticks_cons in Hlt.
    pose proof (waits_ready x l A st (inv_rep _ _ Hi) Hw) as (Hx & Hrdy & _).
    destruct (run_refines A st op Hi Hal) as (st' & Hrun & Hi').
    apply (gets_to_run_step x op ops st st' Hrun).
    destruct (op_progress x A st op Hi Hn Hal Hf (conj Hx Hrdy)) as [Hn' [Hc|[Hp' Hm] ] ].
    + apply gets_to_run_now. by rewrite (rep_core current (a_run op A) st') by (done || apply Hi').
    + destruct (Hm l Hw) as (l' & Hw' & Hle). apply (IH (a_run op A) st' l'); try done. lia.
Qed.

(** ** The priority boost *)

Lemma a_boost_ne (A : abs) (b c : Z) : b <> c -> pc (a_boost A c) b = pc A b.
Proof.
  intros Hn. unfold a_boost. destruct (has _ _ && _); [|done].
  change (pc (on_core (alter_proc c (set_queue_level 0)) A) b = pc A b). by apply pc_alter_ne.
Qed.

Lemma a_boost_field {B} (g : pcb -> B) (A : abs) (b c : Z) :
  (forall v p, g (set_queue_level v p) = g p) -> g (pc (a_boost A c) b) = g (pc A b).
Proof.
  intros Hg. unfold a_boost. destruct (has _ _ && _); [|done].
  change (g (pc (on_core (alter_proc c (set_queue_level 0)) A) b) = g (pc A b)). by apply pc_alter_field.
Qed.

Lemma a_boost_level (A : abs) (b : Z) :
  has (sched_policy (pc A b)) PROCESS_NORMAL = true -> queue_level (pc (a_boost A b) b) = 0.
Proof.
  intros Hp. unfold a_boost. rewrite Hp. destruct (Z.eqb_spec (queue_level (pc A b)) 0) as [|Hn]; [done|]. simpl.
  unfold pc. simpl. rewrite lookup_total_alt, lookup_alter_eq. by destruct (procs (core A) !! b).
Qed.

Lemma boost_keeps_zero (l : list Z) (A : abs) (b : Z) :
  queue_level (pc A b) = 0 -> queue_level (pc (foldl a_boost A l) b) = 0.
Proof.
  revert A. induction l as [|c l IH]; intros A H0; [done|]. simpl. apply IH.
  destruct (decide (b = c)) as [->|]; [|by rewrite a_boost_ne].
  unfold a_boost. rewrite H0. simpl. by rewrite andb_false_r.
Qed.

Lemma boost_levels (l : list Z) (A : abs) (b : Z) :
  b ∈ l -> has (sched_policy (pc A b)) PROCESS_NORMAL = true -> queue_level (pc (foldl a_boost A l) b) = 0.
Proof.
  revert A. induction l as [|c l IH]; intros A Hb Hp; [set_solver|]. simpl.
  destruct (decide (b = c)) as [->|Hn].
  - by apply boost_keeps_zero, a_boost_level.
  - apply IH; [set_solver|]. by rewrite (a_boost_field sched_policy).
Qed.

Lemma timers_ticks (A : abs) : tick_count (core (a_timers A)) = u64 (tick_count (core A) + 1).
Proof.
  unfold a_timers. set (A1 := on_core _ A). set (A2 := foldl a_wake A1 (plist A1)).
  assert (tick_count (core A2) = u64 (tick_count (core A) + 1)) as E.
  { unfold A2. by rewrite (foldl_var tick_count) by (intros; by apply (a_wake_var tick_count)). }
  set (A3 := if _ =? 0 then _ else A2). assert (tick_count (core A3) = tick_count (core A2)) as E3.
  { unfold A3. destruct (_ =? 0); [|done].
    by rewrite (foldl_var tick_count) by (intros; by apply (a_boost_var tick_count)). }
  rewrite <-E, <-E3. by destruct (_ && _).
Qed.

(** The next boost comes with the [k]-th tick from now. *)
Definition boost_in (k : Z) (A : abs) : Prop :=
  1 <= k /\ u64 (tick_count (core A) + k) mod SCHED_BOOST_INTERVAL = 0.

Lemma boost_within (A : abs) : exists k, k <= SCHED_BOOST_INTERVAL /\ boost_in k A.
Proof.
  unfold boost_in, u64, SCHED_BOOST_INTERVAL. set (t := tick_count (core A)).
  pose proof (Z.mod_pos_bound t (2 ^ 64) ltac:(lia)) as Ht. set (u := t mod 2 ^ 64) in *.
  assert (forall k, (t + k) mod 2 ^ 64 = (u + k) mod 2 ^ 64) as E.
  { intros k. unfold u. by rewrite Zplus_mod_idemp_l. }
  destruct (Z.le_gt_cases (2 ^ 64) (u + (500 - u mod 500))) as [Hw|Hw].
  - exists (2 ^ 64 - u). rewrite E. replace (u + (2 ^ 64 - u)) with (2 ^ 64) by lia.
    split_and!; [dlia|lia|]. by rewrite Z_mod_same_full.
  - exists (500 - u mod 500). rewrite E. pose proof (Z.mod_pos_bound u 500 ltac:(lia)).
    split_and!; [lia|lia|]. rewrite (Z.mod_small (u + _)) by lia. clear -Ht. dlia.
Qed.

Lemma level0_waits (x : Z) (A : abs) (st : sched) :
  rep A st -> normal A -> pending x A -> queue_level (pc A x) = 0 ->
  exists l, waits x l (queues A) /\ zlen l + 1 <= zlen (plist A).
Proof.
  intros Hr Hn [Hx Hst] H0. destruct (rep_listed A st x Hr Hx) as (p & Hp & Hw).
  destruct (rep_listed_core A st x Hr Hx) as [_ Hwf].
  assert (home (pc A x) = Mlfq 0) as Hh by (rewrite home_normal, H0 by (done || by apply no_policy); done).
  assert (x ∈ ready (queues A) (Mlfq 0)) as Hin.
  { rewrite <-Hh, <-(rep_field home A st x p) by done. pose proof (rp_consistent A st Hr) as Hc.
    apply (consistent_home st _ (plist A)); [apply Hr|done|done|]. apply (co_ready _ _ _ Hc x p); [done|done|].
    by rewrite (rep_field state A st x p). }
  assert (NoDup (ready (queues A) (Mlfq 0))) as Hnd.
  { apply NoDup_ready; [by eapply queues_length|by eapply qd_nodup, rp_queued|apply valid_mlfq0]. }
  assert (zlen (ready (queues A) (Mlfq 0)) <= zlen (plist A)) as Hle.
  { unfold zlen. apply inj_le, submseteq_length, NoDup_submseteq; [done|]. intros b Hb.
    by destruct (co_queued _ _ _ (rp_consistent A st Hr) _ b valid_mlfq0 Hb). }
  apply list_elem_of_split in Hin as (l & r & E). exists l. split; [by exists r|].
  rewrite E, zlen_app, zlen_cons in Hle. pose proof (zlen_nonneg r). lia.
Qed.

Lemma schedule_ticks (A : abs) : tick_count (core (a_schedule A)) = tick_count (core A).
Proof. simpl. unfold preempted. by destruct (runs (core A)). Qed.

Lemma op_ticks (op : sched_op) (A : abs) :
  tick_count (core (a_run op A)) =
    match op with OpTick => u64 (tick_count (core A) + 1) | _ => tick_count (core A) end.
Proof.
  assert (forall a r B, tick_count (core (a_block a r B)) = tick_count (core B)) as Hb.
  { intros a r B. unfold a_block. destruct (state (pc B a)); try done. by rewrite schedule_ticks. }
  destruct op; unfold a_run.
  - unfold a_tick. rewrite <-timers_ticks. set (B := a_timers A).
    destruct (_ =? NULL); [apply schedule_ticks|]. unfold a_tick_current. set (B1 := on_core _ B).
    change (tick_count (core B)) with (tick_count (core B1)).
    destruct (_ =? _); [apply schedule_ticks|]. destruct (has _ PROCESS_NORMAL).
    + destruct (_ <=? 0); [|done]. rewrite schedule_ticks. by destruct (_ <? _).
    + destruct (has _ _ && _); [apply schedule_ticks|done].
  - apply schedule_ticks.
  - unfold a_yield. destruct (_ =? _); [done|]. rewrite schedule_ticks. by destruct (has _ _ && _ && _).
  - unfold a_sleep. destruct (_ =? _); [done|]. by rewrite Hb.
  - apply Hb.
  - apply Hb.
  - unfold a_unblock. by destruct (decide _).
  - done.
  - done.
  - unfold a_add, push. simpl. by destruct (_ =? _).
  - by apply (pull_var tick_count).
  - done.
  - unfold a_exit. rewrite schedule_ticks. simpl. by rewrite (pull_var tick_count).
Qed.

(** A tick that boosts puts [x] in the first queue, behind at most the other processes. *)
Lemma boost_tick (x : Z) (A : abs) (st : sched) :
  inv A st -> normal A -> pending x A -> boost_in 1 A ->
  normal (a_tick A) /\ (current (core (a_tick A)) = x \/
    exists l, waits x l (queues (a_tick A)) /\ measure l (a_tick A) < 101 * zlen (plist A)).
Proof.
  intros [Hr [Hl Hi] Hs] Hn Hp [_ Hb]. destruct (timers_rep A st Hr Hl) as [s1 Hr1].
  pose proof (mild_timers x A st Hr) as Hm. set (B := a_timers A) in *.
  pose proof (mild_normal x A B Hm Hn) as HnB. assert (pending x B) as HpB by (by apply (mi_gentle _ _ _ Hm)).
  assert (queue_level (pc B x) = 0 /\ plist B = plist A) as [H0 Hpl].
  { unfold B, a_timers. set (A1 := on_core _ A). set (A2 := foldl a_wake A1 (plist A1)).
    assert (plist A2 = plist A) as E2 by (by apply (foldl_plist a_wake a_wake_plist A1)).
    assert (tick_count (core A2) = u64 (tick_count (core A) + 1)) as Et.
    { unfold A2. by rewrite (foldl_var tick_count) by (intros; by apply (a_wake_var tick_count)). }
    rewrite Et, Hb. cbn [Z.eqb].
    set (A3 := foldl a_boost A2 (plist A2)).
    assert (queue_level (pc A3 x) = 0 /\ plist A3 = plist A) as H3; [|by destruct (_ && _)].
    split; [|unfold A3; by rewrite (foldl_plist a_boost a_boost_plist)].
    apply boost_levels; [rewrite E2; apply Hp|].
    destruct (mild_foldl x wake_one a_wake A1 (set_tick_count (u64 (tick_count st + 1)) st) (plist A1)) as [HmA _];
      eauto using a_wake_plist, rep_wake_one, mild_wake.
    { by apply (abs_frame A st (fun s => set_tick_count (u64 (tick_count s + 1)) s)). }
    apply (ge_normal _ _ _ (mi_gentle _ _ _ HmA)); [apply Hn|]. change (x ∈ plist A2). rewrite E2. apply Hp. }
  destruct (level0_waits x B s1 Hr1 HnB HpB H0) as (l & Hw & Hle). rewrite Hpl in Hle.
  destruct (rest_progress x B s1 Hr1 (settled_timers A Hs) HnB HpB) as [Hn' [Hc|[_ Hm'] ] ]; [by split; [|left]|].
  split; [done|right]. destruct (Hm' l Hw) as (l' & Hw' & Hle'). exists l'. split; [done|].
  pose proof (slice_bounds B HnB). unfold measure in *. change (a_tick A) with (a_rest B). lia.
Qed.

Lemma pending_runs (x n k : Z) (ops : list sched_op) (A : abs) (st : sched) :
  inv A st -> normal A -> admissible x n ops A -> pending x A -> boost_in k A ->
  k + 101 * n <= ticks ops -> gets_to_run x ops st.
Proof.
  revert A st k. induction ops as [|op ops IH]; intros A st k Hi Hn Ha Hp Hb Hle.
  - exfalso. destruct Ha as [Hn1 _]. pose proof (zlen_nonneg (plist A)). destruct Hb as [Hk _].
    change (ticks []) with 0 in Hle. lia.
  - destruct Ha as (Hln & Hal & Hf & Ha). rewrite ticks_cons in Hle.
    destruct (run_refines A st op Hi Hal) as (st' & Hrun & Hi').
    apply (gets_to_run_step x op ops st st' Hrun).
    assert (current (core (a_run op A)) = x -> gets_to_run x ops st') as Hnow.
    { intros Hc. apply gets_to_run_now. by rewrite (rep_core current (a_run op A) st') by (done || apply Hi'). }
    destruct (op_progress x A st op Hi Hn Hal Hf Hp) as [Hn' [Hc|[Hp' _] ] ]; [auto|].
    assert (boost_in k (a_run op A) /\ ticks_of op = 0 \/ op = OpTick) as [ [Hb' Ho]| ->].
    { unfold boost_in in *. rewrite op_ticks. destruct op; auto. }
    + eapply IH; eauto. lia.
    + change (ticks_of OpTick) with 1 in Hle. destruct (decide (k = 1)) as [->|Hk].
      * destruct (boost_tick x A st Hi Hn Hp Hb) as [_ [Hc|(l & Hw & Hm)] ]; [auto|].
        eapply first_queue_runs; eauto. change (a_run OpTick A) with (a_tick A). lia.
      * eapply (IH _ _ (k - 1)); eauto; [|lia]. destruct Hb as [Hk1 Hb]. split; [lia|].
        rewrite op_ticks. rewrite <-Hb. unfold u64. rewrite Zplus_mod_idemp_l. do 2 f_equal. lia.
Qed.
End SchedFair.
