(* ===== verification/SchedMain.v ===== *)
(** * The scheduler from boot on

    [Module SchedMain]: [sched_init] and [sched_create_idle_task] establish the invariant,
    every execution of allowed operations from there refines the abstract scheduler
    ([sched_refines]), in its states the ready processes are exactly the queued ones
    ([sched_invariant]), and no process starves ([mlfq_no_starvation]). *)

From S2P Require Import Prelude FaultM Dll Sync Sched SchedQueue SchedInv SchedRefine SchedList SchedFair.

Module SchedMain.
Export SchedFair.

(** ** Boot *)

(** The static variables before [sched_init] are zero; [ps] are the control blocks, with
    cleared pointers ([kcalloc]). *)
Definition zero_queue : sched_queue := mk_queue NULL NULL 0 0.
Definition zero_tables : sched_tables :=
  mk_tables (mk_load (replicate 100 0) 0 0) (replicate 16 (mk_group 0 0 0 0 0)) 0
    (replicate 256 (mk_affinity 0 0)) (replicate 256 (mk_stat 0 0 0 0 0 0 0 0 0 0))
    (mk_gstats 0 0 0 0 0 0 0) (replicate 32 (mk_job 0 0 0 0)) 0 (mk_energy 0 0 0 0 0 0 0 0)
    (mk_tunables 0 0 0 0 0 0 0 0 0) (mk_domain 0 0 0 0 0 0).
Definition start (ps : gmap Z pcb) : sched :=
  mk_sched ps (replicate 2 zero_queue) (replicate 8 zero_queue) NULL NULL (mk_spinlock 0) 0 0 NULL NULL
    (replicate 256 (mk_cfs_node NULL 0 NIL)) (mk_cfs_rq NIL NULL 0 0) 0
    (replicate 64 (mk_dl_node NULL zero_params NIL NIL)) (mk_dl_rq NIL NIL 0 0)
    (replicate 256 (mk_pi NULL 0 0 0)) zero_tables [].

Definition boot (idle : Z) : FM sched unit := sched_init ;; sched_create_idle_task idle.

Record fresh_memory (ps : gmap Z pcb) (idle : Z) : Prop := {
  fm_null : ps !! NULL = None;
  fm_idle : is_Some (ps !! idle);
  fm_links : forall a p, ps !! a = Some p -> queue_prev p = NULL /\ queue_next p = NULL;
}.

(** The state after boot. *)
Definition booted (ps : gmap Z pcb) (idle : Z) : sched :=
  set_idle_task idle
    (set_rt_queues ((fun i => mk_queue NULL NULL 0 i) <$> range 0 SCHED_RT_QUEUE_COUNT)
      (set_mlfq_queues ((fun i => mk_queue NULL NULL 0 i) <$> range 0 SCHED_QUEUE_COUNT) (start ps))).
Definition boot_abs (ps : gmap Z pcb) (idle : Z) : abs := mk_abs (booted ps idle) (replicate 10 []) [].

Lemma boot_run (ps : gmap Z pcb) (idle : Z) :
  idle <> NULL -> boot idle (start ps) = Some (tt, booted ps idle).
Proof.
  intros Hi. unfold boot, sched_create_idle_task. rewrite (proj2 (Z.eqb_neq idle NULL) Hi). reflexivity.
Qed.

Lemma boot_inv (ps : gmap Z pcb) (idle : Z) :
  fresh_memory ps idle -> inv (boot_abs ps idle) (booted ps idle).
Proof.
  intros [Hn Hi Hl].
  assert (forall q, ready (replicate 10 []) q = @nil Z) as Hr.
  { intros q. unfold ready. rewrite list_lookup_total_alt.
    destruct (replicate 10 [] !! qindex q) as [l|] eqn:E; [|done]. by apply lookup_replicate in E as [-> _]. }
  constructor; [|done|by intros ?%not_elem_of_nil]. constructor; [| |done].
  - constructor; try done.
    + intros q Hq. cbn [queues boot_abs]. rewrite Hr.
      destruct q as [i|i]; simpl in Hq; constructor; try done; simpl;
        (assert (i ∈ range 0 8) as Hin by (apply elem_of_range; unfold SCHED_RT_QUEUE_COUNT, SCHED_QUEUE_COUNT in Hq; lia));
        change (range 0 8) with [0; 1; 2; 3; 4; 5; 6; 7] in Hin;
        repeat (apply elem_of_cons in Hin as [-> | Hin]; [first [reflexivity|exfalso; unfold SCHED_RT_QUEUE_COUNT in Hq; lia]|]);
        by apply not_elem_of_nil in Hin.
    + simpl. constructor.
    + intros a [p Hp] _. unfold qlinks. simpl in *. rewrite Hp. simpl. by destruct (Hl a p Hp) as [-> ->].
  - constructor; try done; try (by intros a p ?%not_elem_of_nil).
    + constructor; [done|done|apply NoDup_nil_2].
    + intros q a _. cbn [queues boot_abs]. rewrite Hr. set_solver.
    + by left.
    + split; [done|]. apply not_elem_of_nil.
Qed.

(** ** Executions *)

Fixpoint allowed_all (ops : list sched_op) (A : abs) : Prop :=
  match ops with
  | [] => True
  | op :: ops => allowed op A /\ allowed_all ops (a_run op A)
  end.

Definition a_exec (ops : list sched_op) (A : abs) : abs := foldl (fun A op => a_run op A) A ops.

Lemma exec_refines (ops : list sched_op) (A : abs) (st : sched) :
  inv A st -> allowed_all ops A -> exists st', exec ops st = Some (tt, st') /\ inv (a_exec ops A) st'.
Proof.
  revert A st. induction ops as [|op ops IH]; intros A st Hi Ha; [eauto|]. destruct Ha as [Hop Ha].
  destruct (run_refines A st op Hi Hop) as (st1 & Hrun & Hi1).
  destruct (IH (a_run op A) st1 Hi1 Ha) as (st' & Hex & Hi'). exists st'. split; [|done].
  simpl. unfold mbind, FM_bind. by rewrite Hrun.
Qed.

Lemma boot_refines (ps : gmap Z pcb) (idle : Z) (ops : list sched_op) :
  fresh_memory ps idle -> allowed_all ops (boot_abs ps idle) ->
  exists st, (boot idle ;; exec ops) (start ps) = Some (tt, st) /\ inv (a_exec ops (boot_abs ps idle)) st.
Proof.
  intros Hf Ha. destruct (exec_refines ops _ _ (boot_inv ps idle Hf) Ha) as (st & Hex & Hi).
  exists st. split; [|done]. unfold mbind at 1, FM_bind at 1. rewrite boot_run; [done|].
  intros ->. destruct (fm_idle _ _ Hf) as [p Hp]. by rewrite (fm_null _ _ Hf) in Hp.
Qed.

(** ** The lists in memory *)

(** The addresses met by following [nxt] from [a]. *)
Fixpoint chain (fuel : nat) (nxt : pcb -> Z) (ps : gmap Z pcb) (a : Z) : list Z :=
  match fuel, ps !! a with
  | S fuel, Some p => a :: chain fuel nxt ps (nxt p)
  | _, _ => []
  end.

Definition members (st : sched) (q : qref) : list Z :=
  chain (size (procs st)) queue_next (procs st) (q_head (queue_of st q)).
Definition processes (st : sched) : list Z :=
  chain (size (procs st)) next (procs st) (process_list st).

Lemma chain_dseg (nxt prv : pcb -> Z) (ps : gmap Z pcb) (l : list Z) (fuel : nat) (p : Z) :
  ps !! NULL = None -> (length l <= fuel)%nat ->
  dseg (fun a => (fun p => (prv p, nxt p)) <$> ps !! a) p l NULL ->
  chain fuel nxt ps (first_of NULL l) = l.
Proof.
  intros Hn. revert fuel p. induction l as [|a l IH]; intros fuel p Hf Hd.
  - change (first_of NULL []) with NULL. by destruct fuel; simpl; rewrite ?Hn.
  - destruct fuel as [|fuel]; simpl in Hf; [lia|]. destruct Hd as [Ha Hd].
    apply fmap_Some in Ha as (q & Hq & [= _ Hnx]). change (first_of NULL (a :: l)) with a. simpl.
    rewrite Hq, <-Hnx. f_equal. apply (IH fuel a); [lia|done].
Qed.

Lemma members_ready (A : abs) (st : sched) (q : qref) :
  rep A st -> valid_ref q -> members st q = ready (queues A) q.
Proof.
  intros Hr Hv. destruct (queued_ready st (queues A) q (rp_queued A st Hr) Hv) as ([Hh _ _ Hd] & _ & Hnd & _ & Hal).
  unfold members. rewrite Hh. eapply (chain_dseg queue_next queue_prev); [apply Hr|by apply alive_length|exact Hd].
Qed.

Lemma processes_plist (A : abs) (st : sched) : rep A st -> processes st = plist A.
Proof.
  intros Hr. destruct (co_listed _ _ _ (rp_consistent A st Hr)) as [Hh Hd Hnd].
  unfold processes. rewrite Hh. eapply (chain_dseg next prev); [apply Hr| |exact Hd].
  apply alive_length; [done|]. intros a Ha. destruct (rep_listed A st a Hr Ha) as (p & -> & _). eauto.
Qed.

(** ** Decidability *)

#[export] Instance wf_pcb_dec (p : pcb) : Decision (wf_pcb p).
Proof.
  refine (cast_if_and4 (decide (plain (sched_policy p) = true)) (decide (0 <= queue_level p < SCHED_QUEUE_COUNT))
    (decide (0 <= priority p <= SCHED_PRIORITY_MAX)) (decide (0 <= effective_priority p <= SCHED_PRIORITY_MAX)));
    abstract (first [by constructor|by intros []]).
Defined.

#[export] Instance allowed_dec (op : sched_op) (A : abs) : Decision (allowed op A).
Proof. destruct op; unfold allowed; apply _. Defined.

#[export] Instance fair_dec (x : Z) (op : sched_op) (A : abs) : Decision (fair x op A).
Proof. destruct op; unfold fair; apply _. Defined.

(** The conditions on an execution as tests. *)
Fixpoint allowed_all_b (ops : list sched_op) (A : abs) : bool :=
  match ops with
  | [] => true
  | op :: ops => bool_decide (allowed op A) && allowed_all_b ops (a_run op A)
  end.
Fixpoint admissible_b (x n : Z) (ops : list sched_op) (A : abs) : bool :=
  (zlen (plist A) <=? n) &&
  match ops with
  | [] => true
  | op :: ops => bool_decide (allowed op A) && bool_decide (fair x op A) && admissible_b x n ops (a_run op A)
  end.

Lemma allowed_all_b_spec (ops : list sched_op) (A : abs) : allowed_all_b ops A = true -> allowed_all ops A.
Proof.
  revert A. induction ops as [|op ops IH]; intros A; [done|]. simpl.
  rewrite andb_true_iff, bool_decide_eq_true. naive_solver.
Qed.

Lemma admissible_b_spec (x n : Z) (ops : list sched_op) (A : abs) :
  admissible_b x n ops A = true -> admissible x n ops A.
Proof.
  revert A. induction ops as [|op ops IH]; intros A; simpl.
  - rewrite andb_true_iff, Z.leb_le. naive_solver.
  - rewrite !andb_true_iff, Z.leb_le, !bool_decide_eq_true. naive_solver.
Qed.

#[export] Instance normal_dec (A : abs) : Decision (normal A).
Proof.
  refine (cast_if_and3
    (decide (Forall (fun a => has (sched_policy (pc A a)) PROCESS_NORMAL = true) (plist A)))
    (decide (current (core A) = NULL \/ current (core A) = idle_task (core A) \/ current (core A) ∈ plist A))
    (decide (current (core A) ∈ plist A -> 1 <= time_slice (pc A (current (core A))) <= 100))).
  - abstract (rewrite Forall_forall in *; by constructor).
  - abstract (by intros []).
  - abstract (by intros []).
  - abstract (rewrite Forall_forall in *; by intros []).
Defined.

(** ** Theorems *)

(** C10: from boot, every execution of allowed scheduler operations succeeds (no fault, no
    second acquisition of the lock, no endless list) and its final state represents the
    state the abstract scheduler on lists reaches with the same operations. *)
Theorem sched_refines (ps : gmap Z pcb) (idle : Z) (ops : list sched_op) :
  fresh_memory ps idle -> allowed_all ops (boot_abs ps idle) ->
  exists st, (boot idle ;; exec ops) (start ps) = Some (tt, st) /\ inv (a_exec ops (boot_abs ps idle)) st.
Proof. apply boot_refines. Qed.

(** *** Witnesses *)

(** The idle task at 100 and three user processes. *)
Definition sample_pcb (n policy prio : Z) : pcb :=
  set_pid n (set_sched_policy policy (set_priority prio (set_original_priority prio
    (set_effective_priority prio (set_time_slice 15 zero_pcb))))).
Definition sample_memory : gmap Z pcb :=
  list_to_map [(100, sample_pcb 0 PROCESS_IDLE 100); (101, sample_pcb 1 PROCESS_NORMAL 50);
    (102, sample_pcb 2 PROCESS_NORMAL 80); (103, sample_pcb 3 PROCESS_REAL_TIME 20)].
Definition sample_ops : list sched_op :=
  [OpAdd 101; OpAdd 102; OpAdd 103; OpSetCurrent 101; OpTick; OpBlock 102 1; OpSchedule; OpSleep 30;
   OpTick; OpUnblock 102; OpTick; OpTick; OpTick; OpSetPriority 103 70; OpSetPolicy 102 PROCESS_REAL_TIME;
   OpYield; OpTick; OpRemove 101; OpExit; OpBlockCurrent 4; OpTick; OpUnblock 102].

Lemma sample_fresh : fresh_memory sample_memory 100.
Proof.
  constructor; [done|by eexists|]. intros a p Hp. apply elem_of_list_to_map_2 in Hp.
  repeat (apply elem_of_cons in Hp as [ [= _ ->] | Hp]; [done|]). by apply not_elem_of_nil in Hp.
Qed.

Lemma sched_refines_witness :
  exists st, (boot 100 ;; exec sample_ops) (start sample_memory) = Some (tt, st) /\
    inv (a_exec sample_ops (boot_abs sample_memory 100)) st.
Proof.
  apply (sched_refines sample_memory 100 sample_ops sample_fresh).
  apply allowed_all_b_spec. vm_compute. reflexivity.
Defined.

(** C11: after every execution of allowed operations from boot, a process of the process
    list is ready exactly when it is in the queue of its policy and level, it is in no
    other queue, it runs only as the current process, and the count of a queue is the
    number of processes found by following its pointers, none of them twice. *)
Theorem sched_invariant (ps : gmap Z pcb) (idle : Z) (ops : list sched_op) (st : sched) :
  fresh_memory ps idle -> allowed_all ops (boot_abs ps idle) ->
  (boot idle ;; exec ops) (start ps) = Some (tt, st) ->
  (forall a p, a ∈ processes st -> procs st !! a = Some p ->
     (state p = PROCESS_READY <-> a ∈ members st (home p)) /\
     (forall q, valid_ref q -> a ∈ members st q -> q = home p) /\
     (state p = PROCESS_RUNNING -> a = current st)) /\
  (forall q, valid_ref q -> q_count (queue_of st q) = u32 (zlen (members st q)) /\ NoDup (members st q)).
Proof.
  intros Hf Ha Hrun. destruct (boot_refines ps idle ops Hf Ha) as (st' & Hrun' & [Hr _ _]).
  rewrite Hrun in Hrun'. injection Hrun' as <-. set (A := a_exec ops (boot_abs ps idle)) in *.
  rewrite (processes_plist A st Hr). pose proof Hr as [Hq Hc Hs]. split.
  - intros a p Hl Hp. pose proof (home_valid p (co_wf _ _ _ Hc a p Hl Hp)) as Hv.
    rewrite (members_ready A st) by done. split_and!.
    + split.
      * intros Hst. apply (consistent_home st _ (plist A)); [done..|]. by apply (co_ready _ _ _ Hc a p).
      * intros Hin. destruct (co_queued _ _ _ Hc _ a Hv Hin) as (_ & p' & Hp' & Hst & _). by simplify_eq.
    + intros q Hvq. rewrite (members_ready A st) by done. intros Hin.
      destruct (co_queued _ _ _ Hc q a Hvq Hin) as (_ & p' & Hp' & _ & Hh). by simplify_eq.
    + by apply (co_running _ _ _ Hc a p).
  - intros q Hv. rewrite (members_ready A st) by done. split; [by apply Hq|].
    apply NoDup_ready; [apply Hq|apply Hq|done].
Qed.

Lemma sched_invariant_witness :
  exists st, (boot 100 ;; exec sample_ops) (start sample_memory) = Some (tt, st) /\
    members st (Rt 1) = [102] /\ (forall q, valid_ref q -> NoDup (members st q)).
Proof.
  destruct ((boot 100 ;; exec sample_ops) (start sample_memory)) as [ [ [] st] |] eqn:E; [|by vm_compute in E].
  exists st. split_and!; [done| |].
  - vm_compute in E. injection E as <-. by vm_compute.
  - intros q Hq. refine (proj2 (proj2 (sched_invariant sample_memory 100 sample_ops st sample_fresh _ E) q Hq)).
    apply allowed_all_b_spec. vm_compute. reflexivity.
Defined.

(** C12: in a system of normal processes, never more than [n] of them, a ready process runs
    within 500 + 101 * n timer ticks, whatever operations the other processes perform
    between the ticks. *)
Theorem mlfq_no_starvation (x n : Z) (ops : list sched_op) (A : abs) (st : sched) :
  inv A st -> normal A -> pending x A -> admissible x n ops A ->
  SCHED_BOOST_INTERVAL + 101 * n <= ticks ops -> gets_to_run x ops st.
Proof.
  intros Hi Hn Hp Ha Ht. destruct (boost_within A) as (k & Hk & Hb).
  eapply pending_runs; eauto. lia.
Qed.

(** Three processes that compute without a break, one of them set to sleep now and then. *)
Definition normal_memory : gmap Z pcb :=
  list_to_map [(100, sample_pcb 0 PROCESS_IDLE 100); (101, sample_pcb 1 PROCESS_NORMAL 50);
    (102, sample_pcb 2 PROCESS_NORMAL 80); (103, sample_pcb 3 PROCESS_NORMAL 20)].
Definition normal_start : list sched_op := [OpAdd 102; OpAdd 101; OpAdd 103; OpTick; OpTick].
Definition normal_ops : list sched_op := OpSleep 100 :: replicate 803 OpTick.

Lemma normal_fresh : fresh_memory normal_memory 100.
Proof.
  constructor; [done|by eexists|]. intros a p Hp. apply elem_of_list_to_map_2 in Hp.
  repeat (apply elem_of_cons in Hp as [ [= _ ->] | Hp]; [done|]). by apply not_elem_of_nil in Hp.
Qed.

Lemma mlfq_no_starvation_witness :
  exists st, (boot 100 ;; exec normal_start) (start normal_memory) = Some (tt, st) /\
    gets_to_run 103 normal_ops st.
Proof.
  destruct (boot_refines normal_memory 100 normal_start normal_fresh) as (st & Hex & Hi).
  { apply allowed_all_b_spec. vm_compute. reflexivity. }
  exists st. split; [exact Hex|].
  apply (mlfq_no_starvation 103 3 normal_ops (a_exec normal_start (boot_abs normal_memory 100)) st Hi).
  - apply (bool_decide_unpack (normal _)). vm_compute. exact I.
  - apply (bool_decide_unpack (_ /\ _)). vm_compute. exact I.
  - apply admissible_b_spec. vm_compute. reflexivity.
  - vm_compute. discriminate.
Defined.
End SchedMain.
