(* ===== verification/SchedDefects.v ===== *)
(** * Where the scheduler does not do what it means to

    [Module SchedDefects]: executions of the operations outside the conditions of
    SchedMain.v.  Processes of the fair and of the deadline class are never chosen or are
    lost, a change of policy takes the wrong process out of its queue, inheriting a
    priority can delay a process, and the first process is marked as running without a
    switch to it. *)

From S2P Require Import Prelude FaultM Sync Sched SchedExt SchedQueue SchedInv SchedRefine SchedList SchedFair SchedMain.

Module SchedDefects.
Import SchedExt SchedMain.

(** The idle task, three processes with the given policies, and the statics as
    [sched_extended_init] sets them. *)
Definition memory (p1 p2 p3 : Z) : gmap Z pcb :=
  list_to_map [(100, sample_pcb 0 PROCESS_IDLE 100); (101, sample_pcb 1 p1 20);
    (102, sample_pcb 2 p2 80); (103, sample_pcb 3 p3 50)].
Definition observe {A B} (p1 p2 p3 : Z) (m : FM sched A) (f : A -> sched -> B) : option B :=
  match (boot 100 ;; sched_extended_init ;; m) (start (memory p1 p2 p3)) with
  | Some (x, st) => Some (f x st)
  | None => None
  end.
Definition all_members (st : sched) : list Z := concat (members st <$> rt_refs ++ mlfq_refs).
Definition state_of (st : sched) (a : Z) : proc_state := state (procs st !!! a).

(** The processes in the fair queue. *)
Definition cfs_members (st : sched) : list Z :=
  let fix go (fuel : nat) (i : Z) :=
    match fuel with
    | O => []
    | S fuel => if i =? NIL then [] else n_proc (cfs_runqueue st).[i] :: go fuel (n_next (cfs_runqueue st).[i])
    end in
  go 256%nat (c_head (cfs_rq st)).

(** A process of the fair class waits in its queue while the processor idles. *)
Lemma cfs_never_picked :
  observe PROCESS_NORMAL PROCESS_NORMAL PROCESS_NORMAL
    (sched_add 101 ;; r ← sched_set_policy_cfs 101; exec (replicate 2000 OpTick) ;; mret r)
    (fun r st => (r, state_of st 101, cfs_members st, current st))
  = Some (0, PROCESS_READY, [101], 100).
Proof. vm_compute. reflexivity. Qed.

(** A process admitted to the deadline class is in no queue: its node is looked for in the
    queue before it was ever put there. *)
Lemma deadline_lost :
  observe PROCESS_NORMAL PROCESS_NORMAL PROCESS_NORMAL
    (sched_add 101 ;; r ← sched_set_policy_deadline 101 5 10 20; exec (replicate 2000 OpTick) ;; mret r)
    (fun r st => (r, state_of st 101, all_members st, d_head (dl_rq st), current st))
  = Some (0, PROCESS_READY, [], NIL, 100).
Proof. vm_compute. reflexivity. Qed.

(** Refused by the admission test, a process has lost its place in the queues and keeps
    the deadline policy; its share of the bandwidth is never given back, so the class is
    full after one process has entered and left it. *)
Lemma deadline_refused_lost :
  observe PROCESS_NORMAL PROCESS_NORMAL PROCESS_NORMAL
    (sched_add 101 ;; sched_add 102 ;; sched_set_policy_deadline 102 20 20 20 ;;
     sched_set_policy 102 PROCESS_NORMAL ;; sched_set_policy_deadline 101 20 20 20)
    (fun r st => (r, state_of st 101, sched_policy (procs st !!! 101), all_members st, running_bw (dl_rq st)))
  = Some (-1, PROCESS_READY, PROCESS_DEADLINE, [102], 1000).
Proof. vm_compute. reflexivity. Qed.

(** Taking process 101 out of the fair class removes process 102 from its queue: 102 is
    ready and in no queue, 101 is in two. *)
Lemma policy_change_wrong_process :
  observe PROCESS_NORMAL PROCESS_NORMAL PROCESS_NORMAL
    (sched_add 101 ;; sched_add 102 ;; sched_set_policy_cfs 101 ;; sched_set_policy_cfs 102 ;;
     sched_set_policy 101 PROCESS_NORMAL)
    (fun r st => (r, state_of st 102, cfs_members st, all_members st))
  = Some (0, PROCESS_READY, [101], [101]).
Proof. vm_compute. reflexivity. Qed.

(** [enqueue_entity] puts a process into the fair queue a second time. *)
Lemma enqueue_entity_twice :
  observe PROCESS_NORMAL PROCESS_NORMAL PROCESS_NORMAL
    (sched_add 101 ;; sched_set_policy_cfs 101 ;; sched_set_policy_cfs 101)
    (fun r st => (r, cfs_members st))
  = Some (0, [101; 101]).
Proof. vm_compute. reflexivity. Qed.

(** The first [schedule] marks a process as running without a switch to it, and so do the
    next ticks; the switch at the end of its time slice saves the stack of the boot code
    as that of the process. *)
Lemma first_schedule_no_switch :
  observe PROCESS_NORMAL PROCESS_NORMAL PROCESS_NORMAL
    (sched_add 101 ;; sched_add 102 ;; schedule ;; exec (replicate 81 OpTick))
    (fun _ st => (current st, state_of st 101, hw st))
  = Some (101, PROCESS_RUNNING, []) /\
  observe PROCESS_NORMAL PROCESS_NORMAL PROCESS_NORMAL
    (sched_add 101 ;; sched_add 102 ;; schedule ;; exec (replicate 82 OpTick))
    (fun _ st => hw st)
  = Some [FpuSave 101; ContextSwitch 101 102].
Proof. split; vm_compute; reflexivity. Qed.

(** A running batch process is never preempted. *)
Lemma batch_never_preempted :
  observe PROCESS_BATCH PROCESS_NORMAL PROCESS_NORMAL
    (sched_add 101 ;; schedule ;; sched_add 102 ;; exec (replicate 2000 OpTick))
    (fun _ st => (current st, members st (Mlfq 0)))
  = Some (101, [102]).
Proof. vm_compute. reflexivity. Qed.

(** The holder of a mutex that inherits the priority 80 moves from the first to the second
    real-time queue, behind the process 103 that it preceded. *)
Lemma priority_inheritance_delays :
  observe PROCESS_REAL_TIME PROCESS_REAL_TIME PROCESS_REAL_TIME
    (sched_add 103 ;; sched_add 101)
    (fun _ st => (members st (Rt 0), members st (Rt 1))) = Some ([101], [103]) /\
  observe PROCESS_REAL_TIME PROCESS_REAL_TIME PROCESS_REAL_TIME
    (sched_add 103 ;; sched_add 101 ;; sched_pi_mutex_lock 101 102)
    (fun _ st => (members st (Rt 0), members st (Rt 1))) = Some ([], [103; 101]).
Proof. split; vm_compute; reflexivity. Qed.

(** The statics as they are when no constructor runs: time of the fair class does not
    advance. *)
Lemma cfs_time_stands_still :
  match (boot 100 ;; sched_add 101 ;; sched_set_policy_cfs 101 ;; sched_cfs_tick 101)
          (start (memory PROCESS_NORMAL PROCESS_NORMAL PROCESS_NORMAL)) with
  | Some (_, st) => Some (vruntime (procs st !!! 101))
  | None => None
  end = Some 0.
Proof. vm_compute. reflexivity. Qed.

(** Adding a process number that does not exist counts as a member of a group. *)
Lemma group_counts_missing_process :
  observe PROCESS_NORMAL PROCESS_NORMAL PROCESS_NORMAL
    (sched_create_process_group 7 ;; sched_add_to_group 99 7 ;; sched_add_to_group 99 7)
    (fun r st => (r, member_count (pg_table (tables st)).[0])) = Some (0, 3).
Proof. vm_compute. reflexivity. Qed.
End SchedDefects.
