(* ===== verification/Sha256.v ===== *)
(** * Digests (src/kernel/sha256.c, src/kernel/crypto.c)

    [Module Sha256]: the incremental SHA-256 of the kernel.  However a message is cut into
    calls of [sha256_update], the result is the digest that FIPS 180-4 defines: the
    padded message folded block by block ([sha256_streaming]).  [Module Crc32]: the
    table-driven CRC of crypto.c computes what the bitwise definition computes and can be
    continued. *)

From S2P Require Import Prelude.

Module Sha256.

(** ** The code *)

Definition ROTR (x n : Z) : Z := Z.lor (Z.shiftr x n) (u32 (Z.shiftl x (32 - n))).
Definition CH (x y z : Z) : Z := Z.lxor (Z.land x y) (Z.land (u32 (Z.lnot x)) z).
Definition MAJ (x y z : Z) : Z := Z.lxor (Z.lxor (Z.land x y) (Z.land x z)) (Z.land y z).
Definition EP0 (x : Z) : Z := Z.lxor (Z.lxor (ROTR x 2) (ROTR x 13)) (ROTR x 22).
Definition EP1 (x : Z) : Z := Z.lxor (Z.lxor (ROTR x 6) (ROTR x 11)) (ROTR x 25).
Definition SIG0 (x : Z) : Z := Z.lxor (Z.lxor (ROTR x 7) (ROTR x 18)) (Z.shiftr x 3).
Definition SIG1 (x : Z) : Z := Z.lxor (Z.lxor (ROTR x 17) (ROTR x 19)) (Z.shiftr x 10).

(** A row of eight words, written as one number. *)
Definition eight (z : Z) : list Z := (fun i => u32 (Z.shiftr z (32 * (7 - i)))) <$> range 0 8.
Definition K : list Z :=
  eight 0x428a2f9871374491b5c0fbcfe9b5dba53956c25b59f111f1923f82a4ab1c5ed5 ++
  eight 0xd807aa9812835b01243185be550c7dc372be5d7480deb1fe9bdc06a7c19bf174 ++
  eight 0xe49b69c1efbe47860fc19dc6240ca1cc2de92c6f4a7484aa5cb0a9dc76f988da ++
  eight 0x983e5152a831c66db00327c8bf597fc7c6e00bf3d5a7914706ca635114292967 ++
  eight 0x27b70a852e1b21384d2c6dfc53380d13650a7354766a0abb81c2c92e92722c85 ++
  eight 0xa2bfe8a1a81a664bc24b8b70c76c51a3d192e819d6990624f40e3585106aa070 ++
  eight 0x19a4c1161e376c082748774c34b0bcb5391c0cb34ed8aa4a5b9cca4f682e6ff3 ++
  eight 0x748f82ee78a5636f84c878148cc7020890befffaa4506cebbef9a3f7c67178f2.

Record sha256_ctx := mk_ctx { data : list Z; datalen : Z; bitlen : Z; state : list Z }.

(** The eight working variables. *)
Definition vars : Type := Z * Z * Z * Z * Z * Z * Z * Z.

(** The body of the loop over the rounds. *)
Definition round (m : list Z) (v : vars) (i : Z) : vars :=
  let '(a, b, c, d, e, f, g, h) := v in
  let t1 := u32 (h + EP1 e + CH e f g + K.[i] + m.[i]) in
  let t2 := u32 (EP0 a + MAJ a b c) in
  (u32 (t1 + t2), a, b, c, u32 (d + t1), e, f, g).

Definition word_at (d : list Z) (j : Z) : Z :=
  Z.lor (Z.lor (Z.lor (Z.shiftl d.[j] 24) (Z.shiftl d.[j + 1] 16)) (Z.shiftl d.[j + 2] 8)) d.[j + 3].

(** The two loops that fill [m], whose memory holds [junk] before. *)
Definition expand (junk d : list Z) : list Z :=
  let m := foldl (fun m i => m.[i <- word_at d (4 * i)]) junk (range 0 16) in
  foldl (fun m i => m.[i <- u32 (SIG1 m.[i - 2] + m.[i - 7] + SIG0 m.[i - 15] + m.[i - 16])]) m (range 16 64).

Definition sha256_transform (junk st d : list Z) : list Z :=
  let m := expand junk d in
  let '(a, b, c, d, e, f, g, h) :=
    foldl (round m) (st.[0], st.[1], st.[2], st.[3], st.[4], st.[5], st.[6], st.[7]) (range 0 64) in
  [u32 (st.[0] + a); u32 (st.[1] + b); u32 (st.[2] + c); u32 (st.[3] + d);
   u32 (st.[4] + e); u32 (st.[5] + f); u32 (st.[6] + g); u32 (st.[7] + h)].

Definition H0 : list Z :=
  [0x6a09e667; 0xbb67ae85; 0x3c6ef372; 0xa54ff53a; 0x510e527f; 0x9b05688c; 0x1f83d9ab; 0x5be0cd19].

(** [d]: what the buffer holds before. *)
Definition sha256_init (d : list Z) : sha256_ctx := mk_ctx d 0 0 H0.

Definition update_byte (junk : list Z) (ctx : sha256_ctx) (x : Z) : sha256_ctx :=
  let d := (data ctx).[datalen ctx <- x] in
  let n := u32 (datalen ctx + 1) in
  if n =? 64 then mk_ctx d 0 (u64 (bitlen ctx + 512)) (sha256_transform junk (state ctx) d)
  else mk_ctx d n (bitlen ctx) (state ctx).
Definition sha256_update (junk : list Z) (ctx : sha256_ctx) (xs : list Z) : sha256_ctx :=
  foldl (update_byte junk) ctx xs.

(** [while (i < hi) data[i++] = 0] *)
Definition fill_zero (d : list Z) (lo hi : Z) : list Z := foldl (fun d i => d.[i <- 0]) d (range lo hi).

Definition store_len (d : list Z) (n : Z) : list Z :=
  d.[63 <- u8 n].[62 <- u8 (Z.shiftr n 8)].[61 <- u8 (Z.shiftr n 16)].[60 <- u8 (Z.shiftr n 24)]
   .[59 <- u8 (Z.shiftr n 32)].[58 <- u8 (Z.shiftr n 40)].[57 <- u8 (Z.shiftr n 48)].[56 <- u8 (Z.shiftr n 56)].

(** The bytes of a state word, and the loop that stores the digest: byte [i] of every word
    in turn. *)
Definition word_byte (w i : Z) : Z := Z.land (Z.shiftr w (24 - i * 8)) 0xff.
Definition store_hash (st hash : list Z) : list Z :=
  foldl (fun h i =>
    h.[i <- word_byte st.[0] i].[i + 4 <- word_byte st.[1] i].[i + 8 <- word_byte st.[2] i]
     .[i + 12 <- word_byte st.[3] i].[i + 16 <- word_byte st.[4] i].[i + 20 <- word_byte st.[5] i]
     .[i + 24 <- word_byte st.[6] i].[i + 28 <- word_byte st.[7] i]) hash (range 0 4).

Definition sha256_final (junk : list Z) (ctx : sha256_ctx) (hash : list Z) : list Z :=
  let n := datalen ctx in
  let d := (data ctx).[n <- 0x80] in
  let '(d, st) :=
    if n <? 56 then (fill_zero d (n + 1) 56, state ctx)
    else let d := fill_zero d (n + 1) 64 in
         (fill_zero d 0 56, sha256_transform junk (state ctx) d) in
  let bits := u64 (bitlen ctx + n * 8) in
  store_hash (sha256_transform junk st (store_len d bits)) hash.

(** [sha256]: the stack and the result hold [junk], [d] and [hash] before. *)
Definition sha256 (junk d hash xs : list Z) : list Z :=
  sha256_final junk (sha256_update junk (sha256_init d) xs) hash.

Definition hex_digit (n : Z) : Z := if n <? 10 then 48 + n else 87 + n.
Definition sha256_hex (junk d hash xs : list Z) : list Z :=
  let h := sha256 junk d hash xs in
  ((fun i => [hex_digit (Z.land (Z.shiftr h.[i] 4) 0xF); hex_digit (Z.land h.[i] 0xF)]) <$> range 0 32) ≫= id.

(** ** FIPS 180-4 *)

(** Rotation to the right, as arithmetic. *)
Definition rotr (n x : Z) : Z := x / 2 ^ n + (x mod 2 ^ n) * 2 ^ (32 - n).
Definition Sigma0 (x : Z) : Z := Z.lxor (Z.lxor (rotr 2 x) (rotr 13 x)) (rotr 22 x).
Definition Sigma1 (x : Z) : Z := Z.lxor (Z.lxor (rotr 6 x) (rotr 11 x)) (rotr 25 x).
Definition sigma0 (x : Z) : Z := Z.lxor (Z.lxor (rotr 7 x) (rotr 18 x)) (x / 2 ^ 3).
Definition sigma1 (x : Z) : Z := Z.lxor (Z.lxor (rotr 17 x) (rotr 19 x)) (x / 2 ^ 10).
(** Bit by bit: [x] chooses between [y] and [z]; the majority. *)
Definition Ch (x y z : Z) : Z := Z.lxor (Z.land x y) (Z.ldiff z x).
Definition Maj (x y z : Z) : Z := Z.lxor (Z.lxor (Z.land x y) (Z.land x z)) (Z.land y z).

(** The constants: the first 32 bits of the fractions of the cube roots of the first 64
    primes, and of the square roots of the first eight. *)
Definition primes : list Z :=
  List.filter (fun n => forallb (fun d => negb (n mod d =? 0)) (range 2 n)) (range 2 312).
Definition cube_root (n : Z) : Z :=
  foldl (fun r k => let r' := r + 2 ^ (35 - k) in if r' * r' * r' <=? n then r' else r) 0 (range 0 36).
Definition fips_K : list Z := (fun p => u32 (cube_root (p * 2 ^ 96))) <$> primes.
Definition fips_H0 : list Z := (fun p => u32 (Z.sqrt (p * 2 ^ 64))) <$> take 8 primes.

Lemma K_is_fips : K = fips_K.
Proof. vm_compute. reflexivity. Qed.
Lemma H0_is_fips : H0 = fips_H0.
Proof. vm_compute. reflexivity. Qed.

Fixpoint be (bytes : list Z) (acc : Z) : Z :=
  match bytes with
  | [] => acc
  | b :: bytes => be bytes (acc * 256 + b)
  end.

(** The message schedule: sixteen words of the block, then each from those before it. *)
Definition next_word (w : list Z) : Z :=
  let t := zlen w in u32 (sigma1 w.[t - 2] + w.[t - 7] + sigma0 w.[t - 15] + w.[t - 16]).
Fixpoint extend (n : nat) (w : list Z) : list Z :=
  match n with
  | O => w
  | S n => extend n (w ++ [next_word w])
  end.
Definition block_words (block : list Z) : list Z :=
  (fun i => be (take 4 (drop (Z.to_nat (4 * i)) block)) 0) <$> range 0 16.

Definition fips_round (w : list Z) (v : vars) (t : Z) : vars :=
  let '(a, b, c, d, e, f, g, h) := v in
  let T1 := h + Sigma1 e + Ch e f g + fips_K.[t] + w.[t] in
  let T2 := Sigma0 a + Maj a b c in
  (u32 (T1 + T2), a, b, c, u32 (d + T1), e, f, g).

Definition compress (H block : list Z) : list Z :=
  let w := extend 48 (block_words block) in
  let '(a, b, c, d, e, f, g, h) :=
    foldl (fips_round w) (H.[0], H.[1], H.[2], H.[3], H.[4], H.[5], H.[6], H.[7]) (range 0 64) in
  [u32 (a + H.[0]); u32 (b + H.[1]); u32 (c + H.[2]); u32 (d + H.[3]);
   u32 (e + H.[4]); u32 (f + H.[5]); u32 (g + H.[6]); u32 (h + H.[7])].

(** A one bit, zeros up to eight bytes before the end of a block, and the length in bits. *)
Definition be64 (n : Z) : list Z := (fun i => n / 256 ^ (7 - i) mod 256) <$> range 0 8.
Definition padding (len : Z) : list Z := 0x80 :: replicate (Z.to_nat ((55 - len) mod 64)) 0 ++ be64 (8 * len).
Definition pad (msg : list Z) : list Z := msg ++ padding (zlen msg).

Fixpoint blocks (n : nat) (l : list Z) : list (list Z) :=
  match n with
  | O => []
  | S n => take 64 l :: blocks n (drop 64 l)
  end.

Definition be32 (w : Z) : list Z := (fun i => w / 256 ^ (3 - i) mod 256) <$> range 0 4.
Definition digest (msg : list Z) : list Z :=
  foldl compress fips_H0 (blocks (length (pad msg) / 64) (pad msg)) ≫= be32.

(** ** Words *)

Lemma ROTR_rotr (x n : Z) : is_u32 x -> 0 < n < 32 -> ROTR x n = rotr n x.
Proof.
  intros [H0x Hx] Hn. unfold ROTR, rotr. rewrite Z.shiftr_div_pow2, Z.shiftl_mul_pow2 by lia.
  assert (2 ^ 32 = 2 ^ n * 2 ^ (32 - n)) as E by (rewrite <-Z.pow_add_r by lia; f_equal; lia).
  unfold u32. rewrite E, Z.mul_mod_distr_r by lia.
  rewrite Z.lor_comm, lor_add; [lia|lia|]. split; [apply Z.div_pos; lia|].
  apply Z.div_lt_upper_bound; [lia|]. by rewrite <-E.
Qed.

Lemma CH_Ch (x y z : Z) : is_u32 z -> CH x y z = Ch x y z.
Proof.
  intros Hz. unfold CH, Ch. f_equal. apply Z.bits_inj'. intros i Hi.
  rewrite Z.land_spec, Z.ldiff_spec. destruct (Z.lt_ge_cases i 32).
  - rewrite u32_testbit, Z.lnot_spec by lia. rewrite (proj2 (Z.ltb_lt i 32)) by lia. simpl. apply andb_comm.
  - by rewrite (is_u32_testbit z i), andb_false_r by done.
Qed.

Lemma word_sum (a b c d : Z) :
  0 <= a < 256 -> 0 <= b < 256 -> 0 <= c < 256 -> 0 <= d < 256 ->
  Z.lor (Z.lor (Z.lor (Z.shiftl a 24) (Z.shiftl b 16)) (Z.shiftl c 8)) d = be [a; b; c; d] 0.
Proof.
  intros Ha Hb Hc Hd. rewrite !Z.shiftl_mul_pow2 by lia.
  rewrite (lor_add a) by lia.
  replace (a * 2 ^ 24 + b * 2 ^ 16) with ((a * 2 ^ 8 + b) * 2 ^ 16) by lia. rewrite (lor_add _ (c * 2 ^ 8) 16) by lia.
  replace ((a * 2 ^ 8 + b) * 2 ^ 16 + c * 2 ^ 8) with ((a * 2 ^ 16 + b * 2 ^ 8 + c) * 2 ^ 8) by lia.
  rewrite (lor_add _ d 8) by lia. simpl. lia.
Qed.

Definition bytes (l : list Z) : Prop := Forall is_u8 l.
Definition words (l : list Z) : Prop := Forall is_u32 l.

Lemma take4_drop (d : list Z) (j : Z) :
  0 <= j -> j + 4 <= zlen d -> take 4 (drop (Z.to_nat j) d) = [d.[j]; d.[j + 1]; d.[j + 2]; d.[j + 3]].
Proof.
  intros Hj Hd. apply list_eq_same_length with (n := 4%nat); [done| |].
  - unfold zlen in Hd. rewrite length_take, length_drop. lia.
  - intros i x y Hi Hx Hy. rewrite lookup_take_lt, lookup_drop in Hx by lia.
    assert (forall k, (Z.to_nat j + k)%nat = Z.to_nat (j + Z.of_nat k)) as E by lia. rewrite E in Hx.
    unfold aget in Hy. destruct i as [|[|[|[|i] ] ] ]; [| | | |lia]; simpl in Hy; injection Hy as <-;
      by rewrite <-(list_lookup_total_correct _ _ _ Hx), ?Z.add_0_r.
Qed.

Lemma word_at_be (d : list Z) (j : Z) :
  bytes d -> 0 <= j -> j + 4 <= zlen d -> word_at d j = be (take 4 (drop (Z.to_nat j) d)) 0.
Proof.
  intros Hb Hj Hd. rewrite take4_drop by done. unfold word_at.
  apply word_sum; eapply (aget_Forall (fun x => 0 <= x < 256)); try exact Hb; lia.
Qed.

(** ** The message schedule *)

(** A loop that fills an array from left to right appends to the part that is filled. *)
Fixpoint grow (h : list Z -> Z) (n : nat) (w : list Z) : list Z :=
  match n with
  | O => w
  | S n => grow h n (w ++ [h w])
  end.

Lemma fill_grow (g : list Z -> Z -> Z) (h : list Z -> Z) (n : nat) (m w : list Z) :
  (forall w, is_u32 (h w)) -> words w ->
  (forall m' w', words w' -> w' = take (length w') m' -> (length w <= length w' < length w + n)%nat ->
     g m' (zlen w') = h w') ->
  w = take (length w) m -> (length w + n <= length m)%nat ->
  let m' := foldl (fun m i => m.[i <- g m i]) m (range (zlen w) (zlen w + Z.of_nat n)) in
  length m' = length m /\ take (length w + n) m' = grow h n w.
Proof.
  intros Hh. revert m w. induction n as [|n IH]; intros m w Hu Hg Hw Hl; cbv zeta.
  - rewrite range_nil by lia. simpl. rewrite Nat.add_0_r. done.
  - rewrite range_cons by lia. cbn [foldl grow]. rewrite (Hg m w) by (done || lia).
    set (m1 := m.[zlen w <- h w]). assert (length m1 = length m) as Hl1 by apply length_insert.
    assert (zlen (w ++ [h w]) = zlen w + 1) as Hz by (rewrite zlen_app; done).
    assert (length (w ++ [h w]) = S (length w)) as Hs by (rewrite length_app; simpl; lia).
    assert (w ++ [h w] = take (length (w ++ [h w])) m1) as Hw1.
    { rewrite Hs. rewrite (take_S_r m1 (length w) (h w)).
      - f_equal. unfold m1, aset, zlen. rewrite Nat2Z.id, take_insert_ge by lia. done.
      - unfold m1, aset, zlen. rewrite Nat2Z.id. apply list_lookup_insert_eq. lia. }
    destruct (IH m1 (w ++ [h w])) as [Ha Hb]; [| |done|lia|].
    { apply Forall_app. split; [done|]. by apply Forall_singleton. }
    { intros m' w' Hm' Hw' Hlen. apply Hg; [done|done|lia]. }
    rewrite Hz in Ha, Hb. replace (zlen w + Z.of_nat (S n)) with (zlen w + 1 + Z.of_nat n) by lia.
    split; [by rewrite Ha|]. rewrite <-Hb, Hs. f_equal. lia.
Qed.

Lemma extend_grow (n : nat) (w : list Z) : extend n w = grow next_word n w.
Proof. revert w. induction n as [|n IH]; intros w; [done|]. apply IH. Qed.

Lemma grow_fmap (f : Z -> Z) (n : nat) (w : list Z) :
  grow (fun w => f (zlen w)) n w = w ++ (f <$> range (zlen w) (zlen w + Z.of_nat n)).
Proof.
  revert w. induction n as [|n IH]; intros w; simpl.
  - rewrite range_nil by lia. by rewrite app_nil_r.
  - rewrite IH, zlen_app, (range_cons (zlen w)) by lia. rewrite fmap_cons, <-app_assoc. simpl.
    do 3 f_equal. change (zlen [f (zlen w)]) with 1. f_equal; lia.
Qed.

Lemma aget_take (m : list Z) (n : nat) (i : Z) : 0 <= i < Z.of_nat n -> (take n m).[i] = m.[i].
Proof. intros Hi. unfold aget. by rewrite !list_lookup_total_alt, lookup_take_lt by lia. Qed.

Lemma words_take (n : nat) (l : list Z) : words l -> words (take n l).
Proof. apply Forall_take. Qed.

Lemma be_bound (l : list Z) (acc : Z) :
  bytes l -> 0 <= acc -> 0 <= be l acc < (acc + 1) * 256 ^ zlen l.
Proof.
  intros Hl. revert acc. induction Hl as [|x l Hx _ IH]; intros acc Ha; [change (zlen []) with 0; rewrite Z.pow_0_r; simpl; lia|].
  simpl. rewrite zlen_cons, Z.pow_add_r, Z.pow_1_r by (pose proof (zlen_nonneg l); lia).
  unfold is_u8 in Hx. change (2 ^ 8) with 256 in Hx. specialize (IH (acc * 256 + x) ltac:(lia)).
  assert (0 < 256 ^ zlen l) by (apply Z.pow_pos_nonneg; [lia|apply zlen_nonneg]).
  set (P := 256 ^ zlen l) in *. split; [lia|]. assert ((acc * 256 + x + 1) * P <= (acc + 1) * 256 * P) by (apply Z.mul_le_mono_nonneg_r; lia). lia.
Qed.

Lemma be4_u32 (l : list Z) : bytes l -> is_u32 (be (take 4 l) 0).
Proof.
  intros Hl. assert (bytes (take 4 l)) as Ht by (by apply Forall_take).
  pose proof (be_bound _ 0 Ht ltac:(lia)) as H. assert (256 ^ zlen (take 4 l) <= 256 ^ 4) as H4.
  { apply Z.pow_le_mono_r; [lia|]. unfold zlen. rewrite length_take. lia. }
  unfold is_u32. change (2 ^ 32) with (256 ^ 4). lia.
Qed.

Lemma block_words_ok (d : list Z) : bytes d -> words (block_words d).
Proof.
  intros Hd. apply Forall_fmap, Forall_forall. intros i _. simpl. by apply be4_u32, Forall_drop.
Qed.

Lemma length_grow (h : list Z -> Z) (n : nat) (w : list Z) : length (grow h n w) = (length w + n)%nat.
Proof. revert w. induction n as [|n IH]; intros w; simpl; [lia|]. rewrite IH, length_app. simpl. lia. Qed.

Lemma SIG_sigma (x : Z) : is_u32 x -> SIG0 x = sigma0 x /\ SIG1 x = sigma1 x.
Proof.
  intros Hx. unfold SIG0, SIG1, sigma0, sigma1. rewrite !ROTR_rotr, !Z.shiftr_div_pow2 by (done || lia). done.
Qed.

Lemma EP_Sigma (x : Z) : is_u32 x -> EP0 x = Sigma0 x /\ EP1 x = Sigma1 x.
Proof. intros Hx. unfold EP0, EP1, Sigma0, Sigma1. rewrite !ROTR_rotr by (done || lia). done. Qed.

Definition load_word (d : list Z) (w : list Z) : Z := u32 (be (take 4 (drop (Z.to_nat (4 * zlen w)) d)) 0).

Lemma block_words_grow (d : list Z) : bytes d -> grow (load_word d) 16 [] = block_words d.
Proof.
  intros Hd. unfold load_word. rewrite (grow_fmap (fun i => u32 (be (take 4 (drop (Z.to_nat (4 * i)) d)) 0))).
  change ((fun i => u32 (be (take 4 (drop (Z.to_nat (4 * i)) d)) 0)) <$> range 0 16 = block_words d).
  apply list_fmap_ext. intros k i _. apply u32_small, be4_u32, Forall_drop, Hd.
Qed.

Lemma expand_extend (junk d : list Z) :
  length junk = 64%nat -> length d = 64%nat -> bytes d -> expand junk d = extend 48 (block_words d).
Proof.
  intros Hj Hd Hb. unfold expand. set (m0 := foldl _ junk _).
  destruct (fill_grow (fun _ i => word_at d (4 * i)) (load_word d) 16 junk []) as [Hl0 Ht0]; [by intros; apply u32_range|constructor| |done|simpl; lia|].
  { intros m' w' _ _ Hw. simpl in Hw. unfold load_word. rewrite u32_small by (by apply be4_u32, Forall_drop).
    apply word_at_be; [done|unfold zlen; lia|unfold zlen; lia]. }
  rewrite block_words_grow in Ht0 by done. change (length m0 = length junk) in Hl0. change (take 16 m0 = block_words d) in Ht0.
  assert (length (block_words d) = 16%nat) as Hlw by done.
  destruct (fill_grow (fun m i => u32 (SIG1 m.[i - 2] + m.[i - 7] + SIG0 m.[i - 15] + m.[i - 16])) next_word 48 m0 (block_words d))
    as [Hl1 Ht1]; [by intros; apply u32_range|by apply block_words_ok| |by rewrite Hlw|lia|].
  - intros m' w' Hw' Ht Hlen. rewrite Hlw in Hlen. unfold next_word.
    assert (forall k, 0 < k <= 16 -> m'.[zlen w' - k] = w'.[zlen w' - k] /\ is_u32 w'.[zlen w' - k]) as Hk.
    { intros k Hk. split; [rewrite Ht at 2; symmetry; apply aget_take; unfold zlen; lia|].
      apply aget_Forall; [done|unfold zlen; lia]. }
    destruct (Hk 2 ltac:(lia)) as [-> H2], (Hk 7 ltac:(lia)) as [-> _], (Hk 15 ltac:(lia)) as [-> H15], (Hk 16 ltac:(lia)) as [-> _].
    by rewrite (proj1 (SIG_sigma _ H15)), (proj2 (SIG_sigma _ H2)).
  - rewrite Hlw in Ht1. change (zlen (block_words d)) with 16 in Hl1, Ht1. change (16 + Z.of_nat 48) with 64 in Hl1, Ht1.
    rewrite extend_grow, <-Ht1. symmetry. apply take_ge. rewrite Hl1. simpl. lia.
Qed.

(** ** Compression *)

Definition vars_ok (v : vars) : Prop :=
  let '(a, b, c, d, e, f, g, h) := v in
  is_u32 a /\ is_u32 b /\ is_u32 c /\ is_u32 d /\ is_u32 e /\ is_u32 f /\ is_u32 g /\ is_u32 h.

Lemma u32_add_mod (a b : Z) : u32 (u32 a + u32 b) = u32 (a + b).
Proof. unfold u32. by rewrite <-Zplus_mod. Qed.
Lemma u32_add_mod_r (a b : Z) : u32 (a + u32 b) = u32 (a + b).
Proof. unfold u32. by rewrite Zplus_mod_idemp_r. Qed.

Lemma round_fips (w : list Z) (v : vars) (i : Z) :
  vars_ok v -> round w v i = fips_round w v i /\ vars_ok (round w v i).
Proof.
  destruct v as [ [ [ [ [ [ [a b] c] d] e] f] g] h].
  intros (Ha & Hb & Hc & Hd & He & Hf & Hg & Hh). split.
  - unfold round, fips_round. rewrite <-K_is_fips. rewrite (proj1 (EP_Sigma a Ha)), (proj2 (EP_Sigma e He)), CH_Ch by done.
    change (MAJ a b c) with (Maj a b c). by rewrite u32_add_mod, u32_add_mod_r.
  - unfold round, vars_ok. split_and!; done || apply u32_range.
Qed.

Lemma rounds_fips (w : list Z) (ts : list Z) (v : vars) :
  vars_ok v -> foldl (round w) v ts = foldl (fips_round w) v ts.
Proof.
  revert v. induction ts as [|i ts IH]; intros v Hv; [done|]. simpl.
  destruct (round_fips w v i Hv) as [E Hv']. by rewrite (IH _ Hv'), E.
Qed.

Lemma transform_compress (junk st d : list Z) :
  length junk = 64%nat -> length st = 8%nat -> words st -> length d = 64%nat -> bytes d ->
  sha256_transform junk st d = compress st d.
Proof.
  intros Hj Hs Hw Hd Hb. unfold sha256_transform, compress. rewrite expand_extend by done.
  assert (forall i, 0 <= i < 8 -> is_u32 st.[i]) as Hi by (intros i Hi; apply aget_Forall; [done|unfold zlen; lia]).
  rewrite rounds_fips by (unfold vars_ok; split_and!; apply Hi; lia).
  destruct (foldl _ _ _) as [ [ [ [ [ [ [a b] c] d'] e] f] g] h].
  by rewrite (Z.add_comm a), (Z.add_comm b), (Z.add_comm c), (Z.add_comm d'), (Z.add_comm e), (Z.add_comm f), (Z.add_comm g), (Z.add_comm h).
Qed.

Lemma compress_ok (st d : list Z) : length (compress st d) = 8%nat /\ words (compress st d).
Proof.
  unfold compress. destruct (foldl _ _ _) as [ [ [ [ [ [ [a b] c] d'] e] f] g] h].
  split; [done|]. repeat (constructor; [apply u32_range|]). constructor.
Qed.

(** ** Streaming *)

(** Hash and pending bytes of a block; a full block is compressed. *)
Definition push (s : list Z * list Z) (x : Z) : list Z * list Z :=
  let p := s.2 ++ [x] in
  if decide (length p = 64%nat) then (compress s.1 p, []) else (s.1, p).

Lemma push_pending (H p l : list Z) :
  (length p + length l < 64)%nat -> foldl push (H, p) l = (H, p ++ l).
Proof.
  revert p. induction l as [|x l IH]; intros p Hl; simpl in *; [by rewrite app_nil_r|].
  unfold push at 2. cbn [fst snd]. rewrite decide_False by (rewrite length_app; simpl; lia).
  rewrite IH by (rewrite length_app; simpl; lia). by rewrite <-app_assoc.
Qed.

Lemma push_block (H p l : list Z) :
  l <> [] -> (length p + length l = 64)%nat -> foldl push (H, p) l = (compress H (p ++ l), []).
Proof.
  intros Hn Hl. destruct l as [|x l _] using rev_ind; [done|]. rewrite length_app in Hl. simpl in Hl.
  rewrite foldl_app, push_pending by lia. simpl. unfold push. cbn [fst snd].
  rewrite decide_True by (rewrite !length_app; simpl; lia). by rewrite app_assoc.
Qed.

Lemma push_blocks (n : nat) (H l : list Z) :
  length l = (n * 64)%nat -> foldl push (H, []) l = (foldl compress H (blocks n l), []).
Proof.
  revert H l. induction n as [|n IH]; intros H l Hl; [by destruct l|].
  rewrite <-(take_drop 64 l) at 1. rewrite foldl_app, push_block.
  - simpl app. rewrite IH; [done|]. rewrite length_drop. lia.
  - intros E%(f_equal length). rewrite length_take in E. change (length []) with 0%nat in E. lia.
  - rewrite length_take. change (length []) with 0%nat. lia.
Qed.

(** What a context holds after the bytes [msg]. *)
Record absorbed (msg : list Z) (ctx : sha256_ctx) (s : list Z * list Z) : Prop := {
  ab_push : s = foldl push (H0, []) msg;
  ab_state : state ctx = s.1;
  ab_state_ok : length (state ctx) = 8%nat /\ words (state ctx);
  ab_data : length (data ctx) = 64%nat;
  ab_pending : take (Z.to_nat (datalen ctx)) (data ctx) = s.2;
  ab_len : datalen ctx = zlen msg mod 64;
  ab_bits : bitlen ctx = u64 (512 * (zlen msg / 64));
  ab_bytes : bytes msg;
  ab_data_bytes : bytes (data ctx);
}.

Lemma absorbed_byte (junk msg : list Z) (ctx : sha256_ctx) (s : list Z * list Z) (x : Z) :
  length junk = 64%nat -> absorbed msg ctx s -> is_u8 x -> absorbed (msg ++ [x]) (update_byte junk ctx x) (push s x).
Proof.
  intros Hj [Hp Hs [Hs8 Hsw] Hd Hpe Hl Hb Hm Hdb] Hx. set (n := datalen ctx) in *.
  assert (0 <= n < 64) as Hn by (rewrite Hl; apply Z.mod_pos_bound; lia).
  set (d := (data ctx).[n <- x]).
  assert (length d = 64%nat) as Hd' by (unfold d, aset; by rewrite length_insert).
  assert (bytes d) as Hdb' by (by apply aset_Forall).
  assert (take (S (Z.to_nat n)) d = s.2 ++ [x]) as Ht.
  { rewrite (take_S_r d (Z.to_nat n) x).
    - f_equal. rewrite <-Hpe. unfold d, aset. by rewrite take_insert_ge.
    - unfold d, aset. apply list_lookup_insert_eq. lia. }
  assert (length (s.2 ++ [x]) = S (Z.to_nat n)) as Hlen by (rewrite <-Ht, length_take; lia).
  assert (push s x = foldl push (H0, []) (msg ++ [x])) as Hpush by (by rewrite foldl_app, <-Hp).
  assert (zlen (msg ++ [x]) = zlen msg + 1) as Hz by (by rewrite zlen_app).
  assert (bytes (msg ++ [x])) as Hm' by (apply Forall_app; split; [done|by apply Forall_singleton]).
  unfold update_byte. fold n. fold d. rewrite u32_small by (unfold is_u32; lia).
  assert (push s x = if n + 1 =? 64 then (compress s.1 (s.2 ++ [x]), []) else (s.1, s.2 ++ [x])) as Hps.
  { unfold push. destruct (Z.eqb_spec (n + 1) 64); [rewrite decide_True by lia|rewrite decide_False by lia]; done. }
  rewrite Hps in *. destruct (Z.eqb_spec (n + 1) 64) as [E|E].
  - assert (d = s.2 ++ [x]) as Hds by (rewrite <-Ht, take_ge; [done|lia]).
    rewrite (transform_compress junk (state ctx) d) by done.
    constructor; cbn [state data datalen bitlen fst snd]; try done.
    + by rewrite Hs, Hds.
    + apply compress_ok.
    + rewrite Hz. pose proof (Z.div_mod (zlen msg) 64). dlia.
    + rewrite Hb, Hz. replace ((zlen msg + 1) / 64) with (zlen msg / 64 + 1) by dlia.
      unfold u64. rewrite Zplus_mod_idemp_l. f_equal. lia.
  - constructor; cbn [state data datalen bitlen fst snd]; try done.
    + by replace (Z.to_nat (n + 1)) with (S (Z.to_nat n)) by lia.
    + rewrite Hz. dlia.
    + rewrite Hb, Hz. do 2 f_equal. dlia.
Qed.

Lemma absorbed_update (junk xs msg : list Z) (ctx : sha256_ctx) (s : list Z * list Z) :
  length junk = 64%nat -> absorbed msg ctx s -> bytes xs ->
  absorbed (msg ++ xs) (sha256_update junk ctx xs) (foldl push s xs).
Proof.
  intros Hj. revert msg ctx s. induction xs as [|x xs IH]; intros msg ctx s Hab Hx; [by rewrite app_nil_r|].
  apply Forall_cons in Hx as [Hx Hxs]. simpl.
  replace (msg ++ x :: xs) with ((msg ++ [x]) ++ xs) by (by rewrite <-app_assoc).
  apply IH; [|done]. by apply absorbed_byte.
Qed.

Lemma fill_zero_spec (n lo : nat) (d : list Z) :
  (lo + n <= length d)%nat ->
  fill_zero d (Z.of_nat lo) (Z.of_nat (lo + n)) = take lo d ++ replicate n 0 ++ drop (lo + n) d.
Proof.
  unfold fill_zero. revert lo d. induction n as [|n IH]; intros lo d Hl.
  - rewrite range_nil by lia. rewrite Nat.add_0_r. simpl. by rewrite take_drop.
  - rewrite range_cons by lia. cbn [foldl]. replace (Z.of_nat lo + 1) with (Z.of_nat (S lo)) by lia.
    replace (lo + S n)%nat with (S lo + n)%nat by lia. rewrite IH by (unfold aset; rewrite length_insert; lia).
    unfold aset. rewrite Nat2Z.id. rewrite (take_S_r _ lo 0) by (apply list_lookup_insert_eq; lia).
    rewrite take_insert_ge, drop_insert_lt by lia. by rewrite <-app_assoc.
Qed.

Lemma be64_bytes (n : Z) :
  be64 n = [u8 (Z.shiftr n 56); u8 (Z.shiftr n 48); u8 (Z.shiftr n 40); u8 (Z.shiftr n 32);
            u8 (Z.shiftr n 24); u8 (Z.shiftr n 16); u8 (Z.shiftr n 8); u8 n].
Proof.
  rewrite !Z.shiftr_div_pow2 by lia. unfold be64. change (range 0 8) with [0; 1; 2; 3; 4; 5; 6; 7].
  assert (u8 n = u8 (n / 1)) as -> by (by rewrite Z.div_1_r). reflexivity.
Qed.

Lemma store_len_spec (d : list Z) (n : Z) : length d = 64%nat -> store_len d n = take 56 d ++ be64 n.
Proof.
  intros Hd. rewrite be64_bytes, <-(take_drop 56 d) at 1.
  assert (length (take 56 d) = 56%nat) as H1 by (rewrite length_take; lia).
  assert (length (drop 56 d) = 8%nat) as H2 by (rewrite length_drop; lia).
  destruct (drop 56 d) as [|x0 [|x1 [|x2 [|x3 [|x4 [|x5 [|x6 [|x7 [|] ] ] ] ] ] ] ] ]; try done.
  set (l := take 56 d) in *. clearbody l. unfold store_len, aset.
  assert (forall k v r, (k < 8)%nat -> <[(56 + k)%nat := v]> (l ++ r) = l ++ <[k := v]> r) as E.
  { intros k v r _. rewrite insert_app_r_alt by lia. do 2 f_equal. lia. }
  change (Z.to_nat 63) with (56 + 7)%nat. change (Z.to_nat 62) with (56 + 6)%nat. change (Z.to_nat 61) with (56 + 5)%nat.
  change (Z.to_nat 60) with (56 + 4)%nat. change (Z.to_nat 59) with (56 + 3)%nat. change (Z.to_nat 58) with (56 + 2)%nat.
  change (Z.to_nat 57) with (56 + 1)%nat. change (Z.to_nat 56) with (56 + 0)%nat.
  rewrite !E by lia. reflexivity.
Qed.

Lemma store_hash_spec (st hash : list Z) :
  length st = 8%nat -> length hash = 32%nat -> store_hash st hash = st ≫= be32.
Proof.
  intros Hs Hh. assert (forall w, be32 w = word_byte w <$> range 0 4) as E.
  { intros w. unfold be32. change (range 0 4) with [0; 1; 2; 3]. unfold word_byte. simpl.
    assert (forall k, Z.land k 255 = k mod 256) as L by (intros k; apply (Z.land_ones k 8); lia).
    rewrite !L, !Z.shiftr_div_pow2 by lia. reflexivity. }
  assert (st ≫= be32 = st ≫= (fun w => word_byte w <$> range 0 4)) as ->.
  { clear -E. induction st as [|w st IH]; [done|]. by rewrite !bind_cons, E, IH. }
  destruct st as [|s0 [|s1 [|s2 [|s3 [|s4 [|s5 [|s6 [|s7 [|] ] ] ] ] ] ] ] ]; try done.
  do 32 (destruct hash as [|? hash]; [done|]). destruct hash; [|done]. reflexivity.
Qed.

Lemma bytes_replicate (n : nat) : bytes (replicate n 0).
Proof. apply Forall_replicate. unfold is_u8. lia. Qed.

Lemma be64_ok (n : Z) : bytes (be64 n) /\ length (be64 n) = 8%nat.
Proof. split; [|done]. apply Forall_fmap, Forall_forall. intros i _. simpl. unfold is_u8. apply Z.mod_pos_bound. lia. Qed.

Lemma length_padding (len : Z) : 0 <= len -> Z.of_nat (length (padding len)) = (55 - len) mod 64 + 9.
Proof.
  intros H. unfold padding. rewrite length_cons, length_app, length_replicate, (proj2 (be64_ok _)).
  pose proof (Z.mod_pos_bound (55 - len) 64). lia.
Qed.

(** The last bytes of the message in the buffer, the one bit after them. *)
Lemma marked (msg : list Z) (ctx : sha256_ctx) (s : list Z * list Z) :
  absorbed msg ctx s ->
  let n := datalen ctx in let d := (data ctx).[n <- 0x80] in
  0 <= n < 64 /\ length d = 64%nat /\ bytes d /\ take (Z.to_nat (n + 1)) d = s.2 ++ [0x80] /\ zlen s.2 = n.
Proof.
  intros Hab n d. assert (0 <= n < 64) as Hn by (unfold n; rewrite (ab_len _ _ _ Hab); apply Z.mod_pos_bound; lia).
  pose proof (ab_data _ _ _ Hab) as Hd. split_and!; [lia|lia|by unfold d, aset; rewrite length_insert| | |].
  - apply aset_Forall; [apply (ab_data_bytes _ _ _ Hab)|done].
  - replace (Z.to_nat (n + 1)) with (S (Z.to_nat n)) by lia. unfold d, aset.
    rewrite (take_S_r _ (Z.to_nat n) 0x80) by (apply list_lookup_insert_eq; lia).
    rewrite take_insert_ge by lia. unfold n. by rewrite (ab_pending _ _ _ Hab).
  - unfold zlen. rewrite <-(ab_pending _ _ _ Hab), length_take. fold n. lia.
Qed.

(** The buffer [d] with the last [n] bytes [p] of a message of [len] bytes, marked. *)
Section padding_blocks.
Context (d p : list Z) (n len : Z).
Hypothesis (Hn : 0 <= n < 64) (Hd : length d = 64%nat) (Ht : take (Z.to_nat (n + 1)) d = p ++ [0x80]).
Hypothesis (Hz : zlen p = n) (Hl : n = len mod 64).

Lemma fill_zero_marked (hi : Z) :
  n < hi <= 64 -> fill_zero d (n + 1) hi = (p ++ [0x80]) ++ replicate (Z.to_nat (hi - 1 - n)) 0 ++ drop (Z.to_nat hi) d.
Proof using Hd Hn Ht.
  intros Hh. pose proof (fill_zero_spec (Z.to_nat (hi - 1 - n)) (Z.to_nat (n + 1)) d ltac:(lia)) as E.
  replace (Z.to_nat (n + 1) + Z.to_nat (hi - 1 - n))%nat with (Z.to_nat hi) in E by lia.
  rewrite !Z2Nat.id in E by lia. by rewrite E, Ht.
Qed.

(** The mark, the zeros and the length fit into the block. *)
Lemma pad_short (bits : Z) :
  n < 56 -> bits = 8 * len -> store_len (fill_zero d (n + 1) 56) bits = p ++ padding len.
Proof using Hd Hl Hn Ht Hz.
  intros Hlt ->. rewrite fill_zero_marked, app_assoc by lia.
  set (b := (p ++ [0x80]) ++ replicate (Z.to_nat (56 - 1 - n)) 0).
  assert (length b = 56%nat) as Hbl by (unfold b, zlen in *; rewrite !length_app, length_replicate; simpl; lia).
  rewrite store_len_spec by (rewrite length_app, length_drop; lia). rewrite take_app_length' by done.
  unfold b, padding. replace ((55 - len) mod 64) with (56 - 1 - n) by (rewrite Hl; dlia). by rewrite <-!app_assoc.
Qed.

(** They take a block more. *)
Lemma pad_long (bits : Z) :
  56 <= n -> bits = 8 * len ->
  let b := fill_zero d (n + 1) 64 in
  b = p ++ 0x80 :: replicate (Z.to_nat (63 - n)) 0 /\ store_len (fill_zero b 0 56) bits = replicate 56 0 ++ be64 (8 * len) /\
  padding len = (0x80 :: replicate (Z.to_nat (63 - n)) 0) ++ replicate 56 0 ++ be64 (8 * len).
Proof using Hd Hl Hn Ht Hz.
  intros Hge ->. cbv zeta. rewrite fill_zero_marked by lia. rewrite drop_ge, app_nil_r, <-app_assoc by lia.
  set (b := p ++ [0x80] ++ replicate (Z.to_nat (64 - 1 - n)) 0).
  assert (length b = 64%nat) as Hbl by (unfold b, zlen in *; rewrite !length_app, length_replicate; simpl; lia).
  assert (fill_zero b 0 56 = replicate 56 0 ++ drop 56 b) as -> by (apply (fill_zero_spec 56 0 b); lia).
  split_and!; [done| |].
  - rewrite store_len_spec by (rewrite length_app, length_drop, length_replicate; lia). by rewrite take_app_length' by done.
  - unfold padding. replace ((55 - len) mod 64) with (63 - n + 56) by (rewrite Hl; dlia).
    rewrite Z2Nat.inj_add, replicate_add by lia. simpl. by rewrite <-app_assoc.
Qed.
End padding_blocks.

Lemma bytes_padding (len : Z) : bytes (padding len).
Proof. constructor; [done|]. apply Forall_app. split; [apply bytes_replicate|apply be64_ok]. Qed.

(** The hash that [sha256_final] stores is that of the message with its padding. *)
Lemma final_push (junk msg hash : list Z) (ctx : sha256_ctx) (s : list Z * list Z) :
  length junk = 64%nat -> length hash = 32%nat -> absorbed msg ctx s -> 8 * zlen msg < 2 ^ 64 ->
  sha256_final junk ctx hash = (foldl push s (padding (zlen msg))).1 ≫= be32.
Proof.
  intros Hj Hh Hab Hbig. destruct (marked msg ctx s Hab) as (Hn & Hd & Hdb & Ht & Hz).
  pose proof (ab_len _ _ _ Hab) as Hl. pose proof (ab_bits _ _ _ Hab) as Hb. destruct (ab_state_ok _ _ _ Hab) as [Hs8 Hsw].
  pose proof (ab_state _ _ _ Hab) as Hst. unfold sha256_final. set (n := datalen ctx) in *. set (d := (data ctx).[n <- 0x80]) in *.
  assert (u64 (bitlen ctx + n * 8) = 8 * zlen msg) as Hbits.
  { rewrite Hb, Hl. unfold u64. rewrite Zplus_mod_idemp_l. rewrite Z.mod_small; pose proof (zlen_nonneg msg); dlia. }
  destruct s as [H p]. cbn [fst snd] in *.
  pose proof (length_padding (zlen msg) (zlen_nonneg msg)) as Hp.
  assert (bytes p) as Hpb. { apply (Forall_take _ (Z.to_nat (n + 1))) in Hdb. rewrite Ht in Hdb. by apply Forall_app in Hdb as [? _]. }
  destruct (Z.ltb_spec n 56) as [Hlt|Hge].
  - rewrite (pad_short d p n (zlen msg)) by done. assert (length p + length (padding (zlen msg)) = 64)%nat as H64.
    { unfold zlen in Hz. replace ((55 - zlen msg) mod 64) with (55 - n) in Hp by (rewrite Hl; dlia). lia. }
    rewrite push_block by done. cbn [fst].
    rewrite transform_compress, Hst; [apply store_hash_spec; [apply compress_ok|done]|done|done|done|by rewrite length_app|].
    apply Forall_app. split; [done|apply bytes_padding].
  - cbv zeta. destruct (pad_long d p n (zlen msg) Hn Hd Ht Hz Hl _ Hge Hbits) as (-> & -> & ->).
    set (b := p ++ _). assert (length b = 64%nat) as Hbl.
    { unfold b. rewrite length_app, length_cons, length_replicate. unfold zlen in Hz. lia. }
    assert (bytes b) as Hbb by (apply Forall_app; split; [done|constructor; [done|apply bytes_replicate] ]).
    rewrite foldl_app, push_block by (done || (rewrite <-length_app; exact Hbl)). fold b.
    rewrite push_block by (done || reflexivity). cbn [fst]. rewrite app_nil_l.
    rewrite (transform_compress junk (state ctx) b), Hst by done.
    rewrite transform_compress; try done; try apply compress_ok.
    + apply store_hash_spec; [apply compress_ok|done].
    + apply Forall_app. split; [apply bytes_replicate|apply be64_ok].
Qed.

(** C40: however a message of less than 2^61 bytes is cut into calls of [sha256_update],
    [sha256_final] yields the digest that FIPS 180-4 defines for it, whatever the buffers
    held before. *)
Theorem sha256_streaming (junk d hash : list Z) (xss : list (list Z)) :
  length junk = 64%nat -> length d = 64%nat -> bytes d -> length hash = 32%nat -> bytes (concat xss) ->
  8 * zlen (concat xss) < 2 ^ 64 ->
  sha256_final junk (foldl (sha256_update junk) (sha256_init d) xss) hash = digest (concat xss).
Proof.
  intros Hj Hd Hdb Hh Hx Hbig.
  assert (foldl (sha256_update junk) (sha256_init d) xss = sha256_update junk (sha256_init d) (concat xss)) as ->.
  { generalize (sha256_init d). clear. induction xss as [|xs xss IH]; intros c; [done|].
    cbn [foldl concat]. rewrite IH. unfold sha256_update. by rewrite foldl_app. }
  assert (absorbed [] (sha256_init d) (H0, [])) as Hab.
  { constructor; try done; [|by constructor]. split; [done|]. unfold words, is_u32. repeat (constructor; [lia|]). constructor. }
  apply (absorbed_update junk (concat xss)) in Hab; [|done|done]. rewrite app_nil_l in Hab.
  rewrite (final_push junk (concat xss) hash _ _ Hj Hh Hab Hbig), <-foldl_app. unfold digest. rewrite <-H0_is_fips. fold (pad (concat xss)).
  rewrite (push_blocks (length (pad (concat xss)) / 64)); [done|].
  pose proof (length_padding (zlen (concat xss)) (zlen_nonneg _)) as Hp. unfold pad. rewrite length_app.
  apply Nat2Z.inj. rewrite Nat2Z.inj_mul, Nat2Z.inj_div, Nat2Z.inj_add, Hp. fold (zlen (concat xss)).
  set (len := zlen (concat xss)). change (Z.of_nat 64) with 64. dlia.
Qed.

Lemma sha256_streaming_witness :
  sha256_final (replicate 64 7) (foldl (sha256_update (replicate 64 7)) (sha256_init (replicate 64 9)) [[97]; []; [98; 99] ])
    (replicate 32 5) =
  [0xba; 0x78; 0x16; 0xbf; 0x8f; 0x01; 0xcf; 0xea; 0x41; 0x41; 0x40; 0xde; 0x5d; 0xae; 0x22; 0x23;
   0xb0; 0x03; 0x61; 0xa3; 0x96; 0x17; 0x7a; 0x9c; 0xb4; 0x10; 0xff; 0x61; 0xf2; 0x00; 0x15; 0xad].
Proof.
  rewrite (sha256_streaming (replicate 64 7) (replicate 64 9) (replicate 32 5) [[97]; []; [98; 99] ]).
  - vm_compute. reflexivity.
  - reflexivity.
  - reflexivity.
  - apply Forall_replicate. done.
  - reflexivity.
  - repeat (constructor; [done|]). constructor.
  - reflexivity.
Defined.
End Sha256.

Module Crc32.

Definition crc32c_poly : Z := 0x82F63B78.

(** [crc32_table] and [crc32_table_init_done]. *)
Record crc_state := mk_crc { crc32_table : list Z; init_done : Z }.

(** The body of the loop over the bits. *)
Definition crc_bit (crc : Z) : Z :=
  if c_true (Z.land crc 1) then Z.lxor (Z.shiftr crc 1) crc32c_poly else Z.shiftr crc 1.
Definition crc_bits (crc : Z) : Z := foldl (fun crc _ => crc_bit crc) crc (range 0 8).

Definition crc32_init_tables (s : crc_state) : crc_state :=
  if c_true (init_done s) then s
  else mk_crc (foldl (fun t i => t.[i <- crc_bits i]) (crc32_table s) (range 0 256)) 1.

Definition crypto_crc32_init (s : crc_state) : crc_state := crc32_init_tables s.

Definition crypto_crc32c (crc : Z) (buf : list Z) (s : crc_state) : Z * crc_state :=
  let s := if c_true (init_done s) then s else crc32_init_tables s in
  let crc := Z.lxor crc 0xFFFFFFFF in
  let crc := foldl (fun crc b => Z.lxor (Z.shiftr crc 8) (crc32_table s).[Z.land (Z.lxor crc b) 0xFF]) crc buf in
  (Z.lxor crc 0xFFFFFFFF, s).
Definition crypto_crc32 (crc : Z) (buf : list Z) (s : crc_state) : Z * crc_state := crypto_crc32c crc buf s.

(** ** The bitwise definition *)

Definition crc32c (crc : Z) (buf : list Z) : Z :=
  Z.lxor (foldl (fun crc b => crc_bits (Z.lxor crc b)) (Z.lxor crc 0xFFFFFFFF) buf) 0xFFFFFFFF.

(** Division by the polynomial is linear. *)
Lemma crc_bit_alt (c : Z) : crc_bit c = Z.lxor (Z.shiftr c 1) (if Z.odd c then crc32c_poly else 0).
Proof.
  unfold crc_bit, c_true. change 1 with (Z.ones 1) at 1. rewrite Z.land_ones, Z.pow_1_r, Zmod_odd by lia.
  destruct (Z.odd c); simpl; [done|]. by rewrite Z.lxor_0_r.
Qed.

Lemma odd_lxor (a b : Z) : Z.odd (Z.lxor a b) = xorb (Z.odd a) (Z.odd b).
Proof. by rewrite <-!Z.bit0_odd, Z.lxor_spec. Qed.

Lemma crc_bit_lxor (a b : Z) : crc_bit (Z.lxor a b) = Z.lxor (crc_bit a) (crc_bit b).
Proof.
  rewrite !crc_bit_alt, Z.shiftr_lxor, odd_lxor. apply Z.bits_inj'. intros i _. rewrite !Z.lxor_spec.
  destruct (Z.odd a), (Z.odd b); simpl; rewrite ?Z.bits_0; repeat destruct (Z.testbit _ i); done.
Qed.

Lemma crc_bits_iter (c : Z) : crc_bits c = crc_bit (crc_bit (crc_bit (crc_bit (crc_bit (crc_bit (crc_bit (crc_bit c))))))).
Proof. reflexivity. Qed.

Lemma crc_bits_lxor (a b : Z) : crc_bits (Z.lxor a b) = Z.lxor (crc_bits a) (crc_bits b).
Proof. by rewrite !crc_bits_iter, !crc_bit_lxor. Qed.

Lemma crc_bit_even (c : Z) : crc_bit (2 * c) = c.
Proof.
  rewrite crc_bit_alt, Z.odd_mul. cbn [Z.odd andb]. rewrite Z.lxor_0_r, Z.shiftr_div_pow2, Z.pow_1_r by lia.
  rewrite Z.mul_comm. apply Z.div_mul. lia.
Qed.

Lemma crc_bits_shift (c : Z) : crc_bits (256 * c) = c.
Proof.
  rewrite crc_bits_iter. replace (256 * c) with (2 * (2 * (2 * (2 * (2 * (2 * (2 * (2 * c)))))))) by lia.
  by rewrite !crc_bit_even.
Qed.

(** One byte: the table entry of the low byte, and the rest shifted. *)
Lemma crc_byte (c b : Z) :
  0 <= c -> is_u8 b -> crc_bits (Z.lxor c b) = Z.lxor (Z.shiftr c 8) (crc_bits (Z.land (Z.lxor c b) 0xFF)).
Proof.
  intros Hc Hb. set (x := Z.lxor c b).
  assert (x = Z.lxor (256 * Z.shiftr x 8) (Z.land x 0xFF)) as E.
  { apply Z.bits_inj'. intros i Hi. change 256 with (2 ^ 8). change 0xFF with (Z.ones 8).
    rewrite Z.lxor_spec, Z.land_spec, Z.testbit_ones_nonneg, Z.mul_comm, Z.mul_pow2_bits by lia.
    destruct (Z.ltb_spec i 8).
    - rewrite (Z.testbit_neg_r (Z.shiftr x 8)), andb_true_r by lia. by destruct (Z.testbit x i).
    - rewrite Z.shiftr_spec, andb_false_r, xorb_false_r by lia. f_equal. lia. }
  rewrite E at 1. rewrite crc_bits_lxor, crc_bits_shift. f_equal. unfold x. rewrite Z.shiftr_lxor.
  rewrite (Z.shiftr_div_pow2 b) by lia. rewrite (Z.div_small b) by apply Hb. apply Z.lxor_0_r.
Qed.

Lemma table_loop (t : list Z) (n : nat) :
  (n <= length t)%nat ->
  forall i, 0 <= i < Z.of_nat n -> (foldl (fun t i => t.[i <- crc_bits i]) t (range 0 (Z.of_nat n))).[i] = crc_bits i.
Proof.
  assert (forall n, length (foldl (fun t i => t.[i <- crc_bits i]) t (range 0 (Z.of_nat n))) = length t) as Hlen.
  { intros m. induction m as [|m IH]; [reflexivity|]. rewrite foldl_range_S. unfold aset at 1. by rewrite length_insert. }
  induction n as [|n IH]; intros Hn i Hi; [lia|]. rewrite foldl_range_S.
  destruct (Z.eq_dec i (Z.of_nat n)) as [->|].
  - apply aget_aset_eq. unfold zlen. rewrite Hlen. lia.
  - rewrite aget_aset_ne by lia. apply IH; lia.
Qed.

(** The table is either not built yet or right. *)
Definition crc_ok (s : crc_state) : Prop :=
  length (crc32_table s) = 256%nat /\
  (init_done s = 0 \/ init_done s = 1 /\ forall i, 0 <= i < 256 -> (crc32_table s).[i] = crc_bits i).

Lemma crc32_init_tables_ok (s : crc_state) :
  crc_ok s -> crc_ok (crc32_init_tables s) /\ init_done (crc32_init_tables s) = 1.
Proof.
  intros [Hl [H|[H Ht] ] ]; unfold crc32_init_tables; rewrite H; cbn [c_true Z.eqb negb].
  - split; [split|done]; cbn [crc32_table init_done].
    + clear -Hl. change (range 0 256) with (range 0 (Z.of_nat 256)). generalize 256%nat at 1. intros n.
      induction n as [|n IH]; [exact Hl|]. rewrite foldl_range_S. unfold aset at 1. by rewrite length_insert.
    + right. split; [done|]. apply (table_loop (crc32_table s) 256). lia.
  - split; [|done]. split; [done|]. by right.
Qed.

Lemma crc_bits_nonneg (c : Z) : 0 <= c -> 0 <= crc_bits c.
Proof.
  assert (forall c, 0 <= c -> 0 <= crc_bit c) as H.
  { intros x Hx. rewrite crc_bit_alt. apply Z.lxor_nonneg. split; intros _; [destruct (Z.odd x); done|].
    by apply Z.shiftr_nonneg. }
  intros Hc. rewrite crc_bits_iter. by repeat apply H.
Qed.

(** From any state of its lazily built table, [crypto_crc32c] computes the bitwise
    CRC-32C of the buffer, leaves the table right, and continues a computation: the CRC of
    a concatenation is that of the second part started from the CRC of the first. *)
Theorem crc32c_correct (crc : Z) (buf buf' : list Z) (s : crc_state) :
  is_u32 crc -> Forall is_u8 buf -> crc_ok s ->
  let '(r, s') := crypto_crc32c crc buf s in
  r = crc32c crc buf /\ crc_ok s' /\ crc32c crc (buf ++ buf') = crc32c r buf'.
Proof.
  intros Hc Hb Hs. unfold crypto_crc32c. cbv zeta.
  set (s' := if c_true (init_done s) then s else crc32_init_tables s).
  assert (crc_ok s' /\ init_done s' = 1) as [Hs' Hd].
  { unfold s'. destruct (crc32_init_tables_ok s Hs) as [Hi Hd]. destruct Hs as [Hl [H|[H Ht] ] ]; rewrite H; [done|].
    split; [|done]. split; [done|by right]. }
  destruct Hs' as [Hl [H|[_ Ht] ] ]; [by rewrite H in Hd|].
  assert (forall buf c, Forall is_u8 buf -> 0 <= c ->
    foldl (fun c b => Z.lxor (Z.shiftr c 8) (crc32_table s').[Z.land (Z.lxor c b) 0xFF]) c buf =
    foldl (fun c b => crc_bits (Z.lxor c b)) c buf) as E.
  { clear -Ht. induction buf as [|b buf IH]; intros c Hb Hc; [done|]. apply Forall_cons in Hb as [Hb Hbs]. simpl.
    assert (0 <= Z.lxor c b) as Hx by (apply Z.lxor_nonneg; unfold is_u8 in Hb; lia).
    rewrite Ht by (change 0xFF with (Z.ones 8); rewrite Z.land_ones by lia; apply Z.mod_pos_bound; lia).
    rewrite <-crc_byte by done. apply IH; [done|]. by apply crc_bits_nonneg. }
  rewrite E; [|done|apply Z.lxor_nonneg; unfold is_u32 in Hc; lia].
  split_and!; [done|split; [done|by right]|]. unfold crc32c.
  by rewrite foldl_app, Z.lxor_assoc, Z.lxor_nilpotent, Z.lxor_0_r.
Qed.

(** The check value of CRC-32C. *)
Lemma crc32c_correct_witness :
  (crypto_crc32c 0 [49; 50; 51; 52; 53; 54; 55; 56; 57] (mk_crc (replicate 256 0) 0)).1 = 0xE3069283.
Proof.
  pose proof (crc32c_correct 0 [49; 50; 51; 52; 53; 54; 55; 56; 57] [] (mk_crc (replicate 256 0) 0)) as H.
  destruct (crypto_crc32c 0 [49; 50; 51; 52; 53; 54; 55; 56; 57] (mk_crc (replicate 256 0) 0)) as [r s'].
  cbn [fst]. destruct H as [-> _].
  - done.
  - repeat (constructor; [done|]). constructor.
  - split; [done|by left].
  - vm_compute. reflexivity.
Defined.

(** [crypto_crc32] is named after the CRC of IEEE 802.3, whose check value is 0xCBF43926, and
    computes CRC-32C. *)
Lemma crc32_is_crc32c :
  (crypto_crc32 0 [49; 50; 51; 52; 53; 54; 55; 56; 57] (mk_crc (replicate 256 0) 0)).1 = 0xE3069283.
Proof. vm_compute. reflexivity. Qed.
End Crc32.
