(* ===== verification/BlockCache.v ===== *)
(** * The block cache (src/fs/cache.c)

    [Module BlockCache]: the entries in memory with their two chains, a hash chain per
    bucket and the LRU list, and the operations as a state monad with faults (FaultM.v).
    Every sequence of operations keeps the chains well formed and refines a partial map from
    block numbers to contents, the resident blocks ([cache_refines]): a write or a hit is
    answered from the entry of the block, whatever was moved, flushed, prefetched or evicted
    before, and nothing but an eviction or an invalidation removes a block.

    The allocator and the drive are interfaces: [Memory] gives the address of a new block of
    memory or null and its first content, [Device] says which transfers fail.
    [ide_read_sectors] and [ide_write_sectors] (src/drivers/ide.c) move [count] sectors of
    512 bytes between the drive, [disk], and a buffer; a transfer past the end of the buffer
    is a fault.  They take the sector number before the count, and cache.c passes the count
    first: the call [ide_read_sectors(0, 8, lba, buf)] is modelled as the compiler reads it,
    sector 8 and a count of [lba] modulo 256.  The theorems are about the blocks whose
    transfer stays inside the buffer ([fits]); for the others a miss overruns it
    ([read_miss_overruns]).  [lock_cache] on the lock that is held already is a fault: it
    never returns. *)

From S2P Require Import Prelude FaultM Dll.

Module BlockCache.

Definition CACHE_HASH_SIZE : Z := 1024.

Record cache_entry := mk_entry {
  block_num : Z; data : list Z; dirty : Z; valid : Z; ref_count : Z; access_time : Z;
  hash_next : Z; hash_prev : Z; lru_next : Z; lru_prev : Z;
}.
Definition eta_cache_entry (e : cache_entry) : cache_entry :=
  mk_entry (block_num e) (data e) (dirty e) (valid e) (ref_count e) (access_time e)
    (hash_next e) (hash_prev e) (lru_next e) (lru_prev e).
Definition set_data (v : list Z) (e : cache_entry) : cache_entry := ltac:(set_field eta_cache_entry e data v).
Definition set_dirty (v : Z) (e : cache_entry) : cache_entry := ltac:(set_field eta_cache_entry e dirty v).
Definition set_ref_count (v : Z) (e : cache_entry) : cache_entry := ltac:(set_field eta_cache_entry e ref_count v).
Definition set_access_time (v : Z) (e : cache_entry) : cache_entry := ltac:(set_field eta_cache_entry e access_time v).
Definition set_hash_next (v : Z) (e : cache_entry) : cache_entry := ltac:(set_field eta_cache_entry e hash_next v).
Definition set_hash_prev (v : Z) (e : cache_entry) : cache_entry := ltac:(set_field eta_cache_entry e hash_prev v).
Definition set_lru_next (v : Z) (e : cache_entry) : cache_entry := ltac:(set_field eta_cache_entry e lru_next v).
Definition set_lru_prev (v : Z) (e : cache_entry) : cache_entry := ltac:(set_field eta_cache_entry e lru_prev v).

(** The static variables, the entries, the disk, and the numbers of transfers and of
    allocations so far. *)
Record cache := mk_cache {
  entries : gmap Z cache_entry; cache_hash : list Z; lru_head : Z; lru_tail : Z; locked : bool;
  cache_hits : Z; cache_misses : Z; cache_time : Z; max_cache_entries : Z;
  disk : Z -> list Z; ios : Z; mallocs : Z;
}.
Definition eta_cache (c : cache) : cache :=
  mk_cache (entries c) (cache_hash c) (lru_head c) (lru_tail c) (locked c) (cache_hits c) (cache_misses c)
    (cache_time c) (max_cache_entries c) (disk c) (ios c) (mallocs c).
Definition set_entries (v : gmap Z cache_entry) (c : cache) : cache := ltac:(set_field eta_cache c entries v).
Definition set_cache_hash (v : list Z) (c : cache) : cache := ltac:(set_field eta_cache c cache_hash v).
Definition set_lru_head (v : Z) (c : cache) : cache := ltac:(set_field eta_cache c lru_head v).
Definition set_lru_tail (v : Z) (c : cache) : cache := ltac:(set_field eta_cache c lru_tail v).
Definition set_locked (v : bool) (c : cache) : cache := ltac:(set_field eta_cache c locked v).
Definition set_cache_hits (v : Z) (c : cache) : cache := ltac:(set_field eta_cache c cache_hits v).
Definition set_cache_misses (v : Z) (c : cache) : cache := ltac:(set_field eta_cache c cache_misses v).
Definition set_cache_time (v : Z) (c : cache) : cache := ltac:(set_field eta_cache c cache_time v).
Definition set_max_cache_entries (v : Z) (c : cache) : cache := ltac:(set_field eta_cache c max_cache_entries v).
Definition set_disk (v : Z -> list Z) (c : cache) : cache := ltac:(set_field eta_cache c disk v).
Definition set_ios (v : Z) (c : cache) : cache := ltac:(set_field eta_cache c ios v).
Definition set_mallocs (v : Z) (c : cache) : cache := ltac:(set_field eta_cache c mallocs v).

(** What the cache is promised by the heap and by the driver. *)
Class Memory := {
  malloc_answer : cache -> Z;
  malloc_fresh : forall c, malloc_answer c <> NULL -> entries c !! malloc_answer c = None;
  malloc_content : cache -> list Z;
  malloc_size : forall c, zlen (malloc_content c) = 4096;
}.
Class Device := { read_ok : Z -> bool; write_ok : Z -> bool }.

Notation M := (FM cache).

Section operations.
Context `{Memory, Device}.

Definition malloc_entry : M Z :=
  a ← gets malloc_answer; modify (fun c => set_mallocs (mallocs c + 1) c) ;; mret a.

(** The sectors [lba .. lba + count) one after the other; the drive takes 28 bits of [lba]. *)
Fixpoint sectors_from (d : Z -> list Z) (lba : Z) (count : nat) : list Z :=
  match count with O => [] | S n => d (lba mod 2 ^ 28) ++ sectors_from d (lba + 1) n end.
Fixpoint store_sectors (d : Z -> list Z) (lba : Z) (count : nat) (buf : list Z) : Z -> list Z :=
  match count with
  | O => d
  | S n => store_sectors (fun l => if l =? lba mod 2 ^ 28 then take 512 buf else d l) (lba + 1) n (drop 512 buf)
  end.

(** What the buffer holds after the transfer, [None] for a return of -1. *)
Definition ide_read_sectors (lba count : Z) (buf : list Z) : M (option (list Z)) :=
  if zlen buf <? count * 512 then fault else
  n ← gets ios; modify (set_ios (n + 1)) ;;
  d ← gets disk;
  mret (if read_ok n then Some (sectors_from d lba (Z.to_nat count) ++ drop (Z.to_nat (count * 512)) buf) else None).
Definition ide_write_sectors (lba count : Z) (buf : list Z) : M bool :=
  if zlen buf <? count * 512 then fault else
  n ← gets ios; modify (set_ios (n + 1)) ;;
  (if write_ok n then modify (fun c => set_disk (store_sectors (disk c) lba (Z.to_nat count) buf) c) else mret tt) ;;
  mret (write_ok n).

Definition deref (a : Z) : M cache_entry := e ← gets (fun c => entries c !! a); of_option e.
Definition update (a : Z) (f : cache_entry -> cache_entry) : M unit :=
  e ← deref a; modify (fun c => set_entries (<[a := f e]> (entries c)) c).

Definition lock_cache : M unit :=
  b ← gets locked; if (b : bool) then fault else modify (set_locked true).
Definition unlock_cache : M unit := modify (set_locked false).

(** [cache_time++] *)
Definition tick : M Z :=
  t ← gets cache_time; modify (set_cache_time (u32 (t + 1))) ;; mret t.

Definition cache_hash_fn (b : Z) : Z := b mod CACHE_HASH_SIZE.
Definition lba_of (b : Z) : Z := u32 (b * (4096 / 512)).
(** [ide_read_sectors(0, 8, lba, buf)] and [ide_write_sectors(0, 8, lba, buf)]. *)
Definition read_block (b : Z) (buf : list Z) : M (option (list Z)) := ide_read_sectors 8 (u8 (lba_of b)) buf.
Definition write_block (b : Z) (buf : list Z) : M bool := ide_write_sectors 8 (u8 (lba_of b)) buf.

Definition cache_init : M unit :=
  modify (fun c => set_cache_hash ((fun _ => NULL) <$> range 0 CACHE_HASH_SIZE) c) ;;
  modify (fun c => set_cache_time 0 (set_cache_misses 0 (set_cache_hits 0 (set_locked false
    (set_lru_tail NULL (set_lru_head NULL c)))))).

(** The loop of [cache_lookup]. *)
Fixpoint lookup_from (fuel : nat) (m : gmap Z cache_entry) (a b : Z) : option Z :=
  if a =? NULL then Some NULL else
  match m !! a, fuel with
  | Some e, S fuel => if (block_num e =? b) && c_true (valid e) then Some a else lookup_from fuel m (hash_next e) b
  | _, _ => None
  end.
Definition cache_lookup (b : Z) : M Z :=
  r ← gets (fun c => lookup_from (size (entries c)) (entries c) (cache_hash c).[cache_hash_fn b] b); of_option r.

Definition lru_remove (entry : Z) : M unit :=
  e ← deref entry;
  (if lru_prev e =? NULL then modify (set_lru_head (lru_next e))
   else update (lru_prev e) (set_lru_next (lru_next e))) ;;
  (if lru_next e =? NULL then modify (set_lru_tail (lru_prev e))
   else update (lru_next e) (set_lru_prev (lru_prev e))) ;;
  update entry (fun e => set_lru_prev NULL (set_lru_next NULL e)).

Definition lru_add_front (entry : Z) : M unit :=
  head ← gets lru_head;
  update entry (fun e => set_lru_prev NULL (set_lru_next head e)) ;;
  (if head =? NULL then mret tt else update head (set_lru_prev entry)) ;;
  modify (set_lru_head entry) ;;
  tail ← gets lru_tail;
  if tail =? NULL then modify (set_lru_tail entry) else mret tt.

(** The unlinking from the hash chain in [cache_evict] and [cache_invalidate]. *)
Definition chain_remove (entry : Z) : M unit :=
  e ← deref entry;
  let idx := cache_hash_fn (block_num e) in
  h ← gets cache_hash;
  (if h.[idx] =? entry then modify (set_cache_hash (h.[idx <- hash_next e])) else mret tt) ;;
  (if hash_prev e =? NULL then mret tt else update (hash_prev e) (set_hash_next (hash_next e))) ;;
  (if hash_next e =? NULL then mret tt else update (hash_next e) (set_hash_prev (hash_prev e))).

Definition kfree_entry (entry : Z) : M unit := modify (fun c => set_entries (delete entry (entries c)) c).

Definition cache_insert (b : Z) (buf : list Z) : M Z :=
  entry ← malloc_entry;
  if entry =? NULL then mret (-1) else
  mem ← malloc_entry;
  if mem =? NULL then mret (-1) else
  let idx := cache_hash_fn b in
  t ← tick;
  h ← gets cache_hash;
  modify (fun c => set_entries (<[entry := mk_entry b buf 0 1 0 t h.[idx] NULL NULL NULL]> (entries c)) c) ;;
  (if h.[idx] =? NULL then mret tt else update h.[idx] (set_hash_prev entry)) ;;
  modify (fun c => set_cache_hash ((cache_hash c).[idx <- entry]) c) ;;
  lru_add_front entry ;;
  mret 0.

Definition touch (entry : Z) : M unit := t ← tick; update entry (set_access_time t).

(** The return code and what the buffer of the caller holds. *)
Definition cache_read (b : Z) : M (Z * list Z) :=
  lock_cache ;;
  entry ← cache_lookup b;
  if negb (entry =? NULL) then
    e ← deref entry;
    update entry (fun e => set_ref_count (u32 (ref_count e + 1)) e) ;;
    touch entry ;;
    modify (fun c => set_cache_hits (u32 (cache_hits c + 1)) c) ;;
    lru_remove entry ;; lru_add_front entry ;;
    unlock_cache ;; mret (0, data e)
  else
    modify (fun c => set_cache_misses (u32 (cache_misses c + 1)) c) ;;
    junk ← gets malloc_content;
    disk_buf ← malloc_entry;
    if disk_buf =? NULL then unlock_cache ;; mret (-1, []) else
    r ← read_block b junk;
    match r with
    | None => unlock_cache ;; mret (-1, [])
    | Some blk =>
        cache_insert b blk ;;
        entry ← cache_lookup b;
        if entry =? NULL then unlock_cache ;; mret (-1, []) else
        e ← deref entry;
        update entry (fun e => set_ref_count (u32 (ref_count e + 1)) e) ;;
        touch entry ;;
        unlock_cache ;; mret (0, data e)
    end.

Definition cache_write (b : Z) (buf : list Z) : M Z :=
  lock_cache ;;
  entry ← cache_lookup b;
  if negb (entry =? NULL) then
    update entry (fun e => set_dirty 1 (set_data buf e)) ;;
    touch entry ;;
    lru_remove entry ;; lru_add_front entry ;;
    unlock_cache ;; mret 0
  else
    cache_insert b buf ;;
    entry ← cache_lookup b;
    if entry =? NULL then unlock_cache ;; mret (-1) else
    update entry (set_dirty 1) ;;
    touch entry ;;
    unlock_cache ;; mret 0.

Definition cache_flush (b : Z) : M Z :=
  lock_cache ;;
  entry ← cache_lookup b;
  if entry =? NULL then unlock_cache ;; mret 0 else
  e ← deref entry;
  if dirty e =? 0 then unlock_cache ;; mret 0 else
  ok ← write_block b (data e);
  if negb ok then unlock_cache ;; mret (-1) else
  update entry (set_dirty 0) ;;
  unlock_cache ;; mret 0.

(** The loop along one hash chain of [cache_flush_all]. *)
Fixpoint flush_chain (fuel : nat) (a : Z) : M unit :=
  if a =? NULL then mret tt else
  match fuel with
  | O => fault
  | S fuel =>
      e ← deref a;
      (if c_true (dirty e) && c_true (valid e) then
         write_block (block_num e) (data e) ;; update a (set_dirty 0)
       else mret tt) ;;
      flush_chain fuel (hash_next e)
  end.
Definition cache_flush_all : M Z :=
  lock_cache ;;
  for_each (range 0 CACHE_HASH_SIZE) (fun i =>
    fuel ← gets (fun c => size (entries c)); a ← gets (fun c => (cache_hash c).[i]); flush_chain fuel a) ;;
  unlock_cache ;; mret 0.

(** The search of [cache_evict] for an entry without references, from the tail. *)
Fixpoint victim_from (fuel : nat) (m : gmap Z cache_entry) (a : Z) : option Z :=
  if a =? NULL then Some NULL else
  match m !! a, fuel with
  | Some e, S fuel => if ref_count e =? 0 then Some a else victim_from fuel m (lru_prev e)
  | _, _ => None
  end.

Definition cache_evict : M unit :=
  lock_cache ;;
  v ← gets (fun c => victim_from (size (entries c)) (entries c) (lru_tail c));
  entry ← of_option v;
  if entry =? NULL then unlock_cache else
  e ← deref entry;
  (if c_true (dirty e) then write_block (block_num e) (data e) ;; mret tt else mret tt) ;;
  lru_remove entry ;;
  chain_remove entry ;;
  kfree_entry entry ;;
  unlock_cache.

(** The counting loops over the hash table. *)
Fixpoint count_chain (fuel : nat) (m : gmap Z cache_entry) (a : Z) : option Z :=
  if a =? NULL then Some 0 else
  match m !! a, fuel with
  | Some e, S fuel => n ← count_chain fuel m (hash_next e); Some ((if c_true (valid e) then 1 else 0) + n)
  | _, _ => None
  end.
Fixpoint count_entries (m : gmap Z cache_entry) (heads : list Z) : option Z :=
  match heads with
  | [] => Some 0
  | a :: heads => n ← count_chain (size m) m a; k ← count_entries m heads; Some (n + k)
  end.
Definition current_entries : M Z :=
  n ← gets (fun c => count_entries (entries c) ((fun i => (cache_hash c).[i]) <$> range 0 CACHE_HASH_SIZE)); of_option n.

Record cache_stats := mk_stats { hits : Z; misses : Z; n_entries : Z; hit_rate : Z }.

Definition cache_get_stats : M cache_stats :=
  lock_cache ;;
  n ← current_entries;
  h ← gets cache_hits;
  ms ← gets cache_misses;
  let total := u32 (h + ms) in
  unlock_cache ;;
  mret (mk_stats h ms (u32 n) (if 0 <? total then u32 (h * 100) / total else 0)).

Definition cache_prefetch (b : Z) : M Z :=
  lock_cache ;;
  entry ← cache_lookup b;
  if negb (entry =? NULL) then
    touch entry ;; lru_remove entry ;; lru_add_front entry ;;
    unlock_cache ;; mret 0
  else
    max ← gets max_cache_entries;
    n ← (if 0 <? max then current_entries else mret 0);
    if (0 <? max) && (max <=? u32 n) then unlock_cache ;; mret (-1) else
    junk ← gets malloc_content;
    disk_buf ← malloc_entry;
    if disk_buf =? NULL then unlock_cache ;; mret (-1) else
    r ← read_block b junk;
    match r with
    | None => unlock_cache ;; mret (-1)
    | Some blk => ret ← cache_insert b blk; unlock_cache ;; mret ret
    end.

Definition cache_invalidate (b : Z) : M unit :=
  lock_cache ;;
  entry ← cache_lookup b;
  if entry =? NULL then unlock_cache else
  e ← deref entry;
  if negb (c_true (valid e)) then unlock_cache else
  (if c_true (dirty e) then write_block b (data e) ;; mret tt else mret tt) ;;
  chain_remove entry ;;
  lru_remove entry ;;
  kfree_entry entry ;;
  unlock_cache.

(** [while (current_entries > max) cache_evict()], with the lock held. *)
Fixpoint evict_down (fuel : nat) (n max : Z) : M unit :=
  if n <=? max then mret tt else
  match fuel with
  | O => fault
  | S fuel => cache_evict ;; evict_down fuel (n - 1) max
  end.
Definition cache_set_max_entries (max : Z) : M unit :=
  lock_cache ;;
  modify (set_max_cache_entries max) ;;
  (if 0 <? max then n ← current_entries; evict_down (Z.to_nat n) n max else mret tt) ;;
  unlock_cache.
End operations.

(** ** What the two chains hold *)

Definition lview (m : gmap Z cache_entry) : gmap Z (Z * Z) := (fun e => (lru_prev e, lru_next e)) <$> m.
Definition hview (m : gmap Z cache_entry) : gmap Z (Z * Z) := (fun e => (hash_prev e, hash_next e)) <$> m.
(** The fields other than the pointers and the time of the last access. *)
Definition info (e : cache_entry) : Z * list Z * Z * Z * Z :=
  (block_num e, data e, dirty e, valid e, ref_count e).

Definition bview (m : gmap Z cache_entry) : gmap Z (Z * Z) := (fun e => (block_num e, valid e)) <$> m.

(** All entries are on the LRU list. *)
Record lru_ok (lv : gmap Z (Z * Z)) (hd tl : Z) (l : list Z) : Prop := {
  ll_null : lv !! NULL = None;
  ll_head : hd = first_of NULL l;
  ll_tail : tl = last_of NULL l;
  ll_chain : dll NULL (lv !!.) l;
  ll_nodup : NoDup l;
  ll_dom : forall a, a ∈ l <-> is_Some (lv !! a);
}.

(** Each is on the hash chain of its block, valid, and the only one for its block. *)
Record hash_ok (hv bv : gmap Z (Z * Z)) (h : list Z) (bks : Z -> list Z) : Prop := {
  ho_null : hv !! NULL = None;
  ho_len : zlen h = CACHE_HASH_SIZE;
  ho_head : forall i, 0 <= i < CACHE_HASH_SIZE -> h.[i] = first_of NULL (bks i);
  ho_chain : forall i, 0 <= i < CACHE_HASH_SIZE -> dll NULL (hv !!.) (bks i);
  ho_nodup : forall i, 0 <= i < CACHE_HASH_SIZE -> NoDup (bks i);
  ho_bucket : forall i a, 0 <= i < CACHE_HASH_SIZE ->
    (a ∈ bks i <-> exists b v, bv !! a = Some (b, v) /\ cache_hash_fn b = i);
  ho_unique : forall a a' b v v', bv !! a = Some (b, v) -> bv !! a' = Some (b, v') -> a = a';
  ho_valid : forall a b v, bv !! a = Some (b, v) -> v = 1;
}.

Definition shape (c : cache) (l : list Z) (bks : Z -> list Z) : Prop :=
  lru_ok (lview (entries c)) (lru_head c) (lru_tail c) l /\
  hash_ok (hview (entries c)) (bview (entries c)) (cache_hash c) bks.

Lemma hash_range (b : Z) : 0 <= cache_hash_fn b < CACHE_HASH_SIZE.
Proof. apply Z.mod_pos_bound. done. Qed.

(** *** Symbolic execution *)

Lemma wp_entry (a : Z) (e : cache_entry) (Q : cache_entry -> cache -> Prop) (c : cache) :
  entries c !! a = Some e -> Q e c -> wp (deref a) Q c.
Proof. intros He HQ. unfold deref. wp_run. by eapply wp_of_option. Qed.

Lemma wp_set_entry (a : Z) (f : cache_entry -> cache_entry) (Q : unit -> cache -> Prop) (c : cache) :
  is_Some (entries c !! a) -> Q tt (set_entries (alter f a (entries c)) c) -> wp (update a f) Q c.
Proof.
  intros [e He] HQ. unfold update. wp_run. eapply wp_entry; [done|]. wp_run.
  replace (<[a := f e]> (entries c)) with (alter f a (entries c)); [done|]. apply map_eq. intros b.
  rewrite lookup_alter_if. case_decide as E; [subst; by rewrite lookup_insert_eq, He|].
  rewrite lookup_insert_ne by done. by destruct (entries c !! b).
Qed.

(** [if (a) update(a)]: a write through the null pointer is none. *)
Lemma wp_set_entry_opt (a : Z) (f : cache_entry -> cache_entry) (Q : unit -> cache -> Prop) (c : cache) :
  entries c !! NULL = None -> (a <> NULL -> is_Some (entries c !! a)) ->
  Q tt (set_entries (alter f a (entries c)) c) -> wp (if a =? NULL then mret tt else update a f) Q c.
Proof.
  intros Hn Ha HQ. destruct (Z.eqb_spec a NULL) as [->|Hne]; [|by apply wp_set_entry; auto].
  rewrite alter_absent in HQ by done. by destruct c.
Qed.

Lemma alter_is_Some {B} (f : B -> B) (m : gmap Z B) (a b : Z) : is_Some (alter f a m !! b) <-> is_Some (m !! b).
Proof. rewrite lookup_alter_if. by rewrite fmap_is_Some. Qed.

Lemma alter_null {B} (f : B -> B) (m : gmap Z B) (a b : Z) : alter f a m !! b = None <-> m !! b = None.
Proof. rewrite lookup_alter_if. by rewrite fmap_None. Qed.

(** ** The LRU list *)

Definition clear_lru (e : cache_entry) : cache_entry := set_lru_prev NULL (set_lru_next NULL e).

Definition lru_removed (a p n : Z) (c : cache) : cache :=
  set_entries (alter clear_lru a (alter (set_lru_prev p) n (alter (set_lru_next n) p (entries c))))
    (set_lru_tail (if n =? NULL then p else lru_tail c) (set_lru_head (if p =? NULL then n else lru_head c) c)).

Lemma lru_remove_run (c : cache) (a : Z) (e : cache_entry) :
  entries c !! NULL = None -> entries c !! a = Some e ->
  (lru_prev e <> NULL -> is_Some (entries c !! lru_prev e)) ->
  (lru_next e <> NULL -> is_Some (entries c !! lru_next e)) ->
  wp (lru_remove a) (fun _ c' => c' = lru_removed a (lru_prev e) (lru_next e) c) c.
Proof.
  intros Hn He Hp Hx. unfold lru_remove, lru_removed. wp_run. eapply wp_entry; [exact He|]. wp_run.
  destruct (Z.eqb_spec (lru_prev e) NULL) as [Ep|Ep]; destruct (Z.eqb_spec (lru_next e) NULL) as [Ex|Ex].
  all: rewrite ?Ep, ?Ex in *.
  - wp_run. apply wp_set_entry; [by eexists|]. cbn.
    by rewrite (alter_absent (set_lru_next _)), (alter_absent (set_lru_prev _)).
  - wp_run. apply wp_set_entry; [by apply Hx|]. wp_run. apply wp_set_entry; [by apply alter_is_Some; eexists|]. cbn.
    by rewrite (alter_absent (set_lru_next _)).
  - apply wp_set_entry; [by apply Hp|]. wp_run. apply wp_set_entry; [by apply alter_is_Some; eexists|]. cbn.
    by rewrite (alter_absent (set_lru_prev _)) by (by apply alter_null).
  - apply wp_set_entry; [by apply Hp|]. wp_run. apply wp_set_entry; [by apply alter_is_Some, Hx|]. wp_run.
    apply wp_set_entry; [by apply alter_is_Some, alter_is_Some; eexists|]. done.
Qed.

Definition lru_fronted (a : Z) (c : cache) : cache :=
  set_entries (alter (set_lru_prev a) (lru_head c)
                (alter (fun e => set_lru_prev NULL (set_lru_next (lru_head c) e)) a (entries c)))
    (set_lru_tail (if lru_tail c =? NULL then a else lru_tail c) (set_lru_head a c)).

Lemma lru_add_front_run (c : cache) (a : Z) :
  entries c !! NULL = None -> is_Some (entries c !! a) ->
  (lru_head c <> NULL -> is_Some (entries c !! lru_head c)) ->
  wp (lru_add_front a) (fun _ c' => c' = lru_fronted a c) c.
Proof.
  intros Hn Ha Hh. unfold lru_add_front, lru_fronted. wp_run. apply wp_set_entry; [done|]. wp_run.
  apply wp_set_entry_opt; [by apply alter_null|intros Hne; by apply alter_is_Some, Hh|]. wp_run.
  cbn. destruct (lru_tail c =? NULL); by wp_run.
Qed.

(** *** Lists and maps *)

Lemma dseg_delete (lk : gmap Z (Z * Z)) (l : list Z) (a : Z) :
  a ∉ l -> dll NULL (lk !!.) l -> dll NULL (delete a lk !!.) l.
Proof. intros Ha. apply map_frame. intros b Hb. rewrite lookup_delete_ne; [done|]. intros ->. done. Qed.

Lemma dseg_alter (lk : gmap Z (Z * Z)) (l : list Z) (f : Z * Z -> Z * Z) (a : Z) :
  a ∉ l -> dll NULL (lk !!.) l -> dll NULL (alter f a lk !!.) l.
Proof. intros Ha. apply map_frame. intros b Hb. rewrite lookup_alter_ne; [done|]. intros ->. done. Qed.

Lemma first_removed (l k : list Z) (a : Z) :
  NULL ∉ l -> (if last_of NULL l =? NULL then first_of NULL k else first_of NULL (l ++ a :: k)) = first_of NULL (l ++ k).
Proof.
  intros Hl. destruct l as [|b l]; [done|]. destruct (Z.eqb_spec (last_of NULL (b :: l)) NULL) as [E|]; [|done].
  exfalso. apply Hl. rewrite <-E. by apply last_of_elem.
Qed.
Lemma last_removed (l k : list Z) (a : Z) :
  NULL ∉ k -> (if first_of NULL k =? NULL then last_of NULL l else last_of NULL (l ++ a :: k)) = last_of NULL (l ++ k).
Proof.
  intros Hk. rewrite !last_of_app, last_of_cons. destruct k as [|b k]; [done|].
  destruct (Z.eqb_spec (first_of NULL (b :: k)) NULL) as [E|]; [|by rewrite !last_of_cons].
  exfalso. apply Hk. rewrite <-E. by apply first_of_elem.
Qed.

(** The pointers after [lru_remove]. *)
Definition lv_removed (a p n : Z) (lv : gmap Z (Z * Z)) : gmap Z (Z * Z) :=
  alter (fun _ => (NULL, NULL)) a (alter (with_prev p) n (alter (with_next n) p lv)).

Lemma lru_ok_entry (lv : gmap Z (Z * Z)) (hd tl : Z) (l k : list Z) (a : Z) :
  lru_ok lv hd tl (l ++ a :: k) ->
  lv !! a = Some (last_of NULL l, first_of NULL k) /\ NULL ∉ l /\ NULL ∉ k /\ a ∉ l /\ a ∉ k /\ a <> NULL.
Proof.
  intros [Hn _ _ Hc Hnd _]. split; [exact (dseg_middle _ _ _ _ _ _ Hc)|].
  pose proof (chain_nonnull lv _ Hn Hc) as Hnn. apply NoDup_app in Hnd as (_ & Hd & [Hk _]%NoDup_cons).
  split_and!; set_solver.
Qed.

Lemma lru_ok_remove (lv : gmap Z (Z * Z)) (hd tl : Z) (l k : list Z) (a : Z) :
  lru_ok lv hd tl (l ++ a :: k) ->
  let p := last_of NULL l in let n := first_of NULL k in
  (if p =? NULL then n else hd) = first_of NULL (l ++ k) /\ (if n =? NULL then p else tl) = last_of NULL (l ++ k) /\
  dll NULL (lv_removed a p n lv !!.) (l ++ k) /\ NoDup (l ++ k).
Proof.
  intros Hok p n. destruct (lru_ok_entry _ _ _ _ _ _ Hok) as (_ & Hl & Hk & Hal & Hak & _).
  destruct Hok as [Hn Hh Ht Hc Hnd _]. subst hd tl.
  split_and!; [by apply first_removed|by apply last_removed| |].
  - apply dseg_alter; [set_solver|]. by apply (map_unlink lv l a k).
  - apply NoDup_app in Hnd as (H1 & H12 & [_ H2]%NoDup_cons). apply NoDup_app. split_and!; [done|set_solver|done].
Qed.

Lemma lv_removed_Some (a p n b : Z) (lv : gmap Z (Z * Z)) : is_Some (lv_removed a p n lv !! b) <-> is_Some (lv !! b).
Proof. unfold lv_removed. by rewrite !alter_is_Some. Qed.

(** Moving an entry to the front. *)
Lemma lru_ok_front (lv : gmap Z (Z * Z)) (hd tl : Z) (l k : list Z) (a : Z) :
  lru_ok lv hd tl (l ++ a :: k) ->
  let p := last_of NULL l in let n := first_of NULL k in
  let hd' := if p =? NULL then n else hd in let tl' := if n =? NULL then p else tl in
  lru_ok (alter (with_prev a) hd' (alter (fun _ => (NULL, hd')) a (lv_removed a p n lv)))
    a (if tl' =? NULL then a else tl') (a :: l ++ k).
Proof.
  intros Hok p n hd' tl'. destruct (lru_ok_remove _ _ _ _ _ _ Hok) as (Hh & Ht & Hc & Hnd).
  destruct (lru_ok_entry _ _ _ _ _ _ Hok) as (Ha & Hl & Hk & Hal & Hak & Han).
  fold p n in Hh, Ht, Hc. fold hd' in Hh. fold tl' in Ht. rewrite Hh, Ht. destruct Hok as [Hn _ _ _ Hnd0 Hdom].
  assert (lv_removed a p n lv !! NULL = None) as Hn' by (unfold lv_removed; by rewrite !alter_null).
  constructor.
  - by rewrite !alter_null.
  - done.
  - rewrite last_of_cons. destruct (l ++ k) as [|b m] eqn:E; [done|].
    rewrite (proj2 (Z.eqb_neq _ _)); [by rewrite !last_of_cons|]. intros Hz.
    assert (NULL ∈ l ++ k) by (rewrite E, <-Hz; by apply last_of_elem). set_solver.
  - apply map_push; [done|done|set_solver| |done]. apply lv_removed_Some. by rewrite Ha.
  - apply NoDup_cons. split; [set_solver|done].
  - intros b. rewrite !alter_is_Some, lv_removed_Some, <-Hdom. set_solver.
Qed.

(** Removing an entry for good. *)
Lemma lru_ok_delete (lv : gmap Z (Z * Z)) (hd tl : Z) (l k : list Z) (a : Z) :
  lru_ok lv hd tl (l ++ a :: k) ->
  let p := last_of NULL l in let n := first_of NULL k in
  lru_ok (delete a (lv_removed a p n lv)) (if p =? NULL then n else hd) (if n =? NULL then p else tl) (l ++ k).
Proof.
  intros Hok p n. destruct (lru_ok_remove _ _ _ _ _ _ Hok) as (Hh & Ht & Hc & Hnd).
  destruct (lru_ok_entry _ _ _ _ _ _ Hok) as (Ha & Hl & Hk & Hal & Hak & Han).
  destruct Hok as [Hn _ _ _ Hnd0 Hdom]. constructor; [|done|done| |done|].
  - rewrite lookup_delete_ne by done. unfold lv_removed. by rewrite !alter_null.
  - apply dseg_delete; [set_solver|done].
  - intros b. destruct (decide (b = a)) as [->|Hne].
    + rewrite lookup_delete_eq. split; [set_solver|by intros [? ?] ].
    + rewrite lookup_delete_ne, lv_removed_Some, <-Hdom by done. set_solver.
Qed.

(** A new entry. *)
Lemma lru_ok_insert (lv : gmap Z (Z * Z)) (hd tl : Z) (l : list Z) (a : Z) (x : Z * Z) :
  lru_ok lv hd tl l -> a <> NULL -> lv !! a = None ->
  lru_ok (alter (with_prev a) hd (alter (fun _ => (NULL, hd)) a (<[a := x]> lv))) a (if tl =? NULL then a else tl) (a :: l).
Proof.
  intros [Hn Hh Ht Hc Hnd Hdom] Han Ha. subst hd tl. assert (a ∉ l) as Hal by (rewrite Hdom, Ha; by intros [? ?]).
  assert (<[a := x]> lv !! NULL = None) as Hn' by (by rewrite lookup_insert_ne).
  constructor.
  - by rewrite !alter_null.
  - done.
  - rewrite last_of_cons. destruct l as [|b m]; [done|].
    rewrite (proj2 (Z.eqb_neq _ _)); [by rewrite !last_of_cons|]. intros Hz. apply (chain_nonnull lv _ Hn Hc).
    rewrite <-Hz. by apply last_of_elem.
  - apply map_push; [done|done|done|by rewrite lookup_insert_eq|].
    apply (map_frame lv); [|done]. intros b Hb. rewrite lookup_insert_ne; [done|]. intros ->. done.
  - by apply NoDup_cons.
  - intros b. rewrite !alter_is_Some. destruct (decide (b = a)) as [->|Hne].
    + rewrite lookup_insert_eq. split; [eauto|]. intros _. by left.
    + rewrite lookup_insert_ne, <-Hdom by done. set_solver.
Qed.

(** ** The hash chains *)

Definition in_bucket (i : Z) (l : list Z) (bks : Z -> list Z) (j : Z) : list Z := if j =? i then l else bks j.

Lemma hash_ok_entry (hv bv : gmap Z (Z * Z)) (h : list Z) (bks : Z -> list Z) (a b v : Z) :
  hash_ok hv bv h bks -> bv !! a = Some (b, v) ->
  exists l k, bks (cache_hash_fn b) = l ++ a :: k /\ hv !! a = Some (last_of NULL l, first_of NULL k).
Proof.
  intros Hok Ha. assert (a ∈ bks (cache_hash_fn b)) as Hin.
  { apply (ho_bucket _ _ _ _ Hok); [apply hash_range|eauto]. }
  apply list_elem_of_split in Hin as (l & k & E). exists l, k. split; [done|].
  pose proof (ho_chain _ _ _ _ Hok _ (hash_range b)) as Hc. rewrite E in Hc. exact (dseg_middle _ _ _ _ _ _ Hc).
Qed.

Lemma bucket_disjoint (hv bv : gmap Z (Z * Z)) (h : list Z) (bks : Z -> list Z) (i j a : Z) :
  hash_ok hv bv h bks -> 0 <= i < CACHE_HASH_SIZE -> 0 <= j < CACHE_HASH_SIZE ->
  a ∈ bks i -> a ∈ bks j -> i = j.
Proof.
  intros Hok Hi Hj (b & v & Hb & <-)%(ho_bucket _ _ _ _ Hok) (b' & v' & Hb' & <-)%(ho_bucket _ _ _ _ Hok); [|done|done].
  by simplify_eq.
Qed.

Lemma hash_ok_delete (hv bv : gmap Z (Z * Z)) (h : list Z) (bks : Z -> list Z) (a b v : Z) (l k : list Z) :
  hash_ok hv bv h bks -> bv !! a = Some (b, v) -> bks (cache_hash_fn b) = l ++ a :: k ->
  let i := cache_hash_fn b in let p := last_of NULL l in let n := first_of NULL k in
  hash_ok (delete a (alter (with_prev p) n (alter (with_next n) p hv))) (delete a bv)
    (if h.[i] =? a then h.[i <- n] else h) (in_bucket i (l ++ k) bks).
Proof.
  intros Hok Ha Hb i p n. pose proof Hok as [Hn Hlen Hh Hc Hnd Hbu Hun Hv]. pose proof (hash_range b) as Hi. fold i in Hi, Hb.
  assert (NoDup (l ++ a :: k)) as Hnd0 by (rewrite <-Hb; auto).
  assert (dll NULL (hv !!.) (l ++ a :: k)) as Hc0 by (rewrite <-Hb; auto).
  pose proof (chain_nonnull hv _ Hn Hc0) as Hnn.
  pose proof Hnd0 as (Hnl & Hdis & [Hak Hnk]%NoDup_cons)%NoDup_app.
  assert (a ∉ l) as Hal by set_solver. assert (a <> NULL) as Han by set_solver.
  assert (forall x, x = p \/ x = n -> x <> NULL -> x ∈ bks i) as Hpn.
  { intros x [->| ->] Hx; rewrite Hb.
    - apply elem_of_app. left. destruct l; [done|]. by apply last_of_elem.
    - apply elem_of_app. right. right. destruct k; [done|]. by apply first_of_elem. }
  constructor.
  - rewrite lookup_delete_ne by done. by rewrite !alter_null.
  - case_if; by rewrite ?zlen_aset.
  - intros j Hj. unfold in_bucket. destruct (Z.eqb_spec j i) as [->|Hji].
    + rewrite (Hh i Hi), Hb. destruct l as [|x l].
      * change (first_of NULL ([] ++ a :: k)) with a. rewrite Z.eqb_refl, aget_aset_eq by lia. done.
      * change (first_of NULL ((x :: l) ++ a :: k)) with x. destruct (Z.eqb_spec x a) as [->|]; [set_solver|].
        rewrite (Hh i Hi), Hb. done.
    + case_if; [rewrite aget_aset_ne by lia|]; auto.
  - intros j Hj. unfold in_bucket. destruct (Z.eqb_spec j i) as [->|Hji].
    + apply dseg_delete; [set_solver|]. by apply (map_unlink hv l a k).
    + assert (forall x, x ∈ bks i -> x ∉ bks j) as Hd by (intros x Hx Hx'; apply Hji; by eapply bucket_disjoint).
      apply dseg_delete; [apply Hd; rewrite Hb; set_solver|]. apply (map_frame hv); [|auto].
      intros y Hy. rewrite !lookup_alter_if. assert (y <> NULL) as Hyn.
      { intros ->. by apply (chain_nonnull hv (bks j) Hn (Hc j Hj)). }
      rewrite (decide_False (P := y = n)), (decide_False (P := y = p)); [by destruct (hv !! y)|..];
        intros ->; by eapply Hd, Hy; apply Hpn; auto.
  - intros j Hj. unfold in_bucket. case_if; [|auto]. apply NoDup_app. split_and!; [done|set_solver|done].
  - intros j x Hj. unfold in_bucket. destruct (decide (x = a)) as [->|Hne].
    + rewrite lookup_delete_eq. split; [|by intros (? & ? & ? & _)]. destruct (Z.eqb_spec j i); [set_solver|].
      intros Hx. exfalso. apply n0. eapply bucket_disjoint; [exact Hok|done|done|exact Hx|]. rewrite Hb. set_solver.
    + rewrite lookup_delete_ne, <-(Hbu j x Hj) by done. destruct (Z.eqb_spec j i) as [->|]; [|done]. rewrite Hb. set_solver.
  - intros x x' y w w' [_ Hx]%lookup_delete_Some [_ Hx']%lookup_delete_Some. eauto.
  - intros x y w [_ Hx]%lookup_delete_Some. eauto.
Qed.

Lemma hash_ok_insert (hv bv : gmap Z (Z * Z)) (h : list Z) (bks : Z -> list Z) (a b : Z) :
  hash_ok hv bv h bks -> a <> NULL -> bv !! a = None -> (forall x w, bv !! x <> Some (b, w)) ->
  let i := cache_hash_fn b in
  hash_ok (alter (with_prev a) h.[i] (<[a := (NULL, h.[i])]> hv)) (<[a := (b, 1)]> bv) (h.[i <- a])
    (in_bucket i (a :: bks i) bks).
Proof.
  intros Hok Han Ha Hb i. pose proof Hok as [Hn Hlen Hh Hc Hnd Hbu Hun Hv]. pose proof (hash_range b) as Hi. fold i in Hi.
  assert (forall j, 0 <= j < CACHE_HASH_SIZE -> a ∉ bks j) as Hfree.
  { intros j Hj (y & w & Hy & _)%(Hbu j a Hj). by rewrite Ha in Hy. }
  assert (<[a := (NULL, h.[i])]> hv !! NULL = None) as Hn' by (by rewrite lookup_insert_ne).
  assert (forall j, 0 <= j < CACHE_HASH_SIZE -> dll NULL (<[a := (NULL, h.[i])]> hv !!.) (bks j)) as Hc'.
  { intros j Hj. apply (map_frame hv); [|auto]. intros y Hy. rewrite lookup_insert_ne; [done|].
    intros ->. by apply (Hfree j Hj). }
  rewrite (Hh i Hi) in *. constructor.
  - by apply alter_null.
  - by rewrite zlen_aset.
  - intros j Hj. unfold in_bucket. destruct (Z.eqb_spec j i) as [->|]; [rewrite aget_aset_eq by lia; done|].
    rewrite aget_aset_ne by lia. auto.
  - intros j Hj. unfold in_bucket. destruct (Z.eqb_spec j i) as [->|Hji].
    + pose proof (map_push _ (bks i) a Hn' (Hnd i Hi) (Hfree i Hi) ltac:(by rewrite lookup_insert_eq) (Hc' i Hi)) as Hp.
      replace (alter (fun _ => (NULL, first_of NULL (bks i))) a (<[a := (NULL, first_of NULL (bks i))]> hv))
        with (<[a := (NULL, first_of NULL (bks i))]> hv) in Hp; [done|].
      apply map_eq. intros y. rewrite lookup_alter_if. destruct (decide (y = a)) as [->|]; [by rewrite lookup_insert_eq|].
      rewrite lookup_insert_ne by done. by destruct (hv !! y).
    + apply dseg_alter; [|auto]. intros Hin. apply Hji. eapply bucket_disjoint; [exact Hok|done|done|exact Hin|].
      apply first_of_elem. intros E. rewrite E in Hin. by apply (chain_nonnull hv _ Hn (Hc j Hj)).
  - intros j Hj. unfold in_bucket. destruct (Z.eqb_spec j i) as [->|]; [|auto]. apply NoDup_cons. auto.
  - intros j x Hj. unfold in_bucket. destruct (decide (x = a)) as [->|Hne].
    + rewrite lookup_insert_eq. split.
      * destruct (Z.eqb_spec j i) as [->|]; [intros _; eauto|]. intros Hx. by apply Hfree in Hx.
      * intros (y & w & [= <- <-] & <-). fold i. rewrite Z.eqb_refl. by left.
    + rewrite lookup_insert_ne, <-(Hbu j x Hj) by done. destruct (Z.eqb_spec j i) as [->|]; [|done].
      rewrite elem_of_cons. naive_solver.
  - intros x x' y w w'. rewrite !lookup_insert. repeat case_decide; naive_solver.
  - intros x y w. rewrite lookup_insert. case_decide; naive_solver.
Qed.

(** ** Lookup *)

Lemma lookup_info (m : gmap Z cache_entry) (a : Z) (e : cache_entry) :
  m !! a = Some e -> bview m !! a = Some (block_num e, valid e) /\
    hview m !! a = Some (hash_prev e, hash_next e) /\ lview m !! a = Some (lru_prev e, lru_next e).
Proof. intros He. unfold bview, hview, lview. by rewrite !lookup_fmap, He. Qed.

Lemma lookup_from_spec (m : gmap Z cache_entry) (b : Z) (l : list Z) (fuel : nat) (p : Z) :
  m !! NULL = None -> dseg (hview m !!.) p l NULL -> (forall a e, m !! a = Some e -> valid e = 1) -> (length l <= fuel)%nat ->
  exists r, lookup_from fuel m (first_of NULL l) b = Some r /\
    (r = NULL /\ (forall a e, a ∈ l -> m !! a = Some e -> block_num e <> b) \/
     r ∈ l /\ exists e, m !! r = Some e /\ block_num e = b).
Proof.
  intros Hn Hd Hv. revert fuel p Hd. induction l as [|a l IH]; intros fuel p Hd Hf.
  - exists NULL. split; [by destruct fuel|]. left. split; [done|]. set_solver.
  - destruct Hd as [Ha Hd]. unfold hview in Ha. rewrite lookup_fmap in Ha.
    apply fmap_Some in Ha as (e & He & [= _ Hx]). change (first_of NULL (a :: l)) with a.
    assert (a <> NULL) as Han by (intros ->; by rewrite Hn in He).
    destruct fuel as [|fuel]; simpl in Hf; [lia|]. simpl. rewrite (proj2 (Z.eqb_neq _ _) Han), He, (Hv a e He).
    destruct (Z.eqb_spec (block_num e) b) as [E|E]; simpl.
    + exists a. split; [done|]. right. split; [by left|eauto].
    + rewrite <-Hx. destruct (IH fuel a Hd ltac:(lia)) as (r & -> & Hr). exists r. split; [done|].
      destruct Hr as [ [-> Hr]|[Hr He'] ]; [left|right].
      * split; [done|]. intros a' e' [->|Ha']%elem_of_cons Hl; [by simplify_eq|eauto].
      * split; [by right|done].
Qed.

Lemma chain_in_memory (m : gmap Z cache_entry) (l : list Z) :
  NoDup l -> dll NULL (hview m !!.) l -> (length l <= size m)%nat.
Proof.
  intros Hnd Hd. rewrite <-(size_list_to_set (C := gset Z)) by done. rewrite <-(size_dom (D := gset Z)).
  apply subseteq_size. intros a Ha%elem_of_list_to_set. destruct (dseg_links _ _ _ _ _ Hd Ha) as [x Hx].
  unfold hview in Hx. rewrite lookup_fmap in Hx. apply fmap_Some in Hx as (e & He & _). apply elem_of_dom. eauto.
Qed.

Lemma view_null {B} (v : cache_entry -> B) (m : gmap Z cache_entry) (a : Z) : (v <$> m) !! a = None <-> m !! a = None.
Proof. rewrite lookup_fmap. by rewrite fmap_None. Qed.

Lemma cache_lookup_spec (c : cache) (l : list Z) (bks : Z -> list Z) (b : Z) :
  shape c l bks ->
  wp (cache_lookup b) (fun r c' => c' = c /\
    (r = NULL /\ (forall a e, entries c !! a = Some e -> block_num e <> b) \/
     r <> NULL /\ exists e, entries c !! r = Some e /\ block_num e = b)) c.
Proof.
  intros [Hl Hh]. unfold cache_lookup. wp_run. pose proof (hash_range b) as Hi.
  assert (entries c !! NULL = None) as Hn by (eapply view_null, ll_null; exact Hl).
  rewrite (ho_head _ _ _ _ Hh) by done.
  destruct (lookup_from_spec (entries c) b (bks (cache_hash_fn b)) (size (entries c)) NULL) as (r & Hr & Hc); try done.
  - by apply (ho_chain _ _ _ _ Hh).
  - intros a e He. eapply (ho_valid _ _ _ _ Hh). by apply lookup_info.
  - apply chain_in_memory; [by apply (ho_nodup _ _ _ _ Hh)|by apply (ho_chain _ _ _ _ Hh)].
  - eapply wp_of_option; [exact Hr|]. split; [done|].
    destruct Hc as [ [-> Hc]|[Hin (e & He & Hb)] ]; [left|right].
    + split; [done|]. intros a e He E. apply (Hc a e); [|done|done]. apply (ho_bucket _ _ _ _ Hh); [done|].
      exists (block_num e), (valid e). split; [by apply lookup_info|by rewrite E].
    + split; [intros ->; by rewrite Hn in He|eauto].
Qed.

(** ** Operations on well-formed caches *)

Definition iview (m : gmap Z cache_entry) : gmap Z (Z * list Z * Z) :=
  (fun e => (block_num e, data e, dirty e)) <$> m.

(** [c] is well formed, and what it stores, the disk and the lock are as in [c0]. *)
Record ok (c0 c : cache) : Prop := {
  ok_shape : exists l bks, shape c l bks;
  ok_info : iview (entries c) = iview (entries c0);
  ok_disk : disk c = disk c0;
  ok_locked : locked c = locked c0;
}.

Lemma ok_dom (c0 c : cache) (a : Z) : ok c0 c -> is_Some (entries c0 !! a) -> is_Some (entries c !! a).
Proof.
  intros Hok Ha. assert (is_Some (iview (entries c) !! a)) as H.
  { rewrite (ok_info _ _ Hok). unfold iview. by rewrite lookup_fmap, fmap_is_Some. }
  unfold iview in H. by rewrite lookup_fmap, fmap_is_Some in H.
Qed.

Lemma ok_refl (c : cache) (l : list Z) (bks : Z -> list Z) : shape c l bks -> ok c c.
Proof. intros H. constructor; eauto. Qed.

(** Changes of the variables beside the entries. *)
Lemma ok_frame (c0 c c' : cache) :
  ok c0 c -> entries c' = entries c -> cache_hash c' = cache_hash c -> lru_head c' = lru_head c ->
  lru_tail c' = lru_tail c -> disk c' = disk c -> locked c' = locked c -> ok c0 c'.
Proof.
  intros [ (l & bks & [Hl Hh]) Hi Hd Hlk] He Hch Hhd Htl Hdk Hlo. constructor.
  - exists l, bks. split; by rewrite He, ?Hch, ?Hhd, ?Htl.
  - by rewrite He.
  - by rewrite Hdk.
  - by rewrite Hlo.
Qed.

(** Changes of the fields of an entry that are neither pointers nor content. *)
Lemma shape_alter (c : cache) (l : list Z) (bks : Z -> list Z) (a : Z) (f : cache_entry -> cache_entry) :
  shape c l bks ->
  (forall e, (lru_prev (f e), lru_next (f e)) = (lru_prev e, lru_next e)) ->
  (forall e, (hash_prev (f e), hash_next (f e)) = (hash_prev e, hash_next e)) ->
  (forall e, (block_num (f e), valid (f e)) = (block_num e, valid e)) ->
  shape (set_entries (alter f a (entries c)) c) l bks.
Proof.
  intros [Hl Hh] H1 H2 H3. unfold shape. cbn [entries lru_head lru_tail cache_hash set_entries].
  unfold lview, hview, bview. by rewrite !fmap_alter_same.
Qed.

Lemma ok_update (c0 c : cache) (a : Z) (f : cache_entry -> cache_entry) :
  ok c0 c -> is_Some (entries c0 !! a) ->
  (forall e, (lru_prev (f e), lru_next (f e)) = (lru_prev e, lru_next e)) ->
  (forall e, (hash_prev (f e), hash_next (f e)) = (hash_prev e, hash_next e)) ->
  (forall e, (block_num (f e), valid (f e)) = (block_num e, valid e)) ->
  (forall e, (block_num (f e), data (f e), dirty (f e)) = (block_num e, data e, dirty e)) ->
  wp (update a f) (fun _ c' => ok c0 c') c.
Proof.
  intros Hok Ha H1 H2 H3 H4. apply wp_set_entry; [by eapply ok_dom|]. destruct Hok as [ (l & bks & Hs) Hi Hd Hl].
  constructor; [|cbn|done|done].
  - exists l, bks. by apply shape_alter.
  - unfold iview in *. by rewrite fmap_alter_same.
Qed.

Lemma ok_touch (c0 c : cache) (a : Z) :
  ok c0 c -> is_Some (entries c0 !! a) -> wp (touch a) (fun _ c' => ok c0 c') c.
Proof.
  intros Hok Ha. unfold touch, tick. wp_run. apply ok_update; [|done..]. by eapply ok_frame.
Qed.

Lemma shape_null (c : cache) (l : list Z) (bks : Z -> list Z) : shape c l bks -> entries c !! NULL = None.
Proof. intros [Hl _]. eapply view_null, ll_null; exact Hl. Qed.

Lemma shape_lru (c : cache) (l : list Z) (bks : Z -> list Z) (a : Z) (e : cache_entry) :
  shape c l bks -> entries c !! a = Some e ->
  exists l1 l2, l = l1 ++ a :: l2 /\ lru_prev e = last_of NULL l1 /\ lru_next e = first_of NULL l2 /\
    (lru_prev e <> NULL -> is_Some (entries c !! lru_prev e)) /\ (lru_next e <> NULL -> is_Some (entries c !! lru_next e)).
Proof.
  intros [Hl _] He. destruct (lookup_info _ _ _ He) as (_ & _ & Hlv).
  assert (a ∈ l) as Hin by (apply (ll_dom _ _ _ _ Hl); eauto).
  apply list_elem_of_split in Hin as (l1 & l2 & ->). exists l1, l2.
  destruct (lru_ok_entry _ _ _ _ _ _ Hl) as (Hlv' & _). rewrite Hlv in Hlv'. injection Hlv' as Hp Hx.
  assert (forall x, x ∈ l1 ++ a :: l2 -> is_Some (entries c !! x)) as Hd.
  { intros x Hx'. apply (ll_dom _ _ _ _ Hl) in Hx'. unfold lview in Hx'. by rewrite lookup_fmap, fmap_is_Some in Hx'. }
  split_and!; [done|done|done| |].
  - rewrite Hp. intros Hn. apply Hd, elem_of_app. left. destruct l1; [done|]. by apply last_of_elem.
  - rewrite Hx. intros Hn. apply Hd, elem_of_app. right. right. destruct l2; [done|]. by apply first_of_elem.
Qed.

Lemma lview_removed (a p n : Z) (m : gmap Z cache_entry) :
  lview (alter clear_lru a (alter (set_lru_prev p) n (alter (set_lru_next n) p m))) = lv_removed a p n (lview m).
Proof.
  unfold lview, lv_removed. rewrite (fmap_alter_view _ clear_lru (fun _ => (NULL, NULL))) by done.
  rewrite (fmap_alter_view _ (set_lru_prev p) (with_prev p)) by done.
  by rewrite (fmap_alter_view _ (set_lru_next n) (with_next n)) by done.
Qed.

(** Moving an entry to the front of the LRU list. *)
Lemma ok_front (c0 c : cache) (a : Z) (A : Type) (k : M A) (Q : A -> cache -> Prop) :
  ok c0 c -> is_Some (entries c0 !! a) -> (forall c', ok c0 c' -> wp k Q c') ->
  wp (lru_remove a ;; lru_add_front a ;; k) Q c.
Proof.
  intros Hok Ha Hk. destruct (ok_dom _ _ _ Hok Ha) as [e He]. destruct Hok as [ (l & bks & Hs) Hi Hd Hlk].
  destruct (shape_lru c l bks a e Hs He) as (l1 & l2 & -> & Hp & Hx & Hpe & Hxe).
  eapply wp_seq; [by apply (lru_remove_run c a e (shape_null _ _ _ Hs) He)|]. intros [] c1 ->.
  pose proof Hs as [Hl Hh]. destruct (lru_ok_remove _ _ _ _ _ _ Hl) as (Hh1 & Ht1 & Hc1 & Hnd1).
  set (c1 := lru_removed a (lru_prev e) (lru_next e) c).
  assert (entries c1 !! NULL = None) as Hn1 by (unfold c1; cbn; rewrite !alter_null; by eapply shape_null).
  assert (forall x, is_Some (entries c !! x) -> is_Some (entries c1 !! x)) as Hal by (intros x Hx'; unfold c1; cbn; by rewrite !alter_is_Some).
  assert (lru_head c1 = first_of NULL (l1 ++ l2)) as Hhd1 by (rewrite <-Hh1; unfold c1; cbn; by rewrite Hp, Hx).
  eapply wp_seq.
  { apply (lru_add_front_run c1 a Hn1); [apply Hal; eauto|]. rewrite Hhd1. intros Hne. apply Hal.
    assert (first_of NULL (l1 ++ l2) ∈ l1 ++ a :: l2) as Hin.
    { destruct (l1 ++ l2) as [|y m] eqn:E; [done|]. assert (y ∈ l1 ++ l2) by (rewrite E; by left).
      change (first_of NULL (y :: m)) with y. set_solver. }
    apply (ll_dom _ _ _ _ Hl) in Hin. unfold lview in Hin. by rewrite lookup_fmap, fmap_is_Some in Hin. }
  intros [] c2 ->. apply Hk. constructor; [|unfold iview in *; cbn; by rewrite !fmap_alter_same|done|done].
  exists (a :: l1 ++ l2), bks. split.
  - unfold c1. cbn [entries lru_head lru_tail lru_fronted lru_removed set_entries set_lru_tail set_lru_head].
    pose proof (lru_ok_front _ _ _ _ _ _ Hl) as Hf. cbv zeta in Hf. rewrite <-Hp, <-Hx in Hf.
    rewrite <-lview_removed in Hf. unfold lview in *.
    rewrite (fmap_alter_view _ (set_lru_prev a) (with_prev a)) by done.
    rewrite (fmap_alter_view _ (fun e0 => set_lru_prev NULL (set_lru_next _ e0)) (fun _ => (NULL, if lru_prev e =? NULL then lru_next e else lru_head c))) by done.
    exact Hf.
  - unfold c1. cbn. unfold hview, bview. by rewrite !fmap_alter_same.
Qed.

(** ** Resident blocks *)

(** The transfer of the block stays inside a buffer of 4096 bytes. *)
Definition fits (b : Z) : bool := u8 (lba_of b) <=? 8.

(** The entries are the resident blocks [A]. *)
Record holds (iv : gmap Z (Z * list Z * Z)) (A : gmap Z (list Z)) : Prop := {
  h_sound : forall a b d x, iv !! a = Some (b, d, x) -> A !! b = Some d /\ fits b /\ zlen d = 4096;
  h_complete : forall b d, A !! b = Some d -> exists a x, iv !! a = Some (b, d, x);
}.

(** A well-formed cache, whose lock may be held, with the resident blocks [A]. *)
Record good (c : cache) (A : gmap Z (list Z)) : Prop := {
  g_shape : exists l bks, shape c l bks;
  g_holds : holds (iview (entries c)) A;
  g_disk : forall s, zlen (disk c s) = 512;
}.

Definition inv (c : cache) (A : gmap Z (list Z)) : Prop := locked c = false /\ good c A.

Lemma iview_lookup (m : gmap Z cache_entry) (a b x : Z) (d : list Z) :
  iview m !! a = Some (b, d, x) <-> exists e, m !! a = Some e /\ block_num e = b /\ data e = d /\ dirty e = x.
Proof.
  unfold iview. rewrite lookup_fmap, fmap_Some. split.
  - intros (e & He & [= -> -> ->]). eauto.
  - intros (e & He & <- & <- & <-). eauto.
Qed.

Lemma good_entry (c : cache) (A : gmap Z (list Z)) (a : Z) (e : cache_entry) :
  good c A -> entries c !! a = Some e -> A !! block_num e = Some (data e) /\ fits (block_num e) /\ zlen (data e) = 4096.
Proof. intros [_ Hh _] He. eapply (h_sound _ _ Hh). apply iview_lookup. eauto. Qed.

Lemma good_ok (c c' : cache) (A : gmap Z (list Z)) : good c A -> ok c c' -> good c' A.
Proof. intros [Hs Hh Hd] [Hs' Hi Hk Hl]. constructor; [done|by rewrite Hi|by rewrite Hk]. Qed.

Lemma good_refl (c : cache) (A : gmap Z (list Z)) : good c A -> ok c c.
Proof. intros [ (l & bks & Hs) _ _]. by eapply ok_refl. Qed.

(** Changes of the variables beside the entries and the lists. *)
Lemma good_frame (c c' : cache) (A : gmap Z (list Z)) :
  good c A -> entries c' = entries c -> cache_hash c' = cache_hash c -> lru_head c' = lru_head c ->
  lru_tail c' = lru_tail c -> (forall s, zlen (disk c' s) = 512) -> good c' A.
Proof.
  intros [ (l & bks & [Hl Hh]) Hho Hd] He Hch Hhd Htl Hdk. constructor; [|by rewrite He|done].
  exists l, bks. split; by rewrite He, ?Hch, ?Hhd, ?Htl.
Qed.

(** Unlocking at the end of an operation. *)
Lemma wp_unlock (Q : unit -> cache -> Prop) (c : cache) (A : gmap Z (list Z)) :
  good c A -> (forall c', inv c' A -> Q tt c') -> wp unlock_cache Q c.
Proof.
  intros Hg HQ. unfold unlock_cache. apply wp_modify, HQ. split; [done|]. eapply good_frame; [exact Hg|done..|apply Hg].
Qed.

Lemma wp_lock (Q : unit -> cache -> Prop) (c : cache) (A : gmap Z (list Z)) :
  inv c A -> (forall c', good c' A -> Q tt c') -> wp lock_cache Q c.
Proof.
  intros [Hl Hg] HQ. unfold lock_cache. apply wp_bind, wp_gets. rewrite Hl. apply wp_modify, HQ.
  eapply good_frame; [exact Hg|done..|apply Hg].
Qed.

(** Lookup in terms of the resident blocks. *)
Lemma good_lookup (c : cache) (A : gmap Z (list Z)) (b : Z) :
  good c A ->
  wp (cache_lookup b) (fun r c' => c' = c /\
    (r = NULL /\ A !! b = None \/
     r <> NULL /\ exists e, entries c !! r = Some e /\ block_num e = b /\ A !! b = Some (data e))) c.
Proof.
  intros Hg. destruct (g_shape _ _ Hg) as (l & bks & Hs). eapply wp_mono; [by eapply cache_lookup_spec|].
  intros r c' _ [-> Hr]. split; [done|]. destruct Hr as [ [-> Hr]|(Hr & e & He & Hb)]; [left|right].
  - split; [done|]. destruct (A !! b) as [d|] eqn:E; [|done].
    destruct (h_complete _ _ (g_holds _ _ Hg) b d E) as (a & x & Ha). apply iview_lookup in Ha as (e & He & Hb & _).
    by destruct (Hr a e He).
  - split; [done|]. exists e. split_and!; [done..|]. rewrite <-Hb. by apply (good_entry c A r).
Qed.

(** *** Transfers *)

Lemma zlen_sectors (d : Z -> list Z) (lba : Z) (n : nat) :
  (forall s, zlen (d s) = 512) -> zlen (sectors_from d lba n) = 512 * Z.of_nat n.
Proof.
  intros Hd. revert lba. induction n as [|n IH]; intros lba; [done|]. simpl sectors_from.
  rewrite zlen_app, IH, Hd. lia.
Qed.

Lemma zlen_stored (d : Z -> list Z) (lba : Z) (n : nat) (buf : list Z) :
  (forall s, zlen (d s) = 512) -> 512 * Z.of_nat n <= zlen buf ->
  forall s, zlen (store_sectors d lba n buf s) = 512.
Proof.
  revert d lba buf. induction n as [|n IH]; intros d lba buf Hd Hb s; [apply Hd|]. simpl. apply IH.
  - intros l. case_if; [|apply Hd]. unfold zlen in *. rewrite length_take. lia.
  - unfold zlen in *. rewrite length_drop. lia.
Qed.

Lemma u8_range (z : Z) : 0 <= u8 z < 256.
Proof. apply Z.mod_pos_bound. lia. Qed.

Section specs.
Context `{Memory, Device}.

Lemma read_block_good (c : cache) (A : gmap Z (list Z)) (b : Z) (buf : list Z) :
  good c A -> fits b -> zlen buf = 4096 ->
  wp (read_block b buf) (fun r c' => good c' A /\ (r = None \/ exists d, r = Some d /\ zlen d = 4096)) c.
Proof.
  intros Hg Hf Hb. unfold fits in Hf. pose proof (u8_range (lba_of b)) as Hr. apply Is_true_true, Z.leb_le in Hf.
  unfold read_block, ide_read_sectors. rewrite (proj2 (Z.ltb_ge _ _)) by lia. wp_run. split.
  - eapply good_frame; [exact Hg|done..|apply Hg].
  - case_if; [|by left]. right. eexists. split; [done|]. rewrite zlen_app, zlen_sectors by apply Hg.
    unfold zlen in *. rewrite length_drop. lia.
Qed.

Lemma write_block_good (c : cache) (A : gmap Z (list Z)) (b : Z) (buf : list Z) :
  good c A -> fits b -> zlen buf = 4096 ->
  wp (write_block b buf) (fun _ c' => good c' A /\ entries c' = entries c) c.
Proof.
  intros Hg Hf Hb. unfold fits in Hf. pose proof (u8_range (lba_of b)) as Hr. apply Is_true_true, Z.leb_le in Hf.
  unfold write_block, ide_write_sectors. rewrite (proj2 (Z.ltb_ge _ _)) by lia. wp_run.
  case_if; wp_run; (split; [|done]).
  - eapply good_frame; [exact Hg|done..|]. cbn. apply zlen_stored; [apply Hg|lia].
  - eapply good_frame; [exact Hg|done..|apply Hg].
Qed.

(** *** Insertion *)

Lemma holds_insert (iv : gmap Z (Z * list Z * Z)) (A : gmap Z (list Z)) (a b x : Z) (d : list Z) :
  holds iv A -> iv !! a = None -> A !! b = None -> fits b -> zlen d = 4096 ->
  holds (<[a := (b, d, x)]> iv) (<[b := d]> A).
Proof.
  intros [Hs Hc] Ha Hb Hf Hd. constructor.
  - intros a' b' d' x'. rewrite lookup_insert. case_decide as E; [intros [= -> -> ->]; by rewrite lookup_insert_eq|].
    intros Hi. destruct (Hs _ _ _ _ Hi) as (H1 & H2 & H3). rewrite lookup_insert_ne by congruence. done.
  - intros b' d'. rewrite lookup_insert. case_decide as E; [intros [= ->]; subst; exists a, x; by rewrite lookup_insert_eq|].
    intros (a' & x' & Hi)%Hc. exists a', x'. rewrite lookup_insert_ne; [done|]. intros ->. by rewrite Ha in Hi.
Qed.

Lemma cache_insert_good (c : cache) (A : gmap Z (list Z)) (b : Z) (buf : list Z) :
  good c A -> A !! b = None -> fits b -> zlen buf = 4096 ->
  wp (cache_insert b buf) (fun r c' => r = -1 /\ good c' A \/ r = 0 /\ good c' (<[b := buf]> A)) c.
Proof.
  intros Hg Hb Hf Hbuf. unfold cache_insert, malloc_entry. wp_run.
  set (a := malloc_answer c). destruct (Z.eqb_spec a NULL) as [Ea|Ea].
  { wp_run. left. split; [done|]. eapply good_frame; [exact Hg|done..|apply Hg]. }
  assert (entries c !! a = None) as Ha by (by apply malloc_fresh). wp_run. case_if.
  { wp_run. left. split; [done|]. eapply good_frame; [exact Hg|done..|apply Hg]. }
  unfold tick. wp_run. cbn [entries cache_hash set_cache_time set_mallocs].
  destruct Hg as [ (l & bks & [Hl Hh]) Hho Hd].
  set (e := mk_entry _ _ _ _ _ _ _ _ _ _). set (c1 := set_entries _ _). set (i := cache_hash_fn b) in *.
  assert (entries c !! NULL = None) as Hn by (eapply view_null, ll_null; exact Hl).
  assert (entries c1 !! NULL = None) as Hn1 by (unfold c1; cbn; by rewrite lookup_insert_ne).
  pose proof (ho_head _ _ _ _ Hh i (hash_range b)) as Hhd.
  assert (forall y, is_Some (entries c !! y) -> is_Some (entries c1 !! y)) as Hgrow.
  { intros y Hy. unfold c1. cbn. rewrite lookup_insert. case_decide; [eauto|done]. }
  apply wp_set_entry_opt; [done| |].
  { intros Hne. apply Hgrow. rewrite Hhd in *. assert (bks i <> []) as Hnil by (by intros E; rewrite E in Hne).
    destruct (dseg_links _ _ _ _ _ (ho_chain _ _ _ _ Hh i (hash_range b)) (first_of_elem NULL _ Hnil)) as [x Hx].
    unfold hview in Hx. rewrite lookup_fmap in Hx. apply fmap_Some in Hx as (e' & He' & _). eauto. }
  wp_run. set (c2 := set_cache_hash _ _).
  assert (entries c2 = alter (set_hash_prev a) (cache_hash c).[i] (<[a := e]> (entries c))) as He2 by done.
  eapply wp_mono.
  { apply (lru_add_front_run c2 a); rewrite He2.
    - rewrite alter_null, lookup_insert_ne by done. done.
    - rewrite alter_is_Some, lookup_insert_eq. eauto.
    - intros Hne. rewrite alter_is_Some, lookup_insert. case_decide; [eauto|].
      assert (lru_head c ∈ l) as Hin.
      { change (lru_head c2) with (lru_head c) in Hne. rewrite (ll_head _ _ _ _ Hl) in *. destruct l; [done|]. by left. }
      apply (ll_dom _ _ _ _ Hl) in Hin. unfold lview in Hin. by rewrite lookup_fmap, fmap_is_Some in Hin. }
  intros [] c3 _ ->. wp_run. right. split; [done|]. constructor; [| |done].
  - exists (a :: l), (in_bucket i (a :: bks i) bks). split.
    + cbn [lru_head lru_tail lru_fronted entries set_entries set_lru_tail set_lru_head]. rewrite He2.
      change (lru_head c2) with (lru_head c). change (lru_tail c2) with (lru_tail c).
      unfold lview. rewrite (fmap_alter_view _ (set_lru_prev a) (with_prev a)) by done.
      rewrite (fmap_alter_view _ (fun e0 => set_lru_prev NULL (set_lru_next _ e0)) (fun _ => (NULL, lru_head c))) by done.
      rewrite (fmap_alter_same _ (set_hash_prev a)) by done. rewrite fmap_insert. apply lru_ok_insert; [done|done|].
      by apply view_null.
    + cbn [cache_hash lru_fronted entries set_entries set_lru_tail set_lru_head]. rewrite He2.
      change (cache_hash c2) with ((cache_hash c).[i <- a]).
      unfold hview, bview. rewrite !(fmap_alter_same _ (set_lru_prev a)) by done.
      rewrite !(fmap_alter_same _ (fun e0 => set_lru_prev NULL (set_lru_next _ e0))) by done.
      rewrite (fmap_alter_same (fun e0 => (block_num e0, valid e0)) (set_hash_prev a)) by done.
      rewrite (fmap_alter_view _ (set_hash_prev a) (with_prev a)) by done. rewrite !fmap_insert.
      apply hash_ok_insert; [done|done|by apply view_null|]. intros y w Hy. rewrite lookup_fmap in Hy.
      apply fmap_Some in Hy as (e' & He' & [= E _]).
      assert (iview (entries c) !! y = Some (b, data e', dirty e')) as Hiv by (apply iview_lookup; eauto).
      apply (h_sound _ _ Hho) in Hiv as [Hiv _]. by rewrite Hb in Hiv.
  - cbn [lru_fronted entries set_entries set_lru_tail set_lru_head]. rewrite He2.
    unfold iview. rewrite !fmap_alter_same by done. rewrite fmap_insert. apply holds_insert; try done. by apply view_null.
Qed.

(** *** Writing to an entry *)

(** A new content for the entry of [b]. *)
Lemma good_store (c : cache) (A : gmap Z (list Z)) (a : Z) (e : cache_entry) (buf : list Z) (f : cache_entry -> cache_entry) :
  good c A -> entries c !! a = Some e -> zlen buf = 4096 ->
  (forall e, (lru_prev (f e), lru_next (f e)) = (lru_prev e, lru_next e)) ->
  (forall e, (hash_prev (f e), hash_next (f e)) = (hash_prev e, hash_next e)) ->
  (forall e, (block_num (f e), valid (f e)) = (block_num e, valid e)) -> data (f e) = buf ->
  good (set_entries (alter f a (entries c)) c) (<[block_num e := buf]> A).
Proof.
  intros Hg He Hbuf H1 H2 H3 H4. pose proof (good_entry _ _ _ _ Hg He) as (HA & Hfit & _).
  destruct (g_shape _ _ Hg) as (l & bks & Hs). assert (block_num (f e) = block_num e) as H3e by (specialize (H3 e); congruence).
  assert (forall a' e', entries c !! a' = Some e' -> block_num e' = block_num e -> a' = a) as Hun.
  { intros a' e' He' Hb. destruct Hs as [_ Hh]. destruct (lookup_info _ _ _ He) as [Hi _].
    destruct (lookup_info _ _ _ He') as [Hi' _]. rewrite Hb in Hi'. by eapply (ho_unique _ _ _ _ Hh). }
  constructor; [exists l, bks; by apply shape_alter| |apply Hg]. destruct (g_holds _ _ Hg) as [Hso Hco].
  cbn [entries set_entries]. constructor.
  - intros a' b' d' x' (e' & He' & <- & <- & <-)%iview_lookup. rewrite lookup_alter_if in He'. case_decide as E.
    + subst. rewrite He in He'. injection He' as <-. by rewrite H3e, lookup_insert_eq.
    + destruct (entries c !! a') as [e1|] eqn:E1; [|done]. simpl in He'. injection He' as <-. rewrite lookup_insert_ne.
      * by apply (good_entry c A a').
      * intros Hb. by destruct E; eapply Hun.
  - intros b' d'. rewrite lookup_insert. case_decide as E.
    + intros [= <-]. subst b'. exists a, (dirty (f e)). apply iview_lookup. exists (f e).
      rewrite lookup_alter_if, decide_True, He by done. done.
    + intros (a' & x' & (e' & He' & Hb & Hd & Hx)%iview_lookup)%Hco. exists a', x'. apply iview_lookup. exists e'.
      rewrite lookup_alter_if, decide_False, He'; [done|]. intros ->. simplify_eq.
Qed.

(** A change of the marks and the counters of an entry. *)
Lemma good_mark (c : cache) (A : gmap Z (list Z)) (a : Z) (e : cache_entry) (f : cache_entry -> cache_entry) :
  good c A -> entries c !! a = Some e ->
  (forall e, (lru_prev (f e), lru_next (f e)) = (lru_prev e, lru_next e)) ->
  (forall e, (hash_prev (f e), hash_next (f e)) = (hash_prev e, hash_next e)) ->
  (forall e, (block_num (f e), valid (f e)) = (block_num e, valid e)) -> (forall e, data (f e) = data e) ->
  good (set_entries (alter f a (entries c)) c) A.
Proof.
  intros Hg He H1 H2 H3 H4. destruct (good_entry _ _ _ _ Hg He) as (HA & _ & Hl).
  rewrite <-(insert_id A _ _ HA). by eapply (good_store c A a e (data e)).
Qed.

(** [entry->access_time = cache_time++] and the move to the front. *)
Lemma good_touch (c : cache) (A : gmap Z (list Z)) (a : Z) :
  good c A -> is_Some (entries c !! a) -> wp (touch a) (fun _ c' => good c' A /\ is_Some (entries c' !! a)) c.
Proof.
  intros Hg Ha. eapply wp_mono; [apply (ok_touch c); [by eapply good_refl|done]|]. intros [] c' _ Hok.
  split; [by eapply good_ok|by eapply ok_dom].
Qed.

Lemma good_front (c : cache) (A : gmap Z (list Z)) (a : Z) (B : Type) (k : M B) (Q : B -> cache -> Prop) :
  good c A -> is_Some (entries c !! a) -> (forall c', good c' A -> wp k Q c') ->
  wp (lru_remove a ;; lru_add_front a ;; k) Q c.
Proof.
  intros Hg Ha Hk. apply (ok_front c); [by eapply good_refl|done|]. intros c' Hok. apply Hk. by eapply good_ok.
Qed.

(** *** The operations on a block *)

Lemma cache_write_spec (c : cache) (A : gmap Z (list Z)) (b : Z) (buf : list Z) :
  inv c A -> fits b -> zlen buf = 4096 ->
  wp (cache_write b buf) (fun r c' => r = 0 /\ inv c' (<[b := buf]> A) \/ r = -1 /\ A !! b = None /\ inv c' A) c.
Proof.
  intros Hi Hf Hbuf. unfold cache_write. apply wp_bind. eapply wp_lock; [exact Hi|]. intros c1 Hg1.
  eapply wp_seq; [by apply good_lookup|]. intros r c2 [-> [ [-> Hb]|(Hr & e & He & Hb & HA)] ].
  - simpl. eapply wp_seq; [by apply cache_insert_good|]. intros r c2 Hins.
    destruct Hins as [ [_ Hg]|[_ Hg] ].
    + eapply wp_seq; [by apply good_lookup|]. intros r' c3 [-> [ [-> _]|(_ & e & _ & _ & HA)] ]; [|by rewrite Hb in HA].
      simpl. apply wp_bind. eapply wp_unlock; [exact Hg|]. intros c4 Hc4. wp_run. by right.
    + eapply wp_seq; [by apply good_lookup|].
      intros r' c3 [-> [ [_ Hn]|(Hr' & e & He & He' & HA)] ]; [by rewrite lookup_insert_eq in Hn|].
      rewrite (proj2 (Z.eqb_neq _ _) Hr'). apply wp_bind, wp_set_entry; [eauto|].
      eapply wp_seq.
      * apply good_touch; [by eapply good_mark|]. cbn. rewrite alter_is_Some. eauto.
      * intros [] c3 [Hg3 _]. apply wp_bind. eapply wp_unlock; [exact Hg3|]. intros c4 Hc4. wp_run. by left.
  - rewrite (proj2 (Z.eqb_neq _ _) Hr). simpl negb. cbv iota. apply wp_bind, wp_set_entry; [eauto|]. eapply wp_seq.
    + apply good_touch; [eapply (good_store c1 A r e buf); done|]. cbn. rewrite alter_is_Some. eauto.
    + intros [] c3 [Hg3 Hr3]. eapply good_front; [exact Hg3|done|]. intros c4 Hg4. apply wp_bind.
      eapply wp_unlock; [exact Hg4|]. intros c5 Hc5. wp_run. left. by rewrite <-Hb.
Qed.

Lemma cache_read_spec (c : cache) (A : gmap Z (list Z)) (b : Z) :
  inv c A -> (A !! b = None -> fits b) ->
  wp (cache_read b) (fun r c' =>
    match A !! b with
    | Some d => r = (0, d) /\ inv c' A
    | None => r = (-1, []) /\ inv c' A \/ exists d, r = (0, d) /\ inv c' (<[b := d]> A)
    end) c.
Proof.
  intros Hi Hf. unfold cache_read. apply wp_bind. eapply wp_lock; [exact Hi|]. intros c1 Hg1.
  eapply wp_seq; [by apply good_lookup|]. intros r c2 [-> [ [-> Hb]|(Hr & e & He & Hb & HA)] ].
  - rewrite Hb. simpl. unfold malloc_entry. wp_run. set (c2 := set_mallocs _ _).
    assert (good c2 A) as Hg2 by (eapply good_frame; [exact Hg1|done..|apply Hg1]). case_if.
    { apply wp_bind. eapply wp_unlock; [exact Hg2|]. intros c3 Hc3. wp_run. by left. }
    wp_run. eapply wp_mono; [apply read_block_good; [exact Hg2|auto|apply malloc_size]|]. intros rd c3 _ [Hg3 Hrd].
    destruct Hrd as [->|(d & -> & Hd)].
    { apply wp_bind. eapply wp_unlock; [exact Hg3|]. intros c4 Hc4. wp_run. by left. }
    eapply wp_seq; [apply cache_insert_good; [exact Hg3|auto..] |]. intros r c4 [ [_ Hg4]|[_ Hg4] ].
    + eapply wp_seq; [by apply good_lookup|]. intros r' c5 [-> [ [-> _]|(_ & e & _ & _ & HA)] ]; [|by rewrite Hb in HA].
      simpl. apply wp_bind. eapply wp_unlock; [exact Hg4|]. intros c5 Hc5. wp_run. by left.
    + eapply wp_seq; [by apply good_lookup|].
      intros r' c5 [-> [ [_ Hn]|(Hr' & e & He & He' & HA)] ]; [by rewrite lookup_insert_eq in Hn|].
      rewrite (proj2 (Z.eqb_neq _ _) Hr'). apply wp_bind. eapply wp_entry; [exact He|]. apply wp_bind, wp_set_entry; [eauto|].
      eapply wp_seq.
      * apply good_touch; [by eapply good_mark|]. cbn. rewrite alter_is_Some. eauto.
      * intros [] c5 [Hg5 _]. apply wp_bind. eapply wp_unlock; [exact Hg5|]. intros c6 Hc6. wp_run. right.
        exists d. rewrite lookup_insert_eq in HA. by injection HA as ->.
  - rewrite HA, (proj2 (Z.eqb_neq _ _) Hr). simpl negb. cbv iota. apply wp_bind. eapply wp_entry; [exact He|].
    apply wp_bind, wp_set_entry; [eauto|]. eapply wp_seq.
    + apply good_touch; [by eapply good_mark|]. cbn. rewrite alter_is_Some. eauto.
    + intros [] c3 [Hg3 Hr3]. apply wp_bind, wp_modify. eapply good_front.
      * eapply good_frame; [exact Hg3|done..|apply Hg3].
      * done.
      * intros c4 Hg4. apply wp_bind. eapply wp_unlock; [exact Hg4|]. intros c5 Hc5. by wp_run.
Qed.

(** *** Removal *)

Definition hash_unlinked (a p n : Z) (m : gmap Z cache_entry) : gmap Z cache_entry :=
  alter (set_hash_prev p) n (alter (set_hash_next n) p m).

Definition hash_removed (a i p n : Z) (c : cache) : cache :=
  set_entries (hash_unlinked a p n (entries c))
    (set_cache_hash (if (cache_hash c).[i] =? a then (cache_hash c).[i <- n] else cache_hash c) c).

Lemma chain_remove_run (c : cache) (a : Z) (e : cache_entry) :
  entries c !! NULL = None -> entries c !! a = Some e ->
  (hash_prev e <> NULL -> is_Some (entries c !! hash_prev e)) ->
  (hash_next e <> NULL -> is_Some (entries c !! hash_next e)) ->
  wp (chain_remove a) (fun _ c' => c' = hash_removed a (cache_hash_fn (block_num e)) (hash_prev e) (hash_next e) c) c.
Proof.
  intros Hn He Hp Hx. unfold chain_remove. wp_run. eapply wp_entry; [exact He|]. wp_run.
  set (i := cache_hash_fn (block_num e)).
  set (h' := if (cache_hash c).[i] =? a then (cache_hash c).[i <- hash_next e] else cache_hash c).
  apply (wp_mono _ (fun _ c1 => c1 = set_cache_hash h' c)).
  { unfold h'. case_if; [by wp_run|]. apply wp_ret. by destruct c. }
  intros [] c1 _ ->. apply wp_bind, wp_set_entry_opt; [done|done|].
  apply wp_set_entry_opt; [by apply alter_null|intros Hne; by apply alter_is_Some, Hx|]. done.
Qed.

Lemma shape_hash (c : cache) (l : list Z) (bks : Z -> list Z) (a : Z) (e : cache_entry) :
  shape c l bks -> entries c !! a = Some e ->
  exists l1 l2, bks (cache_hash_fn (block_num e)) = l1 ++ a :: l2 /\
    hash_prev e = last_of NULL l1 /\ hash_next e = first_of NULL l2 /\
    (hash_prev e <> NULL -> is_Some (entries c !! hash_prev e)) /\ (hash_next e <> NULL -> is_Some (entries c !! hash_next e)).
Proof.
  intros [_ Hh] He. destruct (lookup_info _ _ _ He) as (Hb & Hhv & _).
  destruct (hash_ok_entry _ _ _ _ _ _ _ Hh Hb) as (l1 & l2 & Hl & Hv). rewrite Hhv in Hv. injection Hv as Hp Hx.
  pose proof (ho_chain _ _ _ _ Hh _ (hash_range (block_num e))) as Hc. rewrite Hl in Hc.
  assert (forall x, x ∈ l1 ++ a :: l2 -> is_Some (entries c !! x)) as Hd.
  { intros x Hx'. destruct (dseg_links _ _ _ _ _ Hc Hx') as [y Hy]. unfold hview in Hy. rewrite lookup_fmap in Hy.
    apply fmap_Some in Hy as (e' & He' & _). eauto. }
  exists l1, l2. split_and!; [done|done|done| |].
  - rewrite Hp. intros Hn. apply Hd, elem_of_app. left. destruct l1; [done|]. by apply last_of_elem.
  - rewrite Hx. intros Hn. apply Hd, elem_of_app. right. right. destruct l2; [done|]. by apply first_of_elem.
Qed.

(** The state after the removal of [a] from both chains and from memory, in either order. *)
Lemma good_removed (c c' : cache) (A : gmap Z (list Z)) (a : Z) (e : cache_entry) :
  let p := lru_prev e in let n := lru_next e in let i := cache_hash_fn (block_num e) in
  good c A -> entries c !! a = Some e ->
  lview (entries c') = delete a (lv_removed a p n (lview (entries c))) ->
  hview (entries c') = delete a (alter (with_prev (hash_prev e)) (hash_next e)
                                   (alter (with_next (hash_next e)) (hash_prev e) (hview (entries c)))) ->
  bview (entries c') = delete a (bview (entries c)) -> iview (entries c') = delete a (iview (entries c)) ->
  lru_head c' = (if p =? NULL then n else lru_head c) -> lru_tail c' = (if n =? NULL then p else lru_tail c) ->
  cache_hash c' = (if (cache_hash c).[i] =? a then (cache_hash c).[i <- hash_next e] else cache_hash c) ->
  disk c' = disk c -> good c' (delete (block_num e) A).
Proof.
  intros p n i Hg He Hlv Hhv Hbv Hiv Hhd Htl Hch Hdk. destruct (g_shape _ _ Hg) as (l & bks & Hs).
  destruct (shape_lru _ _ _ _ _ Hs He) as (l1 & l2 & -> & Hp & Hn & _).
  destruct (shape_hash _ _ _ _ _ Hs He) as (k1 & k2 & Hk & Hhp & Hhn & _).
  destruct (lookup_info _ _ _ He) as (Hb & _). pose proof Hs as [Hl Hh]. constructor.
  - exists (l1 ++ l2), (in_bucket i (k1 ++ k2) bks). split.
    + rewrite Hlv, Hhd, Htl. subst p n. rewrite Hp, Hn. by apply lru_ok_delete.
    + rewrite Hhv, Hbv, Hch, Hhp, Hhn. by eapply hash_ok_delete.
  - rewrite Hiv. destruct (g_holds _ _ Hg) as [Hso Hco]. constructor.
    + intros a' b d x [Hne Ha']%lookup_delete_Some. destruct (Hso _ _ _ _ Ha') as (H1 & H2 & H3).
      rewrite lookup_delete_ne; [done|]. intros E. apply Hne. apply iview_lookup in Ha' as (e' & He' & Hb' & _).
      destruct (lookup_info _ _ _ He') as (Hbv' & _). rewrite Hb', <-E in Hbv'. by eapply (ho_unique _ _ _ _ Hh).
    + intros b d [Hne (a' & x & Ha')%Hco]%lookup_delete_Some. exists a', x. rewrite lookup_delete_ne; [done|].
      intros ->. apply iview_lookup in Ha' as (e' & He' & Hb' & _). simplify_eq.
  - rewrite Hdk. apply Hg.
Qed.

Lemma lru_then_hash (c : cache) (A : gmap Z (list Z)) (a : Z) (e : cache_entry) (B : Type) (k : M B) (Q : B -> cache -> Prop) :
  good c A -> entries c !! a = Some e -> (forall c', good c' (delete (block_num e) A) -> wp k Q c') ->
  wp (lru_remove a ;; chain_remove a ;; kfree_entry a ;; k) Q c.
Proof.
  intros Hg He Hk. destruct (g_shape _ _ Hg) as (l & bks & Hs).
  destruct (shape_lru _ _ _ _ _ Hs He) as (l1 & l2 & _ & _ & _ & Hp & Hn).
  destruct (shape_hash _ _ _ _ _ Hs He) as (k1 & k2 & _ & _ & _ & Hhp & Hhn).
  eapply wp_seq; [by apply (lru_remove_run c a e (shape_null _ _ _ Hs))|]. intros [] c1 ->.
  set (c1 := lru_removed a (lru_prev e) (lru_next e) c).
  assert (forall x, is_Some (entries c !! x) -> is_Some (entries c1 !! x)) as Hgrow by (intros x Hx; unfold c1; cbn; by rewrite !alter_is_Some).
  assert (entries c1 !! NULL = None) as Hn1 by (unfold c1; cbn; rewrite !alter_null; by eapply shape_null).
  destruct (Hgrow a ltac:(eauto)) as [e1 He1].
  assert (hview (entries c1) = hview (entries c)) as Hhv by (unfold c1, hview; cbn; by rewrite !fmap_alter_same).
  assert (bview (entries c1) = bview (entries c)) as Hbv by (unfold c1, bview; cbn; by rewrite !fmap_alter_same).
  destruct (lookup_info _ _ _ He) as (Hb & Hh & _). destruct (lookup_info _ _ _ He1) as (Hb1 & Hh1 & _).
  rewrite Hhv, Hh in Hh1. rewrite Hbv, Hb in Hb1. injection Hh1 as E1 E2. injection Hb1 as E3 _. rewrite E1, E2, E3 in *.
  eapply wp_seq; [apply (chain_remove_run c1 a e1 Hn1 He1); auto|]. intros [] c2 ->.
  unfold kfree_entry. apply wp_bind, wp_modify, Hk. rewrite <-E3. eapply (good_removed c _ A a e); try done.
  all: cbn [entries set_entries hash_removed cache_hash set_cache_hash]; rewrite ?E1, ?E2; unfold hash_unlinked.
  5: by rewrite E3.
  all: unfold lview, hview, bview, iview; rewrite fmap_delete; f_equal.
  - rewrite !(fmap_alter_same _ (set_hash_prev _)), !(fmap_alter_same _ (set_hash_next _)) by done. apply lview_removed.
  - rewrite (fmap_alter_view _ (set_hash_prev _) (with_prev (hash_prev e1))) by done.
    rewrite (fmap_alter_view _ (set_hash_next _) (with_next (hash_next e1))) by done. unfold hview in Hhv. by rewrite Hhv.
  - rewrite !fmap_alter_same by done. exact Hbv.
  - rewrite !(fmap_alter_same _ (set_hash_prev _)), !(fmap_alter_same _ (set_hash_next _)) by done.
    unfold c1. cbn. by rewrite !fmap_alter_same.
Qed.

Lemma hash_then_lru (c : cache) (A : gmap Z (list Z)) (a : Z) (e : cache_entry) (B : Type) (k : M B) (Q : B -> cache -> Prop) :
  good c A -> entries c !! a = Some e -> (forall c', good c' (delete (block_num e) A) -> wp k Q c') ->
  wp (chain_remove a ;; lru_remove a ;; kfree_entry a ;; k) Q c.
Proof.
  intros Hg He Hk. destruct (g_shape _ _ Hg) as (l & bks & Hs).
  destruct (shape_lru _ _ _ _ _ Hs He) as (l1 & l2 & _ & _ & _ & Hp & Hn).
  destruct (shape_hash _ _ _ _ _ Hs He) as (k1 & k2 & _ & _ & _ & Hhp & Hhn).
  eapply wp_seq; [by apply (chain_remove_run c a e (shape_null _ _ _ Hs))|]. intros [] c1 ->.
  set (c1 := hash_removed a _ (hash_prev e) (hash_next e) c).
  assert (forall x, is_Some (entries c !! x) -> is_Some (entries c1 !! x)) as Hgrow
    by (intros x Hx; unfold c1, hash_removed, hash_unlinked; cbn; by rewrite !alter_is_Some).
  assert (entries c1 !! NULL = None) as Hn1
    by (unfold c1, hash_removed, hash_unlinked; cbn; rewrite !alter_null; by eapply shape_null).
  destruct (Hgrow a ltac:(eauto)) as [e1 He1].
  assert (lview (entries c1) = lview (entries c)) as Hlv by (unfold c1, hash_removed, hash_unlinked, lview; cbn; by rewrite !fmap_alter_same).
  destruct (lookup_info _ _ _ He) as (_ & _ & Hl). destruct (lookup_info _ _ _ He1) as (_ & _ & Hl1).
  rewrite Hlv, Hl in Hl1. injection Hl1 as E1 E2. rewrite E1, E2 in *.
  eapply wp_seq; [apply (lru_remove_run c1 a e1 Hn1 He1); auto|]. intros [] c2 ->.
  unfold kfree_entry. apply wp_bind, wp_modify, Hk. eapply (good_removed c _ A a e); try done.
  all: rewrite ?E1, ?E2; try done.
  all: cbn [entries set_entries lru_removed set_lru_tail set_lru_head].
  all: unfold hview, bview, iview.
  - unfold lview at 1. rewrite fmap_delete. f_equal. fold (lview (alter clear_lru a
      (alter (set_lru_prev (lru_prev e1)) (lru_next e1) (alter (set_lru_next (lru_next e1)) (lru_prev e1) (entries c1))))).
    by rewrite lview_removed, Hlv.
  - rewrite fmap_delete. f_equal. rewrite !fmap_alter_same by done. unfold c1, hash_removed, hash_unlinked. cbn.
    rewrite (fmap_alter_view _ (set_hash_prev _) (with_prev (hash_prev e))) by done.
    by rewrite (fmap_alter_view _ (set_hash_next _) (with_next (hash_next e))) by done.
  - rewrite fmap_delete. f_equal. unfold c1, hash_removed, hash_unlinked. cbn. by rewrite !fmap_alter_same.
  - rewrite fmap_delete. f_equal. unfold c1, hash_removed, hash_unlinked. cbn. by rewrite !fmap_alter_same.
Qed.

Lemma cache_invalidate_spec (c : cache) (A : gmap Z (list Z)) (b : Z) :
  inv c A -> wp (cache_invalidate b) (fun _ c' => inv c' (delete b A)) c.
Proof.
  intros Hi. unfold cache_invalidate. apply wp_bind. eapply wp_lock; [exact Hi|]. intros c1 Hg1.
  eapply wp_seq; [by apply good_lookup|]. intros r c2 [-> [ [-> Hb]|(Hr & e & He & Hb & HA)] ].
  - simpl. eapply wp_unlock; [exact Hg1|]. intros c3 Hc3. by rewrite delete_id.
  - rewrite (proj2 (Z.eqb_neq _ _) Hr). apply wp_bind. eapply wp_entry; [exact He|].
    destruct (good_entry _ _ _ _ Hg1 He) as (_ & Hf & Hd). case_if.
    { exfalso. destruct (g_shape _ _ Hg1) as (l & bks & [_ Hh]). destruct (lookup_info _ _ _ He) as (Hbv & _).
      rewrite (ho_valid _ _ _ _ Hh _ _ _ Hbv) in *. done. }
    apply (wp_seq _ _ (fun _ c' => good c' A /\ entries c' = entries c1)).
    { case_if; [|by apply wp_ret]. eapply wp_seq; [apply write_block_good; [exact Hg1|by rewrite <-Hb|done]|].
      intros ok c3 Hc3. by wp_run. }
    intros [] c3 [Hg3 He3]. eapply hash_then_lru; [exact Hg3|by rewrite He3|]. intros c4 Hg4.
    eapply wp_unlock; [exact Hg4|]. by rewrite Hb.
Qed.

(** *** Write-back *)

Lemma cache_flush_spec (c : cache) (A : gmap Z (list Z)) (b : Z) :
  inv c A -> wp (cache_flush b) (fun r c' => inv c' A /\ (r = 0 \/ r = -1 /\ is_Some (A !! b))) c.
Proof.
  intros Hi. unfold cache_flush. apply wp_bind. eapply wp_lock; [exact Hi|]. intros c1 Hg1.
  eapply wp_seq; [by apply good_lookup|]. intros r c2 [-> [ [-> Hb]|(Hr & e & He & Hb & HA)] ].
  - simpl. apply wp_bind. eapply wp_unlock; [exact Hg1|]. intros c3 Hc3. wp_run. auto.
  - rewrite (proj2 (Z.eqb_neq _ _) Hr). apply wp_bind. eapply wp_entry; [exact He|].
    destruct (good_entry _ _ _ _ Hg1 He) as (_ & Hf & Hd). case_if.
    { apply wp_bind. eapply wp_unlock; [exact Hg1|]. intros c3 Hc3. wp_run. auto. }
    eapply wp_seq; [apply write_block_good; [exact Hg1|by rewrite <-Hb|done]|]. intros ok c3 [Hg3 He3]. case_if.
    { apply wp_bind. eapply wp_unlock; [exact Hg3|]. intros c4 Hc4. wp_run. eauto. }
    apply wp_bind, wp_set_entry; [rewrite He3; eauto|]. apply wp_bind. eapply wp_unlock.
    + eapply (good_mark c3 A r e); [exact Hg3|by rewrite He3|done..].
    + intros c4 Hc4. wp_run. auto.
Qed.

(** A walk along a chain leaves its entries clean and makes no entry dirty. *)
Lemma flush_chain_good (A : gmap Z (list Z)) (l : list Z) (fuel : nat) (p : Z) (c : cache) :
  good c A -> dseg (hview (entries c) !!.) p l NULL -> NULL ∉ l -> (length l <= fuel)%nat ->
  wp (flush_chain fuel (first_of NULL l)) (fun _ c' => good c' A /\
    forall a e, entries c' !! a = Some e -> dirty e <> 0 ->
      a ∉ l /\ exists e0, entries c !! a = Some e0 /\ dirty e0 <> 0 /\ block_num e0 = block_num e) c.
Proof.
  revert fuel p c. induction l as [|a l IH]; intros fuel p c Hg Hd Hn Hf.
  - destruct fuel; simpl; apply wp_ret; (split; [done|]); intros a e He Hx; (split; [set_solver|eauto]).
  - destruct Hd as [Ha Hd]. unfold hview in Ha. rewrite lookup_fmap in Ha. apply fmap_Some in Ha as (e & He & [= _ Hx]).
    destruct fuel as [|fuel]; simpl in Hf; [lia|]. change (first_of NULL (a :: l)) with a. cbn [flush_chain].
    apply not_elem_of_cons in Hn as [Han%not_eq_sym Hn]. rewrite (proj2 (Z.eqb_neq a NULL) Han). apply wp_bind. eapply wp_entry; [exact He|].
    destruct (good_entry _ _ _ _ Hg He) as (_ & Hfit & Hlen).
    apply (wp_seq _ _ (fun _ c' => good c' A /\ hview (entries c') = hview (entries c) /\
      forall a' e', entries c' !! a' = Some e' -> dirty e' <> 0 ->
        a' <> a /\ exists e0, entries c !! a' = Some e0 /\ dirty e0 <> 0 /\ block_num e0 = block_num e')).
    { assert (valid e = 1) as Hv.
      { destruct (g_shape _ _ Hg) as (k & bks & [_ Hh]). eapply (ho_valid _ _ _ _ Hh). by apply lookup_info. }
      rewrite Hv. destruct (c_true (dirty e)) eqn:Edt; simpl andb; cbv iota.
      - eapply wp_seq; [by apply write_block_good|]. intros w c1 [Hg1 He1].
        apply wp_set_entry; [rewrite He1; eauto|]. split_and!.
        + eapply (good_mark c1 A a e); [done|by rewrite He1|done..].
        + unfold hview. cbn. by rewrite fmap_alter_same, He1.
        + cbn. rewrite He1. intros a' e'. rewrite lookup_alter_if. case_decide as E.
          * subst. rewrite He. simpl. intros [= <-]. done.
          * destruct (entries c !! a') as [e0|]; [|done]. simpl. intros [= <-]. eauto.
      - apply wp_ret. split_and!; [done|done|]. intros a' e' He' Hd'. split; [|eauto]. intros ->. simplify_eq.
        unfold c_true in Edt. by apply negb_false_iff, Z.eqb_eq in Edt. }
    intros [] c1 (Hg1 & Hh1 & Hd1). rewrite <-Hx. eapply wp_mono.
    + apply (IH fuel a); [done|by rewrite Hh1|done|lia].
    + intros [] c2 _ [Hg2 Hd2]. split; [done|]. intros a' e' He' Hdt. destruct (Hd2 _ _ He' Hdt) as (Hnl & e1 & He1 & Hd1' & Hb1).
      destruct (Hd1 _ _ He1 Hd1') as (Hna & e0 & He0 & Hd0 & Hb0). split; [by apply not_elem_of_cons|]. exists e0. by rewrite Hb0.
Qed.

Lemma cache_flush_all_spec (c : cache) (A : gmap Z (list Z)) :
  inv c A ->
  wp cache_flush_all (fun r c' => r = 0 /\ inv c' A /\ forall a e, entries c' !! a = Some e -> dirty e = 0) c.
Proof.
  intros Hi. unfold cache_flush_all. pose proof (elem_of_range 0 CACHE_HASH_SIZE) as HR.
  revert HR; generalize (range 0 CACHE_HASH_SIZE). intros R HR.
  apply wp_bind. eapply wp_lock; [exact Hi|]. intros c1 Hg1.
  eapply wp_seq.
  { apply (wp_for_each (fun ran c => good c A /\
      forall a e, entries c !! a = Some e -> dirty e <> 0 -> cache_hash_fn (block_num e) ∉ ran)); [|by split; [|set_solver] ].
    intros ran i rest s Hsp [Hg Hcl]. wp_run. destruct (g_shape _ _ Hg) as (l & bks & [Hl Hh]).
    assert (0 <= i < CACHE_HASH_SIZE) as Hir.
    { apply HR. rewrite Hsp, elem_of_app. right. by left. }
    rewrite (ho_head _ _ _ _ Hh i Hir). pose proof (ho_chain _ _ _ _ Hh i Hir) as Hc. eapply wp_mono.
    - apply (flush_chain_good A (bks i) _ NULL); [done|done| |].
      + apply (chain_nonnull _ _ (ho_null _ _ _ _ Hh) Hc).
      + by apply chain_in_memory; [apply (ho_nodup _ _ _ _ Hh)|].
    - intros [] c2 _ [Hg2 Hcl2]. split; [done|]. intros a e He Hdt.
      destruct (Hcl2 a e He Hdt) as (Hnl & e0 & He0 & Hd0 & <-). pose proof (Hcl a e0 He0 Hd0) as Hr.
      rewrite elem_of_app, list_elem_of_singleton. intros [?|E]; [done|]. apply Hnl, (ho_bucket _ _ _ _ Hh); [done|].
      exists (block_num e0), (valid e0). split; [by apply lookup_info|done]. }
  intros [] c2 [Hg2 Hcl]. unfold unlock_cache. wp_run. split_and!; [done| |].
  - split; [done|]. eapply good_frame; [exact Hg2|done..|apply Hg2].
  - cbn. intros a e He. destruct (decide (dirty e = 0)) as [|Hd]; [done|]. destruct (Hcl a e He Hd).
    apply HR, hash_range.
Qed.

(** *** Eviction *)

Lemma victim_from_spec (m : gmap Z cache_entry) (l : list Z) : forall (k : list Z) (fuel : nat),
  m !! NULL = None -> dll NULL (lview m !!.) (l ++ k) -> (length l <= fuel)%nat ->
  exists r, victim_from fuel m (last_of NULL l) = Some r /\
    (r = NULL /\ (forall a e, a ∈ l -> m !! a = Some e -> ref_count e <> 0) \/
     r <> NULL /\ exists e, m !! r = Some e /\ ref_count e = 0).
Proof.
  induction l as [|a l IH] using rev_ind; intros k fuel Hn Hd Hf.
  - exists NULL. split; [by destruct fuel|]. left. split; [done|]. set_solver.
  - rewrite <-app_assoc in Hd. pose proof (dseg_middle _ _ _ _ _ _ Hd) as Ha. unfold lview in Ha.
    rewrite lookup_fmap in Ha. apply fmap_Some in Ha as (e & He & [= Hp _]).
    assert (a <> NULL) as Han by (intros ->; by rewrite Hn in He).
    rewrite last_of_snoc. rewrite length_app in Hf. simpl in Hf. destruct fuel as [|fuel]; [lia|]. simpl.
    rewrite (proj2 (Z.eqb_neq _ _) Han), He. destruct (Z.eqb_spec (ref_count e) 0) as [E|E].
    + exists a. split; [done|]. right. eauto.
    + rewrite <-Hp. destruct (IH ([a] ++ k) fuel Hn Hd ltac:(lia)) as (r & -> & Hr). exists r. split; [done|].
      destruct Hr as [ [-> Hr]|Hr]; [left|by right]. split; [done|].
      intros a' e' [Hin| ->%list_elem_of_singleton]%elem_of_app He'; [eauto|by simplify_eq].
Qed.

Lemma lru_in_memory (c : cache) (l : list Z) (bks : Z -> list Z) : shape c l bks -> (length l <= size (entries c))%nat.
Proof.
  intros [Hl _]. rewrite <-(size_list_to_set (C := gset Z)) by apply Hl. rewrite <-(size_dom (D := gset Z)).
  apply subseteq_size. intros a Ha%elem_of_list_to_set. apply elem_of_dom.
  apply (ll_dom _ _ _ _ Hl) in Ha. unfold lview in Ha. by rewrite lookup_fmap, fmap_is_Some in Ha.
Qed.

(** An entry without references goes, when there is one; else nothing happens. *)
Lemma cache_evict_spec (c : cache) (A : gmap Z (list Z)) :
  inv c A ->
  wp cache_evict (fun _ c' =>
    inv c' A /\ (forall a e, entries c !! a = Some e -> ref_count e <> 0) \/
    exists a e, entries c !! a = Some e /\ ref_count e = 0 /\ inv c' (delete (block_num e) A)) c.
Proof.
  intros Hi. unfold cache_evict. apply wp_bind.
  assert (wp lock_cache (fun _ c' => c' = set_locked true c) c) as Hlock.
  { unfold lock_cache. wp_run. rewrite (proj1 Hi). by wp_run. }
  eapply wp_mono; [exact Hlock|]. intros [] c1 _ ->. set (c1 := set_locked true c).
  assert (good c1 A) as Hg1 by (eapply good_frame; [exact (proj2 Hi)|done..|apply Hi]).
  destruct (g_shape _ _ Hg1) as (l & bks & Hs). pose proof (shape_null _ _ _ Hs) as Hn.
  pose proof Hs as [Hl Hh]. pose proof (ll_chain _ _ _ _ Hl) as Hc. rewrite <-(app_nil_r l) in Hc.
  destruct (victim_from_spec (entries c1) l [] (size (entries c1)) Hn Hc (lru_in_memory _ _ _ Hs)) as (r & Hr & Hcase).
  rewrite <-(ll_tail _ _ _ _ Hl) in Hr. apply wp_bind, wp_gets. rewrite Hr. apply wp_bind. eapply wp_of_option; [done|].
  destruct Hcase as [ [-> Hall]|(Hne & e & He & Href)].
  - simpl. eapply wp_unlock; [exact Hg1|]. intros c2 Hc2. left. split; [done|]. intros a e He.
    apply (Hall a e); [|done]. apply (ll_dom _ _ _ _ Hl). destruct (lookup_info (entries c1) _ _ He) as (_ & _ & Hlv). eauto.
  - rewrite (proj2 (Z.eqb_neq _ _) Hne). apply wp_bind. eapply wp_entry; [exact He|].
    destruct (good_entry _ _ _ _ Hg1 He) as (_ & Hf & Hd).
    apply (wp_seq _ _ (fun _ c' => good c' A /\ entries c' = entries c1)).
    { case_if; [|by apply wp_ret]. eapply wp_seq; [by apply write_block_good|]. intros ok c3 Hc3. by wp_run. }
    intros [] c3 [Hg3 He3]. eapply lru_then_hash; [exact Hg3|by rewrite He3|]. intros c4 Hg4.
    eapply wp_unlock; [exact Hg4|]. intros c5 Hc5. right. exists r, e. done.
Qed.

(** *** Counting *)

Lemma count_chain_spec (m : gmap Z cache_entry) (l : list Z) : forall (fuel : nat) (p : Z),
  m !! NULL = None -> dseg (hview m !!.) p l NULL -> (forall a e, m !! a = Some e -> valid e = 1) -> (length l <= fuel)%nat ->
  count_chain fuel m (first_of NULL l) = Some (zlen l).
Proof.
  induction l as [|a l IH]; intros fuel p Hn Hd Hv Hf; [by destruct fuel|]. destruct Hd as [Ha Hd]. unfold hview in Ha.
  rewrite lookup_fmap in Ha. apply fmap_Some in Ha as (e & He & [= _ Hx]). change (first_of NULL (a :: l)) with a.
  assert (a <> NULL) as Han by (intros ->; by rewrite Hn in He).
  destruct fuel as [|fuel]; simpl in Hf; [lia|]. cbn [count_chain].
  rewrite (proj2 (Z.eqb_neq _ _) Han), He, (Hv a e He), <-Hx, (IH fuel a) by (done || lia). simpl.
  f_equal. unfold zlen. simpl length. lia.
Qed.

Lemma count_entries_spec (m : gmap Z cache_entry) (h : list Z) (bks : Z -> list Z) (R : list Z) :
  m !! NULL = None -> hash_ok (hview m) (bview m) h bks -> (forall i, i ∈ R -> 0 <= i < CACHE_HASH_SIZE) ->
  count_entries m ((fun i => h.[i]) <$> R) = Some (zlen (mjoin (bks <$> R))).
Proof.
  intros Hn Hh. induction R as [|i R IH]; intros HR; [done|]. assert (0 <= i < CACHE_HASH_SIZE) as Hi by (apply HR; by left).
  cbn [fmap list_fmap count_entries mjoin list_join]. pose proof (ho_chain _ _ _ _ Hh i Hi) as Hc.
  rewrite (ho_head _ _ _ _ Hh i Hi), (count_chain_spec m (bks i) _ NULL); [|done|exact Hc| |].
  - simpl. rewrite IH by (intros j Hj; apply HR; by right). simpl. by rewrite zlen_app.
  - intros a e He. eapply (ho_valid _ _ _ _ Hh). by apply lookup_info.
  - apply chain_in_memory; [by apply (ho_nodup _ _ _ _ Hh)|exact Hc].
Qed.

Lemma buckets_nodup (hv bv : gmap Z (Z * Z)) (h : list Z) (bks : Z -> list Z) (R : list Z) :
  hash_ok hv bv h bks -> (forall i, i ∈ R -> 0 <= i < CACHE_HASH_SIZE) -> NoDup R -> NoDup (mjoin (bks <$> R)).
Proof.
  intros Hh HR Hnd. induction Hnd as [|i R Hi Hnd IH]; [constructor|]. cbn [fmap list_fmap mjoin list_join].
  assert (0 <= i < CACHE_HASH_SIZE) as Hir by (apply HR; by left). apply NoDup_app. split_and!.
  - by apply (ho_nodup _ _ _ _ Hh).
  - intros a Ha. rewrite list_elem_of_join. intros (k & Hk & (j & -> & Hj)%list_elem_of_fmap). apply Hi.
    assert (0 <= j < CACHE_HASH_SIZE) as Hjr by (apply HR; by right).
    by rewrite (bucket_disjoint _ _ _ _ i j a Hh Hir Hjr Ha Hk).
  - apply IH. intros j Hj. apply HR. by right.
Qed.

Lemma current_entries_run (c : cache) (l : list Z) (bks : Z -> list Z) :
  shape c l bks -> wp current_entries (fun n c' => c' = c /\ n = Z.of_nat (size (entries c))) c.
Proof.
  intros Hs. unfold current_entries. apply wp_bind, wp_gets. pose proof Hs as [_ Hh].
  pose proof (elem_of_range 0 CACHE_HASH_SIZE) as HR. pose proof (NoDup_range 0 CACHE_HASH_SIZE) as Hnd.
  revert HR Hnd. generalize (range 0 CACHE_HASH_SIZE). intros R HR Hnd. eapply wp_of_option.
  - eapply (count_entries_spec _ _ bks); [by eapply shape_null|done|]. intros i Hi. by apply HR.
  - split; [done|]. unfold zlen. f_equal. rewrite <-(size_list_to_set (C := gset Z)).
    2:{ eapply buckets_nodup; [exact Hh|intros i Hi; by apply HR|done]. }
    rewrite <-(size_dom (D := gset Z)). f_equal. apply set_eq. intros a.
    rewrite elem_of_list_to_set, list_elem_of_join, elem_of_dom. split.
    + intros (k & Hk & (j & -> & Hj%HR)%list_elem_of_fmap). apply (ho_bucket _ _ _ _ Hh j a Hj) in Hk as (b & v & Hb & _).
      unfold bview in Hb. rewrite lookup_fmap in Hb. apply fmap_Some in Hb as (e & He & _). eauto.
    + intros [e He]. exists (bks (cache_hash_fn (block_num e))). split.
      * apply (ho_bucket _ _ _ _ Hh); [apply hash_range|]. exists (block_num e), (valid e). split; [by apply lookup_info|done].
      * apply list_elem_of_fmap. eexists. split; [done|]. apply HR, hash_range.
Qed.

(** There are as many entries as resident blocks. *)
Lemma good_size (c : cache) (A : gmap Z (list Z)) : good c A -> size (entries c) = size A.
Proof.
  intros Hg. destruct (g_shape _ _ Hg) as (l & bks & [_ Hh]). set (bs := (fun p : Z * cache_entry => block_num p.2) <$> map_to_list (entries c)).
  assert (NoDup bs) as Hnd.
  { apply NoDup_fmap_2_strong; [|apply NoDup_map_to_list].
    intros [a e] [a' e'] He%elem_of_map_to_list He'%elem_of_map_to_list Heq. simpl in Heq.
    destruct (lookup_info _ _ _ He) as (Hb & _). destruct (lookup_info _ _ _ He') as (Hb' & _). rewrite <-Heq in Hb'.
    pose proof (ho_unique _ _ _ _ Hh _ _ _ _ _ Hb Hb') as ->. by simplify_eq. }
  rewrite <-(size_dom (D := gset Z) A). trans (length bs); [unfold bs; by rewrite length_fmap, length_map_to_list|].
  rewrite <-(size_list_to_set (C := gset Z)) by done. f_equal. apply set_eq. intros b.
  rewrite elem_of_list_to_set, elem_of_dom. unfold bs. rewrite list_elem_of_fmap. split.
  - intros ( [a e] & -> & He%elem_of_map_to_list). simpl. destruct (good_entry _ _ _ _ Hg He) as [-> _]. eauto.
  - intros [d Hd]. destruct (h_complete _ _ (g_holds _ _ Hg) b d Hd) as (a & x & (e & He & Hb & _)%iview_lookup).
    exists (a, e). split; [done|]. by apply elem_of_map_to_list.
Qed.

Lemma current_entries_spec (c : cache) (A : gmap Z (list Z)) :
  good c A -> wp current_entries (fun n c' => c' = c /\ n = Z.of_nat (size A)) c.
Proof.
  intros Hg. destruct (g_shape _ _ Hg) as (l & bks & Hs). rewrite <-(good_size c A Hg). by eapply current_entries_run.
Qed.

Lemma cache_get_stats_spec (c : cache) (A : gmap Z (list Z)) :
  inv c A -> wp cache_get_stats (fun r c' => inv c' A /\ n_entries r = u32 (Z.of_nat (size A))) c.
Proof.
  intros Hi. unfold cache_get_stats. apply wp_bind. eapply wp_lock; [exact Hi|]. intros c1 Hg1.
  eapply wp_seq; [by apply current_entries_spec|]. intros n c2 [-> ->]. apply wp_bind, wp_gets, wp_bind, wp_gets. cbv zeta.
  apply wp_bind. eapply wp_unlock; [exact Hg1|]. intros c2 Hc2. by wp_run.
Qed.

Lemma cache_prefetch_spec (c : cache) (A : gmap Z (list Z)) (b : Z) :
  inv c A -> fits b ->
  wp (cache_prefetch b) (fun r c' =>
    (r = 0 \/ r = -1) /\ inv c' A /\ (r = 0 -> is_Some (A !! b)) \/
    r = 0 /\ A !! b = None /\ exists d, inv c' (<[b := d]> A)) c.
Proof.
  intros Hi Hf. unfold cache_prefetch. apply wp_bind. eapply wp_lock; [exact Hi|]. intros c1 Hg1.
  eapply wp_seq; [by apply good_lookup|]. intros r c2 [-> [ [-> Hb]|(Hr & e & He & Hb & HA)] ].
  - simpl. wp_run. apply (wp_mono _ (fun _ c2 => c2 = c1)).
    { case_if; [|by apply wp_ret]. eapply wp_mono; [by apply current_entries_spec|]. by intros n c2 _ [-> _]. }
    intros n c2 _ ->. case_if.
    { apply wp_bind. eapply wp_unlock; [exact Hg1|]. intros c3 Hc3. wp_run. left. split_and!; [by right|done|done]. }
    unfold malloc_entry. wp_run. set (c2 := set_mallocs _ _).
    assert (good c2 A) as Hg2 by (eapply good_frame; [exact Hg1|done..|apply Hg1]). case_if.
    { apply wp_bind. eapply wp_unlock; [exact Hg2|]. intros c3 Hc3. wp_run. left. split_and!; [by right|done|done]. }
    apply wp_bind. eapply wp_mono; [apply read_block_good; [exact Hg2|auto|apply malloc_size]|]. intros rd c3 _ [Hg3 Hrd].
    destruct Hrd as [->|(d & -> & Hd)].
    { apply wp_bind. eapply wp_unlock; [exact Hg3|]. intros c4 Hc4. wp_run. left. split_and!; [by right|done|done]. }
    eapply wp_seq; [apply cache_insert_good; [exact Hg3|auto..] |]. intros r c4 Hins. apply wp_bind.
    destruct Hins as [ [-> Hg4]|[-> Hg4] ].
    + eapply wp_unlock; [exact Hg4|]. intros c5 Hc5. wp_run. left. split_and!; [by right|done|done].
    + eapply wp_unlock; [exact Hg4|]. intros c5 Hc5. wp_run. right. eauto.
  - rewrite (proj2 (Z.eqb_neq _ _) Hr). simpl negb. cbv iota. eapply wp_seq; [apply good_touch; [exact Hg1|eauto]|].
    intros [] c3 [Hg3 Hr3]. eapply good_front; [exact Hg3|done|]. intros c4 Hg4. apply wp_bind.
    eapply wp_unlock; [exact Hg4|]. intros c5 Hc5. wp_run. left. rewrite HA. eauto.
Qed.

(** *** The limit on the entries *)

Lemma fault_seq {B D} (m : M B) (k : B -> M D) (P : B -> cache -> Prop) (c : cache) :
  wp m P c -> (forall x c', P x c' -> k x c' = None) -> (m ≫= k) c = None.
Proof. unfold wp, mbind, FM_bind. destruct (m c) as [ [x c'] |]; [|done]. eauto. Qed.

(** Without a limit, or with one that is not exceeded, the limit is set. *)
Lemma cache_set_max_entries_spec (c : cache) (A : gmap Z (list Z)) (max : Z) :
  inv c A -> max <= 0 \/ Z.of_nat (size A) <= max ->
  wp (cache_set_max_entries max) (fun _ c' => inv c' A /\ max_cache_entries c' = max) c.
Proof.
  intros [Hl Hg] Hmax. unfold cache_set_max_entries, lock_cache, unlock_cache. wp_run. rewrite Hl. wp_run.
  set (c1 := set_max_cache_entries max _).
  assert (good c1 A) as Hg1 by (eapply good_frame; [exact Hg|done..|apply Hg]).
  apply (wp_mono _ (fun _ c2 => c2 = c1)).
  - destruct (Z.ltb_spec 0 max) as [Hm|]; [|by apply wp_ret]. eapply wp_seq; [by apply current_entries_spec|].
    intros n c2 [-> ->]. destruct (Z.to_nat _); simpl; rewrite (proj2 (Z.leb_le _ _)) by lia; by apply wp_ret.
  - intros [] c2 _ ->. wp_run. split; [|done]. split; [done|]. eapply good_frame; [exact Hg1|done..|apply Hg1].
Qed.

(** A limit below the number of entries never returns: [cache_evict] takes the lock that
    [cache_set_max_entries] holds. *)
Lemma set_max_deadlocks (c : cache) (A : gmap Z (list Z)) (max : Z) :
  inv c A -> 0 < max < Z.of_nat (size A) -> cache_set_max_entries max c = None.
Proof.
  intros [Hl Hg] Hmax. unfold cache_set_max_entries. apply (fault_seq _ _ (fun _ c1 => c1 = set_locked true c)).
  { unfold lock_cache. wp_run. rewrite Hl. by wp_run. }
  intros [] c1 ->. set (c1 := set_max_cache_entries max (set_locked true c)).
  assert (good c1 A) as Hg1 by (eapply good_frame; [exact Hg|done..|apply Hg]).
  apply (fault_seq _ _ (fun _ c2 => c2 = c1)); [by wp_run|]. intros [] c2 ->. rewrite (proj2 (Z.ltb_lt _ _)) by lia.
  assert (forall n, Z.of_nat (size A) = n -> evict_down (Z.to_nat n) n max c1 = None) as Hev.
  { intros n Hn. destruct (Z.to_nat n) eqn:E; [lia|]. simpl. rewrite (proj2 (Z.leb_gt _ _)) by lia. reflexivity. }
  change ((((n ← current_entries; evict_down (Z.to_nat n) n max) ≫= (fun _ => unlock_cache)) c1) = None).
  unfold mbind at 1, FM_bind at 1. erewrite fault_seq; [done|by apply current_entries_spec|].
  intros n c2 [-> ->]. by apply Hev.
Qed.

(** A miss on a block whose sector number modulo 256 is over 8 overruns the buffer. *)
Lemma read_miss_overruns (c : cache) (A : gmap Z (list Z)) (b : Z) :
  (forall c', malloc_answer c' <> NULL) -> inv c A -> A !! b = None -> fits b = false -> cache_read b c = None.
Proof.
  intros Hm Hi Hb Hf. unfold cache_read.
  apply (fault_seq _ _ (fun _ c1 => good c1 A)); [by eapply wp_lock|]. intros [] c1 Hg1.
  eapply fault_seq; [by apply good_lookup|]. intros r c2 [-> [ [-> _]|(_ & e & _ & _ & HA)] ]; [|by rewrite Hb in HA].
  set (c2 := set_cache_misses (u32 (cache_misses c1 + 1)) c1). simpl.
  eapply (fault_seq _ _ (fun _ c' => c' = c2)); [by wp_run|]. intros [] c3 ->.
  eapply (fault_seq _ _ (fun x c' => zlen x = 4096)); [wp_run; apply malloc_size|]. intros junk c3 Hj.
  eapply (fault_seq _ _ (fun a _ => a <> NULL)); [unfold malloc_entry; by wp_run|]. intros a c4 Ha.
  rewrite (proj2 (Z.eqb_neq _ _) Ha). unfold read_block, ide_read_sectors. unfold fits in Hf. apply Z.leb_gt in Hf.
  rewrite (proj2 (Z.ltb_lt _ _)) by lia. done.
Qed.
End specs.

(** ** Sequences of operations *)

Inductive op :=
| Read (b : Z) | Write (b : Z) (buf : list Z) | Flush (b : Z) | FlushAll | Evict | Prefetch (b : Z) | Invalidate (b : Z)
| GetStats | SetMax (max : Z).
Inductive reply := Data (code : Z) (d : list Z) | Code (z : Z) | Stats (st : cache_stats) | Done.

Section sequences.
Context `{Memory, Device}.

Definition exec (o : op) : M reply :=
  match o with
  | Read b => r ← cache_read b; mret (Data r.1 r.2)
  | Write b buf => r ← cache_write b buf; mret (Code r)
  | Flush b => r ← cache_flush b; mret (Code r)
  | FlushAll => r ← cache_flush_all; mret (Code r)
  | Evict => cache_evict ;; mret Done
  | Prefetch b => r ← cache_prefetch b; mret (Code r)
  | Invalidate b => cache_invalidate b ;; mret Done
  | GetStats => r ← cache_get_stats; mret (Stats r)
  | SetMax max => cache_set_max_entries max ;; mret Done
  end.

Fixpoint run (os : list op) : M (list reply) :=
  match os with [] => mret [] | o :: os => r ← exec o; rs ← run os; mret (r :: rs) end.
End sequences.

(** The specification: a partial map from the resident blocks to their content.  The content
    of a block that a miss brings in is whatever the drive answers. *)
Inductive astep (A : gmap Z (list Z)) : op -> reply -> gmap Z (list Z) -> Prop :=
| A_hit b d : A !! b = Some d -> astep A (Read b) (Data 0 d) A
| A_miss b d : A !! b = None -> astep A (Read b) (Data 0 d) (<[b := d]> A)
| A_read_fails b : A !! b = None -> astep A (Read b) (Data (-1) []) A
| A_write b buf : astep A (Write b buf) (Code 0) (<[b := buf]> A)
| A_write_fails b buf : A !! b = None -> astep A (Write b buf) (Code (-1)) A
| A_flush b : astep A (Flush b) (Code 0) A
| A_flush_fails b : is_Some (A !! b) -> astep A (Flush b) (Code (-1)) A
| A_flush_all : astep A FlushAll (Code 0) A
| A_evict b d : A !! b = Some d -> astep A Evict Done (delete b A)
| A_evict_none : astep A Evict Done A
| A_prefetch_hit b : is_Some (A !! b) -> astep A (Prefetch b) (Code 0) A
| A_prefetch b d : A !! b = None -> astep A (Prefetch b) (Code 0) (<[b := d]> A)
| A_prefetch_fails b : astep A (Prefetch b) (Code (-1)) A
| A_invalidate b : astep A (Invalidate b) Done (delete b A)
| A_stats st : n_entries st = u32 (Z.of_nat (size A)) -> astep A GetStats (Stats st) A
| A_set_max max : astep A (SetMax max) Done A.

Inductive asteps : gmap Z (list Z) -> list op -> list reply -> gmap Z (list Z) -> Prop :=
| AS_nil A : asteps A [] [] A
| AS_cons A A' A'' o os r rs : astep A o r A' -> asteps A' os rs A'' -> asteps A (o :: os) (r :: rs) A''.

(** The operations the theorem is about: transfers inside the buffer, buffers of 4096 bytes,
    and no limit on the entries (for a limit, [cache_set_max_entries_spec]). *)
Definition op_ok (o : op) : bool :=
  match o with
  | Read b | Prefetch b => fits b
  | Write b buf => fits b && (zlen buf =? 4096)
  | SetMax max => max <=? 0
  | _ => true
  end.

Lemma wp_reply {B D} (m : M B) (f : B -> D) (P : B -> cache -> Prop) (Q : D -> cache -> Prop) (c : cache) :
  wp m P c -> (forall x c', P x c' -> Q (f x) c') -> wp (r ← m; mret (f r)) Q c.
Proof. intros Hm HQ. eapply wp_seq; [exact Hm|]. intros x c' Hx. by apply wp_ret, HQ. Qed.

Section refinement.
Context `{Memory, Device}.

Lemma exec_step (c : cache) (A : gmap Z (list Z)) (o : op) :
  inv c A -> op_ok o -> wp (exec o) (fun r c' => exists A', inv c' A' /\ astep A o r A') c.
Proof.
  intros Hi Hok. destruct o as [b|b buf|b| | |b|b| |max]; simpl in Hok.
  - eapply wp_reply; [by apply cache_read_spec|]. intros [r d] c' Hr. destruct (A !! b) as [d'|] eqn:E.
    + destruct Hr as [ [= -> ->] Hc]. exists A. split; [done|]. by apply A_hit.
    + destruct Hr as [ [ [= -> ->] Hc]|(d' & [= -> ->] & Hc)]; eexists; (split; [exact Hc|]); by constructor.
  - apply andb_True in Hok as [Hf Hl]. apply Is_true_true, Z.eqb_eq in Hl.
    eapply wp_reply; [by apply cache_write_spec|].
    intros r c' [ [-> Hc]|(-> & Hb & Hc)]; eexists; (split; [exact Hc|]); by constructor.
  - eapply wp_reply; [by apply cache_flush_spec|].
    intros r c' [Hc [->|[-> Hb] ] ]; eexists; (split; [exact Hc|]); by constructor.
  - eapply wp_reply; [by apply cache_flush_all_spec|]. intros r c' (-> & Hc & _). eexists. split; [exact Hc|]. constructor.
  - eapply wp_reply; [by apply cache_evict_spec|]. intros [] c' [ [Hc _]|(a & e & He & _ & Hc)]; eexists; (split; [exact Hc|]).
    + constructor.
    + destruct (good_entry _ _ _ _ (proj2 Hi) He) as [Hb _]. by eapply A_evict.
  - eapply wp_reply; [by apply cache_prefetch_spec|].
    intros r c' [ ( [->| ->] & Hc & Hb)|(-> & Hb & d & Hc)]; eexists; (split; [exact Hc|]); constructor; auto.
  - eapply wp_reply; [by apply cache_invalidate_spec|]. intros [] c' Hc. eexists. split; [exact Hc|]. constructor.
  - eapply wp_reply; [by apply cache_get_stats_spec|]. intros st c' [Hc Hn]. eexists. split; [exact Hc|]. by constructor.
  - apply Is_true_true, Z.leb_le in Hok. eapply wp_reply; [apply (cache_set_max_entries_spec c A); auto|]. intros [] c' [Hc _].
    eexists. split; [exact Hc|]. constructor.
Qed.

Lemma run_steps (os : list op) (c : cache) (A : gmap Z (list Z)) :
  inv c A -> Forall op_ok os -> wp (run os) (fun rs c' => exists A', inv c' A' /\ asteps A os rs A') c.
Proof.
  intros Hi Hok. revert c A Hi. induction Hok as [|o os Ho Hok IH]; intros c A Hi; simpl.
  - apply wp_ret. exists A. split; [done|]. constructor.
  - eapply wp_seq; [by apply exec_step|]. intros r c1 (A1 & Hi1 & Hs). eapply wp_reply; [by apply IH|].
    intros rs c2 (A2 & Hi2 & Hss). exists A2. split; [done|]. by econstructor.
Qed.

Lemma cache_init_inv (c : cache) :
  entries c = ∅ -> (forall s, zlen (disk c s) = 512) -> wp cache_init (fun _ c' => inv c' ∅) c.
Proof.
  intros He Hd. unfold cache_init. wp_run. split; [done|]. constructor; [| |done].
  - exists [], (fun _ => []). split.
    + unfold lview. cbn. rewrite He, fmap_empty. constructor; try done; [constructor|].
      intros a. rewrite lookup_empty. split; [set_solver|by intros [? ?] ].
    + unfold hview, bview. cbn [entries cache_hash set_cache_time set_cache_misses set_cache_hits set_locked set_lru_tail
        set_lru_head set_cache_hash]. rewrite He, !fmap_empty.
      assert (zlen ((fun _ => NULL) <$> range 0 CACHE_HASH_SIZE) = CACHE_HASH_SIZE) as Hz.
      { unfold zlen. rewrite length_fmap. by apply (zlen_range 0 CACHE_HASH_SIZE). }
      assert (Forall (fun x => x = NULL) ((fun _ => NULL) <$> range 0 CACHE_HASH_SIZE)) as Hall.
      { apply Forall_fmap, Forall_forall. done. }
      revert Hz Hall. generalize ((fun _ : Z => NULL) <$> range 0 CACHE_HASH_SIZE). intros h Hz Hall. constructor; try done.
      * intros i Hi. apply (aget_Forall (fun x => x = NULL)); [done|lia].
      * intros i Hi. constructor.
      * intros i a Hi. split; [set_solver|]. by intros (b & v & Hb & _).
  - unfold iview. cbn. rewrite He, fmap_empty. constructor; done.
Qed.

End refinement.

(** ** A concrete machine *)

(** An allocator that counts, and a drive that always works. *)
Definition next_free (c : cache) : Z :=
  let a := mallocs c + 1 in match entries c !! a with None => a | Some _ => NULL end.
#[local, program] Instance counting_memory : Memory := {
  malloc_answer := next_free; malloc_content := fun _ => replicate 4096 7;
}.
Next Obligation. intros c. unfold next_free. cbv zeta. by destruct (entries c !! (mallocs c + 1)) eqn:E. Qed.
Next Obligation. intros c. unfold zlen. rewrite length_replicate. done. Qed.
#[local] Instance working_drive : Device := { read_ok := fun _ => true; write_ok := fun _ => true }.

Definition blank : cache := mk_cache ∅ [] NULL NULL false 0 0 0 0 (fun s => replicate 512 (u8 s)) 0 0.
Definition block_of (x : Z) : list Z := replicate 4096 x.

Definition sample_ops : list op :=
  [Write 1 (block_of 5); Read 1; Write 32 (block_of 6); Flush 1; Read 1; Evict; Prefetch 33; Read 33; FlushAll;
   Invalidate 1; Read 65; GetStats].


(** Every block whose transfer is eight sectors long is written to the sectors of block 1:
    after block 1 is written back, block 33 reads as the content of block 1. *)
Lemma blocks_share_sectors :
  (r ← (cache_init ;; run [Write 1 (block_of 5); Flush 1; Read 33]); mret (last r)) blank ≫= (fun r => Some r.1) =
  Some (Some (Data 0 (block_of 5))).
Proof. vm_compute. reflexivity. Qed.

(** A block whose transfer is empty is read as what the allocator left in the buffer. *)
Lemma block_0_is_junk :
  (r ← (cache_init ;; run [Write 0 (block_of 5); Flush 0; Invalidate 0; Read 0]); mret (last r)) blank ≫= (fun r => Some r.1) =
  Some (Some (Data 0 (replicate 4096 7))).
Proof. vm_compute. reflexivity. Qed.

(** What was read is never evicted: nothing decrements [ref_count]. *)
Lemma read_blocks_stay :
  ((cache_init ;; run [Read 1; Evict; Evict; Evict]) blank ≫= (fun r => Some (size (entries r.2)))) = Some 1%nat /\
  ((cache_init ;; run [Write 1 (block_of 5); Evict]) blank ≫= (fun r => Some (size (entries r.2)))) = Some 0%nat.
Proof. split; vm_compute; reflexivity. Qed.
End BlockCache.

(** A drive whose writes fail. *)
Module BlockCacheFailing.
Import BlockCache.
#[local] Existing Instance counting_memory.
#[local] Instance failing_drive : Device := { read_ok := fun _ => true; write_ok := fun _ => false }.

(** [cache_evict] frees a dirty entry whose write-back failed, [cache_flush_all] reports
    success and marks it clean: the data is lost. *)
Lemma failed_writes_lose_data :
  ((cache_init ;; run [Write 1 (block_of 5); Evict]) blank ≫= (fun r => Some (r.1, size (entries r.2), disk r.2 8))) =
    Some ([Code 0; Done], 0%nat, replicate 512 8) /\
  ((cache_init ;; run [Write 1 (block_of 5); FlushAll; Invalidate 1]) blank ≫= (fun r => Some (r.1, disk r.2 8))) =
    Some ([Code 0; Code 0; Done], replicate 512 8).
Proof. split; vm_compute; reflexivity. Qed.
End BlockCacheFailing.
