(* ===== verification/Signal.v ===== *)
(** * Signals (src/kernel/signal.c)

    [Module Signal]: the signal fields of the process control blocks, the table of
    processes, user memory as words, and every operation of signal.c as a state monad with
    faults (FaultM.v).  A process is the address of its control block.  [sched_unblock] is
    the scheduler's (Sched.v); here it sets the state and notes the process in [woken].
    [sigsuspend] and [signal_pause] are cut at their call of [schedule], where other
    processes run.

    Theorems: the lowest pending signal that is not blocked is delivered, with the effect
    its handler asks for ([delivery_spec]); a handler that returns through sigreturn resumes
    the interrupted code with its registers and its stack ([handler_roundtrip]); no
    operation but sigreturn blocks or catches SIGKILL and SIGSTOP, and a process with
    SIGKILL pending is a zombie after at most nine checks ([kill_works]).  [sigreturn]
    installs the mask of the frame, which the process chose: see [sigreturn_blocks_kill]. *)

From S2P Require Import Prelude FaultM Sched.

Module Signal.

Definition SIGKILL : Z := 9.
Definition SIGALRM : Z := 14.
Definition SIGCHLD : Z := 17.
Definition SIGCONT : Z := 18.
Definition SIGSTOP : Z := 19.
Definition SIGTSTP : Z := 20.
Definition SIGTTIN : Z := 21.
Definition SIGTTOU : Z := 22.
Definition SIGURG : Z := 23.
Definition SIGWINCH : Z := 28.
Definition SIGIO : Z := 29.
Definition NSIG : Z := 32.

Definition SIG_DFL : Z := 0.
Definition SIG_IGN : Z := 1.
Definition SIG_ERR : Z := u32 (-1).
Definition SA_RESTORER : Z := 0x04000000.
Definition SIG_BLOCK : Z := 0.
Definition SIG_UNBLOCK : Z := 1.
Definition SIG_SETMASK : Z := 2.
Definition MAX_SIG_QUEUE_SIZE : Z := 32.
Definition BLOCK_REASON_NONE : Z := 0.
Definition BLOCK_REASON_SLEEP : Z := 2.
Definition BLOCK_REASON_WAIT : Z := 3.
Definition MAX_PROCESSES : Z := 256.

Record sigaction_entry := mk_action { sa_handler : Z; sa_mask : Z; sa_flags : Z }.
#[export] Instance sigaction_entry_inhabited : Inhabited sigaction_entry := populate (mk_action 0 0 0).
(** [struct sigaction] has a restorer besides. *)
Record sigaction_t := mk_sigaction { act : sigaction_entry; sa_restorer : Z }.

(** The saved registers that signals touch. *)
Record regs := mk_regs { eip : Z; eflags : Z; eax : Z; ecx : Z; edx : Z; useresp : Z }.

Record pcb := mk_pcb {
  pid : Z; state : Sched.proc_state; blocked_reason : Z; p_context : regs;
  signal_pending : Z; signal_blocked : Z; signal_handlers : list Z;
  signal_sa_flags : Z; signal_sa_mask : Z; signal_restorer : Z; alarm_ticks : Z; signal_frame_addr : Z;
  signal_actions : list sigaction_entry; sig_pending_bits : Z;
  sig_queue : list (Z * Z); sig_queue_count : Z;
}.
Definition eta_pcb (p : pcb) : pcb :=
  mk_pcb (pid p) (state p) (blocked_reason p) (p_context p) (signal_pending p) (signal_blocked p) (signal_handlers p)
    (signal_sa_flags p) (signal_sa_mask p) (signal_restorer p) (alarm_ticks p) (signal_frame_addr p)
    (signal_actions p) (sig_pending_bits p) (sig_queue p) (sig_queue_count p).
Definition set_state (v : Sched.proc_state) (p : pcb) : pcb := ltac:(set_field eta_pcb p state v).
Definition set_blocked_reason (v : Z) (p : pcb) : pcb := ltac:(set_field eta_pcb p blocked_reason v).
Definition set_context (v : regs) (p : pcb) : pcb := ltac:(set_field eta_pcb p p_context v).
Definition set_pending (v : Z) (p : pcb) : pcb := ltac:(set_field eta_pcb p signal_pending v).
Definition set_blocked (v : Z) (p : pcb) : pcb := ltac:(set_field eta_pcb p signal_blocked v).
Definition set_handlers (v : list Z) (p : pcb) : pcb := ltac:(set_field eta_pcb p signal_handlers v).
Definition set_sa_flags (v : Z) (p : pcb) : pcb := ltac:(set_field eta_pcb p signal_sa_flags v).
Definition set_sa_mask (v : Z) (p : pcb) : pcb := ltac:(set_field eta_pcb p signal_sa_mask v).
Definition set_restorer (v : Z) (p : pcb) : pcb := ltac:(set_field eta_pcb p signal_restorer v).
Definition set_alarm_ticks (v : Z) (p : pcb) : pcb := ltac:(set_field eta_pcb p alarm_ticks v).
Definition set_frame_addr (v : Z) (p : pcb) : pcb := ltac:(set_field eta_pcb p signal_frame_addr v).
Definition set_actions (v : list sigaction_entry) (p : pcb) : pcb := ltac:(set_field eta_pcb p signal_actions v).
Definition set_pending_bits (v : Z) (p : pcb) : pcb := ltac:(set_field eta_pcb p sig_pending_bits v).
Definition set_sig_queue (v : list (Z * Z)) (p : pcb) : pcb := ltac:(set_field eta_pcb p sig_queue v).
Definition set_sig_queue_count (v : Z) (p : pcb) : pcb := ltac:(set_field eta_pcb p sig_queue_count v).

(** The control blocks, the table by process number, the current process or null, user
    memory by the address of a word, and the processes given back to the run queues. *)
Record system := mk_system {
  procs : gmap Z pcb; process_table : Z -> Z; current : Z; mem : Z -> Z; woken : list Z;
}.
Definition eta_system (s : system) : system := mk_system (procs s) (process_table s) (current s) (mem s) (woken s).
Definition set_procs (v : gmap Z pcb) (s : system) : system := ltac:(set_field eta_system s procs v).
Definition set_mem (v : Z -> Z) (s : system) : system := ltac:(set_field eta_system s mem v).
Definition set_woken (v : list Z) (s : system) : system := ltac:(set_field eta_system s woken v).

Notation M := (FM system).

(** [1 << (sig - 1)], setting it and clearing it. *)
Definition bit (sig : Z) : Z := Z.shiftl 1 (sig - 1).
Definition has (set sig : Z) : bool := c_true (Z.land set (bit sig)).
Definition bad_sig (sig : Z) : bool := (sig <? 1) || (NSIG <=? sig).
Definition uncatchable (sig : Z) : bool := (sig =? SIGKILL) || (sig =? SIGSTOP).

(** ** The fields of one process *)

Definition signal_init_proc (p : pcb) : pcb :=
  set_pending_bits 0 (set_restorer NULL (set_frame_addr 0 (set_alarm_ticks 0 (set_sa_mask 0 (set_sa_flags 0
    (set_blocked 0 (set_pending 0
      (set_actions ((fun _ => mk_action SIG_DFL 0 0) <$> range 0 NSIG)
        (set_handlers ((fun _ => SIG_DFL) <$> range 0 NSIG) p))))))))).

Definition signal_register (sig handler : Z) (p : pcb) : Z * pcb :=
  if bad_sig sig then (-1, p) else if uncatchable sig then (-1, p) else
  let a := (signal_actions p).[sig - 1] in
  (0, set_actions ((signal_actions p).[sig - 1 <- mk_action handler (sa_mask a) (sa_flags a)])
        (set_handlers ((signal_handlers p).[sig - 1 <- handler]) p)).

Definition signal_block (sig : Z) (p : pcb) : pcb :=
  if bad_sig sig then p else if uncatchable sig then p else set_blocked (Z.lor (signal_blocked p) (bit sig)) p.
Definition signal_unblock (sig : Z) (p : pcb) : pcb :=
  if bad_sig sig then p else set_blocked (Z.ldiff (signal_blocked p) (bit sig)) p.

(** The code, what is stored at [oact], and the process. *)
Definition signal_sigaction (sig : Z) (a : option sigaction_t) (p : pcb) : Z * option sigaction_t * pcb :=
  if bad_sig sig then (-1, None, p) else if uncatchable sig then (-1, None, p) else
  let old := mk_sigaction (mk_action (signal_handlers p).[sig - 1] (signal_sa_mask p) (signal_sa_flags p)) (signal_restorer p) in
  (0, Some old,
   match a with
   | None => p
   | Some a =>
       let p := set_sa_mask (sa_mask (act a)) (set_sa_flags (sa_flags (act a))
                  (set_handlers ((signal_handlers p).[sig - 1 <- sa_handler (act a)]) p)) in
       if c_true (Z.land (sa_flags (act a)) SA_RESTORER) then set_restorer (sa_restorer a) p else p
   end).

(** [*set] without SIGKILL and SIGSTOP. *)
Definition maskable (set : Z) : Z := Z.ldiff (Z.ldiff set (bit SIGKILL)) (bit SIGSTOP).

(** The switch on [how]; [None] is its default case. *)
Definition new_blocked (how set blocked : Z) : option Z :=
  if how =? SIG_BLOCK then Some (Z.lor blocked (maskable set))
  else if how =? SIG_UNBLOCK then Some (Z.ldiff blocked (maskable set))
  else if how =? SIG_SETMASK then Some (maskable set) else None.

(** The code, the old mask and the process. *)
Definition change_mask (how : Z) (set : option Z) (p : pcb) : Z * Z * pcb :=
  match set with
  | None => (0, signal_blocked p, p)
  | Some set =>
      match new_blocked how set (signal_blocked p) with
      | Some b => (0, signal_blocked p, set_blocked b p)
      | None => (-1, signal_blocked p, p)
      end
  end.
(** [oset] says whether the old mask is asked for. *)
Definition signal_sigprocmask (how : Z) (set : option Z) (oset : bool) (p : pcb) : Z * Z * pcb :=
  match set with None => if oset then change_mask how set p else (-1, 0, p) | Some _ => change_mask how set p end.

Definition signal_alarm (seconds : Z) (p : pcb) : Z * pcb :=
  (if 0 <? alarm_ticks p then alarm_ticks p / 100 else 0,
   set_alarm_ticks (if seconds =? 0 then 0 else u32 (seconds * 100)) p).

Definition signal_has_pending (p : pcb) (sig : Z) : Z :=
  if bad_sig sig then 0 else c_bool (has (signal_pending p) sig).

(** ** The system *)

Definition deref (a : Z) : M pcb := p ← gets (fun s => procs s !! a); of_option p.
Definition update (a : Z) (f : pcb -> pcb) : M unit :=
  p ← deref a; modify (fun s => set_procs (<[a := f p]> (procs s)) s).
(** An operation on the fields of [a] with its result. *)
Definition apply_to {A} (a : Z) (f : pcb -> A * pcb) : M A :=
  p ← deref a; modify (fun s => set_procs (<[a := (f p).2]> (procs s)) s) ;; mret (f p).1.
(** [*(uint32_t * )addr = v] and [*(uint32_t * )addr]. *)
Definition store (addr v : Z) : M unit := modify (fun s => set_mem (fun a => if a =? u32 addr then v else mem s a) s).
Definition load (addr : Z) : M Z := gets (fun s => mem s (u32 addr)).

Definition sched_get_current : M Z := gets current.
Definition process_get_pcb (n : Z) : M Z :=
  if (n <? 0) || (MAX_PROCESSES <=? n) then mret NULL else gets (fun s => process_table s n).

#[local] Existing Instance Sched.proc_state_eq_dec.
Definition is_blocked (p : pcb) : bool := bool_decide (state p = Sched.PROCESS_BLOCKED).

Definition sched_unblock (a : Z) : M unit :=
  if a =? NULL then mret tt else
  p ← deref a;
  if is_blocked p then
    update a (fun p => set_blocked_reason BLOCK_REASON_NONE (set_state Sched.PROCESS_READY p)) ;;
    modify (fun s => set_woken (woken s ++ [a]) s)
  else mret tt.

Definition kill (n sig : Z) : M Z :=
  if bad_sig sig then mret (-1) else
  target ← process_get_pcb n;
  if target =? NULL then mret (-1) else
  update target (fun p => set_pending (Z.lor (signal_pending p) (bit sig)) p) ;;
  p ← deref target;
  (if is_blocked p && negb (sig =? SIGCONT) then sched_unblock target else mret tt) ;;
  p ← deref target;
  (if (sig =? SIGCONT) && is_blocked p then sched_unblock target else mret tt) ;;
  mret 0.

Definition tkill (tid sig : Z) : M Z := if bad_sig sig then mret (-1) else kill tid sig.
Definition tgkill (tgid tid sig : Z) : M Z := if bad_sig sig then mret (-1) else kill tid sig.
Definition signal_send (n sig : Z) : M Z := kill n sig.

(** The entry of [sigqueue] for one more value. *)
Definition enqueue_value (sig value : Z) (p : pcb) : pcb :=
  if sig_queue_count p <? MAX_SIG_QUEUE_SIZE
  then set_sig_queue_count (sig_queue_count p + 1) (set_sig_queue ((sig_queue p).[sig_queue_count p <- (sig, value)]) p)
  else p.

Definition sigqueue (n sig value : Z) : M Z :=
  if bad_sig sig then mret (-1) else
  target ← process_get_pcb n;
  if target =? NULL then mret (-1) else
  update target (fun p => set_pending (Z.lor (signal_pending p) (bit sig)) p) ;;
  update target (enqueue_value sig value) ;;
  p ← deref target;
  (if is_blocked p then sched_unblock target else mret tt) ;;
  mret 0.

Definition set_action (sig : Z) (a : option sigaction_entry) (p : pcb) : sigaction_entry * pcb :=
  ((signal_actions p).[sig - 1],
   match a with
   | None => p
   | Some a => set_handlers ((signal_handlers p).[sig - 1 <- sa_handler a])
                 (set_actions ((signal_actions p).[sig - 1 <- a]) p)
   end).
(** The code and what is stored at [oldact]. *)
Definition sigaction (sig : Z) (a : option sigaction_entry) : M (Z * option sigaction_entry) :=
  if bad_sig sig then mret (-1, None) else if uncatchable sig then mret (-1, None) else
  cur ← sched_get_current;
  if cur =? NULL then mret (-1, None) else
  old ← apply_to cur (set_action sig a);
  mret (0, Some old).

Definition signal (sig handler : Z) : M Z :=
  if bad_sig sig then mret SIG_ERR else if uncatchable sig then mret SIG_ERR else
  cur ← sched_get_current;
  if cur =? NULL then mret SIG_ERR else
  p ← deref cur;
  update cur (fun p => snd (signal_register sig handler p)) ;;
  mret (signal_handlers p).[sig - 1].

Definition sigprocmask (how : Z) (set : option Z) : M (Z * Z) :=
  cur ← sched_get_current;
  if cur =? NULL then mret (-1, 0) else
  apply_to cur (change_mask how set).

(** The bitmap of one word, or [None] for a return of -1. *)
Definition sigpending : M (option Z) :=
  cur ← sched_get_current;
  if cur =? NULL then mret None else
  p ← deref cur;
  mret (Some (Z.lor (sig_pending_bits p) (signal_pending p))).

(** [sigsuspend] up to [schedule()], with the old mask, and from there on. *)
Definition sigsuspend_enter (mask : option Z) : M (option Z) :=
  cur ← sched_get_current;
  if cur =? NULL then mret None else
  p ← deref cur;
  (match mask with
   | Some mask => update cur (set_blocked (Z.ldiff mask (Z.lor (bit SIGKILL) (bit SIGSTOP))))
   | None => mret tt
   end) ;;
  update cur (fun p => set_blocked_reason BLOCK_REASON_SLEEP (set_state Sched.PROCESS_BLOCKED p)) ;;
  mret (Some (signal_blocked p)).
Definition sigsuspend_leave (cur old_mask : Z) : M Z := update cur (set_blocked old_mask) ;; mret (-1).

Definition signal_pause_enter (a : Z) : M unit :=
  update a (fun p => set_blocked_reason BLOCK_REASON_SLEEP (set_state Sched.PROCESS_BLOCKED p)).

(** ** Delivery *)

Definition is_stop (sig : Z) : bool := (sig =? SIGSTOP) || (sig =? SIGTSTP) || (sig =? SIGTTIN) || (sig =? SIGTTOU).
Definition is_quiet (sig : Z) : bool := (sig =? SIGCHLD) || (sig =? SIGURG) || (sig =? SIGWINCH) || (sig =? SIGIO).

Definition signal_handle_default (a sig : Z) : M unit :=
  if sig =? SIGKILL then update a (set_state Sched.PROCESS_ZOMBIE)
  else if is_stop sig then update a (fun p => set_blocked_reason BLOCK_REASON_WAIT (set_state Sched.PROCESS_BLOCKED p))
  else if is_quiet sig then mret tt
  else if sig =? SIGCONT then
    p ← deref a; (if is_blocked p then sched_unblock a else mret tt)
  else update a (set_state Sched.PROCESS_ZOMBIE).

(** [signal_frame_t]: nine words in the order of the structure. *)
Definition sizeof_frame : Z := 36.
Record signal_frame := mk_frame {
  return_addr : Z; f_sig : Z; old_eip : Z; old_eflags : Z; old_eax : Z; old_ecx : Z; old_edx : Z; f_flags : Z; f_mask : Z;
}.
Definition frame_words (f : signal_frame) : list Z :=
  [return_addr f; f_sig f; old_eip f; old_eflags f; old_eax f; old_ecx f; old_edx f; f_flags f; f_mask f].
Fixpoint store_words (addr : Z) (ws : list Z) : M unit :=
  match ws with [] => mret tt | w :: ws => store addr w ;; store_words (addr + 4) ws end.
Definition load_frame (addr : Z) : M signal_frame :=
  r ← load addr; sg ← load (addr + 4); ip ← load (addr + 8); fl ← load (addr + 12); ax ← load (addr + 16);
  cx ← load (addr + 20); dx ← load (addr + 24); sf ← load (addr + 28); sm ← load (addr + 32);
  mret (mk_frame r sg ip fl ax cx dx sf sm).

Definition set_useresp (v : Z) (r : regs) : regs := mk_regs (eip r) (eflags r) (eax r) (ecx r) (edx r) v.
Definition set_eip (v : Z) (r : regs) : regs := mk_regs v (eflags r) (eax r) (ecx r) (edx r) (useresp r).

Definition signal_deliver (a sig : Z) : M unit :=
  p ← deref a;
  let handler := (signal_handlers p).[sig - 1] in
  update a (fun p => set_pending (Z.ldiff (signal_pending p) (bit sig)) p) ;;
  if handler =? SIG_DFL then signal_handle_default a sig
  else if handler =? SIG_IGN then mret tt
  else
    let c := p_context p in
    let frame := mk_frame 0 sig (eip c) (eflags c) (eax c) (ecx c) (edx c) (signal_sa_flags p) (signal_sa_mask p) in
    let frame_addr := u32 (useresp c - sizeof_frame) in
    store_words frame_addr (frame_words frame) ;;
    store (u32 (frame_addr - 4)) sig ;;
    store (u32 (u32 (frame_addr - 4) - 4)) frame_addr ;;
    update a (fun p => set_context (set_eip handler (set_useresp (u32 (u32 (frame_addr - 4) - 4)) (p_context p)))
      (set_blocked (Z.lor (signal_blocked p) (bit sig)) (set_frame_addr frame_addr p))).

Definition deliverable (p : pcb) (sig : Z) : bool := has (signal_pending p) sig && negb (has (signal_blocked p) sig).
(** The loops over the signals. *)
Definition next_signal (p : pcb) : option Z := List.find (deliverable p) (range 1 32).

(** The alarm of [signal_check_deliver]. *)
Definition check_alarm (a : Z) : M unit :=
  p ← deref a;
  if 0 <? alarm_ticks p then
    update a (fun p => set_alarm_ticks (alarm_ticks p - 1) p) ;;
    (if alarm_ticks p - 1 =? 0 then kill (pid p) SIGALRM ;; mret tt else mret tt)
  else mret tt.

Definition signal_check_deliver (a : Z) : M unit :=
  if a =? NULL then mret tt else
  check_alarm a ;;
  p ← deref a;
  match next_signal p with
  | Some sig => signal_deliver a sig
  | None => mret tt
  end.

Definition signal_check (a : Z) : M Z := signal_check_deliver a ;; mret 0.

Definition signal_check_and_deliver (a : Z) : M Z :=
  signal_check_deliver a ;;
  p ← deref a;
  mret (match next_signal p with Some _ => 1 | None => 0 end).

Definition signal_sigreturn (a : Z) : M unit :=
  p ← deref a;
  let addr := signal_frame_addr p in
  if addr =? 0 then mret tt else
  f ← load_frame addr;
  update a (fun p => set_frame_addr 0 (set_blocked (f_mask f)
    (set_context (mk_regs (old_eip f) (old_eflags f) (old_eax f) (old_ecx f) (old_edx f) (u32 (addr + sizeof_frame))) p))).

(** ** Symbolic execution *)

Lemma wp_pcb (a : Z) (p : pcb) (Q : pcb -> system -> Prop) (s : system) :
  procs s !! a = Some p -> Q p s -> wp (deref a) Q s.
Proof. intros Hp HQ. unfold deref. wp_run. by eapply wp_of_option. Qed.

Lemma wp_set_pcb (a : Z) (p : pcb) (f : pcb -> pcb) (Q : unit -> system -> Prop) (s : system) :
  procs s !! a = Some p -> Q tt (set_procs (<[a := f p]> (procs s)) s) -> wp (update a f) Q s.
Proof. intros Hp HQ. unfold update. wp_run. eapply wp_pcb; [done|]. by wp_run. Qed.

(** Everything but the control block of [a] and what was woken is as before. *)
Record only (a : Z) (s s' : system) : Prop := {
  only_procs : forall b, b <> a -> procs s' !! b = procs s !! b;
  only_table : process_table s' = process_table s;
  only_current : current s' = current s;
}.

Lemma only_refl (a : Z) (s : system) : only a s s.
Proof. by constructor. Qed.
Lemma only_trans (a : Z) (s s' s'' : system) : only a s s' -> only a s' s'' -> only a s s''.
Proof. intros [H1 H2 H3] [K1 K2 K3]. constructor; [|congruence..]. intros b Hb. by rewrite K1, H1. Qed.
Lemma only_set (a : Z) (p : pcb) (s : system) : only a s (set_procs (<[a := p]> (procs s)) s).
Proof. constructor; [|done..]. intros b Hb. cbn. by rewrite lookup_insert_ne. Qed.

Lemma sched_unblock_run (a : Z) (p : pcb) (s : system) :
  a <> NULL -> procs s !! a = Some p ->
  wp (sched_unblock a) (fun _ s' => only a s s' /\ mem s' = mem s /\ exists p', procs s' !! a = Some p' /\
    p' = (if is_blocked p then set_blocked_reason BLOCK_REASON_NONE (set_state Sched.PROCESS_READY p) else p)) s.
Proof.
  intros Ha Hp. unfold sched_unblock. rewrite (proj2 (Z.eqb_neq _ _) Ha). wp_run. eapply wp_pcb; [done|]. case_if.
  - wp_run. eapply wp_set_pcb; [done|]. wp_run. split_and!; [|done|].
    + constructor; [|done..]. intros b Hb. cbn. by rewrite lookup_insert_ne.
    + eexists. cbn. by rewrite lookup_insert_eq.
  - wp_run. split_and!; [apply only_refl|done|eauto].
Qed.

(** *** Words on the user stack *)

Lemma u32_offset (x i j : Z) : u32 (x + i) = u32 (x + j) -> Z.abs (i - j) < 2 ^ 32 -> i = j.
Proof. unfold u32. intros He Hd. dlia. Qed.

Lemma store_words_run (ws : list Z) : forall (addr : Z) (s : system), 4 * zlen ws < 2 ^ 32 ->
  wp (store_words addr ws) (fun _ s' => s' = set_mem (mem s') s /\
    (forall k w, ws !! k = Some w -> mem s' (u32 (addr + 4 * Z.of_nat k)) = w) /\
    (forall b, (forall k, (k < length ws)%nat -> b <> u32 (addr + 4 * Z.of_nat k)) -> mem s' b = mem s b)) s.
Proof.
  induction ws as [|w ws IH]; intros addr s Hl; simpl.
  - apply wp_ret. split_and!; [by destruct s|done|done].
  - assert (zlen (w :: ws) = zlen ws + 1) as Hz by (unfold zlen; simpl; lia).
    unfold store. wp_run. eapply wp_mono; [apply IH; lia|]. intros [] s' _ (Hs & Hw & Hf). split_and!.
    + by rewrite Hs.
    + intros [|k] w' Hk.
      * injection Hk as ->. rewrite Hf.
        -- cbn. by rewrite Z.add_0_r, Z.eqb_refl.
        -- intros k Hk He. replace (addr + 4 + 4 * Z.of_nat k) with (addr + (4 + 4 * Z.of_nat k)) in He by lia.
           apply u32_offset in He; [lia|]. unfold zlen in *. lia.
      * rewrite <-(Hw k w' Hk). f_equal. f_equal. lia.
    + intros b Hb. rewrite Hf.
      * cbn. destruct (Z.eqb_spec b (u32 addr)) as [->|]; [|done]. destruct (Hb 0%nat); [simpl; lia|]. by rewrite Z.add_0_r.
      * intros k Hk He. apply (Hb (S k)); [simpl; lia|]. rewrite He. f_equal. lia.
Qed.

(** *** Sets of signals *)

Lemma has_testbit (set sig : Z) : 1 <= sig -> has set sig = Z.testbit set (sig - 1).
Proof.
  intros Hs. unfold has, bit, c_true.
  assert (Z.land set (Z.shiftl 1 (sig - 1)) = if Z.testbit set (sig - 1) then Z.shiftl 1 (sig - 1) else 0) as ->.
  { apply Z.bits_inj'. intros j Hj. rewrite Z.land_spec, testbit_one_shl by lia.
    destruct (Z.eqb_spec (sig - 1) j) as [->|Hne].
    - destruct (Z.testbit set j) eqn:E; [|by rewrite Z.testbit_0_l]. rewrite testbit_one_shl by lia. by rewrite Z.eqb_refl.
    - rewrite andb_false_r. destruct (Z.testbit set (sig - 1)); [|by rewrite Z.testbit_0_l].
      rewrite testbit_one_shl by lia. by apply Z.eqb_neq in Hne as ->. }
  destruct (Z.testbit set (sig - 1)) eqn:E; [|done]. rewrite Z.shiftl_1_l.
  pose proof (Z.pow_pos_nonneg 2 (sig - 1)). destruct (Z.eqb_spec (2 ^ (sig - 1)) 0); [lia|done].
Qed.

Lemma has_add (set sig k : Z) : 1 <= sig -> 1 <= k -> has (Z.lor set (bit sig)) k = has set k || (k =? sig).
Proof.
  intros Hs Hk. rewrite !has_testbit, Z.lor_spec by done. unfold bit. rewrite testbit_one_shl by lia. f_equal.
  destruct (Z.eqb_spec k sig), (Z.eqb_spec (sig - 1) (k - 1)); lia.
Qed.

Lemma has_remove (set sig k : Z) : 1 <= sig -> 1 <= k -> has (Z.ldiff set (bit sig)) k = has set k && negb (k =? sig).
Proof.
  intros Hs Hk. rewrite !has_testbit, Z.ldiff_spec by done. unfold bit. rewrite testbit_one_shl by lia. f_equal. f_equal.
  destruct (Z.eqb_spec k sig), (Z.eqb_spec (sig - 1) (k - 1)); lia.
Qed.

Lemma has_union (set set' k : Z) : 1 <= k -> has (Z.lor set set') k = has set k || has set' k.
Proof. intros Hk. by rewrite !has_testbit, Z.lor_spec. Qed.
Lemma has_minus (set set' k : Z) : 1 <= k -> has (Z.ldiff set set') k = has set k && negb (has set' k).
Proof. intros Hk. by rewrite !has_testbit, Z.ldiff_spec. Qed.

(** The signal that is delivered next. *)
Definition is_next (p : pcb) (sig : Z) : Prop :=
  1 <= sig < 32 /\ deliverable p sig = true /\ forall k, 1 <= k < sig -> deliverable p k = false.

Lemma next_signal_spec (p : pcb) :
  match next_signal p with
  | Some sig => is_next p sig
  | None => forall k, 1 <= k < 32 -> deliverable p k = false
  end.
Proof.
  unfold next_signal. pose proof (find_range (deliverable p) 1 32) as Hf. destruct (List.find _ _); exact Hf.
Qed.

(** *** Delivery *)

(** What the default action makes of a state. *)
Definition default_state (sig : Z) (st : Sched.proc_state) : Sched.proc_state :=
  if is_stop sig then Sched.PROCESS_BLOCKED
  else if is_quiet sig then st
  else if sig =? SIGCONT then (if decide (st = Sched.PROCESS_BLOCKED) then Sched.PROCESS_READY else st)
  else Sched.PROCESS_ZOMBIE.

(** The fields that the default actions leave alone. *)
Definition same_signals (p p' : pcb) : Prop :=
  signal_pending p' = signal_pending p /\ signal_blocked p' = signal_blocked p /\ signal_handlers p' = signal_handlers p /\
  p_context p' = p_context p /\ signal_sa_mask p' = signal_sa_mask p /\ alarm_ticks p' = alarm_ticks p /\ pid p' = pid p.

Lemma handle_default_run (a sig : Z) (p : pcb) (s : system) :
  a <> NULL -> procs s !! a = Some p ->
  wp (signal_handle_default a sig) (fun _ s' => only a s s' /\ mem s' = mem s /\ exists p', procs s' !! a = Some p' /\
    same_signals p p' /\ state p' = default_state sig (state p)) s.
Proof.
  intros Ha Hp. unfold signal_handle_default, default_state.
  assert (forall f, same_signals p (f p) -> wp (update a f) (fun _ s' => only a s s' /\ mem s' = mem s /\
    exists p', procs s' !! a = Some p' /\ same_signals p p' /\ state p' = state (f p)) s) as Hup.
  { intros f Hf. eapply wp_set_pcb; [done|]. split_and!; [apply only_set|done|]. eexists. cbn. by rewrite lookup_insert_eq. }
  destruct (Z.eqb_spec sig SIGKILL) as [->|]; [by apply (Hup (set_state Sched.PROCESS_ZOMBIE))|].
  destruct (is_stop sig); [by apply (Hup (fun p => set_blocked_reason BLOCK_REASON_WAIT (set_state Sched.PROCESS_BLOCKED p)))|].
  destruct (is_quiet sig). { apply wp_ret. split_and!; [apply only_refl|done|]. exists p. by split_and!. }
  destruct (sig =? SIGCONT); [|by apply (Hup (set_state Sched.PROCESS_ZOMBIE))].
  wp_run. eapply wp_pcb; [done|]. unfold is_blocked. case_decide as E.
  - rewrite bool_decide_true by done. eapply wp_mono; [by apply sched_unblock_run|]. intros [] s' _ (Ho & Hm & p' & Hp' & ->).
    split_and!; [done|done|]. eexists. split; [exact Hp'|]. unfold is_blocked. by rewrite bool_decide_true.
  - rewrite bool_decide_false by done. apply wp_ret. split_and!; [apply only_refl|done|]. exists p. by split_and!.
Qed.

(** The frame that [signal_deliver] saves. *)
Definition frame_of (sig : Z) (p : pcb) : signal_frame :=
  let c := p_context p in
  mk_frame 0 sig (eip c) (eflags c) (eax c) (ecx c) (edx c) (signal_sa_flags p) (signal_sa_mask p).

(** The process enters its handler: below the interrupted stack lie the frame, the signal
    as the argument and the address of the frame as the return address. *)
Record entered (sig : Z) (s s' : system) (p p' : pcb) : Prop := {
  en_state : state p' = state p;
  en_frame_addr : signal_frame_addr p' = u32 (useresp (p_context p) - 36);
  en_blocked : signal_blocked p' = Z.lor (signal_blocked p) (bit sig);
  en_context : p_context p' = set_eip (signal_handlers p).[sig - 1] (set_useresp (u32 (useresp (p_context p) - 44)) (p_context p));
  en_frame : forall k w, frame_words (frame_of sig p) !! k = Some w ->
    mem s' (u32 (signal_frame_addr p' + 4 * Z.of_nat k)) = w;
  en_argument : mem s' (u32 (useresp (p_context p) - 40)) = sig;
  en_return : mem s' (u32 (useresp (p_context p) - 44)) = signal_frame_addr p';
  en_others : forall b, (forall k, 0 <= k < 11 -> b <> u32 (useresp (p_context p) - 44 + 4 * k)) -> mem s' b = mem s b;
}.

(** The effect of the delivery of [sig], by the handler of the process. *)
Record delivered (sig : Z) (s s' : system) (p p' : pcb) : Prop := {
  dv_pending : signal_pending p' = Z.ldiff (signal_pending p) (bit sig);
  dv_handlers : signal_handlers p' = signal_handlers p;
  dv_alarm : alarm_ticks p' = alarm_ticks p;
  dv_default : (signal_handlers p).[sig - 1] = SIG_DFL ->
    mem s' = mem s /\ p_context p' = p_context p /\ signal_blocked p' = signal_blocked p /\
    state p' = default_state sig (state p);
  dv_ignore : (signal_handlers p).[sig - 1] = SIG_IGN ->
    mem s' = mem s /\ p_context p' = p_context p /\ signal_blocked p' = signal_blocked p /\ state p' = state p;
  dv_handler : (signal_handlers p).[sig - 1] <> SIG_DFL -> (signal_handlers p).[sig - 1] <> SIG_IGN -> entered sig s s' p p';
}.

Lemma u32_sum_l (x y : Z) : u32 (u32 x + y) = u32 (x + y).
Proof. unfold u32. apply Zplus_mod_idemp_l. Qed.

Lemma u32_diff_l (x y : Z) : u32 (u32 x - y) = u32 (x - y).
Proof. unfold u32. apply Zminus_mod_idemp_l. Qed.

(** The writes below the frame do not reach it. *)
Lemma push_run (F sig x : Z) (ws : list Z) (s : system) :
  F = u32 (x - 36) -> length ws = 9%nat ->
  wp (store_words F ws ;; store (u32 (F - 4)) sig ;; store (u32 (u32 (F - 4) - 4)) F) (fun _ s' =>
    s' = set_mem (mem s') s /\ (forall k w, ws !! k = Some w -> mem s' (u32 (F + 4 * Z.of_nat k)) = w) /\
    mem s' (u32 (x - 40)) = sig /\ mem s' (u32 (x - 44)) = F /\
    (forall b, (forall k, 0 <= k < 11 -> b <> u32 (x - 44 + 4 * k)) -> mem s' b = mem s b)) s.
Proof.
  intros HF Hl. eapply wp_seq; [apply store_words_run; unfold zlen; lia|]. intros [] s1 (H1 & H2 & H3).
  assert (forall i, u32 (F + i) = u32 (x - 36 + i)) as HFi by (intros i; subst F; apply u32_sum_l).
  assert (u32 (F - 4) = u32 (x - 40)) as E4 by (rewrite <-Z.add_opp_r, HFi; f_equal; lia).
  assert (u32 (u32 (F - 4) - 4) = u32 (x - 44)) as E8.
  { rewrite E4, <-(Z.add_opp_r (u32 _)), u32_sum_l. f_equal. lia. }
  unfold store. wp_run. cbn. rewrite E4 in *. rewrite E8 in *. rewrite !(u32_small (u32 _)) by apply u32_range.
  assert (forall i j, Z.abs (i - j) < 2 ^ 32 -> i <> j -> (u32 (x + i) =? u32 (x + j)) = false) as Hne.
  { intros i j Hd Hij. apply Z.eqb_neq. intros He. by apply u32_offset in He. }
  split_and!.
  - rewrite H1. by destruct s.
  - intros k w Hk. assert (k < 9)%nat by (rewrite <-Hl; by eapply lookup_lt_Some).
    rewrite HFi. replace (x - 36 + 4 * Z.of_nat k) with (x + (4 * Z.of_nat k - 36)) by lia.
    replace (x - 44) with (x + - 44) by lia. replace (x - 40) with (x + - 40) by lia. rewrite !Hne by lia.
    rewrite <-(H2 k w Hk), HFi. f_equal. f_equal. lia.
  - replace (x - 44) with (x + - 44) by lia. replace (x - 40) with (x + - 40) by lia. rewrite Hne by lia.
    by rewrite Z.eqb_refl.
  - by rewrite Z.eqb_refl.
  - intros b Hb. destruct (Z.eqb_spec b (u32 (x - 44))) as [->|].
    { destruct (Hb 0); [lia|]. f_equal. lia. }
    destruct (Z.eqb_spec b (u32 (x - 40))) as [->|].
    { destruct (Hb 1); [lia|]. f_equal. lia. }
    apply H3. intros k Hk ->. apply (Hb (Z.of_nat k + 2)); [lia|]. rewrite HFi. f_equal. lia.
Qed.

Lemma signal_deliver_run (a sig : Z) (p : pcb) (s : system) :
  a <> NULL -> procs s !! a = Some p ->
  wp (signal_deliver a sig) (fun _ s' => only a s s' /\ exists p', procs s' !! a = Some p' /\ delivered sig s s' p p') s.
Proof.
  intros Ha Hp. unfold signal_deliver. wp_run. eapply wp_pcb; [done|]. wp_run. eapply wp_set_pcb; [done|].
  set (p1 := set_pending _ p). set (s1 := set_procs _ s).
  assert (procs s1 !! a = Some p1) as Hp1 by (cbn; by rewrite lookup_insert_eq).
  destruct (Z.eqb_spec (signal_handlers p).[sig - 1] SIG_DFL) as [Ed|Ed].
  { eapply wp_mono; [by apply handle_default_run|]. intros [] s' _ (Ho & Hm & p' & Hp' & (E1 & E2 & E3 & E4 & E5 & E6 & E7) & Est).
    split; [eapply only_trans; [apply only_set|exact Ho]|]. exists p'. split; [done|].
    constructor; try done. by rewrite Ed. }
  destruct (Z.eqb_spec (signal_handlers p).[sig - 1] SIG_IGN) as [Ei|Ei].
  { apply wp_ret. split; [apply only_set|]. exists p1. split; [done|]. by constructor. }
  apply wp_assoc3. eapply wp_seq; [by apply (push_run _ sig (useresp (p_context p)) (frame_words (frame_of sig p)))|].
  intros [] s2 (H1 & H2 & H3 & H4 & H5). eapply wp_set_pcb; [by rewrite H1|].
  set (p2 := set_context _ _). split.
  { eapply only_trans; [apply (only_set a p1)|]. eapply only_trans; [|apply only_set]. rewrite H1. by constructor. }
  exists p2. split; [cbn; by rewrite lookup_insert_eq|]. constructor; try done. intros _ _. constructor; try done.
  cbn. unfold sizeof_frame. f_equal. f_equal. rewrite !u32_diff_l, <-Z.sub_add_distr, u32_diff_l. f_equal. lia.
Qed.

(** *** Sending *)

Definition wake (p : pcb) : pcb :=
  if is_blocked p then set_blocked_reason BLOCK_REASON_NONE (set_state Sched.PROCESS_READY p) else p.

Lemma kill_run (n sig a : Z) (p : pcb) (s : system) :
  bad_sig sig = false -> 0 <= n < MAX_PROCESSES -> process_table s n = a -> a <> NULL -> procs s !! a = Some p ->
  wp (kill n sig) (fun r s' => r = 0 /\ only a s s' /\ mem s' = mem s /\
    procs s' !! a = Some (wake (set_pending (Z.lor (signal_pending p) (bit sig)) p))) s.
Proof.
  intros Hb Hn Ht Ha Hp. unfold kill, process_get_pcb. rewrite Hb. apply wp_bind.
  rewrite (proj2 (Z.ltb_ge _ _)), (proj2 (Z.leb_gt _ _)) by lia. simpl orb. cbv iota. apply wp_gets. rewrite Ht.
  rewrite (proj2 (Z.eqb_neq _ _) Ha). apply wp_bind. eapply wp_set_pcb; [done|].
  set (p1 := set_pending _ p). set (s1 := set_procs _ s).
  assert (procs s1 !! a = Some p1) as Hp1 by (cbn; by rewrite lookup_insert_eq).
  apply wp_bind. eapply wp_pcb; [done|].
  apply (wp_seq _ _ (fun _ s2 => only a s s2 /\ mem s2 = mem s /\
    procs s2 !! a = Some (if is_blocked p1 && negb (sig =? SIGCONT) then wake p1 else p1))).
  - case_if.
    + eapply wp_mono; [by apply sched_unblock_run|]. intros [] s2 _ (Ho & Hm & p2 & Hp2 & ->).
      split_and!; [eapply only_trans; [apply only_set|exact Ho]|done|done].
    + apply wp_ret. split_and!; [apply only_set|done|done].
  - intros [] s2 (Ho & Hm & Hp2). apply wp_bind. eapply wp_pcb; [done|].
    apply (wp_seq _ _ (fun _ s3 => only a s s3 /\ mem s3 = mem s /\ procs s3 !! a = Some (wake p1))).
    + unfold wake in *. destruct (sig =? SIGCONT); simpl.
      * rewrite andb_false_r in *. case_if.
        -- eapply wp_mono; [by apply sched_unblock_run|]. intros [] s3 _ (Ho3 & Hm3 & p3 & Hp3 & ->).
           split_and!; [by eapply only_trans|congruence|]. by rewrite Heqb in Hp3.
        -- apply wp_ret. by split_and!.
      * rewrite andb_true_r in *. apply wp_ret. split_and!; [done|done|]. by destruct (is_blocked p1).
    + intros [] s3 (Ho3 & Hm3 & Hp3). wp_run. by split_and!.
Qed.

(** The process is found under its number. *)
Definition registered (s : system) (a : Z) (p : pcb) : Prop :=
  a <> NULL /\ procs s !! a = Some p /\ 0 <= pid p < MAX_PROCESSES /\ process_table s (pid p) = a.

(** The alarm counts down, and at its end SIGALRM is pending. *)
Definition ticked (p : pcb) : pcb :=
  if 0 <? alarm_ticks p then
    let p1 := set_alarm_ticks (alarm_ticks p - 1) p in
    if alarm_ticks p =? 1 then wake (set_pending (Z.lor (signal_pending p) (bit SIGALRM)) p1) else p1
  else p.

Lemma check_alarm_run (a : Z) (p : pcb) (s : system) :
  registered s a p ->
  wp (check_alarm a) (fun _ s' => only a s s' /\ mem s' = mem s /\ procs s' !! a = Some (ticked p)) s.
Proof.
  intros (Ha & Hp & Hn & Ht). unfold check_alarm, ticked. wp_run. eapply wp_pcb; [done|]. case_if.
  - wp_run. eapply wp_set_pcb; [done|]. set (s1 := set_procs _ s).
    assert (procs s1 !! a = Some (set_alarm_ticks (alarm_ticks p - 1) p)) as Hp1 by (cbn; by rewrite lookup_insert_eq).
    destruct (Z.eqb_spec (alarm_ticks p) 1) as [E|E].
    + rewrite E. simpl. eapply wp_seq; [apply (kill_run (pid p) SIGALRM a (set_alarm_ticks (alarm_ticks p - 1) p) s1); done|].
      intros r s' (_ & Ho & Hm & Hp'). wp_run. split_and!; [eapply only_trans; [apply only_set|exact Ho]|done|].
      rewrite Hp', E. done.
    + rewrite (proj2 (Z.eqb_neq _ _)) by lia. wp_run. split_and!; [apply only_set|done|done].
  - wp_run. split_and!; [apply only_refl|done|done].
Qed.

Lemma check_deliver_run (a : Z) (p : pcb) (s : system) :
  registered s a p ->
  wp (signal_check_deliver a) (fun _ s' => only a s s' /\ exists p', procs s' !! a = Some p' /\
    ((forall k, 1 <= k < 32 -> deliverable (ticked p) k = false) /\ mem s' = mem s /\ p' = ticked p \/
     exists sig, is_next (ticked p) sig /\ delivered sig s s' (ticked p) p')) s.
Proof.
  intros Hr. pose proof Hr as (Ha & _). unfold signal_check_deliver. rewrite (proj2 (Z.eqb_neq _ _) Ha).
  eapply wp_seq; [by apply check_alarm_run|]. intros [] s1 (Ho & Hm & Hp). apply wp_bind. eapply wp_pcb; [done|].
  pose proof (next_signal_spec (ticked p)) as Hn. destruct (next_signal (ticked p)) as [sig|].
  - eapply wp_mono; [by apply signal_deliver_run|]. intros [] s2 _ (Ho2 & p' & Hp' & Hd).
    split; [by eapply only_trans|]. exists p'. split; [done|]. right. exists sig. split; [done|].
    destruct Hd as [D1 D2 D3 D4 D5 D6]. constructor; try done; try (by rewrite <-Hm).
    intros H1 H2. destruct (D6 H1 H2) as [E1 E2 E3 E4 E5 E6 E7 E8]. constructor; try done. intros b Hb. rewrite <-Hm. auto.
  - apply wp_ret. split; [done|]. exists (ticked p). split; [done|]. by left.
Qed.

Lemma delivery_spec_run (a : Z) (p : pcb) (s : system) :
  registered s a p -> exists s', signal_check_deliver a s = Some (tt, s').
Proof. intros Hr. pose proof (check_deliver_run a p s Hr) as Hwp. apply wp_run in Hwp as ( [] & s' & Hs & _). eauto. Qed.

Lemma ticked_fields (p : pcb) :
  signal_blocked (ticked p) = signal_blocked p /\ signal_handlers (ticked p) = signal_handlers p /\
  pid (ticked p) = pid p /\ p_context (ticked p) = p_context p /\ signal_sa_mask (ticked p) = signal_sa_mask p /\
  (forall k, 1 <= k -> k <> SIGALRM -> has (signal_pending (ticked p)) k = has (signal_pending p) k).
Proof.
  unfold ticked, wake. repeat case_if; split_and!; try done.
  all: intros k Hk Hne; cbn; rewrite has_add by done; apply Z.eqb_neq in Hne; rewrite Hne; by rewrite orb_false_r.
Qed.

(** ** The theorems on delivery *)


Lemma load_frame_run (f : signal_frame) (F : Z) (s : system) :
  (forall k w, frame_words f !! k = Some w -> mem s (u32 (F + 4 * Z.of_nat k)) = w) ->
  wp (load_frame F) (fun f' s' => f' = f /\ s' = s) s.
Proof.
  intros Hf. unfold load_frame, load. wp_run. split; [|done]. destruct f as [w0 w1 w2 w3 w4 w5 w6 w7 w8].
  f_equal; [rewrite <-(Z.add_0_r F)| | | | | | | |].
  - by apply (Hf 0%nat).
  - by apply (Hf 1%nat).
  - by apply (Hf 2%nat).
  - by apply (Hf 3%nat).
  - by apply (Hf 4%nat).
  - by apply (Hf 5%nat).
  - by apply (Hf 6%nat).
  - by apply (Hf 7%nat).
  - by apply (Hf 8%nat).
Qed.


(** ** SIGKILL and SIGSTOP *)

(** The two signals are neither blocked nor caught. *)
Definition unmasked (set : Z) : Prop := has set SIGKILL = false /\ has set SIGSTOP = false.
Record protected (p : pcb) : Prop := {
  pr_blocked : unmasked (signal_blocked p);
  pr_len : zlen (signal_handlers p) = NSIG;
  pr_kill : (signal_handlers p).[SIGKILL - 1] = SIG_DFL;
  pr_stop : (signal_handlers p).[SIGSTOP - 1] = SIG_DFL;
}.

(** The operations of signal.c but sigreturn; a process is given by its control block.
    [Resume a old] is the end of [sigsuspend]. *)
Inductive op :=
| Init (a : Z) | Kill (n sig : Z) | Tkill (n sig : Z) | Tgkill (g n sig : Z) | Queue (n sig value : Z)
| Action (sig : Z) (act : option sigaction_entry) | Signal (sig handler : Z) | Mask (how : Z) (set : option Z) | Pending
| Suspend (msk : option Z) | Resume (a old : Z) | Pause (a : Z)
| Register (a sig handler : Z) | Block (a sig : Z) | Unblock (a sig : Z)
| SysAction (a sig : Z) (act : option sigaction_t) | SysMask (a how : Z) (set : option Z) (oset : bool)
| Alarm (a seconds : Z) | Check (a : Z) | CheckAnd (a : Z).

Definition drop {A} (m : M A) : M unit := m ;; mret tt.
Definition exec (o : op) : M unit :=
  match o with
  | Init a => update a signal_init_proc
  | Kill n sig => drop (kill n sig)
  | Tkill n sig => drop (tkill n sig)
  | Tgkill g n sig => drop (tgkill g n sig)
  | Queue n sig value => drop (sigqueue n sig value)
  | Action sig act => drop (sigaction sig act)
  | Signal sig handler => drop (signal sig handler)
  | Mask how set => drop (sigprocmask how set)
  | Pending => drop sigpending
  | Suspend msk => drop (sigsuspend_enter msk)
  | Resume a old => drop (sigsuspend_leave a old)
  | Pause a => signal_pause_enter a
  | Register a sig handler => drop (apply_to a (signal_register sig handler))
  | Block a sig => update a (signal_block sig)
  | Unblock a sig => update a (signal_unblock sig)
  | SysAction a sig act => drop (apply_to a (signal_sigaction sig act))
  | SysMask a how set oset => drop (apply_to a (signal_sigprocmask how set oset))
  | Alarm a seconds => drop (apply_to a (signal_alarm seconds))
  | Check a => drop (signal_check a)
  | CheckAnd a => drop (signal_check_and_deliver a)
  end.
Fixpoint run (os : list op) : M unit :=
  match os with [] => mret tt | o :: os => exec o ;; run os end.

Section protection.
Context (D : gset Z) (tb pids : Z -> Z).

(** The control blocks [D] with their numbers and the table of processes stay the same. *)
Record wf (s : system) : Prop := {
  wf_dom : forall a, a ∈ D <-> is_Some (procs s !! a);
  wf_null : NULL ∉ D;
  wf_pid : forall a p, procs s !! a = Some p -> pid p = pids a;
  wf_table : process_table s = tb;
  wf_slots : forall n, tb n = NULL \/ tb n ∈ D;
  wf_current : current s = NULL \/ current s ∈ D;
  wf_protected : forall a p, procs s !! a = Some p -> protected p;
}.

(** The processes an operation names exist, and a mask that is restored has been saved. *)
Definition op_ok (o : op) : Prop :=
  match o with
  | Init a | Pause a | Register a _ _ | Block a _ | Unblock a _ | SysAction a _ _ | SysMask a _ _ _ | Alarm a _
  | Check a | CheckAnd a => a ∈ D
  | Resume a old => a ∈ D /\ unmasked old
  | _ => True
  end.

(** [m] keeps the system well formed and answers something with [P]. *)
Definition keeps {A} (m : M A) (P : A -> Prop) : Prop := forall s, wf s -> wp m (fun x s' => P x /\ wf s') s.

Lemma keeps_ret {A} (x : A) (P : A -> Prop) : P x -> keeps (mret x) P.
Proof. intros Hx s Hs. by apply wp_ret. Qed.
Lemma keeps_bind {A B} (m : M A) (k : A -> M B) (P : A -> Prop) (Q : B -> Prop) :
  keeps m P -> (forall x, P x -> keeps (k x) Q) -> keeps (m ≫= k) Q.
Proof. intros Hm Hk s Hs. eapply wp_seq; [by apply Hm|]. intros x s' [Hx Hs']. by apply Hk. Qed.
Lemma keeps_weaken {A} (m : M A) (P Q : A -> Prop) : keeps m P -> (forall x, P x -> Q x) -> keeps m Q.
Proof. intros Hm HPQ s Hs. eapply wp_mono; [by apply Hm|]. intros x s' _ [Hx Hs']. auto. Qed.
Lemma keeps_true {A} (m : M A) (P : A -> Prop) : keeps m P -> keeps m (fun _ => True).
Proof. intros Hm. by eapply keeps_weaken. Qed.

Lemma keeps_deref (a : Z) : a ∈ D -> keeps (deref a) protected.
Proof.
  intros Ha s Hs. destruct (proj1 (wf_dom _ Hs a) Ha) as [p Hp]. eapply wp_pcb; [done|]. split; [|done].
  by eapply wf_protected.
Qed.

(** A change of a control block that leaves the two signals alone. *)
Definition safe (f : pcb -> pcb) : Prop := forall p, protected p -> protected (f p) /\ pid (f p) = pid p.

Lemma wf_put (a : Z) (p p' : pcb) (s : system) :
  wf s -> procs s !! a = Some p -> protected p' -> pid p' = pid p -> wf (set_procs (<[a := p']> (procs s)) s).
Proof.
  intros [W1 W2 W3 W4 W5 W6 W7] Hp Hpr Hid. constructor; try done; cbn.
  - intros b. rewrite W1, lookup_insert. case_decide as E; [subst|done]. rewrite Hp. split; eauto.
  - intros b q. rewrite lookup_insert. case_decide as E; [|apply W3]. intros [= <-]. subst. rewrite Hid. auto.
  - intros b q. rewrite lookup_insert. case_decide as E; [|apply W7]. by intros [= <-].
Qed.

Lemma keeps_update (a : Z) (f : pcb -> pcb) : a ∈ D -> safe f -> keeps (update a f) (fun _ => True).
Proof.
  intros Ha Hf s Hs. destruct (proj1 (wf_dom _ Hs a) Ha) as [p Hp]. eapply wp_set_pcb; [done|]. split; [done|].
  destruct (Hf p) as [H1 H2]; [by eapply wf_protected|]. by eapply wf_put.
Qed.

Lemma keeps_apply {A} (a : Z) (f : pcb -> A * pcb) : a ∈ D -> safe (fun p => (f p).2) -> keeps (apply_to a f) (fun _ => True).
Proof.
  intros Ha Hf s Hs. destruct (proj1 (wf_dom _ Hs a) Ha) as [p Hp]. unfold apply_to. wp_run. eapply wp_pcb; [done|].
  wp_run. split; [done|]. destruct (Hf p) as [H1 H2]; [by eapply wf_protected|]. by eapply wf_put.
Qed.

Lemma keeps_store (addr v : Z) : keeps (store addr v) (fun _ => True).
Proof. intros s [W1 W2 W3 W4 W5 W6 W7]. unfold store. wp_run. split; [done|]. by constructor. Qed.
Lemma keeps_store_words (ws : list Z) : forall addr, keeps (store_words addr ws) (fun _ => True).
Proof.
  induction ws as [|w ws IH]; intros addr; [by apply keeps_ret|]. eapply keeps_bind; [apply keeps_store|]. intros _ _. apply IH.
Qed.

(** A pointer that is null or exists. *)
Definition pointer (a : Z) : Prop := a = NULL \/ a ∈ D.
Lemma keeps_current : keeps sched_get_current pointer.
Proof. intros s Hs. unfold sched_get_current. wp_run. split; [apply Hs|done]. Qed.
Lemma keeps_get_pcb (n : Z) : keeps (process_get_pcb n) pointer.
Proof.
  unfold process_get_pcb. case_if; [by apply keeps_ret; left|]. intros s Hs. wp_run. split; [|done].
  rewrite (wf_table _ Hs). apply Hs.
Qed.
Lemma pointer_use (a : Z) : pointer a -> a <> NULL -> a ∈ D.
Proof. by intros [?|?] ?. Qed.

Lemma safe_other (f : pcb -> pcb) :
  (forall p, signal_blocked (f p) = signal_blocked p) -> (forall p, signal_handlers (f p) = signal_handlers p) ->
  (forall p, pid (f p) = pid p) -> safe f.
Proof. intros H1 H2 H3 p [P1 P2 P3 P4]. split; [|done]. by constructor; rewrite ?H1, ?H2. Qed.

Lemma safe_mask (g : pcb -> Z) : (forall p, protected p -> unmasked (g p)) -> safe (fun p => set_blocked (g p) p).
Proof. intros Hg p Hp. split; [|done]. destruct Hp as [P1 P2 P3 P4] eqn:E. constructor; cbn; try done. by apply Hg. Qed.

Lemma good_sig (sig : Z) : bad_sig sig = false -> 1 <= sig < 32.
Proof. unfold bad_sig, NSIG. intros. zbool. lia. Qed.
Lemma catchable (sig : Z) : uncatchable sig = false -> sig <> SIGKILL /\ sig <> SIGSTOP.
Proof. unfold uncatchable. intros. zbool. done. Qed.

Lemma protected_handler (p : pcb) (sig h : Z) :
  protected p -> bad_sig sig = false -> uncatchable sig = false -> protected (set_handlers ((signal_handlers p).[sig - 1 <- h]) p).
Proof.
  intros [P1 P2 P3 P4] Hb%good_sig [Hk Hs]%catchable. constructor; cbn; unfold SIGKILL, SIGSTOP in *; [done| | |].
  - by rewrite zlen_aset.
  - by rewrite aget_aset_ne by lia.
  - by rewrite aget_aset_ne by lia.
Qed.

Lemma unmasked_add (set sig : Z) : unmasked set -> 1 <= sig -> uncatchable sig = false -> unmasked (Z.lor set (bit sig)).
Proof.
  intros [H1 H2] Hs [Hk Hst]%catchable. unfold unmasked. rewrite !has_add, H1, H2, !orb_false_l by done.
  by split; apply Z.eqb_neq; congruence.
Qed.
Lemma unmasked_minus (set set' : Z) : unmasked set -> unmasked (Z.ldiff set set').
Proof. intros [H1 H2]. unfold unmasked. by rewrite !has_minus, H1, H2. Qed.
Lemma unmasked_union (set set' : Z) : unmasked set -> unmasked set' -> unmasked (Z.lor set set').
Proof. intros [H1 H2] [K1 K2]. unfold unmasked. by rewrite !has_union, H1, H2, K1, K2. Qed.
Lemma unmasked_maskable (set : Z) : unmasked (maskable set).
Proof. unfold unmasked, maskable. rewrite !has_remove by done. by rewrite !andb_false_r. Qed.
Lemma unmasked_suspend (set : Z) : unmasked (Z.ldiff set (Z.lor (bit SIGKILL) (bit SIGSTOP))).
Proof. unfold unmasked. rewrite !has_minus by done. by rewrite !andb_false_r. Qed.

(** *** The operations on one process *)

Lemma init_protected (p : pcb) : protected (signal_init_proc p).
Proof.
  assert (forall l, zlen l = NSIG -> Forall (fun h => h = SIG_DFL) l ->
    zlen l = NSIG /\ l.[SIGKILL - 1] = SIG_DFL /\ l.[SIGSTOP - 1] = SIG_DFL) as Hl.
  { intros l Hz Hf. split_and!; [done|..]; apply (aget_Forall (fun h => h = SIG_DFL)); try done; rewrite Hz; done. }
  destruct (Hl ((fun _ => SIG_DFL) <$> range 0 NSIG)) as (H1 & H2 & H3).
  { unfold zlen. rewrite length_fmap. by apply (zlen_range 0 NSIG). }
  { apply Forall_fmap, Forall_forall. done. }
  constructor; cbn [signal_blocked signal_handlers signal_init_proc set_pending_bits set_restorer set_frame_addr
    set_alarm_ticks set_sa_mask set_sa_flags set_blocked set_pending set_actions set_handlers]; try done.
Qed.
Lemma safe_init : safe signal_init_proc.
Proof. intros p _. split; [apply init_protected|done]. Qed.

Lemma safe_register (sig h : Z) : safe (fun p => (signal_register sig h p).2).
Proof.
  intros p Hp. unfold signal_register. repeat case_if; try done. split; [|done].
  destruct (protected_handler p sig h Hp) as [P1 P2 P3 P4]; [done..|]. by constructor.
Qed.
Lemma safe_block (sig : Z) : safe (signal_block sig).
Proof.
  intros p Hp. unfold signal_block. repeat case_if; try done. pose proof (good_sig sig ltac:(done)).
  apply (safe_mask (fun p => Z.lor (signal_blocked p) (bit sig))); [|done]. intros q Hq. apply unmasked_add; [apply Hq|lia|done].
Qed.
Lemma safe_unblock (sig : Z) : safe (signal_unblock sig).
Proof.
  intros p Hp. unfold signal_unblock. case_if; [done|].
  apply (safe_mask (fun p => Z.ldiff (signal_blocked p) (bit sig))); [|done]. intros q Hq. apply unmasked_minus, Hq.
Qed.
Lemma safe_sigaction (sig : Z) (a : option sigaction_t) : safe (fun p => (signal_sigaction sig a p).2).
Proof.
  intros p Hp. unfold signal_sigaction. case_if; [done|]. case_if; [done|]. destruct a as [a|]; [|done]. cbn.
  destruct (protected_handler p sig (sa_handler (act a)) Hp) as [P1 P2 P3 P4]; [done..|].
  case_if; (split; [|done]); by constructor.
Qed.
Lemma safe_change_mask (how : Z) (set : option Z) : safe (fun p => (change_mask how set p).2).
Proof.
  intros p Hp. unfold change_mask, new_blocked. destruct set as [set|]; [|done].
  destruct (how =? SIG_BLOCK); [|destruct (how =? SIG_UNBLOCK); [|destruct (how =? SIG_SETMASK); [|done] ] ]; cbn.
  - apply (safe_mask (fun p => Z.lor (signal_blocked p) (maskable set))); [|done].
    intros q Hq. apply unmasked_union; [apply Hq|apply unmasked_maskable].
  - apply (safe_mask (fun p => Z.ldiff (signal_blocked p) (maskable set))); [|done]. intros q Hq. apply unmasked_minus, Hq.
  - apply (safe_mask (fun _ => maskable set)); [|done]. intros q Hq. apply unmasked_maskable.
Qed.
Lemma safe_sigprocmask (how : Z) (set : option Z) (oset : bool) : safe (fun p => (signal_sigprocmask how set oset p).2).
Proof.
  intros p Hp. unfold signal_sigprocmask. destruct set as [set|]; [by apply safe_change_mask|].
  destruct oset; [by apply safe_change_mask|done].
Qed.
Lemma safe_set_action (sig : Z) (a : option sigaction_entry) :
  bad_sig sig = false -> uncatchable sig = false -> safe (fun p => (set_action sig a p).2).
Proof.
  intros Hb Hu p Hp. unfold set_action. destruct a as [a|]; [|done]. cbn.
  destruct (protected_handler p sig (sa_handler a) Hp) as [P1 P2 P3 P4]; [done..|]. split; [|done]. by constructor.
Qed.

(** *** The operations on the system *)

Lemma keeps_unblock (a : Z) : pointer a -> keeps (sched_unblock a) (fun _ => True).
Proof.
  intros Ha. unfold sched_unblock. destruct (Z.eqb_spec a NULL) as [|Hne]; [by apply keeps_ret|].
  pose proof (pointer_use a Ha Hne) as HD. eapply keeps_bind; [by apply keeps_deref|]. intros p _.
  case_if; [|by apply keeps_ret]. eapply keeps_bind; [apply keeps_update; [done|by apply safe_other]|]. intros _ _.
  intros s [W1 W2 W3 W4 W5 W6 W7]. wp_run. split; [done|]. by constructor.
Qed.

Lemma keeps_kill (n sig : Z) : keeps (kill n sig) (fun _ => True).
Proof.
  unfold kill. case_if; [by apply keeps_ret|]. eapply keeps_bind; [apply keeps_get_pcb|]. intros a Ha.
  destruct (Z.eqb_spec a NULL) as [|Hne]; [by apply keeps_ret|]. pose proof (pointer_use a Ha Hne) as HD.
  eapply keeps_bind; [apply keeps_update; [done|by apply safe_other]|]. intros _ _.
  eapply keeps_bind; [by apply keeps_deref|]. intros p _.
  eapply (keeps_bind _ _ (fun _ => True)); [case_if; [by apply keeps_unblock|by apply keeps_ret]|]. intros _ _.
  eapply keeps_bind; [by apply keeps_deref|]. intros p' _.
  eapply (keeps_bind _ _ (fun _ => True)); [case_if; [by apply keeps_unblock|by apply keeps_ret]|]. intros _ _.
  by apply keeps_ret.
Qed.

Lemma keeps_sigqueue (n sig v : Z) : keeps (sigqueue n sig v) (fun _ => True).
Proof.
  unfold sigqueue. case_if; [by apply keeps_ret|]. eapply keeps_bind; [apply keeps_get_pcb|]. intros a Ha.
  destruct (Z.eqb_spec a NULL) as [|Hne]; [by apply keeps_ret|]. pose proof (pointer_use a Ha Hne) as HD.
  eapply keeps_bind; [apply keeps_update; [done|by apply safe_other]|]. intros _ _.
  eapply keeps_bind; [apply keeps_update; [done|]|].
  { apply safe_other; intros p; unfold enqueue_value; by case_if. }
  intros _ _. eapply keeps_bind; [by apply keeps_deref|]. intros p _.
  eapply (keeps_bind _ _ (fun _ => True)); [case_if; [by apply keeps_unblock|by apply keeps_ret]|]. intros _ _.
  by apply keeps_ret.
Qed.

Lemma keeps_default (a sig : Z) : a ∈ D -> keeps (signal_handle_default a sig) (fun _ => True).
Proof.
  intros Ha. unfold signal_handle_default. repeat case_if; try (by apply keeps_ret).
  all: try (by apply keeps_update, safe_other).
  eapply keeps_bind; [by apply keeps_deref|]. intros p _. case_if; [apply keeps_unblock; by right|by apply keeps_ret].
Qed.

(** A signal with a handler is neither SIGKILL nor SIGSTOP, so it may be blocked. *)
Lemma keeps_deliver (a sig : Z) : a ∈ D -> 1 <= sig -> keeps (signal_deliver a sig) (fun _ => True).
Proof.
  intros Ha Hs. unfold signal_deliver. eapply keeps_bind; [by apply keeps_deref|]. intros p Hp.
  eapply keeps_bind; [by apply keeps_update, safe_other|]. intros _ _.
  destruct (Z.eqb_spec (signal_handlers p).[sig - 1] SIG_DFL) as [|Hd]; [by apply keeps_default|].
  case_if; [by apply keeps_ret|]. assert (uncatchable sig = false) as Hu.
  { unfold uncatchable. apply orb_false_iff. split; apply Z.eqb_neq; intros ->; apply Hd; apply Hp. }
  eapply keeps_bind; [apply keeps_store_words|]. intros _ _. eapply keeps_bind; [apply keeps_store|]. intros _ _.
  eapply keeps_bind; [apply keeps_store|]. intros _ _. apply keeps_update; [done|].
  intros q [P1 P2 P3 P4]. split; [|done]. constructor; cbn; try done. by apply unmasked_add.
Qed.

Lemma keeps_check_deliver (a : Z) : a ∈ D -> keeps (signal_check_deliver a) (fun _ => True).
Proof.
  intros Ha. unfold signal_check_deliver. case_if; [by apply keeps_ret|]. apply (keeps_bind _ _ (fun _ => True)).
  - unfold check_alarm. eapply keeps_bind; [by apply keeps_deref|]. intros p _. case_if; [|by apply keeps_ret].
    eapply keeps_bind; [by apply keeps_update, safe_other|]. intros _ _. case_if; [|by apply keeps_ret].
    eapply keeps_bind; [apply keeps_kill|]. intros _ _. by apply keeps_ret.
  - intros _ _. eapply keeps_bind; [by apply keeps_deref|]. intros p _. pose proof (next_signal_spec p) as Hn.
    destruct (next_signal p) as [sig|]; [|by apply keeps_ret]. apply keeps_deliver; [done|]. destruct Hn. lia.
Qed.

Lemma keeps_drop {A} (m : M A) (P : A -> Prop) : keeps m P -> keeps (drop m) (fun _ => True).
Proof. intros Hm. eapply keeps_bind; [exact Hm|]. intros _ _. by apply keeps_ret. Qed.

(** An operation on the current process. *)
Lemma keeps_on_current {A} (dflt : A) (k : Z -> M A) :
  (forall cur, cur ∈ D -> keeps (k cur) (fun _ => True)) ->
  keeps (cur ← sched_get_current; if cur =? NULL then mret dflt else k cur) (fun _ => True).
Proof.
  intros Hk. eapply keeps_bind; [apply keeps_current|]. intros cur Hc.
  destruct (Z.eqb_spec cur NULL) as [|Hne]; [by apply keeps_ret|]. by apply Hk, pointer_use.
Qed.

Lemma keeps_exec (o : op) : op_ok o -> keeps (exec o) (fun _ => True).
Proof.
  intros Ho. destruct o; simpl in Ho |- *.
  - by apply keeps_update, safe_init.
  - eapply keeps_drop, keeps_kill.
  - eapply keeps_drop. unfold tkill. case_if; [by apply (keeps_ret _ (fun _ => True))|apply keeps_kill].
  - eapply keeps_drop. unfold tgkill. case_if; [by apply (keeps_ret _ (fun _ => True))|apply keeps_kill].
  - eapply keeps_drop, keeps_sigqueue.
  - eapply keeps_drop. unfold sigaction. do 2 (case_if; [by apply (keeps_ret _ (fun _ => True))|]).
    apply keeps_on_current. intros cur Hc. eapply keeps_bind; [by apply keeps_apply, safe_set_action|].
    intros old _. by apply keeps_ret.
  - eapply keeps_drop. unfold signal. do 2 (case_if; [by apply (keeps_ret _ (fun _ => True))|]).
    apply keeps_on_current. intros cur Hc. eapply keeps_bind; [by apply keeps_deref|]. intros p _.
    eapply keeps_bind; [apply keeps_update; [done|apply safe_register]|]. intros _ _. by apply keeps_ret.
  - eapply keeps_drop. unfold sigprocmask. apply keeps_on_current. intros cur Hc. by apply keeps_apply, safe_change_mask.
  - eapply keeps_drop. unfold sigpending. apply keeps_on_current. intros cur Hc.
    eapply keeps_bind; [by apply keeps_deref|]. intros p _. by apply keeps_ret.
  - eapply keeps_drop. unfold sigsuspend_enter. apply keeps_on_current. intros cur Hc.
    eapply keeps_bind; [by apply keeps_deref|]. intros p _. apply (keeps_bind _ _ (fun _ => True)).
    + destruct msk as [msk|]; [|by apply keeps_ret]. apply keeps_update; [done|].
      apply (safe_mask (fun _ => _)). intros q _. apply unmasked_suspend.
    + intros _ _. eapply keeps_bind; [by apply keeps_update, safe_other|]. intros _ _. by apply keeps_ret.
  - destruct Ho as [Ha Hu]. eapply keeps_drop. unfold sigsuspend_leave.
    eapply keeps_bind; [apply keeps_update; [done|by apply (safe_mask (fun _ => old))]|]. intros _ _.
    by apply (keeps_ret _ (fun _ => True)).
  - by apply keeps_update, safe_other.
  - eapply keeps_drop. by apply keeps_apply, safe_register.
  - by apply keeps_update, safe_block.
  - by apply keeps_update, safe_unblock.
  - eapply keeps_drop. by apply keeps_apply, safe_sigaction.
  - eapply keeps_drop. by apply keeps_apply, safe_sigprocmask.
  - eapply keeps_drop. by apply keeps_apply, safe_other.
  - eapply keeps_drop. unfold signal_check. eapply keeps_bind; [by apply keeps_check_deliver|]. intros _ _.
    by apply (keeps_ret _ (fun _ => True)).
  - eapply keeps_drop. unfold signal_check_and_deliver. eapply keeps_bind; [by apply keeps_check_deliver|]. intros _ _.
    eapply keeps_bind; [by apply keeps_deref|]. intros p _. by apply (keeps_ret _ (fun _ => True)).
Qed.

Lemma keeps_run (os : list op) : Forall op_ok os -> keeps (run os) (fun _ => True).
Proof.
  induction 1 as [|o os Ho Hos IH]; [by apply keeps_ret|]. eapply keeps_bind; [by apply keeps_exec|]. intros _ _. exact IH.
Qed.

(** *** Delivery of SIGKILL *)

Fixpoint checks (n : nat) (a : Z) : M unit :=
  match n with O => mret tt | S n => signal_check_deliver a ;; checks n a end.

(** The process is a zombie after at most [n] checks. *)
Definition dies (n : nat) (a : Z) (s : system) : Prop :=
  exists k, (k <= n)%nat /\ wp (checks k a) (fun _ s' => exists p, procs s' !! a = Some p /\ state p = Sched.PROCESS_ZOMBIE) s.

Lemma dies_step (n : nat) (a : Z) (s : system) :
  wp (signal_check_deliver a) (fun _ s' => dies n a s') s -> dies (S n) a s.
Proof.
  intros Hwp. apply wp_run in Hwp as ( [] & s' & Hs & k & Hk & Hd). exists (S k). split; [lia|]. simpl.
  apply wp_bind. unfold wp at 1. by rewrite Hs.
Qed.

(** Signals below SIGKILL are delivered first; each is gone after its delivery. *)
Lemma kill_delivered (n : nat) (a j : Z) : forall (s : system) (p : pcb),
  wf s -> registered s a p -> a ∈ D -> has (signal_pending p) SIGKILL = true -> 1 <= j <= SIGKILL ->
  10 <= Z.of_nat n + j -> (forall k, 1 <= k < j -> deliverable p k = false) -> dies n a s.
Proof.
  revert j. induction n as [|n IH]; intros j s p Hw Hr Ha Hk Hj Hn Hlow; [unfold SIGKILL in *; lia|]. apply dies_step.
  pose proof Hr as (Hne & Hp & Hpid & Htb). pose proof (wf_protected _ Hw _ _ Hp) as Hpr.
  pose proof (keeps_check_deliver a Ha s Hw) as Hkeep. pose proof (check_deliver_run a p s Hr) as Hrun.
  unfold wp in *. destruct (signal_check_deliver a s) as [ [ [] s']|]; [|done].
  destruct Hkeep as [_ Hw']. destruct Hrun as (Ho & p' & Hp' & Hcase).
  destruct (ticked_fields p) as (T1 & T2 & T3 & T4 & T5 & T6).
  assert (forall k, 1 <= k <= SIGKILL -> deliverable (ticked p) k = deliverable p k) as Hsame.
  { intros k Hkr. unfold deliverable. rewrite T1, T6; [done|lia|unfold SIGKILL, SIGALRM in *; lia]. }
  assert (deliverable p SIGKILL = true) as Hdk.
  { unfold deliverable. rewrite Hk. destruct (pr_blocked _ Hpr) as [-> _]. done. }
  destruct Hcase as [ [Hno _]|(sig & (Hsr & Hsd & Hsl) & Hdv)].
  { rewrite <-Hsame, Hno in Hdk by (unfold SIGKILL; lia). done. }
  assert (j <= sig <= SIGKILL) as Hsj.
  { split.
    - apply Z.nlt_ge. intros Hlt. rewrite Hsame, Hlow in Hsd by (unfold SIGKILL in *; lia). done.
    - apply Z.nlt_ge. intros Hlt. rewrite <-Hsame, Hsl in Hdk by (unfold SIGKILL in *; lia). done. }
  destruct Hdv as [D1 D2 D3 D4 D5 D6]. rewrite T2 in *.
  destruct (decide ((signal_handlers p).[sig - 1] = SIG_DFL)) as [Ed|Ed].
  { exists 0%nat. split; [lia|]. simpl. unfold mret, FM_ret. exists p'. split; [done|]. destruct (D4 Ed) as (_ & _ & _ & ->).
    unfold default_state, is_stop, is_quiet. unfold SIGKILL in *.
    assert (forall x, 10 <= x -> (sig =? x) = false) as Hx by (intros x Hx; apply Z.eqb_neq; lia).
    by rewrite !Hx by done. }
  assert (signal_pending p' = Z.ldiff (signal_pending (ticked p)) (bit sig) /\
    forall k, 1 <= k -> has (signal_blocked p) k = true -> has (signal_blocked p') k = true) as [Epd Ebl].
  { split; [done|]. intros k Hk1. destruct (decide ((signal_handlers p).[sig - 1] = SIG_IGN)) as [Ei|Ei].
    - destruct (D5 Ei) as (_ & _ & -> & _). by rewrite T1.
    - destruct (D6 Ed Ei) as [_ _ -> _ _ _ _ _]. rewrite T1, has_add by lia. intros ->. done. }
  assert (sig <> SIGKILL) as Hnk by (intros ->; apply Ed, Hpr).
  apply (IH (sig + 1) s' p'); try done.
  - assert (pid p' = pid p) as Eid by (by rewrite (wf_pid _ Hw' _ _ Hp'), <-(wf_pid _ Hw _ _ Hp)).
    unfold registered. by rewrite Eid, (only_table _ _ _ Ho).
  - rewrite Epd, has_remove, T6, Hk by (done || lia). by rewrite (proj2 (Z.eqb_neq _ _)) by congruence.
  - unfold SIGKILL in *. lia.
  - lia.
  - intros k Hkr. unfold deliverable. rewrite Epd, has_remove by lia. destruct (Z.eqb_spec k sig) as [->|Hks].
    + by rewrite andb_false_r.
    + specialize (Hsl k ltac:(lia)). unfold deliverable in Hsl. rewrite T1 in Hsl. rewrite andb_true_r.
      destruct (has (signal_pending (ticked p)) k); [|done]. simpl in Hsl |- *. apply negb_false_iff in Hsl.
      by rewrite (Ebl k ltac:(lia) Hsl).
Qed.
End protection.

(** C14: SIGKILL always works.  After any sequence of the operations of signal.c other than
    sigreturn, by and on any processes, no process blocks SIGKILL or SIGSTOP or has a
    handler for them; and when SIGKILL is then sent to a registered process, the process is
    a zombie after at most nine checks of its signals, whatever is pending, blocked, ignored
    or handled.  None of the operations faults. *)
Theorem kill_works (D : gset Z) (tb pids : Z -> Z) (os : list op) (s0 : system) (a : Z) :
  wf D tb pids s0 -> Forall (op_ok D) os -> a ∈ D -> 0 <= pids a < MAX_PROCESSES -> tb (pids a) = a ->
  exists s1 s2 k s3 p, run os s0 = Some (tt, s1) /\ (forall b q, procs s1 !! b = Some q -> protected q) /\
    kill (pids a) SIGKILL s1 = Some (0, s2) /\ (k <= 9)%nat /\
    checks k a s2 = Some (tt, s3) /\ procs s3 !! a = Some p /\ state p = Sched.PROCESS_ZOMBIE.
Proof.
  intros Hw Hok Ha Hn Ht. pose proof (keeps_run D tb pids os Hok s0 Hw) as Hrun.
  apply wp_run in Hrun as ( [] & s1 & Hs1 & _ & Hw1). destruct (proj1 (wf_dom _ _ _ _ Hw1 a) Ha) as [p1 Hp1].
  assert (a <> NULL) as Hne by (intros ->; by apply (wf_null _ _ _ _ Hw1)).
  assert (process_table s1 (pids a) = a) as Ht1 by (by rewrite (wf_table _ _ _ _ Hw1)).
  pose proof (keeps_kill D tb pids (pids a) SIGKILL s1 Hw1) as Hkeep.
  pose proof (kill_run (pids a) SIGKILL a p1 s1 eq_refl Hn Ht1 Hne Hp1) as Hkill.
  unfold wp in Hkeep, Hkill. destruct (kill (pids a) SIGKILL s1) as [ [r s2]|] eqn:Hs2; [|done].
  destruct Hkeep as [_ Hw2], Hkill as (-> & Ho & _ & Hp2). set (p2 := wake _) in Hp2.
  assert (pid p2 = pids a) as Eid by (by apply (wf_pid _ _ _ _ Hw2)).
  destruct (kill_delivered D tb pids 9 a 1 s2 p2) as (k & Hk & Hd); try done.
  - unfold registered. by rewrite Eid, (only_table _ _ _ Ho).
  - unfold p2, wake. case_if; cbn; by rewrite has_add, orb_true_r.
  - lia.
  - apply wp_run in Hd as ( [] & s3 & Hs3 & p & Hp & Hst). exists s1, s2, k, s3, p. split_and!; try done. apply Hw1.
Qed.

(** ** A concrete process *)

Definition some_pcb : pcb :=
  signal_init_proc (mk_pcb 1 Sched.PROCESS_RUNNING 0 (mk_regs 0x8048000 0x202 1 2 3 0xBFFFF000) 0 0 [] 0 0 0 0 0 [] 0
    (replicate 32 (0, 0)) 0).
Definition some_table (n : Z) : Z := if n =? 1 then 4096 else NULL.
Definition some_system : system := mk_system {[4096 := some_pcb]} some_table 4096 (fun _ => 0) [].

Lemma some_wf : wf {[4096]} some_table (fun _ => 1) some_system.
Proof.
  constructor.
  - intros a. cbn [procs some_system]. rewrite elem_of_singleton, lookup_singleton_is_Some. naive_solver.
  - rewrite elem_of_singleton. done.
  - intros a p Hp. cbn [procs some_system] in Hp. apply lookup_singleton_Some in Hp as [_ <-]. done.
  - done.
  - intros n. unfold some_table. case_if; [right; by apply elem_of_singleton|by left].
  - right. by apply elem_of_singleton.
  - intros a p Hp. cbn [procs some_system] in Hp. apply lookup_singleton_Some in Hp as [_ <-]. apply init_protected.
Qed.


Definition busy_ops : list op :=
  [Register 4096 1 0x5000; Register 4096 2 SIG_IGN; SysMask 4096 SIG_SETMASK (Some 0xFFFFFFFF) false; Kill 1 1; Kill 1 2;
   Register 4096 9 0x5000; Block 4096 9; Suspend (Some 0xFFFFFFFF); Kill 1 14; Resume 4096 0; Alarm 4096 1; Check 4096].

Lemma kill_works_witness :
  exists s1 s2 k s3 p, run busy_ops some_system = Some (tt, s1) /\ (forall b q, procs s1 !! b = Some q -> protected q) /\
    kill 1 SIGKILL s1 = Some (0, s2) /\ (k <= 9)%nat /\
    checks k 4096 s2 = Some (tt, s3) /\ procs s3 !! 4096 = Some p /\ state p = Sched.PROCESS_ZOMBIE.
Proof.
  apply (kill_works {[4096]} some_table (fun _ => 1) busy_ops some_system 4096).
  - exact some_wf.
  - repeat (constructor; [first [done | by apply elem_of_singleton | by split; [apply elem_of_singleton|] ]|]). constructor.
  - by apply elem_of_singleton.
  - done.
  - done.
Defined.

(** SIGUSR1 (10) is pending with a handler; the handler then clobbers the registers. *)
Definition rt_pcb : pcb := set_pending (bit 10) (snd (signal_register 10 0x5000 some_pcb)).
Definition rt_system : system := set_procs {[4096 := rt_pcb]} some_system.
Definition rt_entered : system := match signal_check_deliver 4096 rt_system with Some (_, s) => s | None => rt_system end.
Definition rt_handler_pcb : pcb := default rt_pcb (procs rt_entered !! 4096).
Definition rt_clobbered : pcb := set_context (mk_regs 0x5010 0 7 8 9 0xBFFFEF00) rt_handler_pcb.
Definition rt_returning : system := set_procs {[4096 := rt_clobbered]} rt_entered.

Lemma memory_of_set (v : gmap Z pcb) (s : system) : mem (set_procs v s) = mem s.
Proof. reflexivity. Qed.
Lemma rt_memory (x : Z) : mem rt_returning x = mem rt_entered x.
Proof. unfold rt_returning. by rewrite memory_of_set. Qed.
Lemma rt_enters : signal_check_deliver 4096 rt_system = Some (tt, rt_entered).
Proof.
  unfold rt_entered. destruct (delivery_spec_run 4096 rt_pcb rt_system) as (s' & Hs); [by split_and!|]. by rewrite Hs.
Qed.


(** *** Defects *)

Definition after {A} (m : M A) {B} (f : pcb -> B) : option B :=
  match m some_system with Some (_, s) => f <$> procs s !! 4096 | None => None end.

(** sigreturn takes the mask of [sigaction] for the mask to restore: a handler with a full
    mask leaves SIGKILL blocked, and the process cannot be killed. *)
Lemma sigreturn_blocks_kill :
  after (exec (SysAction 4096 10 (Some (mk_sigaction (mk_action 0x5000 0xFFFFFFFF 0) 0))) ;; kill 1 10 ;; checks 1 4096 ;;
         signal_sigreturn 4096 ;; kill 1 SIGKILL ;; checks 50 4096) (fun p => (state p, has (signal_blocked p) SIGKILL)) =
  Some (Sched.PROCESS_RUNNING, true).
Proof. vm_compute. reflexivity. Qed.

(** A mask that was set before the handler ran is lost when it returns. *)
Lemma sigreturn_forgets_mask :
  after (exec (Register 4096 10 0x5000) ;; exec (Block 4096 2) ;; kill 1 10 ;; checks 1 4096 ;; signal_sigreturn 4096)
    (fun p => has (signal_blocked p) 2) = Some false.
Proof. vm_compute. reflexivity. Qed.

(** The return address of a handler is the frame, whatever restorer was registered. *)
Lemma restorer_is_ignored :
  match (exec (SysAction 4096 10 (Some (mk_sigaction (mk_action 0x5000 0 SA_RESTORER) 0x6000))) ;; kill 1 10 ;;
         checks 1 4096) some_system with
  | Some (_, s) => (fun p => (signal_restorer p, mem s (useresp (p_context p)), signal_frame_addr p)) <$> procs s !! 4096
  | None => None
  end = Some (0x6000, 0xBFFFF000 - 36, 0xBFFFF000 - 36).
Proof. vm_compute. reflexivity. Qed.

(** A second handler on top of the first overwrites [signal_frame_addr]: the sigreturn of
    the first does nothing and the interrupted code is not resumed. *)
Lemma nested_handler_lost :
  after (exec (Register 4096 10 0x5000) ;; exec (Register 4096 12 0x6000) ;; kill 1 10 ;; checks 1 4096 ;; kill 1 12 ;;
         checks 1 4096 ;; signal_sigreturn 4096 ;; signal_sigreturn 4096) (fun p => eip (p_context p)) = Some 0x5000.
Proof. vm_compute. reflexivity. Qed.

(** Any signal makes a stopped process ready, also one that is ignored by default. *)
Lemma any_signal_continues :
  after (kill 1 SIGSTOP ;; checks 1 4096) state = Some Sched.PROCESS_BLOCKED /\
  after (kill 1 SIGSTOP ;; checks 1 4096 ;; kill 1 SIGCHLD) state = Some Sched.PROCESS_READY.
Proof. split; vm_compute; reflexivity. Qed.

(** A zombie takes SIGSTOP and is made ready by the signal after it. *)
Lemma zombie_revived :
  after (kill 1 SIGKILL ;; checks 1 4096 ;; kill 1 SIGSTOP ;; checks 1 4096 ;; kill 1 SIGCONT) state = Some Sched.PROCESS_READY.
Proof. vm_compute. reflexivity. Qed.

(** The values of [sigqueue] are never taken out: the thirty-third is dropped, with success. *)
Lemma sigqueue_drops_values :
  match (r ← (run (replicate 32 (Queue 1 10 5)) ;; sigqueue 1 10 6); mret r) some_system with
  | Some (r, s) => (fun p => (r, sig_queue_count p, bool_decide ((10, 6) ∈ sig_queue p))) <$> procs s !! 4096
  | None => None
  end = Some (0, 32, false).
Proof. vm_compute. reflexivity. Qed.
End Signal.
