(* ===== verification/RamFs.v ===== *)
(** * The memory file system (src/fs/ramfs.c)

    [Module RamFs]: the nodes of the file system and the directory entries and inodes that
    the virtual file system sees, each in a memory keyed by address, and every operation as
    a state monad with faults (FaultM.v).  A buffer is [None] for the null pointer or the
    bytes of the allocated block; what a new block holds is not known.  Names are C strings,
    lists of bytes; the owner and the times, which are always zero, are left out.

    Theorems: an open file refines a list of bytes with an offset ([file_refines]); a name
    that is created resolves to a new empty file and no other name is affected
    ([create_lookup]).  The lemmas at the end run the code on small file systems and show
    defects, most of them of renaming, of names that are too long and of holes. *)

From S2P Require Import Prelude FaultM.

Module RamFs.

Definition RAMFS_MAX_NAME : Z := 255.
Definition RAMFS_INITIAL_CAP : Z := 64.
Definition FILE_MODE_READ : Z := 0x01.
Definition FILE_MODE_WRITE : Z := 0x02.
Definition FILE_MODE_DIR : Z := 0x08.
Definition FILE_MODE_REG : Z := 0x10.
Definition FILE_MODE_LNK : Z := 0x20.
Definition EBADF : Z := 9.
Definition EINVAL : Z := 22.
Definition ENOSYS : Z := 38.
Definition FIONREAD : Z := 0x541B.
Definition FIONBIO : Z := 0x5421.

Record ramfs_node := mk_node {
  ino : Z; mode : Z; size : Z; capacity : Z; data : option (list Z);
  parent : Z; child : Z; next_sibling : Z; name : list Z; nlinks : Z;
}.
Definition eta_node (n : ramfs_node) : ramfs_node :=
  mk_node (ino n) (mode n) (size n) (capacity n) (data n) (parent n) (child n) (next_sibling n) (name n) (nlinks n).
Definition set_size (v : Z) (n : ramfs_node) : ramfs_node := ltac:(set_field eta_node n size v).
Definition set_capacity (v : Z) (n : ramfs_node) : ramfs_node := ltac:(set_field eta_node n capacity v).
Definition set_data (v : option (list Z)) (n : ramfs_node) : ramfs_node := ltac:(set_field eta_node n data v).
Definition set_parent (v : Z) (n : ramfs_node) : ramfs_node := ltac:(set_field eta_node n parent v).
Definition set_child (v : Z) (n : ramfs_node) : ramfs_node := ltac:(set_field eta_node n child v).
Definition set_next (v : Z) (n : ramfs_node) : ramfs_node := ltac:(set_field eta_node n next_sibling v).
Definition set_name (v : list Z) (n : ramfs_node) : ramfs_node := ltac:(set_field eta_node n name v).
Definition set_nlinks (v : Z) (n : ramfs_node) : ramfs_node := ltac:(set_field eta_node n nlinks v).

Record inode_t := mk_inode { i_ino : Z; i_mode : Z; i_size : Z; i_nlinks : Z; private_data : Z; i_dentries : Z }.
Record dentry_t := mk_dentry { d_name : list Z; d_parent : Z; d_child : Z; d_next : Z; d_inode : Z }.
Definition set_d_child (v : Z) (d : dentry_t) : dentry_t := mk_dentry (d_name d) (d_parent d) v (d_next d) (d_inode d).
Definition set_d_next (v : Z) (d : dentry_t) : dentry_t := mk_dentry (d_name d) (d_parent d) (d_child d) v (d_inode d).
Record file_t := mk_file { offset : Z; f_inode : Z }.

(** The three memories, [ramfs_root], [ramfs_next_ino] and the number of allocations. *)
Record fs := mk_fs {
  nodes : gmap Z ramfs_node; inodes : gmap Z inode_t; dents : gmap Z dentry_t;
  ramfs_root : Z; ramfs_next_ino : Z; allocs : Z;
}.
Definition eta_fs (s : fs) : fs := mk_fs (nodes s) (inodes s) (dents s) (ramfs_root s) (ramfs_next_ino s) (allocs s).
Definition set_nodes (v : gmap Z ramfs_node) (s : fs) : fs := ltac:(set_field eta_fs s nodes v).
Definition set_inodes (v : gmap Z inode_t) (s : fs) : fs := ltac:(set_field eta_fs s inodes v).
Definition set_dents (v : gmap Z dentry_t) (s : fs) : fs := ltac:(set_field eta_fs s dents v).
Definition set_root (v : Z) (s : fs) : fs := ltac:(set_field eta_fs s ramfs_root v).
Definition set_next_ino (v : Z) (s : fs) : fs := ltac:(set_field eta_fs s ramfs_next_ino v).
Definition set_allocs (v : Z) (s : fs) : fs := ltac:(set_field eta_fs s allocs v).

(** The heap: the address of a new structure or null, and a new block of bytes or null. *)
Class Heap := {
  new_address : fs -> Z;
  new_block : fs -> Z -> option (list Z);
  new_address_fresh : forall s, new_address s <> NULL ->
    nodes s !! new_address s = None /\ inodes s !! new_address s = None /\ dents s !! new_address s = None;
  new_block_size : forall s n b, 0 <= n -> new_block s n = Some b -> zlen b = n;
}.

Notation M := (FM fs).

Section operations.
Context `{Heap}.

Definition count_alloc : M unit := modify (fun s => set_allocs (allocs s + 1) s).
Definition kmalloc_struct : M Z := a ← gets new_address; count_alloc ;; mret a.
Definition kmalloc_bytes (n : Z) : M (option (list Z)) := b ← gets (fun s => new_block s n); count_alloc ;; mret b.

Definition get_node (a : Z) : M ramfs_node := n ← gets (fun s => nodes s !! a); of_option n.
Definition get_inode (a : Z) : M inode_t := i ← gets (fun s => inodes s !! a); of_option i.
Definition get_dentry (a : Z) : M dentry_t := d ← gets (fun s => dents s !! a); of_option d.
Definition put_node (a : Z) (n : ramfs_node) : M unit := modify (fun s => set_nodes (<[a := n]> (nodes s)) s).
Definition put_inode (a : Z) (i : inode_t) : M unit := modify (fun s => set_inodes (<[a := i]> (inodes s)) s).
Definition put_dentry (a : Z) (d : dentry_t) : M unit := modify (fun s => set_dents (<[a := d]> (dents s)) s).
Definition update_node (a : Z) (f : ramfs_node -> ramfs_node) : M unit := n ← get_node a; put_node a (f n).
Definition update_dentry (a : Z) (f : dentry_t -> dentry_t) : M unit := d ← get_dentry a; put_dentry a (f d).
Definition kfree_node (a : Z) : M unit := modify (fun s => set_nodes (delete a (nodes s)) s).
Definition kfree_inode (a : Z) : M unit := modify (fun s => set_inodes (delete a (inodes s)) s).
Definition kfree_dentry (a : Z) : M unit := modify (fun s => set_dents (delete a (dents s)) s).

Definition has_mode (n : ramfs_node) (bits : Z) : bool := c_true (Z.land (mode n) bits).
(** [strncpy(dst, src, 255); dst[255] = 0] *)
Definition cut_name (s : list Z) : list Z := take (Z.to_nat RAMFS_MAX_NAME) s.

(** ** Helpers *)

Definition ramfs_alloc_ino : M Z := i ← gets ramfs_next_ino; modify (set_next_ino (u32 (i + 1))) ;; mret i.

(** The loop along the children. *)
Fixpoint find_from (fuel : nat) (m : gmap Z ramfs_node) (c : Z) (s : list Z) : option Z :=
  if c =? NULL then Some NULL else
  match m !! c, fuel with
  | Some n, S fuel => if bool_decide (name n = s) then Some c else find_from fuel m (next_sibling n) s
  | _, _ => None
  end.
Definition ramfs_find_child (dir : Z) (s : list Z) : M Z :=
  if dir =? NULL then mret NULL else
  n ← get_node dir;
  if negb (has_mode n FILE_MODE_DIR) then mret NULL else
  r ← gets (fun f => find_from (base.size (nodes f)) (nodes f) (child n) s); of_option r.

(** The loop with the last element seen. *)
Fixpoint unlink_from (fuel : nat) (node par prev cur : Z) : M unit :=
  if cur =? NULL then mret tt else
  match fuel with
  | O => fault
  | S fuel =>
      c ← get_node cur;
      if cur =? node then
        (if prev =? NULL then update_node par (set_child (next_sibling c)) else update_node prev (set_next (next_sibling c)))
      else unlink_from fuel node par cur (next_sibling c)
  end.
Definition ramfs_unlink_from_parent (node : Z) : M unit :=
  if node =? NULL then mret tt else
  n ← get_node node;
  if parent n =? NULL then mret tt else
  p ← get_node (parent n);
  fuel ← gets (fun s => base.size (nodes s));
  unlink_from fuel node (parent n) NULL (child p).

(** [while (cap < new_size) cap *= 2], which need not end. *)
Fixpoint grow_cap (fuel : nat) (cap new_size : Z) : option Z :=
  if new_size <=? cap then Some cap else
  match fuel with O => None | S fuel => grow_cap fuel (u32 (cap * 2)) new_size end.

Definition data_bytes (n : ramfs_node) : list Z := default [] (data n).
(** The first [size] bytes are copied when there are any. *)
Definition copy_data (n : ramfs_node) (buf : list Z) : list Z :=
  take (Z.to_nat (size n)) (data_bytes n) ++ drop (Z.to_nat (size n)) buf.
Definition ramfs_grow_data (a new_size : Z) : M Z :=
  n ← get_node a;
  if new_size <=? capacity n then mret 0 else
  cap ← of_option (grow_cap 33 (if capacity n =? 0 then RAMFS_INITIAL_CAP else capacity n) new_size);
  buf ← kmalloc_bytes cap;
  match buf with
  | None => mret (-1)
  | Some buf =>
      let buf := if bool_decide (data n <> None) && (0 <? size n) then copy_data n buf else buf in
      put_node a (set_capacity cap (set_data (Some buf) n)) ;; mret 0
  end.

Definition ramfs_build_dentry (par node : Z) (s : list Z) : M Z :=
  i ← kmalloc_struct;
  if i =? NULL then mret NULL else
  put_inode i (mk_inode 0 0 0 0 0 0) ;;
  d ← kmalloc_struct;
  if d =? NULL then kfree_inode i ;; mret NULL else
  n ← get_node node;
  p ← get_dentry par;
  put_inode i (mk_inode (ino n) (mode n) (size n) (nlinks n) node d) ;;
  put_dentry d (mk_dentry (cut_name s) par NULL (d_child p) i) ;;
  update_dentry par (set_d_child d) ;;
  mret d.

Fixpoint remove_dentry_from (fuel : nat) (par : Z) (s : list Z) (prev cur : Z) : M unit :=
  if cur =? NULL then mret tt else
  match fuel with
  | O => fault
  | S fuel =>
      c ← get_dentry cur;
      if bool_decide (d_name c = s) then
        (if prev =? NULL then update_dentry par (set_d_child (d_next c)) else update_dentry prev (set_d_next (d_next c))) ;;
        (if d_inode c =? NULL then mret tt else kfree_inode (d_inode c)) ;;
        kfree_dentry cur
      else remove_dentry_from fuel par s cur (d_next c)
  end.
Definition ramfs_remove_vfs_dentry (par : Z) (s : list Z) : M unit :=
  if par =? NULL then mret tt else
  p ← get_dentry par;
  fuel ← gets (fun s => base.size (dents s));
  remove_dentry_from fuel par s NULL (d_child p).

Definition ramfs_new_node (s : list Z) (md : Z) : M Z :=
  a ← kmalloc_struct;
  if a =? NULL then mret NULL else
  i ← ramfs_alloc_ino;
  put_node a (mk_node i md 0 0 None NULL NULL NULL (cut_name s) (if c_true (Z.land md FILE_MODE_DIR) then 2 else 1)) ;;
  mret a.

(** ** Directory operations *)

(** [dir->inode->private_data], or null where one of the pointers is. *)
Definition node_of (dir : Z) : M Z :=
  if dir =? NULL then mret NULL else
  d ← get_dentry dir;
  if d_inode d =? NULL then mret NULL else
  i ← get_inode (d_inode d); mret (private_data i).

Definition dot : list Z := [46].
Definition dotdot : list Z := [46; 46].

Fixpoint lookup_from (fuel : nat) (m : gmap Z dentry_t) (c : Z) (s : list Z) : option Z :=
  if c =? NULL then Some NULL else
  match m !! c, fuel with
  | Some d, S fuel => if bool_decide (d_name d = s) then Some c else lookup_from fuel m (d_next d) s
  | _, _ => None
  end.
Definition ramfs_lookup_op (dir : Z) (s : list Z) : M Z :=
  nd ← node_of dir;
  if nd =? NULL then mret NULL else
  n ← get_node nd;
  if negb (has_mode n FILE_MODE_DIR) then mret NULL else
  if bool_decide (s = dot) then mret dir else
  d ← get_dentry dir;
  if bool_decide (s = dotdot) then mret (d_parent d) else
  r ← gets (fun f => lookup_from (base.size (dents f)) (dents f) (d_child d) s); of_option r.

(** [n->parent = d; n->next_sibling = d->child; d->child = n] *)
Definition link_child (dnode n : Z) : M unit :=
  d ← get_node dnode;
  update_node n (fun n => set_next (child d) (set_parent dnode n)) ;;
  update_node dnode (set_child n).

Definition ramfs_create_op (dir : Z) (s : list Z) (md : Z) : M Z :=
  dn ← node_of dir;
  if dn =? NULL then mret (-1) else
  d ← get_node dn;
  if negb (has_mode d FILE_MODE_DIR) then mret (-1) else
  c ← ramfs_find_child dn s;
  if negb (c =? NULL) then mret (-1) else
  n ← ramfs_new_node s (Z.lor md FILE_MODE_REG);
  if n =? NULL then mret (-1) else
  link_child dn n ;;
  b ← ramfs_build_dentry dir n s;
  if b =? NULL then ramfs_unlink_from_parent n ;; kfree_node n ;; mret (-1) else
  mret 0.

Definition ramfs_mkdir_op (dir : Z) (s : list Z) (md : Z) : M Z :=
  dn ← node_of dir;
  if dn =? NULL then mret (-1) else
  d ← get_node dn;
  if negb (has_mode d FILE_MODE_DIR) then mret (-1) else
  c ← ramfs_find_child dn s;
  if negb (c =? NULL) then mret (-1) else
  n ← ramfs_new_node s (Z.lor (Z.ldiff md FILE_MODE_REG) FILE_MODE_DIR);
  if n =? NULL then mret (-1) else
  link_child dn n ;;
  update_node dn (fun d => set_nlinks (u32 (nlinks d + 1)) d) ;;
  b ← ramfs_build_dentry dir n s;
  if b =? NULL then
    update_node dn (fun d => set_nlinks (u32 (nlinks d - 1)) d) ;;
    ramfs_unlink_from_parent n ;; kfree_node n ;; mret (-1)
  else mret 0.

Definition ramfs_remove_node (par node : Z) : M Z :=
  n ← get_node node;
  if has_mode n FILE_MODE_DIR && negb (child n =? NULL) then mret (-1) else
  (if has_mode n FILE_MODE_DIR then
     update_node par (fun p => if 0 <? nlinks p then set_nlinks (nlinks p - 1) p else p)
   else mret tt) ;;
  ramfs_unlink_from_parent node ;;
  kfree_node node ;;
  mret 0.

(** [unlink] and [rmdir] differ in the kind of node they take. *)
Definition remove_op (is_dir : bool) (dir : Z) (s : list Z) : M Z :=
  dn ← node_of dir;
  if dn =? NULL then mret (-1) else
  c ← ramfs_find_child dn s;
  if c =? NULL then mret (-1) else
  n ← get_node c;
  if negb (Bool.eqb (has_mode n FILE_MODE_DIR) is_dir) then mret (-1) else
  r ← ramfs_remove_node dn c;
  (if r =? 0 then ramfs_remove_vfs_dentry dir s else mret tt) ;;
  mret r.
Definition ramfs_unlink_op : Z -> list Z -> M Z := remove_op false.
Definition ramfs_rmdir_op : Z -> list Z -> M Z := remove_op true.

Definition ramfs_rename_op (old_dir : Z) (old_name : list Z) (new_dir : Z) (new_name : list Z) : M Z :=
  od ← node_of old_dir;
  if od =? NULL then mret (-1) else
  nd ← node_of new_dir;
  if nd =? NULL then mret (-1) else
  node ← ramfs_find_child od old_name;
  if node =? NULL then mret (-1) else
  c ← ramfs_find_child nd new_name;
  if negb (c =? NULL) then mret (-1) else
  ramfs_unlink_from_parent node ;;
  update_node node (set_name (cut_name new_name)) ;;
  link_child nd node ;;
  ramfs_remove_vfs_dentry old_dir old_name ;;
  b ← ramfs_build_dentry new_dir node new_name;
  if b =? NULL then
    ramfs_unlink_from_parent node ;;
    update_node node (set_name (cut_name old_name)) ;;
    link_child od node ;;
    mret (-1)
  else mret 0.

Definition ramfs_symlink_op (dir : Z) (s target : list Z) : M Z :=
  par ← node_of dir;
  if par =? NULL then mret (-1) else
  c ← ramfs_find_child par s;
  if negb (c =? NULL) then mret (-1) else
  n ← ramfs_new_node s (Z.lor FILE_MODE_LNK FILE_MODE_READ);
  if n =? NULL then mret (-1) else
  let len := zlen target in
  b ← kmalloc_bytes (len + 1);
  match b with
  | None => kfree_node n ;; mret (-1)
  | Some _ =>
      update_node n (fun n => set_data (Some (target ++ [0])) (set_capacity (len + 1) (set_size len n))) ;;
      link_child par n ;;
      b ← ramfs_build_dentry dir n s;
      if b =? NULL then ramfs_unlink_from_parent n ;; kfree_node n ;; mret (-1) else mret 0
  end.

(** The code and the bytes written to the buffer of [sz] bytes. *)
Definition ramfs_readlink_op (dentry sz : Z) : M (Z * list Z) :=
  if sz =? 0 then mret (-1, []) else
  nd ← node_of dentry;
  if nd =? NULL then mret (-1, []) else
  n ← get_node nd;
  if negb (has_mode n FILE_MODE_LNK) then mret (-1, []) else
  if size n =? 0 then mret (-1, []) else
  let len := Z.min (size n) (sz - 1) in
  mret (len, take (Z.to_nat len) (data_bytes n) ++ [0]).

(** ** File operations *)

Definition set_offset (v : Z) (f : file_t) : file_t := mk_file v (f_inode f).

(** [file->inode->private_data] or null. *)
Definition file_node (f : file_t) : M Z :=
  if f_inode f =? NULL then mret NULL else i ← get_inode (f_inode f); mret (private_data i).

Definition ramfs_file_open (f : file_t) : Z * file_t := (0, set_offset 0 f).

(** The code, the bytes copied to the buffer and the file. *)
Definition ramfs_file_read (f : file_t) (count : Z) : M (Z * list Z * file_t) :=
  nd ← file_node f;
  if nd =? NULL then mret (-1, [], f) else
  n ← get_node nd;
  match data n with
  | None => mret (0, [], f)
  | Some b =>
      if size n <=? offset f then mret (0, [], f) else
      let avail := size n - offset f in
      let to_copy := if count <? avail then count else avail in
      mret (s32 to_copy, take (Z.to_nat to_copy) (drop (Z.to_nat (offset f)) b), set_offset (u32 (offset f + to_copy)) f)
  end.

(** [memcpy(b + o, xs, zlen xs)] *)
Definition overwrite (b : list Z) (o : Z) (xs : list Z) : list Z :=
  take (Z.to_nat o) b ++ xs ++ drop (Z.to_nat (o + zlen xs)) b.

Definition ramfs_file_write (f : file_t) (buf : list Z) : M (Z * file_t) :=
  nd ← file_node f;
  if nd =? NULL then mret (-1, f) else
  n ← get_node nd;
  if has_mode n FILE_MODE_DIR then mret (-1, f) else
  let count := zlen buf in
  let end_ := u32 (offset f + count) in
  if end_ <? offset f then mret (-1, f) else
  r ← ramfs_grow_data nd end_;
  if negb (r =? 0) then mret (-1, f) else
  update_node nd (fun n => set_data ((fun b => overwrite b (offset f) buf) <$> data n) n) ;;
  let f := set_offset (u32 (offset f + count)) f in
  update_node nd (fun n => if size n <? offset f then set_size (offset f) n else n) ;;
  mret (s32 count, f).

Definition ramfs_file_close (f : file_t) : Z := 0.

(** [whence]: 0 from the start, 1 from the offset, 2 from the end. *)
Definition ramfs_file_seek (f : file_t) (off whence : Z) : M (Z * file_t) :=
  nd ← file_node f;
  if nd =? NULL then mret (- EBADF, f) else
  n ← get_node nd;
  let new_off :=
    if whence =? 0 then Some off
    else if whence =? 1 then Some (s32 (s32 (offset f) + off))
    else if whence =? 2 then Some (s32 (s32 (size n) + off)) else None in
  match new_off with
  | None => mret (- EINVAL, f)
  | Some o => if o <? 0 then mret (- EINVAL, f) else mret (o, set_offset (u32 o) f)
  end.

(** The code and what is stored at [arg]. *)
Definition ramfs_file_ioctl (f : file_t) (cmd : Z) (arg : bool) : M (Z * option Z) :=
  if f_inode f =? NULL then mret (- EBADF, None) else
  i ← get_inode (f_inode f);
  if cmd =? FIONREAD then
    mret (if arg then (0, Some (Z.max 0 (s32 (i_size i) - s32 (offset f)))) else (- EINVAL, None))
  else if cmd =? FIONBIO then mret (0, None)
  else mret (- ENOSYS, None).

(** [memset(b + o, 0, n)] *)
Definition ramfs_file_truncate (inode sz : Z) : M Z :=
  if inode =? NULL then mret (-1) else
  i ← get_inode inode;
  let nd := private_data i in
  if nd =? NULL then mret (-1) else
  n ← get_node nd;
  r ← (if capacity n <? sz then ramfs_grow_data nd sz else mret 0);
  if negb (r =? 0) then mret (-1) else
  update_node nd (fun n =>
    if size n <? sz
    then set_data ((fun b => overwrite b (size n) (replicate (Z.to_nat (sz - size n)) 0)) <$> data n) n else n) ;;
  update_node nd (set_size sz) ;;
  mret 0.

(** ** Mounting and statistics *)

(** The new root inode, [NULL] for a return of -1. *)
Definition ramfs_mount : M Z :=
  r ← ramfs_new_node [47] (Z.lor (Z.lor FILE_MODE_DIR FILE_MODE_READ) FILE_MODE_WRITE);
  modify (set_root r) ;;
  if r =? NULL then mret NULL else
  update_node r (set_parent r) ;;
  i ← kmalloc_struct;
  if i =? NULL then kfree_node r ;; mret NULL else
  n ← get_node r;
  put_inode i (mk_inode (ino n) (mode n) 0 2 r NULL) ;;
  mret i.

Record ramfs_stats := mk_stats { total_bytes : Z; used_bytes : Z; node_count : Z; file_count : Z; dir_count : Z }.
Definition count_node (n : ramfs_node) (st : ramfs_stats) : ramfs_stats :=
  mk_stats (u32 (total_bytes st + capacity n)) (u32 (used_bytes st + size n)) (u32 (node_count st + 1))
    (if has_mode n FILE_MODE_DIR then file_count st else u32 (file_count st + 1))
    (if has_mode n FILE_MODE_DIR then u32 (dir_count st + 1) else dir_count st).
(** [ramfs_collect] on a node, and the loop over its children. *)
Fixpoint ramfs_collect (fuel : nat) (m : gmap Z ramfs_node) (siblings : bool) (a : Z) (st : ramfs_stats) : option ramfs_stats :=
  if a =? NULL then Some st else
  match m !! a, fuel with
  | Some n, S fuel =>
      st ← ramfs_collect fuel m true (child n) (count_node n st);
      if siblings then ramfs_collect fuel m true (next_sibling n) st else Some st
  | _, _ => None
  end.
Definition ramfs_get_stats : M (option ramfs_stats) :=
  r ← gets ramfs_root;
  if r =? NULL then mret None else
  st ← gets (fun s => ramfs_collect (base.size (nodes s)) (nodes s) false r (mk_stats 0 0 0 0 0));
  st ← of_option st; mret (Some st).
End operations.

(** ** Files *)

(** A node that holds the bytes [c]. *)
Record file_ok (n : ramfs_node) (c : list Z) : Prop := {
  fo_dir : has_mode n FILE_MODE_DIR = false;
  fo_size : size n = zlen c;
  fo_cap : 0 <= size n <= capacity n;
  fo_bound : capacity n < 2 ^ 32 /\ size n < 2 ^ 31;
  fo_data : match data n with Some b => zlen b = capacity n /\ take (length c) b = c | None => capacity n = 0 end;
}.

(** The open file [f] of the node at [a], with content [c] and at offset [o]. *)
Definition file_rel (s : fs) (f : file_t) (a : Z) (c : list Z) (o : Z) : Prop :=
  exists i n, f_inode f <> NULL /\ inodes s !! f_inode f = Some i /\ private_data i = a /\ a <> NULL /\
    nodes s !! a = Some n /\ file_ok n c /\ offset f = o /\ 0 <= o < 2 ^ 31.

Lemma wp_get_node (a : Z) (n : ramfs_node) (Q : ramfs_node -> fs -> Prop) (s : fs) :
  nodes s !! a = Some n -> Q n s -> wp (get_node a) Q s.
Proof. intros Hn HQ. unfold get_node. wp_run. by eapply wp_of_option. Qed.
Lemma wp_update_node (a : Z) (n : ramfs_node) (f : ramfs_node -> ramfs_node) (Q : unit -> fs -> Prop) (s : fs) :
  nodes s !! a = Some n -> Q tt (set_nodes (<[a := f n]> (nodes s)) s) -> wp (update_node a f) Q s.
Proof. intros Hn HQ. unfold update_node, put_node. wp_run. eapply wp_get_node; [done|]. by wp_run. Qed.
Lemma wp_get_inode (a : Z) (i : inode_t) (Q : inode_t -> fs -> Prop) (s : fs) :
  inodes s !! a = Some i -> Q i s -> wp (get_inode a) Q s.
Proof. intros Hn HQ. unfold get_inode. wp_run. by eapply wp_of_option. Qed.

Lemma grow_cap_spec (k : nat) : forall cap sz, 1 <= cap < 2 ^ 32 -> sz <= 2 ^ 31 -> 2 ^ 31 <= cap * 2 ^ Z.of_nat k ->
  exists r, grow_cap k cap sz = Some r /\ sz <= r < 2 ^ 32.
Proof.
  induction k as [|k IH]; intros cap sz Hc Hs Hk; simpl.
  - rewrite Z.mul_1_r in Hk. destruct (Z.leb_spec sz cap); [eauto with lia|lia].
  - destruct (Z.leb_spec sz cap); [exists cap; split; [done|lia]|].
    rewrite (u32_small (cap * 2)) by (unfold is_u32; lia). apply IH; [lia|done|].
    rewrite Nat2Z.inj_succ, Z.pow_succ_r in Hk by lia. lia.
Qed.

Lemma overwrite_len (b xs : list Z) (o : Z) : 0 <= o -> o + zlen xs <= zlen b -> zlen (overwrite b o xs) = zlen b.
Proof. intros Ho Hl. unfold overwrite, zlen in *. rewrite !length_app, length_take, length_drop. lia. Qed.

(** Writing inside the buffer writes the content, up to a hole before the offset. *)
Lemma overwrite_content (b c xs : list Z) (o : Z) :
  take (length c) b = c -> 0 <= o -> o + zlen xs <= zlen b ->
  let hole := take (Z.to_nat o - length c) (drop (length c) b) in
  let c' := overwrite (c ++ hole) o xs in
  zlen hole = Z.max 0 (o - zlen c) /\ zlen c' = Z.max (zlen c) (o + zlen xs) /\ take (length c') (overwrite b o xs) = c'.
Proof.
  intros Hc Ho Hl hole c'. assert (length c <= length b)%nat as Hcb.
  { rewrite <-Hc at 1. rewrite length_take. lia. }
  assert (b = c ++ drop (length c) b) as Eb by (rewrite <-Hc at 1; by rewrite take_drop).
  assert (zlen hole = Z.max 0 (o - zlen c)) as Hh.
  { unfold hole, zlen in *. rewrite length_take, length_drop. lia. }
  assert (c ++ hole = take (length c `max` Z.to_nat o) b) as Ech.
  { rewrite Eb at 1. rewrite take_app, (take_ge c) by lia. f_equal. unfold hole. f_equal. lia. }
  assert (zlen c' = Z.max (zlen c) (o + zlen xs)) as Hc'.
  { unfold c', overwrite. unfold zlen in *. rewrite !length_app, length_take, length_drop, !length_app. lia. }
  split_and!; [done|done|]. assert (length c' = length c `max` (Z.to_nat o + length xs))%nat as -> by (unfold zlen in *; lia).
  unfold c', overwrite. rewrite Ech. replace (Z.to_nat (o + zlen xs)) with (Z.to_nat o + length xs)%nat by (unfold zlen; lia).
  set (N := Z.to_nat o). assert (N + length xs <= length b)%nat as HN by (unfold N, zlen in *; lia).
  rewrite take_app_ge by (rewrite length_take; lia). rewrite length_take.
  rewrite take_app_ge by lia. rewrite take_take. f_equal; [f_equal; lia|]. f_equal.
  rewrite skipn_firstn_comm. f_equal. lia.
Qed.

(** Nothing but the node at [a] changed. *)
Record only_node (a : Z) (s s' : fs) : Prop := {
  on_nodes : forall b, b <> a -> nodes s' !! b = nodes s !! b;
  on_inodes : inodes s' = inodes s;
  on_dents : dents s' = dents s;
}.
Lemma only_node_refl (a : Z) (s : fs) : only_node a s s.
Proof. by constructor. Qed.
Lemma only_node_trans (a : Z) (s s' s'' : fs) : only_node a s s' -> only_node a s' s'' -> only_node a s s''.
Proof. intros [H1 H2 H3] [K1 K2 K3]. constructor; [|congruence..]. intros b Hb. by rewrite K1, H1. Qed.
Lemma only_node_put (a : Z) (n : ramfs_node) (s : fs) : only_node a s (set_nodes (<[a := n]> (nodes s)) s).
Proof. constructor; [|done..]. intros b Hb. cbn. by rewrite lookup_insert_ne. Qed.

(** The links of a node, which the file operations leave alone. *)
Definition same_links (n n' : ramfs_node) : Prop :=
  mode n' = mode n /\ parent n' = parent n /\ child n' = child n /\ next_sibling n' = next_sibling n /\ name n' = name n /\
  nlinks n' = nlinks n.

Section files.
Context `{Heap}.

Lemma grow_data_run (a sz : Z) (n : ramfs_node) (c : list Z) (s : fs) :
  nodes s !! a = Some n -> file_ok n c -> 0 <= sz < 2 ^ 31 ->
  wp (ramfs_grow_data a sz) (fun r s' => only_node a s s' /\
    (r = -1 /\ nodes s' !! a = Some n \/
     r = 0 /\ exists n', nodes s' !! a = Some n' /\ file_ok n' c /\ sz <= capacity n' /\ same_links n n' /\ size n' = size n)) s.
Proof.
  intros Hn [F1 F2 F3 [F4 F4'] F5] Hsz. unfold ramfs_grow_data. wp_run. eapply wp_get_node; [done|].
  destruct (Z.leb_spec sz (capacity n)) as [Hle|Hlt].
  { wp_run. split; [apply only_node_refl|]. right. split; [done|]. exists n. split_and!; try done. }
  set (cap0 := if capacity n =? 0 then RAMFS_INITIAL_CAP else capacity n).
  destruct (grow_cap_spec 33 cap0 sz) as (cap & Hcap & Hr).
  { unfold cap0, RAMFS_INITIAL_CAP. destruct (Z.eqb_spec (capacity n) 0); lia. }
  { lia. }
  { unfold cap0, RAMFS_INITIAL_CAP. destruct (Z.eqb_spec (capacity n) 0); simpl; lia. }
  wp_run. eapply wp_of_option; [exact Hcap|]. unfold kmalloc_bytes, count_alloc. wp_run.
  destruct (new_block s cap) as [buf|] eqn:Eb; wp_run.
  - unfold put_node. wp_run. split.
    { constructor; [|done..]. intros b Hb. cbn. by rewrite lookup_insert_ne. }
    right. split; [done|]. eexists. cbn [nodes set_nodes set_allocs]. rewrite lookup_insert_eq.
    split; [done|]. pose proof (new_block_size s cap buf ltac:(lia) Eb) as Hbl. split_and!; [|simpl; lia|done|done].
    constructor; cbn; try done; [lia|lia|]. case_if.
    + destruct (data n) as [b|] eqn:Ed; [|done]. destruct F5 as [F5 F6]. unfold copy_data, data_bytes. rewrite Ed. simpl.
      rewrite F2. unfold zlen in *. rewrite Nat2Z.id. split.
      * rewrite length_app, length_take, length_drop. lia.
      * rewrite F6, take_app_le, take_ge by lia. done.
    + split; [done|]. assert (zlen c = 0) as Hz.
      { rewrite <-F2. destruct (data n) eqn:Ed; [|lia]. simpl in *. zbool. lia. }
      unfold zlen in Hz. destruct c; [done|simpl in Hz; lia].
  - split; [by constructor|]. left. done.
Qed.

Inductive fop := FRead (count : Z) | FWrite (buf : list Z) | FSeek (off whence : Z) | FTruncate (sz : Z).
Inductive freply := FData (code : Z) (d : list Z) | FCode (code : Z).

Definition fexec (f : file_t) (o : fop) : M (freply * file_t) :=
  match o with
  | FRead count => r ← ramfs_file_read f count; mret (FData r.1.1 r.1.2, r.2)
  | FWrite buf => r ← ramfs_file_write f buf; mret (FCode r.1, r.2)
  | FSeek off whence => r ← ramfs_file_seek f off whence; mret (FCode r.1, r.2)
  | FTruncate sz => r ← ramfs_file_truncate (f_inode f) sz; mret (FCode r, f)
  end.

(** Arguments at their width, and sizes below 2^31 (over that the doubling of the buffer
    does not end). *)
Definition fop_ok (c : list Z) (o : Z) (p : fop) : Prop :=
  match p with
  | FRead count => is_u32 count
  | FWrite buf => o + zlen buf < 2 ^ 31
  | FSeek off _ => - 2 ^ 31 <= off < 2 ^ 31
  | FTruncate sz => 0 <= sz < 2 ^ 31
  end.

Definition seek_target (c : list Z) (o off whence : Z) : option Z :=
  if whence =? 0 then Some off else if whence =? 1 then Some (o + off)
  else if whence =? 2 then Some (zlen c + off) else None.

(** The specification: a list of bytes and an offset.  The bytes of a hole, between the old
    end and the offset of a write past it, are not specified. *)
Inductive fstep (c : list Z) (o : Z) : fop -> freply -> list Z -> Z -> Prop :=
| F_read count :
    let d := take (Z.to_nat count) (drop (Z.to_nat o) c) in
    fstep c o (FRead count) (FData (zlen d) d) c (o + zlen d)
| F_write buf hole : zlen hole = Z.max 0 (o - zlen c) ->
    fstep c o (FWrite buf) (FCode (zlen buf)) (overwrite (c ++ hole) o buf) (o + zlen buf)
| F_write_fails buf : fstep c o (FWrite buf) (FCode (-1)) c o
| F_seek off whence t : seek_target c o off whence = Some t -> 0 <= t < 2 ^ 31 ->
    fstep c o (FSeek off whence) (FCode t) c t
| F_seek_fails off whence : (forall t, seek_target c o off whence = Some t -> ~ 0 <= t < 2 ^ 31) ->
    fstep c o (FSeek off whence) (FCode (- EINVAL)) c o
| F_truncate sz :
    fstep c o (FTruncate sz) (FCode 0) (take (Z.to_nat sz) c ++ replicate (Z.to_nat (sz - zlen c)) 0) o
| F_truncate_fails sz : fstep c o (FTruncate sz) (FCode (-1)) c o.

Lemma wp_file_node (f : file_t) (i : inode_t) (Q : Z -> fs -> Prop) (s : fs) :
  f_inode f <> NULL -> inodes s !! f_inode f = Some i -> Q (private_data i) s -> wp (file_node f) Q s.
Proof.
  intros Hf Hi HQ. unfold file_node. rewrite (proj2 (Z.eqb_neq _ _) Hf). wp_run. eapply wp_get_inode; [done|]. by wp_run.
Qed.

Definition fsim (s : fs) (a : Z) (c : list Z) (o : Z) (p : fop) (r : freply * file_t) (s' : fs) : Prop :=
  only_node a s s' /\ exists c' o', file_rel s' r.2 a c' o' /\ fstep c o p r.1 c' o'.

Lemma s32_id (z : Z) : - 2 ^ 31 <= z < 2 ^ 31 -> s32 z = z.
Proof. intros. unfold s32, sign. destruct (Z.ltb_spec (z mod 2 ^ 32) (2 ^ (32 - 1))); dlia. Qed.

Lemma read_sim (s : fs) (f : file_t) (a : Z) (c : list Z) (o count : Z) :
  file_rel s f a c o -> is_u32 count -> wp (fexec f (FRead count)) (fsim s a c o (FRead count)) s.
Proof.
  intros Hrel Hc. pose proof Hrel as (i & n & Hf & Hi & Hp & Ha & Hn & Hfo & Ho & Hob). subst a.
  pose proof Hfo as [F1 F2 F3 [F4 F4'] F5]. unfold fexec, ramfs_file_read. wp_run. eapply wp_file_node; [done|done|]. rewrite (proj2 (Z.eqb_neq _ _) Ha).
  wp_run. eapply wp_get_node; [done|]. rewrite F2, Ho. rewrite F2 in F3, F4'. unfold is_u32 in Hc.
  assert (forall d, d = take (Z.to_nat count) (drop (Z.to_nat o) c) -> o + zlen d < 2 ^ 31 ->
    file_rel s (set_offset (u32 (o + zlen d)) f) (private_data i) c (o + zlen d) /\
    fstep c o (FRead count) (FData (zlen d) d) c (o + zlen d)) as Hok.
  { intros d -> Hd. pose proof (zlen_nonneg (take (Z.to_nat count) (drop (Z.to_nat o) c))). split; [|constructor].
    exists i, n. cbn. rewrite u32_small by (unfold is_u32; lia). split_and!; try done; lia. }
  assert (forall d, d = take (Z.to_nat count) (drop (Z.to_nat o) c) -> zlen d = 0 ->
    fsim s (private_data i) c o (FRead count) (FData 0 [], f) s) as Hnone.
  { intros d Hd Hz. split; [apply only_node_refl|]. destruct (Hok d Hd) as [H1 H2]; [lia|]. exists c, o. rewrite Hz in *.
    rewrite Z.add_0_r in *. split; [done|]. destruct d; [done|unfold zlen in Hz; simpl in Hz; lia]. }
  destruct (data n) as [b|].
  - destruct F5 as [F5 F6]. destruct (Z.leb_spec (zlen c) o) as [Hle|Hlt].
    + wp_run. eapply Hnone; [done|]. unfold zlen in *. rewrite length_take, length_drop. lia.
    + wp_run. cbn [fst snd]. set (k := if count <? zlen c - o then count else zlen c - o).
      assert (k = zlen (take (Z.to_nat count) (drop (Z.to_nat o) c))) as Hk.
      { unfold k, zlen in *. rewrite length_take, length_drop. destruct (Z.ltb_spec count (Z.of_nat (length c) - o)); lia. }
      assert (take (Z.to_nat k) (drop (Z.to_nat o) b) = take (Z.to_nat count) (drop (Z.to_nat o) c)) as ->.
      { rewrite <-F6 at 1. rewrite skipn_firstn_comm, take_take. f_equal. unfold k, zlen in *.
        destruct (Z.ltb_spec count (Z.of_nat (length c) - o)); lia. }
      assert (0 <= k <= zlen c - o) as Hkr by (unfold k; destruct (Z.ltb_spec count (zlen c - o)); lia).
      rewrite s32_id by lia. split; [apply only_node_refl|]. rewrite Hk. destruct (Hok _ eq_refl) as [H1 H2]; [lia|].
      exists c, (o + zlen (take (Z.to_nat count) (drop (Z.to_nat o) c))). done.
  - wp_run. eapply Hnone; [done|]. assert (zlen c = 0) by lia. unfold zlen in *. rewrite length_take, length_drop. lia.
Qed.

Lemma write_sim (s : fs) (f : file_t) (a : Z) (c : list Z) (o : Z) (buf : list Z) :
  file_rel s f a c o -> o + zlen buf < 2 ^ 31 -> wp (fexec f (FWrite buf)) (fsim s a c o (FWrite buf)) s.
Proof.
  intros Hrel Hc. pose proof Hrel as (i & n & Hf & Hi & Hp & Ha & Hn & Hfo & Ho & Hob). subst a.
  pose proof (zlen_nonneg buf) as Hb0. unfold fexec, ramfs_file_write. wp_run. eapply wp_file_node; [done|done|].
  rewrite (proj2 (Z.eqb_neq _ _) Ha). wp_run. eapply wp_get_node; [done|]. rewrite (fo_dir _ _ Hfo), Ho.
  rewrite (u32_small (o + zlen buf)) by (unfold is_u32; lia). rewrite (proj2 (Z.ltb_ge _ _)) by lia.
  apply wp_bind. eapply wp_mono; [apply (grow_data_run _ (o + zlen buf) n c); [done|done|lia]|].
  intros r s1 _ [Ho1 [ [-> Hn1]|(-> & n1 & Hn1 & Hfo1 & Hcap & Hl & Hsz)] ]; simpl.
  - wp_run. split; [done|]. exists c, o. split; [|constructor]. exists i, n. rewrite (on_inodes _ _ _ Ho1). split_and!; try done; lia.
  - wp_run. eapply wp_update_node; [done|]. wp_run. set (n2 := set_data _ n1). eapply wp_update_node; [cbn; by rewrite lookup_insert_eq|].
    wp_run. destruct Hfo1 as [G1 G2 G3 [G4 G4'] G5]. set (n3 := if size n2 <? _ then _ else n2). split.
    { eapply only_node_trans; [exact Ho1|]. eapply only_node_trans; [apply only_node_put|apply only_node_put]. }
    assert (exists hole, zlen hole = Z.max 0 (o - zlen c) /\ file_ok n3 (overwrite (c ++ hole) o buf)) as (hole & Hh & Hf3).
    { assert (size n3 = Z.max (zlen c) (o + zlen buf)) as Hs3.
      { unfold n3. change (size n2) with (size n1). cbn [offset set_offset]. rewrite G2.
        destruct (Z.ltb_spec (zlen c) (o + zlen buf)); cbn; lia. }
      assert (mode n3 = mode n1 /\ capacity n3 = capacity n1 /\ data n3 = (fun b => overwrite b o buf) <$> data n1) as (E1 & E2 & E3).
      { unfold n3. by case_if. }
      destruct (data n1) as [b|] eqn:Ed.
      - destruct G5 as [G5 G6]. destruct (overwrite_content b c buf o G6) as (W1 & W2 & W3); [lia|lia|].
        exists (take (Z.to_nat o - length c) (drop (length c) b)). split; [done|]. constructor.
        + unfold has_mode in *. by rewrite E1.
        + by rewrite Hs3.
        + rewrite Hs3, E2. lia.
        + rewrite Hs3, E2. lia.
        + rewrite E3. simpl. rewrite E2, overwrite_len by lia. done.
      - exists []. assert (zlen c = 0) as Hc0 by lia. assert (zlen buf = 0) as Hbz by lia. split; [change (zlen []) with 0; lia|].
        destruct c; [|unfold zlen in Hc0; simpl in Hc0; lia]. destruct buf; [|unfold zlen in Hbz; simpl in Hbz; lia].
        unfold overwrite. cbn [app]. rewrite !take_nil, drop_nil. constructor.
        + unfold has_mode in *. by rewrite E1.
        + rewrite Hs3. change (zlen []) with 0 in *. simpl. change (zlen []) with 0. lia.
        + rewrite Hs3, E2. change (zlen []) with 0 in *. lia.
        + rewrite Hs3, E2. lia.
        + rewrite E3. simpl. by rewrite E2. }
    exists (overwrite (c ++ hole) o buf), (o + zlen buf). cbn [fst snd]. rewrite s32_id by lia. split; [|by constructor].
    exists i, n3. cbn. rewrite (on_inodes _ _ _ Ho1), lookup_insert_eq. split_and!; try done; lia.
Qed.

Lemma seek_sim (s : fs) (f : file_t) (a : Z) (c : list Z) (o off whence : Z) :
  file_rel s f a c o -> - 2 ^ 31 <= off < 2 ^ 31 -> wp (fexec f (FSeek off whence)) (fsim s a c o (FSeek off whence)) s.
Proof.
  intros Hrel Hc. pose proof Hrel as (i & n & Hf & Hi & Hp & Ha & Hn & Hfo & Ho & Hob). subst a.
  pose proof Hfo as [F1 F2 F3 [F4 F4'] F5]. unfold fexec, ramfs_file_seek. wp_run. eapply wp_file_node; [done|done|].
  rewrite (proj2 (Z.eqb_neq _ _) Ha). wp_run. eapply wp_get_node; [done|]. rewrite F2, Ho. rewrite F2 in F3, F4'.
  rewrite (s32_id o), (s32_id (zlen c)) by lia.
  assert (forall t t', seek_target c o off whence = Some t' -> - 2 ^ 31 <= t' < 2 ^ 32 - 1 -> t = s32 t' ->
    wp (if t <? 0 then mret (- EINVAL, f) else mret (t, set_offset (u32 t) f))
      (fun x => wp (mret (FCode x.1, x.2)) (fsim s (private_data i) c o (FSeek off whence))) s) as Hset.
  { intros t t' Ht Hr ->. destruct (decide (0 <= t' < 2 ^ 31)) as [Hin|Hout].
    - rewrite s32_id by lia. rewrite (proj2 (Z.ltb_ge _ _)) by lia. wp_run. split; [apply only_node_refl|].
      exists c, t'. split; [|by constructor]. exists i, n. cbn. rewrite u32_small by (unfold is_u32; lia).
      split_and!; try done; lia.
    - assert (s32 t' < 0) as Hneg.
      { unfold s32, sign. destruct (Z.ltb_spec (t' mod 2 ^ 32) (2 ^ (32 - 1))); dlia. }
      rewrite (proj2 (Z.ltb_lt _ _) Hneg). wp_run. split; [apply only_node_refl|]. exists c, o. split; [done|].
      apply F_seek_fails. intros t'' Ht''. by simplify_eq. }
  unfold seek_target in Hset.
  destruct (whence =? 0) eqn:E0; [apply (Hset off off); [done|lia|by rewrite s32_id]|].
  destruct (whence =? 1) eqn:E1; [by apply (Hset _ (o + off)); [|lia|] |].
  destruct (whence =? 2) eqn:E2; [by apply (Hset _ (zlen c + off)); [|lia|] |].
  wp_run. split; [apply only_node_refl|]. exists c, o. split; [done|]. apply F_seek_fails.
  intros t Ht. unfold seek_target in Ht. by rewrite E0, E1, E2 in Ht.
Qed.

Lemma truncate_ok (n : ramfs_node) (c : list Z) (sz : Z) :
  file_ok n c -> 0 <= sz < 2 ^ 31 -> sz <= capacity n ->
  file_ok (set_size sz (if size n <? sz
    then set_data ((fun b => overwrite b (size n) (replicate (Z.to_nat (sz - size n)) 0)) <$> data n) n else n))
    (take (Z.to_nat sz) c ++ replicate (Z.to_nat (sz - zlen c)) 0).
Proof.
  intros [F1 F2 F3 [F4 F4'] F5] Hsz Hcap. rewrite F2 in *. unfold zlen in *.
  assert (length (take (Z.to_nat sz) c ++ replicate (Z.to_nat (sz - Z.of_nat (length c))) 0) = Z.to_nat sz) as Hlen.
  { rewrite length_app, length_take, length_replicate. lia. }
  destruct (Z.ltb_spec (Z.of_nat (length c)) sz) as [Hlt|Hge].
  - constructor; cbn; try done; try (unfold zlen; lia). destruct (data n) as [b|]; [|lia]. destruct F5 as [F5 F6]. cbn.
    split; [rewrite overwrite_len; unfold zlen; rewrite ?length_replicate; lia|]. rewrite Hlen. unfold overwrite, zlen.
    rewrite length_replicate, Nat2Z.id, F6. rewrite take_app_ge by lia. rewrite take_app_le by (rewrite length_replicate; lia).
    rewrite !take_ge by (rewrite ?length_replicate; lia). done.
  - replace (Z.to_nat (sz - Z.of_nat (length c))) with 0%nat in * by lia. rewrite app_nil_r in *.
    constructor; cbn; try done; try (unfold zlen; lia). destruct (data n) as [b|]; [|done]. destruct F5 as [F5 F6].
    split; [done|]. rewrite Hlen. rewrite <-F6. rewrite take_take. f_equal. lia.
Qed.

Lemma truncate_sim (s : fs) (f : file_t) (a : Z) (c : list Z) (o sz : Z) :
  file_rel s f a c o -> 0 <= sz < 2 ^ 31 -> wp (fexec f (FTruncate sz)) (fsim s a c o (FTruncate sz)) s.
Proof.
  intros Hrel Hc. pose proof Hrel as (i & n & Hf & Hi & Hp & Ha & Hn & Hfo & Ho & Hob). subst a.
  unfold fexec, ramfs_file_truncate. rewrite (proj2 (Z.eqb_neq _ _) Hf). wp_run. eapply wp_get_inode; [done|]. cbv zeta.
  rewrite (proj2 (Z.eqb_neq _ _) Ha). wp_run. eapply wp_get_node; [done|]. wp_run.
  apply (wp_mono _ (fun r s' => only_node (private_data i) s s' /\ (r = -1 /\ nodes s' !! private_data i = Some n \/
     r = 0 /\ exists n', nodes s' !! private_data i = Some n' /\ file_ok n' c /\ sz <= capacity n'))).
  { destruct (Z.ltb_spec (capacity n) sz).
    - eapply wp_mono; [by apply (grow_data_run _ sz n c)|]. intros r s1 _ [Ho1 Hr]. split; [done|].
      destruct Hr as [Hr|(-> & n' & H1 & H2 & H3 & _)]; [by left|right]. eauto.
    - apply wp_ret. split; [apply only_node_refl|]. right. eauto. }
  intros r s1 _ [Ho1 [ [-> Hn1]|(-> & n1 & Hn1 & Hfo1 & Hcap)] ]; simpl.
  - wp_run. split; [done|]. exists c, o. split; [|constructor]. exists i, n. rewrite (on_inodes _ _ _ Ho1).
    split_and!; try done; lia.
  - wp_run. eapply wp_update_node; [done|]. wp_run. eapply wp_update_node; [cbn; by rewrite lookup_insert_eq|]. wp_run. split.
    { eapply only_node_trans; [exact Ho1|]. eapply only_node_trans; [apply only_node_put|apply only_node_put]. }
    eexists _, o. split; [|by constructor]. eexists i, _. cbn. rewrite (on_inodes _ _ _ Ho1), lookup_insert_eq.
    split_and!; try done; [|lia..]. by apply truncate_ok.
Qed.

Lemma fexec_sim (s : fs) (f : file_t) (a : Z) (c : list Z) (o : Z) (p : fop) :
  file_rel s f a c o -> fop_ok c o p -> wp (fexec f p) (fsim s a c o p) s.
Proof. destruct p; simpl; [apply read_sim|apply write_sim|apply seek_sim|apply truncate_sim]. Qed.

Fixpoint frun (f : file_t) (ps : list fop) : M (list freply * file_t) :=
  match ps with
  | [] => mret ([], f)
  | p :: ps => r ← fexec f p; rs ← frun r.2 ps; mret (r.1 :: rs.1, rs.2)
  end.

Inductive fsteps : list Z -> Z -> list fop -> list freply -> list Z -> Z -> Prop :=
| FS_nil c o : fsteps c o [] [] c o
| FS_cons c o p r c' o' ps rs c'' o'' : fstep c o p r c' o' -> fsteps c' o' ps rs c'' o'' -> fsteps c o (p :: ps) (r :: rs) c'' o''.

(** Every operation is called within its bounds, however those before it went. *)
Fixpoint fops_ok (c : list Z) (o : Z) (ps : list fop) : Prop :=
  match ps with
  | [] => True
  | p :: ps => fop_ok c o p /\ forall r c' o', fstep c o p r c' o' -> fops_ok c' o' ps
  end.

(** C23: an open file of the memory file system refines a list of bytes with an offset: for
    every sequence of reads, writes, seeks and truncations within the bounds, no operation
    faults, each answers as the specification does (a read the bytes from the offset up to
    the end, a write replaces or appends, or fails without effect when memory runs out),
    the offset moves along, and no other node, inode or directory entry changes. *)
Theorem file_refines (s : fs) (f : file_t) (a : Z) (c : list Z) (o : Z) (ps : list fop) :
  file_rel s f a c o -> fops_ok c o ps ->
  exists rs f' s' c' o', frun f ps s = Some ((rs, f'), s') /\ fsteps c o ps rs c' o' /\ file_rel s' f' a c' o' /\ only_node a s s'.
Proof.
  intros Hrel Hok.
  assert (wp (frun f ps) (fun r s' => exists c' o', fsteps c o ps r.1 c' o' /\ file_rel s' r.2 a c' o' /\ only_node a s s') s) as Hwp.
  { revert s f c o Hrel Hok. induction ps as [|p ps IH]; intros s f c o Hrel Hok; simpl in Hok |- *.
    - apply wp_ret. exists c, o. split_and!; [constructor|done|apply only_node_refl].
    - destruct Hok as [Hp Hps]. eapply wp_seq; [by apply fexec_sim|]. intros [r f1] s1 (Ho1 & c1 & o1 & Hrel1 & Hst).
      eapply wp_seq; [apply (IH s1 f1 c1 o1); eauto|]. intros [rs f2] s2 (c2 & o2 & Hst2 & Hrel2 & Ho2). apply wp_ret.
      exists c2, o2. split_and!; [by econstructor|done|by eapply only_node_trans]. }
  apply wp_run in Hwp as ( [rs f'] & s' & Hs & c' & o' & H1 & H2 & H3). exists rs, f', s', c', o'. done.
Qed.
End files.

(** ** A concrete heap *)

Definition counted_address (s : fs) : Z :=
  let a := 16 * allocs s + 16 in
  if bool_decide (nodes s !! a = None /\ inodes s !! a = None /\ dents s !! a = None) then a else NULL.
#[local, program] Instance counting_heap : Heap := {
  new_address := counted_address; new_block := fun _ n => Some (replicate (Z.to_nat n) 7);
}.
Next Obligation. intros s. unfold counted_address. cbv zeta. by case_bool_decide. Qed.
Next Obligation. intros s n b Hn [= <-]. unfold zlen. rewrite length_replicate. lia. Qed.

(** An empty file at 256 with its inode at 512. *)
Definition empty_file : ramfs_node := mk_node 2 (Z.lor FILE_MODE_REG 3) 0 0 None NULL NULL NULL [97] 1.
Definition one_file : fs := mk_fs {[256 := empty_file]} {[512 := mk_inode 2 19 0 1 256 0]} ∅ NULL 3 0.
Definition sample_fops : list fop := [FWrite [1; 2; 3]; FSeek 1 0; FRead 10; FTruncate 5; FRead 1].

Lemma file_refines_witness :
  exists rs f' s' c' o', frun (mk_file 0 512) sample_fops one_file = Some ((rs, f'), s') /\
    fsteps [] 0 sample_fops rs c' o' /\ file_rel s' f' 256 c' o' /\ only_node 256 one_file s'.
Proof.
  apply (file_refines one_file (mk_file 0 512) 256 [] 0 sample_fops).
  - exists (mk_inode 2 19 0 1 256 0), empty_file. split_and!; try done.
  - split; [done|]. intros r1 c1 o1 _. split; [done|]. intros r2 c2 o2 _. split; [done|]. intros r3 c3 o3 _.
    split; [done|]. intros r4 c4 o4 _. split; [done|]. done.
Defined.

(** *** Defects *)

Definition fresult (ps : list fop) : option (list freply) := (fun r => r.1.1) <$> frun (mk_file 0 512) ps one_file.

(** A write past the end leaves what the heap held before the written bytes. *)
Lemma hole_is_junk : fresult [FSeek 3 0; FWrite [1]; FSeek 0 0; FRead 4] = Some [FCode 3; FCode 1; FCode 0; FData 4 [7; 7; 7; 1] ].
Proof. vm_compute. reflexivity. Qed.

(** What was cut off comes back. *)
Lemma truncated_data_returns :
  fresult [FWrite [1; 2; 3; 4]; FTruncate 1; FSeek 3 0; FWrite [9]; FSeek 0 0; FRead 4] =
  Some [FCode 4; FCode 0; FCode 3; FCode 1; FCode 0; FData 4 [1; 2; 3; 9] ].
Proof. vm_compute. reflexivity. Qed.

(** FIONREAD looks at the size in the inode, which a write does not change. *)
Lemma fionread_is_stale :
  (fun r => r.1) <$> (r ← frun (mk_file 0 512) [FWrite [1; 2; 3]; FSeek 0 0]; ramfs_file_ioctl r.2 FIONREAD true) one_file =
  Some (0, Some 0).
Proof. vm_compute. reflexivity. Qed.

(** For a size over 2^31 the doubling wraps to zero and goes on for ever. *)
Lemma grow_never_ends (fuel : nat) (sz : Z) : 2 ^ 31 < sz < 2 ^ 32 -> grow_cap fuel RAMFS_INITIAL_CAP sz = None.
Proof.
  intros Hsz. assert (forall fuel, grow_cap fuel 0 sz = None) as H0.
  { induction fuel0 as [|k IH]; simpl; rewrite (proj2 (Z.leb_gt _ _)) by lia; [done|]. exact IH. }
  assert (forall (j : nat) fuel, (j <= 31)%nat -> grow_cap fuel (2 ^ (31 - Z.of_nat j)) sz = None) as Hj.
  { induction j as [|j IH]; intros k Hj.
    - destruct k as [|k]; simpl; rewrite (proj2 (Z.leb_gt _ _)) by lia; [done|]. apply H0.
    - assert (0 < 2 ^ (31 - Z.of_nat (S j)) <= 2 ^ 30) as Hb.
      { split; [apply Z.pow_pos_nonneg; lia|]. apply Z.pow_le_mono_r; lia. }
      assert (2 ^ (31 - Z.of_nat (S j)) * 2 = 2 ^ (31 - Z.of_nat j)) as Hd.
      { rewrite Z.mul_comm, <-Z.pow_succ_r by lia. f_equal. lia. }
      destruct k as [|k]; cbn [grow_cap]; rewrite (proj2 (Z.leb_gt _ _)) by lia; [done|].
      rewrite u32_small by (unfold is_u32; lia). rewrite Hd. apply IH. lia. }
  exact (Hj 25%nat fuel ltac:(lia)).
Qed.

(** ** Directories *)

Section directories.
Context `{Heap}.

(** [dir] is the entry of a directory: its inode, its node and that node's fields. *)
Record is_dir (s : fs) (dir : Z) (d : dentry_t) (i : inode_t) (n : ramfs_node) : Prop := {
  id_null : dir <> NULL /\ d_inode d <> NULL /\ private_data i <> NULL;
  id_dentry : dents s !! dir = Some d;
  id_inode : inodes s !! d_inode d = Some i;
  id_node : nodes s !! private_data i = Some n;
  id_mode : has_mode n FILE_MODE_DIR = true;
}.

Lemma wp_node_of (s : fs) (dir : Z) (d : dentry_t) (i : inode_t) (n : ramfs_node) (Q : Z -> fs -> Prop) :
  is_dir s dir d i n -> Q (private_data i) s -> wp (node_of dir) Q s.
Proof.
  intros [ (N1 & N2 & N3) Hd Hi Hn Hm] HQ. unfold node_of, get_dentry. rewrite (proj2 (Z.eqb_neq _ _) N1). wp_run.
  eapply wp_of_option; [done|]. rewrite (proj2 (Z.eqb_neq _ _) N2). wp_run. eapply wp_get_inode; [done|]. by wp_run.
Qed.

(** The walk along the entries does not depend on new entries nor on what lies below. *)
Lemma lookup_from_frame (fuel : nat) : forall (k : nat) (m m' : gmap Z dentry_t) (c : Z) (nm : list Z) (r : Z),
  (fuel <= k)%nat -> lookup_from fuel m c nm = Some r ->
  (forall y e, m !! y = Some e -> exists e', m' !! y = Some e' /\ d_name e' = d_name e /\ d_next e' = d_next e) ->
  lookup_from k m' c nm = Some r.
Proof.
  induction fuel as [|fuel IH]; intros k m m' c nm r Hk Hl Hm; simpl in Hl.
  - destruct (Z.eqb_spec c NULL) as [->|]; [injection Hl as <-; by destruct k|]. by destruct (m !! c).
  - destruct (Z.eqb_spec c NULL) as [->|Hne]; [injection Hl as <-; by destruct k|].
    destruct k as [|k]; [lia|]. simpl. rewrite (proj2 (Z.eqb_neq _ _) Hne). destruct (m !! c) as [e|] eqn:Ee; [|done].
    destruct (Hm c e Ee) as (e' & -> & -> & ->). case_bool_decide; [done|]. apply (IH k m m' _ nm r); [lia|done|done].
Qed.

(** The effect of [ramfs_build_dentry] when memory does not run out. *)
Lemma build_dentry_run (s : fs) (par node : Z) (nm : list Z) (p : dentry_t) (n : ramfs_node) :
  (forall s, new_address s <> NULL) -> par <> NULL -> dents s !! par = Some p -> nodes s !! node = Some n ->
  wp (ramfs_build_dentry par node nm) (fun d s' => d <> NULL /\ dents s !! d = None /\ nodes s' = nodes s /\ exists ia,
    ia <> NULL /\ inodes s !! ia = None /\
    inodes s' = <[ia := mk_inode (ino n) (mode n) (size n) (nlinks n) node d]> (inodes s) /\
    dents s' = <[par := set_d_child d p]> (<[d := mk_dentry (cut_name nm) par NULL (d_child p) ia]> (dents s))) s.
Proof.
  intros Hal Hpar Hp Hn. unfold ramfs_build_dentry, kmalloc_struct, count_alloc, put_inode. wp_run.
  pose proof (Hal s) as Hia. destruct (new_address_fresh s Hia) as (_ & Fi & _). set (ia := new_address s) in *.
  rewrite (proj2 (Z.eqb_neq _ _) Hia). wp_run. set (s1 := set_inodes _ _).
  pose proof (Hal s1) as Hda. destruct (new_address_fresh s1 Hda) as (_ & _ & Fd). set (da := new_address s1) in *. cbn in Fd.
  rewrite (proj2 (Z.eqb_neq _ _) Hda). wp_run. eapply wp_get_node; [done|]. unfold get_dentry, put_dentry. wp_run.
  eapply wp_of_option; [done|]. wp_run. unfold update_dentry, get_dentry, put_dentry. wp_run.
  eapply wp_of_option.
  { cbn. rewrite lookup_insert_ne; [done|]. intros E. rewrite E in Fd. by rewrite Fd in Hp. }
  wp_run. split_and!; [done|done|done|]. exists ia. split_and!; [done|done| |done]. cbn. by rewrite insert_insert_eq.
Qed.

Lemma lookup_op_eq (s : fs) (dir : Z) (d : dentry_t) (i : inode_t) (n : ramfs_node) (nm : list Z) :
  is_dir s dir d i n ->
  ramfs_lookup_op dir nm s =
    if bool_decide (nm = dot) then Some (dir, s) else if bool_decide (nm = dotdot) then Some (d_parent d, s)
    else (fun r => (r, s)) <$> lookup_from (base.size (dents s)) (dents s) (d_child d) nm.
Proof.
  intros Hd. pose proof Hd as [ (N1 & N2 & N3) Hdd Hi Hn Hm].
  assert (node_of dir s = Some (private_data i, s)) as En.
  { pose proof (wp_node_of s dir d i n (fun x s' => x = private_data i /\ s' = s) Hd (conj eq_refl eq_refl)) as Hwp.
    apply wp_run in Hwp as (x & s' & E & -> & ->). exact E. }
  unfold ramfs_lookup_op. unfold mbind at 1, FM_bind at 1. rewrite En. rewrite (proj2 (Z.eqb_neq _ _) N3).
  unfold get_node, get_dentry, gets, of_option, mbind, FM_bind, mret, FM_ret. rewrite Hn. simpl. rewrite Hm. simpl.
  case_bool_decide; [done|]. rewrite Hdd. simpl. case_bool_decide; [done|]. by destruct (lookup_from _ _ _ _).
Qed.

(** Creating a file: when the name is free in the directory and memory does not run out,
    [ramfs_create_op] succeeds; the new name then resolves to an entry whose inode leads to
    an empty regular file of that name, and every other name resolves as before. *)
Lemma create_lookup (s : fs) (dir md : Z) (d : dentry_t) (i : inode_t) (n : ramfs_node) (nm : list Z) :
  (forall s, new_address s <> NULL) -> is_dir s dir d i n -> nm <> dot -> nm <> dotdot -> zlen nm <= RAMFS_MAX_NAME ->
  find_from (base.size (nodes s)) (nodes s) (child n) nm = Some NULL ->
  exists s' y e j x, ramfs_create_op dir nm md s = Some (0, s') /\
    ramfs_lookup_op dir nm s' = Some (y, s') /\ y <> NULL /\ dents s' !! y = Some e /\ d_parent e = dir /\
    inodes s' !! d_inode e = Some j /\ nodes s' !! private_data j = Some x /\
    name x = nm /\ mode x = Z.lor md FILE_MODE_REG /\ size x = 0 /\ parent x = private_data i /\
    (forall nm' r, nm' <> nm -> ramfs_lookup_op dir nm' s = Some (r, s) -> ramfs_lookup_op dir nm' s' = Some (r, s')).
Proof.
  intros Hal Hd Hdot Hdd Hlen Hfree. pose proof Hd as [ (N1 & N2 & N3) Ed Ei En Em].
  assert (cut_name nm = nm) as Hcut by (apply take_ge; unfold zlen, RAMFS_MAX_NAME in *; lia).
  assert (wp (ramfs_create_op dir nm md) (fun r s' => r = 0 /\ exists x y ia nd, x <> NULL /\ nodes s !! x = None /\ y <> NULL /\
    dents s !! y = None /\ inodes s !! ia = None /\ name nd = nm /\ mode nd = Z.lor md FILE_MODE_REG /\ size nd = 0 /\
    parent nd = private_data i /\ nodes s' = <[private_data i := set_child x n]> (<[x := nd]> (nodes s)) /\
    (exists j, inodes s' = <[ia := j]> (inodes s) /\ private_data j = x) /\
    dents s' = <[dir := set_d_child y d]> (<[y := mk_dentry nm dir NULL (d_child d) ia]> (dents s))) s) as Hwp.
  { unfold ramfs_create_op. apply wp_bind. eapply wp_node_of; [exact Hd|]. rewrite (proj2 (Z.eqb_neq _ _) N3).
    apply wp_bind. eapply wp_get_node; [done|]. rewrite Em. simpl. unfold ramfs_find_child. rewrite (proj2 (Z.eqb_neq _ _) N3).
    wp_run. eapply wp_get_node; [done|]. rewrite Em. simpl. wp_run. rewrite Hfree. eapply wp_of_option; [done|]. simpl.
    unfold ramfs_new_node, kmalloc_struct, count_alloc, ramfs_alloc_ino, put_node. wp_run.
    pose proof (Hal s) as Hx. destruct (new_address_fresh s Hx) as (Fx & _ & _). set (x := new_address s) in *.
    rewrite (proj2 (Z.eqb_neq _ _) Hx). wp_run. rewrite (proj2 (Z.eqb_neq _ _) Hx). unfold link_child. wp_run.
    assert (private_data i <> x) as Hne by (intros E; rewrite <-E in Fx; by rewrite Fx in En).
    eapply wp_get_node; [cbn; by rewrite lookup_insert_ne|]. wp_run.
    eapply wp_update_node; [cbn; by rewrite lookup_insert_eq|]. wp_run.
    eapply wp_update_node; [cbn; rewrite !lookup_insert_ne by done; done|]. wp_run.
    eapply wp_mono; [eapply build_dentry_run; [done|exact N1|done|cbn; rewrite lookup_insert_ne, lookup_insert_eq by done; done]|].
    intros y s' _ (Hy & Fy & Enod & ia & Hia & Fia & Eino & Eden). rewrite (proj2 (Z.eqb_neq _ _) Hy). wp_run. split; [done|].
    exists x, y, ia. eexists. split_and!; [done|done|done|done|done|..|rewrite Enod; cbn; by rewrite insert_insert_eq| |by rewrite Eden, Hcut].
    - exact Hcut.
    - done.
    - done.
    - done.
    - rewrite Eino. by eexists. }
  apply wp_run in Hwp as (r & s' & Hrun & -> & x & y & ia & nd & Hx & Fx & Hy & Fy & Fia & E1 & E2 & E3 & E4 & Enod & (j & Eino & Ej) & Eden).
  assert (private_data i <> x) as Hne by (intros E; rewrite <-E in Fx; by rewrite Fx in En).
  assert (dir <> y) as Hney by (intros E; rewrite <-E in Fy; by rewrite Fy in Ed).
  assert (is_dir s' dir (set_d_child y d) i (set_child x n)) as Hd'.
  { constructor; [done|by rewrite Eden, lookup_insert_eq| |by rewrite Enod, lookup_insert_eq|exact Em].
    rewrite Eino, lookup_insert_ne; [done|]. cbn. intros E. rewrite <-E in Ei. by rewrite Fia in Ei. }
  assert (dents s' !! y = Some (mk_dentry nm dir NULL (d_child d) ia)) as Ey by (by rewrite Eden, lookup_insert_ne, lookup_insert_eq).
  assert (base.size (dents s') = S (base.size (dents s))) as Hsize.
  { rewrite Eden, map_size_insert_Some; [by rewrite map_size_insert_None|]. rewrite lookup_insert_ne by done. eauto. }
  exists s', y, (mk_dentry nm dir NULL (d_child d) ia), j, nd. split_and!; try done.
  - rewrite (lookup_op_eq s' dir _ _ _ nm Hd'), !bool_decide_false, Hsize by done. cbn [lookup_from d_child set_d_child].
    rewrite (proj2 (Z.eqb_neq _ _) Hy), Ey. cbn [d_name]. by rewrite bool_decide_true.
  - cbn. by rewrite Eino, lookup_insert_eq.
  - rewrite Enod, Ej, lookup_insert_ne, lookup_insert_eq by done. done.
  - intros nm' r Hnm Hl. rewrite (lookup_op_eq s' dir _ _ _ nm' Hd'). rewrite (lookup_op_eq s dir _ _ _ nm' Hd) in Hl.
    case_bool_decide; [by injection Hl as <-|]. case_bool_decide; [by injection Hl as <-|].
    apply fmap_Some in Hl as (r' & Hl & [= <-]). rewrite Hsize. cbn [lookup_from d_child set_d_child].
    rewrite (proj2 (Z.eqb_neq _ _) Hy), Ey. cbn [d_name d_next]. rewrite bool_decide_false by congruence.
    erewrite lookup_from_frame; [done|done|exact Hl|]. intros z e Hz. rewrite Eden.
    destruct (decide (z = dir)) as [->|]; [rewrite lookup_insert_eq; eexists; split; [done|]; by simplify_eq|].
    rewrite lookup_insert_ne by done. rewrite lookup_insert_ne; [by eauto|]. intros ->. by rewrite Fy in Hz.
Qed.
End directories.

(** *** A mounted file system *)

(** The root entry, which the mount of the virtual file system makes, is at 8. *)
Definition mounted `{Heap} : M unit :=
  i ← ramfs_mount; put_dentry 8 (mk_dentry [47] 8 NULL NULL i).
Definition nothing : fs := mk_fs ∅ ∅ ∅ NULL 1 0.
Definition on_mounted `{Heap} {A} (m : M A) : option A := fst <$> (mounted ;; m) nothing.
Definition fname (k : Z) : list Z := [97 + k].

Lemma create_then_find :
  on_mounted (ramfs_create_op 8 (fname 0) 3 ;; ramfs_mkdir_op 8 (fname 1) 3 ;; d ← ramfs_lookup_op 8 (fname 1);
    ramfs_create_op d (fname 2) 3 ;; r ← ramfs_create_op 8 (fname 0) 3; q ← ramfs_rmdir_op 8 (fname 1);
    st ← ramfs_get_stats; mret (r, q, st)) = Some (-1, -1, Some (mk_stats 0 0 4 2 2)).
Proof. vm_compute. reflexivity. Qed.

Definition present (d : Z) (k : Z) : M bool := r ← ramfs_lookup_op d (fname k); mret (negb (r =? NULL)).

(** Renaming a directory gives it a new entry without children: its files are not found. *)
Lemma rename_loses_children :
  on_mounted (ramfs_mkdir_op 8 (fname 0) 3 ;; d ← ramfs_lookup_op 8 (fname 0); ramfs_create_op d (fname 2) 3 ;;
    before ← present d 2; r ← ramfs_rename_op 8 (fname 0) 8 (fname 1); d ← ramfs_lookup_op 8 (fname 1);
    after ← present d 2; mret (before, r, after)) = Some (true, 0, false).
Proof. vm_compute. reflexivity. Qed.

(** A directory moved into itself is used after it was freed. *)
Lemma rename_into_itself_faults :
  on_mounted (ramfs_mkdir_op 8 (fname 0) 3 ;; d ← ramfs_lookup_op 8 (fname 0); ramfs_rename_op 8 (fname 0) d (fname 1)) = None.
Proof. vm_compute. reflexivity. Qed.

(** A file that is removed while it is open is used after it was freed. *)
Lemma unlink_open_file_faults :
  on_mounted (ramfs_create_op 8 (fname 0) 3 ;; y ← ramfs_lookup_op 8 (fname 0); e ← get_dentry y;
    let f := mk_file 0 (d_inode e) in
    r ← ramfs_file_write f [1]; ramfs_unlink_op 8 (fname 0) ;; ramfs_file_read r.2 1) = None.
Proof. vm_compute. reflexivity. Qed.

(** A name over 255 bytes is cut when it is stored and not when it is compared: creating it
    twice succeeds, and looking it up fails. *)
Lemma long_name_not_found :
  on_mounted (a ← ramfs_create_op 8 (replicate 256 97) 3; b ← ramfs_create_op 8 (replicate 256 97) 3;
    y ← ramfs_lookup_op 8 (replicate 256 97); mret (a, b, y)) = Some (0, 0, NULL).
Proof. vm_compute. reflexivity. Qed.
End RamFs.

(** A heap that is full after five allocations. *)
Module RamFsFull.
Import RamFs.
#[local, program] Instance full_heap : Heap := {
  new_address := fun s => if allocs s <? 5 then counted_address s else NULL;
  new_block := fun _ _ => None;
}.
Next Obligation. intros s. simpl. case_if; [|done]. apply (@new_address_fresh counting_heap s). Qed.
Next Obligation. done. Qed.

(** A rename that fails for lack of memory has already removed the old entry: the file is
    not found any more, and its name cannot be used again. *)
Lemma failed_rename_loses_file :
  on_mounted (a ← ramfs_create_op 8 (fname 0) 3; r ← ramfs_rename_op 8 (fname 0) 8 (fname 1);
    y ← ramfs_lookup_op 8 (fname 0); b ← ramfs_create_op 8 (fname 0) 3; mret (a, r, y, b)) = Some (0, -1, NULL, -1).
Proof. vm_compute. reflexivity. Qed.
End RamFsFull.
