(* ===== verification/Futex.v ===== *)
(** * Futexes (src/kernel/futex.c)

    [Module Futex]: the buckets, the waiters in a memory keyed by address, the words of user
    memory and the counters; the operations as a state monad with faults (FaultM.v).  A
    waiter lives on the stack of the process that waits.  [futex_wait_bitset] is cut where
    other processes can run: the test of the word, the enqueueing, each pass of the loop
    that polls the state, and the end, when the stack frame is gone.  The process numbers in
    the waiters, which nothing reads, and the spin locks are left out.

    [wake_fifo]: a wake-up wakes the first waiters for the word in the order in which they
    came, at most as many as asked for.  The lemmas at the end show defects: a waiter that
    was woken or timed out stays in its bucket when its frame is gone, and a wake-up between
    the test and the enqueueing is lost. *)

From S2P Require Import Prelude FaultM Dll.

Module Futex.

Definition FUTEX_HASH_SIZE : Z := 256.

Inductive futex_state_t := FUTEX_WAITING | FUTEX_WOKEN | FUTEX_REQUEUED | FUTEX_TIMEDOUT | FUTEX_RETRY.
#[export] Instance futex_state_eq_dec : EqDecision futex_state_t.
Proof. solve_decision. Defined.

Record futex_q := mk_q { q_uaddr : Z; q_bitset : Z; q_state : futex_state_t; q_task : Z; q_next : Z; q_prev : Z }.
Definition set_q_uaddr (v : Z) (q : futex_q) : futex_q := mk_q v (q_bitset q) (q_state q) (q_task q) (q_next q) (q_prev q).
Definition set_q_state (v : futex_state_t) (q : futex_q) : futex_q := mk_q (q_uaddr q) (q_bitset q) v (q_task q) (q_next q) (q_prev q).
Definition set_q_next (v : Z) (q : futex_q) : futex_q := mk_q (q_uaddr q) (q_bitset q) (q_state q) (q_task q) v (q_prev q).
Definition set_q_prev (v : Z) (q : futex_q) : futex_q := mk_q (q_uaddr q) (q_bitset q) (q_state q) (q_task q) (q_next q) v.

Record futex_bucket := mk_bucket { head : Z; tail : Z; count : Z }.
#[export] Instance futex_bucket_inhabited : Inhabited futex_bucket := populate (mk_bucket 0 0 0).

(** [unblocked]: the tasks given to [sched_unblock]. *)
Record futex := mk_futex {
  buckets : list futex_bucket; qs : gmap Z futex_q; uword : Z -> Z; total_waiters : Z;
  wake_count : Z; wait_count : Z; requeue_count : Z; unblocked : list Z;
}.
Definition eta_futex (s : futex) : futex :=
  mk_futex (buckets s) (qs s) (uword s) (total_waiters s) (wake_count s) (wait_count s) (requeue_count s) (unblocked s).
Definition set_buckets (v : list futex_bucket) (s : futex) : futex := ltac:(set_field eta_futex s buckets v).
Definition set_qs (v : gmap Z futex_q) (s : futex) : futex := ltac:(set_field eta_futex s qs v).
Definition set_uword (v : Z -> Z) (s : futex) : futex := ltac:(set_field eta_futex s uword v).
Definition set_total (v : Z) (s : futex) : futex := ltac:(set_field eta_futex s total_waiters v).
Definition set_wake_count (v : Z) (s : futex) : futex := ltac:(set_field eta_futex s wake_count v).
Definition set_wait_count (v : Z) (s : futex) : futex := ltac:(set_field eta_futex s wait_count v).
Definition set_requeue_count (v : Z) (s : futex) : futex := ltac:(set_field eta_futex s requeue_count v).
Definition set_unblocked (v : list Z) (s : futex) : futex := ltac:(set_field eta_futex s unblocked v).

Notation M := (FM futex).

Definition futex_hash (uaddr : Z) : Z :=
  let a := Z.lxor uaddr (Z.shiftr uaddr 16) in
  let a := Z.lxor a (Z.shiftr a 8) in
  a mod FUTEX_HASH_SIZE.

Definition futex_init : M unit :=
  modify (fun s => set_requeue_count 0 (set_wait_count 0 (set_wake_count 0 (set_total 0
    (set_buckets ((fun _ => mk_bucket NULL NULL 0) <$> range 0 FUTEX_HASH_SIZE) s))))).

Definition get_q (a : Z) : M futex_q := q ← gets (fun s => qs s !! a); of_option q.
Definition update_q (a : Z) (f : futex_q -> futex_q) : M unit :=
  get_q a ;; modify (fun s => set_qs (alter f a (qs s)) s).
Definition update_bucket (idx : Z) (f : futex_bucket -> futex_bucket) : M unit :=
  modify (fun s => set_buckets ((buckets s).[idx <- f (buckets s).[idx]]) s).

Definition is_waiting (q : futex_q) : bool := bool_decide (q_state q = FUTEX_WAITING).

(** The loop of [futex_find_waiter]. *)
Fixpoint find_waiter_from (fuel : nat) (m : gmap Z futex_q) (a uaddr : Z) : option Z :=
  if a =? NULL then Some NULL else
  match m !! a, fuel with
  | Some q, S fuel => if (q_uaddr q =? uaddr) && is_waiting q then Some a else find_waiter_from fuel m (q_next q) uaddr
  | _, _ => None
  end.
Definition futex_find_waiter (idx uaddr : Z) : M Z :=
  r ← gets (fun s => find_waiter_from (size (qs s)) (qs s) (head (buckets s).[idx]) uaddr); of_option r.

Definition futex_add_waiter (idx q : Z) : M unit :=
  b ← gets (fun s => (buckets s).[idx]);
  update_q q (fun x => set_q_prev (tail b) (set_q_next NULL x)) ;;
  (if tail b =? NULL then update_bucket idx (fun b => mk_bucket q (tail b) (count b))
   else update_q (tail b) (set_q_next q)) ;;
  update_bucket idx (fun b => mk_bucket (head b) q (u32 (count b + 1))) ;;
  modify (fun s => set_total (u32 (total_waiters s + 1)) s).

Definition futex_remove_waiter (idx q : Z) : M unit :=
  x ← get_q q;
  (if q_prev x =? NULL then update_bucket idx (fun b => mk_bucket (q_next x) (tail b) (count b))
   else update_q (q_prev x) (set_q_next (q_next x))) ;;
  (if q_next x =? NULL then update_bucket idx (fun b => mk_bucket (head b) (q_prev x) (count b))
   else update_q (q_next x) (set_q_prev (q_prev x))) ;;
  update_bucket idx (fun b => mk_bucket (head b) (tail b) (u32 (count b - 1))) ;;
  modify (fun s => if 0 <? total_waiters s then set_total (total_waiters s - 1) s else s).

Definition sched_unblock (task : Z) : M unit := modify (fun s => set_unblocked (unblocked s ++ [task]) s).

(** The tests of [futex_wake_internal] on a waiter. *)
Definition wakes (uaddr bitset : Z) (q : futex_q) : bool :=
  (q_uaddr q =? uaddr) && is_waiting q && ((bitset =? 0) || c_true (Z.land (q_bitset q) bitset)).

Fixpoint wake_from (fuel : nat) (a uaddr cnt bitset woken : Z) : M Z :=
  if (a =? NULL) || (cnt <=? woken) then mret woken else
  match fuel with
  | O => fault
  | S fuel =>
      q ← get_q a;
      (if wakes uaddr bitset q then
         update_q a (set_q_state FUTEX_WOKEN) ;;
         (if q_task q =? NULL then mret tt else sched_unblock (q_task q))
       else mret tt) ;;
      wake_from fuel (q_next q) uaddr cnt bitset (if wakes uaddr bitset q then woken + 1 else woken)
  end.
Definition futex_wake_internal (idx uaddr cnt bitset : Z) : M Z :=
  a ← gets (fun s => head (buckets s).[idx]);
  fuel ← gets (fun s => size (qs s));
  woken ← wake_from fuel a uaddr cnt bitset 0;
  modify (fun s => set_wake_count (u64 (wake_count s + woken)) s) ;;
  mret woken.

Definition futex_wake_bitset (uaddr cnt bitset : Z) : M Z :=
  if (uaddr =? NULL) || (cnt <=? 0) then mret (-22) else futex_wake_internal (futex_hash uaddr) uaddr cnt bitset.
Definition futex_wake (uaddr cnt : Z) : M Z := futex_wake_bitset uaddr cnt 0xFFFFFFFF.

(** *** Waiting *)

(** The tests; 0 when the call goes on. *)
Definition wait_check (uaddr val : Z) : M Z :=
  if uaddr =? NULL then mret (-22) else
  v ← gets (fun s => uword s uaddr);
  mret (if negb (v =? val) then -11 else 0).

(** The waiter [q] of the process [task] is set up and enqueued. *)
Definition wait_enqueue (q task uaddr bitset : Z) : M unit :=
  modify (fun s => set_qs (<[q := mk_q uaddr bitset FUTEX_WAITING task NULL NULL]> (qs s)) s) ;;
  futex_add_waiter (futex_hash uaddr) q ;;
  modify (fun s => set_wait_count (u64 (wait_count s + 1)) s).

(** One pass of the polling loop, with the answers of [kb_signal_check] and of the clock;
    whether the loop ends. *)
Definition wait_poll (q timeout_ms : Z) (signalled : bool) (elapsed : Z) : M bool :=
  x ← get_q q;
  if negb (is_waiting x) then mret true
  else if signalled then update_q q (set_q_state FUTEX_RETRY) ;; mret true
  else if (0 <? timeout_ms) && (timeout_ms <=? elapsed) then update_q q (set_q_state FUTEX_TIMEDOUT) ;; mret true
  else mret false.

(** The end of the call; the frame with the waiter is gone. *)
Definition wait_finish (q uaddr : Z) : M Z :=
  x ← get_q q;
  (if is_waiting x then futex_remove_waiter (futex_hash uaddr) q else mret tt) ;;
  modify (fun s => set_qs (delete q (qs s)) s) ;;
  mret (match q_state x with FUTEX_WOKEN => 0 | FUTEX_TIMEDOUT => -110 | FUTEX_RETRY => -4 | _ => -5 end).

(** *** Requeueing *)

Fixpoint requeue_from (fuel : nat) (a idx1 idx2 uaddr uaddr2 val2 requeued : Z) : M Z :=
  if (a =? NULL) || (val2 <=? requeued) then mret requeued else
  match fuel with
  | O => fault
  | S fuel =>
      q ← get_q a;
      let hit := (q_uaddr q =? uaddr) && is_waiting q in
      (if hit then
         futex_remove_waiter idx1 a ;;
         update_q a (fun x => set_q_state FUTEX_WAITING (set_q_state FUTEX_REQUEUED (set_q_uaddr uaddr2 x))) ;;
         futex_add_waiter idx2 a
       else mret tt) ;;
      requeue_from fuel (q_next q) idx1 idx2 uaddr uaddr2 val2 (if hit then requeued + 1 else requeued)
  end.
Definition futex_requeue (uaddr val val2 uaddr2 : Z) : M Z :=
  if (uaddr =? NULL) || (uaddr2 =? NULL) then mret (-22) else
  let idx1 := futex_hash uaddr in
  let idx2 := futex_hash uaddr2 in
  woken ← futex_wake_internal idx1 uaddr val 0xFFFFFFFF;
  a ← gets (fun s => head (buckets s).[idx1]);
  fuel ← gets (fun s => (size (qs s) + Z.to_nat val2)%nat);
  requeued ← requeue_from fuel a idx1 idx2 uaddr uaddr2 val2 0;
  modify (fun s => set_requeue_count (u64 (requeue_count s + requeued)) s) ;;
  mret (woken + requeued).
Definition futex_cmp_requeue (uaddr val val2 uaddr2 val3 : Z) : M Z :=
  if (uaddr =? NULL) || (uaddr2 =? NULL) then mret (-22) else
  v ← gets (fun s => uword s uaddr);
  if negb (v =? val3) then mret (-11) else futex_requeue uaddr val val2 uaddr2.

(** ** Waking *)

(** The bucket holds the waiters [l] in this order. *)
Fixpoint queue (m : gmap Z futex_q) (a : Z) (l : list Z) : Prop :=
  match l with
  | [] => a = NULL
  | x :: l => a = x /\ x <> NULL /\ exists q, m !! x = Some q /\ queue m (q_next q) l
  end.

Definition wakes_at (m : gmap Z futex_q) (uaddr bitset x : Z) : bool :=
  match m !! x with Some q => wakes uaddr bitset q | None => false end.
(** Marking the waiters, and the tasks to unblock. *)
Definition mark (ws : list Z) (m : gmap Z futex_q) : gmap Z futex_q :=
  foldl (fun m x => alter (set_q_state FUTEX_WOKEN) x m) m ws.
Definition tasks (ws : list Z) (m : gmap Z futex_q) : list Z :=
  ws ≫= fun x => match m !! x with Some q => if q_task q =? NULL then [] else [q_task q] | None => [] end.

Lemma wp_get_q (a : Z) (q : futex_q) (Q : futex_q -> futex -> Prop) (s : futex) :
  qs s !! a = Some q -> Q q s -> wp (get_q a) Q s.
Proof. intros Hq HQ. unfold get_q. wp_run. by eapply wp_of_option. Qed.

Lemma wp_update_q (a : Z) (f : futex_q -> futex_q) (Q : unit -> futex -> Prop) (s : futex) :
  is_Some (qs s !! a) -> Q tt (set_qs (alter f a (qs s)) s) -> wp (update_q a f) Q s.
Proof. intros [q Hq] HQ. unfold update_q. wp_run. eapply wp_get_q; [done|]. by wp_run. Qed.

Lemma queue_frame (m m' : gmap Z futex_q) (l : list Z) : forall a,
  (forall x q, x ∈ l -> m !! x = Some q -> exists q', m' !! x = Some q' /\ q_next q' = q_next q) ->
  queue m a l -> queue m' a l.
Proof.
  induction l as [|x l IH]; intros a Hm; [done|]. intros (-> & Hx & q & Hq & Hl). split_and!; [done|done|].
  destruct (Hm x q ltac:(by left) Hq) as (q' & Hq' & E). exists q'. split; [done|]. rewrite E.
  apply IH; [|done]. intros y z Hy. apply Hm. by right.
Qed.

Definition chosen (m : gmap Z futex_q) (uaddr bitset cnt : Z) (l : list Z) : list Z :=
  take (Z.to_nat cnt) (List.filter (wakes_at m uaddr bitset) l).

(** Marking one waiter changes nothing for the others. *)
Lemma wakes_at_alter (m : gmap Z futex_q) (u bs x y : Z) (f : futex_q -> futex_q) :
  y <> x -> wakes_at (alter f x m) u bs y = wakes_at m u bs y.
Proof. intros Hne. unfold wakes_at. by rewrite lookup_alter_ne by congruence. Qed.

Lemma filter_alter (m : gmap Z futex_q) (u bs x : Z) (f : futex_q -> futex_q) (l : list Z) :
  x ∉ l -> List.filter (wakes_at (alter f x m) u bs) l = List.filter (wakes_at m u bs) l.
Proof.
  intros Hx. apply List.filter_ext_in. intros y Hy%list_elem_of_In. apply wakes_at_alter. intros ->. done.
Qed.

Lemma tasks_alter (m : gmap Z futex_q) (x : Z) (st : futex_state_t) (ws : list Z) :
  tasks ws (alter (set_q_state st) x m) = tasks ws m.
Proof.
  unfold tasks. induction ws as [|y ws IH]; [done|]. rewrite !bind_cons, IH. f_equal. rewrite lookup_alter_if.
  destruct (m !! y) as [q|]; [|done]. simpl. by case_decide.
Qed.

Lemma wake_from_run (l : list Z) (u cnt bs : Z) : forall (fuel : nat) (a woken : Z) (s : futex),
  queue (qs s) a l -> NoDup l -> (length l <= fuel)%nat ->
  wp (wake_from fuel a u cnt bs woken) (fun r s' =>
    let W := chosen (qs s) u bs (cnt - woken) l in
    r = woken + zlen W /\ s' = set_unblocked (unblocked s ++ tasks W (qs s)) (set_qs (mark W (qs s)) s)) s.
Proof.
  induction l as [|x l IH]; intros fuel a woken s Hq Hnd Hf.
  - simpl in Hq. subst a. destruct fuel; simpl; apply wp_ret; unfold chosen; simpl; rewrite take_nil.
    all: split; [change (zlen []) with 0; lia|]; unfold tasks; simpl; rewrite app_nil_r; by destruct s.
  - destruct Hq as (-> & Hx & q & Hq & Hl). apply NoDup_cons in Hnd as [Hxl Hnd].
    destruct fuel as [|fuel]; simpl in Hf; [lia|]. cbn [wake_from]. rewrite (proj2 (Z.eqb_neq _ _) Hx). simpl orb.
    destruct (Z.leb_spec cnt woken) as [Hle|Hlt].
    { apply wp_ret. unfold chosen. replace (Z.to_nat (cnt - woken)) with 0%nat by lia.
      rewrite take_0. split; [change (zlen []) with 0; lia|]. unfold tasks. simpl. rewrite app_nil_r. by destruct s. }
    apply wp_bind. eapply wp_get_q; [done|].
    assert (wakes_at (qs s) u bs x = wakes u bs q) as Hwx by (unfold wakes_at; by rewrite Hq).
    destruct (wakes u bs q) eqn:Ew.
    + apply (wp_seq _ _ (fun _ s1 => s1 = set_unblocked (unblocked s ++ (if q_task q =? NULL then [] else [q_task q]))
        (set_qs (alter (set_q_state FUTEX_WOKEN) x (qs s)) s))).
      { apply wp_bind, wp_update_q; [eauto|]. unfold sched_unblock. case_if; wp_run; [cbn; rewrite app_nil_r; by destruct s|done]. }
      intros [] s1 ->. eapply wp_mono.
      { apply (IH fuel _ (woken + 1)); [|done|lia]. cbn. eapply queue_frame; [|exact Hl].
        intros y z Hy Hz. exists z. rewrite lookup_alter_ne; [done|]. intros ->. done. }
      intros r s2 _ [-> ->]. unfold chosen. cbn [qs set_qs set_unblocked unblocked]. rewrite filter_alter by done. cbn [List.filter]. rewrite Hwx.
      replace (Z.to_nat (cnt - woken)) with (S (Z.to_nat (cnt - (woken + 1)))) by lia. cbn [firstn].
      set (W := take _ _). split; [unfold zlen; simpl length; lia|].
      rewrite tasks_alter. unfold tasks. rewrite bind_cons, Hq. unfold mark. cbn. by rewrite app_assoc.
    + apply (wp_seq _ _ (fun _ s1 => s1 = s)); [by apply wp_ret|]. intros [] s1 ->.
      eapply wp_mono; [by apply (IH fuel _ woken); [|done|lia]|]. intros r s2 _ [-> ->]. unfold chosen. cbn [List.filter].
      by rewrite Hwx.
Qed.

Lemma mark_lookup (ws : list Z) : forall (m : gmap Z futex_q) (x : Z),
  mark ws m !! x = if decide (x ∈ ws) then set_q_state FUTEX_WOKEN <$> m !! x else m !! x.
Proof.
  induction ws as [|y ws IH]; intros m x; [rewrite decide_False; [done|set_solver]|].
  change (mark (y :: ws) m) with (mark ws (alter (set_q_state FUTEX_WOKEN) y m)). rewrite IH.
  rewrite lookup_alter_if. destruct (decide (x = y)) as [->|Hne].
  - rewrite (decide_True (P := y ∈ y :: ws)) by (by left). case_decide; destruct (m !! y); done.
  - case_decide as Hin.
    + rewrite decide_True by (by right). by destruct (m !! x).
    + rewrite decide_False; [by destruct (m !! x)|]. intros [->|?]%elem_of_cons; done.
Qed.

Lemma queue_in_memory (m : gmap Z futex_q) (l : list Z) (a : Z) : queue m a l -> NoDup l -> (length l <= size m)%nat.
Proof.
  intros Hq Hnd. rewrite <-(size_list_to_set (C := gset Z)) by done. rewrite <-(size_dom (D := gset Z)).
  apply subseteq_size. intros x Hx%elem_of_list_to_set. apply elem_of_dom. clear Hnd. revert a Hq Hx.
  induction l as [|y l IH]; intros a Hq Hx; [set_solver|]. destruct Hq as (-> & _ & q & Hq & Hl).
  apply elem_of_cons in Hx as [->|Hx]; [eauto|]. by eapply IH.
Qed.

(** C#: a wake-up serves the waiters in the order in which they came: of the waiters in the
    bucket of the word, [futex_wake_bitset] wakes the first [cnt] that wait for this word
    with a matching bitset (all of them when there are fewer), marks exactly these as
    woken, unblocks exactly their tasks in this order, and returns how many they were. *)
Theorem wake_fifo (s : futex) (u cnt bs : Z) (l : list Z) :
  u <> NULL -> 0 < cnt -> queue (qs s) (head (buckets s).[futex_hash u]) l -> NoDup l ->
  let W := chosen (qs s) u bs cnt l in
  exists s', futex_wake_bitset u cnt bs s = Some (zlen W, s') /\ unblocked s' = unblocked s ++ tasks W (qs s) /\
    buckets s' = buckets s /\
    forall x, qs s' !! x = if decide (x ∈ W) then set_q_state FUTEX_WOKEN <$> qs s !! x else qs s !! x.
Proof.
  intros Hu Hc Hq Hnd W.
  assert (wp (futex_wake_bitset u cnt bs) (fun r s' => r = zlen W /\ unblocked s' = unblocked s ++ tasks W (qs s) /\
    buckets s' = buckets s /\ qs s' = mark W (qs s)) s) as Hwp.
  { unfold futex_wake_bitset. rewrite (proj2 (Z.eqb_neq _ _) Hu), (proj2 (Z.leb_gt _ _) Hc). simpl orb. cbv iota.
    unfold futex_wake_internal. wp_run. eapply wp_mono.
    - apply (wake_from_run l); [done|done|by eapply queue_in_memory].
    - intros r s1 _ [-> ->]. wp_run. rewrite Z.sub_0_r. fold W. by split_and!. }
  apply wp_run in Hwp as (r & s' & Hr & -> & H1 & H2 & H3). exists s'. split_and!; try done.
  intros x. rewrite H3. apply mark_lookup.
Qed.

(** ** A concrete run *)

Definition idle : futex := mk_futex [] ∅ (fun _ => 0) 0 0 0 0 [].
(** Three processes wait for the words at 64 and 68, the second with another bitset. *)
Definition three_waiters : M unit :=
  futex_init ;; wait_enqueue 4096 10 64 1 ;; wait_enqueue 8192 20 64 2 ;; wait_enqueue 12288 30 64 3.
Definition waiting : futex := match three_waiters idle with Some (_, s) => s | None => idle end.

Lemma wake_fifo_witness :
  exists s', futex_wake_bitset 64 5 1 waiting = Some (2, s') /\ unblocked s' = [10; 30].
Proof.
  destruct (wake_fifo waiting 64 5 1 [4096; 8192; 12288]) as (s' & H1 & H2 & _).
  - done.
  - lia.
  - vm_compute. split_and!; try done. eexists. split; [reflexivity|]. split_and!; try done. eexists. split; [reflexivity|].
    split_and!; try done. eexists. split; reflexivity.
  - apply (bool_decide_unpack _). vm_compute. done.
  - exists s'. split; [exact H1|]. rewrite H2. vm_compute. reflexivity.
Defined.

(** *** Defects *)

(** A waiter that was woken stays in the bucket when its frame is gone: the next wake-up of
    the bucket follows a dangling pointer.  So it is after a timeout. *)
Lemma woken_waiter_dangles :
  (futex_init ;; wait_enqueue 4096 10 64 1 ;; futex_wake 64 1 ;; wait_poll 4096 0 false 0 ;;
   r ← wait_finish 4096 64; mret r) idle ≫= (fun r => Some r.1) = Some 0 /\
  (futex_init ;; wait_enqueue 4096 10 64 1 ;; futex_wake 64 1 ;; wait_poll 4096 0 false 0 ;; wait_finish 4096 64 ;;
   futex_wake 64 1) idle = None.
Proof. split; vm_compute; reflexivity. Qed.

Lemma timed_out_waiter_dangles :
  (futex_init ;; wait_enqueue 4096 10 64 1 ;; wait_poll 4096 100 false 100 ;; wait_finish 4096 64 ;; futex_wake 64 1) idle = None.
Proof. vm_compute. reflexivity. Qed.

(** The word is tested before the bucket is locked: a wake-up between the test and the
    enqueueing finds nobody, and the process waits although the word has changed. *)
Lemma wakeup_lost :
  (futex_init ;; c ← wait_check 64 0; modify (set_uword (fun a => if a =? 64 then 1 else 0)) ;; w ← futex_wake 64 1;
   wait_enqueue 4096 10 64 0xFFFFFFFF ;; e ← wait_poll 4096 0 false 0; v ← gets (fun s => uword s 64); mret (c, w, e, v)) idle
  ≫= (fun r => Some r.1) = Some (0, 0, false, 1).
Proof. vm_compute. reflexivity. Qed.
End Futex.
